(* ===== verification/_CoqProject ===== *)
-Q . S2P
Prelude.v
Memblock.v
MemblockArray.v
MemblockFind.v
MemblockState.v
MemblockOps.v
MemblockProps.v
Bits.v
Hweight.v
FindBit.v
Bitmap.v
BitmapFacts.v
BitmapAlloc.v
BitmapMap.v
BitmapProps.v
Kfifo.v
KfifoFacts.v
KfifoOps.v
KfifoRecords.v
KfifoUser.v
KfifoSpsc.v
KfifoDma.v
KfifoProps.v
Sort.v
SortFacts.v
Range.v
RangeFacts.v
RangeProps.v
Ashmem.v
AshmemFacts.v
AshmemOps.v
AshmemPages.v
AshmemDriver.v
AshmemOrder.v
AshmemProps.v
Kstrtox.v
KstrtoxFacts.v
Vsprintf.v
VsprintfFacts.v
BitmapParse.v
BitmapParseFacts.v
BitmapPrint.v
NumberText.v
BitmapList.v
FormatProps.v
Semaphore.v
SemaphoreFacts.v
SemaphoreProps.v
Resource.v
ResourceFacts.v
ResourceFind.v
ResourceOps.v
ResourceInsert.v
ResourceSubtree.v
ResourceRegion.v
ResourceRelease.v
ResourceSplit.v
ResourceProps.v
Rbtree.v
RbtreeFacts.v
RbtreeInsert.v
RbtreeErase.v
RbtreeRemove.v
RbtreeWalk.v
RbtreeSpec.v
RbtreeProps.v
Timerqueue.v
TimerqueueFacts.v
TimerqueueProps.v
Binder.v
BinderFacts.v
BinderLayout.v
BinderTree.v
BinderInv.v
BinderAlloc.v
BinderFree.v
BinderUse.v
BinderProps.v
Numbers.v
NumbersProps.v
