(* ===== verification/Prelude.v ===== *)
(** * A verification of parts of the Linux kernel for the device "cupcake"

    The repository is the source of an arm64 Linux 4.4 kernel with MediaTek and
    Android drivers. This library models those parts of it that are algorithmic,
    that other code relies on, and whose state is in the sources: the boot-time
    allocator, bitmaps with their searches, the kfifo ring buffer, sorting and
    searching, range tables, numbers and bitmaps as text, counting semaphores,
    trees of address resources, red-black trees, timer queues, the buffers of
    binder, the arithmetic of the library, and the ashmem driver.
    Every definition is executable and follows the C function of the same name,
    branch by branch.

    ** How C is modelled

    A [w]-bit integer is a [Z]; [wrap w] and [swrap w] (this file) reduce a result
    to its width wherever the C operation could leave it. Pointers into an array
    are indices, linked objects are identities in a store ([gmap]), so that a use
    after free is visible. A computation has type [outcome A]: [Ok], [Oops] for
    a BUG, an access out of bounds or a dangling pointer, and [NoFuel] for a loop
    that has used up its fuel. Fuel is always a bound the code itself implies
    (entries left in an array, words of a bitmap, depth of a heap, length of a
    list), and the theorems state that the result is [Ok], so fuel never
    restricts them. The one exception is the mutual recursion by which the early
    allocator grows its arrays, which has no bound in the code: it is cut at a
    depth, and but for the one that shows its defect the theorems are about calls
    that do not grow an array.
    Configuration is that of the device: arm64, 4 KiB pages,
    little endian.

    ** Early allocator: [mm/memblock.c]

    - [Memblock]: the arrays of regions and every operation on them, including
      [memblock_double_array] with its mutual recursion through
      [memblock_reserve] and [memblock_free] tied by a depth bound.
    - [MemblockArray]: insertion, merging, isolation and removal, as functions on
      the map from addresses to attributes.
    - [MemblockFind]: the iterators over free ranges and both searches.
    - [MemblockState], [MemblockOps]: the allocator invariant, that every operation
      that returns keeps it, and that operations return when no array grows; the class [GrowSafe] is what the operations rely on
      when they grow an array, and is discharged for the real growing routine.
    - [MemblockProps]: totality and the invariant from boot until arrays may grow;
      when the array has room or may not grow, exactness of add, remove and
      flag changes, and soundness and completeness of allocation; those of the
      search in every state; that growing can put the two arrays on top of each
      other, and one more defect. The arrays are lists, so what such an overlap
      would overwrite is not modelled.

    ** Bitmaps: [lib/bitmap.c], [lib/find_bit.c], [lib/hweight.c], [include/linux/bitmap.h]

    - [Bits]: words, masks, [__ffs], [__fls]. [Hweight]: population counts.
      [FindBit]: the searches of [find_bit.c].
    - [Bitmap]: the operations; [BitmapFacts]: logic, comparison, shifts, ranges;
      [BitmapAlloc]: zero areas and power-of-two regions; [BitmapMap]: ordinals,
      remapping, folding.
    - [BitmapProps]: each operation against its description bit by bit, also when
      the destination is a source; agreement of the one-word inline variants with
      the general routines; one defect.

    ** Ring buffer: [lib/kfifo.c], [include/linux/kfifo.h]

    - [Kfifo]: all of [kfifo.c] and the macros on it. [KfifoFacts]: the ring and
      its index arithmetic modulo 2^32. [KfifoOps], [KfifoRecords], [KfifoUser],
      [KfifoDma]: bytes, records, user copies with faults, scatterlists.
    - [KfifoSpsc]: one writer and one reader whose copies interleave byte by byte,
      as a step relation.
    - [KfifoProps]: refinement of a bounded queue under every sequence of calls,
      and of a queue of records under those that keep to the length field and do
      not skip in an empty fifo; the interleaving theorem; two defects.

    ** Sorting, searching and range tables: [lib/sort.c], [lib/bsearch.c], [kernel/range.c]

    - [Sort], [SortFacts]: the heapsort on byte offsets held in [int], and
      [bsearch], for any comparison that satisfies the class [Comparison].
    - [Range], [RangeFacts]: tables of ranges as sets of addresses, and what is lost
      when a table is full; [RangeProps] holds the theorems of both, [clean_sort_range] being a client of [sort]
      through [Comparison].

    ** Text: [lib/kstrtox.c], [lib/vsprintf.c], the parsers of [lib/bitmap.c]

    - [Kstrtox], [KstrtoxFacts]: the number parsers, against what a string
      denotes. [Vsprintf], [VsprintfFacts]: [number] and the decimal conversion,
      against the layout of a format; the bitmap formats [%*pb] and [%*pbl].
    - [BitmapParse], [BitmapParseFacts]: the hexadecimal and the list parser.
      [BitmapPrint], [NumberText], [BitmapList]: the text that is printed and that
      the parsers read it back.
    - [FormatProps]: the parsers on every branch, [number] for every format whose width
      does not wrap around its 16 bits, the round trips of
      numbers and bitmaps; two defects.

    ** Semaphores: [kernel/locking/semaphore.c]

    - [Semaphore]: every operation, and the step relation in which calls, signals,
      timers and wake-ups interleave. [SemaphoreFacts]: the invariant of the wait
      list and what each step does to the units of the semaphore and to a waiter.
    - [SemaphoreProps]: nothing is gained or lost under any interleaving; under
      fair scheduling and repeated release every waiter returns.

    ** Resource trees: [kernel/resource.c]

    - [Resource]: descriptors in a heap, linked by parent, sibling and child
      pointers, and the operations on them, pointer by pointer.
    - [ResourceFacts]: the invariant [tree], relative to the list of children of
      each resource and a depth; linking and unlinking a child. [ResourceFind]: the
      search for a free range. [ResourceOps]: allocation, and changing a range.
      [ResourceInsert]: insertion above existing resources and expansion to fit.
      [ResourceSubtree]: descendants, whose ranges are nested or disjoint.
      [ResourceRegion]: busy regions. [ResourceRelease]: taking a subtree
      apart. [ResourceSplit]: reserving the gaps of a range.
    - [ResourceProps]: request and release, allocation of the lowest fit,
      adjustment, insertion, the round trip of a region, and that a reservation
      covers its range. Loops have as fuel the number of objects; the number of
      resources that lie deeper, later or outside bounds their rounds.

    ** Red-black trees and timer queues: [lib/rbtree.c], [include/linux/rbtree.h],
       [include/linux/rbtree_augmented.h], [lib/timerqueue.c]

    - [Rbtree]: nodes with their packed parent and colour word in a store, and
      every operation; branches that mirror each other are one definition with
      the side as an argument. [RbtreeFacts]: the tree a store represents, seen from a
      subtree in its context, and rotation. [RbtreeInsert], [RbtreeErase]: colours and
      black heights, and the rebalancing loops. [RbtreeRemove]: unlinking, with
      the successor in place of an inner node. [RbtreeWalk]: walking, linking,
      replacing, and the height.
    - [RbtreeSpec]: what the trees promise their users, as the class [SearchTree] over a
      predicate [holds] (a root has these nodes in this order): insertion at the place
      a comparison finds, erasure, the first and next node, and search. The
      instance proves it of the library; the users' theorems use the class alone.
    - [RbtreeProps]: insertion and erasure keep the red-black tree, the order and all
      other nodes; walks follow the order; the loops take a logarithmic
      number of rounds. The fuel is the number of nodes in the store.
    - [Timerqueue], [TimerqueueFacts], [TimerqueueProps]: timer queues as a client;
      every history of additions and removals is one of a sorted queue, first come
      first served among equal times.

    ** Buffers of binder: [drivers/android/binder.c]

    - [Binder]: the buffers of a process as headers and tree nodes in mapped
      memory, the list, the two trees, the array of pages and the space for
      asynchronous transactions; mapping, allocation, freeing, lookup, release, and what
      transactions do to a buffer. A header on an unmapped page is no longer
      there, so an access to it is a fault.
    - [BinderFacts]: ranges of pages. [BinderLayout]: blocks that tile the area and
      their headers. [BinderTree]: the trees over the blocks, against [SearchTree].
      [BinderInv]: the invariant [inv]; a page is mapped exactly if a header or
      allocated data needs it. [BinderAlloc], [BinderFree], [BinderUse]: the operations.
    - [BinderProps]: best fit, or a reason for NULL; freeing merges neighbours and
      unmaps exactly what is not needed; [BC_FREE_BUFFER] frees once; release
      frees all; no history of commands faults or fails a [BUG_ON]. The loops over pages
      have fuel for all pages of the area, the release loop a round per buffer.

    ** Arithmetic: [lib/gcd.c], [lib/lcm.c], [lib/int_sqrt.c], [lib/rational.c],
       [lib/reciprocal_div.c]

    - [Numbers]: the functions, at the width of their types. Euclid's loop has fuel
      for two rounds per bit, the loop of the square root for a round per two bits.
    - [NumbersProps]: greatest common divisor and least common multiple, square
      root, exact division by multiplication, and what the approximation by
      a continued fraction finds, with one defect.

    ** Ashmem: [drivers/staging/android/ashmem.c]

    - [Ashmem]: ranges, areas, the two kinds of list a range is on, and every
      entry point. [AshmemFacts]: the bookkeeping invariant [wf] and the
      operations on one range. [AshmemOps]: the pin and unpin loops as functions
      of the sequence of ranges. [AshmemPages]: their effect page by page.
      [AshmemDriver]: the calls as steps of one system with every allocation free
      to fail. [AshmemOrder]: the pages a request names, and that the ranges of an
      area stay in order as long as no request names zero pages.
    - [AshmemProps]: no call faults and the books balance after any sequence of
      calls; pin, unpin and status page by page, also when memory is short, for
      requests that name a page; the shrinker; names;
      protection of mappings; one defect.

    ** Not modelled

    In the modelled files: the interpreter of format strings, the other pointer
    formats and the sscanf family of [vsprintf.c]; debug output; the big-endian
    variants; custom swap functions of [sort]; the /proc interface, the walks over
    system RAM, memory hot-remove and the devres wrappers of [resource.c]; red-black
    trees with augmented data and their readers without a lock; the contents of binder
    buffers, their pages in user space, nodes, references, threads and work lists; the
    compat ioctl and the registration of ashmem. Spinlocks and mutexes are taken as making an
    operation atomic; weak memory is not modelled, the barriers of kfifo being
    represented by the order of the steps. What the models call in other parts of
    the kernel ([kmalloc], user copies, the shmem file, the DMA mapping) is an
    argument. The rest of the tree (architecture code, drivers for hardware, the
    page allocator, scheduler, file systems, network) depends on hardware, on
    concurrency under weak memory, or on I/O, and is not modelled; pure parts that
    could be ([lib/string.c], [lib/crc32.c]) are not yet. *)

From Stdlib Require Export ZArith Lia ZifyBool ZifyNat.
From stdpp Require Export base tactics list numbers.

#[global] Open Scope Z_scope.

Declare Scope kernel_scope.
Delimit Scope kernel_scope with kernel.
#[global] Open Scope kernel_scope.

(** ** Machine integers *)

(** An unsigned [w]-bit value: the result of every C operation on a [w]-bit
    unsigned type is reduced modulo [2 ^ w]. *)
Definition wrap (w x : Z) : Z := x mod 2 ^ w.

Abbreviation u8 := (wrap 8).
Abbreviation u16 := (wrap 16).
Abbreviation u32 := (wrap 32).
Abbreviation u64 := (wrap 64).

(** The two's complement reading of the low [w] bits of a value. *)
Definition swrap (w x : Z) : Z := (x + 2 ^ (w - 1)) mod 2 ^ w - 2 ^ (w - 1).

Abbreviation s32 := (swrap 32).
Abbreviation s64 := (swrap 64).

Definition ULLONG_MAX : Z := 2 ^ 64 - 1.
Definition UINT_MAX : Z := 2 ^ 32 - 1.

Definition ENOMEM : Z := 12.
Definition EFAULT : Z := 14.
Definition EBUSY : Z := 16.
Definition EINVAL : Z := 22.
Definition ERANGE : Z := 34.
Definition EOVERFLOW : Z := 75.

(** ** Outcomes *)

(** A kernel routine returns, hits a [BUG()]/[panic()]/NULL dereference, or
    (in the model only) exhausts the fuel of a loop. *)
Inductive outcome (A : Type) : Type :=
| Ok (a : A)
| Oops
| NoFuel.
Arguments Ok {A} a.
Arguments Oops {A}.
Arguments NoFuel {A}.

Definition obind {A B} (c : outcome A) (k : A -> outcome B) : outcome B :=
  match c with
  | Ok a => k a
  | Oops => Oops
  | NoFuel => NoFuel
  end.

Notation "'let*' p ':=' c 'in' k" := (obind c (fun p => k))
  (at level 10, p pattern, c at level 100, k at level 200,
   format "'[v' 'let*'  p  ':='  c  'in' '/' k ']'") : kernel_scope.

(** [BUG_ON(c)] *)
Definition BUG_ON {A} (c : bool) (k : outcome A) : outcome A :=
  if c then Oops else k.

(** ** Rounding macros of include/linux/kernel.h *)

Definition __round_mask (y : Z) : Z := u64 (y - 1).
Definition round_up (x y : Z) : Z := u64 (Z.lor (u64 (x - 1)) (__round_mask y) + 1).
Definition round_down (x y : Z) : Z := Z.land x (u64 (Z.lnot (__round_mask y))).

(** ** Automation *)

Create HintDb kernel.

(** Decide the outermost boolean test of the goal, keeping the equation. *)
Ltac case_if :=
  match goal with
  | |- context [if ?b then _ else _] => destruct b eqn:?
  end.

Ltac case_ifs := repeat (case_if; try lia).

(** Invert a successful bind. *)
Lemma obind_Ok {A B} (c : outcome A) (k : A -> outcome B) b :
  obind c k = Ok b <-> exists a, c = Ok a /\ k a = Ok b.
Proof. destruct c as [a| |]; simpl; split; [eauto|intros (?&[= ->]&?)|..]; naive_solver. Qed.

Lemma obind_assoc {A B C} (c : outcome A) (k : A -> outcome B) (k' : B -> outcome C) :
  obind (obind c k) k' = obind c (fun a => obind (k a) k').
Proof. by destruct c. Qed.

Ltac obind_inv H :=
  let a := fresh "a" in let Ha := fresh "Ha" in
  apply obind_Ok in H; destruct H as [a [Ha H]].

(** ** Machine integer lemmas *)

Lemma wrap_small w x : 0 <= x < 2 ^ w -> wrap w x = x.
Proof. apply Z.mod_small. Qed.

Lemma wrap_range w x : 0 <= w -> 0 <= wrap w x < 2 ^ w.
Proof. intros. apply Z.mod_pos_bound. lia. Qed.

Lemma u64_small x : 0 <= x <= ULLONG_MAX -> u64 x = x.
Proof. intros. apply wrap_small. unfold ULLONG_MAX in *. lia. Qed.

Lemma u32_small x : 0 <= x <= UINT_MAX -> u32 x = x.
Proof. intros. apply wrap_small. unfold UINT_MAX in *. lia. Qed.

Lemma s32_small x : - 2 ^ 31 <= x < 2 ^ 31 -> s32 x = x.
Proof. intros Hx. unfold swrap. change (2 ^ (32 - 1)) with (2 ^ 31). rewrite Z.mod_small; lia. Qed.

Lemma u64_range x : 0 <= u64 x <= ULLONG_MAX.
Proof. pose proof (wrap_range 64 x). unfold ULLONG_MAX. lia. Qed.

Lemma u64_add_l x y : u64 (u64 x + y) = u64 (x + y).
Proof. apply Zplus_mod_idemp_l. Qed.

Lemma u64_sub_l x y : u64 (u64 x - y) = u64 (x - y).
Proof. apply Zminus_mod_idemp_l. Qed.

Lemma u64_minus_one : u64 (0 - 1) = ULLONG_MAX.
Proof. reflexivity. Qed.

Lemma land_ones_compl x k :
  0 <= x < 2 ^ 64 -> 0 <= k <= 64 ->
  Z.land x (u64 (Z.lnot (2 ^ k - 1))) = x - x mod 2 ^ k.
Proof.
  intros Hx Hk.
  assert (Hm : x mod 2 ^ k = Z.land x (Z.ones k)) by (rewrite Z.land_ones; lia).
  rewrite Hm.
  replace (2 ^ k - 1) with (Z.ones k) by (rewrite Z.ones_equiv; lia).
  unfold wrap. rewrite <- (Z.land_ones _ 64) by lia.
  assert (Hx' : x = Z.land x (Z.ones 64)).
  { rewrite Z.land_ones by lia. symmetry. apply Z.mod_small. lia. }
  assert (Hd : Z.land x (Z.land (Z.lnot (Z.ones k)) (Z.ones 64)) = Z.ldiff x (Z.ones k)).
  { rewrite (Z.land_comm _ (Z.ones 64)), Z.land_assoc, <- Hx', Z.ldiff_land. reflexivity. }
  rewrite Hd, Z.ldiff_ones_r, Z.land_ones by lia.
  rewrite Z.shiftr_div_pow2, Z.shiftl_mul_pow2 by lia.
  pose proof (Z.div_mod x (2 ^ k) ltac:(lia)). lia.
Qed.

Lemma round_mask_pow2 k : 0 <= k <= 63 -> __round_mask (2 ^ k) = 2 ^ k - 1.
Proof.
  intros. unfold __round_mask. apply wrap_small.
  pose proof (Z.pow_le_mono_r 2 k 63 ltac:(lia) ltac:(lia)). lia.
Qed.

Lemma round_down_pow2 x k :
  0 <= x <= ULLONG_MAX -> 0 <= k <= 63 -> round_down x (2 ^ k) = x - x mod 2 ^ k.
Proof.
  intros Hx Hk. unfold round_down. rewrite round_mask_pow2 by lia.
  apply land_ones_compl; unfold ULLONG_MAX in *; lia.
Qed.

Lemma lor_low_ones x k : 0 <= k -> Z.lor x (2 ^ k - 1) = x - x mod 2 ^ k + (2 ^ k - 1).
Proof.
  intros Hk.
  replace (2 ^ k - 1) with (Z.ones k) by (rewrite Z.ones_equiv; lia).
  rewrite <- (Z.land_ones x k) by lia.
  assert (H : Z.lor x (Z.ones k) = Z.ldiff x (Z.ones k) + Z.ones k).
  { rewrite Z.add_nocarry_lxor; apply Z.bits_inj'; intros i Hi;
      rewrite ?Z.lor_spec, ?Z.lxor_spec, ?Z.land_spec, ?Z.ldiff_spec, ?Z.bits_0;
      destruct (Z.testbit x i), (Z.testbit (Z.ones k) i); reflexivity. }
  rewrite H, Z.ldiff_ones_r, Z.shiftr_div_pow2, Z.shiftl_mul_pow2 by lia.
  rewrite Z.land_ones by lia. pose proof (Z.div_mod x (2 ^ k) ltac:(lia)). lia.
Qed.

Lemma round_up_pow2 x k :
  0 <= x <= ULLONG_MAX -> 0 <= k <= 63 ->
  round_up x (2 ^ k) = u64 (2 ^ k * ((x + 2 ^ k - 1) / 2 ^ k)).
Proof.
  intros Hx Hk. unfold round_up. rewrite round_mask_pow2, lor_low_ones by lia.
  assert (H64 : 2 ^ 64 = 2 ^ k * 2 ^ (64 - k)) by (rewrite <- Z.pow_add_r; [f_equal|..]; lia).
  assert (Hk0 : 0 < 2 ^ k) by lia.
  destruct (decide (x = 0)) as [->|Hne].
  - rewrite u64_minus_one. unfold wrap, ULLONG_MAX.
    replace ((0 + 2 ^ k - 1) / 2 ^ k) with 0 by (symmetry; apply Z.div_small; lia).
    rewrite Z.mul_0_r, Z.mod_0_l by lia.
    assert (Hm : (2 ^ 64 - 1) mod 2 ^ k = 2 ^ k - 1).
    { rewrite H64. replace (2 ^ k * 2 ^ (64 - k) - 1)
        with (2 ^ k - 1 + (2 ^ (64 - k) - 1) * 2 ^ k) by lia.
      rewrite Z.mod_add, Z.mod_small; lia. }
    rewrite Hm. replace (2 ^ 64 - 1 - (2 ^ k - 1) + (2 ^ k - 1) + 1) with (1 * 2 ^ 64) by lia.
    apply Z.mod_mul. lia.
  - rewrite (wrap_small 64 (x - 1)) by (unfold ULLONG_MAX in *; lia).
    f_equal. replace (x + 2 ^ k - 1) with (x - 1 + 1 * 2 ^ k) by lia.
    rewrite Z.div_add by lia. pose proof (Z.div_mod (x - 1) (2 ^ k) ltac:(lia)). lia.
Qed.

(** ** Loops *)

(** [for (k = lo; k < hi; k++) body]. *)
Fixpoint for_loop {S : Type} (n : nat) (k : Z) (body : Z -> S -> outcome S) (s : S) : outcome S :=
  match n with
  | O => Ok s
  | Datatypes.S n => let* s := body k s in for_loop n (k + 1) body s
  end.

Definition for_do {S : Type} (lo hi : Z) (body : Z -> S -> outcome S) (s : S) : outcome S :=
  for_loop (Z.to_nat (hi - lo)) lo body s.

(** The same with [return] inside the body: [inr] leaves the loop. *)
Fixpoint for_loop_ret {S R : Type} (n : nat) (k : Z) (body : Z -> S -> outcome (S + R)) (s : S)
    : outcome (S + R) :=
  match n with
  | O => Ok (inl s)
  | Datatypes.S n =>
    let* x := body k s in
    match x with inl s => for_loop_ret n (k + 1) body s | inr r => Ok (inr r) end
  end.

Definition for_ret {S R : Type} (lo hi : Z) (body : Z -> S -> outcome (S + R)) (s : S) : outcome (S + R) :=
  for_loop_ret (Z.to_nat (hi - lo)) lo body s.

(** Total-correctness rules: an invariant indexed by the counter. *)
Lemma for_do_inv {S} (I : Z -> S -> Prop) lo hi body s :
  lo <= hi -> I lo s ->
  (forall i s, lo <= i < hi -> I i s -> exists s', body i s = Ok s' /\ I (i + 1) s') ->
  exists s', for_do lo hi body s = Ok s' /\ I hi s'.
Proof.
  intros Hle HI Hstep. unfold for_do. remember (Z.to_nat (hi - lo)) as n eqn:Hn.
  revert lo s Hle HI Hstep Hn. induction n as [|n IH]; intros lo s Hle HI Hstep Hn; cbn [for_loop].
  - exists s. split; [done|]. by replace hi with lo by lia.
  - destruct (Hstep lo s ltac:(lia) HI) as (s1&->&HI1). cbn [obind].
    apply IH; [lia|done| |lia]. intros i s2 Hi. apply Hstep. lia.
Qed.

Lemma for_ret_inv {S R} (I : Z -> S -> Prop) (Q : R -> Prop) lo hi body s :
  lo <= hi -> I lo s ->
  (forall i s, lo <= i < hi -> I i s ->
     exists x, body i s = Ok x /\ match x with inl s' => I (i + 1) s' | inr r => Q r end) ->
  exists x, for_ret lo hi body s = Ok x /\ match x with inl s' => I hi s' | inr r => Q r end.
Proof.
  intros Hle HI Hstep. unfold for_ret. remember (Z.to_nat (hi - lo)) as n eqn:Hn.
  revert lo s Hle HI Hstep Hn. induction n as [|n IH]; intros lo s Hle HI Hstep Hn; cbn [for_loop_ret].
  - exists (inl s). split; [done|]. by replace hi with lo by lia.
  - destruct (Hstep lo s ltac:(lia) HI) as ([s1|r]&->&HI1); cbn [obind]; [|by exists (inr r)].
    apply IH; [lia|done| |lia]. intros i s2 Hi. apply Hstep. lia.
Qed.

(** Loops of no and of one iteration. *)
Lemma for_do_0 {S} (body : Z -> S -> outcome S) s : for_do 0 0 body s = Ok s.
Proof. done. Qed.

Lemma for_do_1 {S} (body : Z -> S -> outcome S) s : for_do 0 1 body s = body 0 s.
Proof. unfold for_do. change (Z.to_nat (1 - 0)) with 1%nat. cbn [for_loop]. by destruct (body 0 s). Qed.

(** ** Arrays *)

(** [a[k]], an out-of-bounds index being a fault. *)
Definition rd {A} (a : list A) (k : Z) : outcome A :=
  if k <? 0 then Oops else match a !! Z.to_nat k with Some w => Ok w | None => Oops end.

(** [a[k] = v] *)
Definition wr {A} (a : list A) (k : Z) (v : A) : outcome (list A) :=
  if (k <? 0) || (Z.of_nat (length a) <=? k) then Oops else Ok (<[Z.to_nat k := v]> a).

Lemma rd_Some {A} (a : list A) k w : 0 <= k -> a !! Z.to_nat k = Some w -> rd a k = Ok w.
Proof. intros Hk Hw. unfold rd. rewrite Hw. case_if; [lia|done]. Qed.

Lemma rd_Ok {A} (a : list A) k : 0 <= k < Z.of_nat (length a) ->
  exists w, rd a k = Ok w /\ a !! Z.to_nat k = Some w.
Proof.
  intros Hk. destruct (lookup_lt_is_Some_2 a (Z.to_nat k)) as [w Hw]; [lia|].
  exists w. split; [|done]. apply rd_Some; [lia|done].
Qed.

Lemma wr_Ok {A} (a : list A) k v : 0 <= k < Z.of_nat (length a) -> wr a k v = Ok (<[Z.to_nat k := v]> a).
Proof. intros Hk. unfold wr. case_if; [lia|done]. Qed.

(** ** Byte buffers *)

(** [memcpy(dst + doff, src + soff, n)] between two distinct buffers. An access
    outside either buffer is a fault; a NULL pointer is an empty buffer. *)
Definition memcpy (dst : list Z) (doff : Z) (src : list Z) (soff n : Z) : outcome (list Z) :=
  if n =? 0 then Ok dst
  else if (doff <? 0) || (soff <? 0) || (n <? 0)
          || (Z.of_nat (length dst) <? doff + n) || (Z.of_nat (length src) <? soff + n) then Oops
  else Ok (take (Z.to_nat doff) dst ++ take (Z.to_nat n) (drop (Z.to_nat soff) src)
           ++ drop (Z.to_nat (doff + n)) dst).

(** A successful copy, byte by byte. *)
Lemma memcpy_spec dst doff src soff n :
  0 <= n -> 0 <= doff -> 0 <= soff ->
  (n = 0 \/ (doff + n <= Z.of_nat (length dst) /\ soff + n <= Z.of_nat (length src))) ->
  exists d, memcpy dst doff src soff n = Ok d /\ length d = length dst /\
    forall i, 0 <= i -> d !! Z.to_nat i =
      if (doff <=? i) && (i <? doff + n) then src !! Z.to_nat (soff + (i - doff)) else dst !! Z.to_nat i.
Proof.
  intros Hn Hd Hs Hb. unfold memcpy. destruct (n =? 0) eqn:En.
  { exists dst. split_and!; [done..|]. intros i Hi. by replace ((doff <=? i) && (i <? doff + n)) with false by lia. }
  case_if; [lia|]. eexists. split_and!; [done|rewrite !length_app, !length_take, !length_drop; lia|]. intros i Hi.
  destruct (decide (i < doff)).
  - rewrite lookup_app_l by (rewrite length_take; lia). rewrite lookup_take_lt by lia. by replace (doff <=? i) with false by lia.
  - rewrite lookup_app_r by (rewrite length_take; lia). rewrite length_take, Nat.min_l by lia.
    destruct (decide (i < doff + n)).
    + rewrite lookup_app_l by (rewrite length_take, length_drop; lia).
      rewrite lookup_take_lt, lookup_drop by lia. replace ((doff <=? i) && (i <? doff + n)) with true by lia. f_equal. lia.
    + rewrite lookup_app_r by (rewrite length_take, length_drop; lia).
      rewrite length_take, length_drop, lookup_drop. replace ((doff <=? i) && (i <? doff + n)) with false by lia. f_equal. lia.
Qed.
