(* ===== verification/Memblock.v ===== *)
(** * Memblock: the boot-time physical memory allocator of mm/memblock.c

    Data and operations.  A [memblock_type] keeps the live prefix of its
    region array as a list, so [cnt] is the length of the list; slots past
    [cnt] are never read by the code.  Pointers to [memblock.memory] and
    [memblock.reserved] are the two values of [mtype], and every operation
    threads the global [memblock] state.  The code that depends on a build
    option reads it from [memblock_config], so both sides of an [#ifdef] are
    covered. *)

From S2P Require Import Prelude.

(** ** Configuration and environment *)

Record memblock_config := {
  HAVE_MEMBLOCK_NODE_MAP : bool;
  MOVABLE_NODE : bool;
  MAX_NUMNODES : Z;
  (* __pa_symbol(_end) *)
  kernel_end : Z;
  (* slab_is_available() *)
  slab_is_available : bool;
  (* physical address of kmalloc(size), 0 for NULL *)
  kmalloc_pa : Z -> Z
}.

Definition NUMA_NO_NODE : Z := -1.
Definition PAGE_SHIFT : Z := 12.
Definition PAGE_SIZE : Z := 2 ^ PAGE_SHIFT.
Definition SMP_CACHE_BYTES : Z := 128.
Definition INIT_MEMBLOCK_REGIONS : Z := 128.

Definition MEMBLOCK_NONE : Z := 0.
Definition MEMBLOCK_HOTPLUG : Z := 1.
Definition MEMBLOCK_MIRROR : Z := 2.
Definition MEMBLOCK_NOMAP : Z := 4.

Definition MEMBLOCK_ALLOC_ANYWHERE : Z := ULLONG_MAX.
Definition MEMBLOCK_ALLOC_ACCESSIBLE : Z := 0.

(** ** Data *)

Record memblock_region := mkRegion {
  r_base : Z;
  r_size : Z;
  r_flags : Z;
  r_nid : Z
}.

(** Where a region array lives: the static init array of the type, or memory
    at a physical address. *)
Inductive region_array :=
| ArrInit
| ArrAt (pa : Z).

Record memblock_type := mkType {
  regions : list memblock_region;
  t_max : Z;
  total_size : Z;
  t_array : region_array
}.

Record memblock := mkMemblock {
  bottom_up : bool;
  current_limit : Z;
  memory : memblock_type;
  reserved : memblock_type;
  movable_node_enabled : bool;
  system_has_some_mirror : bool;
  memblock_can_resize : bool;
  memblock_memory_in_slab : bool;
  memblock_reserved_in_slab : bool
}.

(** The target of a [struct memblock_type *]. *)
Inductive mtype := Memory | Reserved.

#[export] Instance mtype_eq_dec : EqDecision mtype.
Proof. solve_decision. Defined.
#[export] Instance memblock_region_eq_dec : EqDecision memblock_region.
Proof. solve_decision. Defined.

Definition cnt (t : memblock_type) : Z := Z.of_nat (length (regions t)).

Definition get_type (m : memblock) (ty : mtype) : memblock_type :=
  match ty with Memory => memory m | Reserved => reserved m end.

Definition set_type (m : memblock) (ty : mtype) (t : memblock_type) : memblock :=
  match ty with
  | Memory => mkMemblock (bottom_up m) (current_limit m) t (reserved m)
      (movable_node_enabled m) (system_has_some_mirror m) (memblock_can_resize m)
      (memblock_memory_in_slab m) (memblock_reserved_in_slab m)
  | Reserved => mkMemblock (bottom_up m) (current_limit m) (memory m) t
      (movable_node_enabled m) (system_has_some_mirror m) (memblock_can_resize m)
      (memblock_memory_in_slab m) (memblock_reserved_in_slab m)
  end.

Definition in_slab (m : memblock) (ty : mtype) : bool :=
  match ty with Memory => memblock_memory_in_slab m | Reserved => memblock_reserved_in_slab m end.

Definition set_in_slab (m : memblock) (ty : mtype) (b : bool) : memblock :=
  match ty with
  | Memory => mkMemblock (bottom_up m) (current_limit m) (memory m) (reserved m)
      (movable_node_enabled m) (system_has_some_mirror m) (memblock_can_resize m)
      b (memblock_reserved_in_slab m)
  | Reserved => mkMemblock (bottom_up m) (current_limit m) (memory m) (reserved m)
      (movable_node_enabled m) (system_has_some_mirror m) (memblock_can_resize m)
      (memblock_memory_in_slab m) b
  end.

Definition set_regions (t : memblock_type) (l : list memblock_region) : memblock_type :=
  mkType l (t_max t) (total_size t) (t_array t).

Definition set_total (t : memblock_type) (z : Z) : memblock_type :=
  mkType (regions t) (t_max t) z (t_array t).

(** The statically initialised [memblock]: one empty dummy entry per type. *)
Definition memblock_init_type : memblock_type :=
  mkType [mkRegion 0 0 0 0] INIT_MEMBLOCK_REGIONS 0 ArrInit.

Definition memblock_init : memblock :=
  mkMemblock false MEMBLOCK_ALLOC_ANYWHERE memblock_init_type memblock_init_type
    false false false false false.

(** ** Region arrays *)

Section Ops.
Context (cfg : memblock_config).

Definition memblock_set_region_node (r : memblock_region) (nid : Z) : memblock_region :=
  if HAVE_MEMBLOCK_NODE_MAP cfg
  then mkRegion (r_base r) (r_size r) (r_flags r) nid else r.

Definition memblock_get_region_node (r : memblock_region) : Z :=
  if HAVE_MEMBLOCK_NODE_MAP cfg then r_nid r else 0.

Definition memblock_set_region_flags (r : memblock_region) (flags : Z) : memblock_region :=
  mkRegion (r_base r) (r_size r) (Z.lor (r_flags r) flags) (r_nid r).

Definition memblock_clear_region_flags (r : memblock_region) (flags : Z) : memblock_region :=
  mkRegion (r_base r) (r_size r) (Z.land (r_flags r) (u64 (Z.lnot flags))) (r_nid r).

Definition memblock_is_hotpluggable (r : memblock_region) : bool :=
  if MOVABLE_NODE cfg then negb (Z.land (r_flags r) MEMBLOCK_HOTPLUG =? 0) else false.

Definition movable_node_is_enabled (m : memblock) : bool :=
  if MOVABLE_NODE cfg then movable_node_enabled m else false.

Definition memblock_is_mirror (r : memblock_region) : bool :=
  negb (Z.land (r_flags r) MEMBLOCK_MIRROR =? 0).

Definition memblock_is_nomap (r : memblock_region) : bool :=
  negb (Z.land (r_flags r) MEMBLOCK_NOMAP =? 0).

Definition memblock_bottom_up (m : memblock) : bool :=
  if MOVABLE_NODE cfg then bottom_up m else false.

Definition choose_memblock_flags (m : memblock) : Z :=
  if system_has_some_mirror m then MEMBLOCK_MIRROR else MEMBLOCK_NONE.

(** The end of a region, as the code computes it in [phys_addr_t]. *)
Definition region_end (r : memblock_region) : Z := u64 (r_base r + r_size r).

Definition memblock_cap_size (base size : Z) : Z := Z.min size (ULLONG_MAX - base).

Definition memblock_addrs_overlap (base1 size1 base2 size2 : Z) : bool :=
  (base1 <? u64 (base2 + size2)) && (base2 <? u64 (base1 + size1)).

Definition memblock_overlaps_region (t : memblock_type) (base size : Z) : bool :=
  existsb (fun r => memblock_addrs_overlap base size (r_base r) (r_size r)) (regions t).

Definition memblock_remove_region (t : memblock_type) (r : nat) : memblock_type :=
  match regions t !! r with
  | None => t
  | Some rgn =>
    let total := u64 (total_size t - r_size rgn) in
    let l := take r (regions t) ++ drop (S r) (regions t) in
    let l := match l with
             | [] => [memblock_set_region_node (mkRegion 0 0 0 (r_nid rgn)) (MAX_NUMNODES cfg)]
             | _ => l
             end in
    mkType l (t_max t) total (t_array t)
  end.

(** The scan of [memblock_merge_regions] with [this] at the front and [l] the
    regions after it. *)
Fixpoint memblock_merge_loop (this : memblock_region) (l : list memblock_region)
    : outcome (list memblock_region) :=
  match l with
  | [] => Ok [this]
  | next :: l' =>
    if negb (region_end this =? r_base next)
       || negb (memblock_get_region_node this =? memblock_get_region_node next)
       || negb (r_flags this =? r_flags next)
    then BUG_ON (r_base next <? region_end this)
           (let* rest := memblock_merge_loop next l' in Ok (this :: rest))
    else memblock_merge_loop
           (mkRegion (r_base this) (u64 (r_size this + r_size next)) (r_flags this) (r_nid this)) l'
  end.

Definition memblock_merge_regions (t : memblock_type) : outcome memblock_type :=
  match regions t with
  | [] => Ok t
  | this :: l => let* l' := memblock_merge_loop this l in Ok (set_regions t l')
  end.

Definition memblock_insert_region (t : memblock_type) (idx : nat) (base size nid flags : Z)
    : outcome memblock_type :=
  BUG_ON (t_max t <=? cnt t)
    (Ok (mkType (take idx (regions t)
                 ++ memblock_set_region_node (mkRegion base size flags 0) nid
                 :: drop idx (regions t))
           (t_max t) (u64 (total_size t + size)) (t_array t))).

(** The [for] loop of one pass of [memblock_add_range]; [n] bounds the number
    of iterations and [S (cnt t - i)] is enough.  Returns the array, [i],
    [base] and [nr_new] at the end of the loop. *)
Fixpoint add_range_loop (n : nat) (insert : bool) (t : memblock_type) (i : nat)
    (base end_ nid flags nr_new : Z) : outcome (memblock_type * nat * Z * Z) :=
  match n with
  | O => NoFuel
  | S n =>
    match regions t !! i with
    | None => Ok (t, i, base, nr_new)
    | Some rgn =>
      let rbase := r_base rgn in
      let rend := region_end rgn in
      if end_ <=? rbase then Ok (t, i, base, nr_new)
      else if rend <=? base then add_range_loop n insert t (S i) base end_ nid flags nr_new
      else if base <? rbase then
        if insert then
          let* t' := memblock_insert_region t i base (rbase - base) nid flags in
          add_range_loop n insert t' (S (S i)) (Z.min rend end_) end_ nid flags (nr_new + 1)
        else add_range_loop n insert t (S i) (Z.min rend end_) end_ nid flags (nr_new + 1)
      else add_range_loop n insert t (S i) (Z.min rend end_) end_ nid flags nr_new
    end
  end.

(** "insert the remaining portion", after the loop. *)
Definition add_range_rest (insert : bool) (end_ nid flags : Z)
    (st : memblock_type * nat * Z * Z) : outcome (memblock_type * Z) :=
  let '(t, i, base, nr_new) := st in
  if base <? end_ then
    if insert then
      let* t' := memblock_insert_region t i base (end_ - base) nid flags in
      Ok (t', nr_new + 1)
    else Ok (t, nr_new + 1)
  else Ok (t, nr_new).

(** One pass over the array; the code runs it with [insert] false, then true. *)
Definition add_range_pass (insert : bool) (t : memblock_type) (base end_ nid flags : Z)
    : outcome (memblock_type * Z) :=
  obind (add_range_loop (S (length (regions t))) insert t 0 base end_ nid flags 0)
    (add_range_rest insert end_ nid flags).

(** The splitting loop of [memblock_isolate_range]; returns the array,
    [*start_rgn] and [*end_rgn].  [cnt t + 3] iterations are enough. *)
Fixpoint isolate_loop (n : nat) (t : memblock_type) (i : nat) (base end_ : Z)
    (start_rgn end_rgn : nat) : outcome (memblock_type * nat * nat) :=
  match n with
  | O => NoFuel
  | S n =>
    match regions t !! i with
    | None => Ok (t, start_rgn, end_rgn)
    | Some rgn =>
      let rbase := r_base rgn in
      let rend := region_end rgn in
      if end_ <=? rbase then Ok (t, start_rgn, end_rgn)
      else if rend <=? base then isolate_loop n t (S i) base end_ start_rgn end_rgn
      else if rbase <? base then
        let rgn' := mkRegion base (u64 (r_size rgn - (base - rbase))) (r_flags rgn) (r_nid rgn) in
        let t1 := mkType (<[i := rgn']> (regions t)) (t_max t)
                    (u64 (total_size t - (base - rbase))) (t_array t) in
        let* t2 := memblock_insert_region t1 i rbase (base - rbase)
                     (memblock_get_region_node rgn') (r_flags rgn') in
        isolate_loop n t2 (S i) base end_ start_rgn end_rgn
      else if end_ <? rend then
        let rgn' := mkRegion end_ (u64 (r_size rgn - (end_ - rbase))) (r_flags rgn) (r_nid rgn) in
        let t1 := mkType (<[i := rgn']> (regions t)) (t_max t)
                    (u64 (total_size t - (end_ - rbase))) (t_array t) in
        let* t2 := memblock_insert_region t1 i rbase (end_ - rbase)
                     (memblock_get_region_node rgn') (r_flags rgn') in
        isolate_loop n t2 i base end_ start_rgn end_rgn
      else
        isolate_loop n t (S i) base end_
          (if (end_rgn =? 0)%nat then i else start_rgn) (S i)
    end
  end.

(** [for (i = end_rgn - 1; i >= start_rgn; i--) memblock_remove_region(type, i)],
    with [n = end_rgn - start_rgn]. *)
Fixpoint remove_regions_loop (n : nat) (t : memblock_type) (start_rgn : nat) : memblock_type :=
  match n with
  | O => t
  | S n => remove_regions_loop n (memblock_remove_region t (start_rgn + n)) start_rgn
  end.

(** ** Searching *)

(** The [do ... while (left < right)] loop of [memblock_search].  The index is
    returned as an [option]; [None] is the code's [-1]. *)
Fixpoint memblock_search_loop (n : nat) (l : list memblock_region) (addr left right : Z)
    : outcome (option nat) :=
  match n with
  | O => NoFuel
  | S n =>
    let mid := (right + left) / 2 in
    match l !! Z.to_nat mid with
    | None => Oops
    | Some r =>
      if addr <? r_base r then
        if left <? mid then memblock_search_loop n l addr left mid else Ok None
      else if region_end r <=? addr then
        if mid + 1 <? right then memblock_search_loop n l addr (mid + 1) right else Ok None
      else Ok (Some (Z.to_nat mid))
    end
  end.

Definition memblock_search (t : memblock_type) (addr : Z) : outcome (option nat) :=
  memblock_search_loop (S (length (regions t))) (regions t) addr 0 (cnt t).

Definition is_found (r : option nat) : bool := match r with Some _ => true | None => false end.

Definition memblock_is_reserved (m : memblock) (addr : Z) : outcome bool :=
  let* i := memblock_search (reserved m) addr in Ok (is_found i).

Definition memblock_is_memory (m : memblock) (addr : Z) : outcome bool :=
  let* i := memblock_search (memory m) addr in Ok (is_found i).

Definition memblock_is_map_memory (m : memblock) (addr : Z) : outcome bool :=
  let* i := memblock_search (memory m) addr in
  match i with
  | None => Ok false
  | Some i => match regions (memory m) !! i with
              | Some r => Ok (negb (memblock_is_nomap r))
              | None => Oops
              end
  end.

Definition memblock_is_region_memory (m : memblock) (base size : Z) : outcome bool :=
  let* idx := memblock_search (memory m) base in
  let end_ := u64 (base + memblock_cap_size base size) in
  match idx with
  | None => Ok false
  | Some idx => match regions (memory m) !! idx with
                | Some r => Ok ((r_base r <=? base) && (end_ <=? region_end r))
                | None => Oops
                end
  end.

Definition memblock_is_region_reserved (m : memblock) (base size : Z) : bool :=
  memblock_overlaps_region (reserved m) base (memblock_cap_size base size).

Definition memblock_phys_mem_size (m : memblock) : Z := total_size (memory m).

Definition memblock_start_of_DRAM (m : memblock) : Z :=
  match regions (memory m) with r :: _ => r_base r | [] => 0 end.

Definition memblock_end_of_DRAM (m : memblock) : outcome Z :=
  match regions (memory m) !! Nat.pred (length (regions (memory m))) with
  | Some r => Ok (region_end r)
  | None => Oops
  end.

(** ** Iterators *)

(** [*idx = (u32)idx_a | (u64)idx_b << 32] and its decoding. *)
Definition pack_idx (idx_a idx_b : Z) : Z :=
  Z.lor (u32 idx_a) (u64 (Z.shiftl (u64 idx_b) 32)).
Definition unpack_a (idx : Z) : Z := s32 (Z.land idx 4294967295).
Definition unpack_b (idx : Z) : Z := s32 (Z.shiftr idx 32).

(** The area before reservation [idx_b]: its start and its end. *)
Definition gap_start (b : memblock_type) (idx_b : Z) : Z :=
  if idx_b =? 0 then 0
  else match regions b !! Z.to_nat (idx_b - 1) with Some r => region_end r | None => 0 end.
Definition gap_end (b : memblock_type) (idx_b : Z) : Z :=
  if idx_b <? cnt b
  then match regions b !! Z.to_nat idx_b with Some r => r_base r | None => 0 end
  else ULLONG_MAX.

(** The [continue] tests on a memory region shared by both directions. *)
Definition region_skipped (m : memblock) (nid flags : Z) (r : memblock_region) : bool :=
  (negb (nid =? NUMA_NO_NODE) && negb (nid =? memblock_get_region_node r))
  || (movable_node_is_enabled m && memblock_is_hotpluggable r)
  || (negb (Z.land flags MEMBLOCK_MIRROR =? 0) && negb (memblock_is_mirror r))
  || ((Z.land flags MEMBLOCK_NOMAP =? 0) && memblock_is_nomap r).

(** What a call of the iterator leaves in [*idx] and in the out parameters. *)
Definition iter_result : Type := Z * option (Z * Z * Z).

Definition iter_end : iter_result := (ULLONG_MAX, None).

(** The scan of the areas before each reservation, for one memory region.
    [inl idx_b] leaves the loop without a match. *)
Fixpoint next_scan_b (n : nat) (b : memblock_type) (m_start m_end m_nid idx_a idx_b : Z)
    : Z + iter_result :=
  match n with
  | O => inl idx_b
  | S n =>
    if idx_b <? cnt b + 1 then
      let r_start := gap_start b idx_b in
      let r_end := gap_end b idx_b in
      if m_end <=? r_start then inl idx_b
      else if m_start <? r_end then
        let (idx_a', idx_b') :=
          if m_end <=? r_end then (idx_a + 1, idx_b) else (idx_a, idx_b + 1) in
        inr (pack_idx idx_a' idx_b', Some (Z.max m_start r_start, Z.min m_end r_end, m_nid))
      else next_scan_b n b m_start m_end m_nid idx_a (idx_b + 1)
    else inl idx_b
  end.

Fixpoint next_scan_a (n : nat) (m : memblock) (nid flags : Z) (a : memblock_type)
    (b : option memblock_type) (idx_a idx_b : Z) : iter_result :=
  match n with
  | O => iter_end
  | S n =>
    if u64 idx_a <? cnt a then
      match regions a !! Z.to_nat idx_a with
      | None => iter_end
      | Some r =>
        let m_nid := memblock_get_region_node r in
        if region_skipped m nid flags r
        then next_scan_a n m nid flags a b (idx_a + 1) idx_b
        else
          match b with
          | None => (pack_idx (idx_a + 1) idx_b, Some (r_base r, region_end r, m_nid))
          | Some bt =>
            match next_scan_b (S (Z.to_nat (cnt bt + 1 - idx_b))) bt (r_base r) (region_end r)
                    m_nid idx_a idx_b with
            | inl idx_b' => next_scan_a n m nid flags a b (idx_a + 1) idx_b'
            | inr res => res
            end
          end
      end
    else iter_end
  end.

Definition fix_nid (nid : Z) : Z := if nid =? MAX_NUMNODES cfg then NUMA_NO_NODE else nid.

Definition __next_mem_range (m : memblock) (idx nid flags : Z) (a : memblock_type)
    (b : option memblock_type) : iter_result :=
  let idx_a := unpack_a idx in
  let idx_b := unpack_b idx in
  next_scan_a (S (length (regions a))) m (fix_nid nid) flags a b idx_a idx_b.

Fixpoint prev_scan_b (n : nat) (b : memblock_type) (m_start m_end m_nid idx_a idx_b : Z)
    : Z + iter_result :=
  match n with
  | O => inl idx_b
  | S n =>
    if 0 <=? idx_b then
      let r_start := gap_start b idx_b in
      let r_end := gap_end b idx_b in
      if r_end <=? m_start then inl idx_b
      else if r_start <? m_end then
        let (idx_a', idx_b') :=
          if r_start <=? m_start then (idx_a - 1, idx_b) else (idx_a, idx_b - 1) in
        inr (pack_idx idx_a' idx_b', Some (Z.max m_start r_start, Z.min m_end r_end, m_nid))
      else prev_scan_b n b m_start m_end m_nid idx_a (idx_b - 1)
    else inl idx_b
  end.

Fixpoint prev_scan_a (n : nat) (m : memblock) (nid flags : Z) (a : memblock_type)
    (b : option memblock_type) (idx_a idx_b : Z) : iter_result :=
  match n with
  | O => iter_end
  | S n =>
    if 0 <=? idx_a then
      match regions a !! Z.to_nat idx_a with
      | None => iter_end
      | Some r =>
        let m_nid := memblock_get_region_node r in
        if region_skipped m nid flags r
        then prev_scan_a n m nid flags a b (idx_a - 1) idx_b
        else
          match b with
          | None => (pack_idx (idx_a + 1) idx_b, Some (r_base r, region_end r, m_nid))
          | Some bt =>
            match prev_scan_b (S (Z.to_nat (idx_b + 1))) bt (r_base r) (region_end r)
                    m_nid idx_a idx_b with
            | inl idx_b' => prev_scan_a n m nid flags a b (idx_a - 1) idx_b'
            | inr res => res
            end
          end
      end
    else iter_end
  end.

Definition __next_mem_range_rev (m : memblock) (idx nid flags : Z) (a : memblock_type)
    (b : option memblock_type) : outcome iter_result :=
  let nid := fix_nid nid in
  if idx =? ULLONG_MAX then
    match b with
    | None => Oops  (* type_b->cnt with type_b == NULL *)
    | Some bt => Ok (prev_scan_a (S (length (regions a))) m nid flags a b (cnt a - 1) (cnt bt))
    end
  else Ok (prev_scan_a (S (length (regions a))) m nid flags a b (unpack_a idx) (unpack_b idx)).

Definition __next_reserved_mem_region (m : memblock) (idx : Z) : Z * option (Z * Z) :=
  if idx <? cnt (reserved m) then
    match regions (reserved m) !! Z.to_nat idx with
    | Some r => (idx + 1, Some (r_base r, u64 (r_base r + r_size r - 1)))
    | None => (ULLONG_MAX, None)
    end
  else (ULLONG_MAX, None).

(** ** Finding free memory *)

Definition clamp (val lo hi : Z) : Z := Z.min (Z.max val lo) hi.

(** [for_each_free_mem_range] over [memblock]: [res] is the current iterator
    state; [cnt memory + cnt reserved + 2] iterations are enough. *)
Fixpoint find_bottom_up_loop (n : nat) (m : memblock) (res : iter_result)
    (start end_ size align nid flags : Z) : outcome Z :=
  match n with
  | O => NoFuel
  | S n =>
    match res with
    | (i, Some (this_start, this_end, _)) =>
      if i =? ULLONG_MAX then Ok 0 else
      let this_start := clamp this_start start end_ in
      let this_end := clamp this_end start end_ in
      let cand := round_up this_start align in
      if (cand <? this_end) && (size <=? this_end - cand) then Ok cand
      else find_bottom_up_loop n m
             (__next_mem_range m i nid flags (memory m) (Some (reserved m)))
             start end_ size align nid flags
    | (_, None) => Ok 0
    end
  end.

Definition iter_fuel (m : memblock) : nat :=
  length (regions (memory m)) + length (regions (reserved m)) + 2.

Definition __memblock_find_range_bottom_up (m : memblock) (start end_ size align nid flags : Z)
    : outcome Z :=
  find_bottom_up_loop (iter_fuel m) m
    (__next_mem_range m 0 nid flags (memory m) (Some (reserved m)))
    start end_ size align nid flags.

Fixpoint find_top_down_loop (n : nat) (m : memblock) (res : iter_result)
    (start end_ size align nid flags : Z) : outcome Z :=
  match n with
  | O => NoFuel
  | S n =>
    match res with
    | (i, Some (this_start, this_end, _)) =>
      if i =? ULLONG_MAX then Ok 0 else
      let this_start := clamp this_start start end_ in
      let this_end := clamp this_end start end_ in
      let again :=
        let* res' := __next_mem_range_rev m i nid flags (memory m) (Some (reserved m)) in
        find_top_down_loop n m res' start end_ size align nid flags in
      if this_end <? size then again
      else
        let cand := round_down (this_end - size) align in
        if this_start <=? cand then Ok cand else again
    | (_, None) => Ok 0
    end
  end.

Definition __memblock_find_range_top_down (m : memblock) (start end_ size align nid flags : Z)
    : outcome Z :=
  let* res := __next_mem_range_rev m ULLONG_MAX nid flags (memory m) (Some (reserved m)) in
  find_top_down_loop (iter_fuel m) m res start end_ size align nid flags.

Definition memblock_find_in_range_node (m : memblock) (size align start end_ nid flags : Z)
    : outcome Z :=
  let end_ := if end_ =? MEMBLOCK_ALLOC_ACCESSIBLE then current_limit m else end_ in
  let start := Z.max start PAGE_SIZE in
  let end_ := Z.max start end_ in
  if memblock_bottom_up m && (kernel_end cfg <? end_) then
    let bottom_up_start := Z.max start (kernel_end cfg) in
    let* ret := __memblock_find_range_bottom_up m bottom_up_start end_ size align nid flags in
    if negb (ret =? 0) then Ok ret
    else __memblock_find_range_top_down m start end_ size align nid flags
  else __memblock_find_range_top_down m start end_ size align nid flags.

(** [flags &= ~MEMBLOCK_MIRROR] *)
Definition clear_mirror (flags : Z) : Z := Z.land flags (u64 (Z.lnot MEMBLOCK_MIRROR)).

Definition memblock_find_in_range (m : memblock) (start end_ size align : Z) : outcome Z :=
  let flags := choose_memblock_flags m in
  let* ret := memblock_find_in_range_node m size align start end_ NUMA_NO_NODE flags in
  if (ret =? 0) && negb (Z.land flags MEMBLOCK_MIRROR =? 0) then
    memblock_find_in_range_node m size align start end_ NUMA_NO_NODE (clear_mirror flags)
  else Ok ret.

(** ** Growing the arrays *)

(** [memblock_double_array] and the operations that call it are mutually
    recursive through [memblock_reserve] and [memblock_free].  Each takes the
    routine it calls back as an argument; [memblock_double_array_n] ties the
    knot with a bound on the depth of the recursion.

    The regions of an array are a list of their own, and [t_array] only records
    where the array is: copying it, or placing it over memory that is in use,
    does not change other data of the model. An array that is put on top of
    the other one is therefore visible in [t_array], while the regions that the
    kernel would then overwrite stay intact. *)
Definition grow_fn : Type := mtype -> Z -> Z -> memblock -> outcome (Z * memblock).
Definition range_fn : Type := Z -> Z -> memblock -> outcome (Z * memblock).

Definition sizeof_region : Z := if HAVE_MEMBLOCK_NODE_MAP cfg then 32 else 24.

Definition PAGE_ALIGN (x : Z) : Z :=
  Z.land (u64 (x + (PAGE_SIZE - 1))) (u64 (Z.lnot (PAGE_SIZE - 1))).

(** The new array's physical address, 0 on failure. *)
Definition double_array_addr (ty : mtype) (new_area_start new_area_size new_size new_alloc_size : Z)
    (m : memblock) : outcome Z :=
  if slab_is_available cfg then Ok (kmalloc_pa cfg new_size)
  else
    let '(new_area_start, new_area_size) :=
      match ty with Reserved => (new_area_start, new_area_size) | Memory => (0, 0) end in
    let* addr := memblock_find_in_range m (u64 (new_area_start + new_area_size))
                   (current_limit m) new_alloc_size PAGE_SIZE in
    if (addr =? 0) && negb (new_area_size =? 0) then
      memblock_find_in_range m 0 (Z.min new_area_start (current_limit m)) new_alloc_size PAGE_SIZE
    else Ok addr.

Definition memblock_double_array (memblock_reserve memblock_free : range_fn)
    (ty : mtype) (new_area_start new_area_size : Z) (m : memblock) : outcome (Z * memblock) :=
  if negb (memblock_can_resize m) then Ok (-1, m)
  else
    let t := get_type m ty in
    let old_size := u64 (t_max t * sizeof_region) in
    let new_size := u64 (Z.shiftl old_size 1) in
    let old_alloc_size := PAGE_ALIGN old_size in
    let new_alloc_size := PAGE_ALIGN new_size in
    let* addr := double_array_addr ty new_area_start new_area_size new_size new_alloc_size m in
    if addr =? 0 then Ok (-1, m)
    else
      let old_array := t_array t in
      let m1 := set_type m ty
                  (mkType (regions t) (u64 (Z.shiftl (t_max t) 1)) (total_size t) (ArrAt addr)) in
      let* m2 := if in_slab m ty then Ok m1
                 else match old_array with
                      | ArrInit => Ok m1
                      | ArrAt pa => let* (_, m2) := memblock_free pa old_alloc_size m1 in Ok m2
                      end in
      let* m3 := if slab_is_available cfg then Ok m2
                 else let* (r, m3) := memblock_reserve addr new_alloc_size m2 in
                      BUG_ON (negb (r =? 0)) (Ok m3) in
      Ok (0, set_in_slab m3 ty (slab_is_available cfg)).

(** [while (type->cnt + extra > type->max) if (memblock_double_array(...) < 0)
    return -ENOMEM;]  [max] is an [unsigned long] that doubles each time. *)
Fixpoint ensure_room (n : nat) (dbl : grow_fn) (ty : mtype) (base size extra : Z) (m : memblock)
    : outcome (Z * memblock) :=
  match n with
  | O => NoFuel
  | S n =>
    if t_max (get_type m ty) <? cnt (get_type m ty) + extra then
      let* (r, m') := dbl ty base size m in
      if r <? 0 then Ok (- ENOMEM, m') else ensure_room n dbl ty base size extra m'
    else Ok (0, m)
  end.

Definition grow_fuel : nat := 64.

(** ** Adding, removing and marking ranges *)

Definition memblock_add_range (dbl : grow_fn) (ty : mtype) (base size nid flags : Z) (m : memblock)
    : outcome (Z * memblock) :=
  let size := memblock_cap_size base size in
  let end_ := u64 (base + size) in
  if size =? 0 then Ok (0, m)
  else
    let t := get_type m ty in
    match regions t with
    | r0 :: rest =>
      if r_size r0 =? 0 then
        let r0' := memblock_set_region_node (mkRegion base size flags (r_nid r0)) nid in
        Ok (0, set_type m ty (mkType (r0' :: rest) (t_max t) size (t_array t)))
      else
        let* (_, nr_new) := add_range_pass false t base end_ nid flags in
        let* (r, m) := ensure_room grow_fuel dbl ty base size nr_new m in
        if r <? 0 then Ok (r, m)
        else
          let* (t', _) := add_range_pass true (get_type m ty) base end_ nid flags in
          let* t'' := memblock_merge_regions t' in
          Ok (0, set_type m ty t'')
    | [] => Oops
    end.

(** Returns the error code, [*start_rgn], [*end_rgn] and the new state. *)
Definition memblock_isolate_range (dbl : grow_fn) (ty : mtype) (base size : Z) (m : memblock)
    : outcome (Z * nat * nat * memblock) :=
  let size := memblock_cap_size base size in
  let end_ := u64 (base + size) in
  if size =? 0 then Ok (0, 0%nat, 0%nat, m)
  else
    let* (r, m) := ensure_room grow_fuel dbl ty base size 2 m in
    if r <? 0 then Ok (r, 0%nat, 0%nat, m)
    else
      let t := get_type m ty in
      let* (t', start_rgn, end_rgn) :=
        isolate_loop (length (regions t) + 4) t 0 base end_ 0 0 in
      Ok (0, start_rgn, end_rgn, set_type m ty t').

Definition memblock_remove_range (dbl : grow_fn) (ty : mtype) (base size : Z) (m : memblock)
    : outcome (Z * memblock) :=
  let* (ret, start_rgn, end_rgn, m) := memblock_isolate_range dbl ty base size m in
  if negb (ret =? 0) then Ok (ret, m)
  else Ok (0, set_type m ty
                (remove_regions_loop (end_rgn - start_rgn) (get_type m ty) start_rgn)).

Definition memblock_reserve_region (dbl : grow_fn) (base size nid flags : Z) (m : memblock)
    : outcome (Z * memblock) :=
  memblock_add_range dbl Reserved base size nid flags m.

Fixpoint memblock_double_array_n (n : nat) : grow_fn :=
  match n with
  | O => fun _ _ _ _ => NoFuel
  | S n => memblock_double_array
             (fun base size => memblock_reserve_region (memblock_double_array_n n) base size
                                 (MAX_NUMNODES cfg) 0)
             (fun base size => memblock_remove_range (memblock_double_array_n n) Reserved base size)
  end.

(** Doubling [memory.regions] may have to double [reserved.regions] once on
    the way. The recursion of the code has no bound of its own; beyond this depth
    the model gives [NoFuel]. *)
Definition grow_depth : nat := 3.
Definition grow : grow_fn := memblock_double_array_n grow_depth.

Definition memblock_reserve (base size : Z) (m : memblock) : outcome (Z * memblock) :=
  memblock_reserve_region grow base size (MAX_NUMNODES cfg) 0 m.

Definition memblock_free (base size : Z) (m : memblock) : outcome (Z * memblock) :=
  memblock_remove_range grow Reserved base size m.

Definition memblock_remove (base size : Z) (m : memblock) : outcome (Z * memblock) :=
  memblock_remove_range grow Memory base size m.

Definition memblock_add_node (base size nid : Z) (m : memblock) : outcome (Z * memblock) :=
  memblock_add_range grow Memory base size nid 0 m.

Definition memblock_add_region (base size nid flags : Z) (m : memblock) : outcome (Z * memblock) :=
  memblock_add_range grow Memory base size nid flags m.

Definition memblock_add (base size : Z) (m : memblock) : outcome (Z * memblock) :=
  memblock_add_region base size (MAX_NUMNODES cfg) 0 m.

(** Apply [f] to the regions with index in [[s, e)]. *)
Definition update_regions (f : memblock_region -> memblock_region) (s e : nat)
    (l : list memblock_region) : list memblock_region :=
  imap (fun i r => if ((s <=? i) && (i <? e))%nat then f r else r) l.

Definition memblock_setclr_flag (base size : Z) (set : bool) (flag : Z) (m : memblock)
    : outcome (Z * memblock) :=
  let* (ret, start_rgn, end_rgn, m) := memblock_isolate_range grow Memory base size m in
  if negb (ret =? 0) then Ok (ret, m)
  else
    let t := get_type m Memory in
    let f := fun r => if set then memblock_set_region_flags r flag
                      else memblock_clear_region_flags r flag in
    let* t' := memblock_merge_regions
                 (set_regions t (update_regions f start_rgn end_rgn (regions t))) in
    Ok (0, set_type m Memory t').

Definition memblock_mark_hotplug (base size : Z) (m : memblock) : outcome (Z * memblock) :=
  memblock_setclr_flag base size true MEMBLOCK_HOTPLUG m.

Definition memblock_clear_hotplug (base size : Z) (m : memblock) : outcome (Z * memblock) :=
  memblock_setclr_flag base size false MEMBLOCK_HOTPLUG m.

Definition memblock_mark_mirror (base size : Z) (m : memblock) : outcome (Z * memblock) :=
  memblock_setclr_flag base size true MEMBLOCK_MIRROR
    (mkMemblock (bottom_up m) (current_limit m) (memory m) (reserved m)
       (movable_node_enabled m) true (memblock_can_resize m)
       (memblock_memory_in_slab m) (memblock_reserved_in_slab m)).

Definition memblock_mark_nomap (base size : Z) (m : memblock) : outcome (Z * memblock) :=
  memblock_setclr_flag base size true MEMBLOCK_NOMAP m.

(** Built only with [CONFIG_HAVE_MEMBLOCK_NODE_MAP]. *)
Definition memblock_set_node (base size : Z) (ty : mtype) (nid : Z) (m : memblock)
    : outcome (Z * memblock) :=
  let* (ret, start_rgn, end_rgn, m) := memblock_isolate_range grow ty base size m in
  if negb (ret =? 0) then Ok (ret, m)
  else
    let t := get_type m ty in
    let* t' := memblock_merge_regions
                 (set_regions t (update_regions (fun r => memblock_set_region_node r nid)
                                   start_rgn end_rgn (regions t))) in
    Ok (0, set_type m ty t').

(** ** Allocation *)

(** Returns the address (0 on failure) and the new state. *)
Definition memblock_alloc_range_nid (size align start end_ nid flags : Z) (m : memblock)
    : outcome (Z * memblock) :=
  let align := if align =? 0 then SMP_CACHE_BYTES else align in
  let* found := memblock_find_in_range_node m size align start end_ nid flags in
  if negb (found =? 0) then
    let* (r, m') := memblock_reserve found size m in
    if r =? 0 then Ok (found, m') else Ok (0, m')
  else Ok (0, m).

Definition memblock_alloc_range (size align start end_ flags : Z) (m : memblock)
    : outcome (Z * memblock) :=
  memblock_alloc_range_nid size align start end_ NUMA_NO_NODE flags m.

Definition memblock_alloc_base_nid (size align max_addr nid flags : Z) (m : memblock)
    : outcome (Z * memblock) :=
  memblock_alloc_range_nid size align 0 max_addr nid flags m.

Definition memblock_alloc_nid (size align nid : Z) (m : memblock) : outcome (Z * memblock) :=
  let flags := choose_memblock_flags m in
  let* (ret, m1) := memblock_alloc_base_nid size align MEMBLOCK_ALLOC_ACCESSIBLE nid flags m in
  if (ret =? 0) && negb (Z.land flags MEMBLOCK_MIRROR =? 0)
  then memblock_alloc_base_nid size align MEMBLOCK_ALLOC_ACCESSIBLE nid (clear_mirror flags) m1
  else Ok (ret, m1).

Definition __memblock_alloc_base (size align max_addr : Z) (m : memblock) : outcome (Z * memblock) :=
  memblock_alloc_base_nid size align max_addr NUMA_NO_NODE MEMBLOCK_NONE m.

Definition memblock_alloc_base (size align max_addr : Z) (m : memblock) : outcome (Z * memblock) :=
  let* (alloc, m) := __memblock_alloc_base size align max_addr m in
  if alloc =? 0 then Oops (* panic *) else Ok (alloc, m).

Definition memblock_alloc (size align : Z) (m : memblock) : outcome (Z * memblock) :=
  memblock_alloc_base size align MEMBLOCK_ALLOC_ACCESSIBLE m.

Definition memblock_alloc_try_nid (size align nid : Z) (m : memblock) : outcome (Z * memblock) :=
  let* (res, m1) := memblock_alloc_nid size align nid m in
  if negb (res =? 0) then Ok (res, m1)
  else memblock_alloc_base size align MEMBLOCK_ALLOC_ACCESSIBLE m1.

(** One round of the [again:] loop of [memblock_virt_alloc_internal]. *)
Definition virt_alloc_find (m : memblock) (size align min_addr max_addr nid flags : Z) : outcome Z :=
  let* alloc := memblock_find_in_range_node m size align min_addr max_addr nid flags in
  if negb (alloc =? 0) then Ok alloc
  else if negb (nid =? NUMA_NO_NODE)
  then memblock_find_in_range_node m size align min_addr max_addr NUMA_NO_NODE flags
  else Ok 0.

(** The [again:] loop drops [min_addr] and then the mirror flag, each at most
    once, so three rounds are enough. *)
Fixpoint virt_alloc_loop (n : nat) (m : memblock) (size align min_addr max_addr nid flags : Z)
    : outcome Z :=
  match n with
  | O => NoFuel
  | S n =>
    let* alloc := virt_alloc_find m size align min_addr max_addr nid flags in
    if negb (alloc =? 0) then Ok alloc
    else if negb (min_addr =? 0) then virt_alloc_loop n m size align 0 max_addr nid flags
    else if negb (Z.land flags MEMBLOCK_MIRROR =? 0)
    then virt_alloc_loop n m size align min_addr max_addr nid (clear_mirror flags)
    else Ok 0
  end.

(** Returns the physical address behind the virtual address the code returns,
    0 for [NULL].  With the slab up the code falls back to [kzalloc_node]. *)
Definition memblock_virt_alloc_internal (size align min_addr max_addr nid : Z) (m : memblock)
    : outcome (Z * memblock) :=
  let flags := choose_memblock_flags m in
  let nid := fix_nid nid in
  if slab_is_available cfg then Ok (kmalloc_pa cfg size, m)
  else
    let align := if align =? 0 then SMP_CACHE_BYTES else align in
    let max_addr := if current_limit m <? max_addr then current_limit m else max_addr in
    let* alloc := virt_alloc_loop 3 m size align min_addr max_addr nid flags in
    if alloc =? 0 then Ok (0, m)
    else
      let* (_, m') := memblock_reserve alloc size m in
      Ok (alloc, m').

Definition memblock_virt_alloc_try_nid_nopanic (size align min_addr max_addr nid : Z) (m : memblock)
    : outcome (Z * memblock) :=
  memblock_virt_alloc_internal size align min_addr max_addr nid m.

Definition memblock_virt_alloc_try_nid (size align min_addr max_addr nid : Z) (m : memblock)
    : outcome (Z * memblock) :=
  let* (ptr, m) := memblock_virt_alloc_internal size align min_addr max_addr nid m in
  if negb (ptr =? 0) then Ok (ptr, m) else Oops (* panic *).

Definition __memblock_free_early (base size : Z) (m : memblock) : outcome memblock :=
  let* (_, m) := memblock_remove_range grow Reserved base size m in Ok m.

(** ** Limits and trimming *)

(** The [for_each_memblock] loop of [memblock_enforce_memory_limit]. *)
Fixpoint find_max_addr (limit : Z) (l : list memblock_region) : Z :=
  match l with
  | [] => ULLONG_MAX
  | r :: l => if limit <=? r_size r then u64 (r_base r + limit) else find_max_addr (limit - r_size r) l
  end.

Definition memblock_enforce_memory_limit (limit : Z) (m : memblock) : outcome memblock :=
  if limit =? 0 then Ok m
  else
    let max_addr := find_max_addr limit (regions (memory m)) in
    let* (_, m) := memblock_remove_range grow Memory max_addr ULLONG_MAX m in
    let* (_, m) := memblock_remove_range grow Reserved max_addr ULLONG_MAX m in
    Ok m.

(** [for_each_memblock(memory, r)] with [r--] after a removal; the dummy entry
    left behind by the last removal takes one more iteration. *)
Fixpoint trim_loop (n : nat) (t : memblock_type) (i : nat) (align : Z) : outcome memblock_type :=
  match n with
  | O => NoFuel
  | S n =>
    match regions t !! i with
    | None => Ok t
    | Some r =>
      let orig_start := r_base r in
      let orig_end := region_end r in
      let start := round_up orig_start align in
      let end_ := round_down orig_end align in
      if (start =? orig_start) && (end_ =? orig_end) then trim_loop n t (S i) align
      else if start <? end_ then
        trim_loop n (set_regions t (<[i := mkRegion start (end_ - start) (r_flags r) (r_nid r)]>
                                      (regions t))) (S i) align
      else trim_loop n (memblock_remove_region t i) i align
    end
  end.

Definition memblock_trim_memory (align : Z) (m : memblock) : outcome memblock :=
  let* t := trim_loop (length (regions (memory m)) + 2) (memory m) 0 align in
  Ok (set_type m Memory t).

Definition memblock_set_current_limit (limit : Z) (m : memblock) : memblock :=
  mkMemblock (bottom_up m) limit (memory m) (reserved m)
    (movable_node_enabled m) (system_has_some_mirror m) (memblock_can_resize m)
    (memblock_memory_in_slab m) (memblock_reserved_in_slab m).

Definition memblock_get_current_limit (m : memblock) : Z := current_limit m.

Definition memblock_allow_resize (m : memblock) : memblock :=
  mkMemblock (bottom_up m) (current_limit m) (memory m) (reserved m)
    (movable_node_enabled m) (system_has_some_mirror m) true
    (memblock_memory_in_slab m) (memblock_reserved_in_slab m).

(** ** Page frames *)

Definition PFN_UP (x : Z) : Z := Z.shiftr (u64 (x + PAGE_SIZE - 1)) PAGE_SHIFT.
Definition PFN_DOWN (x : Z) : Z := Z.shiftr x PAGE_SHIFT.
Definition PFN_PHYS (x : Z) : Z := u64 (Z.shiftl x PAGE_SHIFT).

Definition memblock_region_memory_base_pfn (r : memblock_region) : Z := PFN_UP (r_base r).
Definition memblock_region_memory_end_pfn (r : memblock_region) : Z := PFN_DOWN (region_end r).

Fixpoint mem_size_loop (limit_pfn pages : Z) (l : list memblock_region) : Z :=
  match l with
  | [] => pages
  | r :: l =>
    let start_pfn := Z.min (memblock_region_memory_base_pfn r) limit_pfn in
    let end_pfn := Z.min (memblock_region_memory_end_pfn r) limit_pfn in
    mem_size_loop limit_pfn (u64 (pages + (end_pfn - start_pfn))) l
  end.

Definition memblock_mem_size (m : memblock) (limit_pfn : Z) : Z :=
  PFN_PHYS (mem_size_loop limit_pfn 0 (regions (memory m))).

End Ops.
