(* ===== verification/MemblockArray.v ===== *)
(** * MemblockArray: region arrays as maps from addresses to attributes

    The abstract reading of a region array is the partial map [addr_attr] from
    physical addresses to the node and flags of the region that covers them.
    This file relates every array routine of mm/memblock.c (insertion, the two
    passes of [memblock_add_range], merging, isolation, removal) to that map
    under the array invariant [seg]: regions are non-empty, sorted, disjoint
    and inside the address space. *)

From S2P Require Import Prelude Memblock.

Section Array.
Context (cfg : memblock_config).

(** ** The array invariant and the address map *)

(** The regions of [l] are non-empty, in increasing order, pairwise disjoint
    and inside [[lo, hi)]. *)
Fixpoint seg (lo hi : Z) (l : list memblock_region) : Prop :=
  match l with
  | [] => lo <= hi
  | r :: l => lo <= r_base r /\ 0 < r_size r /\ seg (r_base r + r_size r) hi l
  end.

Definition attr (r : memblock_region) : Z * Z := (memblock_get_region_node cfg r, r_flags r).

Definition covers (r : memblock_region) (a : Z) : bool :=
  (r_base r <=? a) && (a <? r_base r + r_size r).

(** Node and flags of the region that covers an address. *)
Fixpoint addr_attr (l : list memblock_region) (a : Z) : option (Z * Z) :=
  match l with
  | [] => None
  | r :: l => if covers r a then Some (attr r) else addr_attr l a
  end.

Fixpoint sum_size (l : list memblock_region) : Z :=
  match l with [] => 0 | r :: l => r_size r + sum_size l end.

(** No two neighbouring regions could be merged. *)
Fixpoint minimal (l : list memblock_region) : Prop :=
  match l with
  | r :: ((r' :: _) as l') =>
    (r_base r + r_size r = r_base r' -> attr r <> attr r') /\ minimal l'
  | _ => True
  end.

(** The empty array is represented by one entry of size 0. *)
Definition dummy (l : list memblock_region) : Prop :=
  exists r, l = [r] /\ r_base r = 0 /\ r_size r = 0.

Definition array_ok (l : list memblock_region) : Prop :=
  dummy l \/ (l <> [] /\ seg 0 ULLONG_MAX l).

(** ** Facts about [seg] and [addr_attr] *)

Lemma seg_le lo hi l : seg lo hi l -> lo <= hi.
Proof. revert lo; induction l as [|r l IH]; simpl; intros; [lia|]. destruct H as (?&?&H). apply IH in H. lia. Qed.

Lemma seg_weaken lo hi lo' hi' l : seg lo hi l -> lo' <= lo -> hi <= hi' -> seg lo' hi' l.
Proof.
  revert lo lo'; induction l as [|r l IH]; simpl; intros lo lo' H Hlo Hhi; [lia|].
  destruct H as (?&?&H). split_and!; [lia..|]. eapply IH; eauto; lia.
Qed.

Lemma seg_app lo hi l1 l2 :
  seg lo hi (l1 ++ l2) <-> exists mid, seg lo mid l1 /\ seg mid hi l2.
Proof.
  revert lo; induction l1 as [|r l1 IH]; simpl; intros lo.
  - split; [|intros (mid&?&?); eapply seg_weaken; eauto; lia].
    intros H. exists lo. split; [lia|done].
  - rewrite IH. naive_solver.
Qed.

Lemma seg_region lo hi l r : seg lo hi l -> r ∈ l ->
  lo <= r_base r /\ 0 < r_size r /\ r_base r + r_size r <= hi.
Proof.
  revert lo; induction l as [|r' l IH]; simpl; intros lo H Hin; [by apply elem_of_nil in Hin|].
  destruct H as (?&?&H). apply elem_of_cons in Hin as [->|Hin].
  - apply seg_le in H. lia.
  - apply IH in H; [lia|done].
Qed.

Lemma seg_tighten lo hi l lo' hi' :
  seg lo hi l -> lo' <= hi' -> (forall r, r ∈ l -> lo' <= r_base r /\ r_base r + r_size r <= hi') ->
  seg lo' hi' l.
Proof.
  revert lo lo'; induction l as [|r l IH]; simpl; intros lo lo' H Hle Hall; [done|].
  destruct H as (?&?&H). pose proof (Hall r (list_elem_of_here _ _)).
  split_and!; [lia..|]. eapply IH; [done|lia|].
  intros r' Hr'. pose proof (seg_region _ _ _ _ H Hr'). pose proof (Hall r' (list_elem_of_further _ _ _ Hr')).
  lia.
Qed.

Lemma addr_attr_app l1 l2 a :
  addr_attr (l1 ++ l2) a = match addr_attr l1 a with Some x => Some x | None => addr_attr l2 a end.
Proof. induction l1 as [|r l1 IH]; simpl; [done|]. by destruct (covers r a). Qed.

Lemma addr_attr_None l a :
  (forall r, r ∈ l -> covers r a = false) -> addr_attr l a = None.
Proof.
  induction l as [|r l IH]; simpl; intros H; [done|].
  rewrite H by apply list_elem_of_here. apply IH. intros r' Hr'. apply H. by apply list_elem_of_further.
Qed.

Lemma addr_attr_out lo hi l a : seg lo hi l -> a < lo \/ hi <= a -> addr_attr l a = None.
Proof.
  intros H Ha. apply addr_attr_None. intros r Hr.
  pose proof (seg_region _ _ _ _ H Hr). unfold covers. lia.
Qed.

Lemma addr_attr_Some l a x : addr_attr l a = Some x ->
  exists i r, l !! i = Some r /\ covers r a = true /\ attr r = x.
Proof.
  induction l as [|r l IH]; simpl; [done|].
  destruct (covers r a) eqn:E.
  - intros [= <-]. by exists 0%nat, r.
  - intros H. destruct (IH H) as (i&r'&?&?&?). by exists (S i), r'.
Qed.

Lemma addr_attr_covered lo hi l r a :
  seg lo hi l -> r ∈ l -> covers r a = true -> addr_attr l a = Some (attr r).
Proof.
  revert lo; induction l as [|r' l IH]; simpl; intros lo H Hin Hc; [by apply elem_of_nil in Hin|].
  destruct H as (?&?&H). apply elem_of_cons in Hin as [->|Hin]; [by rewrite Hc|].
  pose proof (seg_region _ _ _ _ H Hin). destruct (covers r' a) eqn:E; [unfold covers in *; lia|].
  eauto.
Qed.

Lemma seg_region_end lo hi r : 0 <= lo -> hi <= ULLONG_MAX ->
  lo <= r_base r -> 0 <= r_size r -> r_base r + r_size r <= hi ->
  region_end r = r_base r + r_size r.
Proof. intros. unfold region_end. apply u64_small. lia. Qed.

Lemma sum_size_app l1 l2 : sum_size (l1 ++ l2) = sum_size l1 + sum_size l2.
Proof. induction l1; simpl; lia. Qed.

Lemma sum_size_bound lo hi l : seg lo hi l -> 0 <= sum_size l <= hi - lo.
Proof.
  revert lo; induction l as [|r l IH]; simpl; intros lo H; [lia|].
  destruct H as (?&?&H). apply IH in H. lia.
Qed.

Lemma dummy_addr_attr l a : dummy l -> addr_attr l a = None.
Proof. intros (r&->&?&?). simpl. unfold covers. case_if; [lia|done]. Qed.

Lemma array_ok_length l : array_ok l -> (0 < length l)%nat.
Proof. intros [(r&->&_)|[? _]]; [simpl; lia|]. destruct l; [done|simpl; lia]. Qed.

Lemma attr_set_node b s f n n' :
  attr (memblock_set_region_node cfg (mkRegion b s f n') n) = (memblock_get_region_node cfg (mkRegion b s f n), f).
Proof. unfold attr, memblock_set_region_node, memblock_get_region_node. by destruct (HAVE_MEMBLOCK_NODE_MAP cfg). Qed.

Lemma base_set_node r n : r_base (memblock_set_region_node cfg r n) = r_base r.
Proof. unfold memblock_set_region_node. by destruct (HAVE_MEMBLOCK_NODE_MAP cfg). Qed.

Lemma size_set_node r n : r_size (memblock_set_region_node cfg r n) = r_size r.
Proof. unfold memblock_set_region_node. by destruct (HAVE_MEMBLOCK_NODE_MAP cfg). Qed.

Lemma flags_set_node r n : r_flags (memblock_set_region_node cfg r n) = r_flags r.
Proof. unfold memblock_set_region_node. by destruct (HAVE_MEMBLOCK_NODE_MAP cfg). Qed.

(** ** The passes of memblock_add_range *)

Section Fill.
Context (end_ nid flags : Z).

Definition new_region (base size : Z) : memblock_region :=
  memblock_set_region_node cfg (mkRegion base size flags 0) nid.

Definition new_attr : Z * Z := (memblock_get_region_node cfg (mkRegion 0 0 flags nid), flags).

(** What the inserting pass makes of the array: the parts of [[base, end_)]
    that no region covers become new regions. *)
Fixpoint fill (base : Z) (l : list memblock_region) : list memblock_region :=
  match l with
  | [] => if base <? end_ then [new_region base (end_ - base)] else []
  | r :: l' =>
    if end_ <=? r_base r then
      if base <? end_ then new_region base (end_ - base) :: r :: l' else r :: l'
    else if r_base r + r_size r <=? base then r :: fill base l'
    else if base <? r_base r then
      new_region base (r_base r - base) :: r :: fill (Z.min (r_base r + r_size r) end_) l'
    else r :: fill (Z.min (r_base r + r_size r) end_) l'
  end.

Definition nr_fill (base : Z) (l : list memblock_region) : Z :=
  Z.of_nat (length (fill base l)) - Z.of_nat (length l).

Lemma new_region_base b s : r_base (new_region b s) = b.
Proof. apply base_set_node. Qed.
Lemma new_region_size b s : r_size (new_region b s) = s.
Proof. apply size_set_node. Qed.
Lemma new_region_attr b s : attr (new_region b s) = new_attr.
Proof.
  unfold new_region. rewrite attr_set_node. unfold new_attr, memblock_get_region_node.
  by destruct (HAVE_MEMBLOCK_NODE_MAP cfg).
Qed.

Lemma covers_new b s a : covers (new_region b s) a = (b <=? a) && (a <? b + s).
Proof. unfold covers. by rewrite new_region_base, new_region_size. Qed.

Lemma fill_id base l : end_ <= base -> fill base l = l.
Proof.
  revert base; induction l as [|r l IH]; simpl; intros base H; case_ifs; try done.
  - by rewrite IH.
  - by rewrite IH by lia.
Qed.

Lemma fill_seg lo hi base l :
  seg lo hi l -> end_ <= hi -> lo <= base -> seg lo hi (fill base l).
Proof.
  revert lo base; induction l as [|r l IH]; simpl; intros lo base H Hhi Hb.
  - case_ifs; simpl; rewrite ?new_region_base, ?new_region_size; lia.
  - destruct H as (H1&H2&H3).
    assert (Hnext : forall b, Z.min (r_base r + r_size r) end_ = b ->
              seg (r_base r + r_size r) hi (fill b l)).
    { intros b <-. destruct (decide (end_ <= r_base r + r_size r)).
      - rewrite fill_id by lia. done.
      - apply IH; [done|lia|lia]. }
    case_ifs; simpl; rewrite ?new_region_base, ?new_region_size;
      repeat split; try lia; try (by apply Hnext).
    + eapply seg_weaken; [apply H3|lia|lia].
    + done.
    + apply IH; [done|lia|lia].
Qed.

Lemma fill_attr lo hi base l a :
  seg lo hi l -> lo <= base ->
  addr_attr (fill base l) a =
    match addr_attr l a with
    | Some x => Some x
    | None => if (base <=? a) && (a <? end_) then Some new_attr else None
    end.
Proof.
  revert lo base; induction l as [|r l IH]; simpl; intros lo base H Hb.
  - case_if; simpl.
    + rewrite covers_new, new_region_attr. case_ifs; try done; lia.
    + case_ifs; try done; lia.
  - destruct H as (H1&H2&H3).
    assert (Hout : addr_attr l a <> None -> r_base r + r_size r <= a).
    { intros Hne. destruct (decide (r_base r + r_size r <= a)); [done|].
      destruct Hne. eapply addr_attr_out; [apply H3|lia]. }
    assert (Hnext : addr_attr (fill (Z.min (r_base r + r_size r) end_) l) a =
       match addr_attr l a with
       | Some x => Some x
       | None => if (r_base r + r_size r <=? a) && (a <? end_) then Some new_attr else None end).
    { destruct (decide (end_ <= r_base r + r_size r)).
      - rewrite fill_id by lia. destruct (addr_attr l a); [done|]. case_ifs; done.
      - rewrite (IH (r_base r + r_size r)); [|done|lia]. rewrite Z.min_l by lia. done. }
    destruct (covers r a) eqn:Ec; unfold covers in Ec.
    + repeat case_if; simpl; rewrite ?covers_new, ?new_region_attr; unfold covers;
        repeat (case_if; try lia); done.
    + destruct (addr_attr l a) eqn:El.
      * assert (r_base r + r_size r <= a) by (apply Hout; done).
        repeat (case_if; try lia); simpl; rewrite ?covers_new, ?new_region_attr; unfold covers;
          repeat (case_if; try lia); rewrite ?El, ?Hnext; try done.
        rewrite (IH (r_base r + r_size r)) by (done || lia). done.
      * destruct (end_ <=? r_base r) eqn:E1; [|destruct (r_base r + r_size r <=? base) eqn:E2;
          [|destruct (base <? r_base r) eqn:E3]]; simpl.
        -- repeat (case_if; simpl; rewrite ?covers_new, ?new_region_attr; unfold covers; try lia);
             rewrite ?El; try done; lia.
        -- unfold covers. rewrite Ec. rewrite (IH (r_base r + r_size r)) by (done || lia). done.
        -- rewrite covers_new, new_region_attr. unfold covers. rewrite Ec, Hnext.
           repeat (case_if; try lia); done.
        -- unfold covers. rewrite Ec, Hnext. repeat (case_if; try lia); done.
Qed.

Lemma nr_fill_nonneg base l : 0 <= nr_fill base l.
Proof.
  unfold nr_fill. revert base; induction l as [|r l IH]; simpl; intros base.
  - case_if; simpl; lia.
  - repeat case_if; simpl; try lia;
      repeat match goal with |- context [fill ?b l] => pose proof (IH b); generalize dependent (fill b l) end; intros; lia.
Qed.

Lemma insert_region_app t pre suf b s f n :
  regions t = pre ++ suf ->
  memblock_insert_region cfg t (length pre) b s n f =
    BUG_ON (t_max t <=? cnt t)
      (Ok (mkType (pre ++ memblock_set_region_node cfg (mkRegion b s f 0) n :: suf)
             (t_max t) (u64 (total_size t + s)) (t_array t))).
Proof. intros H. unfold memblock_insert_region. by rewrite H, take_app_length, drop_app_length. Qed.

Lemma cnt_app t pre suf : regions t = pre ++ suf -> cnt t = Z.of_nat (length pre) + Z.of_nat (length suf).
Proof. unfold cnt. intros ->. rewrite length_app. lia. Qed.

(** A pass over [t] that should leave the regions [l'] and add their number to
    the count [nr]: [BUG_ON] fires exactly when they do not fit. *)
Definition pass_result (t : memblock_type) (l' : list memblock_region) (nr : Z)
    (res : outcome (memblock_type * Z)) : Prop :=
  (res = Oops /\ t_max t < Z.of_nat (length l')) \/
  (res = Ok (mkType l' (t_max t) (u64 (total_size t + (sum_size l' - sum_size (regions t)))) (t_array t),
             nr + (Z.of_nat (length l') - cnt t)) /\
   Z.of_nat (length l') <= t_max t).

Lemma pass_result_id t nr :
  total_size t = u64 (total_size t) -> cnt t <= t_max t -> pass_result t (regions t) nr (Ok (t, nr)).
Proof.
  intros Htot Hc. right. unfold cnt in *. rewrite !Z.sub_diag, !Z.add_0_r, <- Htot. by destruct t.
Qed.

Lemma pass_result_insert t t' l' nr res pre suf r :
  regions t = pre ++ suf -> regions t' = pre ++ r :: suf ->
  total_size t' = u64 (total_size t + r_size r) -> t_max t' = t_max t -> t_array t' = t_array t ->
  pass_result t' l' (nr + 1) res -> pass_result t l' nr res.
Proof.
  unfold pass_result, cnt. intros Ht Ht' -> -> ->. rewrite Ht, Ht', !length_app, !sum_size_app. simpl.
  intros [?|[-> ?]]; [by left|right]. split; [|done].
  rewrite u64_add_l. f_equal. f_equal; [|lia]. do 2 f_equal. lia.
Qed.

Lemma insert_pass t pre suf b s nr l' (k : memblock_type -> outcome (memblock_type * Z)) :
  regions t = pre ++ suf ->
  let t' := mkType (pre ++ new_region b s :: suf) (t_max t) (u64 (total_size t + s)) (t_array t) in
  (cnt t < t_max t -> pass_result t' l' (nr + 1) (k t')) -> (S (length (regions t)) <= length l')%nat ->
  pass_result t l' nr (obind (memblock_insert_region cfg t (length pre) b s nid flags) k).
Proof.
  intros Ht t' Hk Hlen. rewrite (insert_region_app t pre suf) by done. unfold BUG_ON.
  case_if; cbn [obind]; [left; unfold cnt in *; split; [done|lia]|].
  apply (pass_result_insert t t' l' nr _ pre suf (new_region b s)); try done.
  - unfold t'. simpl. by rewrite new_region_size.
  - apply Hk. lia.
Qed.

Lemma fill_length base l : (length l <= length (fill base l))%nat.
Proof. pose proof (nr_fill_nonneg base l). unfold nr_fill in *. lia. Qed.

Lemma add_rest_insert t pre suf base nr :
  regions t = pre ++ suf -> total_size t = u64 (total_size t) -> cnt t <= t_max t ->
  pass_result t (pre ++ (if base <? end_ then [new_region base (end_ - base)] else []) ++ suf) nr
    (add_range_rest cfg true end_ nid flags (t, length pre, base, nr)).
Proof.
  intros Ht Htot Hc. simpl. destruct (base <? end_); simpl.
  - apply (insert_pass t pre suf); [done| |rewrite Ht, !length_app; simpl; lia].
    intros Hroom. apply pass_result_id; simpl; [symmetry; apply u64_small, u64_range|].
    unfold cnt in *. simpl. rewrite Ht in Hroom. rewrite !length_app in *. simpl. lia.
  - rewrite <- Ht. by apply pass_result_id.
Qed.

Lemma add_pass_insert suf : forall pre t base nr lo,
  regions t = pre ++ suf -> 0 <= lo -> seg lo ULLONG_MAX suf ->
  total_size t = u64 (total_size t) -> cnt t <= t_max t ->
  pass_result t (pre ++ fill base suf) nr
    (obind (add_range_loop cfg (S (length suf)) true t (length pre) base end_ nid flags nr)
       (add_range_rest cfg true end_ nid flags)).
Proof.
  induction suf as [|r suf IH]; intros pre t base nr lo Ht Hlo Hseg Htot Hc.
  - simpl length. cbn [add_range_loop]. rewrite Ht, lookup_app_r, Nat.sub_diag by lia. simpl obind.
    pose proof (add_rest_insert t pre [] base nr Ht Htot Hc) as H. by rewrite app_nil_r in H.
  - destruct Hseg as (H1&H2&H3).
    assert (Hend : region_end r = r_base r + r_size r).
    { apply (seg_region_end lo ULLONG_MAX); try lia. by apply seg_le in H3. }
    cbn [length]. remember (S (length suf)) as n eqn:Hn. cbn [add_range_loop].
    rewrite Ht, lookup_app_r, Nat.sub_diag by lia. cbn [lookup list_lookup]. rewrite Hend.
    assert (Hskip : forall b, pass_result t (pre ++ r :: fill b suf) nr
      (obind (add_range_loop cfg n true t (S (length pre)) b end_ nid flags nr)
         (add_range_rest cfg true end_ nid flags))).
    { intros b. pose proof (IH (pre ++ [r]) t b nr (r_base r + r_size r)) as H.
      rewrite length_app, Nat.add_1_r, <- !app_assoc in H. apply H; try done. lia. }
    cbn [fill]. destruct (end_ <=? r_base r) eqn:E1.
    { pose proof (add_rest_insert t pre (r :: suf) base nr Ht Htot Hc) as H.
      destruct (base <? end_); apply H. }
    destruct (r_base r + r_size r <=? base) eqn:E2; [apply Hskip|].
    destruct (base <? r_base r) eqn:E3; [|apply Hskip].
    set (b' := Z.min (r_base r + r_size r) end_).
    rewrite obind_assoc.
    apply (insert_pass t pre (r :: suf)); [done| |].
    2:{ rewrite Ht, !length_app. simpl. pose proof (fill_length b' suf). lia. }
    intros Hroom. pose proof (IH (pre ++ [new_region base (r_base r - base); r])
      (mkType (pre ++ new_region base (r_base r - base) :: r :: suf) (t_max t)
         (u64 (total_size t + (r_base r - base))) (t_array t)) b' (nr + 1) (r_base r + r_size r)) as H.
    rewrite length_app, <- !app_assoc in H. simpl in H.
    replace (length pre + 2)%nat with (S (S (length pre))) in H by lia.
    apply H; try done; [lia|symmetry; apply u64_small, u64_range|].
    unfold cnt in *. simpl. rewrite Ht in Hroom. rewrite !length_app in *. simpl in *. lia.
Qed.

Lemma add_pass_count suf : forall pre t base nr lo,
  regions t = pre ++ suf -> 0 <= lo -> seg lo ULLONG_MAX suf ->
  obind (add_range_loop cfg (S (length suf)) false t (length pre) base end_ nid flags nr)
    (add_range_rest cfg false end_ nid flags) = Ok (t, nr + nr_fill base suf).
Proof.
  unfold nr_fill.
  induction suf as [|r suf IH]; intros pre t base nr lo Ht Hlo Hseg.
  - simpl length. cbn [add_range_loop]. rewrite Ht, lookup_app_r, Nat.sub_diag by lia. simpl.
    case_if; simpl; do 2 f_equal; lia.
  - destruct Hseg as (H1&H2&H3).
    assert (Hend : region_end r = r_base r + r_size r).
    { apply (seg_region_end lo ULLONG_MAX); try lia. by apply seg_le in H3. }
    cbn [length]. remember (S (length suf)) as n eqn:Hn. cbn [add_range_loop].
    rewrite Ht, lookup_app_r, Nat.sub_diag by lia. cbn [lookup list_lookup]. rewrite Hend.
    assert (Hskip : forall b nr',
      obind (add_range_loop cfg n false t (S (length pre)) b end_ nid flags nr')
        (add_range_rest cfg false end_ nid flags) =
      Ok (t, nr' + (Z.of_nat (length (fill b suf)) - Z.of_nat (length suf)))).
    { intros b nr'. pose proof (IH (pre ++ [r]) t b nr' (r_base r + r_size r)) as H.
      rewrite length_app, Nat.add_1_r, <- !app_assoc in H. simpl in H. apply H; try done. lia. }
    cbn [fill]. repeat case_if; rewrite ?Hskip; simpl;
      repeat case_if; try done; do 2 f_equal; simpl; lia.
Qed.

End Fill.

(** ** Merging *)

Lemma attr_neq r r' :
  negb (memblock_get_region_node cfg r =? memblock_get_region_node cfg r')
    || negb (r_flags r =? r_flags r') = true <-> attr r <> attr r'.
Proof.
  unfold attr. split; [|intros H]; [intros H [= H1 H2]; lia|].
  destruct (Z.eqb_spec (memblock_get_region_node cfg r) (memblock_get_region_node cfg r')),
    (Z.eqb_spec (r_flags r) (r_flags r')); simpl; try done. congruence.
Qed.

(** The merged array has the same address map and size, and is minimal. *)
Lemma merge_loop_spec l : forall this lo hi,
  0 <= lo -> hi <= ULLONG_MAX -> seg lo hi (this :: l) ->
  exists h l', memblock_merge_loop cfg this l = Ok (h :: l') /\
    seg lo hi (h :: l') /\
    (forall a, addr_attr (h :: l') a = addr_attr (this :: l) a) /\
    sum_size (h :: l') = sum_size (this :: l) /\
    (length l' <= length l)%nat /\ minimal (h :: l') /\
    r_base h = r_base this /\ attr h = attr this.
Proof.
  induction l as [|next l IH]; intros this lo hi Hlo Hhi (H1&H2&H3).
  - exists this, []. simpl in *. split_and!; auto.
  - destruct H3 as (H3&H4&H5).
    assert (Hb : r_base next + r_size next <= hi) by (by apply seg_le in H5).
    assert (Hend : region_end this = r_base this + r_size this)
      by (apply (seg_region_end lo hi); lia).
    cbn [memblock_merge_loop]. rewrite Hend.
    destruct (negb (r_base this + r_size this =? r_base next)
       || negb (memblock_get_region_node cfg this =? memblock_get_region_node cfg next)
       || negb (r_flags this =? r_flags next)) eqn:E.
    + unfold BUG_ON. replace (r_base next <? r_base this + r_size this) with false by lia.
      destruct (IH next (r_base this + r_size this) hi) as (h&l'&Hm&Hs&Ha&Hsum&Hlen&Hmin&Hb'&Hat);
        [lia|done|simpl; split_and!; (lia || done)|].
      rewrite Hm. simpl. exists this, (h :: l').
      split_and!; try done; try lia.
      * intros a. simpl in *. destruct (covers this a); [done|]. apply (Ha a).
      * simpl in *. lia.
      * simpl. lia.
      * rewrite Hat, Hb'. intros Htouch. apply attr_neq. rewrite <- orb_assoc in E.
        apply orb_true_iff in E as [E|E]; [lia|done].
    + set (mr := mkRegion (r_base this) (u64 (r_size this + r_size next)) (r_flags this) (r_nid this)).
      apply orb_false_iff in E as [E E3]. apply orb_false_iff in E as [E1 E2].
      assert (Hsz : r_size mr = r_size this + r_size next) by (simpl; apply u64_small; lia).
      assert (Hbm : r_base mr = r_base this) by done.
      assert (Hattr : attr mr = attr this) by (unfold attr, memblock_get_region_node; done).
      assert (Hattr' : attr next = attr this).
      { destruct (decide (attr this = attr next)) as [|Hne]; [done|]. apply attr_neq in Hne.
        by rewrite E2, E3 in Hne. }
      destruct (IH mr lo hi) as (h&l'&Hm&Hs&Ha&Hsum&Hlen&Hmin&Hb'&Hat);
        [lia|done|cbn [seg]; rewrite Hsz; simpl r_base; split_and!; try lia;
             eapply seg_weaken; [apply H5|lia|lia]|].
      exists h, l'. split_and!; try done; try (simpl; lia); try congruence.
      * intros a. rewrite Ha. cbn [addr_attr]. rewrite Hattr, Hattr'.
        unfold covers. rewrite Hsz, Hbm. case_ifs; done.
      * rewrite Hsum. cbn [sum_size]. rewrite Hsz. lia.
Qed.

(** ** Isolation *)

(** Indices [s] and [e] delimit the regions of [l] inside [[base, end_)]; no
    other region meets that range. *)
Definition isolated (base end_ : Z) (l : list memblock_region) (s e : nat) : Prop :=
  exists l1 l2 l3, l = l1 ++ l2 ++ l3 /\ s = length l1 /\ e = (length l1 + length l2)%nat /\
    (forall r, r ∈ l2 -> base <= r_base r /\ r_base r + r_size r <= end_) /\
    (forall r, r ∈ l1 ++ l3 -> r_base r + r_size r <= base \/ end_ <= r_base r).

Lemma attr_copy r b s n :
  attr (memblock_set_region_node cfg (mkRegion b s (r_flags r) n) (memblock_get_region_node cfg r)) = attr r.
Proof. rewrite attr_set_node. unfold attr, memblock_get_region_node. by destruct (HAVE_MEMBLOCK_NODE_MAP cfg). Qed.

Lemma attr_resize r b s : attr (mkRegion b s (r_flags r) (r_nid r)) = attr r.
Proof. done. Qed.

(** Cutting [r] at [c]: the halves cover what [r] covered. *)
Lemma split_attr r c l a :
  r_base r < c < r_base r + r_size r ->
  addr_attr (memblock_set_region_node cfg (mkRegion (r_base r) (c - r_base r) (r_flags r) 0)
                 (memblock_get_region_node cfg r)
             :: mkRegion c (r_size r - (c - r_base r)) (r_flags r) (r_nid r) :: l) a =
  addr_attr (r :: l) a.
Proof.
  intros H. cbn [addr_attr]. rewrite attr_copy, attr_resize.
  unfold covers. rewrite base_set_node, size_set_node. simpl. case_ifs; done.
Qed.

Section Isolate.
Context (base end_ : Z).
Hypothesis Hrange : 0 <= base < end_.
Hypothesis Hend : end_ <= ULLONG_MAX.

Lemma insert_region_split t l1 l2 r suf c :
  regions t = l1 ++ l2 ++ r :: suf -> total_size t = u64 (total_size t) ->
  cnt t < t_max t -> 0 <= r_base r -> r_base r < c < r_base r + r_size r ->
  r_base r + r_size r <= ULLONG_MAX ->
  let rgn' := mkRegion c (u64 (r_size r - (c - r_base r))) (r_flags r) (r_nid r) in
  memblock_insert_region cfg
    (mkType (<[length (l1 ++ l2) := rgn']> (regions t)) (t_max t)
       (u64 (total_size t - (c - r_base r))) (t_array t))
    (length (l1 ++ l2)) (r_base r) (c - r_base r) (memblock_get_region_node cfg rgn') (r_flags rgn')
  = Ok (mkType (l1 ++ l2 ++
         memblock_set_region_node cfg (mkRegion (r_base r) (c - r_base r) (r_flags r) 0)
           (memblock_get_region_node cfg r)
         :: mkRegion c (r_size r - (c - r_base r)) (r_flags r) (r_nid r) :: suf)
         (t_max t) (total_size t) (t_array t)).
Proof.
  intros Ht Htot Hroom Hb Hc Hmax rgn'.
  assert (Hins : <[length (l1 ++ l2) := rgn']> (regions t) = (l1 ++ l2) ++ rgn' :: suf).
  { rewrite Ht, app_assoc. rewrite <- (Nat.add_0_r (length (l1 ++ l2))). by rewrite insert_app_r. }
  rewrite Hins. rewrite (insert_region_app _ (l1 ++ l2) (rgn' :: suf)) by done.
  unfold BUG_ON. unfold cnt in *. simpl. rewrite Ht in Hroom. rewrite !length_app in *. simpl in *.
  case_if; [lia|]. rewrite u64_add_l. replace (total_size t - (c - r_base r) + (c - r_base r)) with (total_size t) by lia.
  rewrite <- Htot. unfold rgn'. rewrite (u64_small (r_size r - (c - r_base r))) by lia.
  by rewrite <- app_assoc.
Qed.

Definition iso_budget (lo : Z) : nat := if lo <? base then 2 else 1.

Ltac solve_budget :=
  unfold iso_budget, cnt in *; simpl in *;
  repeat match goal with
  | H : context [if ?b then _ else _] |- _ => destruct b eqn:?
  | |- context [if ?b then _ else _] => destruct b eqn:?
  end; simpl in *; try lia.

(** While the loop runs: [l1] lies before the range, [l2] inside it. *)
Record iso (l1 l2 : list memblock_region) (lo : Z) (s e : nat) : Prop := {
  iso_before : forall r, r ∈ l1 -> r_base r + r_size r <= base;
  iso_inside : forall r, r ∈ l2 -> base <= r_base r /\ r_base r + r_size r <= end_;
  iso_none : l2 = [] -> s = 0%nat /\ e = 0%nat;
  iso_some : l2 <> [] -> s = length l1 /\ e = (length l1 + length l2)%nat /\ base <= lo
}.

Lemma iso_init lo : iso [] [] lo 0 0.
Proof. by split; intros; [exfalso; eapply elem_of_nil|exfalso; eapply elem_of_nil| |]. Qed.

Lemma iso_stop l1 l2 suf lo s e :
  iso l1 l2 lo s e -> (forall r, r ∈ suf -> end_ <= r_base r) -> isolated base end_ ((l1 ++ l2) ++ suf) s e.
Proof.
  intros [H1 H2 H3 H4] Hsuf. rewrite <- app_assoc. destruct (decide (l2 = [])) as [->|Hne].
  - destruct (H3 eq_refl) as [-> ->]. exists [], [], (l1 ++ suf). split_and!; simpl; try done.
    intros r Hr. apply elem_of_app in Hr as [Hr|Hr]; auto.
  - destruct (H4 Hne) as (->&->&_). exists l1, l2, suf. split_and!; try done.
    intros r Hr. apply elem_of_app in Hr as [Hr|Hr]; auto.
Qed.

Lemma iso_outside l1 l2 lo s e : iso l1 l2 lo s e -> lo < base -> l2 = [] /\ s = 0%nat /\ e = 0%nat.
Proof.
  intros [_ _ H3 H4] Hlo. destruct (decide (l2 = [])) as [->|Hne]; [by destruct (H3 eq_refl)|].
  destruct (H4 Hne) as (_&_&?). lia.
Qed.

Lemma iso_skip l1 lo lo' s e r : iso l1 [] lo s e -> r_base r + r_size r <= base -> iso (l1 ++ [r]) [] lo' 0 0.
Proof.
  intros [H1 H2 _ _] Hr. split; [|done|done|done].
  intros r' Hr'. apply elem_of_app in Hr' as [Hr'|Hr']; [auto|]. by apply list_elem_of_singleton in Hr' as ->.
Qed.

Lemma iso_take l1 l2 lo lo' s e r :
  iso l1 l2 lo s e -> base <= r_base r -> r_base r + r_size r <= end_ -> base <= lo' ->
  iso l1 (l2 ++ [r]) lo' (if (e =? 0)%nat then length (l1 ++ l2) else s) (S (length (l1 ++ l2))).
Proof.
  intros [H1 H2 H3 H4] Hb He Hlo. split; [done| | |].
  - intros r' Hr'. apply elem_of_app in Hr' as [Hr'|Hr']; [auto|]. by apply list_elem_of_singleton in Hr' as ->.
  - intros Hn. by apply app_nil in Hn as [_ ?].
  - intros _. split_and!; [|rewrite !length_app; simpl; lia|done]. destruct (decide (l2 = [])) as [->|Hne].
    + destruct (H3 eq_refl) as [-> ->]. simpl. by rewrite app_nil_r.
    + destruct (H4 Hne) as (->&->&_). destruct l2; [done|]. simpl. case_ifs; done.
Qed.

(** What the loop makes of the regions [suf] it has not yet seen, after [l]. *)
Definition iso_outcome (run : outcome (memblock_type * nat * nat)) (l : list memblock_region) (t : memblock_type)
    (suf : list memblock_region) (lo hi : Z) (budget : nat) : Prop :=
  exists suf' s' e',
    run = Ok (mkType (l ++ suf') (t_max t) (total_size t) (t_array t), s', e') /\
    seg lo hi suf' /\ (forall a, addr_attr suf' a = addr_attr suf a) /\
    sum_size suf' = sum_size suf /\ (length suf' <= length suf + budget)%nat /\
    isolated base end_ (l ++ suf') s' e'.

Lemma outcome_stop l t suf lo hi s e budget :
  regions t = l ++ suf -> seg lo hi suf -> isolated base end_ (l ++ suf) s e -> iso_outcome (Ok (t, s, e)) l t suf lo hi budget.
Proof. intros Ht Hs Hi. exists suf, s, e. split_and!; try done; [|lia]. rewrite <- Ht. by destruct t. Qed.

(** One region more. *)
Lemma outcome_cons run l x t suf suf1 lo hi b b1 :
  iso_outcome run (l ++ [x]) t suf1 (r_base x + r_size x) hi b1 -> lo <= r_base x -> 0 < r_size x ->
  (forall a, addr_attr (x :: suf1) a = addr_attr suf a) -> sum_size (x :: suf1) = sum_size suf ->
  (S (length suf1 + b1) <= length suf + b)%nat -> iso_outcome run l t suf lo hi b.
Proof.
  intros (suf'&s&e&->&Hs&Ha&Hsum&Hlen&Hi) Hlo Hsz Hat Hst Hb. exists (x :: suf'), s, e. rewrite <- !app_assoc in *.
  split_and!; try done.
  - intros a. rewrite <- Hat. cbn [addr_attr]. by rewrite Ha.
  - rewrite <- Hst. simpl. lia.
  - simpl. lia.
Qed.

(** The two halves of a region cut at [c]. *)
Definition low_half (r : memblock_region) (c : Z) : memblock_region :=
  memblock_set_region_node cfg (mkRegion (r_base r) (c - r_base r) (r_flags r) 0) (memblock_get_region_node cfg r).

Lemma low_half_range r c : r_base (low_half r c) = r_base r /\ r_size (low_half r c) = c - r_base r.
Proof. unfold low_half. by rewrite base_set_node, size_set_node. Qed.

(** A region that ends behind the range, after the cut: its lower half is taken, and
    the loop ends. *)
Lemma isolate_cut_end n l1 l2 r suf t lo hi s e budget :
  iso l1 l2 lo s e -> seg lo hi (r :: suf) -> hi <= ULLONG_MAX -> base <= r_base r < end_ -> end_ < r_base r + r_size r -> (1 <= budget)%nat ->
  iso_outcome (isolate_loop cfg (S (S n))
    (mkType ((l1 ++ l2) ++ low_half r end_ :: mkRegion end_ (r_size r - (end_ - r_base r)) (r_flags r) (r_nid r) :: suf)
       (t_max t) (total_size t) (t_array t)) (length (l1 ++ l2)) base end_ s e) (l1 ++ l2) t (r :: suf) lo hi budget.
Proof.
  intros Hiso (H1&H2&H3) Hhi Hb He Hbud. destruct (low_half_range r end_) as [Hlb Hls].
  assert (Hle : region_end (low_half r end_) = end_) by (unfold region_end; rewrite Hlb, Hls; rewrite u64_small; lia).
  set (top := mkRegion end_ _ _ _). cbn [isolate_loop regions]. rewrite lookup_app_r, Nat.sub_diag by lia. cbn [lookup list_lookup].
  rewrite Hle, Hlb. case_if; [lia|]. case_if; [lia|]. case_if; [lia|]. case_if; [lia|].
  rewrite lookup_app_r by lia. replace (S (length (l1 ++ l2)) - length (l1 ++ l2))%nat with 1%nat by lia.
  cbn [lookup list_lookup]. replace (end_ <=? r_base top) with true by (simpl; lia).
  apply (iso_take _ _ _ end_ _ _ (low_half r end_)) in Hiso; [|lia..].
  exists (low_half r end_ :: top :: suf). eexists _, _. split_and!; [done| | | | |].
  - simpl. rewrite Hlb, Hls. split_and!; try lia. eapply seg_weaken; [apply H3|lia|lia].
  - intros a. apply split_attr. lia.
  - simpl. rewrite Hls. lia.
  - simpl. lia.
  - rewrite (cons_middle (low_half r end_)), app_assoc, <- (app_assoc l1). eapply iso_stop; [exact Hiso|].
    intros r' Hr'. apply elem_of_cons in Hr' as [->|Hr']; [simpl; lia|]. pose proof (seg_region _ _ _ _ H3 Hr'). lia.
Qed.

Lemma isolate_loop_spec n : forall l1 l2 suf t lo hi s e,
  regions t = (l1 ++ l2) ++ suf -> 0 <= lo -> hi <= ULLONG_MAX -> seg lo hi suf -> iso l1 l2 lo s e ->
  (length suf + 1 + iso_budget lo <= n)%nat ->
  cnt t + Z.of_nat (iso_budget lo) <= t_max t ->
  total_size t = u64 (total_size t) ->
  iso_outcome (isolate_loop cfg n t (length (l1 ++ l2)) base end_ s e) (l1 ++ l2) t suf lo hi (iso_budget lo).
Proof.
  induction n as [|n IH]; intros l1 l2 suf t lo hi s e Ht Hlo Hhi Hseg Hiso Hfuel Hroom Htot; [lia|].
  pose proof (fun H => outcome_stop _ t suf lo hi s e (iso_budget lo) Ht Hseg (iso_stop _ _ _ _ _ _ Hiso H)) as Hstop. cbn [isolate_loop].
  destruct suf as [|r suf]; [rewrite Ht, lookup_ge_None_2 by (by rewrite app_nil_r); apply Hstop; intros r Hr; by apply elem_of_nil in Hr|].
  pose proof Hseg as (H1&H2&H3). assert (Hmax : r_base r + r_size r <= hi) by (by apply seg_le in H3).
  rewrite Ht, lookup_app_r, Nat.sub_diag by lia. cbn [lookup list_lookup]. rewrite (seg_region_end lo hi) by lia.
  destruct (end_ <=? r_base r) eqn:E1.
  { apply Hstop. intros r' Hr'. apply elem_of_cons in Hr' as [->|Hr']; [lia|]. pose proof (seg_region _ _ _ _ H3 Hr'). lia. }
  destruct (r_base r + r_size r <=? base) eqn:E2.
  { destruct (iso_outside _ _ _ _ _ Hiso) as (->&->&->); [lia|]. rewrite app_nil_r in *.
    apply (outcome_cons _ _ r _ _ suf _ _ _ (iso_budget (r_base r + r_size r))); [|lia|lia|done|done|solve_budget].
    specialize (IH (l1 ++ [r]) [] suf t (r_base r + r_size r) hi 0%nat 0%nat). rewrite !app_nil_r, last_length in IH.
    apply IH; [by rewrite <- app_assoc|lia|done|done|eapply iso_skip; [done|lia]|solve_budget|solve_budget|done]. }
  destruct (r_base r <? base) eqn:E3.
  { destruct (iso_outside _ _ _ _ _ Hiso) as (->&->&->); [lia|]. assert (Hbud : iso_budget lo = 2%nat) by (unfold iso_budget; case_ifs; done).
    rewrite Hbud in *. rewrite <- Ht. rewrite (insert_region_split t l1 [] r suf base) by (rewrite ?app_nil_r in *; done || lia). cbn [obind].
    fold (low_half r base). destruct (low_half_range r base) as [Hlb Hls]. set (top := mkRegion base _ _ _). rewrite app_nil_r in *.
    apply (outcome_cons _ _ (low_half r base) _ _ (top :: suf) _ _ _ 1); [|lia|lia|intros a; apply split_attr; lia|simpl; lia|simpl; lia].
    specialize (IH (l1 ++ [low_half r base]) [] (top :: suf) (mkType (l1 ++ [] ++ low_half r base :: top :: suf) (t_max t) (total_size t) (t_array t)) base hi 0%nat 0%nat).
    rewrite !app_nil_r, last_length in IH. rewrite Hlb, Hls. replace (r_base r + (base - r_base r)) with base by lia. replace 1%nat with (iso_budget base) by (unfold iso_budget; case_if; [lia|done]).
    apply IH; [by rewrite <- app_assoc|lia|done| |eapply iso_skip; [done|lia]|solve_budget| |done].
    - simpl. split_and!; try lia. eapply seg_weaken; [apply H3|lia|lia].
    - unfold cnt in *. rewrite Ht in Hroom. simpl in *. rewrite !length_app in *. solve_budget. }
  destruct (end_ <? r_base r + r_size r) eqn:E4.
  { rewrite <- Ht, (insert_region_split t l1 l2 r suf end_); [|by rewrite app_assoc|done|solve_budget|lia|lia|lia]. cbn [obind].
    destruct n as [|[|n]]; [solve_budget..|]. rewrite app_assoc. apply isolate_cut_end; [done|done|done|lia|lia|solve_budget]. }
  apply (outcome_cons _ _ r _ _ suf _ _ _ (iso_budget (r_base r + r_size r))); [|lia|lia|done|done|solve_budget].
  apply (iso_take _ _ _ (r_base r + r_size r) _ _ r) in Hiso; [|lia..]. set (s1 := if (e =? 0)%nat then _ else s) in *.
  specialize (IH l1 (l2 ++ [r]) suf t (r_base r + r_size r) hi s1 (S (length (l1 ++ l2)))).
  rewrite (app_assoc l1 l2 [r]), last_length in IH. apply IH; [by rewrite <- (app_assoc _ [r])|lia|done|done|done|solve_budget|solve_budget|done].
Qed.

End Isolate.

(** ** Removal *)

Lemma remove_region_app t l1 r l3 :
  regions t = l1 ++ r :: l3 ->
  memblock_remove_region cfg t (length l1) =
    mkType (match l1 ++ l3 with
            | [] => [memblock_set_region_node cfg (mkRegion 0 0 0 (r_nid r)) (MAX_NUMNODES cfg)]
            | l => l end)
      (t_max t) (u64 (total_size t - r_size r)) (t_array t).
Proof.
  intros Ht. unfold memblock_remove_region. rewrite Ht.
  rewrite lookup_app_r, Nat.sub_diag by lia. cbn [lookup list_lookup].
  rewrite take_app_length, drop_app_ge by lia. replace (S (length l1) - length l1)%nat with 1%nat by lia.
  cbn [drop skipn]. rewrite ?drop_0. by destruct (l1 ++ l3).
Qed.

Lemma remove_loop_spec l2 : forall t l1 l3,
  regions t = l1 ++ l2 ++ l3 -> total_size t = u64 (total_size t) ->
  exists l', remove_regions_loop cfg (length l2) t (length l1) =
      mkType l' (t_max t) (u64 (total_size t - sum_size l2)) (t_array t) /\
    (l1 ++ l3 <> [] \/ l2 = [] -> l' = l1 ++ l3) /\
    (l1 ++ l3 = [] -> l2 <> [] -> dummy l').
Proof.
  induction l2 as [|r l2 IH] using rev_ind; intros t l1 l3 Ht Htot.
  - exists (l1 ++ l3). simpl in *. rewrite Z.sub_0_r, <- Htot, <- Ht. split_and!; [by destruct t|done..].
  - rewrite length_app, Nat.add_comm. cbn [remove_regions_loop length Nat.add].
    rewrite <- app_assoc in Ht. simpl in Ht. rewrite app_assoc in Ht.
    rewrite <- length_app, (remove_region_app t (l1 ++ l2) r l3 Ht).
    destruct (decide (l1 ++ l2 ++ l3 = [])) as [Hnil|Hne].
    + apply app_nil in Hnil as [-> Hnil]. apply app_nil in Hnil as [-> ->]. simpl.
      eexists. split_and!; [by rewrite Z.add_0_r| |].
      * intros [?|?]; done.
      * intros _ _. eexists. split; [done|]. by rewrite base_set_node, size_set_node.
    + set (t' := mkType _ _ _ _).
      assert (Ht' : regions t' = l1 ++ l2 ++ l3).
      { unfold t'. simpl. rewrite app_assoc in *. by destruct ((l1 ++ l2) ++ l3). }
      destruct (IH t' l1 l3 Ht') as (l'&Hr&H1&H2).
      { symmetry. apply u64_small, u64_range. }
      exists l'. rewrite Hr. split_and!.
      * unfold t'. simpl. rewrite u64_sub_l, sum_size_app. simpl. do 2 f_equal. lia.
      * intros [Hl|Hl]; [apply H1; auto|]. by apply app_nil in Hl as [_ ?].
      * intros Hl Hl2. apply H2; [done|]. intros ->. apply app_nil in Hl as [-> ->]. done.
Qed.

(** ** Facts that hold for the dummy entry too *)

Lemma array_ok_region l i r : array_ok l -> l !! i = Some r ->
  0 <= r_base r /\ 0 <= r_size r /\ region_end r = r_base r + r_size r /\ r_base r + r_size r <= ULLONG_MAX.
Proof.
  intros [(d&->&Hb&Hs)|[_ Hseg]] Hi.
  - apply list_lookup_singleton_Some in Hi as [_ <-]. unfold region_end. rewrite Hb, Hs. split_and!; done.
  - pose proof (seg_region _ _ _ _ Hseg (list_elem_of_lookup_2 _ _ _ Hi)).
    split_and!; try lia. apply (seg_region_end 0 ULLONG_MAX); lia.
Qed.

Lemma seg_sorted lo hi l i j r r' :
  seg lo hi l -> l !! i = Some r -> l !! j = Some r' -> (i < j)%nat -> r_base r + r_size r <= r_base r'.
Proof.
  revert lo i j; induction l as [|x l IH]; intros lo i j H Hi Hj Hij; [done|].
  destruct H as (?&?&H). destruct j as [|j]; [lia|]. simpl in Hj. destruct i as [|i].
  - injection Hi as ->. pose proof (seg_region _ _ _ _ H (list_elem_of_lookup_2 _ _ _ Hj)). lia.
  - eapply (IH _ i j); eauto. lia.
Qed.

Lemma array_ok_sorted l i j r r' : array_ok l -> l !! i = Some r -> l !! j = Some r' -> (i < j)%nat ->
  r_base r + r_size r <= r_base r'.
Proof.
  intros [(d&->&Hb&Hs)|[_ Hseg]] Hi Hj Hij; [|by eapply seg_sorted].
  apply lookup_lt_Some in Hj. simpl in Hj. lia.
Qed.

End Array.

#[export] Hint Resolve seg_le : kernel.
Arguments seg : simpl nomatch.
