(* ===== verification/MemblockFind.v ===== *)
(** * MemblockFind: the free-range iterators and the searches over them

    [__next_mem_range] and [__next_mem_range_rev] walk two sorted arrays in
    lockstep.  The specification they are proved against is the relation
    [meets]: memory region [i] is eligible and overlaps the gap before
    reservation [j].  Each call returns one such pair and moves the two indices
    past it without losing any other pair, so the searches see every candidate
    range, and terminate. *)

From S2P Require Import Prelude Memblock MemblockArray.

(** ** The packed loop variable *)

Lemma lor_shifted a b k : 0 <= k -> 0 <= a < 2 ^ k -> Z.lor a (b * 2 ^ k) = a + b * 2 ^ k.
Proof.
  intros Hk Ha.
  assert (Hl : Z.land a (b * 2 ^ k) = 0).
  { apply Z.bits_inj'. intros i Hi. rewrite Z.land_spec, Z.bits_0.
    destruct (decide (i < k)).
    - rewrite <- Z.shiftl_mul_pow2, Z.shiftl_spec_low by lia. apply andb_false_r.
    - replace a with (a mod 2 ^ k) by (apply Z.mod_small; lia).
      rewrite Z.mod_pow2_bits_high by lia. done. }
  rewrite Z.add_nocarry_lxor by done. symmetry. apply Z.lxor_lor. done.
Qed.

Lemma pack_idx_value ia ib : pack_idx ia ib = ia mod 2 ^ 32 + (ib mod 2 ^ 32) * 2 ^ 32.
Proof.
  unfold pack_idx, wrap. rewrite Z.shiftl_mul_pow2 by lia.
  change (2 ^ 64) with (2 ^ 32 * 2 ^ 32) at 2. rewrite Z.mul_mod_distr_r by lia.
  rewrite lor_shifted by (try apply Z.mod_pos_bound; lia). do 2 f_equal.
  change (2 ^ 64) with (2 ^ 32 * 2 ^ 32). rewrite Z.rem_mul_r by lia.
  rewrite (Z.mul_comm (2 ^ 32)), Z.mod_add, Z.mod_mod by lia. done.
Qed.

Lemma s32_mod x : -1 <= x < 2 ^ 31 -> s32 (x mod 2 ^ 32) = x.
Proof.
  intros Hx. unfold swrap. change (32 - 1) with 31.
  rewrite Zplus_mod_idemp_l, Z.mod_small; lia.
Qed.

Lemma unpack_pack ia ib : -1 <= ia < 2 ^ 31 -> -1 <= ib < 2 ^ 31 ->
  unpack_a (pack_idx ia ib) = ia /\ unpack_b (pack_idx ia ib) = ib.
Proof.
  intros Ha Hb. rewrite pack_idx_value. unfold unpack_a, unpack_b. split.
  - change 4294967295 with (Z.ones 32). rewrite Z.land_ones by lia.
    rewrite Z.mod_add, Z.mod_mod by lia. by apply s32_mod.
  - rewrite Z.shiftr_div_pow2, Z.div_add, Z.div_small by (try apply Z.mod_pos_bound; lia).
    by apply s32_mod.
Qed.

Lemma pack_not_end ia ib : -1 <= ia < 2 ^ 31 -> -1 <= ib < 2 ^ 31 -> 0 <= ia \/ 0 <= ib ->
  pack_idx ia ib <> ULLONG_MAX.
Proof.
  intros Ha Hb H Heq. destruct (unpack_pack ia ib Ha Hb) as [H1 H2]. rewrite Heq in H1, H2.
  vm_compute in H1. vm_compute in H2. lia.
Qed.

Section Find.
Context (cfg : memblock_config) (m : memblock) (nid flags : Z).

Abbreviation A := (memory m).
Abbreviation B := (reserved m).

Hypothesis HA : array_ok (regions A).
Hypothesis HB : array_ok (regions B).
Hypothesis HcA : cnt A < 2 ^ 31 - 1.
Hypothesis HcB : cnt B < 2 ^ 31 - 1.

(** ** Gaps *)

Lemma cntB_pos : 0 < cnt B.
Proof. unfold cnt. pose proof (array_ok_length _ HB). lia. Qed.

Lemma cntA_pos : 0 < cnt A.
Proof. unfold cnt. pose proof (array_ok_length _ HA). lia. Qed.

Lemma gap_bounds j : 0 <= j <= cnt B -> 0 <= gap_start B j /\ gap_end B j <= ULLONG_MAX.
Proof.
  intros Hj. unfold gap_start, gap_end. split.
  - case_if; [lia|]. case_match eqn:E; [|lia]. apply array_ok_region in E; [lia|done].
  - case_if; [|lia]. case_match eqn:E; [|unfold ULLONG_MAX; lia]. apply array_ok_region in E; [lia|done].
Qed.

(** A gap ends before the next one starts. *)
Lemma gap_order j j' : 0 <= j < j' -> j' <= cnt B -> gap_end B j <= gap_start B j'.
Proof.
  intros Hj Hj'. unfold gap_start, gap_end.
  replace (j' =? 0) with false by lia. replace (j <? cnt B) with true by lia.
  destruct (lookup_lt_is_Some_2 (regions B) (Z.to_nat j)) as [r Hr]; [unfold cnt in *; lia|].
  destruct (lookup_lt_is_Some_2 (regions B) (Z.to_nat (j' - 1))) as [r' Hr']; [unfold cnt in *; lia|].
  rewrite Hr, Hr'.
  pose proof (array_ok_region _ _ _ HB Hr). destruct (array_ok_region _ _ _ HB Hr') as (?&?&->&?).
  destruct (decide (Z.to_nat j = Z.to_nat (j' - 1))) as [He|Hne].
  - rewrite He in Hr. assert (r = r') as -> by congruence. lia.
  - pose proof (array_ok_sorted _ _ _ _ _ HB Hr Hr'). lia.
Qed.

Lemma gap_start_mono j j' : 0 <= j <= j' -> j' <= cnt B -> gap_start B j <= gap_start B j'.
Proof.
  intros Hj Hj'. destruct (decide (j = j')) as [->|Hne]; [lia|].
  unfold gap_start. replace (j' =? 0) with false by lia.
  destruct (lookup_lt_is_Some_2 (regions B) (Z.to_nat (j' - 1))) as [r' Hr']; [unfold cnt in *; lia|].
  rewrite Hr'. destruct (array_ok_region _ _ _ HB Hr') as (?&?&->&?).
  case_if; [lia|].
  destruct (lookup_lt_is_Some_2 (regions B) (Z.to_nat (j - 1))) as [r Hr]; [unfold cnt in *; lia|].
  rewrite Hr. destruct (array_ok_region _ _ _ HB Hr) as (?&?&->&?).
  pose proof (array_ok_sorted _ _ _ _ _ HB Hr Hr'). lia.
Qed.

Lemma gap_end_mono j j' : 0 <= j <= j' -> j' <= cnt B -> gap_end B j <= gap_end B j'.
Proof.
  intros Hj Hj'. destruct (decide (j = j')) as [->|Hne]; [lia|].
  unfold gap_end. replace (j <? cnt B) with true by lia.
  destruct (lookup_lt_is_Some_2 (regions B) (Z.to_nat j)) as [r Hr]; [unfold cnt in *; lia|].
  rewrite Hr. pose proof (array_ok_region _ _ _ HB Hr).
  case_if; [|lia].
  destruct (lookup_lt_is_Some_2 (regions B) (Z.to_nat j')) as [r' Hr']; [unfold cnt in *; lia|].
  rewrite Hr'. pose proof (array_ok_sorted _ _ _ _ _ HB Hr Hr'). lia.
Qed.

(** A non-empty range disjoint from every reserved region is inside a gap. *)
Lemma range_in_gap c e :
  0 <= c -> c < e -> e <= ULLONG_MAX ->
  (forall r, r ∈ regions B -> r_size r = 0 \/ e <= r_base r \/ r_base r + r_size r <= c) ->
  exists j, 0 <= j <= cnt B /\ gap_start B j <= c /\ e <= gap_end B j.
Proof.
  intros Hc Hce He Hdis.
  assert (Hk : forall k, (k <= length (regions B))%nat -> gap_start B (Z.of_nat k) <= c ->
     exists j, 0 <= j <= cnt B /\ gap_start B j <= c /\ e <= gap_end B j).
  2:{ apply (Hk 0%nat); [lia|]. done. }
  intros k. remember (length (regions B) - k)%nat as d eqn:Hd. revert k Hd.
  induction d as [|d IH]; intros k Hd Hkle Hgs.
  - exists (Z.of_nat k). unfold gap_end, cnt. split_and!; try lia. case_if; lia.
  - destruct (lookup_lt_is_Some_2 (regions B) k) as [r Hr]; [lia|].
    destruct (array_ok_region _ _ _ HB Hr) as (?&?&Hre&?).
    assert (Hnext : r_base r + r_size r <= c -> exists j, 0 <= j <= cnt B /\ gap_start B j <= c /\ e <= gap_end B j).
    { intros Hle. apply (IH (S k)); [lia|lia|]. unfold gap_start. case_if; [lia|].
      replace (Z.to_nat (Z.of_nat (S k) - 1)) with k by lia. rewrite Hr, Hre. lia. }
    destruct (Hdis r) as [Hz|[Hle|Hle]]; [by eapply list_elem_of_lookup_2|..|].
    + destruct (decide (r_base r <= c)); [apply Hnext; lia|].
      destruct HB as [(d0&HB0&?&?)|[_ Hseg]].
      * rewrite HB0 in Hr. apply list_lookup_singleton_Some in Hr as [_ <-]. lia.
      * pose proof (seg_region _ _ _ _ Hseg (list_elem_of_lookup_2 _ _ _ Hr)). lia.
    + exists (Z.of_nat k). unfold gap_end, cnt. split_and!; try lia.
      replace (Z.of_nat k <? Z.of_nat (length (regions B))) with true by lia.
      rewrite Nat2Z.id, Hr. lia.
    + apply Hnext. lia.
Qed.

(** Addresses inside a gap are not reserved. *)
Lemma gap_free j a : 0 <= j <= cnt B -> gap_start B j <= a < gap_end B j -> addr_attr cfg (regions B) a = None.
Proof.
  intros Hj Ha. apply addr_attr_None. intros r Hr. apply list_elem_of_lookup in Hr as [k Hk].
  destruct (array_ok_region _ _ _ HB Hk) as (?&?&Hre&?). unfold covers.
  assert (Hkl : (k < length (regions B))%nat) by (by eapply lookup_lt_Some).
  destruct (decide (j <= Z.of_nat k)) as [Hle|Hgt].
  - assert (gap_end B j <= r_base r); [|lia].
    etransitivity; [apply (gap_end_mono j (Z.of_nat k)); unfold cnt; lia|].
    unfold gap_end, cnt. replace (Z.of_nat k <? Z.of_nat (length (regions B))) with true by lia.
    rewrite Nat2Z.id, Hk. lia.
  - assert (r_base r + r_size r <= gap_start B j); [|lia].
    etransitivity; [|apply (gap_start_mono (Z.of_nat (S k)) j); lia].
    unfold gap_start. replace (Z.of_nat (S k) =? 0) with false by lia.
    replace (Z.to_nat (Z.of_nat (S k) - 1)) with k by lia. rewrite Hk, Hre. lia.
Qed.

(** ** What an iteration step promises *)

(** Memory region [i] passes the filters and overlaps gap [j]. *)
Definition meets (i j : Z) (r : memblock_region) : Prop :=
  0 <= i /\ regions A !! Z.to_nat i = Some r /\ region_skipped cfg m nid flags r = false /\
  0 <= j <= cnt B /\ gap_start B j < region_end r /\ r_base r < gap_end B j.

(** The out parameters for that pair. *)
Definition overlap (j : Z) (r : memblock_region) : Z * Z * Z :=
  (Z.max (r_base r) (gap_start B j), Z.min (region_end r) (gap_end B j),
   memblock_get_region_node cfg r).

(** A forward call made at indices [(ia, ib)]. *)
Definition fwd_spec (ia ib : Z) (res : iter_result) : Prop :=
  (res = iter_end /\ forall i j r, meets i j r -> ia <= i -> ib <= j -> False) \/
  (exists i j r ia' ib', res = (pack_idx ia' ib', Some (overlap j r)) /\ meets i j r /\
     ia <= i /\ ib <= j /\ ia <= ia' <= cnt A /\ ib <= ib' <= cnt B /\ ia + ib < ia' + ib' /\
     (forall i' j' r', meets i' j' r' -> ia <= i' -> ib <= j' ->
        (i' = i /\ j' = j) \/ (ia' <= i' /\ ib' <= j'))).

(** A backward call. *)
Definition rev_spec (ia ib : Z) (res : iter_result) : Prop :=
  (res = iter_end /\ forall i j r, meets i j r -> i <= ia -> j <= ib -> False) \/
  (exists i j r ia' ib', res = (pack_idx ia' ib', Some (overlap j r)) /\ meets i j r /\
     i <= ia /\ j <= ib /\ -1 <= ia' <= ia /\ 0 <= ib' <= ib /\ ia' + ib' < ia + ib /\
     (forall i' j' r', meets i' j' r' -> i' <= ia -> j' <= ib ->
        (i' = i /\ j' = j) \/ (i' <= ia' /\ j' <= ib'))).

Lemma meets_region i j r : meets i j r ->
  0 <= r_base r /\ region_end r = r_base r + r_size r /\ r_base r + r_size r <= ULLONG_MAX /\ i < cnt A.
Proof.
  intros (?&Hi&_). pose proof (array_ok_region _ _ _ HA Hi). apply lookup_lt_Some in Hi.
  unfold cnt. split_and!; lia.
Qed.

Lemma meets_same i j j' r r' : meets i j r -> meets i j' r' -> r = r'.
Proof. intros (_&H&_) (_&H'&_). congruence. Qed.

(** ** Forward iteration *)

Section Scan.
Context (i0 : Z) (r : memblock_region).
Hypothesis Hi0 : 0 <= i0.
Hypothesis Hlk : regions A !! Z.to_nat i0 = Some r.
Hypothesis Hskip : region_skipped cfg m nid flags r = false.

Lemma other_order i' j' r' : meets i' j' r' -> i0 < i' -> region_end r <= r_base r'.
Proof.
  intros (?&Hi'&_) Hlt. destruct (array_ok_region _ _ _ HA Hlk) as (?&?&->&?).
  eapply array_ok_sorted; [apply HA|apply Hlk|apply Hi'|lia].
Qed.

Lemma other_order_rev i' j' r' : meets i' j' r' -> i' < i0 -> region_end r' <= r_base r.
Proof.
  intros (?&Hi'&_) Hlt. destruct (array_ok_region _ _ _ HA Hi') as (?&?&->&?).
  eapply array_ok_sorted; [apply HA|apply Hi'|apply Hlk|lia].
Qed.

Lemma scan_region : 0 <= r_base r /\ r_base r <= region_end r <= ULLONG_MAX /\ i0 < cnt A.
Proof.
  pose proof (array_ok_region _ _ _ HA Hlk). pose proof (lookup_lt_Some _ _ _ Hlk). unfold cnt. lia.
Qed.

Lemma next_scan_b_spec n : forall ib,
  0 <= ib <= cnt B + 1 -> (Z.to_nat (cnt B + 1 - ib) < n)%nat ->
  match next_scan_b n B (r_base r) (region_end r) (memblock_get_region_node cfg r) i0 ib with
  | inl ib' => ib <= ib' <= cnt B + 1 /\
      (forall i' j' r', meets i' j' r' -> i0 <= i' -> ib <= j' -> ib' <= j' /\ i' <> i0)
  | inr res => fwd_spec i0 ib res
  end.
Proof.
  pose proof scan_region as (Hb0&Hbe&Hlt).
  induction n as [|n IH]; intros ib Hib Hn; [lia|]. cbn [next_scan_b].
  destruct (ib <? cnt B + 1) eqn:E0.
  2:{ split; [lia|]. intros i' j' r' (_&_&_&?&_) ??. lia. }
  destruct (region_end r <=? gap_start B ib) eqn:E1.
  { split; [lia|]. intros i' j' r' Hm Hi' Hj'. split; [done|]. intros ->.
    destruct Hm as (?&Hlk'&?&?&?&?). assert (r' = r) as -> by congruence.
    pose proof (gap_start_mono ib j'). lia. }
  destruct (r_base r <? gap_end B ib) eqn:E2.
  - assert (Hm0 : meets i0 ib r) by (split_and!; (done || lia)).
    destruct (region_end r <=? gap_end B ib) eqn:E3; right.
    + exists i0, ib, r, (i0 + 1), ib. split_and!; try done; try lia.
      intros i' j' r' Hm Hi' Hj'. destruct (decide (i' = i0)) as [->|]; [|right; lia].
      left. split; [done|]. destruct (decide (j' = ib)); [done|].
      rewrite (meets_same _ _ _ _ _ Hm Hm0) in Hm. destruct Hm as (_&_&_&?&?&?).
      pose proof (gap_order ib j'). lia.
    + exists i0, ib, r, i0, (ib + 1). split_and!; try done; try lia.
      * unfold gap_end in E3. destruct (ib <? cnt B) eqn:E4; lia.
      * intros i' j' r' Hm Hi' Hj'. destruct (decide (j' = ib)) as [->|]; [|right; lia].
        left. split; [|done]. destruct (decide (i' = i0)); [done|].
        pose proof (other_order _ _ _ Hm). destruct Hm as (_&_&_&_&?&?). lia.
  - specialize (IH (ib + 1) ltac:(lia) ltac:(lia)).
    assert (Hgone : forall i' r', meets i' ib r' -> i0 <= i' -> False).
    { intros i' r' Hm Hi'. destruct (decide (i' = i0)) as [->|].
      - destruct Hm as (_&Hlk'&_&_&?&?). assert (r' = r) as -> by congruence. lia.
      - pose proof (other_order _ _ _ Hm). destruct Hm as (_&_&_&_&?&?). lia. }
    destruct (next_scan_b n B _ _ _ _ _) as [ib'|res].
    + destruct IH as [IH1 IH2]. split; [lia|]. intros i' j' r' Hm Hi' Hj'.
      destruct (decide (j' = ib)) as [->|]; [by destruct (Hgone _ _ Hm)|]. apply (IH2 _ _ _ Hm); lia.
    + destruct IH as [[-> IH]|(i&j&r1&ia'&ib'&->&Hm&?&?&?&?&?&IH)].
      * left. split; [done|]. intros i' j' r' Hm Hi' Hj'.
        destruct (decide (j' = ib)) as [->|]; [by destruct (Hgone _ _ Hm)|]. apply (IH _ _ _ Hm); lia.
      * right. exists i, j, r1, ia', ib'. split_and!; try done; try lia. intros i' j' r' Hm' Hi' Hj'.
        destruct (decide (j' = ib)) as [->|]; [by destruct (Hgone _ _ Hm')|]. apply (IH _ _ _ Hm'); lia.
Qed.

Lemma prev_scan_b_spec n : forall ib,
  -1 <= ib <= cnt B -> (Z.to_nat (ib + 1) < n)%nat ->
  match prev_scan_b n B (r_base r) (region_end r) (memblock_get_region_node cfg r) i0 ib with
  | inl ib' => -1 <= ib' <= ib /\
      (forall i' j' r', meets i' j' r' -> i' <= i0 -> j' <= ib -> j' <= ib' /\ i' <> i0)
  | inr res => rev_spec i0 ib res
  end.
Proof.
  pose proof scan_region as (Hb0&Hbe&Hlt).
  induction n as [|n IH]; intros ib Hib Hn; [lia|]. cbn [prev_scan_b].
  destruct (0 <=? ib) eqn:E0.
  2:{ split; [lia|]. intros i' j' r' (_&_&_&?&_) ??. lia. }
  destruct (gap_end B ib <=? r_base r) eqn:E1.
  { split; [lia|]. intros i' j' r' Hm Hi' Hj'. split; [done|]. intros ->.
    destruct Hm as (?&Hlk'&?&?&?&?). assert (r' = r) as -> by congruence.
    pose proof (gap_end_mono j' ib). lia. }
  destruct (gap_start B ib <? region_end r) eqn:E2.
  - assert (Hm0 : meets i0 ib r) by (split_and!; (done || lia)).
    destruct (gap_start B ib <=? r_base r) eqn:E3; right.
    + exists i0, ib, r, (i0 - 1), ib. split_and!; try done; try lia.
      intros i' j' r' Hm Hi' Hj'. destruct (decide (i' = i0)) as [->|]; [|right; lia].
      left. split; [done|]. destruct (decide (j' = ib)); [done|].
      rewrite (meets_same _ _ _ _ _ Hm Hm0) in Hm. destruct Hm as (_&_&_&?&?&?).
      pose proof (gap_order j' ib). lia.
    + exists i0, ib, r, i0, (ib - 1). split_and!; try done; try lia.
      * unfold gap_start in E3. destruct (ib =? 0) eqn:E4; lia.
      * intros i' j' r' Hm Hi' Hj'. destruct (decide (j' = ib)) as [->|]; [|right; lia].
        left. split; [|done]. destruct (decide (i' = i0)); [done|].
        pose proof (other_order_rev _ _ _ Hm). destruct Hm as (_&_&_&_&?&?). lia.
  - specialize (IH (ib - 1) ltac:(lia) ltac:(lia)).
    assert (Hgone : forall i' r', meets i' ib r' -> i' <= i0 -> False).
    { intros i' r' Hm Hi'. destruct (decide (i' = i0)) as [->|].
      - destruct Hm as (_&Hlk'&_&_&?&?). assert (r' = r) as -> by congruence. lia.
      - pose proof (other_order_rev _ _ _ Hm). destruct Hm as (_&_&_&_&?&?). lia. }
    destruct (prev_scan_b n B _ _ _ _ _) as [ib'|res].
    + destruct IH as [IH1 IH2]. split; [lia|]. intros i' j' r' Hm Hi' Hj'.
      destruct (decide (j' = ib)) as [->|]; [by destruct (Hgone _ _ Hm)|]. apply (IH2 _ _ _ Hm); lia.
    + destruct IH as [[-> IH]|(i&j&r1&ia'&ib'&->&Hm&?&?&?&?&?&IH)].
      * left. split; [done|]. intros i' j' r' Hm Hi' Hj'.
        destruct (decide (j' = ib)) as [->|]; [by destruct (Hgone _ _ Hm)|]. apply (IH _ _ _ Hm); lia.
      * right. exists i, j, r1, ia', ib'. split_and!; try done; try lia. intros i' j' r' Hm' Hi' Hj'.
        destruct (decide (j' = ib)) as [->|]; [by destruct (Hgone _ _ Hm')|]. apply (IH _ _ _ Hm'); lia.
Qed.

End Scan.

Lemma skipped_meets i j r : regions A !! Z.to_nat i = Some r -> region_skipped cfg m nid flags r = true ->
  forall r', meets i j r' -> False.
Proof. intros Hlk Hs r' (_&Hlk'&Hs'&_). congruence. Qed.

Lemma next_scan_a_spec n : forall ia ib,
  0 <= ia <= cnt A -> 0 <= ib <= cnt B + 1 -> (Z.to_nat (cnt A - ia) < n)%nat ->
  fwd_spec ia ib (next_scan_a cfg n m nid flags A (Some B) ia ib).
Proof.
  induction n as [|n IH]; intros ia ib Hia Hib Hn; [lia|]. cbn [next_scan_a].
  rewrite (u64_small ia) by (unfold ULLONG_MAX; lia).
  destruct (ia <? cnt A) eqn:E0.
  2:{ left. split; [done|]. intros i j r Hm ??. pose proof (meets_region _ _ _ Hm). lia. }
  destruct (lookup_lt_is_Some_2 (regions A) (Z.to_nat ia)) as [r Hr]; [unfold cnt in *; lia|].
  rewrite Hr.
  assert (Hadv : forall ib', ib <= ib' <= cnt B + 1 ->
    (forall i' j' r', meets i' j' r' -> ia <= i' -> ib <= j' -> ib' <= j' /\ i' <> ia) ->
    fwd_spec ia ib (next_scan_a cfg n m nid flags A (Some B) (ia + 1) ib')).
  { intros ib' Hib' Hgone. destruct (IH (ia + 1) ib') as [[-> Hno]|(i&j&r1&ia'&ib''&->&Hm&?&?&?&?&?&Hno)]; [lia..| |].
    - left. split; [done|]. intros i j r' Hm Hi Hj. destruct (Hgone _ _ _ Hm Hi Hj). apply (Hno _ _ _ Hm); lia.
    - right. exists i, j, r1, ia', ib''. split_and!; try done; try lia.
      intros i' j' r' Hm' Hi' Hj'. destruct (Hgone _ _ _ Hm' Hi' Hj'). apply (Hno _ _ _ Hm'); lia. }
  destruct (region_skipped cfg m nid flags r) eqn:Es.
  { apply Hadv; [lia|]. intros i' j' r' Hm Hi' Hj'. split; [done|]. intros ->.
    by apply (skipped_meets _ _ _ Hr Es) in Hm. }
  pose proof (next_scan_b_spec ia r ltac:(lia) Hr Es (S (Z.to_nat (cnt B + 1 - ib))) ib Hib ltac:(lia)) as Hb.
  destruct (next_scan_b _ _ _ _ _ _ _) as [ib'|res]; [|done]. destruct Hb. by apply Hadv.
Qed.

Lemma prev_scan_a_spec n : forall ia ib,
  -1 <= ia < cnt A -> -1 <= ib <= cnt B -> (Z.to_nat (ia + 1) < n)%nat ->
  rev_spec ia ib (prev_scan_a cfg n m nid flags A (Some B) ia ib).
Proof.
  induction n as [|n IH]; intros ia ib Hia Hib Hn; [lia|]. cbn [prev_scan_a].
  destruct (0 <=? ia) eqn:E0.
  2:{ left. split; [done|]. intros i j r (?&_) ??. lia. }
  destruct (lookup_lt_is_Some_2 (regions A) (Z.to_nat ia)) as [r Hr]; [unfold cnt in *; lia|].
  rewrite Hr.
  assert (Hadv : forall ib', -1 <= ib' <= ib ->
    (forall i' j' r', meets i' j' r' -> i' <= ia -> j' <= ib -> j' <= ib' /\ i' <> ia) ->
    rev_spec ia ib (prev_scan_a cfg n m nid flags A (Some B) (ia - 1) ib')).
  { intros ib' Hib' Hgone. destruct (IH (ia - 1) ib') as [[-> Hno]|(i&j&r1&ia'&ib''&->&Hm&?&?&?&?&?&Hno)]; [lia..| |].
    - left. split; [done|]. intros i j r' Hm Hi Hj. destruct (Hgone _ _ _ Hm Hi Hj). apply (Hno _ _ _ Hm); lia.
    - right. exists i, j, r1, ia', ib''. split_and!; try done; try lia.
      intros i' j' r' Hm' Hi' Hj'. destruct (Hgone _ _ _ Hm' Hi' Hj'). apply (Hno _ _ _ Hm'); lia. }
  destruct (region_skipped cfg m nid flags r) eqn:Es.
  { apply Hadv; [lia|]. intros i' j' r' Hm Hi' Hj'. split; [done|]. intros ->.
    by apply (skipped_meets _ _ _ Hr Es) in Hm. }
  pose proof (prev_scan_b_spec ia r ltac:(lia) Hr Es (S (Z.to_nat (ib + 1))) ib Hib ltac:(lia)) as Hb.
  destruct (prev_scan_b _ _ _ _ _ _ _) as [ib'|res]; [|done]. destruct Hb. by apply Hadv.
Qed.

(** ** The search loops *)

Context (nid0 : Z).
Hypothesis Hnid : fix_nid cfg nid0 = nid.

Lemma next_call ia ib : 0 <= ia <= cnt A -> 0 <= ib <= cnt B ->
  fwd_spec ia ib (__next_mem_range cfg m (pack_idx ia ib) nid0 flags A (Some B)).
Proof.
  intros Ha Hb. unfold __next_mem_range. destruct (unpack_pack ia ib) as [-> ->]; [lia..|].
  rewrite Hnid. apply next_scan_a_spec; unfold cnt in *; lia.
Qed.

Lemma prev_call ia ib : -1 <= ia < cnt A -> 0 <= ib <= cnt B ->
  exists res, __next_mem_range_rev cfg m (pack_idx ia ib) nid0 flags A (Some B) = Ok res /\ rev_spec ia ib res.
Proof.
  intros Ha Hb. unfold __next_mem_range_rev.
  pose proof (pack_not_end ia ib ltac:(lia) ltac:(lia) ltac:(lia)).
  case_if; [lia|]. eexists. split; [done|]. destruct (unpack_pack ia ib) as [-> ->]; [lia..|].
  rewrite Hnid. apply prev_scan_a_spec; unfold cnt in *; lia.
Qed.

Context (start end_ size align : Z).

(** The candidate the bottom-up loop takes from a range. *)
Definition up_test (o : Z * Z * Z) : option Z :=
  let '(s, e, _) := o in
  let cand := round_up (clamp s start end_) align in
  if (cand <? clamp e start end_) && (size <=? clamp e start end_ - cand) then Some cand else None.

(** The candidate the top-down loop takes from a range. *)
Definition down_test (o : Z * Z * Z) : option Z :=
  let '(s, e, _) := o in
  if clamp e start end_ <? size then None
  else let cand := round_down (clamp e start end_ - size) align in
       if clamp s start end_ <=? cand then Some cand else None.

(** The result of a search: the candidate of some pair, or 0 when no pair in
    [P] has one. *)
Definition search_result (test : Z * Z * Z -> option Z) (P : Z -> Z -> Prop) (res : outcome Z) : Prop :=
  (exists i j r c, meets i j r /\ P i j /\ test (overlap j r) = Some c /\ res = Ok c) \/
  (res = Ok 0 /\ forall i j r, meets i j r -> P i j -> test (overlap j r) = None).

Lemma search_result_weaken test (P Q : Z -> Z -> Prop) res :
  search_result test P res -> (forall i j, P i j -> Q i j) ->
  (forall i j r, meets i j r -> Q i j -> ~ P i j -> test (overlap j r) = None) ->
  (forall i j, {P i j} + {~ P i j}) ->
  search_result test Q res.
Proof.
  intros [(i&j&r&c&?&?&?&?)|[-> Hno]] HPQ Hrest Hdec; [left; exists i, j, r, c; eauto|].
  right. split; [done|]. intros i j r Hm HQ. destruct (Hdec i j); eauto.
Qed.

Lemma find_bottom_up_loop_spec n : forall ia ib res,
  0 <= ia <= cnt A -> 0 <= ib <= cnt B -> fwd_spec ia ib res ->
  (Z.to_nat (cnt A + cnt B - ia - ib + 1) <= n)%nat ->
  search_result up_test (fun i j => ia <= i /\ ib <= j)
    (find_bottom_up_loop cfg n m res start end_ size align nid0 flags).
Proof.
  induction n as [|n IH]; intros ia ib res Ha Hb Hspec Hn; [lia|].
  destruct Hspec as [[-> Hno]|(i&j&r&ia'&ib'&->&Hm&?&?&?&?&?&Hno)]; cbn [find_bottom_up_loop].
  { right. split; [done|]. intros i j r Hm [? ?]. by destruct (Hno _ _ _ Hm). }
  pose proof (pack_not_end ia' ib' ltac:(lia) ltac:(lia) ltac:(lia)) as Hne.
  unfold overlap at 1. cbv zeta. case_if; [lia|].
  destruct (up_test (overlap j r)) as [c|] eqn:Et; pose proof Et as Et'; unfold up_test, overlap in Et.
  - destruct ((_ <? _) && _); [|done]. injection Et as <-. left. exists i, j, r. eexists.
    split_and!; done.
  - destruct ((_ <? _) && _) eqn:E; [done|].
    eapply search_result_weaken; [apply (IH ia' ib')|..]; try lia.
    + apply next_call; lia.
    + intros ??; simpl; lia.
    + intros i1 j1 r1 Hm1 [? ?] Hnot. destruct (Hno _ _ _ Hm1) as [[-> ->]|?]; try lia.
      by rewrite (meets_same _ _ _ _ _ Hm1 Hm).
    + intros ??; simpl; apply decide; apply _.
Qed.

Lemma find_top_down_loop_spec n : forall ia ib res,
  -1 <= ia < cnt A -> 0 <= ib <= cnt B -> rev_spec ia ib res ->
  (Z.to_nat (ia + ib + 2) <= n)%nat ->
  search_result down_test (fun i j => i <= ia /\ j <= ib)
    (find_top_down_loop cfg n m res start end_ size align nid0 flags).
Proof.
  induction n as [|n IH]; intros ia ib res Ha Hb Hspec Hn; [lia|].
  destruct Hspec as [[-> Hno]|(i&j&r&ia'&ib'&->&Hm&?&?&?&?&?&Hno)]; cbn [find_top_down_loop].
  { right. split; [done|]. intros i j r Hm [? ?]. by destruct (Hno _ _ _ Hm). }
  pose proof (pack_not_end ia' ib' ltac:(lia) ltac:(lia) ltac:(lia)) as Hne.
  unfold overlap at 1. cbv zeta. case_if; [lia|].
  destruct (prev_call ia' ib') as (res'&->&Hspec'); [lia..|]. cbn [obind].
  assert (Hnext : down_test (overlap j r) = None ->
    search_result down_test (fun i j => i <= ia /\ j <= ib)
      (find_top_down_loop cfg n m res' start end_ size align nid0 flags)).
  { intros Ht. eapply search_result_weaken; [apply (IH ia' ib')|..]; try lia; try done.
    + intros ??; simpl; lia.
    + intros i1 j1 r1 Hm1 [? ?] Hnot. destruct (Hno _ _ _ Hm1) as [[-> ->]|?]; try lia.
      by rewrite (meets_same _ _ _ _ _ Hm1 Hm).
    + intros ??; simpl; apply decide; apply _. }
  destruct (down_test (overlap j r)) as [c|] eqn:Et; pose proof Et as Et'; unfold down_test, overlap in Et.
  - case_match; [done|]. destruct (_ <=? _) eqn:E; [|done]. injection Et as <-.
    left. exists i, j, r. eexists. split_and!; try done.
  - case_match; [by apply Hnext|]. destruct (_ <=? _); [done|]. by apply Hnext.
Qed.

Lemma find_bottom_up_spec :
  search_result up_test (fun _ _ => True)
    (__memblock_find_range_bottom_up cfg m start end_ size align nid0 flags).
Proof.
  unfold __memblock_find_range_bottom_up. change (__next_mem_range cfg m 0) with (__next_mem_range cfg m (pack_idx 0 0)).
  pose proof cntA_pos. pose proof cntB_pos.
  eapply search_result_weaken;
    [apply (find_bottom_up_loop_spec _ 0 0); [lia|lia|apply next_call; lia|unfold iter_fuel, cnt; lia]|done|..].
  - intros i j r (?&_&_&?&_) _ Hnot. simpl in Hnot. lia.
  - intros ??; simpl; apply decide; apply _.
Qed.

Lemma find_top_down_spec :
  search_result down_test (fun _ _ => True)
    (__memblock_find_range_top_down cfg m start end_ size align nid0 flags).
Proof.
  unfold __memblock_find_range_top_down, __next_mem_range_rev.
  pose proof cntA_pos. pose proof cntB_pos. simpl (_ =? _). cbn [obind]. rewrite Hnid.
  eapply search_result_weaken;
    [apply (find_top_down_loop_spec _ (cnt A - 1) (cnt B));
       [lia|lia|apply prev_scan_a_spec; unfold cnt in *; lia|unfold iter_fuel, cnt; lia]|done|..].
  - intros i j r Hm _ Hnot. simpl in Hnot. pose proof (meets_region _ _ _ Hm). destruct Hm as (?&_&_&?&_). lia.
  - intros ??; simpl; apply decide; apply _.
Qed.

End Find.

(** ** Candidates *)

Lemma round_up_cases x k : 0 <= x <= ULLONG_MAX -> 0 <= k <= 63 ->
  round_up x (2 ^ k) = 0 \/
  (x <= round_up x (2 ^ k) <= ULLONG_MAX /\ (round_up x (2 ^ k)) mod 2 ^ k = 0).
Proof.
  intros Hx Hk. rewrite round_up_pow2 by done. set (q := (x + 2 ^ k - 1) / 2 ^ k).
  assert (H64 : 2 ^ 64 = 2 ^ k * 2 ^ (64 - k)) by (rewrite <- Z.pow_add_r; [f_equal|..]; lia).
  assert (Hq1 : x <= 2 ^ k * q).
  { pose proof (Z.div_mod (x + 2 ^ k - 1) (2 ^ k) ltac:(lia)).
    pose proof (Z.mod_pos_bound (x + 2 ^ k - 1) (2 ^ k) ltac:(lia)). unfold q. lia. }
  assert (Hq2 : q <= 2 ^ (64 - k)).
  { unfold q. transitivity ((2 ^ (64 - k) * 2 ^ k + (2 ^ k - 1)) / 2 ^ k).
    - apply Z.div_le_mono; [lia|]. unfold ULLONG_MAX in Hx. lia.
    - rewrite Z.div_add_l, Z.div_small by lia. lia. }
  assert (0 <= q) by (apply Z.div_pos; lia).
  destruct (decide (q = 2 ^ (64 - k))) as [->|Hne].
  - left. unfold wrap. rewrite <- H64. by rewrite Z.mod_same.
  - right. assert (2 ^ k * q <= 2 ^ 64 - 1).
    { assert (2 ^ k * q <= 2 ^ k * (2 ^ (64 - k) - 1)) by (apply Z.mul_le_mono_nonneg_l; lia). lia. }
    rewrite u64_small by (unfold ULLONG_MAX; nia). split; [unfold ULLONG_MAX; lia|].
    rewrite Z.mul_comm. apply Z.mod_mul. lia.
Qed.

Section Usable.
Context (cfg : memblock_config) (m : memblock) (nid flags : Z).
Hypothesis HA : array_ok (regions (memory m)).
Hypothesis HB : array_ok (regions (reserved m)).

(** [[c, c + size)] is aligned, inside the window and one eligible memory
    region, and not reserved. *)
Definition usable (start end_ size align c : Z) : Prop :=
  c mod align = 0 /\ start <= c /\ c + size <= end_ /\
  (exists r, r ∈ regions (memory m) /\ region_skipped cfg m nid flags r = false /\
     r_base r <= c /\ c + size <= r_base r + r_size r) /\
  (forall a, c <= a < c + size -> addr_attr cfg (regions (reserved m)) a = None).

Context (start end_ size k : Z).
Hypothesis Hwin : 0 <= start <= end_.
Hypothesis Hend : end_ <= ULLONG_MAX.
Hypothesis Hsize : 0 < size.
Hypothesis Hk : 0 <= k <= 63.

Lemma candidate_usable i j r c : meets cfg m nid flags i j r ->
  c mod 2 ^ k = 0 -> start <= c -> c + size <= end_ ->
  Z.max (r_base r) (gap_start (reserved m) j) <= c ->
  c + size <= Z.min (region_end r) (gap_end (reserved m) j) ->
  usable start end_ size (2 ^ k) c.
Proof.
  intros Hm Hal Hs He H1 H2. destruct (meets_region _ _ _ _ HA _ _ _ Hm) as (?&Hre&?&?).
  destruct Hm as (?&Hlk&?&?&?&?). split_and!; try done.
  - exists r. split_and!; try done; try lia. by eapply list_elem_of_lookup_2.
  - intros a Ha. apply (gap_free cfg m HB j); lia.
Qed.

Lemma down_test_usable i j r c : meets cfg m nid flags i j r ->
  down_test start end_ size (2 ^ k) (overlap cfg m j r) = Some c ->
  usable start end_ size (2 ^ k) c.
Proof.
  intros Hm Ht. pose proof (meets_region _ _ _ _ HA _ _ _ Hm) as (?&Hre&?&?).
  destruct (gap_bounds m HB j) as [? ?]; [by destruct Hm as (_&_&_&?&_)|].
  unfold down_test, overlap, clamp in Ht. case_match eqn:E1; [done|].
  case_match eqn:E2; [|done]. injection Ht as <-. rewrite round_down_pow2 in * by lia.
  remember (Z.min _ end_ - size) as x eqn:Hx.
  pose proof (Z.mod_pos_bound x (2 ^ k) ltac:(lia)).
  assert (Hal : (x - x mod 2 ^ k) mod 2 ^ k = 0) by (by rewrite Zminus_mod_idemp_r, Z.sub_diag).
  generalize dependent (x mod 2 ^ k). intros y E2 Hy Hal.
  apply (candidate_usable i j r _ Hm Hal); clear Hal; lia.
Qed.

Lemma up_test_usable i j r c : meets cfg m nid flags i j r -> c <> 0 ->
  up_test start end_ size (2 ^ k) (overlap cfg m j r) = Some c ->
  usable start end_ size (2 ^ k) c.
Proof.
  intros Hm Hc Ht. pose proof (meets_region _ _ _ _ HA _ _ _ Hm) as (?&Hre&?&?).
  destruct (gap_bounds m HB j) as [? ?]; [by destruct Hm as (_&_&_&?&_)|].
  unfold up_test, overlap, clamp in Ht. case_match eqn:E1; [|done]. injection Ht as <-.
  match type of Hc with round_up ?x _ <> 0 => destruct (round_up_cases x k) as [?|[? Hal]]; [lia..|] end.
  apply (candidate_usable i j r _ Hm Hal); clear Hal; lia.
Qed.

Lemma usable_down_test c : usable start end_ size (2 ^ k) c ->
  exists i j r, meets cfg m nid flags i j r /\ down_test start end_ size (2 ^ k) (overlap cfg m j r) <> None.
Proof.
  intros (Hal&Hs&He&(r&Hr&Hsk&Hb&Hre)&Hfree).
  apply list_elem_of_lookup in Hr as [i Hi]. destruct (array_ok_region _ _ _ HA Hi) as (?&?&Hend'&?).
  destruct (range_in_gap m HB c (c + size)) as (j&Hj&Hgs&Hge); [lia..| |].
  { intros r' Hr'. destruct (decide (r_size r' = 0)); [by left|right].
    destruct (decide (c + size <= r_base r')); [by left|]. right.
    destruct (decide (r_base r' + r_size r' <= c)); [done|exfalso].
    assert (Hin : addr_attr cfg (regions (reserved m)) (Z.max c (r_base r')) <> None).
    { destruct HB as [(d&Hd&?&?)|[_ Hseg]].
      - rewrite Hd in Hr'. apply list_elem_of_singleton in Hr' as ->. lia.
      - rewrite (addr_attr_covered _ _ _ _ r' _ Hseg Hr'); [done|].
        pose proof (seg_region _ _ _ _ Hseg Hr'). unfold covers. lia. }
    apply Hin, Hfree. apply list_elem_of_lookup in Hr' as [i' Hi'].
    pose proof (array_ok_region _ _ _ HB Hi'). lia. }
  exists (Z.of_nat i), j, r. split.
  - split_and!; try rewrite Nat2Z.id; try done; lia.
  - unfold down_test, overlap, clamp. case_if; [lia|]. rewrite round_down_pow2 by lia.
    remember (Z.min _ end_ - size) as x eqn:Ex.
    assert (Hx : c <= x) by lia.
    assert (c <= x - x mod 2 ^ k).
    { pose proof (Z.div_mod x (2 ^ k) ltac:(lia)). pose proof (Z.div_mod c (2 ^ k) ltac:(lia)).
      pose proof (Z.div_le_mono c x (2 ^ k) ltac:(lia) Hx). nia. }
    case_if; [done|lia].
Qed.

End Usable.
