(* ===== verification/MemblockState.v ===== *)
(** * MemblockState: the allocator invariant and the range operations

    [wf] is the invariant of the global [memblock] state.  The operations that
    may have to grow a region array are proved against the interface
    [GrowSafe] of [memblock_double_array]; the instance at the end of the file
    discharges it for the routine itself, at every recursion depth. *)

From S2P Require Import Prelude Memblock MemblockArray MemblockFind.

(** All DRAM of the platform is below this address. *)
Definition PHYS_LIMIT : Z := 2 ^ 35.

Definition limit (ty : mtype) : Z :=
  match ty with Memory => PHYS_LIMIT | Reserved => ULLONG_MAX end.

Section State.
Context (cfg : memblock_config).

(** Invariant of one array: sorted disjoint regions below [hi] (or the dummy
    entry), [total_size] their sum, and room for [cnt] entries. *)
Record type_ok (hi : Z) (t : memblock_type) : Prop := {
  ok_array : dummy (regions t) \/ (regions t <> [] /\ seg 0 hi (regions t));
  ok_total : total_size t = sum_size (regions t);
  ok_cnt : cnt t <= t_max t;
  ok_max : 4 <= t_max t;
  ok_bytes : t_max t * sizeof_region cfg <= PHYS_LIMIT;
  ok_place : match t_array t with ArrAt pa => 0 <= pa <= ULLONG_MAX | ArrInit => True end
}.

Record wf (m : memblock) : Prop := {
  wf_memory : type_ok PHYS_LIMIT (memory m);
  wf_reserved : type_ok ULLONG_MAX (reserved m);
  wf_limit : 0 <= current_limit m <= ULLONG_MAX
}.

(** The environment's part: [kmalloc] returns physical addresses, and has no
    blocks larger than the memory of the machine to give. *)
Definition kmalloc_bounded : Prop := forall s,
  0 <= kmalloc_pa cfg s <= ULLONG_MAX /\ (kmalloc_pa cfg s <> 0 -> s <= PHYS_LIMIT).

(** The attributes of an address in one of the two arrays. *)
Definition attr_of (m : memblock) (ty : mtype) (a : Z) : option (Z * Z) :=
  addr_attr cfg (regions (get_type m ty)) a.

(** What growing an array leaves alone: the memory regions and the scalars. *)
Record same_memory (m m' : memblock) : Prop := {
  same_regions : regions (memory m') = regions (memory m);
  same_total : total_size (memory m') = total_size (memory m);
  same_limit : current_limit m' = current_limit m;
  same_resize : memblock_can_resize m' = memblock_can_resize m;
  same_mirror : system_has_some_mirror m' = system_has_some_mirror m;
  same_movable : movable_node_enabled m' = movable_node_enabled m
}.

#[global] Instance same_memory_refl : Reflexive same_memory.
Proof. by constructor. Qed.
#[global] Instance same_memory_trans : Transitive same_memory.
Proof. intros ??? [] []; constructor; congruence. Qed.

Lemma limit_le ty : limit ty <= ULLONG_MAX.
Proof. by destruct ty. Qed.

Lemma wf_type m ty : wf m -> type_ok (limit ty) (get_type m ty).
Proof. intros []. by destruct ty. Qed.

Lemma type_ok_array hi t : hi <= ULLONG_MAX -> type_ok hi t -> array_ok (regions t).
Proof. intros Hhi []. destruct ok_array0 as [|[? ?]]; [by left|right]. split; [done|]. eapply seg_weaken; eauto; lia. Qed.

Lemma wf_array m ty : wf m -> array_ok (regions (get_type m ty)).
Proof. intros H. eapply type_ok_array; [apply (limit_le ty)|by apply wf_type]. Qed.

Lemma sizeof_region_bounds : 24 <= sizeof_region cfg <= 32.
Proof. unfold sizeof_region. case_if; lia. Qed.

Lemma type_ok_cnt hi t : type_ok hi t -> cnt t < 2 ^ 31 - 1.
Proof. intros []. pose proof sizeof_region_bounds. unfold PHYS_LIMIT in *. nia. Qed.

Lemma type_ok_total_range hi t : hi <= ULLONG_MAX -> type_ok hi t -> total_size t = u64 (total_size t).
Proof.
  intros Hhi []. symmetry. apply u64_small. rewrite ok_total0.
  destruct ok_array0 as [(d&->&?&?)|[? Hs]]; [simpl; unfold ULLONG_MAX; lia|].
  apply sum_size_bound in Hs. lia.
Qed.

Lemma get_set_type m ty t : get_type (set_type m ty t) ty = t.
Proof. by destruct ty. Qed.

Lemma wf_set_type m ty t : wf m -> type_ok (limit ty) t -> wf (set_type m ty t).
Proof. intros [] Ht. destruct ty; by constructor. Qed.

Lemma memblock_init_wf : wf memblock_init.
Proof.
  assert (H : forall hi, type_ok hi memblock_init_type).
  { intros hi. constructor; try done; [left; by exists (mkRegion 0 0 0 0)|].
    unfold memblock_init_type, INIT_MEMBLOCK_REGIONS, sizeof_region, PHYS_LIMIT. simpl. case_if; lia. }
  constructor; try apply H. simpl. unfold MEMBLOCK_ALLOC_ANYWHERE, ULLONG_MAX. lia.
Qed.

(** ** Array level: adding, isolating, removing, marking *)

(** Same capacity and placement. *)
Definition same_slot (t t' : memblock_type) : Prop := t_max t' = t_max t /\ t_array t' = t_array t.

Lemma type_ok_update hi t t' :
  type_ok hi t -> same_slot t t' ->
  (dummy (regions t') \/ (regions t' <> [] /\ seg 0 hi (regions t'))) ->
  total_size t' = sum_size (regions t') -> cnt t' <= t_max t -> type_ok hi t'.
Proof. intros [] [Hm Hp] ???. constructor; rewrite ?Hm, ?Hp; done. Qed.

Lemma merge_type_spec hi t :
  hi <= ULLONG_MAX -> regions t <> [] -> seg 0 hi (regions t) ->
  exists l', memblock_merge_regions cfg t = Ok (set_regions t l') /\ l' <> [] /\ seg 0 hi l' /\
    (forall a, addr_attr cfg l' a = addr_attr cfg (regions t) a) /\
    sum_size l' = sum_size (regions t) /\ (length l' <= length (regions t))%nat /\ minimal cfg l'.
Proof.
  intros Hhi Hne Hseg. unfold memblock_merge_regions. destruct (regions t) as [|this l]; [done|].
  destruct (merge_loop_spec cfg l this 0 hi) as (h&l'&->&?&?&?&?&?&_&_); [lia|done|done|].
  exists (h :: l'). split_and!; try done. simpl. lia.
Qed.

(** The inserting pass of [memblock_add_range] followed by the merge: either
    [BUG_ON] fires because the array is full, or the range is added. *)
Lemma add_type_spec hi t base end_ nid flags :
  hi <= ULLONG_MAX -> type_ok hi t -> ~ dummy (regions t) -> 0 <= base < end_ -> end_ <= hi ->
  let res := obind (add_range_pass cfg true t base end_ nid flags)
               (fun '(t', _) => memblock_merge_regions cfg t') in
  (res = Oops /\ t_max t < cnt t + nr_fill cfg end_ nid flags base (regions t)) \/
  (exists t', res = Ok t' /\ type_ok hi t' /\ same_slot t t' /\ ~ dummy (regions t') /\
    minimal cfg (regions t') /\
    (cnt t' <= cnt t + nr_fill cfg end_ nid flags base (regions t)) /\
    forall a, addr_attr cfg (regions t') a =
      match addr_attr cfg (regions t) a with
      | Some x => Some x
      | None => if (base <=? a) && (a <? end_) then Some (new_attr cfg nid flags) else None
      end).
Proof.
  intros Hhi Hok Hnd Hrange Hend. pose proof (type_ok_total_range _ _ Hhi Hok) as Htot.
  destruct (ok_array _ _ Hok) as [?|[Hne Hseg]]; [done|]. unfold add_range_pass, nr_fill.
  pose proof (add_pass_insert cfg end_ nid flags (regions t) [] t base 0 0 eq_refl ltac:(lia)
    ltac:(eapply seg_weaken; [apply Hseg|lia|lia]) Htot (ok_cnt _ _ Hok)) as H. simpl length in H.
  destruct H as [[H Hroom]|[H Hroom]]; rewrite H; cbn [obind]; simpl app in Hroom; [left|].
  { split; [done|]. unfold cnt. lia. }
  match goal with |- context [memblock_merge_regions cfg ?t'] => set (t1 := t') end.
  assert (Hs1 : seg 0 hi (regions t1)) by (apply fill_seg; [done|lia|lia]).
  assert (Hn1 : regions t1 <> []).
  { simpl. destruct (regions t) as [|r l]; [done|]. simpl. case_ifs; done. }
  destruct (merge_type_spec hi t1 Hhi Hn1 Hs1) as (l'&->&Hl'&Hs'&Ha'&Hsum'&Hlen'&Hmin').
  right. exists (set_regions t1 l'). split_and!; try done.
  - apply (type_ok_update hi t); try done; [by right|..].
    + simpl. rewrite Hsum'. simpl. rewrite (ok_total _ _ Hok). apply sum_size_bound in Hs1. simpl in Hs1.
      rewrite u64_small; lia.
    + unfold cnt. simpl in *. lia.
  - simpl. intros (d&->&_&Hd). simpl in Hs'. lia.
  - unfold cnt. simpl in *. lia.
  - intros a. simpl. rewrite Ha'. apply (fill_attr _ _ _ _ 0 hi); [done|lia].
Qed.

(** Isolation splits at most two regions and keeps the address map. *)
Lemma isolate_type_spec hi t base end_ :
  hi <= ULLONG_MAX -> type_ok hi t -> 0 <= base < end_ -> end_ <= ULLONG_MAX -> cnt t + 2 <= t_max t ->
  exists l' s e,
    isolate_loop cfg (length (regions t) + 4) t 0 base end_ 0 0 =
      Ok (mkType l' (t_max t) (total_size t) (t_array t), s, e) /\
    type_ok hi (mkType l' (t_max t) (total_size t) (t_array t)) /\
    (forall a, addr_attr cfg l' a = addr_attr cfg (regions t) a) /\
    (length l' <= length (regions t) + 2)%nat /\ (dummy l' <-> dummy (regions t)) /\
    isolated base end_ l' s e.
Proof.
  intros Hhi Hok Hrange Hend Hroom. pose proof (type_ok_total_range _ _ Hhi Hok) as Htot.
  destruct (ok_array _ _ Hok) as [Hd|[Hne Hseg]].
  - destruct Hd as (d&Hd&Hb&Hs). exists (regions t), 0%nat, 0%nat. rewrite Hd. cbn [length Nat.add isolate_loop].
    rewrite Hd. cbn [lookup list_lookup].
    assert (He : region_end d = 0) by (unfold region_end; by rewrite Hb, Hs). rewrite He, Hb.
    case_if; [lia|]. case_if; [|lia]. split_and!; try done; try lia.
    + rewrite <- Hd. by destruct t.
    + rewrite <- Hd. by destruct t.
    + exists [], [], [d]. split_and!; try done; intros r Hr; [by apply elem_of_nil in Hr|].
      apply list_elem_of_singleton in Hr as ->. lia.
  - destruct (isolate_loop_spec cfg base end_ Hrange Hend (length (regions t) + 4) [] [] (regions t) t 0 hi 0 0)
      as (suf'&s&e&Hr&Hs'&Ha'&Hsum'&Hlen'&Hiso); try done; try lia.
    + apply iso_init.
    + unfold iso_budget. case_if; lia.
    + unfold iso_budget. case_if; lia.
    + simpl in *. exists suf', s, e. split_and!; try done.
      * apply (type_ok_update hi t); try done.
        -- simpl. right. split; [|done]. intros ->. destruct (regions t); [done|]. simpl in *.
           destruct Hseg as (?&?&?%sum_size_bound). lia.
        -- simpl. by rewrite Hsum', (ok_total _ _ Hok).
        -- unfold cnt, iso_budget in *. simpl. case_match; lia.
      * unfold iso_budget in *. case_match; lia.
      * split; intros (d&Hd&?&?); exfalso.
        -- rewrite Hd in Hs'. simpl in Hs'. lia.
        -- rewrite Hd in Hseg. simpl in Hseg. lia.
Qed.

Lemma isolated_attr base end_ l1 l2 l3 a hi :
  seg 0 hi (l1 ++ l2 ++ l3) ->
  (forall r, r ∈ l2 -> base <= r_base r /\ r_base r + r_size r <= end_) ->
  (forall r, r ∈ l1 ++ l3 -> r_base r + r_size r <= base \/ end_ <= r_base r) ->
  addr_attr cfg (l1 ++ l3) a =
    (if (base <=? a) && (a <? end_) then None else addr_attr cfg (l1 ++ l2 ++ l3) a).
Proof.
  intros Hseg H2 H13.
  assert (Hin : base <= a < end_ -> addr_attr cfg (l1 ++ l3) a = None).
  { intros Ha. apply addr_attr_None. intros r Hr. unfold covers.
    destruct (H13 r Hr); lia. }
  case_if; [by apply Hin; lia|].
  rewrite !addr_attr_app. assert (addr_attr cfg l2 a = None) as ->; [|done].
  apply addr_attr_None. intros r Hr. specialize (H2 r Hr). unfold covers. lia.
Qed.

(** Removing the isolated regions removes the range from the address map. *)
Lemma remove_type_spec hi t base end_ s e :
  hi <= ULLONG_MAX -> type_ok hi t -> isolated base end_ (regions t) s e ->
  let t' := remove_regions_loop cfg (e - s) t s in
  type_ok hi t' /\ same_slot t t' /\ cnt t' <= cnt t /\
  forall a, addr_attr cfg (regions t') a =
    (if (base <=? a) && (a <? end_) then None else addr_attr cfg (regions t) a).
Proof.
  intros Hhi Hok (l1&l2&l3&Hl&->&->&H2&H13) t'. pose proof (type_ok_total_range _ _ Hhi Hok) as Htot.
  destruct (remove_loop_spec cfg l2 t l1 l3 Hl Htot) as (l'&Hr&Hk1&Hk2).
  assert (Ht' : t' = mkType l' (t_max t) (u64 (total_size t - sum_size l2)) (t_array t)).
  { unfold t'. by replace (length l1 + length l2 - length l1)%nat with (length l2) by lia. }
  rewrite Ht'. simpl. pose proof (ok_total _ _ Hok) as Hsum. rewrite Hl in Hsum. rewrite !sum_size_app in Hsum.
  destruct (decide (l2 = [])) as [->|Hne2].
  { rewrite (Hk1 ltac:(by right)). simpl in *. rewrite Z.sub_0_r, <- Htot. rewrite <- Hl.
    split; [by destruct t|]. split; [by split|]. split; [unfold cnt; simpl; lia|].
    intros a. case_if; [|done]. rewrite Hl. apply addr_attr_None. intros r Hr'. unfold covers.
    destruct (H13 r Hr'); lia. }
  destruct (ok_array _ _ Hok) as [Hd|[Hne Hseg]].
  { (* a dummy entry is never isolated *)
    destruct Hd as (d&Hd&Hb&Hs). rewrite Hl in Hd. destruct l1 as [|? l1]; [|by destruct l1, l2].
    destruct l2 as [|? l2]; [done|]. destruct l2; [|done]. destruct l3; [|done]. simpl in *.
    injection Hd as ->. split_and!; try done.
    - apply (type_ok_update hi t); try done; simpl.
      + left. by apply Hk2.
      + destruct (Hk2 eq_refl) as (d'&->&?&Hd'); [done|]. simpl. rewrite Hsum, Hs, Hd'. done.
      + destruct (Hk2 eq_refl) as (d'&->&?&Hd'); [done|]. unfold cnt. simpl. pose proof (ok_max _ _ Hok). lia.
    - destruct (Hk2 eq_refl) as (d'&->&?&Hd'); [done|]. unfold cnt. rewrite Hl. simpl. lia.
    - intros a. rewrite (dummy_addr_attr cfg l' a) by (by apply Hk2). rewrite Hl. simpl. unfold covers.
      rewrite Hb, Hs. case_ifs; done. }
  rewrite Hl in Hseg. pose proof Hseg as Hseg'. apply seg_app in Hseg' as (m1&Hs1&Hs23).
  apply seg_app in Hs23 as (m2&Hs2&Hs3).
  assert (Hseg13 : seg 0 hi (l1 ++ l3)).
  { apply seg_app. exists m1. split; [done|]. apply seg_le in Hs2. eapply seg_weaken; [apply Hs3|lia|lia]. }
  pose proof (sum_size_bound _ _ _ Hseg13) as Hb13. rewrite sum_size_app in Hb13.
  assert (Hattr : forall a, addr_attr cfg l' a = (if (base <=? a) && (a <? end_) then None else addr_attr cfg (regions t) a)).
  { intros a. rewrite Hl. destruct (decide (l1 ++ l3 = [])) as [Hnil|Hn].
    - rewrite (dummy_addr_attr cfg l' a) by (by apply Hk2).
      rewrite <- (isolated_attr base end_ l1 l2 l3 a hi) by done. by rewrite Hnil.
    - rewrite Hk1 by (by left). by apply (isolated_attr _ _ _ _ _ _ hi). }
  split_and!; try done.
  - apply (type_ok_update hi t); try done; simpl.
    + destruct (decide (l1 ++ l3 = [])) as [Hnil|Hn]; [left; by apply Hk2|right]. rewrite Hk1 by (by left). done.
    + destruct (decide (l1 ++ l3 = [])) as [Hnil|Hn].
      * destruct (Hk2 Hnil Hne2) as (d&->&?&Hd). apply app_nil in Hnil as [-> ->]. simpl in *.
        rewrite Hd, Hsum. rewrite u64_small; lia.
      * rewrite Hk1 by (by left). rewrite sum_size_app, Hsum, u64_small; lia.
    + destruct (decide (l1 ++ l3 = [])) as [Hnil|Hn].
      * destruct (Hk2 Hnil Hne2) as (d&->&?&Hd). unfold cnt. simpl. pose proof (ok_max _ _ Hok). lia.
      * rewrite Hk1 by (by left). pose proof (ok_cnt _ _ Hok) as Hc. unfold cnt in *. rewrite Hl in Hc. simpl.
        rewrite !length_app in *. lia.
  - destruct (decide (l1 ++ l3 = [])) as [Hnil|Hn].
    + destruct (Hk2 Hnil Hne2) as (d&->&?&Hd). unfold cnt. rewrite Hl, !length_app. destruct l2; [done|]. simpl. lia.
    + rewrite Hk1 by (by left). unfold cnt. rewrite Hl. simpl. rewrite !length_app. lia.
Qed.

(** ** Finding free memory *)

(** The window [memblock_find_in_range_node] searches. *)
Definition window_start (start : Z) : Z := Z.max start PAGE_SIZE.
Definition window_end (m : memblock) (start end_ : Z) : Z :=
  Z.max (window_start start) (if end_ =? MEMBLOCK_ALLOC_ACCESSIBLE then current_limit m else end_).

Lemma usable_widen m nid flags s s' e size align c :
  s' <= s -> usable cfg m nid flags s e size align c -> usable cfg m nid flags s' e size align c.
Proof. intros Hs (?&?&?&?&?). split_and!; try done. lia. Qed.

Lemma top_down_spec m size k s e nid flags :
  wf m -> 0 < size -> 0 <= k <= 63 -> 0 < s <= e -> e <= ULLONG_MAX ->
  exists c, __memblock_find_range_top_down cfg m s e size (2 ^ k) nid flags = Ok c /\
    ((c <> 0 /\ usable cfg m (fix_nid cfg nid) flags s e size (2 ^ k) c) \/
     (c = 0 /\ forall c', ~ usable cfg m (fix_nid cfg nid) flags s e size (2 ^ k) c')).
Proof.
  intros Hwf Hsz Hk Hs He.
  pose proof (wf_array m Memory Hwf) as HA. pose proof (wf_array m Reserved Hwf) as HB. simpl in HA, HB.
  pose proof (type_ok_cnt _ _ (wf_memory _ Hwf)) as HcA. pose proof (type_ok_cnt _ _ (wf_reserved _ Hwf)) as HcB.
  destruct (find_top_down_spec cfg m (fix_nid cfg nid) flags HA HB HcA HcB nid eq_refl s e size (2 ^ k))
    as [(i&j&r&c&Hm&_&Ht&->)|[-> Hno]].
  - exists c. split; [done|]. left.
    assert (Hu : usable cfg m (fix_nid cfg nid) flags s e size (2 ^ k) c)
      by (eapply down_test_usable; eauto; lia).
    split; [|done]. destruct Hu as (_&?&_). lia.
  - exists 0. split; [done|]. right. split; [done|]. intros c' Hu.
    destruct (usable_down_test cfg m (fix_nid cfg nid) flags HA HB s e size k ltac:(lia) ltac:(lia) ltac:(lia) Hk c' Hu)
      as (i&j&r&Hm&Hne). apply Hne. by apply (Hno i).
Qed.

Lemma bottom_up_spec m size k s e nid flags :
  wf m -> 0 < size -> 0 <= k <= 63 -> 0 < s <= e -> e <= ULLONG_MAX ->
  exists c, __memblock_find_range_bottom_up cfg m s e size (2 ^ k) nid flags = Ok c /\
    (c <> 0 -> usable cfg m (fix_nid cfg nid) flags s e size (2 ^ k) c).
Proof.
  intros Hwf Hsz Hk Hs He.
  pose proof (wf_array m Memory Hwf) as HA. pose proof (wf_array m Reserved Hwf) as HB. simpl in HA, HB.
  pose proof (type_ok_cnt _ _ (wf_memory _ Hwf)) as HcA. pose proof (type_ok_cnt _ _ (wf_reserved _ Hwf)) as HcB.
  destruct (find_bottom_up_spec cfg m (fix_nid cfg nid) flags HA HB HcA HcB nid eq_refl s e size (2 ^ k))
    as [(i&j&r&c&Hm&_&Ht&->)|[-> Hno]]; [|by exists 0].
  exists c. split; [done|]. intros Hc. eapply up_test_usable; eauto; lia.
Qed.

Lemma find_in_range_node_spec m size k start end_ nid flags :
  wf m -> 0 < size -> 0 <= k <= 63 -> 0 <= start <= ULLONG_MAX -> 0 <= end_ <= ULLONG_MAX ->
  let lo := window_start start in let hi := window_end m start end_ in
  exists c, memblock_find_in_range_node cfg m size (2 ^ k) start end_ nid flags = Ok c /\
    ((c <> 0 /\ usable cfg m (fix_nid cfg nid) flags lo hi size (2 ^ k) c) \/
     (c = 0 /\ forall c', ~ usable cfg m (fix_nid cfg nid) flags lo hi size (2 ^ k) c')).
Proof.
  intros Hwf Hsz Hk Hst Hen lo hi. unfold memblock_find_in_range_node. cbv zeta.
  fold (window_start start). fold (window_end m start end_). fold lo. fold hi.
  pose proof (wf_limit _ Hwf).
  assert (0 < lo <= hi /\ hi <= ULLONG_MAX) as [? ?].
  { unfold hi, lo, window_end, window_start, PAGE_SIZE, PAGE_SHIFT, ULLONG_MAX in *. case_if; lia. }
  pose proof (top_down_spec m size k lo hi nid flags Hwf Hsz Hk ltac:(lia) ltac:(lia)) as Htd.
  case_if; [|done].
  destruct (bottom_up_spec m size k (Z.max lo (kernel_end cfg)) hi nid flags Hwf Hsz Hk) as (c&->&Hc); [lia..|].
  cbn [obind]. case_if; [|done]. exists c. split; [done|]. left. split; [lia|].
  eapply usable_widen; [|apply Hc; lia]. lia.
Qed.

(** What every successful search gives, whatever the flags it ended with. *)
Definition free_block (m : memblock) (size align c : Z) : Prop :=
  0 < c /\ c mod align = 0 /\
  (exists r, r ∈ regions (memory m) /\ r_base r <= c /\ c + size <= r_base r + r_size r) /\
  (forall a, c <= a < c + size -> attr_of m Reserved a = None).

Lemma usable_free_block m nid flags start e size align c :
  0 < start -> usable cfg m nid flags start e size align c -> free_block m size align c.
Proof. intros Hs (?&?&?&(r&?&_&?&?)&?). split_and!; try done; [lia|]. by exists r. Qed.

Lemma window_start_pos start : 0 < window_start start.
Proof. unfold window_start, PAGE_SIZE, PAGE_SHIFT. lia. Qed.

Lemma find_in_range_spec m start end_ size k :
  wf m -> 0 < size -> 0 <= k <= 63 -> 0 <= start <= ULLONG_MAX -> 0 <= end_ <= ULLONG_MAX ->
  exists c, memblock_find_in_range cfg m start end_ size (2 ^ k) = Ok c /\
    (c <> 0 -> free_block m size (2 ^ k) c /\ window_start start <= c /\ c + size <= window_end m start end_).
Proof.
  intros Hwf Hsz Hk Hst Hen. unfold memblock_find_in_range.
  assert (Hnode : forall flags, exists c,
    memblock_find_in_range_node cfg m size (2 ^ k) start end_ NUMA_NO_NODE flags = Ok c /\
    (c <> 0 -> free_block m size (2 ^ k) c /\ window_start start <= c /\ c + size <= window_end m start end_)).
  { intros flags. destruct (find_in_range_node_spec m size k start end_ NUMA_NO_NODE flags Hwf Hsz Hk Hst Hen)
      as (c&Hc&[[? Hu]|[-> _]]); exists c || exists 0; split; try done.
    intros _. split; [eapply usable_free_block; [apply window_start_pos|done]|]. by destruct Hu as (_&?&?&_). }
  destruct (Hnode (choose_memblock_flags m)) as (c&->&Hc). cbn [obind]. case_if; [apply Hnode|by exists c].
Qed.

(** ** Growing: the interface *)

(** An array gets a first real region by overwriting the dummy entry, which
    [memblock_add_range] looks for before it grows the array: the growing must
    not bring the dummy back.  With the slab up, freeing the old array could
    do that to [reserved] (the new one is then not a reserved range). *)
Definition keeps_regions (ty : mtype) : Prop := ty = Memory \/ slab_is_available cfg = false.

(** What the range operations rely on when they call
    [memblock_double_array]. *)
Class GrowSafe (dbl : grow_fn) : Prop :=
  grow_safe : forall ty base size m r m',
    wf m -> 0 <= base -> 0 <= size -> base + size <= ULLONG_MAX ->
    dbl ty base size m = Ok (r, m') ->
    wf m' /\ same_memory m m' /\ (memblock_can_resize m = false -> m' = m) /\
    (keeps_regions ty -> ~ dummy (regions (get_type m ty)) -> ~ dummy (regions (get_type m' ty))).

Lemma cap_size_bound base size : 0 <= base <= ULLONG_MAX -> 0 <= size ->
  0 <= memblock_cap_size base size <= size /\ base + memblock_cap_size base size <= ULLONG_MAX.
Proof. unfold memblock_cap_size. lia. Qed.

(** An operation that needs [extra] slots does not grow the array: growing is
    not allowed yet, or there is room. *)
Definition settled (ty : mtype) (extra : Z) (m : memblock) : Prop :=
  memblock_can_resize m = false \/ cnt (get_type m ty) + extra <= t_max (get_type m ty).

Section Client.
Context (dbl : grow_fn) `{Hdbl : !GrowSafe dbl}.

Lemma ensure_room_safe n : forall ty base size extra m r m',
  wf m -> 0 <= base -> 0 <= size -> base + size <= ULLONG_MAX ->
  ensure_room n dbl ty base size extra m = Ok (r, m') ->
  wf m' /\ same_memory m m' /\ (settled ty extra m -> m' = m) /\
  (keeps_regions ty -> ~ dummy (regions (get_type m ty)) -> ~ dummy (regions (get_type m' ty))) /\
  ((r = 0 /\ cnt (get_type m' ty) + extra <= t_max (get_type m' ty)) \/ r = - ENOMEM).
Proof.
  induction n as [|n IH]; intros ty base size extra m r m' Hwf Hb Hs Hbs H; [done|].
  cbn [ensure_room] in H. case_match eqn:E.
  - obind_inv H. destruct a as [r1 m1].
    destruct (grow_safe _ _ _ _ _ _ Hwf Hb Hs Hbs Ha) as (Hwf1&Hsame1&Hfix1&Hk1).
    assert (Hset : settled ty extra m -> memblock_can_resize m = false) by (intros [?|?]; [done|lia]).
    case_match; [injection H as <- <-; auto 10|].
    destruct (IH _ _ _ _ _ _ _ Hwf1 Hb Hs Hbs H) as (?&?&Hfix&?&?).
    split_and!; [done|by etransitivity| |auto|done].
    intros Hr%Hset. rewrite Hfix; [by apply Hfix1|]. left. by rewrite (Hfix1 Hr).
  - injection H as <- <-. split_and!; [done|done|done|done|left; lia].
Qed.

(** The attributes after adding [[base, base + size)] with node and flags [x]. *)
Definition added (base size : Z) (x : Z * Z) (f : Z -> option (Z * Z)) (a : Z) : option (Z * Z) :=
  match f a with
  | Some y => Some y
  | None => if (base <=? a) && (a <? base + size) then Some x else None
  end.

(** The attributes after removing it. *)
Definition removed (base size : Z) (f : Z -> option (Z * Z)) (a : Z) : option (Z * Z) :=
  if (base <=? a) && (a <? base + size) then None else f a.

Lemma add_dummy_ok hi t r0 base size nid flags :
  hi <= ULLONG_MAX -> type_ok hi t -> regions t = [r0] -> r_size r0 = 0 -> 0 <= base -> 0 < size -> base + size <= hi ->
  let t' := mkType [memblock_set_region_node cfg (mkRegion base size flags (r_nid r0)) nid] (t_max t) size (t_array t) in
  type_ok hi t' /\
  forall a, addr_attr cfg (regions t') a =
    added base size (new_attr cfg nid flags) (addr_attr cfg (regions t)) a.
Proof.
  intros Hhi Hok Ht Hr0 Hb Hs Hend t'. split.
  - apply (type_ok_update hi t); try done; simpl.
    + right. split; [done|]. rewrite base_set_node, size_set_node. simpl. lia.
    + rewrite size_set_node. simpl. lia.
    + pose proof (ok_max _ _ Hok). unfold cnt. simpl. lia.
  - intros a. unfold added. rewrite Ht. simpl. unfold covers. rewrite base_set_node, size_set_node. simpl.
    rewrite attr_set_node. rewrite Hr0. unfold new_attr, memblock_get_region_node.
    case_ifs; try done; destruct (HAVE_MEMBLOCK_NODE_MAP cfg); done.
Qed.

(** [memblock_add_range]: on success the range is added to the array as it is
    after growing; on [-ENOMEM] only the growing happened. *)
Lemma add_range_safe ty base size nid flags m r m' :
  keeps_regions ty -> wf m -> 0 <= base <= ULLONG_MAX -> 0 <= size -> base + memblock_cap_size base size <= limit ty ->
  memblock_add_range cfg dbl ty base size nid flags m = Ok (r, m') ->
  wf m' /\ exists m1, wf m1 /\ same_memory m m1 /\
    (settled ty (nr_fill cfg (base + memblock_cap_size base size) nid flags base (regions (get_type m ty))) m -> m1 = m) /\
    ((r = - ENOMEM /\ m' = m1) \/
     (r = 0 /\ m' = set_type m1 ty (get_type m' ty) /\
      forall a, attr_of m' ty a =
        added base (memblock_cap_size base size) (new_attr cfg nid flags) (attr_of m1 ty) a)).
Proof.
  intros Hkeep Hwf Hb Hs Hend H. unfold memblock_add_range in H.
  destruct (cap_size_bound base size Hb Hs) as [Hcap Hcap2].
  set (sz := memblock_cap_size base size) in *.
  rewrite (u64_small (base + sz)) in H by lia.
  destruct (sz =? 0) eqn:E0.
  { injection H as <- <-. split; [done|]. exists m. split_and!; try done. right. split_and!; [done|by destruct m, ty|].
    intros a. unfold added. destruct (attr_of m ty a); [done|]. case_if; [lia|done]. }
  pose proof (wf_type m ty Hwf) as Hok. pose proof (limit_le ty) as Hlim.
  destruct (regions (get_type m ty)) as [|r0 rest] eqn:Hreg; [done|].
  destruct (r_size r0 =? 0) eqn:E1.
  { injection H as <- <-.
    assert (rest = []) as ->.
    { destruct (ok_array _ _ Hok) as [(d&Hd&_)|[_ Hseg]]; [rewrite Hreg in Hd; by injection Hd|].
      rewrite Hreg in Hseg. simpl in Hseg. lia. }
    destruct (add_dummy_ok (limit ty) (get_type m ty) r0 base sz nid flags) as [Hok' Ha']; try done; try lia.
    split; [by apply wf_set_type|]. exists m. split_and!; try done. right. split_and!; [done|by rewrite get_set_type|].
    intros a. unfold attr_of. rewrite get_set_type. apply Ha'. }
  assert (Hnd : ~ dummy (regions (get_type m ty))) by (intros (d&Hd&?&?); rewrite Hreg in Hd; injection Hd as -> ->; lia).
  destruct (ok_array _ _ Hok) as [?|[_ Hseg]]; [done|]. unfold add_range_pass in H at 1.
  pose proof (add_pass_count cfg (base + sz) nid flags (regions (get_type m ty)) [] (get_type m ty) base 0 0 eq_refl
    ltac:(lia) ltac:(eapply seg_weaken; [apply Hseg|lia|lia])) as Hc. simpl length in Hc. rewrite Hc in H. clear Hc Hseg. cbn [obind] in H.
  rewrite Z.add_0_l in H. rewrite <- Hreg. set (nr := nr_fill cfg (base + sz) nid flags base (regions (get_type m ty))) in *.
  obind_inv H. destruct a as [r1 m1].
  destruct (ensure_room_safe _ ty base sz nr m r1 m1 Hwf ltac:(lia) ltac:(lia) ltac:(lia) Ha) as (Hwf1&Hsame1&Hfix1&Hnd1&Hr1).
  specialize (Hnd1 Hkeep Hnd). pose proof (wf_type m1 ty Hwf1) as Hok1.
  destruct (r1 <? 0) eqn:E2.
  { injection H as <- <-. split; [done|]. exists m1. split_and!; try done. left.
    destruct Hr1 as [[-> _]| ->]; [lia|done]. }
  destruct (add_type_spec (limit ty) (get_type m1 ty) base (base + sz) nid flags) as [[Hbad _]|(t'&Hres&Hok'&_&_&_&_&Ha')];
    try done; try lia; obind_inv H; destruct a as [t1 n1]; rewrite Ha0 in *; cbn [obind] in *.
  - by rewrite Hbad in H.
  - rewrite Hres in H. cbn [obind] in H. injection H as <- <-. split; [by apply wf_set_type|].
    exists m1. split_and!; try done. right. split_and!; [done|by rewrite get_set_type|].
    intros a. unfold attr_of. rewrite get_set_type. apply Ha'.
Qed.

(** [memblock_isolate_range]: the address map does not change, and the
    returned index range is exactly the regions inside [[base, base + size)]. *)
Lemma isolate_range_safe ty base size m ret s e m' :
  wf m -> 0 <= base <= ULLONG_MAX -> 0 <= size ->
  memblock_isolate_range cfg dbl ty base size m = Ok (ret, s, e, m') ->
  wf m' /\ exists m1, wf m1 /\ same_memory m m1 /\ (settled ty 2 m -> m1 = m) /\
    ((ret = - ENOMEM /\ m' = m1) \/
     (ret = 0 /\ m' = set_type m1 ty (get_type m' ty) /\
      (forall a, attr_of m' ty a = attr_of m1 ty a) /\ same_slot (get_type m1 ty) (get_type m' ty) /\
      ((memblock_cap_size base size = 0 /\ s = 0%nat /\ e = 0%nat) \/
       isolated base (base + memblock_cap_size base size) (regions (get_type m' ty)) s e))).
Proof.
  intros Hwf Hb Hs H. unfold memblock_isolate_range in H.
  destruct (cap_size_bound base size Hb Hs) as [Hcap Hcap2].
  set (sz := memblock_cap_size base size) in *.
  rewrite (u64_small (base + sz)) in H by lia.
  destruct (sz =? 0) eqn:E0.
  { injection H as <- <- <- <-. split; [done|]. exists m. split_and!; try done. right.
    split_and!; try done; [by destruct m, ty|left; lia]. }
  obind_inv H. destruct a as [r1 m1].
  destruct (ensure_room_safe _ ty base sz 2 m r1 m1 Hwf ltac:(lia) ltac:(lia) ltac:(lia) Ha) as (Hwf1&Hsame1&Hfix1&_&Hr1).
  pose proof (wf_type m1 ty Hwf1) as Hok1. pose proof (limit_le ty).
  destruct (r1 <? 0) eqn:E2.
  { injection H as <- <- <- <-. split; [done|]. exists m1. split_and!; try done. left.
    destruct Hr1 as [[-> _]| ->]; [lia|done]. }
  destruct Hr1 as [[-> Hroom]| ->]; [|done].
  destruct (isolate_type_spec (limit ty) (get_type m1 ty) base (base + sz)) as (l'&s'&e'&Hl&Hok'&Ha'&_&_&Hiso); try done; try lia.
  rewrite Hl in H. cbn [obind] in H. injection H as <- <- <- <-. split; [by apply wf_set_type|].
  exists m1. split_and!; try done. right. unfold attr_of. rewrite !get_set_type. split_and!; try done. by right.
Qed.

Lemma remove_range_safe ty base size m r m' :
  wf m -> 0 <= base <= ULLONG_MAX -> 0 <= size ->
  memblock_remove_range cfg dbl ty base size m = Ok (r, m') ->
  wf m' /\ exists m1, wf m1 /\ same_memory m m1 /\ (settled ty 2 m -> m1 = m) /\
    ((r = - ENOMEM /\ m' = m1) \/
     (r = 0 /\ m' = set_type m1 ty (get_type m' ty) /\
      forall a, attr_of m' ty a = removed base (memblock_cap_size base size) (attr_of m1 ty) a)).
Proof.
  intros Hwf Hb Hs H. unfold memblock_remove_range in H. obind_inv H. destruct a as [[[ret s] e] m2].
  destruct (isolate_range_safe _ _ _ _ _ _ _ _ Hwf Hb Hs Ha) as (Hwf2&m1&Hwf1&Hsame&Hfix&[[-> ->]|(->&Hm2&Ha2&_&Hiso)]).
  { injection H as <- <-. split; [done|]. exists m1. auto 10. }
  cbn in H. injection H as <- <-.
  destruct Hiso as [(Hz&->&->)|Hiso].
  { cbn [Nat.sub remove_regions_loop]. split; [by apply wf_set_type, wf_type|]. exists m1. split_and!; try done. right.
    rewrite get_set_type. split_and!; [done|rewrite Hm2; by destruct ty|].
    intros a. unfold removed. rewrite <- Ha2. unfold attr_of. rewrite get_set_type. case_if; [lia|done]. }
  destruct (remove_type_spec (limit ty) (get_type m2 ty) base (base + memblock_cap_size base size) s e)
    as (Hok&_&_&Hattr); [apply limit_le|by apply wf_type|done|].
  split; [by apply wf_set_type|]. exists m1. split_and!; try done. right.
  rewrite get_set_type. split_and!; [done|rewrite Hm2; by destruct ty|].
  intros a. unfold attr_of at 1. rewrite get_set_type, Hattr. unfold removed. rewrite <- Ha2. done.
Qed.

End Client.

(** ** Growing: [memblock_double_array] implements the interface *)

Lemma page_align_bounds x : 0 <= x <= 2 ^ 40 -> x <= PAGE_ALIGN x <= x + 4095.
Proof.
  intros Hx. unfold PAGE_ALIGN, PAGE_SIZE, PAGE_SHIFT. change (Z.shiftl 1 12) with (2 ^ 12).
  rewrite (u64_small (x + _)) by (unfold ULLONG_MAX; lia).
  rewrite land_ones_compl by lia. pose proof (Z.mod_pos_bound (x + (2 ^ 12 - 1)) (2 ^ 12) ltac:(lia)). lia.
Qed.

Lemma free_block_bound m size align c : wf m -> free_block m size align c -> 0 < size -> c + size <= PHYS_LIMIT.
Proof.
  intros Hwf (Hc&_&(r&Hr&?&?)&_) Hs.
  destruct (ok_array _ _ (wf_memory _ Hwf)) as [(d&Hd&?&?)|[_ Hseg]].
  - rewrite Hd in Hr. apply list_elem_of_singleton in Hr as ->. lia.
  - apply (seg_region _ _ _ _ Hseg) in Hr. lia.
Qed.

(** The bytes of an array and of its double. *)
Lemma array_bytes hi t : type_ok hi t ->
  u64 (t_max t * sizeof_region cfg) = t_max t * sizeof_region cfg /\
  u64 (Z.shiftl (t_max t * sizeof_region cfg) 1) = 2 * (t_max t * sizeof_region cfg) /\
  u64 (Z.shiftl (t_max t) 1) = 2 * t_max t /\ 0 < t_max t * sizeof_region cfg <= PHYS_LIMIT.
Proof.
  intros []. pose proof sizeof_region_bounds. unfold PHYS_LIMIT in *.
  rewrite !Z.shiftl_mul_pow2 by lia. change (2 ^ 1) with 2.
  assert (0 < t_max t * sizeof_region cfg) by nia. assert (t_max t <= 2 ^ 35) by nia.
  rewrite !u64_small by (unfold ULLONG_MAX; lia). lia.
Qed.

Hypothesis Hkmalloc : kmalloc_bounded.

Lemma double_array_addr_spec ty start size new_size new_alloc_size m :
  wf m -> 0 <= start -> 0 <= size -> start + size <= ULLONG_MAX -> 0 < new_size <= new_alloc_size ->
  exists addr, double_array_addr cfg ty start size new_size new_alloc_size m = Ok addr /\
    (addr <> 0 -> 0 <= addr <= ULLONG_MAX /\ new_size <= PHYS_LIMIT /\
       (slab_is_available cfg = false -> free_block m new_alloc_size PAGE_SIZE addr)).
Proof.
  intros Hwf Hst Hsz Hend Hn. unfold double_array_addr.
  destruct (slab_is_available cfg) eqn:Hslab.
  { eexists. split; [done|]. intros Hne. destruct (Hkmalloc new_size) as [? Hle]. split; [done|]. split; [by apply Hle|done]. }
  pose proof (wf_limit _ Hwf).
  assert (Hfind : forall s e, 0 <= s <= ULLONG_MAX -> 0 <= e <= ULLONG_MAX ->
    exists addr, memblock_find_in_range cfg m s e new_alloc_size PAGE_SIZE = Ok addr /\
    (addr <> 0 -> 0 <= addr <= ULLONG_MAX /\ new_size <= PHYS_LIMIT /\
       (false = false -> free_block m new_alloc_size PAGE_SIZE addr))).
  { intros s e Hs He. destruct (find_in_range_spec m s e new_alloc_size 12 Hwf) as (c&Hc&Hfree); [lia..|].
    exists c. split; [done|]. intros Hne. destruct (Hfree Hne) as [Hfb _].
    pose proof (free_block_bound _ _ _ _ Hwf Hfb ltac:(lia)). pose proof (proj1 Hfb).
    split; [unfold PHYS_LIMIT, ULLONG_MAX in *; lia|]. split; [lia|done]. }
  destruct ty; cbv beta iota zeta.
  - destruct (Hfind (u64 (0 + 0)) (current_limit m)) as (a&->&Ha); [apply u64_range|lia|]. cbn [obind].
    rewrite Bool.andb_false_r. by exists a.
  - destruct (Hfind (u64 (start + size)) (current_limit m)) as (a&->&Ha); [apply u64_range|lia|]. cbn [obind].
    case_if; [apply Hfind; lia|by exists a].
Qed.

(** What [memblock_double_array] needs of the two callbacks that update
    [reserved] for the arrays themselves. *)
Definition reserve_safe (f : range_fn) : Prop := forall base size m r m',
  slab_is_available cfg = false -> wf m -> 0 <= base <= ULLONG_MAX -> 0 < size ->
  base + size <= ULLONG_MAX -> f base size m = Ok (r, m') ->
  wf m' /\ same_memory m m' /\ (r = 0 -> ~ dummy (regions (reserved m'))).

Definition free_safe (f : range_fn) : Prop := forall base size m r m',
  wf m -> 0 <= base <= ULLONG_MAX -> 0 <= size -> f base size m = Ok (r, m') ->
  wf m' /\ same_memory m m'.

Lemma wf_set_in_slab m ty b : wf m -> wf (set_in_slab m ty b).
Proof. intros []. by destruct ty. Qed.

Lemma same_memory_slab m ty b : same_memory m (set_in_slab m ty b).
Proof. by destruct ty. Qed.

Lemma double_array_safe reserve free :
  reserve_safe reserve -> free_safe free -> GrowSafe (memblock_double_array cfg reserve free).
Proof.
  intros Hres Hfree ty start size m r m' Hwf Hst Hsz Hend H. unfold memblock_double_array in H.
  destruct (memblock_can_resize m) eqn:Hcan; [cbn in H|by injection H as <- <-].
  pose proof (wf_type m ty Hwf) as Hok. destruct (array_bytes _ _ Hok) as (Hb1&Hb2&Hb3&Hb4).
  rewrite Hb1, Hb2, Hb3 in H. set (old := t_max (get_type m ty) * sizeof_region cfg) in *.
  pose proof (page_align_bounds old ltac:(unfold PHYS_LIMIT in *; lia)) as Hp1.
  pose proof (page_align_bounds (2 * old) ltac:(unfold PHYS_LIMIT in *; lia)) as Hp2.
  destruct (double_array_addr_spec ty start size (2 * old) (PAGE_ALIGN (2 * old)) m) as (addr&Haddr&Hspec); try done; try lia.
  rewrite Haddr in H. cbn [obind] in H. destruct (addr =? 0) eqn:Ez; [by injection H as <- <-|].
  destruct (Hspec ltac:(lia)) as (Ha1&Ha2&Ha3).
  set (m1 := set_type m ty _) in *.
  assert (Hwf1 : wf m1).
  { apply wf_set_type; [done|]. destruct Hok. constructor; simpl; try done; [unfold cnt in *; simpl; lia|lia|unfold old in *; lia]. }
  assert (Hsame1 : same_memory m m1) by (by destruct ty).
  obind_inv H. rename a into m2, Ha into Hm2.
  assert (wf m2 /\ same_memory m1 m2) as [Hwf2 Hsame2].
  { destruct (in_slab m ty); [by injection Hm2 as <-|]. destruct (t_array (get_type m ty)) as [|pa] eqn:Hold; [by injection Hm2 as <-|].
    obind_inv Hm2. destruct a as [r2 m2']. injection Hm2 as <-. apply (Hfree pa (PAGE_ALIGN old) m1 r2); [done| |lia|done].
    pose proof (ok_place _ _ Hok) as Hpl. by rewrite Hold in Hpl. }
  obind_inv H. rename a into m3, Ha into Hm3. injection H as <- <-.
  assert (wf m3 /\ same_memory m2 m3 /\
    (keeps_regions ty -> ~ dummy (regions (get_type m ty)) -> ~ dummy (regions (get_type m3 ty)))) as (Hwf3&Hsame3&Hk).
  { assert (Hmem : forall m3', same_memory m2 m3' -> ty = Memory -> ~ dummy (regions (get_type m ty)) ->
      ~ dummy (regions (get_type m3' ty))).
    { intros m3' Hs3 -> Hnd. simpl in *. by rewrite (same_regions _ _ Hs3), (same_regions _ _ Hsame2), (same_regions _ _ Hsame1). }
    destruct (slab_is_available cfg) eqn:Hslab.
    - injection Hm3 as <-. split_and!; try done. intros [->|?]; [by apply Hmem|congruence].
    - obind_inv Hm3. destruct a as [r3 m3']. unfold BUG_ON in Hm3. destruct (negb (r3 =? 0)) eqn:Er3; [done|]. injection Hm3 as <-.
      pose proof (free_block_bound _ _ _ _ Hwf (Ha3 eq_refl) ltac:(lia)).
      destruct (Hres addr (PAGE_ALIGN (2 * old)) m2 r3 m3' Hslab Hwf2 Ha1 ltac:(lia) ltac:(unfold PHYS_LIMIT, ULLONG_MAX in *; lia) Ha) as (?&?&Hr3).
      split_and!; try done. intros _ Hnd. destruct ty; [by apply Hmem|]. apply Hr3. lia. }
  split_and!.
  - by apply wf_set_in_slab.
  - do 3 (etransitivity; [eassumption|]). apply same_memory_slab.
  - done.
  - by destruct ty.
Qed.

Lemma reserve_region_safe dbl : GrowSafe dbl ->
  reserve_safe (fun base size => memblock_reserve_region cfg dbl base size (MAX_NUMNODES cfg) 0).
Proof.
  intros Hdbl base size m r m' Hslab Hwf Hb Hs Hbs H.
  destruct (add_range_safe dbl Reserved base size (MAX_NUMNODES cfg) 0 m r m') as (Hwf'&m1&Hwf1&Hsame&_&Hcase); try done; try lia.
  { by right. } { simpl. unfold memblock_cap_size. lia. }
  split; [done|]. destruct Hcase as [[-> ->]|(->&Hm'&Ha)].
  - split; [done|]. by intros ?.
  - split; [etransitivity; [done|]; rewrite Hm'; done|]. intros _ Hd.
    specialize (Ha base). unfold attr_of in Ha. simpl in Ha. rewrite (dummy_addr_attr cfg _ base Hd) in Ha.
    unfold added, memblock_cap_size in Ha. case_match; [done|]. case_match; [done|lia].
Qed.

Lemma free_range_safe dbl : GrowSafe dbl ->
  free_safe (fun base size => memblock_remove_range cfg dbl Reserved base size).
Proof.
  intros Hdbl base size m r m' Hwf Hb Hs H.
  destruct (remove_range_safe dbl Reserved base size m r m') as (Hwf'&m1&Hwf1&Hsame&_&[[-> ->]|(->&Hm'&Ha)]); try done.
  split; [done|]. etransitivity; [done|]. by rewrite Hm'.
Qed.

#[export] Instance double_array_n_safe n : GrowSafe (memblock_double_array_n cfg n).
Proof.
  induction n as [|n IH]; [done|].
  apply double_array_safe; [by apply reserve_region_safe|by apply free_range_safe].
Qed.

#[export] Instance grow_is_safe : GrowSafe (grow cfg).
Proof. apply double_array_n_safe. Qed.

End State.
