(* ===== verification/MemblockOps.v ===== *)
(** * MemblockOps: marking, searching, allocating

    The operations on flags and nodes, the binary search and the predicates
    built on it, and the allocation entry points: that they keep [wf], and that
    they return when no array has to grow ([settled]). *)

From S2P Require Import Prelude Memblock MemblockArray MemblockFind MemblockState.

Section Ops.
Context (cfg : memblock_config).

(** ** Marking an isolated range *)

Lemma imap_map {A} (g : nat -> A -> A) (f : A -> A) l :
  (forall i x, (i < length l)%nat -> g i x = f x) -> imap g l = map f l.
Proof.
  revert g. induction l as [|x l IH]; intros g Hg; [done|]. simpl. f_equal; [apply Hg; simpl; lia|].
  apply IH. intros i y Hi. apply Hg. simpl. lia.
Qed.

Lemma update_regions_app f l1 l2 l3 :
  update_regions f (length l1) (length l1 + length l2) (l1 ++ l2 ++ l3) = l1 ++ map f l2 ++ l3.
Proof.
  unfold update_regions. rewrite !imap_app. f_equal; [|f_equal].
  - rewrite <- (map_id l1) at 2. apply imap_map. intros i r Hi. case_if; [lia|done].
  - apply imap_map. intros i r Hi. simpl. case_if; [done|lia].
  - rewrite <- (map_id l3) at 2. apply imap_map. intros i r Hi. simpl. case_if; [lia|done].
Qed.

Section Mark.
Context (f : memblock_region -> memblock_region) (g : Z * Z -> Z * Z).
Hypothesis f_base : forall r, r_base (f r) = r_base r.
Hypothesis f_size : forall r, r_size (f r) = r_size r.
Hypothesis f_attr : forall r, attr cfg (f r) = g (attr cfg r).

Lemma map_seg lo hi l : seg lo hi l -> seg lo hi (map f l).
Proof. revert lo. induction l as [|r l IH]; intros lo; simpl; [done|]. rewrite f_base, f_size. naive_solver. Qed.

Lemma map_sum_size l : sum_size (map f l) = sum_size l.
Proof. induction l as [|r l IH]; simpl; [done|]. by rewrite f_size, IH. Qed.

Lemma map_addr_attr l a : addr_attr cfg (map f l) a = option_map g (addr_attr cfg l a).
Proof.
  induction l as [|r l IH]; simpl; [done|]. unfold covers. rewrite f_base, f_size, f_attr, IH. by case_if.
Qed.

(** The address map after marking [[base, base + size)]. *)
Definition marked (base size : Z) (h : Z -> option (Z * Z)) (a : Z) : option (Z * Z) :=
  if (base <=? a) && (a <? base + size) then option_map g (h a) else h a.

Lemma marked_attr base size l1 l2 l3 a :
  (forall r, r ∈ l2 -> base <= r_base r /\ r_base r + r_size r <= base + size) ->
  (forall r, r ∈ l1 ++ l3 -> r_base r + r_size r <= base \/ base + size <= r_base r) ->
  addr_attr cfg (l1 ++ map f l2 ++ l3) a = marked base size (addr_attr cfg (l1 ++ l2 ++ l3)) a.
Proof.
  intros H2 H13. unfold marked. rewrite !addr_attr_app, map_addr_attr.
  assert (Hout : (base <=? a) && (a <? base + size) = true ->
    addr_attr cfg l1 a = None /\ addr_attr cfg l3 a = None).
  { intros Ha. split; apply addr_attr_None; intros r Hr; unfold covers;
      (destruct (H13 r) as [?|?]; [apply elem_of_app; auto|lia|lia]). }
  case_if.
  - destruct Hout as [-> ->]; [done|]. by destruct (addr_attr cfg l2 a).
  - assert (addr_attr cfg l2 a = None) as ->; [|done].
    apply addr_attr_None. intros r Hr. specialize (H2 r Hr). unfold covers. lia.
Qed.

Lemma mark_type_spec hi t base size s e :
  hi <= ULLONG_MAX -> type_ok cfg hi t ->
  ((size = 0 /\ s = 0%nat /\ e = 0%nat) \/ isolated base (base + size) (regions t) s e) ->
  exists t', memblock_merge_regions cfg (set_regions t (update_regions f s e (regions t))) = Ok t' /\
    type_ok cfg hi t' /\ same_slot t t' /\ cnt t' <= cnt t /\
    forall a, addr_attr cfg (regions t') a = marked base size (addr_attr cfg (regions t)) a.
Proof.
  intros Hhi Hok Hiso.
  assert (exists l1 l2 l3, regions t = l1 ++ l2 ++ l3 /\
    update_regions f s e (regions t) = l1 ++ map f l2 ++ l3 /\
    forall a, addr_attr cfg (l1 ++ map f l2 ++ l3) a = marked base size (addr_attr cfg (regions t)) a)
    as (l1&l2&l3&Hl&Hu&Ha).
  { destruct Hiso as [(->&->&->)|(l1&l2&l3&Hl&->&->&H2&H13)].
    - exists [], [], (regions t). split_and!; [done|apply (update_regions_app f [] [] _)|].
      intros a. unfold marked. simpl. case_if; [lia|done].
    - exists l1, l2, l3. rewrite Hl. split_and!; [done|apply update_regions_app|].
      intros a. by apply marked_attr. }
  rewrite Hu. clear Hiso Hu. pose proof (ok_total _ _ _ Hok) as Htot. pose proof (ok_cnt _ _ _ Hok) as Hcnt.
  destruct (ok_array _ _ _ Hok) as [(d&Hd&Hb&Hs)|[Hne Hseg]].
  - assert (exists d', l1 ++ map f l2 ++ l3 = [d'] /\ r_base d' = 0 /\ r_size d' = 0) as (d'&Hd'&Hb'&Hs').
    { rewrite Hl in Hd. destruct l1 as [|? [|]], l2 as [|? [|]], l3 as [|? [|]]; try done; simpl in *; injection Hd as ->;
        eexists; split_and!; try done; rewrite ?f_base, ?f_size; done. }
    rewrite Hd' in Ha |- *. simpl. eexists. split_and!; [done| |by split| |done].
    + apply (type_ok_update cfg hi t); try done; [left; by exists d'| |].
      * simpl. rewrite Htot, Hd. simpl. lia.
      * unfold cnt in *. rewrite Hd in Hcnt. done.
    + unfold cnt. rewrite Hd. done.
  - rewrite Hl in Hseg, Htot. apply seg_app in Hseg as (x&Hs1&Hs23). apply seg_app in Hs23 as (y&Hs2&Hs3).
    destruct (merge_type_spec cfg hi (set_regions t (l1 ++ map f l2 ++ l3))) as (l'&->&?&?&Ha'&Hsum&Hlen&_); simpl.
    + done.
    + rewrite Hl in Hne. by destruct l1, l2, l3.
    + apply seg_app. exists x. split; [done|]. apply seg_app. exists y. split; [by apply map_seg|done].
    + simpl in *. assert (Hc : cnt (set_regions (set_regions t (l1 ++ map f l2 ++ l3)) l') <= cnt t).
      { unfold cnt. rewrite Hl. simpl. rewrite !length_app, length_map in *. lia. }
      eexists. split_and!; [done| |by split|done|intros a; by rewrite Ha'].
      apply (type_ok_update cfg hi t); try done; [by right| |lia].
      simpl. rewrite Hsum, Htot, !sum_size_app, map_sum_size. done.
Qed.

End Mark.

(** ** The binary search *)

Lemma search_loop_spec l addr : array_ok l -> forall n left right,
  0 <= left < right -> right <= Z.of_nat (length l) -> right - left < Z.of_nat n ->
  (forall i r, l !! i = Some r -> Z.of_nat i < left -> r_base r + r_size r <= addr) ->
  (forall i r, l !! i = Some r -> right <= Z.of_nat i -> addr < r_base r) ->
  exists res, memblock_search_loop n l addr left right = Ok res /\
    match res with
    | Some i => exists r, l !! i = Some r /\ covers r addr = true
    | None => forall r, r ∈ l -> covers r addr = false
    end.
Proof.
  intros Hok. induction n as [|n IH]; intros left right Hlr Hlen Hn Hlo Hhi; [lia|]. cbn [memblock_search_loop].
  set (mid := (right + left) / 2).
  assert (Hmid : left <= mid < right) by (unfold mid; split; [apply Z.div_le_lower_bound|apply Z.div_lt_upper_bound]; lia).
  destruct (lookup_lt_is_Some_2 l (Z.to_nat mid)) as [r Hr]; [lia|]. rewrite Hr.
  destruct (array_ok_region _ _ _ Hok Hr) as (_&_&Hend&_). rewrite Hend.
  assert (Hsorted : forall i j ri rj, l !! i = Some ri -> l !! j = Some rj -> (i < j)%nat -> r_base ri + r_size ri <= r_base rj)
    by (intros; eapply array_ok_sorted; eauto).
  assert (Hpos : forall i ri, l !! i = Some ri -> 0 <= r_size ri) by (intros i ri Hi; apply (array_ok_region _ _ _ Hok Hi)).
  assert (Hbelow : r_base r + r_size r <= addr -> forall i ri, l !! i = Some ri -> Z.of_nat i < mid + 1 -> r_base ri + r_size ri <= addr).
  { intros Ha i ri Hi Hlt. destruct (decide (i = Z.to_nat mid)) as [->|]; [congruence|].
    pose proof (Hsorted i (Z.to_nat mid) ri r Hi Hr ltac:(lia)). pose proof (Hpos _ _ Hr). lia. }
  assert (Habove : addr < r_base r -> forall i ri, l !! i = Some ri -> mid <= Z.of_nat i -> addr < r_base ri).
  { intros Ha i ri Hi Hlt. destruct (decide (i = Z.to_nat mid)) as [->|]; [congruence|].
    pose proof (Hsorted (Z.to_nat mid) i r ri Hr Hi ltac:(lia)). pose proof (Hpos _ _ Hr). lia. }
  case_if; [case_if; [apply IH; [lia..|done|apply Habove; lia]|]
           |case_if; [case_if; [apply IH; [lia..|apply Hbelow; lia|done]|]|]].
  - exists None. split; [done|]. intros x (i&Hi)%list_elem_of_lookup. unfold covers.
    destruct (decide (Z.of_nat i < left)); [specialize (Hlo _ _ Hi); lia|specialize (Habove ltac:(lia) _ _ Hi); lia].
  - exists None. split; [done|]. intros x (i&Hi)%list_elem_of_lookup. unfold covers.
    destruct (decide (right <= Z.of_nat i)); [specialize (Hhi _ _ Hi); lia|specialize (Hbelow ltac:(lia) _ _ Hi); lia].
  - exists (Some (Z.to_nat mid)). split; [done|]. exists r. split; [done|]. unfold covers. lia.
Qed.

Lemma search_spec t addr : array_ok (regions t) ->
  exists res, memblock_search t addr = Ok res /\
    match res with
    | Some i => exists r, regions t !! i = Some r /\ covers r addr = true
    | None => forall r, r ∈ regions t -> covers r addr = false
    end.
Proof.
  intros Hok. pose proof (array_ok_length _ Hok). unfold memblock_search, cnt. apply search_loop_spec; try done; try lia.
  intros i r Hi%lookup_lt_Some. lia.
Qed.

(** ** No growing: before [memblock_allow_resize], or with room in the array *)

(** With room [memblock_double_array] is not called. Before
    [memblock_allow_resize] it refuses at once, so a full array makes the caller
    return [-ENOMEM]; nothing can hit a [BUG_ON]. *)
Lemma ensure_room_settled ty base size extra m : settled ty extra m ->
  ensure_room grow_fuel (grow cfg) ty base size extra m =
    Ok (if t_max (get_type m ty) <? cnt (get_type m ty) + extra then - ENOMEM else 0, m).
Proof.
  intros Hset. unfold grow_fuel. cbn [ensure_room]. case_match eqn:E; [|done]. destruct Hset as [Hr|?]; [|lia].
  unfold grow, grow_depth. cbn [memblock_double_array_n]. unfold memblock_double_array. by rewrite Hr.
Qed.

Lemma add_range_settled ty base size nid flags m :
  let need := nr_fill cfg (base + memblock_cap_size base size) nid flags base (regions (get_type m ty)) in
  wf cfg m -> settled ty need m -> 0 <= base <= ULLONG_MAX -> 0 <= size ->
  base + memblock_cap_size base size <= limit ty ->
  exists r m', memblock_add_range cfg (grow cfg) ty base size nid flags m = Ok (r, m') /\
    memblock_can_resize m' = memblock_can_resize m /\
    t_max (get_type m' ty) = t_max (get_type m ty) /\ cnt (get_type m' ty) <= cnt (get_type m ty) + need /\
    (r = 0 \/ (r = - ENOMEM /\ m' = m /\ t_max (get_type m ty) < cnt (get_type m ty) + need)).
Proof.
  intros need Hwf Hset Hb Hs Hend. unfold memblock_add_range.
  destruct (cap_size_bound base size Hb Hs) as [Hcap Hcap2]. set (sz := memblock_cap_size base size) in *.
  assert (Hneed : 0 <= need) by apply nr_fill_nonneg. rewrite (u64_small (base + sz)) by lia.
  destruct (sz =? 0) eqn:E0; [exists 0, m; split_and!; (done || lia || by left)|].
  pose proof (wf_type cfg m ty Hwf) as Hok. pose proof (limit_le ty) as Hlim.
  pose proof (array_ok_length _ (wf_array cfg m ty Hwf)) as Hlen.
  destruct (regions (get_type m ty)) as [|r0 rest] eqn:Hreg; [simpl in Hlen; lia|].
  destruct (r_size r0 =? 0) eqn:E1.
  { do 2 eexists. split; [done|]. rewrite get_set_type. unfold cnt. rewrite Hreg. cbn [regions t_max length]. split_and!; [by destruct ty|done|lia|by left]. }
  assert (Hnd : ~ dummy (regions (get_type m ty))) by (intros (d&Hd&?&?); rewrite Hreg in Hd; injection Hd as -> ->; lia).
  destruct (ok_array _ _ _ Hok) as [?|[_ Hseg]]; [done|].
  unfold add_range_pass at 1.
  pose proof (add_pass_count cfg (base + sz) nid flags (regions (get_type m ty)) [] (get_type m ty) base 0 0 eq_refl
    ltac:(lia) ltac:(eapply seg_weaken; [apply Hseg|lia|lia])) as Hc. simpl length in Hc. rewrite Hc. clear Hc. cbn [obind].
  rewrite Hreg, Z.add_0_l. fold need. rewrite ensure_room_settled by done. cbn [obind].
  destruct (t_max (get_type m ty) <? _) eqn:Hroom;
    [change (- ENOMEM <? 0) with true|change (0 <? 0) with false]; cbv iota.
  { do 2 eexists. split; [done|]. split_and!; [done|done|lia|right; split_and!; (done || lia)]. }
  destruct (add_type_spec cfg (limit ty) (get_type m ty) base (base + sz) nid flags) as [[_ Hbad]|(t'&Hres&_&[Hmax _]&_&_&Hcnt&_)];
    try done; rewrite ?Hreg in *; try (fold need in Hbad); try lia.
  destruct (add_range_pass cfg true (get_type m ty) base (base + sz) nid flags) as [[t1 n1]| |]; cbn [obind] in *; try done.
  rewrite Hres. cbn [obind]. do 2 eexists. split; [done|]. rewrite get_set_type. split_and!; [by destruct ty|done|done|by left].
Qed.

Lemma add_range_fixed ty base size nid flags m :
  wf cfg m -> memblock_can_resize m = false -> 0 <= base <= ULLONG_MAX -> 0 <= size ->
  base + memblock_cap_size base size <= limit ty ->
  exists r m', memblock_add_range cfg (grow cfg) ty base size nid flags m = Ok (r, m') /\ memblock_can_resize m' = false.
Proof.
  intros Hwf Hr Hb Hs Hend. destruct (add_range_settled ty base size nid flags m) as (r&m'&?&Hr'&_); try done; [by left|].
  exists r, m'. by rewrite Hr'.
Qed.

Lemma isolate_range_settled ty base size m :
  wf cfg m -> settled ty 2 m -> 0 <= base <= ULLONG_MAX -> 0 <= size ->
  exists r s e m', memblock_isolate_range cfg (grow cfg) ty base size m = Ok (r, s, e, m') /\
    memblock_can_resize m' = memblock_can_resize m /\ (r = 0 \/ (r = - ENOMEM /\ t_max (get_type m ty) < cnt (get_type m ty) + 2)).
Proof.
  intros Hwf Hset Hb Hs. unfold memblock_isolate_range.
  destruct (cap_size_bound base size Hb Hs) as [Hcap Hcap2]. set (sz := memblock_cap_size base size) in *.
  rewrite (u64_small (base + sz)) by lia. destruct (sz =? 0) eqn:E0; [eauto 10|].
  rewrite ensure_room_settled by done. cbn [obind].
  destruct (t_max (get_type m ty) <? _) eqn:Hroom; cbn; [do 4 eexists; split_and!; [done|done|right; split; (done || lia)]|].
  destruct (isolate_type_spec cfg (limit ty) (get_type m ty) base (base + sz)) as (l'&s&e&Hl&_);
    [apply limit_le|by apply wf_type|lia|lia|lia|].
  rewrite Hl. cbn [obind]. do 4 eexists. split; [done|]. split; [by destruct ty|by left].
Qed.

Lemma remove_range_settled ty base size m :
  wf cfg m -> settled ty 2 m -> 0 <= base <= ULLONG_MAX -> 0 <= size ->
  exists r m', memblock_remove_range cfg (grow cfg) ty base size m = Ok (r, m') /\ memblock_can_resize m' = memblock_can_resize m /\
    (r = 0 \/ (r = - ENOMEM /\ t_max (get_type m ty) < cnt (get_type m ty) + 2)).
Proof.
  intros Hwf Hset Hb Hs. unfold memblock_remove_range.
  destruct (isolate_range_settled ty base size m Hwf Hset Hb Hs) as (r&s&e&m1&->&Hr1&Hcase). cbn [obind].
  destruct Hcase as [->|[-> ?]]; cbn; do 2 eexists; (split; [done|]); [|auto]. split; [|by left]. rewrite <- Hr1. by destruct ty.
Qed.

Lemma remove_range_fixed ty base size m :
  wf cfg m -> memblock_can_resize m = false -> 0 <= base <= ULLONG_MAX -> 0 <= size ->
  exists r m', memblock_remove_range cfg (grow cfg) ty base size m = Ok (r, m') /\ memblock_can_resize m' = false.
Proof.
  intros Hwf Hr Hb Hs. destruct (remove_range_settled ty base size m) as (r&m'&?&Hr'&_); try done; [by left|]. exists r, m'. by rewrite Hr'.
Qed.

(** ** Flags and nodes: the common shape of the two operations *)

Definition mark_range (f : memblock_region -> memblock_region) (ty : mtype) (base size : Z) (m : memblock)
    : outcome (Z * memblock) :=
  let* (ret, start_rgn, end_rgn, m) := memblock_isolate_range cfg (grow cfg) ty base size m in
  if negb (ret =? 0) then Ok (ret, m)
  else
    let t := get_type m ty in
    let* t' := memblock_merge_regions cfg
                 (set_regions t (update_regions f start_rgn end_rgn (regions t))) in
    Ok (0, set_type m ty t').

Definition flag_fn (set : bool) (flag : Z) (r : memblock_region) : memblock_region :=
  if set then memblock_set_region_flags r flag else memblock_clear_region_flags r flag.

Definition flag_attr (set : bool) (flag : Z) (x : Z * Z) : Z * Z :=
  (x.1, if set then Z.lor x.2 flag else Z.land x.2 (u64 (Z.lnot flag))).

Definition node_attr (nid : Z) (x : Z * Z) : Z * Z :=
  (if HAVE_MEMBLOCK_NODE_MAP cfg then nid else x.1, x.2).

Lemma setclr_is_mark base size set flag m :
  memblock_setclr_flag cfg base size set flag m = mark_range (flag_fn set flag) Memory base size m.
Proof. reflexivity. Qed.

Lemma set_node_is_mark base size ty nid m :
  memblock_set_node cfg base size ty nid m =
    mark_range (fun r => memblock_set_region_node cfg r nid) ty base size m.
Proof. reflexivity. Qed.

Lemma flag_fn_attr set flag r : attr cfg (flag_fn set flag r) = flag_attr set flag (attr cfg r).
Proof. unfold flag_fn, flag_attr, attr, memblock_get_region_node. by destruct set, (HAVE_MEMBLOCK_NODE_MAP cfg). Qed.

Lemma node_fn_attr nid r : attr cfg (memblock_set_region_node cfg r nid) = node_attr nid (attr cfg r).
Proof.
  unfold node_attr, attr, memblock_get_region_node, memblock_set_region_node.
  by destruct (HAVE_MEMBLOCK_NODE_MAP cfg).
Qed.

Section MarkState.
Context (f : memblock_region -> memblock_region) (g : Z * Z -> Z * Z).
Hypothesis f_base : forall r, r_base (f r) = r_base r.
Hypothesis f_size : forall r, r_size (f r) = r_size r.
Hypothesis f_attr : forall r, attr cfg (f r) = g (attr cfg r).

Lemma mark_range_safe ty base size m r m' :
  kmalloc_bounded cfg -> wf cfg m -> 0 <= base <= ULLONG_MAX -> 0 <= size ->
  mark_range f ty base size m = Ok (r, m') ->
  wf cfg m' /\ exists m1, wf cfg m1 /\ same_memory m m1 /\ (settled ty 2 m -> m1 = m) /\
    ((r = - ENOMEM /\ m' = m1) \/
     (r = 0 /\ m' = set_type m1 ty (get_type m' ty) /\
      forall a, attr_of cfg m' ty a = marked g base (memblock_cap_size base size) (attr_of cfg m1 ty) a)).
Proof.
  intros Hk Hwf Hb Hs H. unfold mark_range in H. obind_inv H. destruct a as [[[ret s] e] m2].
  pose proof (grow_is_safe cfg Hk) as Hgrow.
  destruct (isolate_range_safe cfg _ ty base size m ret s e m2 Hwf Hb Hs Ha)
    as (Hwf2&m1&Hwf1&Hsame&Hfix&[[-> ->]|(->&Hm2&Ha2&_&Hiso)]).
  { injection H as <- <-. split; [done|]. exists m1. auto 10. }
  cbn in H. obind_inv H. injection H as <- <-.
  destruct (mark_type_spec f g f_base f_size f_attr (limit ty) (get_type m2 ty) base (memblock_cap_size base size) s e)
    as (t'&Ht'&Hok'&_&_&Hattr); [apply limit_le|by apply wf_type|done|].
  rewrite Ht' in Ha0. injection Ha0 as <-. split; [by apply wf_set_type|]. exists m1. split_and!; try done. right.
  rewrite get_set_type. split_and!; [done|rewrite Hm2; by destruct ty|].
  intros a. unfold attr_of at 1. rewrite get_set_type, Hattr. unfold marked. rewrite <- Ha2. done.
Qed.

Lemma mark_range_settled ty base size m :
  wf cfg m -> settled ty 2 m -> kmalloc_bounded cfg -> 0 <= base <= ULLONG_MAX -> 0 <= size ->
  exists r m', mark_range f ty base size m = Ok (r, m') /\ memblock_can_resize m' = memblock_can_resize m /\
    (r = 0 \/ (r = - ENOMEM /\ t_max (get_type m ty) < cnt (get_type m ty) + 2)).
Proof.
  intros Hwf Hset Hk Hb Hs. unfold mark_range. pose proof (grow_is_safe cfg Hk) as Hgrow.
  destruct (isolate_range_settled ty base size m Hwf Hset Hb Hs) as (r&s&e&m2&Ha&Hr2&Hcase). rewrite Ha. cbn [obind].
  destruct (isolate_range_safe cfg _ ty base size m r s e m2 Hwf Hb Hs Ha)
    as (Hwf2&m1&_&_&_&[[-> _]|(->&_&_&_&Hiso)]); [cbn; exists (- ENOMEM), m2; auto|]. cbn.
  destruct (mark_type_spec f g f_base f_size f_attr (limit ty) (get_type m2 ty) base (memblock_cap_size base size) s e)
    as (t'&->&_); [apply limit_le|by apply wf_type|done|].
  cbn. do 2 eexists. split; [done|]. split; [rewrite <- Hr2; by destruct ty|by left].
Qed.

Lemma mark_range_fixed ty base size m :
  wf cfg m -> memblock_can_resize m = false -> kmalloc_bounded cfg -> 0 <= base <= ULLONG_MAX -> 0 <= size ->
  exists r m', mark_range f ty base size m = Ok (r, m') /\ memblock_can_resize m' = false.
Proof.
  intros Hwf Hr ? ? ?. destruct (mark_range_settled ty base size m) as (r&m'&?&Hr'&_); try done; [by left|]. exists r, m'. by rewrite Hr'.
Qed.

End MarkState.

(** ** Allocating *)

(** A free range costs one array slot. *)
Lemma nr_fill_free base end_ nid flags l lo hi :
  seg lo hi l -> base < end_ -> (forall a, base <= a < end_ -> addr_attr cfg l a = None) ->
  nr_fill cfg end_ nid flags base l = 1.
Proof.
  revert lo. induction l as [|r l IH]; intros lo Hseg Hlt Hfree; unfold nr_fill; simpl; [case_ifs; done|].
  destruct Hseg as (?&?&Hseg).
  assert (Hr : end_ <= r_base r \/ r_base r + r_size r <= base).
  { destruct (decide (end_ <= r_base r)); [by left|]. destruct (decide (r_base r + r_size r <= base)); [by right|].
    specialize (Hfree (Z.max base (r_base r)) ltac:(lia)). simpl in Hfree. unfold covers in Hfree.
    case_match; [done|lia]. }
  case_if; [case_if; [simpl; lia|lia]|]. case_if; [|lia]. simpl.
  assert (Hl : nr_fill cfg end_ nid flags base l = 1).
  { eapply IH; [done|done|]. intros a Ha. specialize (Hfree a Ha). simpl in Hfree. by case_match. }
  unfold nr_fill in Hl. lia.
Qed.

Definition align_ok (align : Z) : Prop := align = 0 \/ exists k, 0 <= k <= 63 /\ align = 2 ^ k.
Definition eff_align (align : Z) : Z := if align =? 0 then SMP_CACHE_BYTES else align.

Lemma eff_align_pow2 align : align_ok align -> exists k, 0 <= k <= 63 /\ eff_align align = 2 ^ k.
Proof.
  intros [->|(k&?&->)]; [exists 7; split; [lia|done]|]. exists k. split; [done|]. unfold eff_align.
  destruct (2 ^ k =? 0) eqn:E; [lia|done].
Qed.

Hypothesis early : slab_is_available cfg = false.
Hypothesis Hkmalloc : kmalloc_bounded cfg.

(** Reserving a block: it is reserved afterwards, the memory is as before. *)
Lemma reserve_safe_state base size m r m' :
  wf cfg m -> 0 <= base <= ULLONG_MAX -> 0 <= size -> memblock_reserve cfg base size m = Ok (r, m') ->
  wf cfg m' /\ same_memory m m' /\
  (r = 0 -> forall a, base <= a < base + memblock_cap_size base size -> attr_of cfg m' Reserved a <> None).
Proof.
  intros Hwf Hb Hs H. pose proof (grow_is_safe cfg Hkmalloc) as Hgrow.
  destruct (add_range_safe cfg (grow cfg) Reserved base size (MAX_NUMNODES cfg) 0 m r m')
    as (Hwf'&m1&Hwf1&Hsame&_&Hcase); try done; [by right|apply cap_size_bound; lia|].
  split; [done|]. destruct Hcase as [[-> ->]|(->&Hm'&Ha)]; [by split|].
  split; [etransitivity; [done|]; by rewrite Hm'|]. intros _ a Hin. rewrite Ha. unfold added.
  destruct (attr_of cfg m1 Reserved a); [done|]. case_if; [done|lia].
Qed.

Lemma free_block_cap m size align c :
  wf cfg m -> free_block cfg m size align c -> 0 < size ->
  0 <= c <= ULLONG_MAX /\ memblock_cap_size c size = size /\ c + size <= ULLONG_MAX.
Proof.
  intros Hwf Hf Hs. pose proof (free_block_bound cfg _ _ _ _ Hwf Hf Hs). pose proof (proj1 Hf).
  unfold memblock_cap_size, PHYS_LIMIT, ULLONG_MAX in *. lia.
Qed.

Lemma alloc_range_nid_safe size align start end_ nid flags m a m' :
  wf cfg m -> 0 < size -> align_ok align -> 0 <= start <= ULLONG_MAX -> 0 <= end_ <= ULLONG_MAX ->
  memblock_alloc_range_nid cfg size align start end_ nid flags m = Ok (a, m') ->
  wf cfg m' /\ same_memory m m' /\
  (a <> 0 -> usable cfg m (fix_nid cfg nid) flags (window_start start) (window_end m start end_)
               size (eff_align align) a /\
     forall x, a <= x < a + size -> attr_of cfg m' Reserved x <> None).
Proof.
  intros Hwf Hs Hal Hst Hen H. unfold memblock_alloc_range_nid in H. fold (eff_align align) in H.
  destruct (eff_align_pow2 align Hal) as (k&Hk&Hek). rewrite Hek in *.
  destruct (find_in_range_node_spec cfg m size k start end_ nid flags Hwf Hs Hk Hst Hen) as (c&Hc&Hcase).
  rewrite Hc in H. cbn [obind] in H.
  destruct Hcase as [[Hne Hu]|[-> _]]; [|cbn in H; injection H as <- <-; split_and!; done].
  pose proof (usable_free_block _ _ _ _ _ _ _ _ _ (window_start_pos start) Hu) as Hf.
  destruct (free_block_cap _ _ _ _ Hwf Hf Hs) as (?&Hcap&?).
  destruct (c =? 0) eqn:E; [lia|]. cbn in H. obind_inv H. destruct a0 as [r m1].
  destruct (reserve_safe_state c size m r m1 Hwf ltac:(lia) ltac:(lia) Ha) as (Hwf1&Hsame1&Hres).
  case_match eqn:Er; injection H as <- <-; split_and!; try done.
  intros _. split; [done|]. intros x Hx. apply Hres; lia.
Qed.

(** Recording a free block costs one slot. *)
Lemma alloc_need m size align c : wf cfg m -> free_block cfg m size align c -> 0 < size ->
  nr_fill cfg (c + memblock_cap_size c size) (MAX_NUMNODES cfg) 0 c (regions (get_type m Reserved)) = 1.
Proof.
  intros Hwf Hf Hs. destruct (free_block_cap _ _ _ _ Hwf Hf Hs) as (?&->&?). cbn [get_type].
  destruct (ok_array _ _ _ (wf_reserved _ _ Hwf)) as [(d&->&Hb&Hd)|[_ Hseg]].
  - unfold nr_fill. simpl. rewrite Hb, Hd. case_ifs; simpl; lia.
  - apply (nr_fill_free _ _ _ _ _ _ _ Hseg); [lia|]. apply Hf.
Qed.

(** Without growing the allocator is total, and it fails only when there is no
    eligible block or no slot left to record one. *)
Lemma alloc_range_nid_settled size align start end_ nid flags m :
  wf cfg m -> settled Reserved 1 m ->
  0 < size -> align_ok align -> 0 <= start <= ULLONG_MAX -> 0 <= end_ <= ULLONG_MAX ->
  exists a m', memblock_alloc_range_nid cfg size align start end_ nid flags m = Ok (a, m') /\
    memblock_can_resize m' = memblock_can_resize m /\ t_max (reserved m') = t_max (reserved m) /\ cnt (reserved m') <= cnt (reserved m) + 1 /\
    (a = 0 -> (forall c, ~ usable cfg m (fix_nid cfg nid) flags (window_start start) (window_end m start end_)
                           size (eff_align align) c) \/ t_max (reserved m) <= cnt (reserved m)).
Proof.
  intros Hwf Hset Hs Hal Hst Hen. unfold memblock_alloc_range_nid. fold (eff_align align).
  destruct (eff_align_pow2 align Hal) as (k&Hk&Hek). rewrite Hek in *.
  destruct (find_in_range_node_spec cfg m size k start end_ nid flags Hwf Hs Hk Hst Hen) as (c&->&Hcase). cbn [obind].
  destruct Hcase as [[Hne Hu]|[-> Hno]]; [|cbn; exists 0, m; split_and!; (done || lia || by left)].
  pose proof (usable_free_block _ _ _ _ _ _ _ _ _ (window_start_pos start) Hu) as Hf.
  destruct (free_block_cap _ _ _ _ Hwf Hf Hs) as (?&Hcap&?). pose proof (alloc_need _ _ _ _ Hwf Hf Hs) as Hneed.
  destruct (c =? 0) eqn:E; [lia|]. cbn.
  destruct (add_range_settled Reserved c size (MAX_NUMNODES cfg) 0 m) as (r&m1&Hadd&Hr1&Hmax&Hcnt&Hfull); rewrite ?Hneed in *; try done; try lia.
  { simpl. lia. }
  unfold memblock_reserve, memblock_reserve_region. rewrite Hadd. cbn [obind]. cbn [get_type] in *.
  destruct Hfull as [->|(->&->&Hfull)]; cbn; [exists c, m1|exists 0, m]; split_and!; (done || lia || by right; lia).
Qed.

Lemma alloc_range_nid_fixed size align start end_ nid flags m :
  wf cfg m -> memblock_can_resize m = false ->
  0 < size -> align_ok align -> 0 <= start <= ULLONG_MAX -> 0 <= end_ <= ULLONG_MAX ->
  exists a m', memblock_alloc_range_nid cfg size align start end_ nid flags m = Ok (a, m') /\ memblock_can_resize m' = false.
Proof.
  intros Hwf Hr ? ? ? ?. destruct (alloc_range_nid_settled size align start end_ nid flags m) as (a&m'&?&Hr'&_); try done; [by left|].
  exists a, m'. by rewrite Hr'.
Qed.

Lemma clear_mirror_clear flags : Z.land (clear_mirror flags) MEMBLOCK_MIRROR = 0.
Proof. unfold clear_mirror. rewrite <- Z.land_assoc. apply Z.land_0_r. Qed.

Section VirtAlloc.
Context (m : memblock) (size k max_addr nid : Z).
Hypothesis Hwf : wf cfg m.
Hypothesis Hsize : 0 < size.
Hypothesis Hk : 0 <= k <= 63.
Hypothesis Hmax : 0 <= max_addr <= ULLONG_MAX.

Lemma virt_alloc_find_spec min_addr flags : 0 <= min_addr <= ULLONG_MAX ->
  exists c, virt_alloc_find cfg m size (2 ^ k) min_addr max_addr nid flags = Ok c /\
    (c <> 0 -> free_block cfg m size (2 ^ k) c).
Proof.
  intros Hmin. unfold virt_alloc_find.
  assert (Hnode : forall nid', exists c,
    memblock_find_in_range_node cfg m size (2 ^ k) min_addr max_addr nid' flags = Ok c /\
    (c <> 0 -> free_block cfg m size (2 ^ k) c)).
  { intros nid'. destruct (find_in_range_node_spec cfg m size k min_addr max_addr nid' flags) as (c&->&[[? Hu]|[-> _]]);
      try done; eexists; split; try done. intros _. eapply usable_free_block; [apply window_start_pos|done]. }
  destruct (Hnode nid) as (c&->&Hc). cbn [obind]. case_if; [by exists c|]. case_if; [apply Hnode|]. exists 0. split; [done|lia].
Qed.

(** The retries drop [min_addr] and the mirror flag once each. *)
Lemma virt_alloc_loop_spec min_addr flags : 0 <= min_addr <= ULLONG_MAX ->
  exists c, virt_alloc_loop cfg 3 m size (2 ^ k) min_addr max_addr nid flags = Ok c /\
    (c <> 0 -> free_block cfg m size (2 ^ k) c).
Proof.
  intros Hmin.
  assert (H1 : forall n flags, Z.land flags MEMBLOCK_MIRROR = 0 -> exists c,
    virt_alloc_loop cfg (S n) m size (2 ^ k) 0 max_addr nid flags = Ok c /\ (c <> 0 -> free_block cfg m size (2 ^ k) c)).
  { intros n fl Hfl. cbn [virt_alloc_loop]. destruct (virt_alloc_find_spec 0 fl) as (c&->&Hc); [unfold ULLONG_MAX; lia|].
    cbn [obind]. case_if; [by exists c|]. rewrite Hfl. cbn. exists 0. split; [done|lia]. }
  assert (H2 : forall n flags, exists c, virt_alloc_loop cfg (S (S n)) m size (2 ^ k) 0 max_addr nid flags = Ok c /\
    (c <> 0 -> free_block cfg m size (2 ^ k) c)).
  { intros n fl. remember (S n) as n'. cbn [virt_alloc_loop]. destruct (virt_alloc_find_spec 0 fl) as (c&->&Hc);
      [unfold ULLONG_MAX; lia|]. cbn [obind]. case_if; [by exists c|]. cbn. case_if; [|exists 0; split; [done|lia]].
    subst n'. apply H1, clear_mirror_clear. }
  remember 2%nat as two. cbn [virt_alloc_loop]. destruct (virt_alloc_find_spec min_addr flags Hmin) as (c&->&Hc).
  cbn [obind]. case_if; [by exists c|]. subst two. case_if; [apply H2|]. case_if; [|exists 0; split; [done|lia]].
  replace min_addr with 0 by lia. apply H1, clear_mirror_clear.
Qed.

End VirtAlloc.

(** [memblock_virt_alloc_internal] gives out a block of free memory, reserves
    it (the code ignores that this can fail) and never fails otherwise. *)
Lemma virt_alloc_internal_safe size align min_addr max_addr nid m a m' :
  wf cfg m -> 0 < size -> align_ok align -> 0 <= min_addr <= ULLONG_MAX -> 0 <= max_addr <= ULLONG_MAX ->
  memblock_virt_alloc_internal cfg size align min_addr max_addr nid m = Ok (a, m') ->
  wf cfg m' /\ same_memory m m' /\ (a <> 0 -> free_block cfg m size (eff_align align) a).
Proof.
  intros Hwf Hs Hal Hmin Hmax H. unfold memblock_virt_alloc_internal in H. rewrite early in H.
  fold (eff_align align) in H. destruct (eff_align_pow2 align Hal) as (k&Hk&Hek). rewrite Hek in *.
  set (mx := if current_limit m <? max_addr then current_limit m else max_addr) in *.
  pose proof (wf_limit _ _ Hwf).
  destruct (virt_alloc_loop_spec m size k mx (fix_nid cfg nid) Hwf Hs Hk ltac:(unfold mx; case_if; lia)
              min_addr (choose_memblock_flags m) Hmin) as (c&Hc&Hf).
  rewrite Hc in H. cbn [obind] in H. destruct (c =? 0) eqn:E; [injection H as <- <-; split_and!; done|].
  obind_inv H. destruct a0 as [r m1]. injection H as <- <-.
  destruct (free_block_cap _ _ _ _ Hwf (Hf ltac:(lia)) Hs) as (?&Hcap&?).
  destruct (reserve_safe_state c size m r m1 Hwf ltac:(lia) ltac:(lia) Ha) as (?&?&_). auto.
Qed.

Lemma virt_alloc_internal_fixed size align min_addr max_addr nid m :
  wf cfg m -> memblock_can_resize m = false ->
  0 < size -> align_ok align -> 0 <= min_addr <= ULLONG_MAX -> 0 <= max_addr <= ULLONG_MAX ->
  exists a m', memblock_virt_alloc_internal cfg size align min_addr max_addr nid m = Ok (a, m') /\
    memblock_can_resize m' = false.
Proof.
  intros Hwf Hr Hs Hal Hmin Hmax. unfold memblock_virt_alloc_internal. rewrite early.
  fold (eff_align align). destruct (eff_align_pow2 align Hal) as (k&Hk&Hek). rewrite Hek in *.
  set (mx := if current_limit m <? max_addr then current_limit m else max_addr) in *.
  pose proof (wf_limit _ _ Hwf).
  destruct (virt_alloc_loop_spec m size k mx (fix_nid cfg nid) Hwf Hs Hk ltac:(unfold mx; case_if; lia)
              min_addr (choose_memblock_flags m) Hmin) as (c&->&Hf).
  cbn [obind]. destruct (c =? 0) eqn:E; [eauto|].
  destruct (free_block_cap _ _ _ _ Hwf (Hf ltac:(lia)) Hs) as (?&Hcap&?).
  destruct (add_range_fixed Reserved c size (MAX_NUMNODES cfg) 0 m) as (r&m1&Hadd&Hr1); try done; [lia|simpl; lia|].
  unfold memblock_reserve, memblock_reserve_region. rewrite Hadd. cbn. eauto.
Qed.

End Ops.
