(* ===== verification/MemblockProps.v ===== *)
(** * MemblockProps: what the early allocator guarantees

    The entry points of [mm/memblock.c] as the operations of a transition
    system, and the theorems about them. Before [memblock_allow_resize] every
    history runs to completion and keeps the invariant; a call that does not have
    to grow an array has exactly its effect on the address map. Nothing is
    claimed of a call that grows an array, which may fail a [BUG_ON] or put the
    two arrays on top of each other: that and two more places where the code
    departs from what its comments or its own bookkeeping promise are at the end. *)

From S2P Require Import Prelude Memblock MemblockArray MemblockFind MemblockState MemblockOps.

Inductive memblock_op :=
| OpAdd (base size nid flags : Z)
| OpReserve (base size : Z)
| OpFree (base size : Z)
| OpRemove (base size : Z)
| OpSetClr (base size : Z) (set : bool) (flag : Z)
| OpMarkMirror (base size : Z)
| OpSetNode (base size : Z) (ty : mtype) (nid : Z)
| OpAlloc (size align start end_ nid flags : Z)
| OpVirtAlloc (size align min_addr max_addr nid : Z)
| OpEnforceLimit (limit : Z)
| OpSetLimit (limit : Z)
| OpAllowResize.

Section Props.
Context (cfg : memblock_config).

Definition ignore (c : outcome (Z * memblock)) : outcome memblock := let* (_, m) := c in Ok m.

Definition exec (o : memblock_op) (m : memblock) : outcome memblock :=
  match o with
  | OpAdd base size nid flags => ignore (memblock_add_region cfg base size nid flags m)
  | OpReserve base size => ignore (memblock_reserve cfg base size m)
  | OpFree base size => ignore (memblock_free cfg base size m)
  | OpRemove base size => ignore (memblock_remove cfg base size m)
  | OpSetClr base size set flag => ignore (memblock_setclr_flag cfg base size set flag m)
  | OpMarkMirror base size => ignore (memblock_mark_mirror cfg base size m)
  | OpSetNode base size ty nid => ignore (memblock_set_node cfg base size ty nid m)
  | OpAlloc size align start end_ nid flags =>
      ignore (memblock_alloc_range_nid cfg size align start end_ nid flags m)
  | OpVirtAlloc size align min_addr max_addr nid =>
      ignore (memblock_virt_alloc_internal cfg size align min_addr max_addr nid m)
  | OpEnforceLimit limit => memblock_enforce_memory_limit cfg limit m
  | OpSetLimit limit => Ok (memblock_set_current_limit limit m)
  | OpAllowResize => Ok (memblock_allow_resize m)
  end.

Definition phys (a : Z) : Prop := 0 <= a <= ULLONG_MAX.

(** The arguments are [phys_addr_t] values, alignments are powers of two (or
    0), and added memory is below the platform's limit. *)
Definition valid (o : memblock_op) : Prop :=
  match o with
  | OpAdd base size _ _ => 0 <= base /\ 0 <= size /\ base + size <= PHYS_LIMIT
  | OpReserve base size | OpFree base size | OpRemove base size
  | OpSetClr base size _ _ | OpMarkMirror base size | OpSetNode base size _ _ => phys base /\ phys size
  | OpAlloc size align start end_ _ _ => 0 < size /\ align_ok align /\ phys start /\ phys end_
  | OpVirtAlloc size align min_addr max_addr _ => 0 < size /\ align_ok align /\ phys min_addr /\ phys max_addr
  | OpEnforceLimit limit | OpSetLimit limit => phys limit
  | OpAllowResize => True
  end.

Fixpoint exec_all (os : list memblock_op) (m : memblock) : outcome memblock :=
  match os with
  | [] => Ok m
  | o :: os => let* m := exec o m in exec_all os m
  end.

(** Whether the regions of a sorted array cover an address. *)
Lemma covered_iff hi t a : type_ok cfg hi t -> (exists r, r ∈ regions t /\ covers r a = true) <-> addr_attr cfg (regions t) a <> None.
Proof.
  intros Hok. split.
  - intros (r&Hr&Hc). destruct (ok_array _ _ _ Hok) as [(d&Hd&Hb&Hs)|[_ Hseg]].
    + rewrite Hd in Hr. apply list_elem_of_singleton in Hr as ->. unfold covers in Hc. lia.
    + by rewrite (addr_attr_covered _ _ _ _ _ _ Hseg Hr Hc).
  - intros Hne. destruct (addr_attr cfg (regions t) a) as [x|] eqn:E; [|done].
    apply addr_attr_Some in E as (i&r&Hi&?&?). exists r. split; [by eapply list_elem_of_lookup_2|done].
Qed.

Lemma search_found m ty a : wf cfg m ->
  exists res, memblock_search (get_type m ty) a = Ok res /\ (is_found res = true <-> attr_of cfg m ty a <> None).
Proof.
  intros Hwf. destruct (search_spec (get_type m ty) a (wf_array cfg m ty Hwf)) as (res&->&H). exists res. split; [done|].
  unfold attr_of. rewrite <- (covered_iff _ _ _ (wf_type cfg m ty Hwf)). destruct res as [i|]; simpl.
  - destruct H as (r&Hr&Hc). split; [|done]. intros _. exists r. split; [by eapply list_elem_of_lookup_2|done].
  - split; [done|]. intros (r&Hr&Hc). by rewrite (H r Hr) in Hc.
Qed.

Hypothesis early : slab_is_available cfg = false.
Hypothesis Hkmalloc : kmalloc_bounded cfg.

Lemma find_max_addr_phys l lo hi x : 0 <= lo -> hi <= ULLONG_MAX -> seg lo hi l -> 0 <= x -> phys (find_max_addr x l).
Proof.
  intros Hlo Hhi. revert lo x Hlo. induction l as [|r l IH]; intros lo x Hlo Hseg Hx; simpl; [unfold phys, ULLONG_MAX; lia|].
  destruct Hseg as (?&?&Hseg). pose proof (seg_le _ _ _ Hseg).
  case_if; [apply u64_range|]. apply (IH (r_base r + r_size r)); [lia|done|lia].
Qed.

Lemma max_addr_phys m limit : wf cfg m -> 0 <= limit -> phys (find_max_addr limit (regions (memory m))).
Proof.
  intros Hwf Hl. destruct (ok_array _ _ _ (wf_memory _ _ Hwf)) as [(d&->&Hb&Hs)|[_ Hseg]].
  - simpl. rewrite Hs. case_if; [apply u64_range|unfold phys, ULLONG_MAX; lia].
  - by eapply (find_max_addr_phys _ 0 PHYS_LIMIT).
Qed.

Lemma add_cap base size : 0 <= base -> 0 <= size -> base + size <= PHYS_LIMIT ->
  phys base /\ base + memblock_cap_size base size <= limit Memory.
Proof. unfold phys, memblock_cap_size, limit, PHYS_LIMIT, ULLONG_MAX. lia. Qed.

Lemma remove_wf ty base size m r m' : wf cfg m -> phys base -> phys size ->
  memblock_remove_range cfg (grow cfg) ty base size m = Ok (r, m') -> wf cfg m'.
Proof.
  intros Hwf Hb [Hs _] H. pose proof (grow_is_safe cfg Hkmalloc) as Hgrow.
  by destruct (remove_range_safe cfg (grow cfg) ty base size m r m' Hwf Hb Hs H).
Qed.

Definition set_mirror (m : memblock) : memblock :=
  mkMemblock (bottom_up m) (current_limit m) (memory m) (reserved m)
       (movable_node_enabled m) true (memblock_can_resize m)
       (memblock_memory_in_slab m) (memblock_reserved_in_slab m).

Lemma exec_wf o m m' : valid o -> wf cfg m -> exec o m = Ok m' -> wf cfg m'.
Proof.
  intros Hv Hwf H. pose proof (grow_is_safe cfg Hkmalloc) as Hgrow.
  destruct o; cbn [exec valid] in *; unfold ignore in H; try (apply obind_Ok in H as ([r m1]&H&[= <-])).
  - destruct Hv as (Hb&Hs&Hbs). destruct (add_cap base size Hb Hs Hbs) as [Hp Hcap].
    unfold memblock_add_region in H. by eapply add_range_safe in H as [? _]; [|done|left|..].
  - destruct Hv as [? [??]]. by eapply reserve_safe_state in H as [? _].
  - destruct Hv. by eapply remove_wf; [..|exact H].
  - destruct Hv. by eapply remove_wf; [..|exact H].
  - destruct Hv as [? [??]]. rewrite setclr_is_mark in H.
    by eapply (mark_range_safe cfg _ (flag_attr set flag)) in H as [? _]; [|by destruct set|by destruct set|apply flag_fn_attr|..].
  - destruct Hv as [? [??]]. unfold memblock_mark_mirror in H. rewrite setclr_is_mark in H.
    eapply (mark_range_safe cfg _ (flag_attr true MEMBLOCK_MIRROR)) in H as [? _]; try done; by destruct Hwf.
  - destruct Hv as [? [??]]. rewrite set_node_is_mark in H.
    by eapply (mark_range_safe cfg _ (node_attr cfg nid)) in H as [? _];
      [|intros; apply base_set_node|intros; apply size_set_node|apply node_fn_attr|..].
  - destruct Hv as (?&?&?&?). by eapply alloc_range_nid_safe in H as [? _].
  - destruct Hv as (?&?&?&?). by eapply virt_alloc_internal_safe in H as [? _].
  - unfold memblock_enforce_memory_limit in H. destruct (limit =? 0); [by injection H as <-|].
    obind_inv H. destruct a as [r1 m1]. obind_inv H. destruct a as [r2 m2]. injection H as <-.
    assert (phys ULLONG_MAX) by (unfold phys, ULLONG_MAX; lia).
    pose proof (max_addr_phys m limit Hwf (proj1 Hv)).
    eapply remove_wf; [|..|exact Ha0]; try done. by eapply remove_wf; [..|exact Ha].
  - injection H as <-. by destruct Hwf.
  - injection H as <-. by destruct Hwf.
Qed.

Lemma exec_fixed o m : valid o -> o <> OpAllowResize -> wf cfg m -> memblock_can_resize m = false ->
  exists m', exec o m = Ok m' /\ memblock_can_resize m' = false.
Proof.
  intros Hv Hno Hwf Hr. destruct o; cbn [exec valid] in *; unfold ignore; try done.
  - destruct Hv as (Hb&Hs&Hbs). destruct (add_cap base size Hb Hs Hbs) as [Hp Hcap].
    destruct (add_range_fixed cfg Memory base size nid flags m) as (r&m'&Hadd&?); try done.
    unfold memblock_add_region. rewrite Hadd. cbn. eauto.
  - destruct Hv as [Hp [Hs _]].
    destruct (add_range_fixed cfg Reserved base size (MAX_NUMNODES cfg) 0 m) as (r&m'&Hadd&?); try done;
      [by apply cap_size_bound|].
    unfold memblock_reserve, memblock_reserve_region. rewrite Hadd. cbn. eauto.
  - destruct Hv as [Hp [Hs _]]. destruct (remove_range_fixed cfg Reserved base size m) as (r&m'&H&?); try done.
    unfold memblock_free. rewrite H. cbn. eauto.
  - destruct Hv as [Hp [Hs _]]. destruct (remove_range_fixed cfg Memory base size m) as (r&m'&H&?); try done.
    unfold memblock_remove. rewrite H. cbn. eauto.
  - destruct Hv as [Hp [Hs _]].
    destruct (mark_range_fixed cfg (flag_fn set flag) (flag_attr set flag)) with (ty := Memory) (base := base) (size := size) (m := m)
      as (r&m'&H&?); try done; [by destruct set|by destruct set|apply flag_fn_attr|].
    rewrite setclr_is_mark, H. cbn. eauto.
  - destruct Hv as [Hp [Hs _]].
    destruct (mark_range_fixed cfg (flag_fn true MEMBLOCK_MIRROR) (flag_attr true MEMBLOCK_MIRROR))
      with (ty := Memory) (base := base) (size := size) (m := set_mirror m) as (r&m'&H&?); try done; [by destruct Hwf|].
    unfold memblock_mark_mirror. fold (set_mirror m). rewrite setclr_is_mark, H. cbn. eauto.
  - destruct Hv as [Hp [Hs _]].
    destruct (mark_range_fixed cfg (fun r => memblock_set_region_node cfg r nid) (node_attr cfg nid))
      with (ty := ty) (base := base) (size := size) (m := m) as (r&m'&H&?); try done;
      [intros; apply base_set_node|intros; apply size_set_node|apply node_fn_attr|].
    rewrite set_node_is_mark, H. cbn. eauto.
  - destruct Hv as (?&?&?&?). destruct (alloc_range_nid_fixed cfg early size align start end_ nid flags m) as (a&m'&H'&?); try done.
    rewrite H'. cbn. eauto.
  - destruct Hv as (?&?&?&?). destruct (virt_alloc_internal_fixed cfg early size align min_addr max_addr nid m) as (a&m'&H'&?); try done.
    rewrite H'. cbn. eauto.
  - unfold memblock_enforce_memory_limit. case_if; [eauto|].
    assert (Hu : phys ULLONG_MAX) by (unfold phys, ULLONG_MAX; lia).
    pose proof (max_addr_phys m limit Hwf (proj1 Hv)) as Hmx.
    destruct (remove_range_fixed cfg Memory (find_max_addr limit (regions (memory m))) ULLONG_MAX m) as (r1&m1&H1&Hr1); try done.
    rewrite H1. cbn [obind].
    destruct (remove_range_fixed cfg Reserved (find_max_addr limit (regions (memory m))) ULLONG_MAX m1) as (r2&m2&H2&Hr2);
      try done; [by eapply remove_wf; [..|exact H1]|].
    rewrite H2. cbn. eauto.
  - eauto.
Qed.

Lemma exec_all_fixed os m : Forall valid os -> OpAllowResize ∉ os -> wf cfg m -> memblock_can_resize m = false ->
  exists m', exec_all os m = Ok m' /\ wf cfg m'.
Proof.
  revert m. induction os as [|o os IH]; intros m Hv Hno Hwf Hr; simpl; [by exists m|].
  apply Forall_cons_1 in Hv as [Ho Hv]. apply not_elem_of_cons in Hno as [Hno1 Hno2].
  destruct (exec_fixed o m) as (m1&H1&Hr1); try done. rewrite H1. cbn [obind].
  apply IH; try done. by eapply exec_wf.
Qed.

End Props.

(** A board like the target: one node, no mirrored or hotpluggable memory, and
    the slab not yet up. *)
Definition board : memblock_config :=
  {| HAVE_MEMBLOCK_NODE_MAP := false; MOVABLE_NODE := false; MAX_NUMNODES := 1;
     kernel_end := 0x41000000; slab_is_available := false; kmalloc_pa := fun _ => 0 |}.

Lemma board_kmalloc : kmalloc_bounded board.
Proof. intros s. simpl. unfold ULLONG_MAX. lia. Qed.

(** Banks of memory, the kernel image and a device tree blob. *)
Definition boot_ops : list memblock_op :=
  [OpAdd 0x40000000 0x3e000000 0 0; OpReserve 0x40080000 0xf00000; OpReserve 0x44000000 0x10000;
   OpSetClr 0x7d000000 0x1000000 true MEMBLOCK_NOMAP; OpAlloc 0x3000 0x1000 0 0 (-1) 0;
   OpFree 0x44000000 0x8000; OpVirtAlloc 0x100 0 0 0 0; OpEnforceLimit 0x20000000].

Lemma boot_ops_valid : Forall valid boot_ops.
Proof.
  assert (align_ok 0x1000) by (right; exists 12; split; [lia|done]).
  assert (align_ok 0) by (by left).
  unfold boot_ops. rewrite !Forall_cons_iff. cbn [valid]. unfold phys, PHYS_LIMIT, ULLONG_MAX.
  split_and?; done || lia || constructor.
Qed.

(** ** Theorems *)

(** C1: Before [memblock_allow_resize], every sequence of range operations,
    allocations and limit changes with well-formed arguments runs to
    completion from the initial state: no [BUG_ON], no out-of-bounds access,
    no endless loop; and the final state satisfies the allocator invariant
    (both arrays sorted and disjoint, [total_size] the sum of the sizes). *)
Theorem memblock_boot_total cfg os :
  slab_is_available cfg = false -> kmalloc_bounded cfg ->
  Forall valid os -> OpAllowResize ∉ os ->
  exists m, exec_all cfg os memblock_init = Ok m /\ wf cfg m.
Proof. intros. apply exec_all_fixed; try done. apply memblock_init_wf. Qed.

(** C3: [memblock_add_range] on either array, before the slab allocator is up, when
    the array does not have to grow (growing is not allowed yet, or there is
    room for the new regions) and the capped range ends below the limit of the
    array (2^35 for memory, none for reserved): it always returns; on 0 the address map is exactly the old one
    with the uncovered part of the (capped) range added under the given node and
    flags, and the other array is untouched; on [-ENOMEM] nothing changed, and
    the array was too small for the new regions. *)
Theorem memblock_add_range_exact cfg ty base size nid flags m :
  let need := nr_fill cfg (base + memblock_cap_size base size) nid flags base (regions (get_type m ty)) in
  slab_is_available cfg = false -> kmalloc_bounded cfg -> wf cfg m -> settled ty need m ->
  0 <= base <= ULLONG_MAX -> 0 <= size -> base + memblock_cap_size base size <= limit ty ->
  exists r m', memblock_add_range cfg (grow cfg) ty base size nid flags m = Ok (r, m') /\ wf cfg m' /\
    ((r = 0 /\ m' = set_type m ty (get_type m' ty) /\
      forall a, attr_of cfg m' ty a =
        added base (memblock_cap_size base size) (new_attr cfg nid flags) (attr_of cfg m ty) a) \/
     (r = - ENOMEM /\ m' = m /\ t_max (get_type m ty) < cnt (get_type m ty) + need)).
Proof.
  intros need He Hk Hwf Hset Hb Hs Hl. pose proof (grow_is_safe cfg Hk) as Hgrow.
  destruct (add_range_settled cfg ty base size nid flags m) as (r&m'&H&_&_&_&Hfull); try done.
  destruct (add_range_safe cfg (grow cfg) ty base size nid flags m r m') as (Hwf'&m1&_&_&Hfix&Hcase); try done; [by right|].
  rewrite (Hfix Hset) in Hcase. exists r, m'. split; [done|]. split; [done|].
  destruct Hcase as [[-> _]|?]; [right; destruct Hfull as [?|?]; done|by left].
Qed.

(** C6: [memblock_remove_range] on either array, when the array does not have to
    grow (growing is not allowed yet, or two slots are free for the two regions
    that the ends of the range may split): it always returns; on 0 exactly the
    (capped) range is gone from the address map of that array, and the other
    array is untouched; on [-ENOMEM] nothing changed, and fewer than two slots
    were free. *)
Theorem memblock_remove_range_exact cfg ty base size m :
  kmalloc_bounded cfg -> wf cfg m -> settled ty 2 m ->
  0 <= base <= ULLONG_MAX -> 0 <= size ->
  exists r m', memblock_remove_range cfg (grow cfg) ty base size m = Ok (r, m') /\ wf cfg m' /\
    ((r = 0 /\ m' = set_type m ty (get_type m' ty) /\
      forall a, attr_of cfg m' ty a = removed base (memblock_cap_size base size) (attr_of cfg m ty) a) \/
     (r = - ENOMEM /\ m' = m /\ t_max (get_type m ty) < cnt (get_type m ty) + 2)).
Proof.
  intros Hk Hwf Hset Hb Hs. pose proof (grow_is_safe cfg Hk) as Hgrow.
  destruct (remove_range_settled cfg ty base size m) as (r&m'&H&_&Hfull); try done.
  destruct (remove_range_safe cfg (grow cfg) ty base size m r m') as (Hwf'&m1&_&_&Hfix&Hcase); try done.
  rewrite (Hfix Hset) in Hcase. exists r, m'. split; [done|]. split; [done|].
  destruct Hcase as [[-> ->]|?]; [right; destruct Hfull as [?|[_ ?]]; done|by left].
Qed.

(** C2: [memblock_setclr_flag], when the memory array does not have to grow
    (growing is not allowed yet, or two slots are free for the two regions that
    the ends of the range may split): it returns; on 0 the memory map is the old
    one with the flag set (or cleared) exactly on the addresses of the (capped)
    range, and the reserved array is untouched; on [-ENOMEM] nothing changed,
    and fewer than two slots were free. *)
Theorem memblock_setclr_flag_exact cfg base size set flag m :
  kmalloc_bounded cfg -> wf cfg m -> settled Memory 2 m -> 0 <= base <= ULLONG_MAX -> 0 <= size ->
  exists r m', memblock_setclr_flag cfg base size set flag m = Ok (r, m') /\ wf cfg m' /\
    ((r = 0 /\ m' = set_type m Memory (get_type m' Memory) /\
      forall a, attr_of cfg m' Memory a = marked (flag_attr set flag) base (memblock_cap_size base size) (attr_of cfg m Memory) a) \/
     (r = - ENOMEM /\ m' = m /\ t_max (memory m) < cnt (memory m) + 2)).
Proof.
  intros Hk Hwf Hset Hb Hs. rewrite setclr_is_mark.
  destruct (mark_range_settled cfg (flag_fn set flag) (flag_attr set flag)) with (ty := Memory) (base := base) (size := size) (m := m)
    as (r&m'&H&_&Hfull); try done; [by destruct set|by destruct set|apply flag_fn_attr|].
  destruct (mark_range_safe cfg (flag_fn set flag) (flag_attr set flag)) with (ty := Memory) (base := base) (size := size)
    (m := m) (r := r) (m' := m') as (Hwf'&m1&_&_&Hfix&Hcase); try done; [by destruct set|by destruct set|apply flag_fn_attr|].
  rewrite (Hfix Hset) in Hcase. exists r, m'. split; [done|]. split; [done|]. destruct Hcase as [[-> ->]|?]; [right; destruct Hfull as [?|[_ ?]]; done|by left].
Qed.

(** The binary search behind [memblock_is_memory] and
    [memblock_is_reserved] terminates, stays in bounds and answers exactly
    whether the address is in a region of the array. *)
Theorem memblock_search_correct cfg m a : wf cfg m ->
  (exists b, memblock_is_memory m a = Ok b /\ (b = true <-> attr_of cfg m Memory a <> None)) /\
  (exists b, memblock_is_reserved m a = Ok b /\ (b = true <-> attr_of cfg m Reserved a <> None)).
Proof.
  intros Hwf. unfold memblock_is_memory, memblock_is_reserved.
  destruct (search_found cfg m Memory a Hwf) as (r1&H1&?), (search_found cfg m Reserved a Hwf) as (r2&H2&?).
  simpl in H1, H2. rewrite H1, H2. cbn [obind]. split; eexists; by split.
Qed.

(** C5: [memblock_find_in_range_node] terminates, and returns a block that is
    aligned, inside the window, inside one eligible memory region and not
    reserved; it returns 0 only if there is no such block. *)
Theorem memblock_find_sound_complete cfg m size k start end_ nid flags :
  wf cfg m -> 0 < size -> 0 <= k <= 63 -> 0 <= start <= ULLONG_MAX -> 0 <= end_ <= ULLONG_MAX ->
  exists c, memblock_find_in_range_node cfg m size (2 ^ k) start end_ nid flags = Ok c /\
    ((c <> 0 /\ usable cfg m (fix_nid cfg nid) flags (window_start start) (window_end m start end_) size (2 ^ k) c) \/
     (c = 0 /\ forall c', ~ usable cfg m (fix_nid cfg nid) flags (window_start start) (window_end m start end_) size (2 ^ k) c')).
Proof. intros. by apply find_in_range_node_spec. Qed.

(** What an allocation returns: a block that is aligned, in the window, in one
    eligible region of memory and not reserved; or 0, and then there is no such
    block or no slot left to record one. *)
Definition allocated cfg (m : memblock) (size align start end_ nid flags a : Z) : Prop :=
  (a <> 0 /\ usable cfg m (fix_nid cfg nid) flags (window_start start) (window_end m start end_) size (eff_align align) a) \/
  (a = 0 /\ ((forall c, ~ usable cfg m (fix_nid cfg nid) flags (window_start start) (window_end m start end_) size (eff_align align) c) \/
              t_max (reserved m) <= cnt (reserved m))).

(** C4: Two allocations in a row, before the slab allocator is up and when the
    reserved array does not have to grow (growing is not allowed yet, or it has
    two free slots): both return. Each returns an aligned block of
    eligible memory in the window that was not reserved before the call, or 0,
    and then there is no such block or no slot to record it. Two blocks do not
    overlap, and the memory map does not change. *)
Theorem memblock_alloc_disjoint cfg size1 align1 s1 e1 nid1 fl1 size2 align2 s2 e2 nid2 fl2 m :
  slab_is_available cfg = false -> kmalloc_bounded cfg -> wf cfg m -> settled Reserved 2 m ->
  valid (OpAlloc size1 align1 s1 e1 nid1 fl1) -> valid (OpAlloc size2 align2 s2 e2 nid2 fl2) ->
  exists a1 m1 a2 m2,
    memblock_alloc_range_nid cfg size1 align1 s1 e1 nid1 fl1 m = Ok (a1, m1) /\
    memblock_alloc_range_nid cfg size2 align2 s2 e2 nid2 fl2 m1 = Ok (a2, m2) /\
    wf cfg m2 /\ same_memory m m2 /\
    allocated cfg m size1 align1 s1 e1 nid1 fl1 a1 /\ allocated cfg m1 size2 align2 s2 e2 nid2 fl2 a2 /\
    (a1 <> 0 -> a2 <> 0 -> a1 + size1 <= a2 \/ a2 + size2 <= a1).
Proof.
  intros He Hk Hwf Hset (Hz1&Hal1&Hst1&Hen1) (Hz2&Hal2&Hst2&Hen2).
  destruct (alloc_range_nid_settled cfg He size1 align1 s1 e1 nid1 fl1 m) as (a1&m1&H1&Hr1&Hmax1&Hcnt1&Hfail1); try done.
  { destruct Hset; [by left|right; lia]. }
  destruct (alloc_range_nid_safe cfg He Hk _ _ _ _ _ _ _ _ _ Hwf Hz1 Hal1 Hst1 Hen1 H1) as (Hwf1&Hs1&Hu1).
  destruct (alloc_range_nid_settled cfg He size2 align2 s2 e2 nid2 fl2 m1) as (a2&m2&H2&_&_&_&Hfail2); try done.
  { destruct Hset; [left; by rewrite Hr1|right]. cbn [get_type] in *. rewrite Hmax1. lia. }
  destruct (alloc_range_nid_safe cfg He Hk _ _ _ _ _ _ _ _ _ Hwf1 Hz2 Hal2 Hst2 Hen2 H2) as (Hwf2&Hs2&Hu2).
  assert (Hf2 : a2 <> 0 -> free_block cfg m1 size2 (eff_align align2) a2) by (intros [Hu%usable_free_block _]%Hu2; [done|apply window_start_pos]).
  exists a1, m1, a2, m2. split_and!; try done; [by etransitivity| | |].
  - destruct (decide (a1 = 0)) as [|Hn]; [right; auto|left]. by destruct (Hu1 Hn).
  - destruct (decide (a2 = 0)) as [|Hn]; [right; auto|left]. by destruct (Hu2 Hn).
  - intros Hn1 Hn2. destruct (decide (a1 + size1 <= a2)); [by left|]. destruct (decide (a2 + size2 <= a1)); [by right|]. exfalso.
    destruct (Hu1 Hn1) as [_ Hr]. apply (Hr (Z.max a1 a2)); [lia|]. apply (Hf2 Hn2). lia.
Qed.

Lemma overlap_iff r base size : 0 <= r_base r -> 0 <= r_size r -> r_base r + r_size r <= ULLONG_MAX ->
  0 <= base -> 0 < size -> base + size <= ULLONG_MAX ->
  memblock_addrs_overlap base size (r_base r) (r_size r) = true <->
  exists a, base <= a < base + size /\ covers r a = true \/ (r_size r = 0 /\ base < r_base r < base + size).
Proof.
  intros. unfold memblock_addrs_overlap, covers. rewrite !u64_small by lia. split.
  - intros ?. exists (Z.max base (r_base r)). lia.
  - intros (a&?). lia.
Qed.

(** [memblock_is_region_reserved] is true exactly when some address of
    the (capped, non-empty) range is reserved. *)
Theorem memblock_is_region_reserved_correct cfg m base size :
  wf cfg m -> 0 <= base <= ULLONG_MAX -> 0 < memblock_cap_size base size ->
  memblock_is_region_reserved m base size = true <->
  exists a, base <= a < base + memblock_cap_size base size /\ attr_of cfg m Reserved a <> None.
Proof.
  intros Hwf Hb Hs. unfold memblock_is_region_reserved, memblock_overlaps_region. set (sz := memblock_cap_size base size) in *.
  assert (base + sz <= ULLONG_MAX) by (unfold sz, memblock_cap_size in *; lia).
  pose proof (wf_array cfg m Reserved Hwf) as Hok. simpl in Hok. rewrite existsb_exists. split.
  - intros (r&Hr%list_elem_of_In&Hov). destruct (proj1 (list_elem_of_lookup _ _) Hr) as [i Hi].
    destruct (array_ok_region _ _ _ Hok Hi) as (?&?&_&?).
    apply overlap_iff in Hov as (a&[[Ha Hc]|[Hz Hlt]]); try lia.
    + exists a. split; [done|]. apply (covered_iff cfg _ _ _ (wf_reserved cfg m Hwf)). eauto.
    + destruct Hok as [(d&Hd&?&_)|[_ Hseg]].
      * rewrite Hd in Hr. apply list_elem_of_singleton in Hr as ->. lia.
      * apply (seg_region _ _ _ _ Hseg) in Hr. lia.
  - intros (a&Ha&Hr). apply (covered_iff cfg _ _ _ (wf_reserved cfg m Hwf)) in Hr as (r&Hr&Hc).
    exists r. split; [by apply list_elem_of_In|]. destruct (proj1 (list_elem_of_lookup _ _) Hr) as [i Hi].
    destruct (array_ok_region _ _ _ Hok Hi) as (?&?&_&?). apply overlap_iff; try lia. eauto.
Qed.

(** ** Findings *)

(** [memblock_trim_memory] moves region boundaries without touching
    [total_size]: afterwards [memblock_phys_mem_size] is not the amount of
    memory in the array, here on a single misaligned bank. *)
Theorem memblock_trim_total_stale :
  exists m m', exec_all board [OpAdd 0x40001000 0x3ffff000 0 0] memblock_init = Ok m /\
    memblock_trim_memory board 0x200000 m = Ok m' /\
    sum_size (regions (memory m')) = 0x3fe00000 /\ memblock_phys_mem_size m' = 0x3ffff000.
Proof. eexists _, _. split; [vm_compute; reflexivity|]. split; [vm_compute; reflexivity|]. split; reflexivity. Qed.

(** [__next_mem_range_rev] called with the initial index and a NULL
    [type_b], which its forward twin accepts, dereferences the null pointer,
    whatever the state. *)
Theorem memblock_next_rev_null cfg m nid flags a :
  __next_mem_range_rev cfg m ULLONG_MAX nid flags a None = Oops.
Proof. reflexivity. Qed.

Fixpoint segb (lo hi : Z) (l : list memblock_region) : bool :=
  match l with
  | [] => lo <=? hi
  | r :: l => (lo <=? r_base r) && (0 <? r_size r) && segb (r_base r + r_size r) hi l
  end.

Lemma segb_seg lo hi l : segb lo hi l = true -> seg lo hi l.
Proof.
  revert lo. induction l as [|r l IH]; intros lo H; simpl in *; [lia|].
  apply andb_prop in H as [H1 H2]. split_and!; [lia|lia|by apply IH].
Qed.

Definition page_regions (base : Z) (n : nat) : list memblock_region :=
  map (fun i => mkRegion (base + Z.of_nat i * 0x2000) 0x1000 0 0) (seq 0 n).

(** 256 memory regions in an array that was doubled once, and 127 of 128
    reserved regions, the memory array among them. *)
Definition crowded : memblock :=
  mkMemblock false (2 ^ 34)
    (mkType (page_regions 0x10000000 255 ++ [mkRegion 0x40000000 0x40000000 0 0]) 256
       (255 * 0x1000 + 0x40000000) (ArrAt 0x7fffe000))
    (mkType (page_regions 0x40000000 126 ++ [mkRegion 0x7fffe000 0x2000 0 0]) 128
       (126 * 0x1000 + 0x2000) ArrInit)
    false false true false false.

Lemma crowded_wf : wf board crowded.
Proof.
  constructor; [constructor|constructor|]; try (by vm_compute).
  - right. split; [done|]. apply segb_seg. vm_compute. reflexivity.
  - right. split; [done|]. apply segb_seg. vm_compute. reflexivity.
Qed.

(** C7: In a well-formed state, adding one memory region can leave the two
    region arrays on top of each other: doubling the memory array frees its
    old copy before reserving the new one, that free has to double the
    reserved array, and the search for its new place does not know about the
    place just chosen for the memory array. *)
Theorem memblock_double_array_overlap :
  wf board crowded /\ exists m' a b,
    memblock_add board 0x30000000 0x1000 crowded = Ok (0, m') /\
    t_array (memory m') = ArrAt a /\ t_array (reserved m') = ArrAt b /\
    a < b + t_max (reserved m') * sizeof_region board /\ b < a + t_max (memory m') * sizeof_region board.
Proof.
  split; [apply crowded_wf|]. eexists _, _, _. split; [vm_compute; reflexivity|].
  split; [reflexivity|]. split; [reflexivity|]. split; vm_compute; reflexivity.
Qed.

(** ** Witnesses *)

Lemma memblock_boot_total_witness : exists m, exec_all board boot_ops memblock_init = Ok m /\ wf board m.
Proof.
  apply memblock_boot_total; [reflexivity|apply board_kmalloc|apply boot_ops_valid|].
  unfold boot_ops. rewrite !elem_of_cons, elem_of_nil. intuition discriminate.
Defined.

(** One bank and the kernel image, growing allowed. *)
Definition one_bank : memblock :=
  mkMemblock false (2 ^ 34)
    (mkType [mkRegion 0x40000000 0x3e000000 0 0] 128 0x3e000000 ArrInit)
    (mkType [mkRegion 0x40080000 0xf00000 0 0] 128 0xf00000 ArrInit)
    false false true false false.

Lemma one_bank_wf : wf board one_bank.
Proof.
  constructor; [constructor|constructor|]; try (by vm_compute).
  - right. split; [done|]. apply segb_seg. vm_compute. reflexivity.
  - right. split; [done|]. apply segb_seg. vm_compute. reflexivity.
Qed.

Lemma memblock_add_range_exact_witness : exists r m',
  memblock_add_range board (grow board) Reserved 0x1000 0x2000 0 0 memblock_init = Ok (r, m') /\ wf board m' /\
    ((r = 0 /\ m' = set_type memblock_init Reserved (get_type m' Reserved) /\
      forall a, attr_of board m' Reserved a =
        added 0x1000 (memblock_cap_size 0x1000 0x2000) (new_attr board 0 0) (attr_of board memblock_init Reserved) a) \/
     (r = - ENOMEM /\ m' = memblock_init /\ 128 < 1 + nr_fill board (0x1000 + memblock_cap_size 0x1000 0x2000) 0 0 0x1000
        (regions (get_type memblock_init Reserved)))).
Proof.
  apply (memblock_add_range_exact board Reserved 0x1000 0x2000 0 0 memblock_init);
    [reflexivity|apply board_kmalloc|apply memblock_init_wf|left; reflexivity|unfold ULLONG_MAX; lia|lia|].
  unfold memblock_cap_size, limit, ULLONG_MAX. lia.
Defined.

(** Growing is allowed, and the reserved array has the slot the call needs. *)
Lemma memblock_remove_range_exact_witness : exists r m',
  memblock_remove_range board (grow board) Reserved 0x40080400 0x400 one_bank = Ok (r, m') /\ wf board m' /\ r = 0 /\
      forall a, attr_of board m' Reserved a = removed 0x40080400 (memblock_cap_size 0x40080400 0x400) (attr_of board one_bank Reserved) a.
Proof.
  destruct (memblock_remove_range_exact board Reserved 0x40080400 0x400 one_bank) as (r&m'&H&Hwf&Hcase);
    [apply board_kmalloc|apply one_bank_wf|right; vm_compute; congruence|unfold ULLONG_MAX; lia|lia|].
  exists r, m'. split; [exact H|]. split; [exact Hwf|]. destruct Hcase as [(->&_&Ha)|(_&_&Hc)]; [split; [reflexivity|exact Ha]|vm_compute in Hc; congruence].
Defined.

Lemma memblock_setclr_flag_exact_witness : exists r m',
  memblock_setclr_flag board 0x50000000 0x10000 true MEMBLOCK_NOMAP one_bank = Ok (r, m') /\ r = 0 /\ wf board m' /\
    forall a, attr_of board m' Memory a = marked (flag_attr true MEMBLOCK_NOMAP) 0x50000000 (memblock_cap_size 0x50000000 0x10000)
                     (attr_of board one_bank Memory) a.
Proof.
  destruct (memblock_setclr_flag_exact board 0x50000000 0x10000 true MEMBLOCK_NOMAP one_bank) as (r&m'&H&Hwf&Hcase);
    [apply board_kmalloc|apply one_bank_wf|right; vm_compute; congruence|unfold ULLONG_MAX; lia|lia|].
  exists r, m'. split; [exact H|]. destruct Hcase as [(->&_&Ha)|(_&_&Hc)]; [split; [reflexivity|split; [exact Hwf|exact Ha]]|vm_compute in Hc; congruence].
Defined.

Lemma memblock_search_correct_witness :
  (exists b, memblock_is_memory crowded 0x10002800 = Ok b /\ (b = true <-> attr_of board crowded Memory 0x10002800 <> None)) /\
  (exists b, memblock_is_reserved crowded 0x10002800 = Ok b /\ (b = true <-> attr_of board crowded Reserved 0x10002800 <> None)).
Proof. apply memblock_search_correct, crowded_wf. Defined.

Lemma memblock_find_sound_complete_witness :
  exists c, memblock_find_in_range_node board crowded 0x3000 (2 ^ 12) 0 0 NUMA_NO_NODE 0 = Ok c /\
    ((c <> 0 /\ usable board crowded (fix_nid board NUMA_NO_NODE) 0 (window_start 0) (window_end crowded 0 0) 0x3000 (2 ^ 12) c) \/
     (c = 0 /\ forall c', ~ usable board crowded (fix_nid board NUMA_NO_NODE) 0 (window_start 0) (window_end crowded 0 0) 0x3000 (2 ^ 12) c')).
Proof. apply memblock_find_sound_complete; [apply crowded_wf|unfold ULLONG_MAX; lia..]. Defined.

Lemma memblock_alloc_disjoint_witness : exists a1 m1 a2 m2,
  memblock_alloc_range_nid board 0x1000 0x1000 0 0 NUMA_NO_NODE 0 one_bank = Ok (a1, m1) /\
  memblock_alloc_range_nid board 0x100 0 0 0 NUMA_NO_NODE 0 m1 = Ok (a2, m2) /\
  wf board m2 /\ (a1 + 0x1000 <= a2 \/ a2 + 0x100 <= a1).
Proof.
  destruct (memblock_alloc_disjoint board 0x1000 0x1000 0 0 NUMA_NO_NODE 0 0x100 0 0 0 NUMA_NO_NODE 0 one_bank)
    as (a1&m1&a2&m2&H1&H2&Hwf&_&_&_&Hd); [reflexivity|apply board_kmalloc|apply one_bank_wf|right; vm_compute; congruence| | |].
  - cbn [valid]. unfold phys, ULLONG_MAX. split_and!; try lia. right. exists 12. split; [lia|done].
  - cbn [valid]. unfold phys, ULLONG_MAX. split_and!; try lia. by left.
  - exists a1, m1, a2, m2. split; [exact H1|]. split; [exact H2|]. split; [exact Hwf|].
    vm_compute in H1. injection H1 as <- <-. vm_compute in H2. injection H2 as <- <-. apply Hd; congruence.
Defined.

Lemma memblock_is_region_reserved_correct_witness :
  memblock_is_region_reserved crowded 0x40000800 0x400 = true <->
  exists a, 0x40000800 <= a < 0x40000800 + memblock_cap_size 0x40000800 0x400 /\ attr_of board crowded Reserved a <> None.
Proof.
  apply (memblock_is_region_reserved_correct board); [apply crowded_wf|unfold ULLONG_MAX; lia|].
  unfold memblock_cap_size, ULLONG_MAX. lia.
Defined.
