(* ===== verification/Bits.v ===== *)
(** * Bits: 64-bit words and arrays of them

    The operators of C on [unsigned long], the bit primitives of
    [include/linux/bitops.h] and [include/asm-generic/bitops/], the word masks
    of [include/linux/bitmap.h], and the view of an array of words as an array
    of bits that the find and bitmap routines are specified with. *)

From S2P Require Import Prelude.

(** ** Words *)

Definition BITS_PER_LONG : Z := 64.

Definition bnot (w : Z) : Z := u64 (Z.lnot w).
Definition shl (w n : Z) : Z := u64 (Z.shiftl w n).

Definition BIT_WORD (nr : Z) : Z := nr / BITS_PER_LONG.
Definition BIT_MASK (nr : Z) : Z := shl 1 (nr mod BITS_PER_LONG).
Definition BITS_TO_LONGS (nr : Z) : Z := (nr + (BITS_PER_LONG - 1)) / BITS_PER_LONG.

Definition BITMAP_FIRST_WORD_MASK (start : Z) : Z :=
  shl ULLONG_MAX (Z.land start (BITS_PER_LONG - 1)).
Definition BITMAP_LAST_WORD_MASK (nbits : Z) : Z :=
  Z.shiftr ULLONG_MAX (Z.land (- nbits) (BITS_PER_LONG - 1)).

(** [__builtin_ctzl] and [__builtin_clzl], undefined on 0. *)
Fixpoint ctz (n : nat) (i w : Z) : Z :=
  match n with
  | O => i
  | S n => if Z.testbit w i then i else ctz n (i + 1) w
  end.

Definition clz (w : Z) : Z := 63 - Z.log2 w.

Definition __ffs (w : Z) : Z := ctz 64 0 w.
Definition __fls (w : Z) : Z := BITS_PER_LONG - 1 - clz w.
Definition ffz (w : Z) : Z := __ffs (bnot w).

(** [lib/hweight.c], the version without [CONFIG_ARCH_HAS_FAST_MULTIPLIER]. *)
Definition __sw_hweight64 (w : Z) : Z :=
  let res := u64 (w - Z.land (Z.shiftr w 1) 0x5555555555555555) in
  let res := u64 (Z.land res 0x3333333333333333 + Z.land (Z.shiftr res 2) 0x3333333333333333) in
  let res := Z.land (u64 (res + Z.shiftr res 4)) 0x0F0F0F0F0F0F0F0F in
  let res := u64 (res + Z.shiftr res 8) in
  let res := u64 (res + Z.shiftr res 16) in
  Z.land (u64 (res + Z.shiftr res 32)) 0xFF.

Definition __sw_hweight32 (w : Z) : Z :=
  let res := u32 (w - Z.land (Z.shiftr w 1) 0x55555555) in
  let res := u32 (Z.land res 0x33333333 + Z.land (Z.shiftr res 2) 0x33333333) in
  let res := Z.land (u32 (res + Z.shiftr res 4)) 0x0F0F0F0F in
  let res := u32 (res + Z.shiftr res 8) in
  Z.land (u32 (res + Z.shiftr res 16)) 0xFF.

Definition __sw_hweight16 (w : Z) : Z :=
  let res := u32 (w - Z.land (Z.shiftr w 1) 0x5555) in
  let res := u32 (Z.land res 0x3333 + Z.land (Z.shiftr res 2) 0x3333) in
  let res := Z.land (u32 (res + Z.shiftr res 4)) 0x0F0F in
  Z.land (u32 (res + Z.shiftr res 8)) 0xFF.

Definition __sw_hweight8 (w : Z) : Z :=
  let res := u32 (w - Z.land (Z.shiftr w 1) 0x55) in
  let res := u32 (Z.land res 0x33 + Z.land (Z.shiftr res 2) 0x33) in
  Z.land (u32 (res + Z.shiftr res 4)) 0x0F.

Definition hweight_long (w : Z) : Z := __sw_hweight64 w.

Definition is_word (w : Z) : Prop := 0 <= w < 2 ^ 64.

(** ** Bits of the operators *)

Lemma u64_bit w j : 0 <= j -> Z.testbit (u64 w) j = (j <? 64) && Z.testbit w j.
Proof.
  intros Hj. unfold wrap. destruct (j <? 64) eqn:E; simpl.
  - apply Z.mod_pow2_bits_low. lia.
  - apply Z.mod_pow2_bits_high. lia.
Qed.

Lemma word_bit_high w j : is_word w -> 64 <= j -> Z.testbit w j = false.
Proof.
  intros Hw Hj. rewrite <- (wrap_small 64 w) by done. rewrite u64_bit by lia. case_eq (j <? 64); [lia|done].
Qed.

Lemma bnot_bit w j : 0 <= j < 64 -> Z.testbit (bnot w) j = negb (Z.testbit w j).
Proof. intros Hj. unfold bnot. rewrite u64_bit, Z.lnot_spec by lia. destruct (j <? 64) eqn:E; [done|lia]. Qed.

Lemma shl_bit w n j : 0 <= j < 64 -> Z.testbit (shl w n) j = Z.testbit w (j - n).
Proof. intros Hj. unfold shl. rewrite u64_bit, Z.shiftl_spec by lia. destruct (j <? 64) eqn:E; [done|lia]. Qed.

Lemma all_ones_bit j : 0 <= j -> Z.testbit ULLONG_MAX j = (j <? 64).
Proof. intros Hj. change ULLONG_MAX with (Z.ones 64). rewrite Z.testbit_ones_nonneg by lia. done. Qed.

Lemma land_63 x : Z.land x (BITS_PER_LONG - 1) = x mod 64.
Proof. change (BITS_PER_LONG - 1) with (Z.ones 6). rewrite Z.land_ones by lia. done. Qed.

Lemma first_mask_bit start j : 0 <= j < 64 -> Z.testbit (BITMAP_FIRST_WORD_MASK start) j = (start mod 64 <=? j).
Proof.
  intros Hj. unfold BITMAP_FIRST_WORD_MASK. rewrite land_63, shl_bit by done.
  pose proof (Z.mod_pos_bound start 64 ltac:(lia)). destruct (start mod 64 <=? j) eqn:E.
  - rewrite all_ones_bit by lia. lia.
  - apply Z.testbit_neg_r. lia.
Qed.

Lemma last_mask_bit nbits j : 0 <= j < 64 -> Z.testbit (BITMAP_LAST_WORD_MASK nbits) j = (j <=? (nbits - 1) mod 64).
Proof.
  intros Hj. unfold BITMAP_LAST_WORD_MASK. rewrite land_63.
  pose proof (Z.mod_pos_bound (- nbits) 64 ltac:(lia)).
  rewrite Z.shiftr_spec, all_ones_bit by lia.
  assert ((nbits - 1) mod 64 = 63 - (- nbits) mod 64) as ->; [|lia].
  symmetry. apply (Z.mod_unique_pos _ _ (- ((- nbits) / 64) - 1)); [lia|].
  pose proof (Z.div_mod (- nbits) 64 ltac:(lia)). lia.
Qed.

Lemma bnot_word w : is_word (bnot w).
Proof. apply wrap_range. lia. Qed.
Lemma shl_word w n : is_word (shl w n).
Proof. apply wrap_range. lia. Qed.

Lemma word_bits w : (forall j, 64 <= j -> Z.testbit w j = false) -> 0 <= w -> is_word w.
Proof.
  intros Hj Hw. unfold is_word. split; [done|]. destruct (decide (w = 0)) as [->|]; [lia|].
  apply Z.log2_lt_pow2; [lia|]. destruct (decide (Z.log2 w < 64)); [done|].
  specialize (Hj (Z.log2 w) ltac:(lia)). rewrite Z.bit_log2 in Hj by lia. done.
Qed.

Lemma land_word a b : is_word a -> 0 <= b -> is_word (Z.land a b).
Proof.
  intros Ha Hb. apply word_bits; [|apply Z.land_nonneg; unfold is_word in *; lia].
  intros j Hj. by rewrite Z.land_spec, word_bit_high.
Qed.

Lemma lor_word a b : is_word a -> is_word b -> is_word (Z.lor a b).
Proof.
  intros Ha Hb. apply word_bits; [|apply Z.lor_nonneg; unfold is_word in *; lia].
  intros j Hj. by rewrite Z.lor_spec, !word_bit_high.
Qed.

Lemma lxor_word a b : is_word a -> is_word b -> is_word (Z.lxor a b).
Proof.
  intros Ha Hb. apply word_bits; [|apply Z.lxor_nonneg; unfold is_word in *; lia].
  intros j Hj. by rewrite Z.lxor_spec, !word_bit_high.
Qed.

Lemma shiftr_word w n : is_word w -> 0 <= n -> is_word (Z.shiftr w n).
Proof.
  intros Hw Hn. apply word_bits; [|apply Z.shiftr_nonneg; unfold is_word in *; lia].
  intros j Hj. rewrite Z.shiftr_spec by lia. apply word_bit_high; [done|lia].
Qed.

Lemma last_mask_word nbits : is_word (BITMAP_LAST_WORD_MASK nbits).
Proof. apply shiftr_word; [by unfold is_word, ULLONG_MAX|rewrite land_63; apply Z.mod_pos_bound; lia]. Qed.

Lemma word_ext a b : is_word a -> is_word b -> (forall j, 0 <= j < 64 -> Z.testbit a j = Z.testbit b j) -> a = b.
Proof.
  intros Ha Hb H. apply Z.bits_inj'. intros j Hj. destruct (decide (j < 64)); [apply H; lia|].
  by rewrite !word_bit_high by (done || lia).
Qed.

Lemma word_zero w : is_word w -> (w = 0 <-> forall j, 0 <= j < 64 -> Z.testbit w j = false).
Proof.
  intros Hw. split; [by intros -> j _; apply Z.bits_0|]. intros H. apply word_ext; [done|by unfold is_word|].
  intros j Hj. by rewrite Z.bits_0, H.
Qed.

(** ** The scanning primitives *)

Lemma ctz_spec n : forall i w, (exists j, i <= j < i + Z.of_nat n /\ Z.testbit w j = true) ->
  i <= ctz n i w < i + Z.of_nat n /\ Z.testbit w (ctz n i w) = true /\
  forall j, i <= j < ctz n i w -> Z.testbit w j = false.
Proof.
  induction n as [|n IH]; intros i w (j&Hj&Hb); simpl; [lia|]. destruct (Z.testbit w i) eqn:E; [split_and!; [lia..|done|lia]|].
  destruct (IH (i + 1) w) as (?&?&Hno).
  { exists j. split; [|done]. destruct (decide (j = i)) as [->|]; [congruence|lia]. }
  split_and!; [lia..|done|]. intros j' Hj'. destruct (decide (j' = i)) as [->|]; [done|]. apply Hno. lia.
Qed.

Lemma word_nonzero w : is_word w -> w <> 0 -> exists j, 0 <= j < 64 /\ Z.testbit w j = true.
Proof.
  intros Hw Hne. exists (Z.log2 w). unfold is_word in Hw. split; [|apply Z.bit_log2; lia].
  split; [apply Z.log2_nonneg|apply Z.log2_lt_pow2; lia].
Qed.

Lemma __ffs_spec w : is_word w -> w <> 0 ->
  0 <= __ffs w < 64 /\ Z.testbit w (__ffs w) = true /\ forall j, 0 <= j < __ffs w -> Z.testbit w j = false.
Proof. intros Hw Hne. apply (ctz_spec 64 0), word_nonzero; done. Qed.

Lemma __fls_spec w : is_word w -> w <> 0 ->
  0 <= __fls w < 64 /\ Z.testbit w (__fls w) = true /\ forall j, __fls w < j < 64 -> Z.testbit w j = false.
Proof.
  intros Hw Hne. unfold __fls, clz, BITS_PER_LONG. replace (64 - 1 - (63 - Z.log2 w)) with (Z.log2 w) by lia.
  unfold is_word in Hw. split; [split; [apply Z.log2_nonneg|apply Z.log2_lt_pow2; lia]|].
  split; [apply Z.bit_log2; lia|]. intros j Hj. apply Z.bits_above_log2; lia.
Qed.

(** ** Arrays of words as arrays of bits *)

Definition bit (a : list Z) (i : Z) : bool :=
  match a !! Z.to_nat (i / 64) with Some w => Z.testbit w (i mod 64) | None => false end.

Definition words (a : list Z) : Prop := Forall is_word a.

(** The number of bits the array has room for. *)
Definition capacity (a : list Z) : Z := 64 * Z.of_nat (length a).

Lemma bit_split k j : 0 <= j < 64 -> (64 * k + j) / 64 = k /\ (64 * k + j) mod 64 = j.
Proof.
  intros Hj. split; symmetry; [apply (Z.div_unique _ _ _ j)|apply (Z.mod_unique _ _ k)]; lia.
Qed.

Lemma bit_eta i : i = 64 * (i / 64) + i mod 64 /\ 0 <= i mod 64 < 64.
Proof. pose proof (Z.div_mod i 64 ltac:(lia)). pose proof (Z.mod_pos_bound i 64 ltac:(lia)). lia. Qed.

(** Reading a word gives 64 bits. *)
Lemma rd_word a k : words a -> 0 <= k < Z.of_nat (length a) ->
  exists w, rd a k = Ok w /\ is_word w /\ forall j, 0 <= j < 64 -> Z.testbit w j = bit a (64 * k + j).
Proof.
  intros Ha Hk. destruct (rd_Ok a k Hk) as (w&Hr&Hl). exists w. split_and!; [done| |].
  - eapply Forall_lookup_1 in Hl; done.
  - intros j Hj. unfold bit. destruct (bit_split k j Hj) as [-> ->]. by rewrite Hl.
Qed.

(** Writing a word sets 64 bits and leaves the others. *)
Lemma wr_word a k v : words a -> is_word v -> 0 <= k < Z.of_nat (length a) ->
  exists a', wr a k v = Ok a' /\ words a' /\ length a' = length a /\
    forall i, 0 <= i -> bit a' i = if i / 64 =? k then Z.testbit v (i mod 64) else bit a i.
Proof.
  intros Ha Hv Hk. rewrite wr_Ok by done. eexists. split_and!; [done| |apply length_insert|].
  - by apply Forall_insert.
  - intros i Hi. unfold bit. pose proof (Z.div_pos i 64 Hi ltac:(lia)). case_if.
    + replace (i / 64) with k by lia. rewrite list_lookup_insert_eq by lia. done.
    + rewrite list_lookup_insert_ne by lia. done.
Qed.
