(* ===== verification/Hweight.v ===== *)
(** * Hweight: lib/hweight.c counts bits

    The bit-parallel population counts equal the number of set bits.  The
    first three steps act on every byte separately (the masks cut off what the
    shifts bring in from the byte above), so one byte is checked exhaustively
    and the words follow by induction on the number of bytes. *)

From S2P Require Import Prelude Bits.

(** Number of [i] in [[lo, lo + n)] with [p i]. *)
Fixpoint count (p : Z -> bool) (lo : Z) (n : nat) : Z :=
  match n with
  | O => 0
  | S n => Z.b2z (p lo) + count p (lo + 1) n
  end.

Definition popcount (w : Z) (n : nat) : Z := count (Z.testbit w) 0 n.

Lemma count_bounds p lo n : 0 <= count p lo n <= Z.of_nat n.
Proof. revert lo. induction n as [|n IH]; intros lo; simpl; [lia|]. specialize (IH (lo + 1)). destruct (p lo); simpl; lia. Qed.

Lemma count_ext p q lo n : (forall i, lo <= i < lo + Z.of_nat n -> p i = q i) -> count p lo n = count q lo n.
Proof.
  revert lo. induction n as [|n IH]; intros lo H; simpl; [done|]. rewrite (H lo) by lia. f_equal. apply IH. intros. apply H. lia.
Qed.

Lemma count_app p lo n m : count p lo (n + m) = count p lo n + count p (lo + Z.of_nat n) m.
Proof.
  revert lo. induction n as [|n IH]; intros lo; simpl; [by rewrite Z.add_0_r|]. rewrite IH.
  replace (lo + 1 + Z.of_nat n) with (lo + Z.of_nat (S n)) by lia. lia.
Qed.

Lemma count_shift p q lo d n : (forall i, lo <= i < lo + Z.of_nat n -> p i = q (i + d)) -> count p lo n = count q (lo + d) n.
Proof.
  revert lo. induction n as [|n IH]; intros lo H; simpl; [done|]. rewrite (H lo) by lia. f_equal.
  replace (lo + d + 1) with (lo + 1 + d) by lia. apply IH. intros. apply H. lia.
Qed.

(** ** Bytes *)

(** The mask byte [m] repeated [n] times. *)
Fixpoint rep (m : Z) (n : nat) : Z := match n with O => 0 | S n => m + 256 * rep m n end.

Lemma byte_split a b : 0 <= a < 256 -> (a + 256 * b) mod 256 = a /\ (a + 256 * b) / 256 = b.
Proof. intros Ha. split; symmetry; [apply (Z.mod_unique _ _ b)|apply (Z.div_unique _ _ _ a)]; lia. Qed.

Lemma byte_bit a b i : 0 <= a < 256 -> 0 <= i ->
  Z.testbit (a + 256 * b) i = if i <? 8 then Z.testbit a i else Z.testbit b (i - 8).
Proof.
  intros Ha Hi. destruct (byte_split a b Ha) as [Hm Hd]. change 256 with (2 ^ 8) in Hm, Hd. case_if.
  - rewrite <- Hm at 2. symmetry. apply Z.mod_pow2_bits_low. lia.
  - rewrite <- Hd at 2. rewrite Z.div_pow2_bits by lia. f_equal. lia.
Qed.

Lemma land_bound a c : 0 <= a < 256 -> 0 <= c -> 0 <= Z.land a c < 256.
Proof.
  intros Ha Hc. assert (0 <= Z.land a c) by (apply Z.land_nonneg; lia). split; [done|].
  destruct (decide (Z.land a c = 0)) as [->|]; [lia|]. change 256 with (2 ^ 8). apply Z.log2_lt_pow2; [lia|].
  pose proof (Z.log2_land a c ltac:(lia) ltac:(lia)).
  destruct (decide (a = 0)) as [->|]; [done|]. pose proof (proj1 (Z.log2_lt_pow2 a 8 ltac:(lia)) ltac:(lia)). lia.
Qed.

Lemma land_byte a b c d : 0 <= a < 256 -> 0 <= c < 256 ->
  Z.land (a + 256 * b) (c + 256 * d) = Z.land a c + 256 * Z.land b d.
Proof.
  intros Ha Hc. apply Z.bits_inj'. intros i Hi.
  rewrite Z.land_spec, !byte_bit by (done || apply land_bound; lia). case_if; by rewrite Z.land_spec.
Qed.

(** A statement about all bytes, checked one by one. *)
Lemma bytes_forall (P : Z -> bool) : forallb P (map Z.of_nat (seq 0 256)) = true -> forall t, 0 <= t < 256 -> P t = true.
Proof.
  intros H t Ht. rewrite forallb_forall in H. apply H. replace t with (Z.of_nat (Z.to_nat t)) by lia.
  apply in_map, in_seq. lia.
Qed.

(** ** The three byte-wise steps *)

Definition step1 (n : nat) (w : Z) : Z := w - Z.land (Z.shiftr w 1) (rep 0x55 n).
Definition step2 (n : nat) (w : Z) : Z := Z.land w (rep 0x33 n) + Z.land (Z.shiftr w 2) (rep 0x33 n).
Definition step3 (n : nat) (w : Z) : Z := Z.land (w + Z.shiftr w 4) (rep 0x0f n).

Definition byte1 (t : Z) : Z := t - Z.land (Z.shiftr t 1) 0x55.
Definition byte2 (t : Z) : Z := Z.land t 0x33 + Z.land (Z.shiftr t 2) 0x33.
Definition byte3 (t : Z) : Z := Z.land (t + Z.shiftr t 4) 0x0f.

(** Shifting moves the low bits [c] of the next byte into the top of this one. *)
Lemma shift_byte t w k : 0 <= t < 256 -> 0 <= k <= 8 ->
  Z.shiftr (t + 256 * w) k = (Z.shiftr t k + 2 ^ (8 - k) * (w mod 2 ^ k)) + 256 * Z.shiftr w k.
Proof.
  intros Ht Hk. rewrite !Z.shiftr_div_pow2 by lia.
  assert (H256 : 256 = 2 ^ (8 - k) * 2 ^ k) by (rewrite <- Z.pow_add_r by lia; by replace (8 - k + k) with 8 by lia).
  replace (t + 256 * w) with (t + (2 ^ (8 - k) * w) * 2 ^ k) by (rewrite H256; ring).
  rewrite Z.div_add by lia. pose proof (Z.div_mod w (2 ^ k) ltac:(lia)) as Hw.
  rewrite H256. rewrite Hw at 1. ring.
Qed.

Lemma shifted_mask t c k m (P : Z -> Z -> bool) : 0 <= t < 256 -> 0 <= c < 2 ^ k ->
  P = (fun t c => Z.land (Z.shiftr t k + 2 ^ (8 - k) * c) m =? Z.land (Z.shiftr t k) m) ->
  forallb (fun t => forallb (P t) (map Z.of_nat (seq 0 (Z.to_nat (2 ^ k))))) (map Z.of_nat (seq 0 256)) = true ->
  Z.land (Z.shiftr t k + 2 ^ (8 - k) * c) m = Z.land (Z.shiftr t k) m.
Proof.
  intros Ht Hc -> H. apply (bytes_forall _) with (t := t) in H; [|done].
  rewrite forallb_forall in H. apply Z.eqb_eq, H. replace c with (Z.of_nat (Z.to_nat c)) by lia.
  apply in_map, in_seq. lia.
Qed.

Lemma shift_low t c k : 0 <= t < 256 -> 0 <= k <= 8 -> 0 <= c < 2 ^ k -> 0 <= Z.shiftr t k + 2 ^ (8 - k) * c < 256.
Proof.
  intros Ht Hk Hc. rewrite Z.shiftr_div_pow2 by lia.
  assert (H256 : 256 = 2 ^ (8 - k) * 2 ^ k) by (rewrite <- Z.pow_add_r by lia; by replace (8 - k + k) with 8 by lia).
  pose proof (Z.div_pos t (2 ^ k) ltac:(lia) ltac:(lia)).
  pose proof (Z.div_lt_upper_bound t (2 ^ k) (2 ^ (8 - k)) ltac:(lia) ltac:(lia)). nia.
Qed.

Lemma step1_byte n t w : 0 <= t < 256 -> step1 (S n) (t + 256 * w) = byte1 t + 256 * step1 n w.
Proof.
  intros Ht. unfold step1, byte1. cbn [rep]. pose proof (Z.mod_pos_bound w (2 ^ 1) ltac:(lia)).
  rewrite shift_byte by lia. rewrite land_byte by (try apply shift_low; lia).
  rewrite (shifted_mask t _ 1 0x55 _) by (done || vm_compute; reflexivity). ring.
Qed.

Lemma step2_byte n t w : 0 <= t < 256 -> step2 (S n) (t + 256 * w) = byte2 t + 256 * step2 n w.
Proof.
  intros Ht. unfold step2, byte2. cbn [rep]. pose proof (Z.mod_pos_bound w (2 ^ 2) ltac:(lia)).
  rewrite shift_byte by lia. rewrite !land_byte by (try apply shift_low; lia).
  rewrite (shifted_mask t _ 2 0x33 _) by (done || vm_compute; reflexivity). ring.
Qed.

(** After the second step every nibble is at most 4, so the third cannot carry. *)
Lemma step3_byte n t w : 0 <= t <= 0x44 -> w mod 16 <= 4 -> step3 (S n) (t + 256 * w) = byte3 t + 256 * step3 n w.
Proof.
  intros Ht Hw. unfold step3, byte3. cbn [rep]. pose proof (Z.mod_pos_bound w 16 ltac:(lia)).
  rewrite shift_byte by lia. change (2 ^ (8 - 4)) with 16. change (2 ^ 4) with 16.
  assert (Hs : 0 <= Z.shiftr t 4 <= 4).
  { rewrite Z.shiftr_div_pow2 by lia. change (2 ^ 4) with 16. split; [apply Z.div_pos; lia|].
    apply Z.lt_succ_r, Z.div_lt_upper_bound; lia. }
  replace (t + 256 * w + (Z.shiftr t 4 + 16 * (w mod 16) + 256 * Z.shiftr w 4))
    with ((t + Z.shiftr t 4 + 16 * (w mod 16)) + 256 * (w + Z.shiftr w 4)) by ring.
  rewrite land_byte by lia. f_equal. change 0x0f with (Z.ones 4). rewrite !Z.land_ones by lia.
  change (2 ^ 4) with 16. rewrite (Z.mul_comm 16), Z.mod_add by lia. done.
Qed.

(** ** Words as lists of bytes *)

Fixpoint val (l : list Z) : Z := match l with [] => 0 | t :: l => t + 256 * val l end.

Definition bytes (l : list Z) : Prop := Forall (fun t => 0 <= t < 256) l.

Lemma to_bytes n w : 0 <= w < 256 ^ Z.of_nat n -> exists l, length l = n /\ bytes l /\ val l = w.
Proof.
  revert w. induction n as [|n IH]; intros w Hw.
  - exists []. split_and!; [done|constructor|]. change (256 ^ Z.of_nat 0) with 1 in Hw. simpl. lia.
  - rewrite Nat2Z.inj_succ, Z.pow_succ_r in Hw by lia. pose proof (Z.div_mod w 256 ltac:(lia)).
    pose proof (Z.mod_pos_bound w 256 ltac:(lia)).
    destruct (IH (w / 256)) as (l&Hl&Hb&Hv); [split; [apply Z.div_pos; lia|apply Z.div_lt_upper_bound; lia]|].
    exists (w mod 256 :: l). split_and!; [simpl; lia|by constructor|]. simpl. rewrite Hv. lia.
Qed.

Lemma step1_val l : bytes l -> step1 (length l) (val l) = val (map byte1 l).
Proof. induction 1 as [|t l Ht Hl IH]; [done|]. cbn [length val map]. by rewrite step1_byte, IH. Qed.

Lemma step2_val l : bytes l -> step2 (length l) (val l) = val (map byte2 l).
Proof. induction 1 as [|t l Ht Hl IH]; [done|]. cbn [length val map]. by rewrite step2_byte, IH. Qed.

Definition nibbles (t : Z) : Prop := 0 <= t <= 0x44 /\ t mod 16 <= 4.

Lemma val_mod16 l : Forall nibbles l -> val l mod 16 <= 4.
Proof.
  destruct 1 as [|t l [_ Ht] _]; [done|]. simpl. replace (t + 256 * val l) with (t + (16 * val l) * 16) by ring.
  by rewrite Z.mod_add.
Qed.

Lemma step3_val l : Forall nibbles l -> step3 (length l) (val l) = val (map byte3 l).
Proof.
  induction 1 as [|t l [Ht ?] Hl IH]; [done|]. cbn [length val map]. rewrite step3_byte, IH; [done|done|by apply val_mod16].
Qed.

(** One byte through the three steps, all 256 of them. *)
Lemma byte_steps t : 0 <= t < 256 ->
  0 <= byte1 t < 256 /\ nibbles (byte2 (byte1 t)) /\ byte3 (byte2 (byte1 t)) = popcount t 8.
Proof.
  intros Ht.
  assert (H := bytes_forall (fun t => (0 <=? byte1 t) && (byte1 t <? 256) && (0 <=? byte2 (byte1 t)) &&
    (byte2 (byte1 t) <=? 0x44) && (byte2 (byte1 t) mod 16 <=? 4) && (byte3 (byte2 (byte1 t)) =? popcount t 8))
    ltac:(vm_compute; reflexivity) t Ht). cbv beta in H. unfold nibbles. lia.
Qed.

Lemma steps_val l : bytes l ->
  step1 (length l) (val l) = val (map byte1 l) /\
  step2 (length l) (val (map byte1 l)) = val (map byte2 (map byte1 l)) /\
  step3 (length l) (val (map byte2 (map byte1 l))) = val (map (fun t => popcount t 8) l) /\
  bytes (map byte1 l) /\ Forall nibbles (map byte2 (map byte1 l)).
Proof.
  intros Hl.
  assert (Hb1 : bytes (map byte1 l)) by (apply Forall_map; eapply Forall_impl; [|exact Hl]; intros t Ht; by apply byte_steps).
  assert (Hn : Forall nibbles (map byte2 (map byte1 l))).
  { rewrite map_map. apply Forall_map. eapply Forall_impl; [|exact Hl]. intros t Ht. by apply byte_steps. }
  split_and!; [by apply step1_val| | |done|done].
  - rewrite <- (length_map byte1 l) at 1. by apply step2_val.
  - rewrite <- (length_map byte1 l), <- (length_map byte2) at 1. rewrite step3_val by done. rewrite !map_map. f_equal.
    apply map_ext_Forall. eapply Forall_impl; [|exact Hl]. intros t Ht. by apply byte_steps.
Qed.

Fixpoint total (l : list Z) : Z := match l with [] => 0 | t :: l => t + total l end.

Lemma popcount_val l : bytes l -> popcount (val l) (8 * length l) = total (map (fun t => popcount t 8) l).
Proof.
  unfold popcount. induction 1 as [|t l Ht Hl IH]; [done|].
  replace (8 * length (t :: l))%nat with (8 + 8 * length l)%nat by (simpl; lia).
  rewrite count_app. cbn [map total val]. f_equal.
  - apply count_ext. intros i Hi. rewrite byte_bit by lia. case_if; [done|lia].
  - rewrite <- IH. symmetry. apply count_shift. intros i Hi. rewrite byte_bit by lia. case_if; [lia|]. f_equal. lia.
Qed.

Lemma val_bounds m l : 0 <= m < 256 -> Forall (fun t => 0 <= t <= m) l -> 0 <= val l <= m * rep 1 (length l).
Proof. intros Hm. induction 1 as [|t l Ht Hl IH]; [simpl; lia|]. cbn [val length rep]. lia. Qed.

Lemma val_lt l : bytes l -> 0 <= val l < 256 ^ Z.of_nat (length l).
Proof.
  induction 1 as [|t l Ht Hl IH]; [done|]. cbn [val length]. rewrite Nat2Z.inj_succ, Z.pow_succ_r by lia. lia.
Qed.

Lemma nibbles_bytes l : Forall nibbles l -> bytes l.
Proof. intros H. eapply Forall_impl; [|exact H]. unfold nibbles. lia. Qed.

(** The third step's sum stays in the word. *)
Lemma step3_sum l : Forall nibbles l -> 0 <= val l + Z.shiftr (val l) 4 < 256 ^ Z.of_nat (length l).
Proof.
  intros H. assert (Hs : 0 <= Z.shiftr (val l) 4 <= val l).
  { pose proof (val_lt l (nibbles_bytes l H)). rewrite Z.shiftr_div_pow2 by lia. split; [apply Z.div_pos; lia|].
    apply Z.div_le_upper_bound; lia. }
  enough (2 * val l < 256 ^ Z.of_nat (length l)) by (pose proof (val_lt l (nibbles_bytes l H)); lia).
  clear Hs. induction H as [|t l [Ht _] Hl IH]; [done|]. cbn [val length]. rewrite Nat2Z.inj_succ, Z.pow_succ_r by lia. lia.
Qed.

(** The counts of the bytes after the three steps, with the wrap-around of a
    [w]-bit word written out. *)
Lemma hweight_steps wd n w : 256 ^ Z.of_nat n <= 2 ^ wd -> 0 <= w < 256 ^ Z.of_nat n ->
  exists cs, length cs = n /\ Forall (fun c => 0 <= c <= 8) cs /\
    (let res := wrap wd (w - Z.land (Z.shiftr w 1) (rep 0x55 n)) in
     let res := wrap wd (Z.land res (rep 0x33 n) + Z.land (Z.shiftr res 2) (rep 0x33 n)) in
     Z.land (wrap wd (res + Z.shiftr res 4)) (rep 0x0f n)) = val cs /\
    popcount w (8 * n) = total cs.
Proof.
  intros Hwd Hw. destruct (to_bytes n w Hw) as (l&Hl&Hb&<-).
  destruct (steps_val l Hb) as (H1&H2&H3&Hb1&Hn). subst n.
  exists (map (fun t => popcount t 8) l). split_and!.
  - apply length_map.
  - apply Forall_map, Forall_forall. intros t _. apply count_bounds.
  - assert (Hlen2 : length (map byte2 (map byte1 l)) = length l) by (by rewrite !length_map).
    pose proof (val_lt _ Hb1) as Hv1. pose proof (val_lt _ (nibbles_bytes _ Hn)) as Hv2. pose proof (step3_sum _ Hn) as Hv3.
    rewrite length_map in Hv1. rewrite Hlen2 in Hv2, Hv3.
    fold (step1 (length l) (val l)). rewrite H1, (wrap_small wd (val (map byte1 l))) by lia.
    cbv zeta. fold (step2 (length l) (val (map byte1 l))). rewrite H2, (wrap_small wd (val (map byte2 _))) by lia.
    rewrite wrap_small by lia.
    exact H3.
  - by apply popcount_val.
Qed.

Lemma shiftr_split a b k : 0 <= k -> 0 <= a < 2 ^ k -> Z.shiftr (a + 2 ^ k * b) k = b.
Proof. intros Hk Ha. rewrite Z.shiftr_div_pow2 by lia. symmetry. apply (Z.div_unique _ _ _ a); lia. Qed.

Lemma land_ff a b : 0 <= a < 256 -> Z.land (a + 256 * b) 0xFF = a.
Proof. intros Ha. change 0xFF with (Z.ones 8). rewrite Z.land_ones by lia. by apply byte_split. Qed.

Ltac inv_counts H :=
  repeat match type of H with Forall _ (_ :: _) => let H1 := fresh "Hc" in apply Forall_cons_1 in H as [H1 H] end.

Lemma hweight64_popcount w : is_word w -> __sw_hweight64 w = popcount w 64.
Proof.
  intros Hw. destruct (hweight_steps 64 8 w ltac:(done) Hw) as (cs&Hlen&Hcs&Hval&Hpop).
  change (8 * 8)%nat with 64%nat in Hpop. rewrite Hpop. unfold __sw_hweight64. cbv zeta in Hval |- *.
  change (rep 0x55 8) with 0x5555555555555555 in Hval. change (rep 0x33 8) with 0x3333333333333333 in Hval.
  change (rep 0x0f 8) with 0x0f0f0f0f0f0f0f0f in Hval. rewrite Hval. clear Hval Hpop.
  destruct cs as [|c0 [|c1 [|c2 [|c3 [|c4 [|c5 [|c6 [|c7 [|]]]]]]]]]; try discriminate Hlen. clear Hlen.
  inv_counts Hcs. cbn [val total]. rewrite Z.mul_0_r, Z.add_0_r.
  set (x1 := c1 + 256 * (c2 + 256 * (c3 + 256 * (c4 + 256 * (c5 + 256 * (c6 + 256 * c7)))))).
  replace (Z.shiftr (c0 + 256 * x1) 8) with x1 by (symmetry; apply (shiftr_split c0 x1 8); lia).
  rewrite (u64_small (c0 + 256 * x1 + x1)) by (unfold x1, ULLONG_MAX; lia).
  set (hi := (c2 + c3) + 256 * ((c3 + c4) + 256 * ((c4 + c5) + 256 * ((c5 + c6) + 256 * ((c6 + c7) + 256 * c7))))).
  replace (c0 + 256 * x1 + x1) with (((c0 + c1) + 256 * (c1 + c2)) + 2 ^ 16 * hi) by (unfold x1, hi; ring).
  rewrite shiftr_split by lia.
  rewrite (u64_small (c0 + c1 + 256 * (c1 + c2) + 2 ^ 16 * hi + hi)) by (unfold hi, ULLONG_MAX; lia).
  set (lo2 := (c1 + c2 + c3 + c4) + 256 * ((c2 + c3 + c4 + c5) + 256 * (c3 + c4 + c5 + c6))).
  set (hi2 := (c5 + c6 + c7) + 256 * ((c6 + c7) + 256 * c7)).
  replace (c0 + c1 + 256 * (c1 + c2) + 2 ^ 16 * hi + hi)
    with ((c0 + c1 + c2 + c3 + 256 * lo2) + 2 ^ 32 * ((c4 + c5 + c6 + c7) + 256 * hi2)) by (unfold hi, lo2, hi2; ring).
  rewrite shiftr_split by (unfold lo2; lia). rewrite u64_small by (unfold lo2, hi2, ULLONG_MAX; lia).
  set (top := lo2 + 256 ^ 3 * (c4 + c5 + c6 + c7 + 256 * hi2) + hi2).
  match goal with |- Z.land ?e 0xFF = _ => replace e with ((c0 + c1 + c2 + c3 + c4 + c5 + c6 + c7) + 256 * top) by (unfold top; ring) end.
  rewrite land_ff by lia. ring.
Qed.

Lemma hweight32_popcount w : 0 <= w < 2 ^ 32 -> __sw_hweight32 w = popcount w 32.
Proof.
  intros Hw. destruct (hweight_steps 32 4 w ltac:(done) Hw) as (cs&Hlen&Hcs&Hval&Hpop).
  change (8 * 4)%nat with 32%nat in Hpop. rewrite Hpop. unfold __sw_hweight32. cbv zeta in Hval |- *.
  change (rep 0x55 4) with 0x55555555 in Hval. change (rep 0x33 4) with 0x33333333 in Hval.
  change (rep 0x0f 4) with 0x0f0f0f0f in Hval. rewrite Hval. clear Hval Hpop.
  destruct cs as [|c0 [|c1 [|c2 [|c3 [|]]]]]; try discriminate Hlen. clear Hlen.
  inv_counts Hcs. cbn [val total]. rewrite Z.mul_0_r, Z.add_0_r.
  set (x1 := c1 + 256 * (c2 + 256 * c3)).
  replace (Z.shiftr (c0 + 256 * x1) 8) with x1 by (symmetry; apply (shiftr_split c0 x1 8); lia).
  rewrite (u32_small (c0 + 256 * x1 + x1)) by (unfold x1, UINT_MAX; lia).
  replace (c0 + 256 * x1 + x1) with (((c0 + c1) + 256 * (c1 + c2)) + 2 ^ 16 * ((c2 + c3) + 256 * c3)) by (unfold x1; ring).
  rewrite shiftr_split by lia. rewrite u32_small by (unfold UINT_MAX; lia).
  match goal with |- Z.land ?e 0xFF = _ =>
    replace e with ((c0 + c1 + c2 + c3) + 256 * ((c1 + c2) + c3 + 256 * (c2 + c3 + 256 * c3))) by ring end.
  rewrite land_ff by lia. ring.
Qed.

Lemma hweight16_popcount w : 0 <= w < 2 ^ 16 -> __sw_hweight16 w = popcount w 16.
Proof.
  intros Hw. destruct (hweight_steps 32 2 w ltac:(done) Hw) as (cs&Hlen&Hcs&Hval&Hpop).
  change (8 * 2)%nat with 16%nat in Hpop. rewrite Hpop. unfold __sw_hweight16. cbv zeta in Hval |- *.
  change (rep 0x55 2) with 0x5555 in Hval. change (rep 0x33 2) with 0x3333 in Hval.
  change (rep 0x0f 2) with 0x0f0f in Hval. rewrite Hval. clear Hval Hpop.
  destruct cs as [|c0 [|c1 [|]]]; try discriminate Hlen. clear Hlen. inv_counts Hcs. cbn [val total].
  rewrite Z.mul_0_r, Z.add_0_r. replace (Z.shiftr (c0 + 256 * c1) 8) with c1 by (symmetry; apply (shiftr_split c0 c1 8); lia).
  rewrite u32_small by (unfold UINT_MAX; lia). replace (c0 + 256 * c1 + c1) with (c0 + c1 + 256 * c1) by ring.
  rewrite land_ff by lia. ring.
Qed.

Lemma hweight8_popcount w : 0 <= w < 2 ^ 8 -> __sw_hweight8 w = popcount w 8.
Proof.
  intros Hw. apply Z.eqb_eq.
  apply (bytes_forall (fun w => __sw_hweight8 w =? popcount w 8)); [vm_compute; reflexivity|done].
Qed.
