(* ===== verification/FindBit.v ===== *)
(** * FindBit: lib/find_bit.c

    The searches for set and clear bits in an array of words.  [scan] is the
    specification they all meet: the first index of a range that satisfies a
    predicate, or the end of the range. *)

From S2P Require Import Prelude Bits.

(** ** Model *)

(** The [while (!tmp)] loop of [_find_next_bit]. *)
Fixpoint find_next_loop (n : nat) (addr : list Z) (nbits start tmp invert : Z) : outcome Z :=
  match n with
  | O => NoFuel
  | S n =>
    if tmp =? 0 then
      let start := u64 (start + BITS_PER_LONG) in
      if nbits <=? start then Ok nbits
      else
        let* w := rd addr (start / BITS_PER_LONG) in
        find_next_loop n addr nbits start (Z.lxor w invert) invert
    else Ok (Z.min (start + __ffs tmp) nbits)
  end.

Definition _find_next_bit (addr : list Z) (nbits start invert : Z) : outcome Z :=
  if (nbits =? 0) || (nbits <=? start) then Ok nbits
  else
    let* w := rd addr (start / BITS_PER_LONG) in
    let tmp := Z.lxor w invert in
    let tmp := Z.land tmp (BITMAP_FIRST_WORD_MASK start) in
    let start := round_down start BITS_PER_LONG in
    find_next_loop (length addr + 1) addr nbits start tmp invert.

Definition find_next_bit (addr : list Z) (size offset : Z) : outcome Z :=
  _find_next_bit addr size offset 0.

Definition find_next_zero_bit (addr : list Z) (size offset : Z) : outcome Z :=
  _find_next_bit addr size offset ULLONG_MAX.

Fixpoint find_first_bit_loop (n : nat) (addr : list Z) (size idx : Z) : outcome Z :=
  match n with
  | O => NoFuel
  | S n =>
    if idx * BITS_PER_LONG <? size then
      let* w := rd addr idx in
      if negb (w =? 0) then Ok (Z.min (idx * BITS_PER_LONG + __ffs w) size)
      else find_first_bit_loop n addr size (idx + 1)
    else Ok size
  end.

Definition find_first_bit (addr : list Z) (size : Z) : outcome Z :=
  find_first_bit_loop (length addr + 1) addr size 0.

Fixpoint find_first_zero_bit_loop (n : nat) (addr : list Z) (size idx : Z) : outcome Z :=
  match n with
  | O => NoFuel
  | S n =>
    if idx * BITS_PER_LONG <? size then
      let* w := rd addr idx in
      if negb (w =? ULLONG_MAX) then Ok (Z.min (idx * BITS_PER_LONG + ffz w) size)
      else find_first_zero_bit_loop n addr size (idx + 1)
    else Ok size
  end.

Definition find_first_zero_bit (addr : list Z) (size : Z) : outcome Z :=
  find_first_zero_bit_loop (length addr + 1) addr size 0.

(** The [do { } while (idx--)] loop; [n] counts the remaining words. *)
Fixpoint find_last_loop (n : nat) (addr : list Z) (size val idx : Z) : outcome Z :=
  match n with
  | O => NoFuel
  | S n =>
    let* w := rd addr idx in
    let val := Z.land val w in
    if negb (val =? 0) then Ok (idx * BITS_PER_LONG + __fls val)
    else if idx =? 0 then Ok size
    else find_last_loop n addr size ULLONG_MAX (idx - 1)
  end.

Definition find_last_bit (addr : list Z) (size : Z) : outcome Z :=
  if negb (size =? 0) then
    find_last_loop (length addr + 1) addr size (BITMAP_LAST_WORD_MASK size) ((size - 1) / BITS_PER_LONG)
  else Ok size.

(** ** Specification *)

(** [r] is the first index of [[lo, hi)] with [p], or [hi]. *)
Definition scan (p : Z -> bool) (lo hi r : Z) : Prop :=
  (lo <= r < hi /\ p r = true /\ forall i, lo <= i < r -> p i = false) \/
  (r = hi /\ forall i, lo <= i < hi -> p i = false).

Lemma scan_unique p lo hi r r' : scan p lo hi r -> scan p lo hi r' -> r = r'.
Proof.
  intros [(H1&H2&H3)|[-> H1]] [(H1'&H2'&H3')|[-> H1']]; try done.
  - destruct (Z.lt_trichotomy r r') as [?|[?|?]]; [rewrite H3' in H2 by lia| |rewrite H3 in H2' by lia]; done.
  - rewrite H1' in H2 by lia. done.
  - rewrite H1 in H2' by lia. done.
Qed.

(** ** Proofs *)

Section Find.
Context (addr : list Z).
Hypothesis Haddr : words addr.

Lemma find_next_loop_spec p invert nbits start0 : is_word invert ->
  (forall i, 0 <= i -> p i = xorb (bit addr i) (Z.testbit invert (i mod 64))) ->
  nbits <= capacity addr -> capacity addr < 2 ^ 63 -> forall n k tmp,
  0 <= k -> 64 * k < nbits -> capacity addr < 64 * (k + Z.of_nat n) -> is_word tmp ->
  (forall j, 0 <= j < 64 -> Z.testbit tmp j = (start0 <=? 64 * k + j) && p (64 * k + j)) ->
  (forall i, start0 <= i < 64 * k -> p i = false) -> start0 < 64 * (k + 1) ->
  exists r, find_next_loop n addr nbits (64 * k) tmp invert = Ok r /\ scan p start0 nbits r.
Proof.
  intros Hinv Hp Hcap Hmax. induction n as [|n IH]; intros k tmp Hk Hnb Hn Htmp Hbits Hbefore Hs0.
  { unfold capacity in *. lia. }
  cbn [find_next_loop]. unfold capacity in *. destruct (tmp =? 0) eqn:E.
  - apply Z.eqb_eq in E. rewrite word_zero in E by done.
    assert (Hno : forall i, start0 <= i < 64 * (k + 1) -> p i = false).
    { intros i Hi. destruct (decide (i < 64 * k)); [apply Hbefore; lia|].
      specialize (Hbits (i - 64 * k) ltac:(lia)). rewrite E in Hbits by lia.
      replace (64 * k + (i - 64 * k)) with i in Hbits by lia.
      destruct (p i); [lia|done]. }
    rewrite u64_small by (unfold ULLONG_MAX, BITS_PER_LONG; lia). unfold BITS_PER_LONG.
    replace (64 * k + 64) with (64 * (k + 1)) by lia. case_if.
    { exists nbits. split; [done|]. right. split; [done|]. intros i Hi. apply Hno. lia. }
    rewrite Z.mul_comm, Z.div_mul, Z.mul_comm by lia.
    destruct (rd_word addr (k + 1) Haddr) as (w&->&Hw&Hwb); [lia|]. cbn [obind].
    apply IH; try done; try lia; [by apply lxor_word|].
    intros j Hj. rewrite Z.lxor_spec, Hwb, Hp by lia. destruct (bit_split (k + 1) j Hj) as [_ ->].
    destruct (start0 <=? 64 * (k + 1) + j) eqn:E2; [done|lia].
  - destruct (__ffs_spec tmp Htmp ltac:(lia)) as (Hf&Hfb&Hfno). rewrite Hbits in Hfb by lia.
    eexists. split; [done|]. set (f := __ffs tmp) in *.
    assert (Hno : forall i, start0 <= i < 64 * k + f -> p i = false).
    { intros i Hi. destruct (decide (i < 64 * k)); [apply Hbefore; lia|].
      specialize (Hfno (i - 64 * k) ltac:(lia)). rewrite Hbits in Hfno by lia.
      replace (64 * k + (i - 64 * k)) with i in Hfno by lia. destruct (p i); [lia|done]. }
    apply andb_prop in Hfb as [? ?]. destruct (decide (64 * k + f < nbits)).
    + rewrite Z.min_l by lia. left. split_and!; [lia..|done|done].
    + rewrite Z.min_r by lia. right. split; [done|]. intros i Hi. apply Hno. lia.
Qed.

Lemma round_down_64 x : 0 <= x <= ULLONG_MAX -> round_down x BITS_PER_LONG = 64 * (x / 64).
Proof.
  intros Hx. change BITS_PER_LONG with (2 ^ 6). rewrite round_down_pow2 by lia.
  pose proof (Z.div_mod x 64 ltac:(lia)). change (2 ^ 6) with 64. lia.
Qed.

Lemma _find_next_bit_spec p invert nbits start : is_word invert ->
  (forall i, 0 <= i -> p i = xorb (bit addr i) (Z.testbit invert (i mod 64))) ->
  0 <= start -> 0 <= nbits <= capacity addr -> capacity addr < 2 ^ 63 ->
  exists r, _find_next_bit addr nbits start invert = Ok r /\ scan p start nbits r.
Proof.
  intros Hinv Hp Hst Hnb Hmax. unfold _find_next_bit. case_if.
  { exists nbits. split; [done|]. right. split; [done|]. intros i Hi. lia. }
  unfold capacity in *. destruct (bit_eta start) as [Heta Hm]. pose proof (Z.div_pos start 64 Hst ltac:(lia)).
  destruct (rd_word addr (start / BITS_PER_LONG) Haddr) as (w&->&Hw&Hwb); [unfold BITS_PER_LONG; lia|]. cbn [obind].
  rewrite round_down_64 by (unfold ULLONG_MAX; lia).
  apply (find_next_loop_spec p); try done; unfold capacity; try lia.
  - apply land_word; [by apply lxor_word|]. apply (shl_word ULLONG_MAX).
  - intros j Hj. rewrite Z.land_spec, Z.lxor_spec, Hwb, first_mask_bit, Hp by lia.
    destruct (bit_split (start / 64) j Hj) as [_ ->]. unfold BITS_PER_LONG. rewrite andb_comm. f_equal. lia.
Qed.

Lemma find_next_bit_spec size offset :
  0 <= offset -> 0 <= size <= capacity addr -> capacity addr < 2 ^ 63 ->
  exists r, find_next_bit addr size offset = Ok r /\ scan (bit addr) offset size r.
Proof.
  intros. apply _find_next_bit_spec; try done.
  intros i Hi. by rewrite Z.bits_0, xorb_false_r.
Qed.

Lemma find_next_zero_bit_spec size offset :
  0 <= offset -> 0 <= size <= capacity addr -> capacity addr < 2 ^ 63 ->
  exists r, find_next_zero_bit addr size offset = Ok r /\ scan (fun i => negb (bit addr i)) offset size r.
Proof.
  intros. apply (_find_next_bit_spec (fun i => negb (bit addr i))); try done.
  intros i Hi. destruct (bit_eta i) as [_ Hm]. rewrite all_ones_bit by lia.
  destruct (i mod 64 <? 64) eqn:E; [by rewrite xorb_true_r|lia].
Qed.

(** The two forward searches from 0 share their proof: [f] is the word the
    loop looks at and [p] the bit it is after. *)
Lemma first_hit p k f size : is_word f -> f <> 0 ->
  (forall j, 0 <= j < 64 -> Z.testbit f j = p (64 * k + j)) ->
  (forall i, 0 <= i < 64 * k -> p i = false) -> 0 <= k ->
  scan p 0 size (Z.min (k * BITS_PER_LONG + __ffs f) size) \/ size <= 64 * k.
Proof.
  intros Hf Hne Hbits Hbefore Hk. destruct (decide (size <= 64 * k)); [by right|left].
  destruct (__ffs_spec f Hf Hne) as (Hr&Hb&Hno). unfold BITS_PER_LONG. rewrite (Z.mul_comm k).
  assert (Hall : forall i, 0 <= i < 64 * k + __ffs f -> p i = false).
  { intros i Hi. destruct (decide (i < 64 * k)); [apply Hbefore; lia|].
    specialize (Hno (i - 64 * k) ltac:(lia)). rewrite Hbits in Hno by lia. by replace (64 * k + (i - 64 * k)) with i in Hno by lia. }
  rewrite Hbits in Hb by lia. destruct (decide (64 * k + __ffs f < size)).
  - rewrite Z.min_l by lia. left. split_and!; [lia..|done|done].
  - rewrite Z.min_r by lia. right. split; [done|]. intros i Hi. apply Hall. lia.
Qed.

Lemma find_first_bit_loop_spec size n : forall k, 0 <= k -> 64 * k <= capacity addr -> size <= capacity addr ->
  capacity addr < 64 * (k + Z.of_nat n) -> (forall i, 0 <= i < 64 * k -> bit addr i = false) ->
  exists r, find_first_bit_loop n addr size k = Ok r /\ scan (bit addr) 0 size r.
Proof.
  unfold capacity. induction n as [|n IH]; intros k Hk Hkc Hcap Hn Hbefore; cbn [find_first_bit_loop]; unfold BITS_PER_LONG.
  - lia.
  - case_if.
    2:{ exists size. split; [done|]. right. split; [done|]. intros i Hi. apply Hbefore. lia. }
    destruct (rd_word addr k Haddr) as (w&->&Hw&Hwb); [lia|]. cbn [obind]. destruct (w =? 0) eqn:E; cbn [negb].
    + apply IH; [lia|lia|done|lia|]. intros i Hi. destruct (decide (i < 64 * k)); [apply Hbefore; lia|].
      apply Z.eqb_eq in E. specialize (Hwb (i - 64 * k) ltac:(lia)). rewrite E, Z.bits_0 in Hwb.
      by replace (64 * k + (i - 64 * k)) with i in Hwb by lia.
    + destruct (first_hit (bit addr) k w size) as [Hsc|?]; try done; try lia. by eexists.
Qed.

Lemma find_first_bit_spec size : 0 <= size <= capacity addr ->
  exists r, find_first_bit addr size = Ok r /\ scan (bit addr) 0 size r.
Proof. intros. apply find_first_bit_loop_spec; unfold capacity in *; lia. Qed.

Lemma bnot_zero w : is_word w -> bnot w = 0 <-> w = ULLONG_MAX.
Proof.
  intros Hw. rewrite (word_zero _ (bnot_word w)). split.
  - intros H. apply word_ext; [done|by unfold is_word, ULLONG_MAX|]. intros j Hj.
    rewrite all_ones_bit by lia. specialize (H j Hj). rewrite bnot_bit in H by done.
    destruct (Z.testbit w j); [|done]. lia.
  - intros -> j Hj. rewrite bnot_bit, all_ones_bit by lia. lia.
Qed.

Lemma find_first_zero_bit_loop_spec size n : forall k, 0 <= k -> 64 * k <= capacity addr -> size <= capacity addr ->
  capacity addr < 64 * (k + Z.of_nat n) -> (forall i, 0 <= i < 64 * k -> bit addr i = true) ->
  exists r, find_first_zero_bit_loop n addr size k = Ok r /\ scan (fun i => negb (bit addr i)) 0 size r.
Proof.
  unfold capacity. induction n as [|n IH]; intros k Hk Hkc Hcap Hn Hbefore; cbn [find_first_zero_bit_loop]; unfold BITS_PER_LONG.
  - lia.
  - case_if.
    2:{ exists size. split; [done|]. right. split; [done|]. intros i Hi. rewrite Hbefore by lia. done. }
    destruct (rd_word addr k Haddr) as (w&->&Hw&Hwb); [lia|]. cbn [obind]. destruct (w =? ULLONG_MAX) eqn:E; cbn [negb].
    + apply IH; [lia|lia|done|lia|]. intros i Hi. destruct (decide (i < 64 * k)); [apply Hbefore; lia|].
      apply Z.eqb_eq in E. specialize (Hwb (i - 64 * k) ltac:(lia)). rewrite E, all_ones_bit in Hwb by lia.
      replace (64 * k + (i - 64 * k)) with i in Hwb by lia. rewrite <- Hwb. lia.
    + destruct (first_hit (fun i => negb (bit addr i)) k (bnot w) size) as [?|?]; try lia.
      * apply bnot_word.
      * rewrite bnot_zero by done. lia.
      * intros j Hj. by rewrite bnot_bit, Hwb.
      * intros i Hi. by rewrite Hbefore.
      * eexists. split; [done|]. done.
Qed.

Lemma find_first_zero_bit_spec size : 0 <= size <= capacity addr ->
  exists r, find_first_zero_bit addr size = Ok r /\ scan (fun i => negb (bit addr i)) 0 size r.
Proof. intros. apply find_first_zero_bit_loop_spec; unfold capacity in *; lia. Qed.

(** [r] is the last set bit below [size], or [size]. *)
Definition last_scan (p : Z -> bool) (size r : Z) : Prop :=
  (0 <= r < size /\ p r = true /\ forall i, r < i < size -> p i = false) \/
  (r = size /\ forall i, 0 <= i < size -> p i = false).

Lemma find_last_loop_spec size n : forall k val, 0 <= k < Z.of_nat n -> 64 * k < size -> k < Z.of_nat (length addr) -> is_word val ->
  (forall j, 0 <= j < 64 -> Z.testbit val j = (64 * k + j <? size)) ->
  (forall i, 64 * (k + 1) <= i < size -> bit addr i = false) ->
  exists r, find_last_loop n addr size val k = Ok r /\ last_scan (bit addr) size r.
Proof.
  induction n as [|n IH]; intros k val Hk Hsz Hlen Hval Hbits Habove; [lia|]. cbn [find_last_loop].
  destruct (rd_word addr k Haddr) as (w&->&Hw&Hwb); [lia|]. cbn [obind].
  assert (Hv : is_word (Z.land val w)) by (apply land_word; [done|unfold is_word in *; lia]).
  assert (Hvb : forall j, 0 <= j < 64 -> Z.testbit (Z.land val w) j = (64 * k + j <? size) && bit addr (64 * k + j))
    by (intros; by rewrite Z.land_spec, Hbits, Hwb).
  destruct (Z.land val w =? 0) eqn:E; cbn [negb].
  - apply Z.eqb_eq in E. rewrite word_zero in E by done.
    assert (Hno : forall i, 64 * k <= i < size -> bit addr i = false).
    { intros i Hi. destruct (decide (64 * (k + 1) <= i)); [apply Habove; lia|].
      specialize (Hvb (i - 64 * k) ltac:(lia)). rewrite E in Hvb by lia.
      replace (64 * k + (i - 64 * k)) with i in Hvb by lia. destruct (bit addr i); [lia|done]. }
    case_if; [exists size; split; [done|]; right; split; [done|]; intros i Hi; apply Hno; lia|].
    apply IH; [lia|lia|lia|by unfold is_word, ULLONG_MAX| |intros; apply Hno; lia].
    intros j Hj. rewrite all_ones_bit by lia. lia.
  - destruct (__fls_spec _ Hv ltac:(lia)) as (Hf&Hfb&Hfno). set (f := __fls (Z.land val w)) in *.
    rewrite Hvb in Hfb by lia. apply andb_prop in Hfb as [Hlt Hb]. eexists. split; [done|]. left.
    unfold BITS_PER_LONG. rewrite (Z.mul_comm k). split_and!; [lia|lia|done|]. intros i Hi.
    destruct (decide (64 * (k + 1) <= i)); [apply Habove; lia|].
    specialize (Hfno (i - 64 * k) ltac:(lia)). rewrite Hvb in Hfno by lia.
    replace (64 * k + (i - 64 * k)) with i in Hfno by lia. destruct (bit addr i); [lia|done].
Qed.

Lemma find_last_bit_spec size : 0 <= size <= capacity addr ->
  exists r, find_last_bit addr size = Ok r /\ last_scan (bit addr) size r.
Proof.
  intros Hs. unfold find_last_bit, capacity in *. destruct (size =? 0) eqn:E; cbn [negb].
  { exists size. split; [done|]. right. split; [done|]. lia. }
  destruct (bit_eta (size - 1)) as [Heta Hm]. pose proof (Z.div_pos (size - 1) 64 ltac:(lia) ltac:(lia)).
  unfold BITS_PER_LONG. apply find_last_loop_spec; try lia; [apply last_mask_word|].
  intros j Hj. rewrite last_mask_bit by done. lia.
Qed.

End Find.
