(* ===== verification/Bitmap.v ===== *)
(** * Bitmap: lib/bitmap.c and include/linux/bitmap.h

    The operations on arrays of bits.  Routines that fill a destination may be
    called with the destination as one of the sources ([bitmap_or(a, a, b)]);
    an [operand] is another array or the destination itself. *)

From S2P Require Import Prelude Bits FindBit.


Inductive operand :=
| Arr (a : list Z)
| Self.

Definition fetch (dst : list Z) (o : operand) (k : Z) : outcome Z :=
  match o with Arr a => rd a k | Self => rd dst k end.

(** ** Single bits *)

Definition test_bit (nr : Z) (a : list Z) : outcome bool :=
  let* w := rd a (BIT_WORD nr) in Ok (negb (Z.land (Z.shiftr w (nr mod BITS_PER_LONG)) 1 =? 0)).

Definition __set_bit (nr : Z) (a : list Z) : outcome (list Z) :=
  let* w := rd a (BIT_WORD nr) in wr a (BIT_WORD nr) (Z.lor w (BIT_MASK nr)).

Definition __clear_bit (nr : Z) (a : list Z) : outcome (list Z) :=
  let* w := rd a (BIT_WORD nr) in wr a (BIT_WORD nr) (Z.land w (bnot (BIT_MASK nr))).

Definition __change_bit (nr : Z) (a : list Z) : outcome (list Z) :=
  let* w := rd a (BIT_WORD nr) in wr a (BIT_WORD nr) (Z.lxor w (BIT_MASK nr)).

(** ** Comparisons *)

Definition __bitmap_equal (bitmap1 bitmap2 : list Z) (bits : Z) : outcome bool :=
  let lim := bits / BITS_PER_LONG in
  let* x := for_ret 0 lim (fun k _ =>
              let* w1 := rd bitmap1 k in let* w2 := rd bitmap2 k in
              Ok (if negb (w1 =? w2) then inr false else inl tt)) tt in
  match x with
  | inr r => Ok r
  | inl _ =>
    if negb (bits mod BITS_PER_LONG =? 0) then
      let* w1 := rd bitmap1 lim in let* w2 := rd bitmap2 lim in
      Ok (Z.land (Z.lxor w1 w2) (BITMAP_LAST_WORD_MASK bits) =? 0)
    else Ok true
  end.

(** The scan of [__bitmap_intersects] and [__bitmap_subset]: is a bit of the
    words [f w1 w2] set, the unused ones masked out? *)
Definition any_word (f : Z -> Z -> Z) (bitmap1 bitmap2 : list Z) (bits : Z) : outcome bool :=
  let lim := bits / BITS_PER_LONG in
  let* x := for_ret 0 lim (fun k _ =>
              let* w1 := rd bitmap1 k in let* w2 := rd bitmap2 k in
              Ok (if negb (f w1 w2 =? 0) then inr true else inl tt)) tt in
  match x with
  | inr r => Ok r
  | inl _ =>
    if negb (bits mod BITS_PER_LONG =? 0) then
      let* w1 := rd bitmap1 lim in let* w2 := rd bitmap2 lim in
      Ok (negb (Z.land (f w1 w2) (BITMAP_LAST_WORD_MASK bits) =? 0))
    else Ok false
  end.

Definition __bitmap_intersects (bitmap1 bitmap2 : list Z) (bits : Z) : outcome bool :=
  any_word Z.land bitmap1 bitmap2 bits.

Definition __bitmap_subset (bitmap1 bitmap2 : list Z) (bits : Z) : outcome bool :=
  let* r := any_word (fun w1 w2 => Z.land w1 (bnot w2)) bitmap1 bitmap2 bits in Ok (negb r).

Definition __bitmap_weight (bitmap : list Z) (bits : Z) : outcome Z :=
  let lim := bits / BITS_PER_LONG in
  let* w := for_do 0 lim (fun k w => let* x := rd bitmap k in Ok (w + hweight_long x)) 0 in
  if negb (bits mod BITS_PER_LONG =? 0) then
    let* x := rd bitmap lim in Ok (w + hweight_long (Z.land x (BITMAP_LAST_WORD_MASK bits)))
  else Ok w.

(** ** Word-wise combinations *)

Definition __bitmap_complement (dst : list Z) (src : operand) (bits : Z) : outcome (list Z) :=
  let lim := bits / BITS_PER_LONG in
  let* dst := for_do 0 lim (fun k dst => let* w := fetch dst src k in wr dst k (bnot w)) dst in
  if negb (bits mod BITS_PER_LONG =? 0) then let* w := fetch dst src lim in wr dst lim (bnot w)
  else Ok dst.

(** [__bitmap_and] and [__bitmap_andnot]: the last word is masked, and the
    result says whether a bit is set. *)
Definition and_words (f : Z -> Z -> Z) (dst : list Z) (bitmap1 bitmap2 : operand) (bits : Z)
    : outcome (bool * list Z) :=
  let lim := bits / BITS_PER_LONG in
  let* (result, dst) := for_do 0 lim (fun k '(result, dst) =>
      let* w1 := fetch dst bitmap1 k in let* w2 := fetch dst bitmap2 k in
      let* dst := wr dst k (f w1 w2) in Ok (Z.lor result (f w1 w2), dst)) (0, dst) in
  if negb (bits mod BITS_PER_LONG =? 0) then
    let* w1 := fetch dst bitmap1 lim in let* w2 := fetch dst bitmap2 lim in
    let v := Z.land (f w1 w2) (BITMAP_LAST_WORD_MASK bits) in
    let* dst := wr dst lim v in Ok (negb (Z.lor result v =? 0), dst)
  else Ok (negb (result =? 0), dst).

Definition __bitmap_and (dst : list Z) (bitmap1 bitmap2 : operand) (bits : Z) : outcome (bool * list Z) :=
  and_words Z.land dst bitmap1 bitmap2 bits.

Definition __bitmap_andnot (dst : list Z) (bitmap1 bitmap2 : operand) (bits : Z) : outcome (bool * list Z) :=
  and_words (fun w1 w2 => Z.land w1 (bnot w2)) dst bitmap1 bitmap2 bits.

(** [__bitmap_or] and [__bitmap_xor]: whole words. *)
Definition or_words (f : Z -> Z -> Z) (dst : list Z) (bitmap1 bitmap2 : operand) (bits : Z)
    : outcome (list Z) :=
  for_do 0 (BITS_TO_LONGS bits) (fun k dst =>
    let* w1 := fetch dst bitmap1 k in let* w2 := fetch dst bitmap2 k in wr dst k (f w1 w2)) dst.

Definition __bitmap_or (dst : list Z) (bitmap1 bitmap2 : operand) (bits : Z) : outcome (list Z) :=
  or_words Z.lor dst bitmap1 bitmap2 bits.

Definition __bitmap_xor (dst : list Z) (bitmap1 bitmap2 : operand) (bits : Z) : outcome (list Z) :=
  or_words Z.lxor dst bitmap1 bitmap2 bits.

(** [memset(&dst[from], 0, n * sizeof(long))] *)
Definition zero_words (dst : list Z) (from n : Z) : outcome (list Z) :=
  for_do from (from + n) (fun k dst => wr dst k 0) dst.

Definition __bitmap_shift_right (dst : list Z) (src : operand) (shift nbits : Z) : outcome (list Z) :=
  let lim := BITS_TO_LONGS nbits in
  let off := shift / BITS_PER_LONG in
  let rem := shift mod BITS_PER_LONG in
  let mask := BITMAP_LAST_WORD_MASK nbits in
  let* dst := for_do 0 (lim - off) (fun k dst =>
    let* upper :=
      if (rem =? 0) || (lim <=? off + k + 1) then Ok 0
      else
        let* u := fetch dst src (off + k + 1) in
        let u := if off + k + 1 =? lim - 1 then Z.land u mask else u in
        Ok (shl u (BITS_PER_LONG - rem)) in
    let* l := fetch dst src (off + k) in
    let l := if off + k =? lim - 1 then Z.land l mask else l in
    wr dst k (Z.lor (Z.shiftr l rem) upper)) dst in
  if negb (off =? 0) then zero_words dst (lim - off) off else Ok dst.

(** The loop runs from [k = lim - off - 1] down to 0; [i] counts upwards. *)
Definition __bitmap_shift_left (dst : list Z) (src : operand) (shift nbits : Z) : outcome (list Z) :=
  let lim := BITS_TO_LONGS nbits in
  let off := shift / BITS_PER_LONG in
  let rem := shift mod BITS_PER_LONG in
  let* dst := for_do 0 (lim - off) (fun i dst =>
    let k := lim - off - 1 - i in
    let* lower :=
      if negb (rem =? 0) && (0 <? k) then
        let* w := fetch dst src (k - 1) in Ok (Z.shiftr w (BITS_PER_LONG - rem))
      else Ok 0 in
    let* w := fetch dst src k in
    wr dst (k + off) (Z.lor lower (shl w rem))) dst in
  if negb (off =? 0) then zero_words dst 0 off else Ok dst.

(** ** Ranges *)

(** The [while] loop of [bitmap_set]; [p] is the word index. *)
Fixpoint bitmap_set_loop (n : nat) (map : list Z) (p len bits_to_set mask_to_set : Z)
    : outcome (list Z * Z * Z * Z) :=
  match n with
  | O => NoFuel
  | S n =>
    if 0 <=? len - bits_to_set then
      let* w := rd map p in
      let* map := wr map p (Z.lor w mask_to_set) in
      bitmap_set_loop n map (p + 1) (len - bits_to_set) BITS_PER_LONG ULLONG_MAX
    else Ok (map, p, len, mask_to_set)
  end.

Definition bitmap_set (map : list Z) (start len : Z) : outcome (list Z) :=
  let size := u32 (start + len) in
  let bits_to_set := BITS_PER_LONG - start mod BITS_PER_LONG in
  let* (map, p, len, mask_to_set) :=
    bitmap_set_loop (length map + 1) map (BIT_WORD start) len bits_to_set (BITMAP_FIRST_WORD_MASK start) in
  if negb (len =? 0) then
    let mask_to_set := Z.land mask_to_set (BITMAP_LAST_WORD_MASK size) in
    let* w := rd map p in wr map p (Z.lor w mask_to_set)
  else Ok map.

Fixpoint bitmap_clear_loop (n : nat) (map : list Z) (p len bits_to_clear mask_to_clear : Z)
    : outcome (list Z * Z * Z * Z) :=
  match n with
  | O => NoFuel
  | S n =>
    if 0 <=? len - bits_to_clear then
      let* w := rd map p in
      let* map := wr map p (Z.land w (bnot mask_to_clear)) in
      bitmap_clear_loop n map (p + 1) (len - bits_to_clear) BITS_PER_LONG ULLONG_MAX
    else Ok (map, p, len, mask_to_clear)
  end.

Definition bitmap_clear (map : list Z) (start len : Z) : outcome (list Z) :=
  let size := u32 (start + len) in
  let bits_to_clear := BITS_PER_LONG - start mod BITS_PER_LONG in
  let* (map, p, len, mask_to_clear) :=
    bitmap_clear_loop (length map + 1) map (BIT_WORD start) len bits_to_clear (BITMAP_FIRST_WORD_MASK start) in
  if negb (len =? 0) then
    let mask_to_clear := Z.land mask_to_clear (BITMAP_LAST_WORD_MASK size) in
    let* w := rd map p in wr map p (Z.land w (bnot mask_to_clear))
  else Ok map.

Definition __ALIGN_MASK (x mask : Z) : Z := Z.land (u64 (x + mask)) (bnot mask).

(** The [again:] loop; every retry moves [start] up. *)
Fixpoint zero_area_loop (n : nat) (map : list Z) (size start nr align_mask align_offset : Z) : outcome Z :=
  match n with
  | O => NoFuel
  | S n =>
    let* index := find_next_zero_bit map size start in
    let index := u64 (__ALIGN_MASK (u64 (index + align_offset)) align_mask - align_offset) in
    let end_ := u64 (index + nr) in
    if size <? end_ then Ok end_
    else
      let* i := find_next_bit map end_ index in
      if i <? end_ then zero_area_loop n map size (i + 1) nr align_mask align_offset else Ok index
  end.

Definition bitmap_find_next_zero_area_off (map : list Z) (size start nr align_mask align_offset : Z)
    : outcome Z :=
  zero_area_loop (Z.to_nat size + 1) map size start nr align_mask align_offset.

Definition bitmap_find_next_zero_area (map : list Z) (size start nr align_mask : Z) : outcome Z :=
  bitmap_find_next_zero_area_off map size start nr align_mask 0.

(** ** Regions of [1 << order] bits *)

(** The geometry [__reg_op] computes: first word, number of words, and the mask
    applied to each of them. *)
Definition reg_index (pos : Z) : Z := pos / BITS_PER_LONG.
Definition reg_nlongs (order : Z) : Z := BITS_TO_LONGS (Z.shiftl 1 order).
Definition reg_mask (pos order : Z) : Z :=
  let nbits_reg := Z.shiftl 1 order in
  let offset := pos - reg_index pos * BITS_PER_LONG in
  let nbitsinlong := Z.min nbits_reg BITS_PER_LONG in
  let mask := shl 1 (nbitsinlong - 1) in
  let mask := u64 (mask + (mask - 1)) in
  shl mask offset.

Inductive reg_op := REG_OP_ISFREE | REG_OP_ALLOC | REG_OP_RELEASE.

Definition __reg_op (bitmap : list Z) (pos order : Z) (op : reg_op) : outcome (Z * list Z) :=
  let index := reg_index pos in
  let mask := reg_mask pos order in
  match op with
  | REG_OP_ISFREE =>
    let* x := for_ret 0 (reg_nlongs order) (fun i _ =>
      let* w := rd bitmap (index + i) in
      Ok (if negb (Z.land w mask =? 0) then inr 0 else inl tt)) tt in
    match x with inr r => Ok (r, bitmap) | inl _ => Ok (1, bitmap) end
  | REG_OP_ALLOC =>
    let* bitmap := for_do 0 (reg_nlongs order) (fun i bitmap =>
      let* w := rd bitmap (index + i) in wr bitmap (index + i) (Z.lor w mask)) bitmap in
    Ok (0, bitmap)
  | REG_OP_RELEASE =>
    let* bitmap := for_do 0 (reg_nlongs order) (fun i bitmap =>
      let* w := rd bitmap (index + i) in wr bitmap (index + i) (Z.land w (bnot mask))) bitmap in
    Ok (0, bitmap)
  end.

Fixpoint find_free_loop (n : nat) (bitmap : list Z) (bits order pos : Z) : outcome (Z * list Z) :=
  match n with
  | O => NoFuel
  | S n =>
    let end_ := u32 (pos + u32 (Z.shiftl 1 order)) in
    if end_ <=? bits then
      let* (free, _) := __reg_op bitmap pos order REG_OP_ISFREE in
      if free =? 0 then find_free_loop n bitmap bits order end_
      else let* (_, bitmap) := __reg_op bitmap pos order REG_OP_ALLOC in Ok (pos, bitmap)
    else Ok (- ENOMEM, bitmap)
  end.

Definition bitmap_find_free_region (bitmap : list Z) (bits order : Z) : outcome (Z * list Z) :=
  find_free_loop (Z.to_nat bits + 1) bitmap bits order 0.

Definition bitmap_release_region (bitmap : list Z) (pos order : Z) : outcome (list Z) :=
  let* (_, bitmap) := __reg_op bitmap pos order REG_OP_RELEASE in Ok bitmap.

Definition bitmap_allocate_region (bitmap : list Z) (pos order : Z) : outcome (Z * list Z) :=
  let* (free, bitmap) := __reg_op bitmap pos order REG_OP_ISFREE in
  if free =? 0 then Ok (- EBUSY, bitmap) else __reg_op bitmap pos order REG_OP_ALLOC.

(** ** Ordinals, remapping *)

Definition bitmap_pos_to_ord (buf : list Z) (pos nbits : Z) : outcome Z :=
  if nbits <=? pos then Ok (-1)
  else
    let* b := test_bit pos buf in
    if negb b then Ok (-1) else __bitmap_weight buf pos.

Fixpoint ord_to_pos_loop (n : nat) (buf : list Z) (ord nbits pos : Z) : outcome Z :=
  match n with
  | O => NoFuel
  | S n =>
    if (pos <? nbits) && negb (ord =? 0) then
      let* pos := find_next_bit buf nbits (pos + 1) in ord_to_pos_loop n buf (ord - 1) nbits pos
    else Ok pos
  end.

Definition bitmap_ord_to_pos (buf : list Z) (ord nbits : Z) : outcome Z :=
  let* pos := find_first_bit buf nbits in
  ord_to_pos_loop (Z.to_nat nbits + 1) buf ord nbits pos.

(** [for_each_set_bit(bit, addr, size) body] *)
Fixpoint each_set_loop {S : Type} (n : nat) (addr : list Z) (size : Z) (body : Z -> S -> outcome S)
    (bit : Z) (s : S) : outcome S :=
  match n with
  | O => NoFuel
  | Datatypes.S n =>
    if bit <? size then
      let* s := body bit s in
      let* bit := find_next_bit addr size (bit + 1) in
      each_set_loop n addr size body bit s
    else Ok s
  end.

Definition for_each_set_bit {S : Type} (addr : list Z) (size : Z) (body : Z -> S -> outcome S) (s : S)
    : outcome S :=
  let* bit := find_first_bit addr size in
  each_set_loop (Z.to_nat size + 1) addr size body bit s.

(** [const] says that [nbits] is a compile-time constant: then
    [small_const_nbits] selects the one-word variant. *)
Definition small_const_nbits (const : bool) (nbits : Z) : bool := const && (nbits <=? BITS_PER_LONG).

Definition bitmap_zero (const : bool) (dst : list Z) (nbits : Z) : outcome (list Z) :=
  if small_const_nbits const nbits then wr dst 0 0 else zero_words dst 0 (BITS_TO_LONGS nbits).

Definition bitmap_fill (const : bool) (dst : list Z) (nbits : Z) : outcome (list Z) :=
  let nlongs := BITS_TO_LONGS nbits in
  let* dst := if negb (small_const_nbits const nbits)
              then for_do 0 (nlongs - 1) (fun k dst => wr dst k ULLONG_MAX) dst else Ok dst in
  wr dst (nlongs - 1) (BITMAP_LAST_WORD_MASK nbits).

Definition bitmap_copy (const : bool) (dst src : list Z) (nbits : Z) : outcome (list Z) :=
  if small_const_nbits const nbits then let* w := rd src 0 in wr dst 0 w
  else for_do 0 (BITS_TO_LONGS nbits) (fun k dst => let* w := rd src k in wr dst k w) dst.

Definition bitmap_and (const : bool) (dst : list Z) (src1 src2 : operand) (nbits : Z)
    : outcome (bool * list Z) :=
  if small_const_nbits const nbits then
    let* w1 := fetch dst src1 0 in let* w2 := fetch dst src2 0 in
    let v := Z.land (Z.land w1 w2) (BITMAP_LAST_WORD_MASK nbits) in
    let* dst := wr dst 0 v in Ok (negb (v =? 0), dst)
  else __bitmap_and dst src1 src2 nbits.

Definition bitmap_or (const : bool) (dst : list Z) (src1 src2 : operand) (nbits : Z) : outcome (list Z) :=
  if small_const_nbits const nbits then
    let* w1 := fetch dst src1 0 in let* w2 := fetch dst src2 0 in wr dst 0 (Z.lor w1 w2)
  else __bitmap_or dst src1 src2 nbits.

Definition bitmap_xor (const : bool) (dst : list Z) (src1 src2 : operand) (nbits : Z) : outcome (list Z) :=
  if small_const_nbits const nbits then
    let* w1 := fetch dst src1 0 in let* w2 := fetch dst src2 0 in wr dst 0 (Z.lxor w1 w2)
  else __bitmap_xor dst src1 src2 nbits.

Definition bitmap_andnot (const : bool) (dst : list Z) (src1 src2 : operand) (nbits : Z)
    : outcome (bool * list Z) :=
  if small_const_nbits const nbits then
    let* w1 := fetch dst src1 0 in let* w2 := fetch dst src2 0 in
    let v := Z.land (Z.land w1 (bnot w2)) (BITMAP_LAST_WORD_MASK nbits) in
    let* dst := wr dst 0 v in Ok (negb (v =? 0), dst)
  else __bitmap_andnot dst src1 src2 nbits.

Definition bitmap_complement (const : bool) (dst : list Z) (src : operand) (nbits : Z) : outcome (list Z) :=
  if small_const_nbits const nbits then let* w := fetch dst src 0 in wr dst 0 (bnot w)
  else __bitmap_complement dst src nbits.

Definition bitmap_equal (const : bool) (src1 src2 : list Z) (nbits : Z) : outcome bool :=
  if small_const_nbits const nbits then
    let* w1 := rd src1 0 in let* w2 := rd src2 0 in
    Ok (Z.land (Z.lxor w1 w2) (BITMAP_LAST_WORD_MASK nbits) =? 0)
  else __bitmap_equal src1 src2 nbits.

Definition bitmap_intersects (const : bool) (src1 src2 : list Z) (nbits : Z) : outcome bool :=
  if small_const_nbits const nbits then
    let* w1 := rd src1 0 in let* w2 := rd src2 0 in
    Ok (negb (Z.land (Z.land w1 w2) (BITMAP_LAST_WORD_MASK nbits) =? 0))
  else __bitmap_intersects src1 src2 nbits.

Definition bitmap_subset (const : bool) (src1 src2 : list Z) (nbits : Z) : outcome bool :=
  if small_const_nbits const nbits then
    let* w1 := rd src1 0 in let* w2 := rd src2 0 in
    Ok (Z.land (Z.land w1 (bnot w2)) (BITMAP_LAST_WORD_MASK nbits) =? 0)
  else __bitmap_subset src1 src2 nbits.

Definition bitmap_empty (const : bool) (src : list Z) (nbits : Z) : outcome bool :=
  if small_const_nbits const nbits then
    let* w := rd src 0 in Ok (Z.land w (BITMAP_LAST_WORD_MASK nbits) =? 0)
  else let* r := find_first_bit src nbits in Ok (r =? nbits).

Definition bitmap_full (const : bool) (src : list Z) (nbits : Z) : outcome bool :=
  if small_const_nbits const nbits then
    let* w := rd src 0 in Ok (Z.land (bnot w) (BITMAP_LAST_WORD_MASK nbits) =? 0)
  else let* r := find_first_zero_bit src nbits in Ok (r =? nbits).

Definition bitmap_weight (const : bool) (src : list Z) (nbits : Z) : outcome Z :=
  if small_const_nbits const nbits then
    let* w := rd src 0 in Ok (hweight_long (Z.land w (BITMAP_LAST_WORD_MASK nbits)))
  else __bitmap_weight src nbits.

Definition bitmap_shift_right (const : bool) (dst : list Z) (src : operand) (shift nbits : Z)
    : outcome (list Z) :=
  if small_const_nbits const nbits then
    let* w := fetch dst src 0 in wr dst 0 (Z.shiftr (Z.land w (BITMAP_LAST_WORD_MASK nbits)) shift)
  else __bitmap_shift_right dst src shift nbits.

Definition bitmap_shift_left (const : bool) (dst : list Z) (src : operand) (shift nbits : Z)
    : outcome (list Z) :=
  if small_const_nbits const nbits then
    let* w := fetch dst src 0 in wr dst 0 (Z.land (shl w shift) (BITMAP_LAST_WORD_MASK nbits))
  else __bitmap_shift_left dst src shift nbits.

(** The routines below return at once when destination and source are the
    same array; [dst] and the sources are different arrays here.  Inside
    [lib/bitmap.c] the sizes are not compile-time constants. *)
Definition bitmap_remap (dst src old new : list Z) (nbits : Z) : outcome (list Z) :=
  let* dst := bitmap_zero false dst nbits in
  let* w := bitmap_weight false new nbits in
  for_each_set_bit src nbits (fun oldbit dst =>
    let* n := bitmap_pos_to_ord old oldbit nbits in
    if (n <? 0) || (w =? 0) then __set_bit oldbit dst
    else let* p := bitmap_ord_to_pos new (n mod w) nbits in __set_bit p dst) dst.

Definition bitmap_bitremap (oldbit : Z) (old new : list Z) (bits : Z) : outcome Z :=
  let* w := bitmap_weight false new bits in
  let* n := bitmap_pos_to_ord old oldbit bits in
  if (n <? 0) || (w =? 0) then Ok oldbit else bitmap_ord_to_pos new (n mod w) bits.

Definition bitmap_onto (dst orig relmap : list Z) (bits : Z) : outcome (list Z) :=
  let* dst := bitmap_zero false dst bits in
  let* (dst, _) := for_each_set_bit relmap bits (fun n '(dst, m) =>
    let* b := test_bit m orig in
    let* dst := if b then __set_bit n dst else Ok dst in Ok (dst, m + 1)) (dst, 0) in
  Ok dst.

Definition bitmap_fold (dst orig : list Z) (sz nbits : Z) : outcome (list Z) :=
  let* dst := bitmap_zero false dst nbits in
  for_each_set_bit orig nbits (fun oldbit dst => __set_bit (oldbit mod sz) dst) dst.
