(* ===== verification/BitmapFacts.v ===== *)
(** * BitmapFacts: the bitmap operations bit by bit

    Each routine of [Bitmap] terminates, stays inside its arrays and computes
    the stated function of the bits; the bits above [nbits] are described too,
    since other routines depend on what is left there. *)

From S2P Require Import Prelude Bits FindBit Bitmap.

Definition resolve (dst : list Z) (o : operand) : list Z :=
  match o with Arr a => a | Self => dst end.

Lemma lim_bounds bits : 0 <= bits -> 0 <= bits / 64 /\ 64 * (bits / 64) <= bits < 64 * (bits / 64) + 64.
Proof. intros. destruct (bit_eta bits). pose proof (Z.div_pos bits 64). lia. Qed.

Lemma longs_bounds bits : 0 <= bits -> 0 <= BITS_TO_LONGS bits /\ bits <= 64 * BITS_TO_LONGS bits < bits + 64.
Proof.
  intros. unfold BITS_TO_LONGS, BITS_PER_LONG. destruct (bit_eta (bits + (64 - 1))).
  pose proof (Z.div_pos (bits + (64 - 1)) 64). lia.
Qed.

(** ** Writing an array word by word *)

(** The words below [k] hold [h], the others still [d]. *)
Definition upto (h d : Z -> bool) (k : Z) (a : list Z) : Prop :=
  forall i, 0 <= i -> bit a i = if i <? 64 * k then h i else d i.

Lemma store_upto h d k a v : words a -> is_word v -> 0 <= k < Z.of_nat (length a) ->
  (forall j, 0 <= j < 64 -> Z.testbit v j = h (64 * k + j)) -> upto h d k a ->
  exists a', wr a k v = Ok a' /\ words a' /\ length a' = length a /\ upto h d (k + 1) a'.
Proof.
  intros Ha Hv Hk Hvb Hup. destruct (wr_word a k v Ha Hv Hk) as (a'&->&Hwa'&Hlen&Hbit).
  exists a'. split_and!; [done..|]. intros i Hi. rewrite Hbit by done. destruct (bit_eta i) as [Heta Hm].
  destruct (i / 64 =? k) eqn:E.
  - rewrite Hvb by done. replace (64 * k + i mod 64) with i by lia. case_if; [done|lia].
  - rewrite Hup by done. case_ifs; done.
Qed.

Lemma fetch_word dst o a k : words a -> words (resolve dst o) -> length a = length dst ->
  0 <= k < Z.of_nat (length (resolve dst o)) ->
  (forall i, 64 * k <= i < 64 * k + 64 -> bit a i = bit dst i) ->
  exists w, fetch a o k = Ok w /\ is_word w /\ forall j, 0 <= j < 64 -> Z.testbit w j = bit (resolve dst o) (64 * k + j).
Proof.
  intros Ha Ho Hlen Hk Hsame. destruct o as [b|]; simpl in *.
  - by apply rd_word.
  - destruct (rd_word a k Ha) as (w&Hr&Hw&Hb); [lia|]. exists w. split_and!; [done..|].
    intros j Hj. rewrite Hb by done. apply Hsame. lia.
Qed.

(** ** Comparisons *)

Lemma land_last_mask w bits k : is_word w -> 0 < bits -> k = (bits - 1) / 64 ->
  forall j, 0 <= j < 64 ->
  Z.testbit (Z.land w (BITMAP_LAST_WORD_MASK bits)) j = Z.testbit w j && (64 * k + j <? bits).
Proof.
  intros Hw Hb -> j Hj. rewrite Z.land_spec, last_mask_bit by done. destruct (bit_eta (bits - 1)).
  f_equal. lia.
Qed.

Lemma partial_word bits : 0 <= bits -> (bits mod 64 =? 0) = false -> bits / 64 = (bits - 1) / 64 /\ 0 < bits.
Proof.
  intros Hb Hm. destruct (bit_eta bits). assert (0 < bits) by (destruct (decide (bits = 0)) as [->|]; [done|lia]).
  split; [|done]. apply (Z.div_unique _ _ _ (bits mod 64 - 1)); lia.
Qed.

Section Any.
Context (f : Z -> Z -> Z) (g : bool -> bool -> bool).
Hypothesis f_word : forall a b, is_word a -> is_word b -> is_word (f a b).
Hypothesis f_bit : forall a b j, 0 <= j < 64 -> Z.testbit (f a b) j = g (Z.testbit a j) (Z.testbit b j).

Lemma any_word_spec b1 b2 bits : words b1 -> words b2 -> 0 <= bits <= capacity b1 -> bits <= capacity b2 ->
  exists r, any_word f b1 b2 bits = Ok r /\
    (r = true <-> exists i, 0 <= i < bits /\ g (bit b1 i) (bit b2 i) = true).
Proof.
  intros H1 H2 Hc1 Hc2. unfold any_word. change BITS_PER_LONG with 64. unfold capacity in *.
  destruct (lim_bounds bits ltac:(lia)) as [Hl1 Hl2]. set (lim := bits / 64) in *.
  destruct (for_ret_inv (fun k (_ : unit) => forall i, 0 <= i < 64 * k -> g (bit b1 i) (bit b2 i) = false)
    (fun r => r = true /\ exists i, 0 <= i < bits /\ g (bit b1 i) (bit b2 i) = true) 0 lim
    (fun k _ => let* w1 := rd b1 k in let* w2 := rd b2 k in Ok (if negb (f w1 w2 =? 0) then inr true else inl tt)) tt)
    as ([[]|r]&->&Hx); [lia|lia| | |].
  - intros k [] Hk Hno. destruct (rd_word b1 k H1) as (w1&->&Hw1&Hb1); [lia|].
    destruct (rd_word b2 k H2) as (w2&->&Hw2&Hb2); [lia|]. cbn [obind].
    pose proof (f_word w1 w2 Hw1 Hw2) as Hf. destruct (f w1 w2 =? 0) eqn:E; cbn [negb]; eexists; (split; [done|]); cbv beta iota.
    + intros i Hi. destruct (decide (i < 64 * k)); [apply Hno; lia|]. apply Z.eqb_eq in E.
      assert (Hz : Z.testbit (f w1 w2) (i - 64 * k) = false) by (rewrite E; apply Z.bits_0).
      rewrite f_bit, Hb1, Hb2 in Hz by lia. by replace (64 * k + (i - 64 * k)) with i in Hz by lia.
    + split; [done|]. destruct (word_nonzero _ Hf) as (j&Hj&Hjb); [lia|]. rewrite f_bit, Hb1, Hb2 in Hjb by lia.
      exists (64 * k + j). split; [lia|done].
  - cbn [obind]. destruct (bits mod 64 =? 0) eqn:E; cbn [negb].
    + exists false. split; [done|]. split; [done|]. intros (i&Hi&Hg). destruct (bit_eta bits).
      rewrite Hx in Hg; [done|]. fold lim in H. lia.
    + destruct (partial_word bits ltac:(lia) E) as [Hk Hpos].
      destruct (rd_word b1 lim H1) as (w1&->&Hw1&Hb1); [lia|]. destruct (rd_word b2 lim H2) as (w2&->&Hw2&Hb2); [lia|]. cbn [obind].
      pose proof (land_last_mask (f w1 w2) bits lim (f_word _ _ Hw1 Hw2) Hpos Hk) as Hlast.
      assert (Hlw : is_word (Z.land (f w1 w2) (BITMAP_LAST_WORD_MASK bits)))
        by (apply land_word; [by apply f_word|apply last_mask_word]).
      eexists. split; [done|]. split.
      * intros Hr. destruct (word_nonzero _ Hlw) as (j&Hj&Hjb); [lia|]. rewrite Hlast, f_bit, Hb1, Hb2 in Hjb by lia.
        apply andb_prop in Hjb as [??]. exists (64 * lim + j). split; [lia|done].
      * intros (i&Hi&Hg). destruct (decide (i < 64 * lim)); [rewrite Hx in Hg; [done|lia]|].
        destruct (Z.land _ _ =? 0) eqn:Ez; [|done]. apply Z.eqb_eq in Ez.
        specialize (Hlast (i - 64 * lim) ltac:(lia)). rewrite Ez, Z.bits_0, f_bit, Hb1, Hb2 in Hlast by lia.
        replace (64 * lim + (i - 64 * lim)) with i in Hlast by lia. rewrite Hg in Hlast. lia.
  - cbn [obind]. exists r. split; [done|]. destruct Hx as [-> ?]. done.
Qed.
End Any.

Lemma intersects_spec b1 b2 bits : words b1 -> words b2 -> 0 <= bits <= capacity b1 -> bits <= capacity b2 ->
  exists r, __bitmap_intersects b1 b2 bits = Ok r /\
    (r = true <-> exists i, 0 <= i < bits /\ bit b1 i = true /\ bit b2 i = true).
Proof.
  intros. destruct (any_word_spec Z.land andb) with (b1 := b1) (b2 := b2) (bits := bits) as (r&Hr&Hiff); try done.
  - intros a b Ha Hb. apply land_word; [done|unfold is_word in *; lia].
  - intros a b j Hj. apply Z.land_spec.
  - exists r. split; [done|]. rewrite Hiff. split; intros (i&Hi&Hb); exists i; (split; [done|]).
    + by apply andb_prop in Hb.
    + by apply andb_true_intro.
Qed.

Lemma andnot_bit a b j : 0 <= j < 64 -> Z.testbit (Z.land a (bnot b)) j = Z.testbit a j && negb (Z.testbit b j).
Proof. intros. by rewrite Z.land_spec, bnot_bit. Qed.

Lemma subset_spec b1 b2 bits : words b1 -> words b2 -> 0 <= bits <= capacity b1 -> bits <= capacity b2 ->
  exists r, __bitmap_subset b1 b2 bits = Ok r /\
    (r = true <-> forall i, 0 <= i < bits -> bit b1 i = true -> bit b2 i = true).
Proof.
  intros. unfold __bitmap_subset.
  destruct (any_word_spec (fun w1 w2 => Z.land w1 (bnot w2)) (fun a b => a && negb b)) with (b1 := b1) (b2 := b2) (bits := bits)
    as (r&->&Hiff); try done.
  - intros a b Ha Hb. apply land_word; [done|apply bnot_word].
  - intros. by apply andnot_bit.
  - cbn [obind]. exists (negb r). split; [done|]. split.
    + intros ->%negb_true_iff i Hi Hb1. destruct (bit b2 i) eqn:Hb2; [done|].
      apply Hiff. exists i. by rewrite Hb1, Hb2.
    + intros Hall. destruct r; [|done]. destruct (proj1 Hiff eq_refl) as (i&Hi&Hb).
      destruct (bit b1 i) eqn:Hb1; [|done]. rewrite (Hall i Hi Hb1) in Hb. done.
Qed.

(** Comparing two words is looking for a set bit of their [xor]. *)
Lemma equal_loop b1 b2 n : forall k,
  for_loop_ret n k (fun k (_ : unit) => let* w1 := rd b1 k in let* w2 := rd b2 k in
    Ok (if negb (w1 =? w2) then inr false else inl tt)) tt =
  (let* x := for_loop_ret n k (fun k (_ : unit) => let* w1 := rd b1 k in let* w2 := rd b2 k in
     Ok (if negb (Z.lxor w1 w2 =? 0) then inr true else inl tt)) tt in
   Ok (match x with inl u => inl u | inr r => inr (negb r) end)).
Proof.
  induction n as [|n IH]; intros k; cbn [for_loop_ret]; [done|].
  destruct (rd b1 k) as [w1| |]; cbn [obind]; try done. destruct (rd b2 k) as [w2| |]; cbn [obind]; try done.
  assert ((Z.lxor w1 w2 =? 0) = (w1 =? w2)) as ->.
  { destruct (w1 =? w2) eqn:E; [apply Z.eqb_eq in E as ->; by rewrite Z.lxor_nilpotent|].
    destruct (Z.lxor w1 w2 =? 0) eqn:E2; [|done]. apply Z.eqb_eq, Z.lxor_eq in E2. lia. }
  destruct (w1 =? w2); cbn; [apply IH|done].
Qed.

Lemma equal_spec b1 b2 bits : words b1 -> words b2 -> 0 <= bits <= capacity b1 -> bits <= capacity b2 ->
  exists r, __bitmap_equal b1 b2 bits = Ok r /\ (r = true <-> forall i, 0 <= i < bits -> bit b1 i = bit b2 i).
Proof.
  intros H1 H2 Hc1 Hc2.
  assert (Hany : __bitmap_equal b1 b2 bits = (let* r := any_word Z.lxor b1 b2 bits in Ok (negb r))).
  { unfold __bitmap_equal, any_word. cbv zeta. rewrite obind_assoc.
    pose proof (equal_loop b1 b2 (Z.to_nat (bits / BITS_PER_LONG - 0)) 0) as Hloop. unfold for_ret.
    rewrite Hloop, obind_assoc.
    match goal with |- obind ?l _ = obind ?l' _ => change l' with l; destruct l as [[[]|r]| |] end; cbn [obind]; try done.
    case_if; [|done]. destruct (rd b1 _) as [w1| |]; cbn [obind]; try done. destruct (rd b2 _) as [w2| |]; cbn [obind]; try done.
    by rewrite negb_involutive. }
  destruct (any_word_spec Z.lxor xorb) with (b1 := b1) (b2 := b2) (bits := bits) as (r&Hr&Hiff); try done.
  - intros. by apply lxor_word.
  - intros a b j Hj. apply Z.lxor_spec.
  - rewrite Hany, Hr. cbn [obind]. exists (negb r). split; [done|]. split.
    + intros ->%negb_true_iff i Hi. destruct (bit b1 i) eqn:E1, (bit b2 i) eqn:E2; try done;
        (assert (false = true); [apply Hiff; exists i; by rewrite E1, E2|done]).
    + intros Hall. destruct r; [|done]. destruct (proj1 Hiff eq_refl) as (i&Hi&Hb). rewrite Hall, xorb_nilpotent in Hb; done.
Qed.

(** ** Word-wise combinations *)

(** What a routine that fills [dst] with [h] below [n] words leaves. *)
Definition filled (h : Z -> bool) (n : Z) (dst dst' : list Z) : Prop :=
  words dst' /\ length dst' = length dst /\ upto h (bit dst) n dst'.

Lemma filled_start h dst : words dst -> filled h 0 dst dst.
Proof. intros Hd. split_and!; [done..|]. intros i Hi. case_if; [lia|done]. Qed.

Lemma store_filled h k dst a v : filled h k dst a -> is_word v -> 0 <= k < Z.of_nat (length dst) ->
  (forall j, 0 <= j < 64 -> Z.testbit v j = h (64 * k + j)) ->
  exists a', wr a k v = Ok a' /\ filled h (k + 1) dst a'.
Proof.
  intros (Ha&Hl&Hup) Hv Hk Hb. destruct (store_upto h (bit dst) k a v) as (a'&->&?&?&?); try done; [lia|].
  exists a'. split; [done|]. split_and!; [done|congruence|done].
Qed.

Lemma fetch_filled h k dst a o : filled h k dst a -> words (resolve dst o) ->
  0 <= k < Z.of_nat (length (resolve dst o)) ->
  exists w, fetch a o k = Ok w /\ is_word w /\ forall j, 0 <= j < 64 -> Z.testbit w j = bit (resolve dst o) (64 * k + j).
Proof.
  intros (Ha&Hl&Hup) Ho Hk. apply fetch_word; try done. intros i Hi. rewrite Hup by lia. case_if; [lia|done].
Qed.

(** [res] is non-zero iff one of the first [k] words of [h] has a bit. *)
Definition some_set (h : Z -> bool) (k res : Z) : Prop :=
  negb (res =? 0) = true <-> exists i, 0 <= i < 64 * k /\ h i = true.

Lemma some_set_step h k res v : is_word res -> is_word v -> some_set h k res -> 0 <= k ->
  (forall j, 0 <= j < 64 -> Z.testbit v j = h (64 * k + j)) ->
  is_word (Z.lor res v) /\ some_set h (k + 1) (Z.lor res v).
Proof.
  intros Hr Hv Hres Hk Hb. split; [by apply lor_word|]. unfold some_set in *.
  rewrite negb_true_iff, Z.eqb_neq, Z.lor_eq_0_iff in *. split.
  - intros Hne. destruct (decide (res = 0)) as [Hz|Hz].
    + destruct (word_nonzero v Hv) as (j&Hj&Hjb); [intros ->; by apply Hne|]. exists (64 * k + j). rewrite <- Hb by done. split; [lia|done].
    + destruct (proj1 Hres Hz) as (i&Hi&?). exists i. split; [lia|done].
  - intros (i&Hi&Hh) [-> ->]. destruct (decide (i < 64 * k)); [by apply Hres; [exists i; split; [lia|done]|]|].
    specialize (Hb (i - 64 * k) ltac:(lia)). rewrite Z.bits_0 in Hb. replace (64 * k + (i - 64 * k)) with i in Hb by lia. congruence.
Qed.

Section Combine.
Context (f : Z -> Z -> Z) (g : bool -> bool -> bool).
Hypothesis f_word : forall a b, is_word a -> is_word b -> is_word (f a b).
Hypothesis f_bit : forall a b j, 0 <= j < 64 -> Z.testbit (f a b) j = g (Z.testbit a j) (Z.testbit b j).
Context (dst : list Z) (o1 o2 : operand) (bits : Z).
Hypothesis Hd : words dst.
Hypothesis H1 : words (resolve dst o1).
Hypothesis H2 : words (resolve dst o2).
Hypothesis Hbits : 0 <= bits <= capacity dst.
Hypothesis Hc1 : bits <= capacity (resolve dst o1).
Hypothesis Hc2 : bits <= capacity (resolve dst o2).

Definition comb (i : Z) : bool := g (bit (resolve dst o1) i) (bit (resolve dst o2) i).

Lemma fetch_comb h k a : filled h k dst a -> 0 <= k -> 64 * k < bits ->
  exists w1 w2, fetch a o1 k = Ok w1 /\ fetch a o2 k = Ok w2 /\ is_word (f w1 w2) /\
    forall j, 0 <= j < 64 -> Z.testbit (f w1 w2) j = comb (64 * k + j).
Proof.
  intros Hf Hk Hlt. unfold capacity in *.
  destruct (fetch_filled h k dst a o1) as (w1&?&?&Hb1); try done; [lia|].
  destruct (fetch_filled h k dst a o2) as (w2&?&?&Hb2); try done; [lia|].
  exists w1, w2. split_and!; [done|done|by apply f_word|]. intros j Hj. unfold comb. by rewrite f_bit, Hb1, Hb2.
Qed.

Lemma or_words_spec : exists dst', or_words f dst o1 o2 bits = Ok dst' /\ filled comb (BITS_TO_LONGS bits) dst dst'.
Proof.
  destruct (longs_bounds bits) as [Hn0 Hn]; [lia|]. unfold or_words.
  apply (for_do_inv (fun k a => filled comb k dst a)); [done|by apply filled_start|].
  intros k a Hk Hf. destruct (fetch_comb comb k a) as (w1&w2&->&->&Hw&Hb); [done|lia|lia|]. cbn [obind].
  apply store_filled; try done. unfold capacity in *. lia.
Qed.

(** The bits at and above [bits] of the last word come out clear. *)
Definition comb_masked (i : Z) : bool := comb i && (i <? bits).

Lemma masked_some n res : bits <= 64 * n -> some_set comb_masked n res ->
  negb (res =? 0) = true <-> exists i, 0 <= i < bits /\ comb i = true.
Proof.
  unfold some_set, comb_masked. intros Hn ->. split; intros (i&Hi&Hc); exists i.
  - apply andb_prop in Hc as [? ?]. split; [lia|done].
  - rewrite Hc. split; [lia|]. simpl. lia.
Qed.

Lemma and_words_spec : exists r dst', and_words f dst o1 o2 bits = Ok (r, dst') /\
  filled comb_masked (BITS_TO_LONGS bits) dst dst' /\
  (r = true <-> exists i, 0 <= i < bits /\ comb i = true).
Proof.
  destruct (longs_bounds bits) as [Hn0 Hn]; [lia|]. destruct (lim_bounds bits) as [Hl0 Hl]; [lia|].
  unfold and_words. change BITS_PER_LONG with 64. set (lim := bits / 64) in *. unfold capacity in *.
  set (I := fun k '(res, a) => is_word res /\ filled comb_masked k dst a /\ some_set comb_masked k res).
  destruct (for_do_inv I 0 lim (fun k '(result, dst) =>
      let* w1 := fetch dst o1 k in let* w2 := fetch dst o2 k in
      let* dst := wr dst k (f w1 w2) in Ok (Z.lor result (f w1 w2), dst)) (0, dst)) as ([res a]&->&Hres&Hfill&Hz); [lia| | |].
  - split_and!; [by unfold is_word|by apply filled_start|]. split; [done|]. intros (i&Hi&_). lia.
  - intros k [res a] Hk (Hres&Hf&Hz). destruct (fetch_comb comb_masked k a) as (w1&w2&->&->&Hw&Hb); [done|lia|lia|]. cbn [obind].
    assert (Hb' : forall j, 0 <= j < 64 -> Z.testbit (f w1 w2) j = comb_masked (64 * k + j)).
    { intros j Hj. rewrite Hb by done. unfold comb_masked. destruct (_ <? bits) eqn:E; [by rewrite andb_true_r|lia]. }
    destruct (store_filled comb_masked k dst a (f w1 w2)) as (a'&->&Hf'); try done; [lia|]. cbn [obind].
    eexists. split; [done|]. destruct (some_set_step comb_masked k res (f w1 w2)) as [? ?]; try done. lia.
  - cbn [obind]. destruct (bits mod 64 =? 0) eqn:E; cbn [negb].
    + destruct (bit_eta bits) as [Heta _]. fold lim in Heta. assert (Hlim : BITS_TO_LONGS bits = lim) by lia.
      exists (negb (res =? 0)), a. rewrite Hlim in *. split_and!; [done|done|apply (masked_some lim); [lia|done]].
    + destruct (partial_word bits ltac:(lia) E) as [Hk Hpos].
      destruct (bit_eta bits) as [Heta _]. fold lim in Heta. assert (Hlim : BITS_TO_LONGS bits = lim + 1) by lia.
      destruct (fetch_comb comb_masked lim a) as (w1&w2&->&->&Hw&Hb); [done|lia|lia|]. cbn [obind].
      pose proof (land_last_mask (f w1 w2) bits lim Hw Hpos Hk) as Hlast. set (v := Z.land (f w1 w2) _) in *.
      assert (Hv : is_word v) by (apply land_word; [done|apply last_mask_word]).
      assert (Hvb : forall j, 0 <= j < 64 -> Z.testbit v j = comb_masked (64 * lim + j)) by (intros; by rewrite Hlast, Hb).
      destruct (store_filled comb_masked lim dst a v) as (a'&->&Hf'); try done; [lia|]. cbn [obind].
      destruct (some_set_step comb_masked lim res v) as [_ Hs]; try done.
      rewrite Hlim in *. eexists _, a'. split_and!; [done|done|apply (masked_some (lim + 1)); [lia|done]].
Qed.
End Combine.

Lemma complement_spec dst o bits : words dst -> words (resolve dst o) ->
  0 <= bits <= capacity dst -> bits <= capacity (resolve dst o) ->
  exists dst', __bitmap_complement dst o bits = Ok dst' /\
    filled (fun i => negb (bit (resolve dst o) i)) (BITS_TO_LONGS bits) dst dst'.
Proof.
  intros Hd Ho Hb Hc. destruct (longs_bounds bits) as [Hn0 Hn]; [lia|]. destruct (lim_bounds bits) as [Hl0 Hl]; [lia|].
  unfold __bitmap_complement, capacity in *. change BITS_PER_LONG with 64. set (lim := bits / 64) in *.
  set (h := fun i => negb (bit (resolve dst o) i)).
  assert (Hstep : forall k a, 0 <= k -> 64 * k < bits -> filled h k dst a ->
    exists a', (let* w := fetch a o k in wr a k (bnot w)) = Ok a' /\ filled h (k + 1) dst a').
  { intros k a Hk Hlt Hf. destruct (fetch_filled h k dst a o) as (w&->&Hw&Hwb); try done; [lia|]. cbn [obind].
    apply store_filled; [done|apply bnot_word|lia|]. intros j Hj. rewrite bnot_bit by done. unfold h. by rewrite Hwb. }
  destruct (for_do_inv (fun k a => filled h k dst a) 0 lim (fun k dst => let* w := fetch dst o k in wr dst k (bnot w)) dst)
    as (a&->&Hf); [lia|by apply filled_start|intros; apply Hstep; [lia|lia|done]|].
  cbn [obind]. destruct (bit_eta bits) as [Heta _]. fold lim in Heta. destruct (bits mod 64 =? 0) eqn:E; cbn [negb].
  - exists a. split; [done|]. by replace (BITS_TO_LONGS bits) with lim by lia.
  - replace (BITS_TO_LONGS bits) with (lim + 1) by lia. apply Hstep; [lia|lia|done].
Qed.

(** ** Constants and copies *)

Lemma zero_words_spec dst from n : words dst -> 0 <= from -> 0 <= n -> from + n <= Z.of_nat (length dst) ->
  exists dst', zero_words dst from n = Ok dst' /\ words dst' /\ length dst' = length dst /\
    forall i, 0 <= i -> bit dst' i = if (64 * from <=? i) && (i <? 64 * (from + n)) then false else bit dst i.
Proof.
  intros Hd Hf Hn Hlen. unfold zero_words.
  destruct (for_do_inv (fun k a => words a /\ length a = length dst /\
    forall i, 0 <= i -> bit a i = if (64 * from <=? i) && (i <? 64 * k) then false else bit dst i)
    from (from + n) (fun k dst => wr dst k 0) dst) as (a&->&Ha&Hla&Hb); [lia| | |by exists a].
  - split_and!; [done..|]. intros i Hi. case_if; [lia|done].
  - intros k a Hk (Ha&Hla&Hb). destruct (wr_word a k 0 Ha) as (a'&->&Ha'&Hla'&Hb'); [by unfold is_word|lia|].
    exists a'. split_and!; [done|done|congruence|]. intros i Hi. rewrite Hb', Hb by done. destruct (bit_eta i) as [? ?].
    rewrite Z.bits_0. case_ifs; done.
Qed.

Lemma bitmap_zero_spec dst nbits : words dst -> 0 <= nbits <= capacity dst ->
  exists dst', bitmap_zero false dst nbits = Ok dst' /\ filled (fun _ => false) (BITS_TO_LONGS nbits) dst dst'.
Proof.
  intros Hd Hn. destruct (longs_bounds nbits) as [Hn0 Hn1]; [lia|]. unfold bitmap_zero. simpl.
  destruct (zero_words_spec dst 0 (BITS_TO_LONGS nbits)) as (a&->&?&?&Hb); try done; unfold capacity in *; try lia.
  exists a. split; [done|]. split_and!; try done. intros i Hi. rewrite Hb by done. case_ifs; done.
Qed.

Lemma bitmap_fill_spec const dst nbits : words dst -> 0 < nbits <= capacity dst ->
  exists dst', bitmap_fill const dst nbits = Ok dst' /\ filled (fun i => i <? nbits) (BITS_TO_LONGS nbits) dst dst'.
Proof.
  intros Hd Hn. destruct (longs_bounds nbits) as [Hn0 Hn1]; [lia|]. unfold bitmap_fill, capacity in *.
  set (h := fun i => i <? nbits). set (n := BITS_TO_LONGS nbits) in *.
  assert (Hpre : exists a, (if negb (small_const_nbits const nbits) then for_do 0 (n - 1) (fun k dst => wr dst k ULLONG_MAX) dst else Ok dst) = Ok a
    /\ filled h (n - 1) dst a).
  { destruct (small_const_nbits const nbits) eqn:E; cbn [negb].
    - exists dst. split; [done|]. unfold small_const_nbits, BITS_PER_LONG in E.
      replace (n - 1) with 0 by lia. by apply filled_start.
    - apply (for_do_inv (fun k a => filled h k dst a)); [lia|by apply filled_start|].
      intros k a Hk Hf. apply store_filled; [done|by unfold is_word, ULLONG_MAX|lia|].
      intros j Hj. rewrite all_ones_bit by lia. unfold h. lia. }
  destruct Hpre as (a&->&Hf). cbn [obind].
  destruct (store_filled h (n - 1) dst a (BITMAP_LAST_WORD_MASK nbits)) as (a'&Hw&Hf'); [done|apply last_mask_word|lia| |].
  - intros j Hj. rewrite last_mask_bit by done. unfold h. destruct (bit_eta (nbits - 1)) as [??].
    assert ((nbits - 1) / 64 = n - 1) by lia. lia.
  - exists a'. split; [done|]. by replace (n - 1 + 1) with n in Hf' by lia.
Qed.

Lemma bitmap_copy_spec const dst src nbits : words dst -> words src -> 0 < nbits <= capacity dst -> nbits <= capacity src ->
  exists dst', bitmap_copy const dst src nbits = Ok dst' /\ filled (bit src) (BITS_TO_LONGS nbits) dst dst'.
Proof.
  intros Hd Hs Hn Hc. destruct (longs_bounds nbits) as [Hn0 Hn1]; [lia|]. unfold bitmap_copy, capacity in *.
  assert (Hstep : forall k a, 0 <= k < BITS_TO_LONGS nbits -> filled (bit src) k dst a ->
    exists a', (let* w := rd src k in wr a k w) = Ok a' /\ filled (bit src) (k + 1) dst a').
  { intros k a Hk Hf. destruct (rd_word src k Hs) as (w&->&Hw&Hb); [lia|]. cbn [obind]. apply store_filled; try done. lia. }
  destruct (small_const_nbits const nbits) eqn:E.
  - unfold small_const_nbits, BITS_PER_LONG in E. replace (BITS_TO_LONGS nbits) with (0 + 1) by lia.
    apply Hstep; [lia|by apply filled_start].
  - apply (for_do_inv (fun k a => filled (bit src) k dst a)); [lia|by apply filled_start|]. intros. by apply Hstep.
Qed.

(** ** Ranges: [bitmap_set] and [bitmap_clear] *)

(** Both run the same loop, with [w | mask] or [w & ~mask] on each word. *)
Section Range.
Context (op : Z -> Z -> Z) (v : bool).
Hypothesis op_word : forall w m, is_word w -> is_word m -> is_word (op w m).
Hypothesis op_bit : forall w m j, 0 <= j < 64 -> Z.testbit (op w m) j = if Z.testbit m j then v else Z.testbit w j.

Fixpoint range_loop (n : nat) (map : list Z) (p len bits mask : Z) : outcome (list Z * Z * Z * Z) :=
  match n with
  | O => NoFuel
  | S n =>
    if 0 <=? len - bits then
      let* w := rd map p in
      let* map := wr map p (op w mask) in
      range_loop n map (p + 1) (len - bits) BITS_PER_LONG ULLONG_MAX
    else Ok (map, p, len, mask)
  end.

Definition range_op (map : list Z) (start len : Z) : outcome (list Z) :=
  let size := u32 (start + len) in
  let bits := BITS_PER_LONG - start mod BITS_PER_LONG in
  let* (map, p, len, mask) :=
    range_loop (length map + 1) map (BIT_WORD start) len bits (BITMAP_FIRST_WORD_MASK start) in
  if negb (len =? 0) then
    let mask := Z.land mask (BITMAP_LAST_WORD_MASK size) in
    let* w := rd map p in wr map p (op w mask)
  else Ok map.

(** The bits of [[s, e)] have been given the value [v]. *)
Definition painted (s e : Z) (a a' : list Z) : Prop :=
  words a' /\ length a' = length a /\
  forall i, 0 <= i -> bit a' i = if (s <=? i) && (i <? e) then v else bit a i.

Lemma paint_word s0 s e p a m mask : painted s0 s a m -> 0 <= s0 <= s -> 64 * p <= s < e -> e <= 64 * (p + 1) ->
  0 <= p < Z.of_nat (length a) -> is_word mask ->
  (forall j, 0 <= j < 64 -> Z.testbit mask j = (s <=? 64 * p + j) && (64 * p + j <? e)) ->
  exists m', (let* w := rd m p in wr m p (op w mask)) = Ok m' /\ painted s0 e a m'.
Proof.
  intros (Hm&Hl&Hb) Hs Hp He Hlen Hmask Hmb.
  destruct (rd_word m p Hm) as (w&->&Hw&Hwb); [lia|]. cbn [obind].
  destruct (wr_word m p (op w mask) Hm) as (m'&->&Hm'&Hl'&Hb'); [by apply op_word|lia|].
  exists m'. split; [done|]. split_and!; [done|congruence|]. intros i Hi. rewrite Hb' by done.
  destruct (bit_eta i) as [Heta Hj]. destruct (i / 64 =? p) eqn:E.
  - rewrite op_bit, Hmb, Hwb by done. replace (64 * p + i mod 64) with i by lia. rewrite Hb by done. case_ifs; done.
  - rewrite Hb by done. case_ifs; done.
Qed.

Lemma range_loop_spec s0 e a : 0 <= s0 <= e -> e <= capacity a -> forall n p s len m mask,
  painted s0 s a m -> s0 <= s <= e -> 64 * p <= s < 64 * (p + 1) -> 0 <= p -> len = e - s ->
  Z.of_nat (length a) < p + Z.of_nat n -> is_word mask ->
  (forall j, 0 <= j < 64 -> Z.testbit mask j = (s <=? 64 * p + j)) ->
  exists m' p' s' mask', range_loop n m p len (64 * (p + 1) - s) mask = Ok (m', p', e - s', mask') /\
    painted s0 s' a m' /\ s0 <= s' <= e /\ 64 * p' <= s' /\ e < 64 * (p' + 1) /\ 0 <= p' /\ is_word mask' /\
    (forall j, 0 <= j < 64 -> Z.testbit mask' j = (s' <=? 64 * p' + j)).
Proof.
  intros Hse Hcap. unfold capacity in *. induction n as [|n IH]; intros p s len m mask Hp Hs Hps Hp0 -> Hn Hmask Hmb; [lia|].
  cbn [range_loop]. destruct (0 <=? e - s - (64 * (p + 1) - s)) eqn:E.
  - assert (Hstep := paint_word s0 s (64 * (p + 1)) p a m mask Hp ltac:(lia) ltac:(lia) ltac:(lia) ltac:(lia) Hmask).
    destruct Hstep as (m'&Hm'&Hp'); [intros; rewrite Hmb by done; lia|].
    destruct (rd m p) as [w| |]; cbn [obind] in *; try done. rewrite Hm'. cbn [obind].
    replace BITS_PER_LONG with (64 * (p + 1 + 1) - 64 * (p + 1)) by (unfold BITS_PER_LONG; lia).
    apply IH; try done; try lia. intros j Hj. rewrite all_ones_bit by lia. lia.
  - exists m, p, s, mask. split_and!; done || lia.
Qed.

Lemma range_op_spec map start len : words map -> 0 <= start -> 0 <= len ->
  start + len <= capacity map -> start + len < 2 ^ 32 ->
  exists map', range_op map start len = Ok map' /\ painted start (start + len) map map'.
Proof.
  intros Hmap Hst Hlen Hcap Hmax. unfold range_op.
  change (u32 (start + len)) with (wrap 32 (start + len)). rewrite (wrap_small 32 (start + len)) by lia.
  destruct (bit_eta start) as [Heta Hm]. pose proof (Z.div_pos start 64 Hst ltac:(lia)).
  change BITS_PER_LONG with 64. unfold BIT_WORD. change BITS_PER_LONG with 64.
  replace (64 - start mod 64) with (64 * (start / 64 + 1) - start) by lia.
  destruct (range_loop_spec start (start + len) map) with (n := (length map + 1)%nat) (p := start / 64) (s := start)
    (len := len) (m := map) (mask := BITMAP_FIRST_WORD_MASK start)
    as (m'&p'&s'&mask'&->&Hp&Hs&Hps&Hep&Hp0&Hw&Hb); try lia.
  - split_and!; [done..|]. intros i Hi. case_if; [lia|done].
  - apply shl_word.
  - intros j Hj. rewrite first_mask_bit by done. lia.
  - cbn [obind]. destruct (start + len - s' =? 0) eqn:E; cbn [negb].
    + exists m'. split; [done|]. by replace (start + len) with s' by lia.
    + unfold capacity in *. apply (paint_word start s'); try done; try lia.
      * apply land_word; [done|apply last_mask_word].
      * intros j Hj. rewrite Z.land_spec, Hb, last_mask_bit by done. destruct (bit_eta (start + len - 1)) as [??].
        assert ((start + len - 1) / 64 = p') by lia. lia.
Qed.
End Range.

Lemma bitmap_set_spec map start len : words map -> 0 <= start -> 0 <= len ->
  start + len <= capacity map -> start + len < 2 ^ 32 ->
  exists map', bitmap_set map start len = Ok map' /\ painted true start (start + len) map map'.
Proof.
  apply (range_op_spec Z.lor true); [intros; by apply lor_word|].
  intros w m j Hj. rewrite Z.lor_spec. by destruct (Z.testbit w j), (Z.testbit m j).
Qed.

Lemma bitmap_clear_spec map start len : words map -> 0 <= start -> 0 <= len ->
  start + len <= capacity map -> start + len < 2 ^ 32 ->
  exists map', bitmap_clear map start len = Ok map' /\ painted false start (start + len) map map'.
Proof.
  apply (range_op_spec (fun w m => Z.land w (bnot m)) false); [intros; apply land_word; [done|apply bnot_word]|].
  intros w m j Hj. rewrite andnot_bit by done. by destruct (Z.testbit w j), (Z.testbit m j).
Qed.

(** ** Shifts *)

Lemma fetch_above h k q dst a o : filled h k dst a -> words (resolve dst o) -> 0 <= k <= q ->
  q < Z.of_nat (length (resolve dst o)) ->
  exists w, fetch a o q = Ok w /\ is_word w /\ forall j, 0 <= j < 64 -> Z.testbit w j = bit (resolve dst o) (64 * q + j).
Proof.
  intros (Ha&Hl&Hup) Ho Hk Hq. apply fetch_word; try done; [lia|]. intros i Hi. rewrite Hup by lia. case_if; [lia|done].
Qed.

Lemma shifted_out l u rem j : 0 < rem < 64 -> 0 <= j < 64 -> is_word l ->
  Z.testbit (Z.lor (Z.shiftr l rem) (shl u (64 - rem))) j =
    if j + rem <? 64 then Z.testbit l (j + rem) else Z.testbit u (j + rem - 64).
Proof.
  intros Hr Hj Hl. rewrite Z.lor_spec, Z.shiftr_spec, shl_bit by lia. case_if.
  - rewrite (Z.testbit_neg_r u) by lia. apply orb_false_r.
  - rewrite (word_bit_high l) by (done || lia). simpl. f_equal. lia.
Qed.

Lemma shift_right_spec dst o shift nbits : words dst -> words (resolve dst o) ->
  0 < nbits <= capacity dst -> nbits <= capacity (resolve dst o) -> 0 <= shift -> shift / 64 <= BITS_TO_LONGS nbits ->
  exists dst', __bitmap_shift_right dst o shift nbits = Ok dst' /\
    filled (fun i => (i + shift <? nbits) && bit (resolve dst o) (i + shift)) (BITS_TO_LONGS nbits) dst dst'.
Proof.
  intros Hd Ho Hn Hc Hs Hoff. unfold __bitmap_shift_right. destruct (longs_bounds nbits) as [Hn0 Hn1]; [lia|].
  destruct (bit_eta shift) as [Heta Hm]. pose proof (Z.div_pos shift 64 Hs ltac:(lia)). unfold capacity in *.
  change BITS_PER_LONG with 64. set (lim := BITS_TO_LONGS nbits) in *. set (off := shift / 64) in *. set (rem := shift mod 64) in *.
  set (h := fun i => (i + shift <? nbits) && bit (resolve dst o) (i + shift)).
  assert (Hmask : forall q w, 0 <= q < lim -> is_word w -> (forall j, 0 <= j < 64 -> Z.testbit w j = bit (resolve dst o) (64 * q + j)) ->
    let w' := if q =? lim - 1 then Z.land w (BITMAP_LAST_WORD_MASK nbits) else w in
    is_word w' /\ forall j, 0 <= j < 64 -> Z.testbit w' j = (64 * q + j <? nbits) && bit (resolve dst o) (64 * q + j)).
  { intros q w Hq Hw Hwb. cbv zeta. case_if.
    - split; [apply land_word; [done|apply last_mask_word]|]. intros j Hj.
      assert ((nbits - 1) / 64 = q) by (symmetry; apply (Z.div_unique _ _ _ (nbits - 1 - 64 * q)); lia).
      rewrite (land_last_mask w nbits q), Hwb by (done || lia). apply andb_comm.
    - split; [done|]. intros j Hj. rewrite Hwb by done. destruct (_ <? nbits) eqn:E; [done|lia]. }
  match goal with |- exists dst', obind (for_do 0 (lim - off) ?b dst) _ = _ /\ _ => set (body := b) end.
  destruct (for_do_inv (fun k a => filled h k dst a) 0 (lim - off) body dst) as (a&->&Hf); [lia|by apply filled_start| |].
  - intros k a Hk Hf. unfold body.
    destruct (fetch_above h k (off + k) dst a o) as (l&Hl&Hlw&Hlb); try done; [lia..|].
    destruct (Hmask (off + k) l ltac:(lia) Hlw Hlb) as [Hlw' Hlb'].
    assert (exists up, (if (rem =? 0) || (lim <=? off + k + 1) then Ok 0
        else let* u := fetch a o (off + k + 1) in
             Ok (shl (if off + k + 1 =? lim - 1 then Z.land u (BITMAP_LAST_WORD_MASK nbits) else u) (64 - rem))) = Ok up /\ is_word up /\
      forall j, 0 <= j < 64 -> Z.testbit up j = (64 <=? j + rem) && h (64 * k + j)) as (up&Hup&Hupw&Hupb).
    { case_if.
      - exists 0. split; [done|]. split; [by unfold is_word|]. intros j Hj. rewrite Z.bits_0. unfold h.
        destruct (64 <=? j + rem) eqn:E; [|done]. destruct (_ <? nbits) eqn:E2; [lia|done].
      - destruct (fetch_above h k (off + k + 1) dst a o) as (u&->&Huw&Hub); try done; [lia..|]. cbn [obind].
        destruct (Hmask (off + k + 1) u ltac:(lia) Huw Hub) as [Huw' Hub']. eexists. split; [done|]. split; [apply shl_word|].
        intros j Hj. rewrite shl_bit by done. destruct (64 <=? j + rem) eqn:E.
        + rewrite Hub' by lia. unfold h. simpl. by replace (64 * (off + k + 1) + (j - (64 - rem))) with (64 * k + j + shift) by lia.
        + simpl. apply Z.testbit_neg_r. lia. }
    rewrite Hup. cbn [obind]. rewrite Hl. cbn [obind].
    apply store_filled; [done|apply lor_word; [apply shiftr_word; [done|lia]|done]|lia|].
    intros j Hj. rewrite Z.lor_spec, Z.shiftr_spec, Hupb by lia. destruct (64 <=? j + rem) eqn:E.
    + rewrite (word_bit_high _ (j + rem)) by (done || lia). done.
    + rewrite Hlb' by lia. simpl. rewrite orb_false_r. unfold h.
      by replace (64 * (off + k) + (j + rem)) with (64 * k + j + shift) by lia.
  - cbn [obind]. destruct (off =? 0) eqn:E; cbn [negb].
    + exists a. split; [done|]. by replace lim with (lim - off) by lia.
    + destruct Hf as (Ha&Hla&Hup). destruct (zero_words_spec a (lim - off) off) as (a'&->&Ha'&Hla'&Hb'); [done|lia..|].
      exists a'. split; [done|]. split_and!; [done|congruence|]. intros i Hi. rewrite Hb', Hup by done. unfold h.
      destruct (_ && _) eqn:E1.
      * destruct (i <? 64 * lim) eqn:E2; [|lia]. destruct (i + shift <? nbits) eqn:E3; [lia|done].
      * destruct (i <? 64 * (lim - off)) eqn:E2, (i <? 64 * lim) eqn:E3; try done; lia.
Qed.

Lemma shift_left_spec dst o shift nbits : words dst -> words (resolve dst o) ->
  0 < nbits <= capacity dst -> nbits <= capacity (resolve dst o) -> 0 <= shift -> shift / 64 <= BITS_TO_LONGS nbits ->
  exists dst', __bitmap_shift_left dst o shift nbits = Ok dst' /\
    filled (fun i => (shift <=? i) && bit (resolve dst o) (i - shift)) (BITS_TO_LONGS nbits) dst dst'.
Proof.
  intros Hd Ho Hn Hc Hs Hoff. unfold __bitmap_shift_left. destruct (longs_bounds nbits) as [Hn0 Hn1]; [lia|].
  destruct (bit_eta shift) as [Heta Hm]. pose proof (Z.div_pos shift 64 Hs ltac:(lia)). unfold capacity in *.
  change BITS_PER_LONG with 64. set (lim := BITS_TO_LONGS nbits) in *. set (off := shift / 64) in *. set (rem := shift mod 64) in *.
  set (h := fun i => (shift <=? i) && bit (resolve dst o) (i - shift)).
  set (I := fun n a => words a /\ length a = length dst /\
    forall i, 0 <= i -> bit a i = if (64 * (lim - n) <=? i) && (i <? 64 * lim) then h i else bit dst i).
  assert (Hread : forall n a q, I n a -> 0 <= q < lim - n -> 0 <= n -> exists w, fetch a o q = Ok w /\ is_word w /\
    forall j, 0 <= j < 64 -> Z.testbit w j = bit (resolve dst o) (64 * q + j)).
  { intros n a q (Ha&Hla&Hb) Hq Hnn. apply fetch_word; try done; [lia|]. intros i Hi. rewrite Hb by lia. case_if; [lia|done]. }
  match goal with |- exists dst', obind (for_do 0 (lim - off) ?b dst) _ = _ /\ _ => set (body := b) end.
  destruct (for_do_inv I 0 (lim - off) body dst) as (a&->&Ha&Hla&Hb); [lia| | |].
  - split_and!; [done..|]. intros i Hi. case_if; [lia|done].
  - intros n a Hnn HI. unfold body. remember (lim - off - 1 - n) as k eqn:Hkdef.
    destruct (Hread n a k HI ltac:(lia) ltac:(lia)) as (w&Hw&Hww&Hwb).
    assert (exists lo, (if negb (rem =? 0) && (0 <? k) then let* w := fetch a o (k - 1) in Ok (Z.shiftr w (64 - rem)) else Ok 0) = Ok lo /\
      is_word lo /\ forall j, 0 <= j < 64 -> Z.testbit lo j = (j <? rem) && h (64 * (k + off) + j)) as (lo&Hlo&Hlow&Hlob).
    { case_if.
      - destruct (Hread n a (k - 1) HI ltac:(lia) ltac:(lia)) as (l&->&Hlw&Hlb). cbn [obind]. eexists. split; [done|].
        split; [apply shiftr_word; [done|lia]|]. intros j Hj. rewrite Z.shiftr_spec by lia. destruct (j <? rem) eqn:E.
        + rewrite Hlb by lia. unfold h. destruct (shift <=? _) eqn:E2; [|lia]. simpl. f_equal. lia.
        + rewrite (word_bit_high l) by (done || lia). done.
      - exists 0. split; [done|]. split; [by unfold is_word|]. intros j Hj. rewrite Z.bits_0. unfold h.
        destruct (j <? rem) eqn:E; [|done]. destruct (shift <=? _) eqn:E2; [lia|done]. }
    rewrite Hlo. cbn [obind]. rewrite Hw. cbn [obind]. destruct HI as (Ha&Hla&Hb).
    destruct (wr_word a (k + off) (Z.lor lo (shl w rem)) Ha) as (a'&->&Ha'&Hla'&Hb'); [by apply lor_word; [|apply shl_word]|lia|].
    exists a'. split; [done|]. split_and!; [done|congruence|]. intros i Hi. rewrite Hb' by done. destruct (bit_eta i) as [Hei Hj].
    destruct (i / 64 =? k + off) eqn:E.
    + case_if; [|lia]. rewrite Z.lor_spec, Hlob, shl_bit by done.
      replace (64 * (k + off) + i mod 64) with i by lia. destruct (i mod 64 <? rem) eqn:E2.
      * rewrite (Z.testbit_neg_r w) by lia. simpl. by rewrite orb_false_r.
      * rewrite Hwb by lia. unfold h. destruct (shift <=? i) eqn:E3; [|lia]. simpl. f_equal. lia.
    + rewrite Hb by done. case_ifs; done.
  - cbn [obind]. destruct (off =? 0) eqn:E; cbn [negb].
    + exists a. split; [done|]. split_and!; [done..|]. intros i Hi. rewrite Hb by done. case_ifs; done.
    + destruct (zero_words_spec a 0 off) as (a'&->&Ha'&Hla'&Hb'); [done|lia..|].
      exists a'. split; [done|]. split_and!; [done|congruence|]. intros i Hi. rewrite Hb', Hb by done. unfold h.
      case_if.
      * destruct (i <? 64 * lim) eqn:E2; [|lia]. destruct (shift <=? i) eqn:E3; [lia|done].
      * case_ifs; done.
Qed.
