(* ===== verification/BitmapAlloc.v ===== *)
(** * BitmapAlloc: free areas and power-of-two regions of a bitmap

    [bitmap_find_next_zero_area_off] and the region allocator built on
    [__reg_op]: what they find, that they find the first one, and that
    releasing undoes allocating. *)

From S2P Require Import Prelude Bits FindBit Bitmap BitmapFacts.

(** The bits of [[s, e)] are all clear. *)
Definition area_free (a : list Z) (s e : Z) : Prop := forall i, s <= i < e -> bit a i = false.

(** ** Zero areas *)

Lemma align_mask_up x k : 0 <= k <= 62 -> 0 <= x < 2 ^ 62 ->
  let r := __ALIGN_MASK x (2 ^ k - 1) in
  r mod 2 ^ k = 0 /\ x <= r < x + 2 ^ k.
Proof.
  intros Hk Hx. assert (H2 : 2 ^ k <= 2 ^ 62) by (apply Z.pow_le_mono_r; lia). assert (Hp : 0 < 2 ^ k) by lia.
  unfold __ALIGN_MASK, bnot. rewrite (u64_small (x + (2 ^ k - 1))) by (unfold ULLONG_MAX; lia).
  rewrite land_ones_compl by lia. set (y := x + (2 ^ k - 1)).
  pose proof (Z.div_mod y (2 ^ k) ltac:(lia)) as Hy. pose proof (Z.mod_pos_bound y (2 ^ k) Hp).
  split; [|lia]. replace (y - y mod 2 ^ k) with (y / 2 ^ k * 2 ^ k) by lia. apply Z.mod_mul. lia.
Qed.

(** No aligned start lies strictly between [x] and its aligned-up value. *)
Lemma align_least x r c m : 0 < m -> r mod m = 0 -> c mod m = 0 -> x <= c < r -> r < x + m -> False.
Proof.
  intros Hm Hr Hc Hcr Hrx. pose proof (Z.div_mod r m ltac:(lia)) as H1. pose proof (Z.div_mod c m ltac:(lia)) as H2.
  rewrite Hr in H1. rewrite Hc in H2. clear Hr Hc. generalize dependent (r / m). generalize dependent (c / m). intros qc ? qr ?.
  assert (qc < qr) by nia. nia.
Qed.

Section ZeroArea.
Context (map : list Z) (size nr k off : Z).
Hypothesis Hmap : words map.
Hypothesis Hsize : 0 <= size <= capacity map.
Hypothesis Hcap : capacity map < 2 ^ 60.
Hypothesis Hnr : 0 < nr < 2 ^ 32.
Hypothesis Hk : 0 <= k <= 60.
Hypothesis Hoff : 0 <= off < 2 ^ 60.

(** A place where the area can start. *)
Definition area_at (c : Z) : Prop := (c + off) mod 2 ^ k = 0 /\ c + nr <= size /\ area_free map c (c + nr).

Lemma zero_area_loop_spec start0 n : forall start, 0 <= start0 <= start -> start <= size ->
  size - start < Z.of_nat n -> (forall c, start0 <= c < start -> ~ area_at c) ->
  exists r, zero_area_loop n map size start nr (2 ^ k - 1) off = Ok r /\
    ((start0 <= r /\ area_at r /\ forall c, start0 <= c < r -> ~ area_at c) \/
     (size < r /\ forall c, start0 <= c -> ~ area_at c)).
Proof.
  assert (H2k : 0 < 2 ^ k <= 2 ^ 60) by (split; [lia|apply Z.pow_le_mono_r; lia]).
  induction n as [|n IH]; intros start Hs0 Hs Hn Hno; [lia|]. cbn [zero_area_loop].
  destruct (find_next_zero_bit_spec map Hmap size start) as (z&->&Hz); [lia|lia|lia|]. cbn [obind].
  assert (Hzr : start <= z <= size) by (destruct Hz as [[? _]|[-> _]]; lia).
  assert (Hset : forall i, start <= i < z -> bit map i = true).
  { intros i Hi. destruct Hz as [(_&_&H)|[_ H]]; apply negb_false_iff, H; lia. }
  rewrite (u64_small (z + off)) by (unfold ULLONG_MAX; lia).
  destruct (align_mask_up (z + off) k ltac:(lia) ltac:(lia)) as [Hal Hup]. set (al := __ALIGN_MASK (z + off) (2 ^ k - 1)) in *.
  rewrite (u64_small (al - off)) by (unfold ULLONG_MAX; lia). set (index := al - off).
  rewrite (u64_small (index + nr)) by (unfold ULLONG_MAX, index; lia).
  assert (Hskip : forall c, start0 <= c < index -> ~ area_at c).
  { intros c Hc (Hca&Hcs&Hfree). destruct (decide (c < start)); [by apply (Hno c); [lia|]|].
    destruct (decide (c < z)).
    - specialize (Hfree c ltac:(lia)). rewrite Hset in Hfree by lia. done.
    - eapply (align_least (z + off) al (c + off) (2 ^ k)); try done; unfold index in *; lia. }
  destruct (size <? index + nr) eqn:E.
  { eexists. split; [done|]. right. split; [lia|]. intros c Hc Hca. destruct (decide (c < index)); [by apply (Hskip c); [lia|]|].
    destruct Hca as (_&?&_). lia. }
  destruct (find_next_bit_spec map Hmap (index + nr) index) as (i&->&Hi); [unfold index; lia|unfold index in *; lia|lia|]. cbn [obind].
  destruct (i <? index + nr) eqn:E2.
  - destruct Hi as [(Hir&Hib&_)|[-> _]]; [|lia]. apply IH; [unfold index in *; lia|lia|unfold index in *; lia|].
    intros c Hc Hca. destruct (decide (c < index)); [by apply (Hskip c); [lia|]|].
    destruct Hca as (_&_&Hfree). specialize (Hfree i ltac:(lia)). congruence.
  - destruct Hi as [(Hir&_&_)|[_ Hclear]]; [lia|]. exists index. split; [done|]. left.
    split; [unfold index; lia|]. split; [|done]. split_and!; [unfold index; by replace (al - off + off) with al by lia|lia|done].
Qed.

Lemma zero_area_spec start : 0 <= start <= size ->
  exists r, bitmap_find_next_zero_area_off map size start nr (2 ^ k - 1) off = Ok r /\
    ((start <= r /\ area_at r /\ forall c, start <= c < r -> ~ area_at c) \/
     (size < r /\ forall c, start <= c -> ~ area_at c)).
Proof. intros Hs. apply zero_area_loop_spec; lia. Qed.

End ZeroArea.

(** ** Regions *)

Section Region.
Context (order : Z).
Hypothesis Horder : 0 <= order <= 30.

Lemma region_size : Z.shiftl 1 order = 2 ^ order /\ 0 < 2 ^ order <= 2 ^ 30.
Proof.
  rewrite Z.shiftl_mul_pow2 by lia. split; [lia|]. split; [lia|]. apply Z.pow_le_mono_r; lia.
Qed.

(** Small regions are inside one word, large ones are whole words. *)
Lemma region_shape pos : 0 <= pos -> pos mod 2 ^ order = 0 ->
  (2 ^ order <= 64 /\ reg_nlongs order = 1 /\ 64 * (pos / 64) <= pos /\ pos + 2 ^ order <= 64 * (pos / 64) + 64) \/
  (64 < 2 ^ order /\ 64 * reg_nlongs order = 2 ^ order /\ pos = 64 * (pos / 64)).
Proof.
  intros Hpos Hal. destruct region_size as [Hsz Hpow]. unfold reg_nlongs. rewrite Hsz.
  destruct (bit_eta pos) as [Heta Hm]. pose proof (Z.div_mod pos (2 ^ order) ltac:(lia)) as Hd. rewrite Hal in Hd.
  set (q := pos / 2 ^ order) in *. destruct (decide (order <= 6)) as [Ho|Ho].
  - left. assert (H64 : 64 = 2 ^ order * 2 ^ (6 - order)) by (rewrite <- Z.pow_add_r by lia; by replace (order + (6 - order)) with 6 by lia).
    assert (Hle : 2 ^ order <= 64) by (change 64 with (2 ^ 6); apply Z.pow_le_mono_r; lia).
    split; [done|]. split.
    + unfold BITS_TO_LONGS, BITS_PER_LONG. symmetry. apply (Z.div_unique _ _ _ (2 ^ order - 1)); lia.
    + split; [lia|]. set (w := pos / 64) in *. set (s := 2 ^ (6 - order)) in *. assert (0 < s) by (unfold s; lia). nia.
  - right. assert (Hs : 2 ^ order = 64 * 2 ^ (order - 6)) by (change 64 with (2 ^ 6); rewrite <- Z.pow_add_r by lia; f_equal; lia).
    assert (1 < 2 ^ (order - 6)) by (apply Z.pow_gt_1; lia). split; [lia|]. split.
    + unfold BITS_TO_LONGS, BITS_PER_LONG. rewrite Hs.
      replace (64 * 2 ^ (order - 6) + (64 - 1)) with (63 + 2 ^ (order - 6) * 64) by lia. rewrite Z.div_add by lia. change (63 / 64) with 0. lia.
    + assert (pos mod 64 = 0); [|lia]. rewrite Hd, Hs. replace (64 * 2 ^ (order - 6) * q + 0) with (2 ^ (order - 6) * q * 64) by ring.
      apply Z.mod_mul. lia.
Qed.

Lemma ones_shift n offset j : 0 < n <= 64 -> 0 <= offset -> 0 <= j < 64 ->
  Z.testbit (shl (u64 (shl 1 (n - 1) + (shl 1 (n - 1) - 1))) offset) j = (offset <=? j) && (j <? offset + n).
Proof.
  intros Hn Ho Hj. assert (Hs : shl 1 (n - 1) = 2 ^ (n - 1)).
  { unfold shl. rewrite Z.shiftl_mul_pow2, Z.mul_1_l by lia. apply wrap_small. split; [lia|]. apply Z.pow_lt_mono_r; lia. }
  rewrite Hs. replace (2 ^ (n - 1) + (2 ^ (n - 1) - 1)) with (Z.ones n).
  2:{ rewrite Z.ones_equiv. replace (2 ^ n) with (2 * 2 ^ (n - 1)) by (rewrite <- Z.pow_succ_r by lia; f_equal; lia). lia. }
  rewrite shl_bit by done. destruct (offset <=? j) eqn:E.
  - rewrite u64_bit, Z.testbit_ones_nonneg by lia. lia.
  - apply Z.testbit_neg_r. lia.
Qed.

Lemma reg_mask_bit pos i j : 0 <= pos -> pos mod 2 ^ order = 0 -> 0 <= i < reg_nlongs order -> 0 <= j < 64 ->
  Z.testbit (reg_mask pos order) j =
    (pos <=? 64 * (reg_index pos + i) + j) && (64 * (reg_index pos + i) + j <? pos + 2 ^ order).
Proof.
  intros Hpos Hal Hi Hj. unfold reg_mask, reg_index, BITS_PER_LONG. destruct region_size as [-> Hpow].
  destruct (bit_eta pos) as [Heta Hm]. destruct (region_shape pos Hpos Hal) as [(Hle&Hn&?&?)|(Hgt&Hn&Hp)].
  - rewrite Z.min_l by lia. rewrite ones_shift by lia. lia.
  - rewrite Z.min_r by lia. rewrite ones_shift by lia. lia.
Qed.

Lemma reg_mask_word pos : is_word (reg_mask pos order).
Proof. apply shl_word. Qed.

(** Setting or clearing the region, word by word. *)
Section Paint.
Context (op : Z -> Z -> Z) (v : bool).
Hypothesis op_word : forall w m, is_word w -> is_word m -> is_word (op w m).
Hypothesis op_bit : forall w m j, 0 <= j < 64 -> Z.testbit (op w m) j = if Z.testbit m j then v else Z.testbit w j.

Lemma reg_paint a pos : words a -> 0 <= pos -> pos mod 2 ^ order = 0 -> pos + 2 ^ order <= capacity a ->
  exists a', for_do 0 (reg_nlongs order) (fun i bitmap =>
      let* w := rd bitmap (reg_index pos + i) in wr bitmap (reg_index pos + i) (op w (reg_mask pos order))) a = Ok a' /\
    painted v pos (pos + 2 ^ order) a a'.
Proof.
  intros Ha Hpos Hal Hcap. unfold capacity in *. destruct region_size as [_ Hpow]. pose proof (region_shape pos Hpos Hal) as Hshape.
  assert (Hidx : 0 <= reg_index pos) by (unfold reg_index, BITS_PER_LONG; apply Z.div_pos; lia).
  destruct (for_do_inv (fun i m => painted v pos (Z.min (pos + 2 ^ order) (pos + 64 * i)) a m) 0 (reg_nlongs order)
    (fun i bitmap => let* w := rd bitmap (reg_index pos + i) in wr bitmap (reg_index pos + i) (op w (reg_mask pos order))) a)
    as (a'&->&Hp).
  - lia.
  - split_and!; [done..|]. intros i Hi. rewrite Z.min_r by lia. case_if; [lia|done].
  - intros i m Hi Hp. unfold reg_index in *. change BITS_PER_LONG with 64 in *. destruct (bit_eta pos) as [Heta Hm].
    apply (paint_word op v op_word op_bit pos (Z.min (pos + 2 ^ order) (pos + 64 * i))); try done; try lia.
    + apply reg_mask_word.
    + intros j Hj. rewrite (reg_mask_bit pos i j) by done. unfold reg_index. change BITS_PER_LONG with 64. lia.
  - exists a'. split; [done|]. replace (Z.min (pos + 2 ^ order) (pos + 64 * reg_nlongs order)) with (pos + 2 ^ order) in Hp by lia. done.
Qed.
End Paint.

Lemma reg_alloc_spec a pos : words a -> 0 <= pos -> pos mod 2 ^ order = 0 -> pos + 2 ^ order <= capacity a ->
  exists a', __reg_op a pos order REG_OP_ALLOC = Ok (0, a') /\ painted true pos (pos + 2 ^ order) a a'.
Proof.
  intros Ha Hpos Hal Hcap. destruct (reg_paint Z.lor true) with (a := a) (pos := pos) as (a'&Hr&Hp); try done.
  - intros. by apply lor_word.
  - intros w m j Hj. rewrite Z.lor_spec. by destruct (Z.testbit w j), (Z.testbit m j).
  - exists a'. split; [|done]. unfold __reg_op. by rewrite Hr.
Qed.

Lemma reg_release_spec a pos : words a -> 0 <= pos -> pos mod 2 ^ order = 0 -> pos + 2 ^ order <= capacity a ->
  exists a', __reg_op a pos order REG_OP_RELEASE = Ok (0, a') /\ painted false pos (pos + 2 ^ order) a a'.
Proof.
  intros Ha Hpos Hal Hcap. destruct (reg_paint (fun w m => Z.land w (bnot m)) false) with (a := a) (pos := pos) as (a'&Hr&Hp); try done.
  - intros. apply land_word; [done|apply bnot_word].
  - intros w m j Hj. rewrite andnot_bit by done. by destruct (Z.testbit w j), (Z.testbit m j).
  - exists a'. split; [|done]. unfold __reg_op. by rewrite Hr.
Qed.

Lemma reg_isfree_spec a pos : words a -> 0 <= pos -> pos mod 2 ^ order = 0 -> pos + 2 ^ order <= capacity a ->
  exists r, __reg_op a pos order REG_OP_ISFREE = Ok (r, a) /\
    ((r = 1 /\ area_free a pos (pos + 2 ^ order)) \/ (r = 0 /\ ~ area_free a pos (pos + 2 ^ order))).
Proof.
  intros Ha Hpos Hal Hcap. unfold capacity in *. destruct region_size as [_ Hpow]. pose proof (region_shape pos Hpos Hal) as Hshape.
  assert (Hidx : 0 <= reg_index pos /\ reg_index pos = pos / 64) by (unfold reg_index, BITS_PER_LONG; split; [apply Z.div_pos; lia|done]).
  destruct (bit_eta pos) as [Heta Hm]. unfold __reg_op. set (mask := reg_mask pos order).
  destruct (for_ret_inv (fun i (_ : unit) => area_free a pos (Z.min (pos + 2 ^ order) (64 * (reg_index pos + i))))
    (fun r => r = 0 /\ ~ area_free a pos (pos + 2 ^ order)) 0 (reg_nlongs order)
    (fun i _ => let* w := rd a (reg_index pos + i) in Ok (if negb (Z.land w mask =? 0) then inr 0 else inl tt)) tt)
    as ([[]|r]&->&Hx).
  - lia.
  - intros i Hi. lia.
  - intros i [] Hi Hfree. destruct (rd_word a (reg_index pos + i) Ha) as (w&->&Hw&Hwb); [lia|]. cbn [obind].
    pose proof (land_word w mask Hw (proj1 (reg_mask_word pos))) as Hlw.
    assert (Hb : forall j, 0 <= j < 64 -> Z.testbit (Z.land w mask) j =
      bit a (64 * (reg_index pos + i) + j) && ((pos <=? 64 * (reg_index pos + i) + j) && (64 * (reg_index pos + i) + j <? pos + 2 ^ order)))
      by (intros j Hj; unfold mask; by rewrite Z.land_spec, Hwb, (reg_mask_bit pos i j)).
    destruct (Z.land w mask =? 0) eqn:E; cbn [negb]; eexists; (split; [done|]); cbv beta iota.
    + intros x Hx. destruct (decide (x < 64 * (reg_index pos + i))); [apply Hfree; lia|].
      apply Z.eqb_eq in E. specialize (Hb (x - 64 * (reg_index pos + i)) ltac:(lia)). rewrite E, Z.bits_0 in Hb.
      replace (64 * (reg_index pos + i) + (x - 64 * (reg_index pos + i))) with x in Hb by lia.
      destruct (bit a x); [lia|done].
    + split; [done|]. intros Hall. destruct (word_nonzero _ Hlw) as (j&Hj&Hjb); [lia|]. rewrite Hb in Hjb by done.
      apply andb_prop in Hjb as [Hbit ?]. rewrite Hall in Hbit; [done|lia].
  - cbn [obind]. exists 1. split; [done|]. left. split; [done|]. intros x Hx'. apply Hx. lia.
  - cbn [obind]. exists r. split; [done|]. right. done.
Qed.

(** First-fit: the region found is free, aligned and the lowest one. *)
Lemma find_free_loop_spec a bits n : forall pos, words a -> 0 <= bits <= capacity a -> bits < 2 ^ 31 ->
  0 <= pos -> pos mod 2 ^ order = 0 -> pos <= bits -> bits - pos < Z.of_nat n ->
  (forall c, 0 <= c < pos -> c mod 2 ^ order = 0 -> ~ area_free a c (c + 2 ^ order)) ->
  exists r a', find_free_loop n a bits order pos = Ok (r, a') /\
    ((0 <= r /\ r mod 2 ^ order = 0 /\ r + 2 ^ order <= bits /\ area_free a r (r + 2 ^ order) /\
      painted true r (r + 2 ^ order) a a' /\
      forall c, 0 <= c < r -> c mod 2 ^ order = 0 -> ~ area_free a c (c + 2 ^ order)) \/
     (r = - ENOMEM /\ a' = a /\
      forall c, 0 <= c -> c mod 2 ^ order = 0 -> c + 2 ^ order <= bits -> ~ area_free a c (c + 2 ^ order))).
Proof.
  destruct region_size as [Hsz Hpow]. induction n as [|n IH]; intros pos Ha Hb Hmax Hpos Hal Hle Hn Hno; [lia|].
  cbn [find_free_loop]. rewrite Hsz, (u32_small (2 ^ order)) by (unfold UINT_MAX; lia).
  rewrite u32_small by (unfold UINT_MAX; lia). case_if.
  2:{ exists (- ENOMEM), a. split; [done|]. right. split_and!; [done..|]. intros c Hc Hca Hce.
      destruct (decide (c < pos)); [apply Hno; [lia|done]|lia]. }
  assert (Hal' : (pos + 2 ^ order) mod 2 ^ order = 0) by (rewrite <- (Z.mul_1_l (2 ^ order)) at 1; rewrite Z.mod_add by lia; done).
  destruct (reg_isfree_spec a pos) as (f&->&[[-> Hf]|[-> Hf]]); [done|done|done|lia| |]; cbn [obind Z.eqb].
  - destruct (reg_alloc_spec a pos) as (a'&->&Hp); [done|done|done|lia|]. cbn [obind].
    exists pos, a'. split; [done|]. left. split_and!; done || lia.
  - apply IH; try done; try lia. intros c Hc Hca. destruct (decide (c < pos)); [apply Hno; [lia|done]|].
    destruct (decide (c = pos)) as [->|]; [done|]. exfalso.
    apply (align_least (pos + 1) (pos + 2 ^ order) c (2 ^ order)); lia.
Qed.

End Region.
