(* ===== verification/BitmapMap.v ===== *)
(** * BitmapMap: weights, ordinals and the remapping routines

    [rank a x] is the number of set bits below [x]; [bitmap_pos_to_ord] and
    [bitmap_ord_to_pos] are [rank] and its inverse, and the remapping routines
    are described with them. *)

From S2P Require Import Prelude Bits Hweight FindBit Bitmap BitmapFacts.

Definition rank (a : list Z) (x : Z) : Z := count (bit a) 0 (Z.to_nat x).

Lemma rank_succ a x : 0 <= x -> rank a (x + 1) = rank a x + Z.b2z (bit a x).
Proof.
  intros Hx. unfold rank. replace (Z.to_nat (x + 1)) with (Z.to_nat x + 1)%nat by lia.
  rewrite count_app. cbn [count]. replace (0 + Z.of_nat (Z.to_nat x)) with x by lia. lia.
Qed.

Lemma rank_split a x y : 0 <= x <= y -> rank a y = rank a x + count (bit a) x (Z.to_nat (y - x)).
Proof.
  intros Hxy. unfold rank. replace (Z.to_nat y) with (Z.to_nat x + Z.to_nat (y - x))%nat by lia.
  rewrite count_app. do 2 f_equal. lia.
Qed.

Lemma rank_mono a x y : 0 <= x <= y -> rank a x <= rank a y.
Proof. intros. rewrite (rank_split a x y) by done. pose proof (count_bounds (bit a) x (Z.to_nat (y - x))). lia. Qed.

Lemma rank_bounds a x : 0 <= x -> 0 <= rank a x <= x.
Proof. intros. unfold rank. pose proof (count_bounds (bit a) 0 (Z.to_nat x)). lia. Qed.

Lemma count_zero p lo n : (forall i, lo <= i < lo + Z.of_nat n -> p i = false) -> count p lo n = 0.
Proof.
  revert lo. induction n as [|n IH]; intros lo H; simpl; [done|]. rewrite (H lo) by lia. simpl. apply IH. intros. apply H. lia.
Qed.

Lemma rank_gap a x y : 0 <= x <= y -> (forall i, x <= i < y -> bit a i = false) -> rank a y = rank a x.
Proof. intros Hxy Hz. rewrite (rank_split a x y), count_zero by (done || intros; apply Hz; lia). lia. Qed.

(** Set bits have different ranks. *)
Lemma rank_inj a x y : 0 <= x -> 0 <= y -> bit a x = true -> bit a y = true -> rank a x = rank a y -> x = y.
Proof.
  assert (Hlt : forall x y, 0 <= x < y -> bit a x = true -> rank a x < rank a y).
  { intros u v Huv Hu. pose proof (rank_mono a (u + 1) v ltac:(lia)). rewrite rank_succ, Hu in H by lia. simpl in H. lia. }
  intros Hx Hy Hbx Hby Hr. destruct (Z.lt_trichotomy x y) as [H|[H|H]]; [|done|].
  - pose proof (Hlt x y ltac:(lia) Hbx). lia.
  - pose proof (Hlt y x ltac:(lia) Hby). lia.
Qed.

(** ** Weight *)

Lemma hweight_word a k w : is_word w -> (forall j, 0 <= j < 64 -> Z.testbit w j = bit a (64 * k + j)) ->
  hweight_long w = count (bit a) (64 * k) 64.
Proof.
  intros Hw Hb. unfold hweight_long. rewrite hweight64_popcount by done. unfold popcount.
  replace (64 * k) with (0 + 64 * k) by lia. apply count_shift. intros i Hi. rewrite Hb by lia. f_equal. lia.
Qed.

Lemma weight_spec a bits : words a -> 0 <= bits <= capacity a -> __bitmap_weight a bits = Ok (rank a bits).
Proof.
  intros Ha Hb. unfold __bitmap_weight, capacity in *. change BITS_PER_LONG with 64.
  destruct (lim_bounds bits ltac:(lia)) as [Hl0 Hl]. set (lim := bits / 64) in *.
  destruct (for_do_inv (fun k w => w = rank a (64 * k)) 0 lim (fun k w => let* x := rd a k in Ok (w + hweight_long x)) 0)
    as (w&->&->); [lia|done| |].
  - intros k w Hk ->. destruct (rd_word a k Ha) as (x&->&Hx&Hxb); [lia|]. cbn [obind]. eexists. split; [done|].
    rewrite (hweight_word a k x Hx Hxb), (rank_split a (64 * k) (64 * (k + 1))) by lia.
    by replace (Z.to_nat (64 * (k + 1) - 64 * k)) with 64%nat by lia.
  - cbn [obind]. destruct (bit_eta bits) as [Heta Hm]. fold lim in Heta. destruct (bits mod 64 =? 0) eqn:E; cbn [negb].
    + by replace (64 * lim) with bits by lia.
    + destruct (rd_word a lim Ha) as (x&->&Hx&Hxb); [lia|]. cbn [obind]. f_equal.
      destruct (partial_word bits ltac:(lia) E) as [Hk Hpos]. rewrite (rank_split a (64 * lim) bits) by lia. f_equal.
      unfold hweight_long. rewrite hweight64_popcount by (apply land_word; [done|apply last_mask_word]). unfold popcount.
      replace 64%nat with (Z.to_nat (bits - 64 * lim) + Z.to_nat (64 * lim + 64 - bits))%nat by lia. rewrite count_app.
      rewrite (count_zero _ (0 + _)).
      * rewrite Z.add_0_r. replace (64 * lim) with (0 + 64 * lim) at 2 by lia. apply count_shift. intros i Hi.
        rewrite (land_last_mask x bits lim Hx Hpos Hk) by lia. rewrite Hxb by lia.
        destruct (64 * lim + i <? bits) eqn:E2; [|lia]. rewrite andb_true_r. f_equal. lia.
      * intros i Hi. rewrite (land_last_mask x bits lim Hx Hpos Hk) by lia.
        destruct (64 * lim + i <? bits) eqn:E2; [lia|]. apply andb_false_r.
Qed.

(** ** Single bits *)

Lemma word_index nr a : 0 <= nr < capacity a -> 0 <= nr / 64 < Z.of_nat (length a).
Proof. unfold capacity. intros. destruct (bit_eta nr). pose proof (Z.div_pos nr 64). lia. Qed.

Lemma test_bit_spec nr a : words a -> 0 <= nr < capacity a -> test_bit nr a = Ok (bit a nr).
Proof.
  intros Ha Hn. unfold test_bit, BIT_WORD, BITS_PER_LONG. destruct (bit_eta nr) as [Heta Hm].
  destruct (rd_word a (nr / 64) Ha (word_index nr a Hn)) as (w&->&Hw&Hwb). cbn [obind]. f_equal.
  specialize (Hwb (nr mod 64) Hm). rewrite <- Heta in Hwb. rewrite <- Hwb.
  change 1 with (Z.ones 1) at 1. rewrite Z.land_ones by lia. rewrite <- Z.bit0_mod, Z.shiftr_spec by lia.
  rewrite Z.add_0_l. by destruct (Z.testbit w (nr mod 64)).
Qed.

Lemma bit_mask_bit nr j : 0 <= j < 64 -> Z.testbit (BIT_MASK nr) j = (j =? nr mod 64).
Proof.
  intros Hj. unfold BIT_MASK, BITS_PER_LONG. rewrite shl_bit by done. pose proof (Z.mod_pos_bound nr 64 ltac:(lia)).
  destruct (j =? nr mod 64) eqn:E.
  - by replace (j - nr mod 64) with 0 by lia.
  - destruct (decide (j < nr mod 64)); [apply Z.testbit_neg_r; lia|]. apply Z.bits_above_log2; simpl; lia.
Qed.

(** The read-modify-write of a single bit, for all three operations. *)
Lemma rmw_spec nr a (op : Z -> Z) (g : bool -> bool) : words a -> 0 <= nr < capacity a ->
  (forall w, is_word w -> is_word (op w)) ->
  (forall w j, 0 <= j < 64 -> Z.testbit (op w) j = if j =? nr mod 64 then g (Z.testbit w j) else Z.testbit w j) ->
  exists a', (let* w := rd a (BIT_WORD nr) in wr a (BIT_WORD nr) (op w)) = Ok a' /\ words a' /\ length a' = length a /\
    forall i, 0 <= i -> bit a' i = if i =? nr then g (bit a i) else bit a i.
Proof.
  intros Ha Hn Hop Hbit. unfold BIT_WORD, BITS_PER_LONG. destruct (bit_eta nr) as [Heta Hm].
  pose proof (word_index nr a Hn) as Hk.
  destruct (rd_word a (nr / 64) Ha Hk) as (w&->&Hw&Hwb). cbn [obind].
  destruct (wr_word a (nr / 64) (op w) Ha (Hop w Hw) Hk) as (a'&->&Ha'&Hl'&Hb').
  exists a'. split_and!; [done..|]. intros i Hi. rewrite Hb' by done. destruct (bit_eta i) as [Hei Hmi].
  destruct (i / 64 =? nr / 64) eqn:E.
  - rewrite Hbit, Hwb by done. replace (64 * (nr / 64) + i mod 64) with i by lia.
    destruct (i mod 64 =? nr mod 64) eqn:E2, (i =? nr) eqn:E3; try done; lia.
  - destruct (i =? nr) eqn:E3; [|done]. replace i with nr in E by lia. lia.
Qed.

Lemma set_bit_spec nr a : words a -> 0 <= nr < capacity a ->
  exists a', __set_bit nr a = Ok a' /\ words a' /\ length a' = length a /\
    forall i, 0 <= i -> bit a' i = if i =? nr then true else bit a i.
Proof.
  intros. apply (rmw_spec nr a (fun w => Z.lor w (BIT_MASK nr)) (fun _ => true)); try done.
  - intros. apply lor_word; [done|apply shl_word].
  - intros w j Hj. rewrite Z.lor_spec, bit_mask_bit by done. case_if; [apply orb_true_r|apply orb_false_r].
Qed.

Lemma clear_bit_spec nr a : words a -> 0 <= nr < capacity a ->
  exists a', __clear_bit nr a = Ok a' /\ words a' /\ length a' = length a /\
    forall i, 0 <= i -> bit a' i = if i =? nr then false else bit a i.
Proof.
  intros. apply (rmw_spec nr a (fun w => Z.land w (bnot (BIT_MASK nr))) (fun _ => false)); try done.
  - intros. apply land_word; [done|apply bnot_word].
  - intros w j Hj. rewrite andnot_bit, bit_mask_bit by done. case_if; [apply andb_false_r|apply andb_true_r].
Qed.

Lemma change_bit_spec nr a : words a -> 0 <= nr < capacity a ->
  exists a', __change_bit nr a = Ok a' /\ words a' /\ length a' = length a /\
    forall i, 0 <= i -> bit a' i = if i =? nr then negb (bit a i) else bit a i.
Proof.
  intros. apply (rmw_spec nr a (fun w => Z.lxor w (BIT_MASK nr)) negb); try done.
  - intros. apply lxor_word; [done|apply shl_word].
  - intros w j Hj. rewrite Z.lxor_spec, bit_mask_bit by done. case_if; [apply xorb_true_r|apply xorb_false_r].
Qed.

(** ** Ordinals *)

Lemma pos_to_ord_spec a pos nbits : words a -> 0 <= pos -> 0 <= nbits <= capacity a ->
  bitmap_pos_to_ord a pos nbits = Ok (if (pos <? nbits) && bit a pos then rank a pos else -1).
Proof.
  intros Ha Hp Hn. unfold bitmap_pos_to_ord. case_if; [destruct (pos <? nbits) eqn:E; [lia|done]|].
  destruct (pos <? nbits) eqn:E; [|lia]. rewrite test_bit_spec by (done || lia). cbn [obind].
  destruct (bit a pos); cbn [negb andb]; [|done]. apply weight_spec; [done|lia].
Qed.

(** Position of the [ord]-th set bit, or [nbits]. *)
Definition is_pos (a : list Z) (ord nbits r : Z) : Prop :=
  (0 <= r < nbits /\ bit a r = true /\ rank a r = ord) \/ (r = nbits /\ rank a nbits <= ord).

Section Each.
Context (a : list Z) (nbits : Z).
Hypothesis Ha : words a.
Hypothesis Hn : 0 <= nbits <= capacity a.
Hypothesis Hmax : capacity a < 2 ^ 63.

Lemma ord_to_pos_loop_spec ord0 n : forall ord pos, 0 <= ord -> 0 <= pos <= nbits ->
  (pos < nbits -> bit a pos = true) -> rank a pos + ord = ord0 -> nbits - pos < Z.of_nat n ->
  exists r, ord_to_pos_loop n a ord nbits pos = Ok r /\ is_pos a ord0 nbits r.
Proof.
  induction n as [|n IH]; intros ord pos Ho Hp Hb Hr Hf; [lia|]. cbn [ord_to_pos_loop]. case_if.
  - destruct (find_next_bit_spec a Ha nbits (pos + 1)) as (p&->&Hs); [lia|lia|done|]. cbn [obind].
    assert (Hrk : rank a (pos + 1) = rank a pos + 1) by (rewrite rank_succ, Hb by lia; done).
    destruct Hs as [(Hp1&Hbp&Hz)|[-> Hz]].
    + apply IH; [lia|lia|done| |lia]. rewrite (rank_gap a (pos + 1) p) by (done || lia). lia.
    + apply IH; [lia|lia|lia| |lia]. rewrite (rank_gap a (pos + 1) nbits) by (done || lia). lia.
  - exists pos. split; [done|]. destruct (decide (pos < nbits)).
    + left. split_and!; [lia|lia|auto|lia].
    + right. replace pos with nbits in * by lia. split; [done|lia].
Qed.

Lemma ord_to_pos_spec ord : 0 <= ord -> exists r, bitmap_ord_to_pos a ord nbits = Ok r /\ is_pos a ord nbits r.
Proof.
  intros Ho. unfold bitmap_ord_to_pos. destruct (find_first_bit_spec a Ha nbits Hn) as (p&->&Hs). cbn [obind].
  destruct Hs as [(Hp1&Hbp&Hz)|[-> Hz]]; apply ord_to_pos_loop_spec; try done; try lia.
  - rewrite (rank_gap a 0 p) by (done || lia). done.
  - rewrite (rank_gap a 0 nbits) by (done || lia). done.
Qed.

(** Total-correctness rule for [for_each_set_bit]: [I x s] says that the set
    bits below [x] have been visited. *)
Lemma for_each_inv {S} (I : Z -> S -> Prop) body s : I 0 s ->
  (forall x s, 0 <= x < nbits -> bit a x = false -> I x s -> I (x + 1) s) ->
  (forall x s, 0 <= x < nbits -> bit a x = true -> I x s -> exists s', body x s = Ok s' /\ I (x + 1) s') ->
  exists s', for_each_set_bit a nbits body s = Ok s' /\ I nbits s'.
Proof.
  intros HI Hskip Hstep.
  assert (Hgap : forall n x s, 0 <= x -> x + Z.of_nat n <= nbits -> (forall i, x <= i < x + Z.of_nat n -> bit a i = false) ->
    I x s -> I (x + Z.of_nat n) s).
  { induction n as [|n IH]; intros x t Hx Hle Hz HIx; [by rewrite Z.add_0_r|].
    replace (x + Z.of_nat (Datatypes.S n)) with (x + 1 + Z.of_nat n) by lia. apply IH; [lia|lia|intros; apply Hz; lia|].
    apply Hskip; [lia|apply Hz; lia|done]. }
  assert (Hgap' : forall x y s, 0 <= x <= y -> y <= nbits -> (forall i, x <= i < y -> bit a i = false) -> I x s -> I y s).
  { intros x y t Hxy Hy Hz HIx. replace y with (x + Z.of_nat (Z.to_nat (y - x))) by lia. apply Hgap; [lia|lia| |done].
    intros i Hi. apply Hz. lia. }
  assert (Hloop : forall n x s, 0 <= x <= nbits -> (x < nbits -> bit a x = true) -> I x s -> nbits - x < Z.of_nat n ->
    exists s', each_set_loop n a nbits body x s = Ok s' /\ I nbits s').
  { induction n as [|n IH]; intros x t Hx Hb HIx Hf; [lia|]. cbn [each_set_loop]. case_if.
    - destruct (Hstep x t ltac:(lia) (Hb ltac:(lia)) HIx) as (t'&->&HI'). cbn [obind].
      destruct (find_next_bit_spec a Ha nbits (x + 1)) as (p&->&Hs); [lia|lia|done|]. cbn [obind].
      destruct Hs as [(Hp1&Hbp&Hz)|[-> Hz]]; (apply IH; [lia|try done; lia| |lia]).
      + by apply (Hgap' (x + 1)); [lia|lia|done|].
      + by apply (Hgap' (x + 1)); [lia|lia|done|].
    - exists t. split; [done|]. by replace nbits with x by lia. }
  unfold for_each_set_bit. destruct (find_first_bit_spec a Ha nbits Hn) as (p&->&Hs). cbn [obind].
  destruct Hs as [(Hp1&Hbp&Hz)|[-> Hz]]; (apply Hloop; [lia|try done; lia| |lia]).
  - by apply (Hgap' 0); [lia|lia|done|].
  - by apply (Hgap' 0); [lia|lia|done|].
Qed.

End Each.

(** ** Remapping *)

Section Remap.
Context (nbits : Z).
Hypothesis Hpos : 0 < nbits.

(** An array that can hold a bitmap of [nbits] bits. *)
Definition holds (a : list Z) : Prop := words a /\ nbits <= capacity a /\ capacity a < 2 ^ 63.

Lemma holds_n a : holds a -> 0 <= nbits <= capacity a.
Proof. intros (_&?&_). lia. Qed.

Lemma bitmap_weight_spec a : holds a -> bitmap_weight false a nbits = Ok (rank a nbits).
Proof. intros (Ha&Hn&_). apply weight_spec; [done|lia]. Qed.

(** Where [bitmap_bitremap] sends a bit. *)
Definition remapped (old new : list Z) (b r : Z) : Prop :=
  if bit old b && negb (rank new nbits =? 0)
  then bit new r = true /\ 0 <= r < nbits /\ rank new r = rank old b mod rank new nbits
  else r = b.

Lemma remapped_unique old new b r r' : remapped old new b r -> remapped old new b r' -> r = r'.
Proof.
  unfold remapped. case_if; [|by intros -> ->]. intros (H1&H2&H3) (H1'&H2'&H3').
  apply (rank_inj new); try done; try lia.
Qed.

Lemma bitremap_spec old new b : holds old -> holds new -> 0 <= b < nbits ->
  exists r, bitmap_bitremap b old new nbits = Ok r /\ remapped old new b r /\ 0 <= r < nbits.
Proof.
  intros Ho Hn Hb. unfold bitmap_bitremap, remapped. rewrite bitmap_weight_spec by done. cbn [obind].
  rewrite pos_to_ord_spec by (apply Ho || apply holds_n || lia; done). cbn [obind].
  destruct (b <? nbits) eqn:E; [|lia]. simpl. pose proof (rank_bounds old b ltac:(lia)). pose proof (rank_bounds new nbits ltac:(lia)).
  destruct (bit old b) eqn:Hbit; simpl.
  - destruct (rank new nbits =? 0) eqn:Ew; simpl; [by rewrite orb_true_r; exists b|].
    rewrite orb_false_r. destruct (rank old b <? 0) eqn:El; [lia|].
    pose proof (Z.mod_pos_bound (rank old b) (rank new nbits) ltac:(lia)).
    destruct (ord_to_pos_spec new nbits (proj1 Hn) (holds_n new Hn) (proj2 (proj2 Hn)) (rank old b mod rank new nbits))
      as (r&->&Hr); [lia|]. exists r. split; [done|]. destruct Hr as [(?&?&?)|[-> ?]]; [done|lia].
  - by exists b.
Qed.

(** [bitmap_zero] on a destination that holds the bitmap. *)
Lemma zeroed dst : holds dst -> exists d, bitmap_zero false dst nbits = Ok d /\ words d /\ length d = length dst /\
  forall i, 0 <= i < nbits -> bit d i = false.
Proof.
  intros (Hd&Hc&_). destruct (bitmap_zero_spec dst nbits) as (d&->&Hw&Hl&Hup); [done|lia|].
  exists d. split_and!; [done..|]. intros i Hi. rewrite Hup by lia. destruct (longs_bounds nbits ltac:(lia)). case_if; [done|lia].
Qed.

(** The loops that set one bit of [dst] per visited bit: the bits set are the
    images of the bits visited. *)
Definition image_upto (src : list Z) (f : Z -> Z -> Prop) (dst : list Z) (x : Z) (d : list Z) : Prop :=
  words d /\ length d = length dst /\
  forall i, 0 <= i < nbits -> (bit d i = true <-> exists b, 0 <= b < x /\ bit src b = true /\ f b i).

Lemma image_skip src f dst x d : bit src x = false -> image_upto src f dst x d -> image_upto src f dst (x + 1) d.
Proof.
  intros Hx (Hd&Hl&Hb). split_and!; [done..|]. intros i Hi. rewrite Hb by done. split; intros (b&Hbx&Hbs&Hf); exists b.
  - split_and!; done || lia.
  - split_and!; try done; [lia|]. destruct (decide (b = x)) as [->|]; [congruence|lia].
Qed.

Lemma image_set src f dst x d r : holds dst -> image_upto src f dst x d -> 0 <= x -> 0 <= r < nbits -> bit src x = true ->
  f x r -> (forall r', f x r' -> r' = r) ->
  exists d', __set_bit r d = Ok d' /\ image_upto src f dst (x + 1) d'.
Proof.
  intros (_&Hc&_) (Hd&Hl&Hb) Hx Hr Hbx Hf Huniq. destruct (set_bit_spec r d Hd) as (d'&->&Hd'&Hl'&Hb'); [unfold capacity in *; lia|].
  exists d'. split; [done|]. split_and!; [done|congruence|]. intros i Hi. rewrite Hb' by lia. destruct (i =? r) eqn:E.
  - split; [|done]. intros _. exists x. replace i with r by lia. split_and!; done || lia.
  - rewrite Hb by done. split; intros (b&Hbb&Hbs&Hfb); exists b.
    + split_and!; done || lia.
    + split_and!; try done; [lia|]. destruct (decide (b = x)) as [->|]; [|lia]. apply Huniq in Hfb. lia.
Qed.

Lemma remap_spec dst src old new : holds dst -> holds src -> holds old -> holds new ->
  exists dst', bitmap_remap dst src old new nbits = Ok dst' /\ image_upto src (remapped old new) dst nbits dst'.
Proof.
  intros Hd Hs Ho Hn. unfold bitmap_remap. destruct (zeroed dst Hd) as (d&->&Hwd&Hld&Hzd). cbn [obind].
  rewrite bitmap_weight_spec by done. cbn [obind].
  apply (for_each_inv src nbits (proj1 Hs) (holds_n src Hs) (proj2 (proj2 Hs)) (image_upto src (remapped old new) dst)).
  - split_and!; [done..|]. intros i Hi. rewrite Hzd by done. split; [done|]. intros (b&?&_). lia.
  - intros x t Hx Hb. by apply image_skip.
  - intros x t Hx Hb HI. destruct (bitremap_spec old new x Ho Hn Hx) as (r&Hr&Hrm&Hrr).
    assert (Heq : (let* n := bitmap_pos_to_ord old x nbits in
        if (n <? 0) || (rank new nbits =? 0) then __set_bit x t
        else let* p := bitmap_ord_to_pos new (n mod rank new nbits) nbits in __set_bit p t) = __set_bit r t).
    { unfold bitmap_bitremap in Hr. rewrite bitmap_weight_spec in Hr by done. cbn [obind] in Hr.
      destruct (bitmap_pos_to_ord old x nbits) as [n| |]; cbn [obind] in *; try done.
      destruct ((n <? 0) || (rank new nbits =? 0)); [by injection Hr as <-|by rewrite Hr]. }
    rewrite Heq. apply image_set; try done; [lia|]. intros r' Hr'. by eapply remapped_unique.
Qed.

Lemma fold_spec dst orig sz : holds dst -> holds orig -> 0 < sz ->
  exists dst', bitmap_fold dst orig sz nbits = Ok dst' /\ image_upto orig (fun b i => i = b mod sz) dst nbits dst'.
Proof.
  intros Hd Hs Hsz. unfold bitmap_fold. destruct (zeroed dst Hd) as (d&->&Hwd&Hld&Hzd). cbn [obind].
  apply (for_each_inv orig nbits (proj1 Hs) (holds_n orig Hs) (proj2 (proj2 Hs)) (image_upto orig (fun b i => i = b mod sz) dst)).
  - split_and!; [done..|]. intros i Hi. rewrite Hzd by done. split; [done|]. intros (b&?&_). lia.
  - intros x t Hx Hb. by apply image_skip.
  - intros x t Hx Hb HI. pose proof (Z.mod_pos_bound x sz Hsz). pose proof (Z.mod_le x sz ltac:(lia) Hsz).
    apply image_set; try done; lia.
Qed.

Lemma onto_spec dst orig relmap : holds dst -> holds orig -> holds relmap ->
  exists dst', bitmap_onto dst orig relmap nbits = Ok dst' /\ words dst' /\ length dst' = length dst /\
    forall n, 0 <= n < nbits -> bit dst' n = bit relmap n && bit orig (rank relmap n).
Proof.
  intros Hd Hor Hrel. unfold bitmap_onto. destruct (zeroed dst Hd) as (d&->&Hwd&Hld&Hzd). cbn [obind].
  set (I := fun x '(t, m) => m = rank relmap x /\ words t /\ length t = length dst /\
    forall n, 0 <= n < nbits -> bit t n = (n <? x) && (bit relmap n && bit orig (rank relmap n))).
  destruct (for_each_inv relmap nbits (proj1 Hrel) (holds_n relmap Hrel) (proj2 (proj2 Hrel)) I
    (fun n '(dst, m) => let* b := test_bit m orig in
       let* dst := if b then __set_bit n dst else Ok dst in Ok (dst, m + 1)) (d, 0)) as ([t m]&->&_&Ht&Hlt&Hbt).
  - split_and!; [done..|]. intros n Hn. rewrite Hzd by done. destruct (n <? 0) eqn:E; [lia|done].
  - intros x [t m] Hx Hb (->&Ht&Hlt&Hbt). split_and!; try done; [by rewrite rank_succ, Hb by lia; simpl; lia|].
    intros n Hn. rewrite Hbt by done. destruct (decide (n = x)) as [->|]; [by rewrite Hb, !andb_false_r|].
    f_equal. lia.
  - intros x [t m] Hx Hb (->&Ht&Hlt&Hbt). pose proof (rank_bounds relmap x ltac:(lia)). destruct Hor as (Hwo&Hco&_), Hd as (_&Hcd&_).
    rewrite test_bit_spec by (done || lia). cbn [obind].
    assert (Hrk : rank relmap x + 1 = rank relmap (x + 1)) by (rewrite rank_succ, Hb by lia; done).
    destruct (bit orig (rank relmap x)) eqn:Hob.
    + destruct (set_bit_spec x t Ht) as (t'&->&Ht'&Hlt'&Hbt'); [unfold capacity in *; lia|]. cbn [obind]. eexists. split; [done|].
      split_and!; [done|done|congruence|]. intros n Hn. rewrite Hbt' by lia. destruct (n =? x) eqn:E.
      * replace n with x by lia. rewrite Hb, Hob. destruct (x <? x + 1) eqn:E2; [done|lia].
      * rewrite Hbt by done. f_equal. lia.
    + cbn [obind]. eexists. split; [done|]. split_and!; [done..|]. intros n Hn. rewrite Hbt by done.
      destruct (decide (n = x)) as [->|]; [by rewrite Hob, !andb_false_r|]. f_equal. lia.
  - cbn [obind]. exists t. split_and!; [done..|]. intros n Hn. rewrite Hbt by done. destruct (n <? nbits) eqn:E; [done|lia].
Qed.

End Remap.
