(* ===== verification/BitmapProps.v ===== *)
(** * BitmapProps: theorems about the bit searches and the bitmap library *)

From S2P Require Import Prelude Bits Hweight FindBit Bitmap BitmapFacts BitmapAlloc BitmapMap.

#[local] Opaque hweight_long.

(** ** One-word variants *)

Section Small.
Context (nbits : Z).
Hypothesis Hn : 0 < nbits <= 64.

Lemma small_cases : (nbits = 64 /\ nbits / 64 = 1 /\ nbits mod 64 = 0) \/ (nbits < 64 /\ nbits / 64 = 0 /\ nbits mod 64 = nbits).
Proof.
  destruct (decide (nbits = 64)) as [->|]; [by left|]. right. split; [lia|].
  split; [apply Z.div_small|apply Z.mod_small]; lia.
Qed.

Lemma small_longs : BITS_TO_LONGS nbits = 1.
Proof. unfold BITS_TO_LONGS, BITS_PER_LONG. symmetry. apply (Z.div_unique _ _ _ (nbits - 1)); lia. Qed.

Lemma mask_full : nbits = 64 -> BITMAP_LAST_WORD_MASK nbits = ULLONG_MAX.
Proof. by intros ->. Qed.

Lemma land_full w : is_word w -> Z.land w ULLONG_MAX = w.
Proof. intros Hw. change ULLONG_MAX with (Z.ones 64). rewrite Z.land_ones by lia. by apply Z.mod_small. Qed.

Lemma masked_zero v : is_word v ->
  (Z.land v (BITMAP_LAST_WORD_MASK nbits) =? 0) = true <-> forall j, 0 <= j < nbits -> Z.testbit v j = false.
Proof.
  intros Hv. rewrite Z.eqb_eq, word_zero by (apply land_word; [done|apply last_mask_word]).
  assert (Hk : 0 = (nbits - 1) / 64) by (symmetry; apply Z.div_small; lia).
  split; intros H j Hj.
  - specialize (H j ltac:(lia)). rewrite (land_last_mask v nbits 0) in H by (done || lia).
    destruct (64 * 0 + j <? nbits) eqn:E; [by rewrite andb_true_r in H|lia].
  - rewrite (land_last_mask v nbits 0) by (done || lia). destruct (64 * 0 + j <? nbits) eqn:E; [|apply andb_false_r].
    rewrite H by lia. done.
Qed.

Lemma small_guard : small_const_nbits true nbits = true /\ small_const_nbits false nbits = false.
Proof. unfold small_const_nbits, BITS_PER_LONG. simpl. split; [lia|done]. Qed.

Lemma word0 (l : list Z) : words l -> 0 < Z.of_nat (length l) ->
  exists w, rd l 0 = Ok w /\ is_word w /\ forall j, 0 <= j < 64 -> Z.testbit w j = bit l j.
Proof. intros Hl Hc. destruct (rd_word l 0 Hl) as (w&?&?&H); [lia|]. exists w. split_and!; [done..|]. intros j Hj. by rewrite H. Qed.

Lemma bool_agree (r s : bool) (P : Prop) : (r = true <-> P) -> (s = true <-> P) -> r = s.
Proof. intros H1 H2. apply Bool.eq_true_iff_eq. by rewrite H1, H2. Qed.

Section Compare.
Context (a b : list Z).
Hypothesis Ha : words a.
Hypothesis Hb : words b.
Hypothesis Hca : 0 < Z.of_nat (length a).
Hypothesis Hcb : 0 < Z.of_nat (length b).

Lemma small_equal : bitmap_equal true a b nbits = bitmap_equal false a b nbits.
Proof.
  unfold bitmap_equal. destruct small_guard as [-> ->].
  destruct (word0 a Ha Hca) as (wa&->&Hwa&Hba), (word0 b Hb Hcb) as (wb&->&Hwb&Hbb). cbn [obind].
  destruct (equal_spec a b nbits) as (r&->&Hr); try done; unfold capacity; try lia. f_equal.
  apply (bool_agree _ _ _ (masked_zero _ (lxor_word _ _ Hwa Hwb))). rewrite Hr.
  split; intros H i Hi; specialize (H i Hi); rewrite Z.lxor_spec, Hba, Hbb in * by lia.
  - rewrite H. apply xorb_nilpotent.
  - by apply xorb_eq.
Qed.

Lemma small_intersects : bitmap_intersects true a b nbits = bitmap_intersects false a b nbits.
Proof.
  unfold bitmap_intersects. destruct small_guard as [-> ->].
  destruct (word0 a Ha Hca) as (wa&->&Hwa&Hba), (word0 b Hb Hcb) as (wb&->&Hwb&Hbb). cbn [obind].
  destruct (intersects_spec a b nbits) as (r&->&Hr); try done; unfold capacity; try lia. f_equal.
  assert (Hw : is_word (Z.land wa wb)) by (apply land_word; [done|apply Hwb]).
  pose proof (masked_zero _ Hw) as Hz. destruct (Z.land _ _ =? 0) eqn:E; simpl; symmetry.
  - destruct r; [|done]. destruct (proj1 Hr eq_refl) as (i&Hi&H1&H2). pose proof (proj1 Hz eq_refl i Hi) as H.
    rewrite Z.land_spec, Hba, Hbb, H1, H2 in H by lia. done.
  - destruct r; [done|]. exfalso. assert (Ht : false = true); [|done]. apply Hz. intros j Hj. rewrite Z.land_spec, Hba, Hbb by lia.
    destruct (bit a j) eqn:E1, (bit b j) eqn:E2; try done. exfalso. assert (Hx : false = true); [|done]. apply Hr. by exists j.
Qed.

Lemma small_subset : bitmap_subset true a b nbits = bitmap_subset false a b nbits.
Proof.
  unfold bitmap_subset. destruct small_guard as [-> ->].
  destruct (word0 a Ha Hca) as (wa&->&Hwa&Hba), (word0 b Hb Hcb) as (wb&->&Hwb&Hbb). cbn [obind].
  destruct (subset_spec a b nbits) as (r&->&Hr); try done; unfold capacity; try lia. f_equal.
  assert (Hw : is_word (Z.land wa (bnot wb))) by (apply land_word; [done|apply bnot_word]).
  apply (bool_agree _ _ _ (masked_zero _ Hw)). rewrite Hr.
  split; intros H i Hi; specialize (H i Hi); rewrite andnot_bit, Hba, Hbb in * by lia.
  - destruct (bit a i); [|done]. by rewrite H.
  - intros E. rewrite E in H. by destruct (bit b i).
Qed.

Lemma small_empty : bitmap_empty true a nbits = bitmap_empty false a nbits.
Proof.
  unfold bitmap_empty. destruct small_guard as [-> ->]. destruct (word0 a Ha Hca) as (wa&->&Hwa&Hba). cbn [obind].
  destruct (find_first_bit_spec a Ha nbits) as (r&->&Hr); [unfold capacity; lia|]. cbn [obind]. f_equal.
  apply (bool_agree _ _ _ (masked_zero _ Hwa)). rewrite Z.eqb_eq. split.
  - intros -> j Hj. rewrite Hba by lia. destruct Hr as [(?&_)|[_ Hz]]; [lia|by apply Hz].
  - intros Hz. destruct Hr as [(?&H&_)|[-> _]]; [|done]. rewrite <- Hba, Hz in H by lia. done.
Qed.

Lemma small_full : bitmap_full true a nbits = bitmap_full false a nbits.
Proof.
  unfold bitmap_full. destruct small_guard as [-> ->]. destruct (word0 a Ha Hca) as (wa&->&Hwa&Hba). cbn [obind].
  destruct (find_first_zero_bit_spec a Ha nbits) as (r&->&Hr); [unfold capacity; lia|]. cbn [obind]. f_equal.
  apply (bool_agree _ _ _ (masked_zero _ (bnot_word wa))). rewrite Z.eqb_eq. split.
  - intros -> j Hj. rewrite bnot_bit, Hba by lia. destruct Hr as [(?&_)|[_ Hz]]; [lia|by apply Hz].
  - intros Hz. destruct Hr as [(?&H&_)|[-> _]]; [|done]. rewrite <- Hba, <- bnot_bit, Hz in H by lia. done.
Qed.

Lemma small_weight : bitmap_weight true a nbits = bitmap_weight false a nbits.
Proof.
  unfold bitmap_weight. destruct small_guard as [-> ->]. unfold __bitmap_weight. change BITS_PER_LONG with 64.
  destruct (word0 a Ha Hca) as (w&Hr&Hw&_). destruct small_cases as [(E&Hd&Hm)|(E&Hd&Hm)]; rewrite Hd, Hm.
  - rewrite mask_full, for_do_1, Hr by exact E. cbn [obind negb Z.eqb]. rewrite land_full by exact Hw. reflexivity.
  - destruct (nbits =? 0) eqn:Ez; [lia|]. rewrite for_do_0. cbn [obind negb]. rewrite Hr. reflexivity.
Qed.

End Compare.

(** For the routines that write, [o1] and [o2] are the operands. *)
Section Write.
Context (dst : list Z) (o1 o2 : operand).
Hypothesis Ho1 : words (resolve dst o1) /\ 0 < Z.of_nat (length (resolve dst o1)).
Hypothesis Ho2 : words (resolve dst o2) /\ 0 < Z.of_nat (length (resolve dst o2)).

Lemma fetch0 o : words (resolve dst o) /\ 0 < Z.of_nat (length (resolve dst o)) -> exists w, fetch dst o 0 = Ok w /\ is_word w.
Proof. intros [Hw Hl]. destruct o; simpl in *; destruct (word0 _ Hw Hl) as (w&?&?&_); eauto. Qed.

Lemma small_and_words f : (forall x y, is_word x -> is_word y -> is_word (f x y)) ->
  (let* w1 := fetch dst o1 0 in let* w2 := fetch dst o2 0 in
   let* d := wr dst 0 (Z.land (f w1 w2) (BITMAP_LAST_WORD_MASK nbits)) in
   Ok (negb (Z.land (f w1 w2) (BITMAP_LAST_WORD_MASK nbits) =? 0), d)) = and_words f dst o1 o2 nbits.
Proof.
  intros Hf. destruct (fetch0 o1 Ho1) as (w1&H1&Hw1), (fetch0 o2 Ho2) as (w2&H2&Hw2).
  unfold and_words. change BITS_PER_LONG with 64. destruct small_cases as [(E&Hd&Hm)|(E&Hd&Hm)]; rewrite Hd, Hm.
  - rewrite mask_full, for_do_1, H1, H2 by done. cbn [obind]. rewrite land_full by auto.
    by destruct (wr dst 0 (f w1 w2)).
  - destruct (nbits =? 0) eqn:Ez; [lia|]. rewrite for_do_0, H1, H2. cbn [obind negb]. by rewrite H1, H2.
Qed.

Lemma small_or_words f :
  (let* w1 := fetch dst o1 0 in let* w2 := fetch dst o2 0 in wr dst 0 (f w1 w2)) = or_words f dst o1 o2 nbits.
Proof.
  destruct (fetch0 o1 Ho1) as (w1&H1&_), (fetch0 o2 Ho2) as (w2&H2&_).
  unfold or_words. by rewrite small_longs, for_do_1, H1, H2.
Qed.

Lemma small_complement : bitmap_complement true dst o1 nbits = bitmap_complement false dst o1 nbits.
Proof.
  unfold bitmap_complement. destruct small_guard as [-> ->]. destruct (fetch0 o1 Ho1) as (w&H1&_).
  unfold __bitmap_complement. change BITS_PER_LONG with 64. destruct small_cases as [(E&Hd&Hm)|(E&Hd&Hm)]; rewrite Hd, Hm.
  - rewrite for_do_1, H1. cbn [obind]. by destruct (wr dst 0 _).
  - destruct (nbits =? 0) eqn:Ez; [lia|]. rewrite for_do_0. cbn [obind negb]. by rewrite H1.
Qed.

Lemma small_shift_right shift : 0 <= shift < 64 ->
  bitmap_shift_right true dst o1 shift nbits = bitmap_shift_right false dst o1 shift nbits.
Proof.
  intros Hs. unfold bitmap_shift_right. destruct small_guard as [-> ->]. destruct (fetch0 o1 Ho1) as (w&H1&_).
  unfold __bitmap_shift_right. change BITS_PER_LONG with 64. rewrite small_longs, (Z.div_small shift), (Z.mod_small shift) by lia.
  change (1 - 0) with 1. rewrite for_do_1. change (1 <=? 0 + 0 + 1) with true. rewrite orb_true_r. cbn [obind].
  change (0 + 0) with 0. rewrite H1. cbn [obind]. rewrite Z.lor_0_r. by destruct (wr dst 0 _).
Qed.

End Write.
End Small.

(** ** Theorems *)

(** C8: The four forward searches and [find_last_bit] terminate, read inside
    the array only, and return exactly the first (last) matching bit of the
    range, or [size] if there is none. *)
Theorem find_bit_correct addr size offset :
  words addr -> 0 <= offset -> 0 <= size <= capacity addr -> capacity addr < 2 ^ 63 ->
  (exists r, find_next_bit addr size offset = Ok r /\ scan (bit addr) offset size r) /\
  (exists r, find_next_zero_bit addr size offset = Ok r /\ scan (fun i => negb (bit addr i)) offset size r) /\
  (exists r, find_first_bit addr size = Ok r /\ scan (bit addr) 0 size r) /\
  (exists r, find_first_zero_bit addr size = Ok r /\ scan (fun i => negb (bit addr i)) 0 size r) /\
  (exists r, find_last_bit addr size = Ok r /\ last_scan (bit addr) size r).
Proof.
  intros. split_and!; [apply find_next_bit_spec|apply find_next_zero_bit_spec|apply find_first_bit_spec
    |apply find_first_zero_bit_spec|apply find_last_bit_spec]; done.
Qed.

(** [__bitmap_and], [__bitmap_andnot], [__bitmap_or] and [__bitmap_xor]
    compute the bitwise function on every word of the bitmap, also when the
    destination is one of the operands; the first two clear the unused bits of
    the last word and report whether the result is non-empty. *)
Theorem bitmap_logic_correct dst o1 o2 bits :
  words dst -> words (resolve dst o1) -> words (resolve dst o2) ->
  0 <= bits <= capacity dst -> bits <= capacity (resolve dst o1) -> bits <= capacity (resolve dst o2) ->
  let b1 := bit (resolve dst o1) in let b2 := bit (resolve dst o2) in
  (exists r d, __bitmap_and dst o1 o2 bits = Ok (r, d) /\
     filled (fun i => b1 i && b2 i && (i <? bits)) (BITS_TO_LONGS bits) dst d /\
     (r = true <-> exists i, 0 <= i < bits /\ b1 i && b2 i = true)) /\
  (exists r d, __bitmap_andnot dst o1 o2 bits = Ok (r, d) /\
     filled (fun i => b1 i && negb (b2 i) && (i <? bits)) (BITS_TO_LONGS bits) dst d /\
     (r = true <-> exists i, 0 <= i < bits /\ b1 i && negb (b2 i) = true)) /\
  (exists d, __bitmap_or dst o1 o2 bits = Ok d /\ filled (fun i => b1 i || b2 i) (BITS_TO_LONGS bits) dst d) /\
  (exists d, __bitmap_xor dst o1 o2 bits = Ok d /\ filled (fun i => xorb (b1 i) (b2 i)) (BITS_TO_LONGS bits) dst d).
Proof.
  intros. split_and!.
  - apply (and_words_spec Z.land andb); try done; [|intros; apply Z.land_spec]. intros a b Ha Hb. apply land_word; [done|apply Hb].
  - apply (and_words_spec _ (fun x y => x && negb y)); try done; [|intros; by apply andnot_bit].
    intros a b Ha Hb. apply land_word; [done|apply bnot_word].
  - apply (or_words_spec Z.lor orb); try done; [intros; by apply lor_word|intros; apply Z.lor_spec].
  - apply (or_words_spec Z.lxor xorb); try done; [intros; by apply lxor_word|intros; apply Z.lxor_spec].
Qed.

(** [__bitmap_equal], [__bitmap_subset] and [__bitmap_intersects] decide
    the comparison of the first [bits] bits, whatever the unused bits hold. *)
Theorem bitmap_compare_correct b1 b2 bits :
  words b1 -> words b2 -> 0 <= bits <= capacity b1 -> bits <= capacity b2 ->
  (exists r, __bitmap_equal b1 b2 bits = Ok r /\ (r = true <-> forall i, 0 <= i < bits -> bit b1 i = bit b2 i)) /\
  (exists r, __bitmap_subset b1 b2 bits = Ok r /\ (r = true <-> forall i, 0 <= i < bits -> bit b1 i = true -> bit b2 i = true)) /\
  (exists r, __bitmap_intersects b1 b2 bits = Ok r /\
     (r = true <-> exists i, 0 <= i < bits /\ bit b1 i = true /\ bit b2 i = true)).
Proof. intros. split_and!; [by apply equal_spec|by apply subset_spec|by apply intersects_spec]. Qed.

(** [bitmap_set] and [bitmap_clear] change exactly the bits of
    [[start, start + len)], for any alignment of the two ends. *)
Theorem bitmap_range_correct map start len :
  words map -> 0 <= start -> 0 <= len -> start + len <= capacity map -> start + len < 2 ^ 32 ->
  (exists m, bitmap_set map start len = Ok m /\ painted true start (start + len) map m) /\
  (exists m, bitmap_clear map start len = Ok m /\ painted false start (start + len) map m).
Proof. intros. split; [by apply bitmap_set_spec|by apply bitmap_clear_spec]. Qed.

(** The shifts move every bit by [shift] positions and feed in zeros, also
    in place; the right shift does not let unused source bits in. *)
Theorem bitmap_shift_correct dst o shift nbits :
  words dst -> words (resolve dst o) -> 0 < nbits <= capacity dst -> nbits <= capacity (resolve dst o) ->
  0 <= shift -> shift / 64 <= BITS_TO_LONGS nbits ->
  (exists d, __bitmap_shift_right dst o shift nbits = Ok d /\
     filled (fun i => (i + shift <? nbits) && bit (resolve dst o) (i + shift)) (BITS_TO_LONGS nbits) dst d) /\
  (exists d, __bitmap_shift_left dst o shift nbits = Ok d /\
     filled (fun i => (shift <=? i) && bit (resolve dst o) (i - shift)) (BITS_TO_LONGS nbits) dst d).
Proof. intros. split; [by apply shift_right_spec|by apply shift_left_spec]. Qed.

(** [bitmap_find_next_zero_area_off] terminates and returns the first
    aligned run of [nr] clear bits at or after [start] that fits below [size],
    or a value above [size] if there is no such run. *)
Theorem bitmap_zero_area_correct map size nr k off start :
  words map -> 0 <= size <= capacity map -> capacity map < 2 ^ 60 -> 0 < nr < 2 ^ 32 -> 0 <= k <= 60 ->
  0 <= off < 2 ^ 60 -> 0 <= start <= size ->
  exists r, bitmap_find_next_zero_area_off map size start nr (2 ^ k - 1) off = Ok r /\
    ((start <= r /\ area_at map size nr k off r /\ forall c, start <= c < r -> ~ area_at map size nr k off c) \/
     (size < r /\ forall c, start <= c -> ~ area_at map size nr k off c)).
Proof. intros. by apply zero_area_spec. Qed.

(** [bitmap_find_free_region] allocates the lowest free aligned region of
    [2^order] bits or returns [-ENOMEM] and changes nothing when there is none;
    and [bitmap_release_region] of the result restores the bitmap. *)
Theorem bitmap_region_correct a bits order :
  words a -> 0 <= bits <= capacity a -> bits < 2 ^ 31 -> 0 <= order <= 30 ->
  exists r a', bitmap_find_free_region a bits order = Ok (r, a') /\
    ((0 <= r /\ r mod 2 ^ order = 0 /\ r + 2 ^ order <= bits /\ area_free a r (r + 2 ^ order) /\
      painted true r (r + 2 ^ order) a a' /\
      (forall c, 0 <= c < r -> c mod 2 ^ order = 0 -> ~ area_free a c (c + 2 ^ order)) /\
      exists a'', bitmap_release_region a' r order = Ok a'' /\ forall i, 0 <= i -> bit a'' i = bit a i) \/
     (r = - ENOMEM /\ a' = a /\
      forall c, 0 <= c -> c mod 2 ^ order = 0 -> c + 2 ^ order <= bits -> ~ area_free a c (c + 2 ^ order))).
Proof.
  intros Ha Hb Hmax Ho. unfold bitmap_find_free_region.
  destruct (find_free_loop_spec order Ho a bits (Z.to_nat bits + 1) 0) as (r&a'&->&Hcase); try done; try lia.
  exists r, a'. split; [done|]. destruct Hcase as [(Hr&Hal&Hfit&Hfree&Hp&Hmin)|?]; [left|by right].
  split_and!; try done. destruct Hp as (Ha'&Hl&Hbit).
  destruct (reg_release_spec order Ho a' r) as (a''&Hrel&_&_&Hbit''); try done; [unfold capacity in *; lia|].
  unfold bitmap_release_region. rewrite Hrel. cbn [obind]. exists a''. split; [done|]. intros i Hi. rewrite Hbit'', Hbit by done.
  case_if; [|done]. symmetry. apply Hfree. lia.
Qed.

(** [bitmap_ord_to_pos] and [bitmap_pos_to_ord] are inverse to each other:
    on the set bits below [nbits], and on the ordinals below the weight. *)
Theorem bitmap_ordinals_inverse a nbits :
  words a -> 0 <= nbits <= capacity a -> capacity a < 2 ^ 63 ->
  (forall pos, 0 <= pos < nbits -> bit a pos = true ->
     exists ord, bitmap_pos_to_ord a pos nbits = Ok ord /\ bitmap_ord_to_pos a ord nbits = Ok pos) /\
  (forall w ord, __bitmap_weight a nbits = Ok w -> 0 <= ord < w ->
     exists pos, bitmap_ord_to_pos a ord nbits = Ok pos /\ bitmap_pos_to_ord a pos nbits = Ok ord).
Proof.
  intros Ha Hn Hmax. split.
  - intros pos Hp Hb. exists (rank a pos). rewrite pos_to_ord_spec, Hb by (done || lia).
    destruct (pos <? nbits) eqn:E; [|lia]. split; [done|]. pose proof (rank_bounds a pos ltac:(lia)).
    destruct (ord_to_pos_spec a nbits Ha Hn Hmax (rank a pos)) as (r&->&[(Hr&Hbr&Hrk)|[-> Hrk]]); [lia| |].
    + f_equal. by apply (rank_inj a); [lia|lia|..].
    + pose proof (rank_mono a (pos + 1) nbits ltac:(lia)) as Hm. rewrite rank_succ, Hb in Hm by lia. simpl in Hm. lia.
  - intros w ord Hw Ho. rewrite weight_spec in Hw by done. injection Hw as <-.
    destruct (ord_to_pos_spec a nbits Ha Hn Hmax ord) as (r&->&[(Hr&Hbr&Hrk)|[-> Hrk]]); [lia| |lia].
    exists r. split; [done|]. rewrite pos_to_ord_spec, Hbr by (done || lia).
    destruct (r <? nbits) eqn:E; [|lia]. simpl. by rewrite Hrk.
Qed.

(** [bitmap_remap] sets exactly the images of the bits of [src] under the
    map that [bitmap_bitremap] computes bit by bit; that map sends the n-th set
    bit of [old] to the (n mod weight)-th set bit of [new] and fixes the rest. *)
Theorem bitmap_remap_correct nbits dst src old new :
  0 < nbits -> holds nbits dst -> holds nbits src -> holds nbits old -> holds nbits new ->
  (forall b, 0 <= b < nbits -> exists r, bitmap_bitremap b old new nbits = Ok r /\ remapped nbits old new b r) /\
  exists d, bitmap_remap dst src old new nbits = Ok d /\
    forall i, 0 <= i < nbits ->
      (bit d i = true <-> exists b, 0 <= b < nbits /\ bit src b = true /\ bitmap_bitremap b old new nbits = Ok i).
Proof.
  intros Hpos Hd Hs Ho Hn. split.
  - intros b Hb. destruct (bitremap_spec nbits Hpos old new b Ho Hn Hb) as (r&?&?&_). eauto.
  - destruct (remap_spec nbits Hpos dst src old new Hd Hs Ho Hn) as (d&->&_&_&Hbit). exists d. split; [done|].
    intros i Hi. rewrite Hbit by done. split; intros (b&Hb&Hbs&Hr); exists b; split_and!; try done; try lia.
    + destruct (bitremap_spec nbits Hpos old new b Ho Hn Hb) as (r&->&Hr'&_). f_equal. by eapply remapped_unique.
    + destruct (bitremap_spec nbits Hpos old new b Ho Hn Hb) as (r&Hr'&?&_). rewrite Hr' in Hr. by injection Hr as <-.
Qed.

(** The bit-parallel population counts of [lib/hweight.c] are the number
    of set bits, and so [__bitmap_weight] is the number of set bits below
    [bits]. *)
Theorem hweight_correct :
  (forall w, 0 <= w < 2 ^ 64 -> __sw_hweight64 w = popcount w 64) /\
  (forall w, 0 <= w < 2 ^ 32 -> __sw_hweight32 w = popcount w 32) /\
  (forall w, 0 <= w < 2 ^ 16 -> __sw_hweight16 w = popcount w 16) /\
  (forall w, 0 <= w < 2 ^ 8 -> __sw_hweight8 w = popcount w 8) /\
  (forall a bits, words a -> 0 <= bits <= capacity a -> __bitmap_weight a bits = Ok (count (bit a) 0 (Z.to_nat bits))).
Proof.
  split_and!; [apply hweight64_popcount|apply hweight32_popcount|apply hweight16_popcount|apply hweight8_popcount|].
  apply weight_spec.
Qed.

(** The one-word variants that [include/linux/bitmap.h] selects for small
    constant sizes agree with the general routines. *)
Theorem bitmap_small_equiv nbits a b dst o1 o2 :
  0 < nbits <= 64 -> words a -> words b -> 0 < Z.of_nat (length a) -> 0 < Z.of_nat (length b) ->
  words (resolve dst o1) /\ 0 < Z.of_nat (length (resolve dst o1)) ->
  words (resolve dst o2) /\ 0 < Z.of_nat (length (resolve dst o2)) ->
  bitmap_equal true a b nbits = bitmap_equal false a b nbits /\
  bitmap_intersects true a b nbits = bitmap_intersects false a b nbits /\
  bitmap_subset true a b nbits = bitmap_subset false a b nbits /\
  bitmap_empty true a nbits = bitmap_empty false a nbits /\
  bitmap_full true a nbits = bitmap_full false a nbits /\
  bitmap_weight true a nbits = bitmap_weight false a nbits /\
  bitmap_and true dst o1 o2 nbits = bitmap_and false dst o1 o2 nbits /\
  bitmap_andnot true dst o1 o2 nbits = bitmap_andnot false dst o1 o2 nbits /\
  bitmap_or true dst o1 o2 nbits = bitmap_or false dst o1 o2 nbits /\
  bitmap_xor true dst o1 o2 nbits = bitmap_xor false dst o1 o2 nbits /\
  bitmap_complement true dst o1 nbits = bitmap_complement false dst o1 nbits /\
  (forall shift, 0 <= shift < 64 ->
     bitmap_shift_right true dst o1 shift nbits = bitmap_shift_right false dst o1 shift nbits).
Proof.
  intros Hn Ha Hb Hla Hlb H1 H2.
  split_and!; [by apply small_equal|by apply small_intersects|by apply small_subset|by apply small_empty|by apply small_full
    |by apply small_weight| | | | |by apply small_complement|intros; by apply small_shift_right].
  - unfold bitmap_and. destruct (small_guard nbits Hn) as [-> ->]. apply small_and_words; try done.
    intros x y Hx Hy. apply land_word; [done|apply Hy].
  - unfold bitmap_andnot. destruct (small_guard nbits Hn) as [-> ->]. apply (small_and_words nbits Hn dst o1 o2 H1 H2 (fun w1 w2 => Z.land w1 (bnot w2))).
    intros x y Hx Hy. apply land_word; [done|apply bnot_word].
  - unfold bitmap_or. destruct (small_guard nbits Hn) as [-> ->]. by apply small_or_words.
  - unfold bitmap_xor. destruct (small_guard nbits Hn) as [-> ->]. by apply small_or_words.
Qed.

(** The header of [lib/bitmap.c] promises that an operation given bitmaps
    without set unused bits does not produce one; [__bitmap_shift_left] does
    (a 4-bit map shifted by one gets bit 4), and so the one-word variant, which
    masks, is not equal to it. *)
Theorem bitmap_shift_left_unused_bits :
  bit [8] 3 = true /\ (forall i, 4 <= i < 64 -> bit [8] i = false) /\
  __bitmap_shift_left [0] (Arr [8]) 1 4 = Ok [16] /\ bit [16] 4 = true /\
  bitmap_shift_left true [0] (Arr [8]) 1 4 = Ok [0].
Proof.
  split_and!; try done. intros i Hi. unfold bit. rewrite (Z.div_small i 64), (Z.mod_small i 64) by lia. simpl.
  apply Z.bits_above_log2; [lia|]. simpl. lia.
Qed.

(** ** Witnesses *)

(** 128-bit maps: bits 4 to 7 and 64; bits 12 to 15; bits 1, 5 and 7. *)
Definition map1 : list Z := [0xF0; 1].
Definition map2 : list Z := [0xF000; 0].
Definition map3 : list Z := [0xA2; 0].

Lemma map1_words : words map1.
Proof. by repeat constructor. Qed.
Lemma map2_words : words map2.
Proof. by repeat constructor. Qed.
Lemma map3_words : words map3.
Proof. by repeat constructor. Qed.

Lemma find_bit_correct_witness :
  (exists r, find_next_bit map1 100 8 = Ok r /\ scan (bit map1) 8 100 r) /\
  (exists r, find_next_zero_bit map1 100 8 = Ok r /\ scan (fun i => negb (bit map1 i)) 8 100 r) /\
  (exists r, find_first_bit map1 100 = Ok r /\ scan (bit map1) 0 100 r) /\
  (exists r, find_first_zero_bit map1 100 = Ok r /\ scan (fun i => negb (bit map1 i)) 0 100 r) /\
  (exists r, find_last_bit map1 100 = Ok r /\ last_scan (bit map1) 100 r).
Proof. apply find_bit_correct; [apply map1_words|lia|split; done|done]. Defined.

Lemma bitmap_logic_correct_witness :
  exists r d, __bitmap_and map1 Self (Arr map2) 70 = Ok (r, d) /\
     filled (fun i => bit map1 i && bit map2 i && (i <? 70)) (BITS_TO_LONGS 70) map1 d /\
     (r = true <-> exists i, 0 <= i < 70 /\ bit map1 i && bit map2 i = true).
Proof.
  apply (bitmap_logic_correct map1 Self (Arr map2) 70);
    [apply map1_words|apply map1_words|apply map2_words|split; done|done|done].
Defined.

Lemma bitmap_compare_correct_witness :
  (exists r, __bitmap_equal map1 map2 70 = Ok r /\ (r = true <-> forall i, 0 <= i < 70 -> bit map1 i = bit map2 i)) /\
  (exists r, __bitmap_subset map1 map2 70 = Ok r /\ (r = true <-> forall i, 0 <= i < 70 -> bit map1 i = true -> bit map2 i = true)) /\
  (exists r, __bitmap_intersects map1 map2 70 = Ok r /\
     (r = true <-> exists i, 0 <= i < 70 /\ bit map1 i = true /\ bit map2 i = true)).
Proof. apply bitmap_compare_correct; [apply map1_words|apply map2_words|split; done|done]. Defined.

Lemma bitmap_range_correct_witness :
  (exists m, bitmap_set map1 10 100 = Ok m /\ painted true 10 (10 + 100) map1 m) /\
  (exists m, bitmap_clear map1 10 100 = Ok m /\ painted false 10 (10 + 100) map1 m).
Proof. apply bitmap_range_correct; [apply map1_words|lia|lia|done|lia]. Defined.

Lemma bitmap_shift_correct_witness :
  (exists d, __bitmap_shift_right map1 Self 68 100 = Ok d /\
     filled (fun i => (i + 68 <? 100) && bit map1 (i + 68)) (BITS_TO_LONGS 100) map1 d) /\
  (exists d, __bitmap_shift_left map1 Self 68 100 = Ok d /\
     filled (fun i => (68 <=? i) && bit map1 (i - 68)) (BITS_TO_LONGS 100) map1 d).
Proof.
  apply (bitmap_shift_correct map1 Self 68 100); [apply map1_words|apply map1_words|split; done|done|lia|done].
Defined.

Lemma bitmap_zero_area_correct_witness :
  exists r, bitmap_find_next_zero_area_off map1 128 3 9 (2 ^ 2 - 1) 1 = Ok r /\
    ((3 <= r /\ area_at map1 128 9 2 1 r /\ forall c, 3 <= c < r -> ~ area_at map1 128 9 2 1 c) \/
     (128 < r /\ forall c, 3 <= c -> ~ area_at map1 128 9 2 1 c)).
Proof. apply bitmap_zero_area_correct; [apply map1_words|split; done|done|lia..]. Defined.

Lemma bitmap_region_correct_witness :
  exists r a', bitmap_find_free_region map1 128 3 = Ok (r, a') /\
    ((0 <= r /\ r mod 2 ^ 3 = 0 /\ r + 2 ^ 3 <= 128 /\ area_free map1 r (r + 2 ^ 3) /\
      painted true r (r + 2 ^ 3) map1 a' /\
      (forall c, 0 <= c < r -> c mod 2 ^ 3 = 0 -> ~ area_free map1 c (c + 2 ^ 3)) /\
      exists a'', bitmap_release_region a' r 3 = Ok a'' /\ forall i, 0 <= i -> bit a'' i = bit map1 i) \/
     (r = - ENOMEM /\ a' = map1 /\
      forall c, 0 <= c -> c mod 2 ^ 3 = 0 -> c + 2 ^ 3 <= 128 -> ~ area_free map1 c (c + 2 ^ 3))).
Proof. apply bitmap_region_correct; [apply map1_words|split; done|lia|lia]. Defined.

Lemma bitmap_ordinals_inverse_witness :
  exists ord, bitmap_pos_to_ord map1 64 128 = Ok ord /\ bitmap_ord_to_pos map1 ord 128 = Ok 64.
Proof.
  apply (bitmap_ordinals_inverse map1 128); [apply map1_words|split; done|done|lia|reflexivity].
Defined.

Lemma bitmap_remap_correct_witness :
  exists d, bitmap_remap [0; 0] map3 map1 map2 128 = Ok d /\
    forall i, 0 <= i < 128 ->
      (bit d i = true <-> exists b, 0 <= b < 128 /\ bit map3 b = true /\ bitmap_bitremap b map1 map2 128 = Ok i).
Proof.
  apply (bitmap_remap_correct 128 [0; 0] map3 map1 map2); [lia|..]; (split_and!; [|done|done]);
    [by repeat constructor|apply map3_words|apply map1_words|apply map2_words].
Defined.

Lemma bitmap_small_equiv_witness :
  bitmap_equal true map1 map2 40 = bitmap_equal false map1 map2 40 /\
  bitmap_weight true map1 40 = bitmap_weight false map1 40 /\
  bitmap_and true map1 Self (Arr map2) 40 = bitmap_and false map1 Self (Arr map2) 40.
Proof.
  pose proof (bitmap_small_equiv 40 map1 map2 map1 Self (Arr map2) ltac:(lia) map1_words map2_words eq_refl eq_refl
    (conj map1_words eq_refl) (conj map2_words eq_refl)) as (H1&_&_&_&_&H2&H3&_).
  split; [exact H1|split; [exact H2|exact H3]].
Defined.
