(* ===== verification/Kfifo.v ===== *)
(** * Kfifo: the ring buffer of [lib/kfifo.c] and [include/linux/kfifo.h]

    The indices [in_] and [out] are 32-bit counters that are never reduced
    modulo the size: they wrap at [2 ^ 32] and every access masks them. The
    element operations, the record operations (a length of [recsize] bytes
    before each record), the transfers from and to user space and the
    scatterlist set-up are modelled, with the macros of the header that
    dispatch between them.

    A buffer is a list of bytes and a NULL pointer the empty list, so an access
    out of bounds is a fault. The accessibility of user memory and the
    translation of virtual pages are arguments. *)

From S2P Require Import Prelude Bits.


Record __kfifo := Kfifo {
  in_ : Z;
  out : Z;
  mask : Z;
  esize : Z;
  data : list Z
}.

#[export] Instance __kfifo_eq_dec : EqDecision __kfifo.
Proof. solve_decision. Defined.

Definition set_in (f : __kfifo) (x : Z) : __kfifo := Kfifo x (out f) (mask f) (esize f) (data f).
Definition set_out (f : __kfifo) (x : Z) : __kfifo := Kfifo (in_ f) x (mask f) (esize f) (data f).
Definition set_data (f : __kfifo) (d : list Z) : __kfifo := Kfifo (in_ f) (out f) (mask f) (esize f) d.

(** ** Set-up *)

Definition fls_long (l : Z) : Z := if l =? 0 then 0 else __fls l + 1.

(** [1UL << fls_long(n - 1)]; the shift takes its amount modulo 64, which only
    matters for [n = 0], where the header leaves the result undefined. *)
Definition roundup_pow_of_two (n : Z) : Z := shl 1 (fls_long (u64 (n - 1)) mod 64).

Definition kfifo_unused (f : __kfifo) : Z := u32 (u32 (mask f + 1) - u32 (in_ f - out f)).

Definition __kfifo_alloc (kmalloc : Z -> option (list Z)) (size esize : Z) : Z * __kfifo :=
  let size := u32 (roundup_pow_of_two size) in
  if size <? 2 then (- EINVAL, Kfifo 0 0 0 (u32 esize) [])
  else match kmalloc (u64 (size * esize)) with
       | None => (- ENOMEM, Kfifo 0 0 0 (u32 esize) [])
       | Some d => (0, Kfifo 0 0 (u32 (size - 1)) (u32 esize) d)
       end.

Definition __kfifo_free (f : __kfifo) : __kfifo := Kfifo 0 0 0 0 [].

(** A division by an element size of zero is a fault. *)
Definition __kfifo_init (buffer : list Z) (size esize : Z) : outcome (Z * __kfifo) :=
  if esize =? 0 then Oops
  else
    let size := u32 (roundup_pow_of_two (size / esize)) in
    if size <? 2 then Ok (- EINVAL, Kfifo 0 0 0 (u32 esize) buffer)
    else Ok (0, Kfifo 0 0 (u32 (size - 1)) (u32 esize) buffer).

(** ** Elements *)

(** The start of the four copy routines: the byte offset, the byte length and
    the number [l] of bytes that fit before the end of the buffer. *)
Definition split_copy (f : __kfifo) (len off : Z) : Z * Z * Z :=
  let size := u32 (mask f + 1) in
  let off := Z.land off (mask f) in
  let off' := if esize f =? 1 then off else u32 (off * esize f) in
  let size' := if esize f =? 1 then size else u32 (size * esize f) in
  let len' := if esize f =? 1 then len else u32 (len * esize f) in
  (off', len', Z.min len' (u32 (size' - off'))).

Definition kfifo_copy_in (f : __kfifo) (src : list Z) (len off : Z) : outcome __kfifo :=
  let '(off, len, l) := split_copy f len off in
  let* d := memcpy (data f) off src 0 l in
  let* d := memcpy d 0 src l (u32 (len - l)) in
  Ok (set_data f d).

Definition __kfifo_in (f : __kfifo) (buf : list Z) (len : Z) : outcome (Z * __kfifo) :=
  let l := kfifo_unused f in
  let len := if l <? len then l else len in
  let* f := kfifo_copy_in f buf len (in_ f) in
  Ok (len, set_in f (u32 (in_ f + len))).

(** The destination buffer is returned. *)
Definition kfifo_copy_out (f : __kfifo) (dst : list Z) (len off : Z) : outcome (list Z) :=
  let '(off, len, l) := split_copy f len off in
  let* dst := memcpy dst 0 (data f) off l in
  memcpy dst l (data f) 0 (u32 (len - l)).

Definition __kfifo_out_peek (f : __kfifo) (buf : list Z) (len : Z) : outcome (Z * list Z) :=
  let l := u32 (in_ f - out f) in
  let len := if l <? len then l else len in
  let* buf := kfifo_copy_out f buf len (out f) in
  Ok (len, buf).

Definition __kfifo_out (f : __kfifo) (buf : list Z) (len : Z) : outcome (Z * list Z * __kfifo) :=
  let* (len, buf) := __kfifo_out_peek f buf len in
  Ok (len, buf, set_out f (u32 (out f + len))).

(** ** User space *)

(** [fault addr n] is the number of bytes that a copy of [n] bytes at the user
    address [addr] leaves uncopied; user memory maps addresses to bytes. *)
Section User.
Context (fault : Z -> Z -> Z).

(** The bytes [ubuf[from], ..., ubuf[from + n - 1]] as a buffer. *)
Definition user_bytes (ubuf : Z -> Z) (from n : Z) : list Z :=
  map (fun i => ubuf (from + Z.of_nat i)) (seq 0 (Z.to_nat n)).

(** [copy_from_user(data + off, from, n)]: the bytes that were not read are
    zeroed in the destination; the count of them is returned. *)
Definition copy_from_user (ubuf : Z -> Z) (d : list Z) (off from n : Z) : outcome (Z * list Z) :=
  let ret := fault from n in
  let* d := memcpy d off (user_bytes ubuf from (n - ret) ++ replicate (Z.to_nat ret) 0) 0 n in
  Ok (ret, d).

(** [copy_to_user(to, data + off, n)] returns the new user memory. *)
Definition copy_to_user (ubuf : Z -> Z) (to : Z) (d : list Z) (off n : Z) : outcome (Z * (Z -> Z)) :=
  let ret := fault to n in
  if (Z.of_nat (length d) <? off + n) && (0 <? n) then Oops
  else Ok (ret, fun a => if (to <=? a) && (a <? to + (n - ret))
                         then default 0 (d !! Z.to_nat (off + (a - to))) else ubuf a).

Definition DIV_ROUND_UP (n d : Z) : Z := u64 (n + d - 1) / d.

(** Returns the number of elements not copied, [*copied] and the fifo. *)
Definition kfifo_copy_from_user (f : __kfifo) (ubuf : Z -> Z) (from len off : Z) : outcome (Z * Z * __kfifo) :=
  let '(off, len, l) := split_copy f len off in
  let* (ret, d) := copy_from_user ubuf (data f) off from l in
  let* (ret, d) :=
    if negb (ret =? 0) then Ok (DIV_ROUND_UP (u64 (u64 (ret + len) - l)) (esize f), d)
    else
      let* (ret, d) := copy_from_user ubuf d 0 (from + l) (u32 (len - l)) in
      Ok (if negb (ret =? 0) then DIV_ROUND_UP ret (esize f) else ret, d) in
  Ok (ret, u32 (len - ret * esize f), set_data f d).

(** Returns the error code, [*copied] and the fifo. *)
Definition __kfifo_from_user (f : __kfifo) (ubuf : Z -> Z) (from len : Z) : outcome (Z * Z * __kfifo) :=
  let len := if negb (esize f =? 1) then len / esize f else len in
  let l := kfifo_unused f in
  let len := if l <? len then l else len in
  let* (ret, copied, f) := kfifo_copy_from_user f ubuf from len (in_ f) in
  let '(len, err) := if negb (ret =? 0) then (u64 (len - ret), - EFAULT) else (len, 0) in
  Ok (err, copied, set_in f (u32 (in_ f + len))).

Definition kfifo_copy_to_user (f : __kfifo) (ubuf : Z -> Z) (to len off : Z) : outcome (Z * Z * (Z -> Z)) :=
  let '(off, len, l) := split_copy f len off in
  let* (ret, ubuf) := copy_to_user ubuf to (data f) off l in
  let* (ret, ubuf) :=
    if negb (ret =? 0) then Ok (DIV_ROUND_UP (u64 (u64 (ret + len) - l)) (esize f), ubuf)
    else
      let* (ret, ubuf) := copy_to_user ubuf (to + l) (data f) 0 (u32 (len - l)) in
      Ok (if negb (ret =? 0) then DIV_ROUND_UP ret (esize f) else ret, ubuf) in
  Ok (ret, u32 (len - ret * esize f), ubuf).

Definition __kfifo_to_user (f : __kfifo) (ubuf : Z -> Z) (to len : Z) : outcome (Z * Z * (Z -> Z) * __kfifo) :=
  let len := if negb (esize f =? 1) then len / esize f else len in
  let l := u32 (in_ f - out f) in
  let len := if l <? len then l else len in
  let* (ret, copied, ubuf) := kfifo_copy_to_user f ubuf to len (out f) in
  let '(len, err) := if negb (ret =? 0) then (u64 (len - ret), - EFAULT) else (len, 0) in
  Ok (err, copied, ubuf, set_out f (u32 (out f + len))).

End User.

(** ** Records *)

(** [(1 << (recsize << 3)) - 1], for the record sizes 1 and 2. *)
Definition __kfifo_max_r (len recsize : Z) : Z :=
  let max := u32 (Z.shiftl 1 (Z.shiftl recsize 3) - 1) in
  if max <? len then max else len.

Definition __kfifo_peek_n (f : __kfifo) (recsize : Z) : outcome Z :=
  let* l := rd (data f) (Z.land (out f) (mask f)) in
  if negb (recsize - 1 =? 0) then
    let* h := rd (data f) (Z.land (u32 (out f + 1)) (mask f)) in
    Ok (Z.lor l (Z.shiftl h 8))
  else Ok l.

Definition __kfifo_poke_n (f : __kfifo) (n recsize : Z) : outcome __kfifo :=
  let* d := wr (data f) (Z.land (in_ f) (mask f)) (u8 n) in
  let* d := if 1 <? recsize then wr d (Z.land (u32 (in_ f + 1)) (mask f)) (u8 (Z.shiftr n 8)) else Ok d in
  Ok (set_data f d).

Definition __kfifo_len_r (f : __kfifo) (recsize : Z) : outcome Z := __kfifo_peek_n f recsize.

Definition __kfifo_in_r (f : __kfifo) (buf : list Z) (len recsize : Z) : outcome (Z * __kfifo) :=
  if kfifo_unused f <? u64 (len + recsize) then Ok (0, f)
  else
    let* f := __kfifo_poke_n f len recsize in
    let* f := kfifo_copy_in f buf len (u32 (in_ f + recsize)) in
    Ok (len, set_in f (u32 (in_ f + u64 (len + recsize)))).

(** Returns the number of bytes copied, the destination and the record length. *)
Definition kfifo_out_copy_r (f : __kfifo) (buf : list Z) (len recsize : Z) : outcome (Z * list Z * Z) :=
  let* n := __kfifo_peek_n f recsize in
  let len := if n <? len then n else len in
  let* buf := kfifo_copy_out f buf len (u32 (out f + recsize)) in
  Ok (len, buf, n).

Definition __kfifo_out_peek_r (f : __kfifo) (buf : list Z) (len recsize : Z) : outcome (Z * list Z) :=
  if in_ f =? out f then Ok (0, buf)
  else let* (len, buf, _) := kfifo_out_copy_r f buf len recsize in Ok (len, buf).

Definition __kfifo_out_r (f : __kfifo) (buf : list Z) (len recsize : Z) : outcome (Z * list Z * __kfifo) :=
  if in_ f =? out f then Ok (0, buf, f)
  else
    let* (len, buf, n) := kfifo_out_copy_r f buf len recsize in
    Ok (len, buf, set_out f (u32 (out f + u64 (n + recsize)))).

Definition __kfifo_skip_r (f : __kfifo) (recsize : Z) : outcome __kfifo :=
  let* n := __kfifo_peek_n f recsize in
  Ok (set_out f (u32 (out f + u64 (n + recsize)))).

Definition __kfifo_from_user_r (fault : Z -> Z -> Z) (f : __kfifo) (ubuf : Z -> Z) (from len recsize : Z)
    : outcome (Z * Z * __kfifo) :=
  let len := __kfifo_max_r (u32 len) recsize in
  if kfifo_unused f <? u64 (len + recsize) then Ok (0, 0, f)
  else
    let* f := __kfifo_poke_n f len recsize in
    let* (ret, copied, f) := kfifo_copy_from_user fault f ubuf from len (u32 (in_ f + recsize)) in
    if negb (ret =? 0) then Ok (- EFAULT, 0, f)
    else Ok (0, copied, set_in f (u32 (in_ f + u64 (len + recsize)))).

Definition __kfifo_to_user_r (fault : Z -> Z -> Z) (f : __kfifo) (ubuf : Z -> Z) (to len recsize : Z)
    : outcome (Z * Z * (Z -> Z) * __kfifo) :=
  if in_ f =? out f then Ok (0, 0, ubuf, f)
  else
    let* n := __kfifo_peek_n f recsize in
    let len := if n <? len then n else len in
    let* (ret, copied, ubuf) := kfifo_copy_to_user fault f ubuf to len (u32 (out f + recsize)) in
    if negb (ret =? 0) then Ok (- EFAULT, 0, ubuf, f)
    else Ok (0, copied, ubuf, set_out f (u32 (out f + u64 (n + recsize)))).

(** ** Scatterlists *)

Definition PAGE_SIZE : Z := 4096.

(** An entry of a scatterlist array; a page is named by its physical address.
    Arrays that are chained to others are not modelled: [setup_sgl] itself
    indexes its array with [sgl + n]. *)
Record scatterlist := Sg {
  sg_page : Z;
  sg_len : Z;
  sg_offset : Z;
  sg_is_last : bool
}.

Definition sg_set_page (sgl : list scatterlist) (k page len offset : Z) : outcome (list scatterlist) :=
  let* s := rd sgl k in
  wr sgl k (Sg page len offset (sg_is_last s)).

(** The index after [k], or [None] after the last entry. *)
Definition sg_next (sgl : list scatterlist) (k : Z) : outcome (option Z) :=
  let* s := rd sgl k in
  Ok (if sg_is_last s then None else Some (k + 1)).

(** [page_phys v] is [page_to_phys(virt_to_page(v))] for a virtual address in
    page [v / PAGE_SIZE]; [base] is the address of [fifo->data]. *)
Section Dma.
Context (page_phys : Z -> Z) (base : Z).

(** The loop of [setup_sgl_buf]: [inl] when it ends, [inr] on [return n]. *)
Fixpoint setup_sgl_loop (fuel : nat) (sgl : list scatterlist) (k n nents buf page len off l : Z)
    : outcome (list scatterlist * (Z * Z * Z * Z * Z + Z)) :=
  match fuel with
  | O => NoFuel
  | S fuel =>
    if u64 (u64 (l + PAGE_SIZE) - off) <=? len then
      let l := u32 (l + PAGE_SIZE) in
      let buf := u64 (buf + PAGE_SIZE) in
      let npage := page_phys (buf / PAGE_SIZE) in
      if negb (page =? u64 (npage - l)) then
        let* sgl := sg_set_page sgl k page (u32 (l - off)) off in
        let* next := sg_next sgl k in
        let n := n + 1 in
        match next with
        | None => Ok (sgl, inr n)
        | Some k => if n =? nents then Ok (sgl, inr n)
                    else setup_sgl_loop fuel sgl k n nents buf npage (u32 (len - (l - off))) 0 0
        end
      else setup_sgl_loop fuel sgl k n nents buf page len off l
    else Ok (sgl, inl (k, n, page, len, off))
  end.

Definition setup_sgl_buf (sgl : list scatterlist) (k buf nents len : Z) : outcome (list scatterlist * Z) :=
  if nents =? 0 then Ok (sgl, 0)
  else if len =? 0 then Ok (sgl, 0)
  else
    let page := page_phys (buf / PAGE_SIZE) in
    let off := buf mod PAGE_SIZE in
    let* (sgl, r) := setup_sgl_loop (Z.to_nat (len / PAGE_SIZE) + 2) sgl k 0 nents buf page len off 0 in
    match r with
    | inr n => Ok (sgl, n)
    | inl (k, n, page, len, off) =>
      let* sgl := sg_set_page sgl k page len off in
      Ok (sgl, n + 1)
    end.

Definition setup_sgl (f : __kfifo) (sgl : list scatterlist) (nents len off : Z) : outcome (list scatterlist * Z) :=
  let '(off, len, l) := split_copy f len off in
  let* (sgl, n) := setup_sgl_buf sgl 0 (u64 (base + off)) nents l in
  let* (sgl, n') := setup_sgl_buf sgl n base (nents - n) (u32 (len - l)) in
  Ok (sgl, n + n').

Definition __kfifo_dma_in_prepare (f : __kfifo) (sgl : list scatterlist) (nents len : Z) : outcome (list scatterlist * Z) :=
  let l := kfifo_unused f in
  let len := if l <? len then l else len in
  setup_sgl f sgl nents len (in_ f).

Definition __kfifo_dma_out_prepare (f : __kfifo) (sgl : list scatterlist) (nents len : Z) : outcome (list scatterlist * Z) :=
  let l := u32 (in_ f - out f) in
  let len := if l <? len then l else len in
  setup_sgl f sgl nents len (out f).

Definition __kfifo_dma_in_prepare_r (f : __kfifo) (sgl : list scatterlist) (nents len recsize : Z)
    : outcome (list scatterlist * Z) :=
  BUG_ON (nents =? 0)
   (let len := __kfifo_max_r len recsize in
    if kfifo_unused f <? u64 (len + recsize) then Ok (sgl, 0)
    else setup_sgl f sgl nents len (u32 (in_ f + recsize))).

Definition __kfifo_dma_out_prepare_r (f : __kfifo) (sgl : list scatterlist) (nents len recsize : Z)
    : outcome (list scatterlist * Z) :=
  BUG_ON (nents =? 0)
   (let len := __kfifo_max_r len recsize in
    if u32 (in_ f - out f) <? u64 (len + recsize) then Ok (sgl, 0)
    else setup_sgl f sgl nents len (u32 (out f + recsize))).

End Dma.

Definition __kfifo_dma_in_finish_r (f : __kfifo) (len recsize : Z) : outcome __kfifo :=
  let len := __kfifo_max_r len recsize in
  let* f := __kfifo_poke_n f len recsize in
  Ok (set_in f (u32 (in_ f + u64 (len + recsize)))).

Definition __kfifo_dma_out_finish_r (f : __kfifo) (recsize : Z) : outcome __kfifo :=
  let* len := __kfifo_peek_n f recsize in
  Ok (set_out f (u32 (out f + u64 (len + recsize)))).

(** ** The macros of the header

    [recsize] is the size of the length field, zero for a fifo of elements; the
    element type has [esize] bytes. *)

Definition kfifo_size (f : __kfifo) : Z := u32 (mask f + 1).
Definition kfifo_len (f : __kfifo) : Z := u32 (in_ f - out f).
Definition kfifo_is_empty (f : __kfifo) : bool := in_ f =? out f.
Definition kfifo_is_full (f : __kfifo) : bool := mask f <? kfifo_len f.
Definition kfifo_reset (f : __kfifo) : __kfifo := set_in (set_out f 0) 0.
Definition kfifo_reset_out (f : __kfifo) : __kfifo := set_out f (in_ f).

Definition kfifo_avail (f : __kfifo) (recsize : Z) : Z :=
  let avail := u32 (kfifo_size f - kfifo_len f) in
  if negb (recsize =? 0) then if avail <=? recsize then 0 else __kfifo_max_r (u32 (avail - recsize)) recsize
  else avail.

Definition kfifo_skip (f : __kfifo) (recsize : Z) : outcome __kfifo :=
  if negb (recsize =? 0) then __kfifo_skip_r f recsize else Ok (set_out f (u32 (out f + 1))).

Definition kfifo_peek_len (f : __kfifo) (recsize : Z) : outcome Z :=
  if recsize =? 0 then Ok (u32 (kfifo_len f * esize f)) else __kfifo_len_r f recsize.

(** Access to the element at an index, for an element type of [esize] bytes. *)
Definition put_element (f : __kfifo) (idx : Z) (val : list Z) : outcome __kfifo :=
  let* d := memcpy (data f) (Z.land idx (mask f) * esize f) val 0 (esize f) in
  Ok (set_data f d).

Definition get_element (f : __kfifo) (idx : Z) (val : list Z) : outcome (list Z) :=
  memcpy val 0 (data f) (Z.land idx (mask f) * esize f) (esize f).

Definition kfifo_put (f : __kfifo) (val : list Z) (recsize : Z) : outcome (Z * __kfifo) :=
  if negb (recsize =? 0) then __kfifo_in_r f val (Z.of_nat (length val)) recsize
  else if kfifo_is_full f then Ok (0, f)
  else
    let* f := put_element f (in_ f) val in
    Ok (1, set_in f (u32 (in_ f + 1))).

Definition kfifo_get (f : __kfifo) (val : list Z) (recsize : Z) : outcome (Z * list Z * __kfifo) :=
  if negb (recsize =? 0) then __kfifo_out_r f val (Z.of_nat (length val)) recsize
  else if kfifo_is_empty f then Ok (0, val, f)
  else
    let* val := get_element f (out f) val in
    Ok (1, val, set_out f (u32 (out f + 1))).

Definition kfifo_peek (f : __kfifo) (val : list Z) (recsize : Z) : outcome (Z * list Z) :=
  if negb (recsize =? 0) then __kfifo_out_peek_r f val (Z.of_nat (length val)) recsize
  else if kfifo_is_empty f then Ok (0, val)
  else
    let* val := get_element f (out f) val in
    Ok (1, val).

Definition kfifo_in (f : __kfifo) (buf : list Z) (n recsize : Z) : outcome (Z * __kfifo) :=
  if negb (recsize =? 0) then __kfifo_in_r f buf (u32 n) recsize else __kfifo_in f buf (u32 n).

Definition kfifo_out (f : __kfifo) (buf : list Z) (n recsize : Z) : outcome (Z * list Z * __kfifo) :=
  if negb (recsize =? 0) then __kfifo_out_r f buf (u32 n) recsize else __kfifo_out f buf (u32 n).

Definition kfifo_out_peek (f : __kfifo) (buf : list Z) (n recsize : Z) : outcome (Z * list Z) :=
  if negb (recsize =? 0) then __kfifo_out_peek_r f buf (u32 n) recsize else __kfifo_out_peek f buf (u32 n).
