(* ===== verification/KfifoFacts.v ===== *)
(** * KfifoFacts: the kfifo as a bounded queue of bytes

    The invariant of an initialised fifo, the bytes it holds, and the effect of
    the copy routines on them. *)

From S2P Require Import Prelude Bits Kfifo.

(** ** Geometry *)

(** [k] is the logarithm of the number of elements. The byte size fits the
    32-bit arithmetic of the copy routines and the allocated buffer. *)
Definition shaped (k : Z) (f : __kfifo) : Prop :=
  1 <= k <= 31 /\ mask f = 2 ^ k - 1 /\ 1 <= esize f /\ 2 ^ k * esize f < 2 ^ 32 /\
  2 ^ k * esize f <= Z.of_nat (length (data f)).

Definition wf (k : Z) (f : __kfifo) : Prop :=
  shaped k f /\ 0 <= in_ f < 2 ^ 32 /\ 0 <= out f < 2 ^ 32 /\ kfifo_len f <= 2 ^ k.

(** The position in the buffer of byte [i] after element index [idx]. *)
Definition pos (k : Z) (f : __kfifo) (idx i : Z) : Z := (idx * esize f + i) mod (2 ^ k * esize f).

(** The [n] bytes of the ring from element index [idx] on. *)
Definition ring (k : Z) (f : __kfifo) (idx : Z) (n : Z) : list Z :=
  map (fun i => data f !!! Z.to_nat (pos k f idx (Z.of_nat i))) (seq 0 (Z.to_nat n)).

(** What the fifo holds, oldest byte first. *)
Definition contents (k : Z) (f : __kfifo) : list Z := ring k f (out f) (kfifo_len f * esize f).

Lemma shaped_data k f d : length d = length (data f) -> shaped k f -> shaped k (set_data f d).
Proof. unfold shaped. simpl. by intros ->. Qed.

Lemma shaped_in k f x : shaped k (set_in f x) <-> shaped k f.
Proof. done. Qed.

Lemma shaped_out k f x : shaped k (set_out f x) <-> shaped k f.
Proof. done. Qed.

Section Shape.
Context (k : Z) (f : __kfifo).
Hypothesis Hs : shaped k f.

Lemma size_pos : 2 <= 2 ^ k <= 2 ^ 31.
Proof.
  destruct Hs as (Hk&_). pose proof (Z.pow_le_mono_r 2 1 k ltac:(lia) ltac:(lia)).
  pose proof (Z.pow_le_mono_r 2 k 31 ltac:(lia) ltac:(lia)). lia.
Qed.

Lemma cap_pos : 0 < 2 ^ k * esize f.
Proof. pose proof size_pos. destruct Hs as (_&_&?&_). nia. Qed.

Lemma pos_range idx i : 0 <= pos k f idx i < 2 ^ k * esize f.
Proof. apply Z.mod_pos_bound, cap_pos. Qed.

Lemma size_u32 : u32 (mask f + 1) = 2 ^ k.
Proof. pose proof size_pos. destruct Hs as (_&->&_). replace (2 ^ k - 1 + 1) with (2 ^ k) by lia. apply wrap_small. lia. Qed.

Lemma mask_land x : Z.land x (mask f) = x mod 2 ^ k.
Proof.
  destruct Hs as (?&->&_). replace (2 ^ k - 1) with (Z.ones k) by (rewrite Z.ones_equiv; lia).
  apply Z.land_ones. lia.
Qed.

Lemma pow_split : 2 ^ 32 = 2 ^ k * 2 ^ (32 - k).
Proof. destruct Hs as (?&_). rewrite <- Z.pow_add_r by lia. f_equal. lia. Qed.

(** The counters may wrap: positions only depend on the index modulo the size. *)
Lemma pos_u32 idx i : pos k f (u32 idx) i = pos k f idx i.
Proof.
  unfold pos. pose proof (Z.div_mod idx (2 ^ 32) ltac:(lia)) as Hd. fold (u32 idx) in Hd.
  rewrite Hd at 2. rewrite pow_split.
  replace ((2 ^ k * 2 ^ (32 - k) * (idx / (2 ^ k * 2 ^ (32 - k))) + u32 idx) * esize f + i)
    with (u32 idx * esize f + i + (2 ^ (32 - k) * (idx / (2 ^ k * 2 ^ (32 - k)))) * (2 ^ k * esize f)) by lia.
  symmetry. apply Z.mod_add. pose proof cap_pos. lia.
Qed.

Lemma pos_add idx e i : pos k f (idx + e) i = pos k f idx (e * esize f + i).
Proof. unfold pos. f_equal. lia. Qed.

Lemma pos_inj idx i j : 0 <= i -> 0 <= j -> Z.abs (i - j) < 2 ^ k * esize f -> pos k f idx i = pos k f idx j -> i = j.
Proof.
  unfold pos. intros Hi Hj Hd He. pose proof cap_pos as Hc. remember (2 ^ k * esize f) as c.
  pose proof (Z.div_mod (idx * esize f + i) c ltac:(lia)) as H1. pose proof (Z.div_mod (idx * esize f + j) c ltac:(lia)) as H2.
  rewrite He in H1. generalize dependent ((idx * esize f + j) mod c). generalize dependent ((idx * esize f + i) / c).
  intros q1 r _ H1. generalize dependent ((idx * esize f + j) / c). intros q2 H2.
  clear Heqc Hs. assert (Hq : i - j = c * (q1 - q2)) by (rewrite Z.mul_sub_distr_l; lia). clear H1 H2.
  destruct (Z.lt_trichotomy q1 q2) as [?|[->|?]]; [assert (c * (q1 - q2) <= c * -1) by (apply Z.mul_le_mono_nonneg_l; lia); lia|lia|].
  assert (c * 1 <= c * (q1 - q2)) by (apply Z.mul_le_mono_nonneg_l; lia). lia.
Qed.

(** The byte offset of an element, before any wrap. *)
Lemma pos_offset idx i : 0 <= i ->
  let o := (idx mod 2 ^ k) * esize f in
  i < 2 * (2 ^ k * esize f) - o ->
  0 <= o < 2 ^ k * esize f /\
  pos k f idx i = if o + i <? 2 ^ k * esize f then o + i else o + i - 2 ^ k * esize f.
Proof.
  intros Hi o Hlt. pose proof size_pos as Hk. pose proof cap_pos as Hc. destruct Hs as (_&_&He&_).
  pose proof (Z.mod_pos_bound idx (2 ^ k) ltac:(lia)) as Hm.
  assert (Ho : 0 <= o < 2 ^ k * esize f) by (unfold o; nia). split; [done|].
  assert (Hp : pos k f idx i = (o + i) mod (2 ^ k * esize f)).
  { unfold pos. rewrite <- Zplus_mod_idemp_l. rewrite Z.mul_mod_distr_r by lia.
    unfold o. done. }
  rewrite Hp. destruct (o + i <? 2 ^ k * esize f) eqn:E.
  - apply Z.mod_small. lia.
  - symmetry. apply (Z.mod_unique_pos _ _ 1); lia.
Qed.

(** ** The copy routines *)

Lemma split_copy_eq len off : 0 <= len <= 2 ^ k ->
  let o := (off mod 2 ^ k) * esize f in
  split_copy f len off = (o, len * esize f, Z.min (len * esize f) (2 ^ k * esize f - o)).
Proof.
  intros Hl o. pose proof size_pos as Hk. pose proof cap_pos as Hc.
  pose proof (pos_offset off 0 ltac:(lia)) as Ho. fold o in Ho.
  assert (Hb : 0 <= o < 2 ^ k * esize f).
  { pose proof (Z.mod_pos_bound off (2 ^ k) ltac:(lia)). destruct Hs as (_&_&He&_). unfold o. nia. }
  unfold split_copy. rewrite size_u32, mask_land. destruct Hs as (_&_&He&Hcap&_).
  assert (Hlen : 0 <= len * esize f < 2 ^ 32) by nia.
  destruct (esize f =? 1) eqn:E.
  - assert (esize f = 1) as E1 by lia. unfold o in *. rewrite E1 in *. rewrite !Z.mul_1_r in *.
    rewrite (u32_small (2 ^ k - off mod 2 ^ k)) by (unfold UINT_MAX; lia). done.
  - rewrite (u32_small (off mod 2 ^ k * esize f)) by (fold o; unfold UINT_MAX; lia). fold o.
    rewrite (u32_small (2 ^ k * esize f)), (u32_small (len * esize f)), u32_small by (unfold UINT_MAX; lia). done.
Qed.

(** [d'] is [d] with the first [n] bytes of [src] laid down from element [off]
    on, and with no other change but in the [w] bytes from there. *)
Definition written (off n w : Z) (src d d' : list Z) : Prop :=
  length d' = length d /\
  (forall i, 0 <= i < n -> d' !! Z.to_nat (pos k f off i) = src !! Z.to_nat i) /\
  (forall p, 0 <= p -> (forall i, 0 <= i < w -> p <> pos k f off i) -> d' !! Z.to_nat p = d !! Z.to_nat p).

Definition laid (off n : Z) (src d d' : list Z) : Prop := written off n n src d d'.

Lemma two_copies off n src d : 0 <= n <= 2 ^ k * esize f -> n <= Z.of_nat (length src) -> length d = length (data f) ->
  let o := (off mod 2 ^ k) * esize f in
  let l := Z.min n (2 ^ k * esize f - o) in
  exists d1 d2, memcpy d o src 0 l = Ok d1 /\ memcpy d1 0 src l (u32 (n - l)) = Ok d2 /\ laid off n src d d2.
Proof.
  intros Hn Hsrc Hd o l. pose proof cap_pos as Hc.
  assert (Hcap : 2 ^ k * esize f <= Z.of_nat (length d)) by (rewrite Hd; apply Hs).
  assert (Hc32 : 2 ^ k * esize f < 2 ^ 32) by apply Hs.
  assert (Hpos : forall i, 0 <= i < n -> 0 <= o < 2 ^ k * esize f /\
    pos k f off i = if o + i <? 2 ^ k * esize f then o + i else o + i - 2 ^ k * esize f).
  { intros i Hi. apply pos_offset; [lia|]. fold o. pose proof size_pos.
    pose proof (Z.mod_pos_bound off (2 ^ k) ltac:(lia)). destruct Hs as (_&_&He&_). assert (o < 2 ^ k * esize f) by (unfold o; nia). lia. }
  assert (Ho : 0 <= o < 2 ^ k * esize f).
  { pose proof size_pos. pose proof (Z.mod_pos_bound off (2 ^ k) ltac:(lia)). destruct Hs as (_&_&He&_). unfold o. nia. }
  rewrite (u32_small (n - l)) by (unfold UINT_MAX; lia).
  destruct (memcpy_spec d o src 0 l) as (d1&H1&L1&B1); [lia..|].
  destruct (memcpy_spec d1 0 src l (n - l)) as (d2&H2&L2&B2); [lia..|].
  exists d1, d2. split_and!; [done..|]. split_and!; [lia| |].
  - intros i Hi. destruct (Hpos i Hi) as [_ ->]. rewrite B2, B1 by (case_if; lia).
    destruct (o + i <? 2 ^ k * esize f) eqn:E.
    + replace ((0 <=? o + i) && (o + i <? 0 + (n - l))) with false by lia.
      replace ((o <=? o + i) && (o + i <? o + l)) with true by lia. f_equal. lia.
    + replace (_ && (_ <? 0 + (n - l))) with true by lia. f_equal. lia.
  - intros p Hp Hne. rewrite B2, B1 by lia.
    destruct ((0 <=? p) && (p <? 0 + (n - l))) eqn:E2.
    + exfalso. apply (Hne (p + l)); [lia|]. destruct (Hpos (p + l)) as [_ ->]; [lia|]. case_if; lia.
    + destruct ((o <=? p) && (p <? o + l)) eqn:E1; [|done].
      exfalso. apply (Hne (p - o)); [lia|]. destruct (Hpos (p - o)) as [_ ->]; [lia|]. case_if; lia.
Qed.

Lemma copy_in_spec src len off : 0 <= len <= 2 ^ k -> len * esize f <= Z.of_nat (length src) ->
  exists d, kfifo_copy_in f src len off = Ok (set_data f d) /\ laid off (len * esize f) src (data f) d.
Proof.
  intros Hl Hsrc. assert (0 <= len * esize f <= 2 ^ k * esize f) by (destruct Hs as (_&_&?&_); nia).
  destruct (two_copies off (len * esize f) src (data f)) as (d1&d2&H1&H2&Hlaid); [done..|].
  exists d2. split; [|done]. unfold kfifo_copy_in. rewrite split_copy_eq by done.
  rewrite H1. cbn [obind]. by rewrite H2.
Qed.

Lemma length_ring idx n : length (ring k f idx n) = Z.to_nat n.
Proof. unfold ring. by rewrite length_map, length_seq. Qed.

Lemma ring_lookup idx n i : 0 <= i < n -> ring k f idx n !! Z.to_nat i = data f !! Z.to_nat (pos k f idx i).
Proof.
  intros Hi. unfold ring. rewrite list_lookup_fmap, lookup_seq_lt by lia. simpl.
  rewrite Z2Nat.id by lia. pose proof (pos_range idx i) as Hp.
  symmetry. apply list_lookup_lookup_total_lt. assert (2 ^ k * esize f <= Z.of_nat (length (data f))) by apply Hs. lia.
Qed.

Lemma ring_app idx n m : 0 <= n -> 0 <= m -> ring k f idx (n * esize f + m) = ring k f idx (n * esize f) ++ ring k f (idx + n) m.
Proof.
  intros Hn Hm. destruct Hs as (_&_&He&_). unfold ring.
  rewrite Z2Nat.inj_add, seq_app, map_app by nia. f_equal. simpl. rewrite <- (Nat.add_0_r (Z.to_nat (n * esize f))) at 1.
  rewrite <- fmap_add_seq, <- list_fmap_compose. apply map_ext. intros i. simpl.
  do 2 f_equal. rewrite pos_add, Nat2Z.inj_add, Z2Nat.id by nia. done.
Qed.

Lemma ring_u32 idx n : ring k f (u32 idx) n = ring k f idx n.
Proof. unfold ring. apply map_ext. intros i. by rewrite pos_u32. Qed.

Lemma copy_out_spec dst len off : 0 <= len <= 2 ^ k -> len * esize f <= Z.of_nat (length dst) ->
  kfifo_copy_out f dst len off = Ok (ring k f off (len * esize f) ++ drop (Z.to_nat (len * esize f)) dst).
Proof.
  intros Hl Hdst. pose proof cap_pos as Hc. pose proof size_pos.
  assert (Hn : 0 <= len * esize f <= 2 ^ k * esize f) by (destruct Hs as (_&_&?&_); nia).
  assert (Hcap : 2 ^ k * esize f <= Z.of_nat (length (data f))) by apply Hs.
  assert (Hc32 : 2 ^ k * esize f < 2 ^ 32) by apply Hs.
  unfold kfifo_copy_out. rewrite split_copy_eq by done.
  remember (len * esize f) as n. remember (off mod 2 ^ k * esize f) as o eqn:Eo. remember (Z.min n (2 ^ k * esize f - o)) as l.
  assert (Ho : 0 <= o < 2 ^ k * esize f).
  { pose proof (Z.mod_pos_bound off (2 ^ k) ltac:(lia)). destruct Hs as (_&_&He&_). subst o. nia. }
  rewrite (u32_small (n - l)) by (unfold UINT_MAX; lia).
  destruct (memcpy_spec dst 0 (data f) o l) as (d1&H1&L1&B1); [lia..|].
  destruct (memcpy_spec d1 l (data f) 0 (n - l)) as (d2&H2&L2&B2); [lia..|].
  rewrite H1. cbn [obind]. rewrite H2. f_equal. apply list_eq. intros i.
  rewrite <- (Nat2Z.id i). remember (Z.of_nat i) as j. rewrite B2, B1 by lia.
  destruct (decide (j < n)).
  - rewrite lookup_app_l by (rewrite length_ring; lia). rewrite ring_lookup by lia.
    destruct (pos_offset off j ltac:(lia)) as [_ ->]; [rewrite <- Eo; lia|]. rewrite <- Eo.
    destruct (o + j <? 2 ^ k * esize f) eqn:E.
    + replace ((l <=? j) && (j <? l + (n - l))) with false by lia. replace ((0 <=? j) && (j <? 0 + l)) with true by lia. f_equal. lia.
    + replace ((l <=? j) && (j <? l + (n - l))) with true by lia. f_equal. lia.
  - rewrite lookup_app_r by (rewrite length_ring; lia). rewrite length_ring, lookup_drop.
    replace ((l <=? j) && (j <? l + (n - l))) with false by lia. replace ((0 <=? j) && (j <? 0 + l)) with false by lia. f_equal. lia.
Qed.

End Shape.

(** ** The queue *)

Lemma u32_sub_add a b n : 0 <= n -> u32 (a - b) + n < 2 ^ 32 -> u32 (u32 (a + n) - b) = u32 (a - b) + n.
Proof.
  intros Hn Hlt. unfold wrap in *. rewrite Zminus_mod_idemp_l. replace (a + n - b) with (a - b + n) by lia.
  rewrite <- Zplus_mod_idemp_l. pose proof (Z.mod_pos_bound (a - b) (2 ^ 32) ltac:(lia)). apply Z.mod_small. lia.
Qed.

Lemma u32_sub_sub a b n : 0 <= n <= u32 (a - b) -> u32 (a - u32 (b + n)) = u32 (a - b) - n.
Proof.
  intros Hn. unfold wrap in *. rewrite Zminus_mod_idemp_r. replace (a - (b + n)) with (a - b - n) by lia.
  rewrite <- Zminus_mod_idemp_l. pose proof (Z.mod_pos_bound (a - b) (2 ^ 32) ltac:(lia)). apply Z.mod_small. lia.
Qed.

Lemma written_app k f off n m w src1 src2 d d1 d2 : shaped k f -> 0 <= n -> 0 <= m <= w -> (n + w) * esize f <= 2 ^ k * esize f ->
  n * esize f = Z.of_nat (length src1) ->
  laid k f off (n * esize f) src1 d d1 -> written k f (u32 (off + n)) (m * esize f) (w * esize f) src2 d1 d2 ->
  written k f off ((n + m) * esize f) ((n + w) * esize f) (src1 ++ src2) d d2.
Proof.
  intros Hs Hn Hm Hle Hlen (L1&I1&O1) (L2&I2&O2). assert (He : 1 <= esize f) by apply Hs.
  rewrite Z.mul_add_distr_r in *. assert (0 <= n * esize f) by nia. assert (0 <= m * esize f <= w * esize f) by nia.
  split_and!; [lia| |].
  - intros i Hi. destruct (decide (i < n * esize f)).
    + rewrite lookup_app_l by lia. rewrite <- I1 by lia. apply O2; [apply (pos_range k f Hs)|].
      intros j Hj. rewrite (pos_u32 k f Hs), (pos_add k f). intros E. apply (pos_inj k f Hs) in E; lia.
    + rewrite lookup_app_r by lia. replace i with (n * esize f + (i - n * esize f)) at 1 by lia.
      rewrite <- (pos_add k f), <- (pos_u32 k f Hs), I2 by lia. f_equal. lia.
  - intros p Hp Hne. rewrite O2, O1; [done|done| |done|].
    + intros i Hi. apply Hne. lia.
    + intros i Hi. rewrite (pos_u32 k f Hs), (pos_add k f). apply Hne. lia.
Qed.

Lemma ring_set_in k f x : ring k (set_in f x) = ring k f.
Proof. done. Qed.

Lemma ring_set_out k f x : ring k (set_out f x) = ring k f.
Proof. done. Qed.

Section Queue.
Context (k : Z) (f : __kfifo).
Hypothesis Hwf : wf k f.

Lemma len_range : 0 <= kfifo_len f <= 2 ^ k.
Proof. destruct Hwf as (_&_&_&?). pose proof (wrap_range 32 (in_ f - out f)). unfold kfifo_len in *. lia. Qed.

Lemma unused_eq : kfifo_unused f = 2 ^ k - kfifo_len f.
Proof.
  pose proof len_range. pose proof (size_pos k f (proj1 Hwf)). unfold kfifo_unused. rewrite (size_u32 k f) by apply Hwf.
  fold (kfifo_len f). apply u32_small. unfold UINT_MAX. lia.
Qed.

Lemma empty_iff : (in_ f =? out f) = (kfifo_len f =? 0).
Proof.
  destruct Hwf as (_&Hi&Ho&_). unfold kfifo_len, wrap. apply Bool.eq_true_iff_eq. rewrite !Z.eqb_eq. split.
  - intros ->. by rewrite Z.sub_diag.
  - intros Hm. apply Z.mod_divide in Hm as [q Hq]; lia.
Qed.

Lemma length_contents : Z.of_nat (length (contents k f)) = kfifo_len f * esize f.
Proof. pose proof len_range. unfold contents. rewrite length_ring. destruct Hwf as ((_&_&?&_)&_). nia. Qed.

Lemma pos_in i : pos k f (in_ f) i = pos k f (out f) (kfifo_len f * esize f + i).
Proof.
  destruct Hwf as (Hs&Hi&_). rewrite <- pos_add, <- (pos_u32 k f Hs (out f + kfifo_len f)). f_equal.
  unfold kfifo_len, wrap. rewrite Zplus_mod_idemp_r. symmetry.
  replace (out f + (in_ f - out f)) with (in_ f) by lia. by apply Z.mod_small.
Qed.

(** Laying down [n] elements at [in] and publishing them appends them. *)
Lemma push n w src d : 0 <= n <= w -> kfifo_len f + w <= 2 ^ k -> n * esize f <= Z.of_nat (length src) ->
  written k f (in_ f) (n * esize f) (w * esize f) src (data f) d ->
  let f' := set_in (set_data f d) (u32 (in_ f + n)) in
  wf k f' /\ kfifo_len f' = kfifo_len f + n /\ contents k f' = contents k f ++ take (Z.to_nat (n * esize f)) src.
Proof.
  intros [Hn Hnw] Hle Hsrc (Ld&Hin&Hout) f'. pose proof len_range as Hl. destruct Hwf as (Hs&Hi&Ho&Hlen).
  pose proof (size_pos k f Hs). assert (He : 1 <= esize f) by apply Hs.
  assert (Hs' : shaped k f') by (by apply shaped_data).
  assert (Hlen' : kfifo_len f' = kfifo_len f + n) by (apply (u32_sub_add (in_ f) (out f)); unfold kfifo_len in *; lia).
  split; [refine (conj Hs' (conj _ (conj Ho _))); [apply wrap_range; lia|lia]|]. split; [done|].
  assert (Hc : (kfifo_len f + w) * esize f <= 2 ^ k * esize f) by nia. rewrite Z.mul_add_distr_r in Hc.
  assert (0 <= n * esize f <= w * esize f) by nia. assert (0 <= kfifo_len f * esize f) by nia.
  apply list_eq. intros j. rewrite <- (Nat2Z.id j). pose proof (Nat2Z.is_nonneg j). generalize dependent (Z.of_nat j). intros i Hj.
  pose proof length_contents as Hlc. unfold contents at 1. rewrite Hlen'. change (esize f') with (esize f). change (out f') with (out f).
  rewrite Z.mul_add_distr_r.
  destruct (decide (i < kfifo_len f * esize f)) as [Hlt|Hge]; [|destruct (decide (i < kfifo_len f * esize f + n * esize f)) as [Hlt|Hge2]].
  - rewrite lookup_app_l, (ring_lookup k f' Hs') by lia. unfold contents. rewrite (ring_lookup k f Hs) by lia.
    apply Hout; [apply (pos_range k f Hs)|]. intros i' Hi' E. rewrite pos_in in E. apply (pos_inj k f Hs) in E; lia.
  - rewrite lookup_app_r, (ring_lookup k f' Hs') by lia. rewrite lookup_take_lt by lia.
    replace i with (kfifo_len f * esize f + (i - kfifo_len f * esize f)) at 1 by lia.
    change (pos k f' (out f)) with (pos k f (out f)). rewrite <- pos_in. change (data f') with d. rewrite Hin by lia. f_equal. lia.
  - rewrite !lookup_ge_None_2; [done|rewrite length_app, length_take; lia|rewrite length_ring; lia].
Qed.

(** Advancing [out] by [n] drops the first [n] elements. *)
Lemma pop n : 0 <= n <= kfifo_len f ->
  let f' := set_out f (u32 (out f + n)) in
  wf k f' /\ kfifo_len f' = kfifo_len f - n /\ contents k f' = drop (Z.to_nat (n * esize f)) (contents k f) /\
  ring k f (out f) (n * esize f) = take (Z.to_nat (n * esize f)) (contents k f).
Proof.
  intros Hn f'. destruct Hwf as (Hs&Hi&Ho&Hlen). assert (He : 1 <= esize f) by apply Hs.
  assert (Hlen' : kfifo_len f' = kfifo_len f - n) by (apply (u32_sub_sub (in_ f) (out f)); unfold kfifo_len in *; lia).
  split; [refine (conj Hs (conj Hi (conj _ _))); [apply wrap_range; lia|lia]|]. split; [done|].
  assert (Hc : contents k f = ring k f (out f) (n * esize f) ++ contents k f').
  { unfold contents. rewrite Hlen'. change (esize f') with (esize f). change (out f') with (u32 (out f + n)).
    change (ring k f') with (ring k f). rewrite (ring_u32 k f Hs), <- (ring_app k f Hs) by nia. f_equal. lia. }
  rewrite Hc. split; [rewrite drop_app_length'|rewrite take_app_length']; rewrite ?length_ring; done.
Qed.

(** Reading at an element offset inside the contents. *)
Lemma ring_contents e n : 0 <= e -> 0 <= n -> e + n <= kfifo_len f ->
  ring k f (u32 (out f + e)) (n * esize f) = take (Z.to_nat (n * esize f)) (drop (Z.to_nat (e * esize f)) (contents k f)).
Proof.
  intros He Hn Hle. destruct (pop e) as (Hwf'&Hl'&Hc'&_); [lia|]. destruct Hwf as (Hs&_). assert (1 <= esize f) by apply Hs.
  rewrite (ring_u32 k f Hs), <- Hc'. unfold contents. rewrite Hl'. simpl. rewrite ring_set_out.
  rewrite (ring_u32 k f Hs). replace ((kfifo_len f - e) * esize f) with (n * esize f + (kfifo_len f - e - n) * esize f) by lia.
  rewrite (ring_app k f Hs) by nia. rewrite take_app_length'; [done|]. by rewrite length_ring.
Qed.

End Queue.
