(* ===== verification/KfifoOps.v ===== *)
(** * KfifoOps: what each kfifo operation does to the queue *)

From S2P Require Import Prelude Bits Kfifo KfifoFacts.

(** ** Set-up *)

Lemma fls_long_spec n : 1 <= n < 2 ^ 63 -> fls_long (u64 (n - 1)) = Z.log2_up n.
Proof.
  intros Hn. rewrite u64_small by (unfold ULLONG_MAX; lia). unfold fls_long, __fls, clz, BITS_PER_LONG.
  destruct (n - 1 =? 0) eqn:E; [by replace n with 1 by lia|].
  rewrite Z.log2_up_eqn by lia. rewrite <- Z.sub_1_r. lia.
Qed.

Lemma log2_up_32 n : 1 <= n < 2 ^ 32 -> 0 <= Z.log2_up n <= 32.
Proof.
  intros Hn. split; [apply Z.log2_up_nonneg|]. apply Z.log2_up_le_pow2; lia.
Qed.

Lemma roundup_pow_of_two_spec n : 1 <= n < 2 ^ 32 -> roundup_pow_of_two n = 2 ^ Z.log2_up n.
Proof.
  intros Hn. pose proof (log2_up_32 n Hn). unfold roundup_pow_of_two. rewrite fls_long_spec, Z.mod_small by lia.
  unfold shl. rewrite Z.shiftl_1_l. apply wrap_small. split; [lia|apply Z.pow_lt_mono_r; lia].
Qed.

(** The size computed by [__kfifo_alloc] and [__kfifo_init]: 0 if the rounding
    leaves the 32 bits. *)
Lemma size_cases n : 1 <= n < 2 ^ 32 ->
  let size := u32 (roundup_pow_of_two n) in
  (size < 2 /\ (n = 1 \/ 2 ^ 31 < n)) \/
  (exists k, 1 <= k <= 31 /\ size = 2 ^ k /\ n <= 2 ^ k < 2 * n).
Proof.
  intros Hn. simpl. rewrite roundup_pow_of_two_spec by done. pose proof (log2_up_32 n Hn) as Hk.
  destruct (decide (n = 1)) as [->|Hne]; [left; split; [done|lia]|].
  pose proof (Z.log2_up_spec n ltac:(lia)) as Hb. pose proof (Z.log2_up_pos n ltac:(lia)).
  destruct (decide (Z.log2_up n = 32)) as [E|E]; rewrite ?E in *.
  - left. split; [done|]. right. simpl in Hb. lia.
  - right. exists (Z.log2_up n). split; [lia|]. split.
    + apply wrap_small. split; [lia|apply Z.pow_lt_mono_r; lia].
    + assert (Hp : 2 ^ Z.log2_up n = 2 * 2 ^ Z.pred (Z.log2_up n)) by (rewrite <- Z.pow_succ_r by lia; f_equal; lia). lia.
Qed.

(** A fifo with equal counters is empty. *)
Lemma fresh_wf k m e d : shaped k (Kfifo 0 0 m e d) -> wf k (Kfifo 0 0 m e d) /\ contents k (Kfifo 0 0 m e d) = [].
Proof. intros Hs. pose proof (size_pos _ _ Hs). split; [|done]. repeat split; try done; try apply Hs. unfold kfifo_len. simpl. unfold wrap. simpl. lia. Qed.

Section Alloc.
Context (kmalloc : Z -> option (list Z)).
(** [kmalloc] returns a block of the size asked for, below its size limit. *)
Hypothesis kmalloc_block : forall n d, kmalloc n = Some d -> Z.of_nat (length d) = n /\ n < 2 ^ 32.

Lemma alloc_spec size esz : 1 <= size < 2 ^ 32 -> 1 <= esz < 2 ^ 32 ->
  let '(rc, f) := __kfifo_alloc kmalloc size esz in
  (rc = 0 /\ exists k, wf k f /\ esize f = esz /\ contents k f = [] /\ size <= 2 ^ k < 2 * size) \/
  (rc = - EINVAL /\ data f = [] /\ mask f = 0 /\ (size = 1 \/ 2 ^ 31 < size)) \/
  (rc = - ENOMEM /\ data f = [] /\ mask f = 0 /\ 2 <= size <= 2 ^ 31).
Proof.
  intros Hs He. unfold __kfifo_alloc. pose proof (size_cases size Hs) as Hc. simpl in Hc.
  destruct Hc as [[Hlt Hc]|(k&Hk&->&Hb)].
  - replace (_ <? 2) with true by lia. right. left. done.
  - pose proof (Z.pow_le_mono_r 2 1 k ltac:(lia) ltac:(lia)). pose proof (Z.pow_le_mono_r 2 k 31 ltac:(lia) ltac:(lia)).
    replace (2 ^ k <? 2) with false by lia. rewrite (u64_small (2 ^ k * esz)) by (unfold ULLONG_MAX; nia).
    destruct (kmalloc (2 ^ k * esz)) as [d|] eqn:E; [|right; right; split_and!; [done..|lia|lia]].
    apply kmalloc_block in E as [Hl Hlt]. left. split; [done|]. exists k.
    rewrite (u32_small (2 ^ k - 1)), (u32_small esz) by (unfold UINT_MAX; lia).
    assert (Hsh : shaped k (Kfifo 0 0 (2 ^ k - 1) esz d)) by (repeat split; simpl; lia).
    destruct (fresh_wf k _ _ _ Hsh). refine (conj _ (conj _ (conj _ _))); done.
Qed.

End Alloc.

(** On a buffer of a power of two of elements, [__kfifo_init] succeeds. *)
Lemma init_spec buffer size esz k : 1 <= k <= 31 -> 1 <= esz -> size = 2 ^ k * esz -> size < 2 ^ 32 ->
  Z.of_nat (length buffer) = size ->
  exists f, __kfifo_init buffer size esz = Ok (0, f) /\ wf k f /\ esize f = esz /\ contents k f = [].
Proof.
  intros Hk He -> Hlt Hb. pose proof (Z.pow_le_mono_r 2 1 k ltac:(lia) ltac:(lia)).
  pose proof (Z.pow_le_mono_r 2 k 31 ltac:(lia) ltac:(lia)).
  unfold __kfifo_init. replace (esz =? 0) with false by lia. rewrite Z.div_mul by lia.
  rewrite roundup_pow_of_two_spec, Z.log2_up_pow2 by lia. rewrite (u32_small (2 ^ k)) by (unfold UINT_MAX; lia).
  replace (2 ^ k <? 2) with false by lia. rewrite (u32_small (2 ^ k - 1)), (u32_small esz) by (unfold UINT_MAX; nia).
  eexists. split; [done|]. assert (Hsh : shaped k (Kfifo 0 0 (2 ^ k - 1) esz buffer)) by (repeat split; simpl; lia).
  destruct (fresh_wf k _ _ _ Hsh). refine (conj _ (conj _ _)); done.
Qed.

(** ** Elements *)

(** The fifo is sound, has elements of [e] bytes, and its queue is [q]. *)
Definition queue (k : Z) (f : __kfifo) (e : Z) (q : list Z) : Prop :=
  wf k f /\ esize f = e /\ contents k f = q.

Lemma queue_len k f e q : queue k f e q -> Z.of_nat (length q) = kfifo_len f * e /\ 0 <= kfifo_len f <= 2 ^ k /\ 1 <= e.
Proof. intros (Hwf&<-&<-). rewrite (length_contents k f Hwf). split; [done|]. split; [apply len_range, Hwf|apply Hwf]. Qed.

Lemma queue_count k f e q : queue k f e q -> kfifo_len f = Z.of_nat (length q) / e.
Proof. intros H. destruct (queue_len k f e q H) as (->&_&?). by rewrite Z.div_mul by lia. Qed.

Section Ops.
Context (k : Z) (f : __kfifo) (e : Z) (q : list Z).
Hypothesis Hq : queue k f e q.

Lemma push_window n w src d : 0 <= n <= w -> kfifo_len f + w <= 2 ^ k -> n * e <= Z.of_nat (length src) ->
  written k f (in_ f) (n * e) (w * e) src (data f) d ->
  queue k (set_in (set_data f d) (u32 (in_ f + n))) e (q ++ take (Z.to_nat (n * e)) src).
Proof. destruct Hq as (Hwf&<-&<-). intros. destruct (push k f Hwf n w src d) as (?&_&?); done. Qed.

Lemma push_queue n src d : 0 <= n -> kfifo_len f + n <= 2 ^ k -> n * e <= Z.of_nat (length src) ->
  laid k f (in_ f) (n * e) src (data f) d ->
  queue k (set_in (set_data f d) (u32 (in_ f + n))) e (q ++ take (Z.to_nat (n * e)) src).
Proof. intros. apply (push_window n n); [lia|done..]. Qed.

Lemma pop_queue n : 0 <= n <= kfifo_len f ->
  queue k (set_out f (u32 (out f + n))) e (drop (Z.to_nat (n * e)) q) /\
  ring k f (out f) (n * e) = take (Z.to_nat (n * e)) q.
Proof. destruct Hq as (Hwf&<-&<-). intros. destruct (pop k f Hwf n) as (?&_&?&?); done. Qed.

Lemma in_spec buf len : 0 <= len ->
  let n := Z.min len (2 ^ k - kfifo_len f) in
  n * e <= Z.of_nat (length buf) ->
  exists f', __kfifo_in f buf len = Ok (n, f') /\ queue k f' e (q ++ take (Z.to_nat (n * e)) buf).
Proof.
  intros Hl n Hb. destruct (queue_len _ _ _ _ Hq) as (_&Hlen&He). pose proof Hq as (Hwf&Ee&_).
  unfold __kfifo_in. rewrite (unused_eq k f Hwf). replace (if _ <? len then _ else len) with n by (unfold n; case_if; lia).
  destruct (copy_in_spec k f (proj1 Hwf) buf n (in_ f)) as (d&->&Hlaid); [lia|by rewrite Ee|]. cbn [obind].
  eexists. split; [done|]. rewrite Ee in Hlaid. apply push_queue; [lia..|done].
Qed.

Lemma out_peek_spec dst len : 0 <= len ->
  let n := Z.min len (kfifo_len f) in
  n * e <= Z.of_nat (length dst) ->
  __kfifo_out_peek f dst len = Ok (n, take (Z.to_nat (n * e)) q ++ drop (Z.to_nat (n * e)) dst).
Proof.
  intros Hl n Hb. destruct (queue_len _ _ _ _ Hq) as (_&Hlen&He). pose proof Hq as (Hwf&Ee&_).
  unfold __kfifo_out_peek. fold (kfifo_len f). replace (if _ <? len then _ else len) with n by (unfold n; case_if; lia).
  rewrite (copy_out_spec k f (proj1 Hwf)) by (rewrite ?Ee; lia). cbn [obind]. rewrite Ee.
  by destruct (pop_queue n) as [_ ->]; [lia|].
Qed.

Lemma out_spec dst len : 0 <= len ->
  let n := Z.min len (kfifo_len f) in
  n * e <= Z.of_nat (length dst) ->
  exists f', __kfifo_out f dst len = Ok (n, take (Z.to_nat (n * e)) q ++ drop (Z.to_nat (n * e)) dst, f') /\
    queue k f' e (drop (Z.to_nat (n * e)) q).
Proof.
  intros Hl n Hb. destruct (queue_len _ _ _ _ Hq) as (_&Hlen&He). unfold __kfifo_out.
  rewrite out_peek_spec by done. cbn [obind]. eexists. split; [done|]. apply pop_queue. lia.
Qed.

(** An element access is a copy of one element. *)
Lemma put_element_eq val : Z.of_nat (length val) = e -> put_element f (in_ f) val = kfifo_copy_in f val 1 (in_ f).
Proof.
  intros Hv. pose proof Hq as (Hwf&Ee&_). unfold put_element, kfifo_copy_in.
  pose proof (size_pos k f (proj1 Hwf)) as Hk. assert (He : 1 <= esize f) by apply Hwf.
  rewrite (split_copy_eq k f (proj1 Hwf)) by lia. rewrite (mask_land k f (proj1 Hwf)), Z.mul_1_l.
  pose proof (Z.mod_pos_bound (in_ f) (2 ^ k) ltac:(lia)) as Hm.
  assert (Hmin : Z.min (esize f) (2 ^ k * esize f - in_ f mod 2 ^ k * esize f) = esize f) by nia. rewrite Hmin.
  destruct (memcpy _ _ _ _ _); [|done..]. cbn [obind]. by rewrite Z.sub_diag.
Qed.

Lemma get_element_eq val : Z.of_nat (length val) = e -> get_element f (out f) val = kfifo_copy_out f val 1 (out f).
Proof.
  intros Hv. pose proof Hq as (Hwf&Ee&_). unfold get_element, kfifo_copy_out.
  pose proof (size_pos k f (proj1 Hwf)) as Hk. assert (He : 1 <= esize f) by apply Hwf.
  rewrite (split_copy_eq k f (proj1 Hwf)) by lia. rewrite (mask_land k f (proj1 Hwf)), Z.mul_1_l.
  pose proof (Z.mod_pos_bound (out f) (2 ^ k) ltac:(lia)) as Hm.
  assert (Hmin : Z.min (esize f) (2 ^ k * esize f - out f mod 2 ^ k * esize f) = esize f) by nia. rewrite Hmin.
  destruct (memcpy _ _ _ _ _); [|done..]. cbn [obind]. by rewrite Z.sub_diag.
Qed.

Lemma full_iff : kfifo_is_full f = (kfifo_len f =? 2 ^ k).
Proof.
  destruct (queue_len _ _ _ _ Hq) as (_&Hlen&_). destruct Hq as (((_&Hm&_)&_)&_). unfold kfifo_is_full. rewrite Hm. lia.
Qed.

Lemma put_spec val : Z.of_nat (length val) = e ->
  exists f', kfifo_put f val 0 = Ok (if kfifo_len f =? 2 ^ k then 0 else 1, f') /\
    queue k f' e (if kfifo_len f =? 2 ^ k then q else q ++ val).
Proof.
  intros Hv. destruct (queue_len _ _ _ _ Hq) as (_&Hlen&He). pose proof Hq as (Hwf&Ee&_).
  unfold kfifo_put. simpl. rewrite full_iff. case_if; [by exists f|]. rewrite put_element_eq by done.
  destruct (copy_in_spec k f (proj1 Hwf) val 1 (in_ f)) as (d&->&Hlaid); [lia|lia|]. cbn [obind].
  eexists. split; [done|]. rewrite Ee in Hlaid. apply (push_queue 1) in Hlaid; [|lia..].
  by rewrite (take_ge val) in Hlaid by lia.
Qed.

Lemma peek_spec val : Z.of_nat (length val) = e ->
  kfifo_peek f val 0 = Ok (if kfifo_len f =? 0 then (0, val) else (1, take (Z.to_nat e) q)).
Proof.
  intros Hv. destruct (queue_len _ _ _ _ Hq) as (_&Hlen&He). pose proof Hq as (Hwf&Ee&_). pose proof (size_pos k f (proj1 Hwf)).
  unfold kfifo_peek, kfifo_is_empty. simpl. rewrite (empty_iff k f Hwf). case_if; [done|]. rewrite get_element_eq by done.
  rewrite (copy_out_spec k f (proj1 Hwf)) by (rewrite ?Ee; lia). cbn [obind]. rewrite Ee.
  destruct (pop_queue 1) as [_ ->]; [lia|]. rewrite Z.mul_1_l, (drop_ge val), app_nil_r by lia. done.
Qed.

Lemma get_spec val : Z.of_nat (length val) = e ->
  exists f', kfifo_get f val 0 = Ok (if kfifo_len f =? 0 then 0 else 1, if kfifo_len f =? 0 then val else take (Z.to_nat e) q, f') /\
    queue k f' e (if kfifo_len f =? 0 then q else drop (Z.to_nat e) q).
Proof.
  intros Hv. destruct (queue_len _ _ _ _ Hq) as (_&Hlen&He). pose proof (peek_spec val Hv) as Hp. revert Hp.
  unfold kfifo_get, kfifo_peek, kfifo_is_empty. simpl. rewrite (empty_iff k f) by apply Hq. case_if; [by exists f|].
  intros Hp. apply obind_Ok in Hp as (v&->&[= ->]). cbn [obind]. eexists. split; [done|].
  destruct (pop_queue 1) as [Hd _]; [lia|]. by rewrite Z.mul_1_l in Hd.
Qed.

Lemma skip_spec : 0 < kfifo_len f -> exists f', kfifo_skip f 0 = Ok f' /\ queue k f' e (drop (Z.to_nat e) q).
Proof.
  intros Hl. unfold kfifo_skip. simpl. eexists. split; [done|]. destruct (pop_queue 1) as [Hd _]; [lia|]. by rewrite Z.mul_1_l in Hd.
Qed.

Lemma reset_spec : queue k (kfifo_reset f) e [].
Proof.
  destruct Hq as ((Hs&_)&Ee&_). destruct f as [i o m e' d]. simpl in Ee. subst e'. unfold kfifo_reset, set_in, set_out. simpl.
  destruct (fresh_wf k m e d Hs). refine (conj _ (conj _ _)); done.
Qed.

Lemma reset_out_spec : queue k (kfifo_reset_out f) e [].
Proof.
  destruct Hq as ((Hs&Hi&_&Hl)&Ee&_). pose proof (size_pos k f Hs).
  assert (Hz : kfifo_len (kfifo_reset_out f) = 0) by (unfold kfifo_len; simpl; by rewrite Z.sub_diag).
  refine (conj (conj Hs (conj Hi (conj Hi _))) (conj _ _)); [lia|done|]. unfold contents. by rewrite Hz.
Qed.

End Ops.
