(* ===== verification/KfifoRecords.v ===== *)
(** * KfifoRecords: the fifo of records

    A record is stored as its length, in [recsize] bytes, low byte first, and
    then its bytes. *)

From S2P Require Import Prelude Bits Kfifo KfifoFacts KfifoOps.

(** The length field and the stored form of a record. *)
Definition header (r n : Z) : list Z := if r =? 1 then [u8 n] else [u8 n; u8 (Z.shiftr n 8)].
Definition frame (r : Z) (rec : list Z) : list Z := header r (Z.of_nat (length rec)) ++ rec.

(** The fifo holds the records [recs], oldest first. *)
Definition records (k r : Z) (f : __kfifo) (recs : list (list Z)) : Prop :=
  queue k f 1 (concat (map (frame r) recs)) /\ Forall (fun rec => Z.of_nat (length rec) < 2 ^ (8 * r)) recs.

Lemma header_length r n : r = 1 \/ r = 2 -> Z.of_nat (length (header r n)) = r.
Proof. by intros [-> | ->]. Qed.

Lemma header_value n : 0 <= n < 2 ^ 16 -> Z.lor (u8 n) (Z.shiftl (u8 (Z.shiftr n 8)) 8) = n.
Proof.
  intros Hn. apply Z.bits_inj'. intros i Hi. rewrite Z.lor_spec, Z.shiftl_spec by done. unfold wrap.
  destruct (decide (i < 8)).
  - rewrite Z.mod_pow2_bits_low by lia. rewrite (Z.testbit_neg_r _ (i - 8)) by lia. apply orb_false_r.
  - rewrite Z.mod_pow2_bits_high by lia. simpl. destruct (decide (i < 16)).
    + rewrite Z.mod_pow2_bits_low by lia. rewrite Z.shiftr_spec by lia. f_equal. lia.
    + rewrite Z.mod_pow2_bits_high by lia. symmetry. rewrite <- (Z.mod_small n (2 ^ 16)) by done.
      apply Z.mod_pow2_bits_high. lia.
Qed.

Section Bytes.
Context (k r : Z) (f : __kfifo) (q : list Z).
Hypothesis Hq : queue k f 1 q.
Hypothesis Hr : r = 1 \/ r = 2.

Lemma byte_len : Z.of_nat (length q) = kfifo_len f.
Proof. destruct (queue_len _ _ _ _ Hq) as (->&_). lia. Qed.

Lemma read_at i : 0 <= i < kfifo_len f ->
  exists b, rd (data f) (Z.land (u32 (out f + i)) (mask f)) = Ok b /\ q !! Z.to_nat i = Some b.
Proof.
  intros Hi. pose proof Hq as (Hwf&Ee&Hc). assert (Hs : shaped k f) by apply Hwf.
  pose proof (size_pos k f Hs). destruct (queue_len _ _ _ _ Hq) as (_&?&_).
  assert (Hp : Z.land (u32 (out f + i)) (mask f) = pos k f (out f) i).
  { transitivity (pos k f (u32 (out f + i)) 0).
    - rewrite (mask_land k f Hs). unfold pos. rewrite Ee. f_equal; lia.
    - rewrite (pos_u32 k f Hs), pos_add, Ee. f_equal. lia. }
  rewrite Hp. pose proof (pos_range k f Hs (out f) i). destruct (rd_Ok (data f) (pos k f (out f) i)) as (b&->&Hb).
  { assert (2 ^ k * esize f <= Z.of_nat (length (data f))) by apply Hs. lia. }
  exists b. split; [done|]. rewrite <- Hc. unfold contents. by rewrite (ring_lookup k f Hs) by (rewrite Ee; lia).
Qed.

Lemma peek_n_spec n rest : q = header r n ++ rest -> 0 <= n < 2 ^ (8 * r) -> __kfifo_peek_n f r = Ok n.
Proof.
  intros Eq Hn. pose proof byte_len as Hl. pose proof Hq as (Hwf&_).
  assert (Hb : length q = (length (header r n) + length rest)%nat) by (rewrite Eq; apply length_app).
  pose proof (header_length r n Hr) as Hh.
  destruct (read_at 0) as (b0&Hr0&Hb0); [lia|]. rewrite Z.add_0_r, u32_small in Hr0 by (destruct Hwf as (_&_&?&_); unfold UINT_MAX; lia).
  unfold __kfifo_peek_n. rewrite Hr0. cbn [obind]. rewrite Eq in Hb0. unfold header in *. destruct Hr as [-> | ->]; simpl in Hb0, Hn |- *.
  - injection Hb0 as <-. f_equal. apply wrap_small. lia.
  - destruct (read_at 1) as (b1&->&Hb1); [simpl in *; lia|]. rewrite Eq in Hb1. simpl in Hb1. injection Hb0 as <-. injection Hb1 as <-. cbn [obind]. f_equal.
    by apply header_value.
Qed.

End Bytes.

(** One byte stored at an index. *)
Lemma wr_laid k f d x v : shaped k f -> esize f = 1 -> length d = length (data f) ->
  exists d', wr d (Z.land x (mask f)) v = Ok d' /\ laid k f x (1 * esize f) [v] d d'.
Proof.
  intros Hs Ee Hd. rewrite (mask_land k f Hs). pose proof (size_pos k f Hs). pose proof (Z.mod_pos_bound x (2 ^ k) ltac:(lia)) as Hm.
  assert (Hcap : 2 ^ k <= Z.of_nat (length d)) by (destruct Hs as (_&_&_&_&Hc); rewrite Ee in Hc; lia).
  assert (Hp : pos k f x 0 = x mod 2 ^ k) by (unfold pos; rewrite Ee; f_equal; lia).
  eexists. split; [apply wr_Ok; lia|]. rewrite Ee. split_and!; [apply length_insert| |].
  - intros i Hi. replace i with 0 by lia. rewrite Hp. simpl. apply list_lookup_insert_eq. lia.
  - intros p Hpp Hne. apply list_lookup_insert_ne. specialize (Hne 0 ltac:(lia)). lia.
Qed.

Lemma poke_n_spec k r f n : shaped k f -> esize f = 1 -> r = 1 \/ r = 2 ->
  exists d, __kfifo_poke_n f n r = Ok (set_data f d) /\ laid k f (in_ f) (r * esize f) (header r n) (data f) d.
Proof.
  intros Hs Ee Hr. pose proof (size_pos k f Hs). unfold __kfifo_poke_n, header.
  destruct (wr_laid k f (data f) (in_ f) (u8 n) Hs Ee eq_refl) as (d1&->&Hl1). cbn [obind].
  destruct Hr as [-> | ->]; simpl; [eauto|].
  destruct (wr_laid k f d1 (u32 (in_ f + 1)) (u8 (Z.shiftr n 8)) Hs Ee) as (d2&->&Hl2); [apply Hl1|]. cbn [obind].
  eexists. split; [done|]. replace 2 with (1 + 1) by lia.
  apply (written_app k f (in_ f) 1 1 1 [u8 n] [u8 (Z.shiftr n 8)] (data f) d1 d2 Hs); rewrite ?Ee in *; try done; lia.
Qed.

(** The header and then the data of a record. *)
Lemma record_written k r f n m w src d1 d2 : shaped k f -> esize f = 1 -> r = 1 \/ r = 2 -> 0 <= m <= w -> r + w <= 2 ^ k ->
  laid k f (in_ f) (r * esize f) (header r n) (data f) d1 ->
  written k (set_data f d1) (u32 (in_ f + r)) (m * 1) (w * 1) src d1 d2 ->
  written k f (in_ f) ((r + m) * 1) ((r + w) * 1) (header r n ++ src) (data f) d2.
Proof.
  intros Hs Ee Hr Hm Hw H1 H2. rewrite <- Ee. apply (written_app k f (in_ f) r m w _ src (data f) d1 d2 Hs); rewrite ?Ee in *; try lia; try done.
  rewrite header_length by done. lia.
Qed.

Section Records.
Context (k r : Z) (f : __kfifo) (q : list Z).
Hypothesis Hq : queue k f 1 q.
Hypothesis Hr : r = 1 \/ r = 2.

(** Whatever the length, [__kfifo_in_r] stores its low bytes and the data. *)
Lemma in_r_bytes buf len : 0 <= len < 2 ^ 32 -> len <= Z.of_nat (length buf) ->
  if 2 ^ k - kfifo_len f <? len + r then __kfifo_in_r f buf len r = Ok (0, f)
  else exists f', __kfifo_in_r f buf len r = Ok (len, f') /\
         queue k f' 1 (q ++ header r len ++ take (Z.to_nat len) buf).
Proof.
  intros Hl Hb. pose proof Hq as (Hwf&Ee&_). destruct (queue_len _ _ _ _ Hq) as (_&Hlen&_).
  unfold __kfifo_in_r. rewrite (unused_eq k f Hwf), u64_small by (unfold ULLONG_MAX; lia). case_if; [done|].
  assert (Hs : shaped k f) by apply Hwf.
  destruct (poke_n_spec k r f len Hs Ee Hr) as (d1&->&Hl1). cbn [obind].
  destruct (copy_in_spec k (set_data f d1) (shaped_data k f d1 (proj1 Hl1) Hs) buf len (u32 (in_ f + r))) as (d2&Hc&Hl2);
    [lia|simpl; rewrite Ee; lia|].
  change (in_ (set_data f d1)) with (in_ f). rewrite Hc. cbn [obind]. eexists. split; [done|].
  change (esize (set_data f d1)) with (esize f) in Hl2. change (data (set_data f d1)) with d1 in Hl2.
  rewrite Ee in Hl2. pose proof (record_written k r f len len len buf d1 d2 Hs Ee Hr ltac:(lia) ltac:(lia) Hl1 Hl2) as Hall.
  apply (push_queue k f 1 q Hq) in Hall; [|lia|lia|rewrite length_app, Nat2Z.inj_add, header_length by done; lia].
  rewrite Z.mul_1_r, take_app_ge in Hall by (pose proof (header_length r len Hr); lia).
  replace (Z.to_nat (r + len) - length (header r len))%nat with (Z.to_nat len) in Hall by (pose proof (header_length r len Hr); lia).
  replace (len + r) with (r + len) by lia. exact Hall.
Qed.

End Records.

Section RecordQueue.
Context (k r : Z) (f : __kfifo).
Hypothesis Hr : r = 1 \/ r = 2.

Lemma records_wf recs : records k r f recs -> wf k f.
Proof. by intros ((?&_)&_). Qed.

(** The free room decides between storing the record whole and not at all. *)
Lemma in_r_spec recs buf len : records k r f recs -> 0 <= len < 2 ^ (8 * r) -> len <= Z.of_nat (length buf) ->
  if 2 ^ k - kfifo_len f <? len + r then __kfifo_in_r f buf len r = Ok (0, f)
  else exists f', __kfifo_in_r f buf len r = Ok (len, f') /\ records k r f' (recs ++ [take (Z.to_nat len) buf]).
Proof.
  intros [Hq Hall] Hl Hb. assert (len < 2 ^ 32) by (destruct Hr as [-> | ->]; simpl in Hl; lia).
  pose proof (in_r_bytes k r f _ Hq Hr buf len ltac:(lia) Hb) as Hin. case_if; [done|].
  destruct Hin as (f'&->&Hq'). exists f'. split; [done|].
  assert (Hlen : Z.of_nat (length (take (Z.to_nat len) buf)) = len) by (rewrite length_take; lia). split.
  - rewrite map_app, concat_app. simpl. rewrite app_nil_r. unfold frame. by rewrite Hlen.
  - apply Forall_app. split; [done|]. apply Forall_singleton. lia.
Qed.

Section Front.
Context (rec : list Z) (recs : list (list Z)).
Hypothesis Hrec : records k r f (rec :: recs).

Lemma front_peek : __kfifo_peek_n f r = Ok (Z.of_nat (length rec)).
Proof.
  destruct Hrec as [Hq Hall]. apply Forall_cons_1 in Hall as [Hlt _].
  apply (peek_n_spec k r f _ Hq Hr _ (rec ++ concat (map (frame r) recs))); [|lia].
  simpl. unfold frame at 1. by rewrite <- app_assoc.
Qed.

Lemma front_len : r + Z.of_nat (length rec) <= kfifo_len f.
Proof.
  destruct Hrec as [Hq _]. destruct (queue_len _ _ _ _ Hq) as (Hl&_&_). simpl in Hl. unfold frame at 1 in Hl.
  rewrite !length_app, !Nat2Z.inj_add, header_length in Hl by done. lia.
Qed.

Lemma front_drop : records k r (set_out f (u32 (out f + u64 (Z.of_nat (length rec) + r)))) recs.
Proof.
  pose proof front_len as Hfl. destruct Hrec as [Hq Hall]. apply Forall_cons_1 in Hall as [_ Hall].
  destruct (queue_len _ _ _ _ Hq) as (_&Hle&_). pose proof (size_pos k f (proj1 (proj1 Hq))).
  rewrite u64_small by (unfold ULLONG_MAX; lia). split; [|done].
  destruct (pop_queue k f 1 _ Hq (Z.of_nat (length rec) + r)) as [Hd _]; [lia|].
  simpl in Hd. rewrite drop_app_length' in Hd; [done|]. unfold frame. rewrite length_app.
  pose proof (header_length r (Z.of_nat (length rec)) Hr). lia.
Qed.

Lemma out_copy_r_spec dst len : 0 <= len ->
  let n := Z.min len (Z.of_nat (length rec)) in
  n <= Z.of_nat (length dst) ->
  kfifo_out_copy_r f dst len r = Ok (n, take (Z.to_nat n) rec ++ drop (Z.to_nat n) dst, Z.of_nat (length rec)).
Proof.
  intros Hl n Hd. pose proof front_len as Hfl. unfold kfifo_out_copy_r. rewrite front_peek. cbn [obind].
  replace (if _ <? len then _ else len) with n by (unfold n; case_if; lia).
  destruct Hrec as [Hq _]. pose proof Hq as (Hwf&Ee&Hc). destruct (queue_len _ _ _ _ Hq) as (_&Hle&_).
  assert (Hring : ring k f (u32 (out f + r)) (n * esize f) = take (Z.to_nat n) rec).
  { rewrite (ring_contents k f Hwf) by lia. rewrite Ee, Hc, !Z.mul_1_r. simpl. unfold frame at 1.
    rewrite <- !app_assoc, drop_app_length' by (pose proof (header_length r (Z.of_nat (length rec)) Hr); lia).
    by rewrite take_app_le by lia. }
  rewrite (copy_out_spec k f (proj1 Hwf)) by (rewrite ?Ee; lia). cbn [obind]. by rewrite Hring, Ee, Z.mul_1_r.
Qed.

End Front.

Lemma out_r_spec recs dst len : records k r f recs -> 0 <= len ->
  match recs with
  | [] => __kfifo_out_r f dst len r = Ok (0, dst, f)
  | rec :: rest =>
    let n := Z.min len (Z.of_nat (length rec)) in
    n <= Z.of_nat (length dst) ->
    exists f', __kfifo_out_r f dst len r = Ok (n, take (Z.to_nat n) rec ++ drop (Z.to_nat n) dst, f') /\ records k r f' rest
  end.
Proof.
  intros Hrecs Hl. pose proof (records_wf _ Hrecs) as Hwf. unfold __kfifo_out_r. rewrite (empty_iff k f Hwf). destruct recs as [|rec rest].
  - destruct Hrecs as [Hq _]. destruct (queue_len _ _ _ _ Hq) as (Hz&_). simpl in Hz. by replace (kfifo_len f =? 0) with true by lia.
  - intros Hd. pose proof (front_len _ _ Hrecs). replace (kfifo_len f =? 0) with false by lia.
    rewrite (out_copy_r_spec rec rest Hrecs) by done. cbn [obind]. eexists. split; [done|]. by apply front_drop.
Qed.

Lemma out_peek_r_spec recs dst len : records k r f recs -> 0 <= len ->
  match recs with
  | [] => __kfifo_out_peek_r f dst len r = Ok (0, dst)
  | rec :: rest =>
    let n := Z.min len (Z.of_nat (length rec)) in
    n <= Z.of_nat (length dst) ->
    __kfifo_out_peek_r f dst len r = Ok (n, take (Z.to_nat n) rec ++ drop (Z.to_nat n) dst)
  end.
Proof.
  intros Hrecs Hl. pose proof (records_wf _ Hrecs) as Hwf. unfold __kfifo_out_peek_r. rewrite (empty_iff k f Hwf). destruct recs as [|rec rest].
  - destruct Hrecs as [Hq _]. destruct (queue_len _ _ _ _ Hq) as (Hz&_). simpl in Hz. by replace (kfifo_len f =? 0) with true by lia.
  - intros Hd. pose proof (front_len _ _ Hrecs). replace (kfifo_len f =? 0) with false by lia.
    rewrite (out_copy_r_spec rec rest Hrecs) by done. done.
Qed.

Lemma skip_r_spec rec recs : records k r f (rec :: recs) -> exists f', __kfifo_skip_r f r = Ok f' /\ records k r f' recs.
Proof.
  intros Hrecs. unfold __kfifo_skip_r. rewrite (front_peek _ _ Hrecs). cbn [obind]. eexists. split; [done|]. by apply front_drop.
Qed.

End RecordQueue.
