(* ===== verification/KfifoUser.v ===== *)
(** * KfifoUser: transfers between a fifo and user space

    A copy from or to user memory may stop at an inaccessible address. The
    lemmas show that the counters then account for whole elements that were
    transferred, and never for bytes that were not. *)

From S2P Require Import Prelude Bits Kfifo KfifoFacts KfifoOps KfifoRecords.

Lemma memcpy_ext d o s1 a s2 b n : 0 <= a -> 0 <= b ->
  a + n <= Z.of_nat (length s1) -> b + n <= Z.of_nat (length s2) ->
  take (Z.to_nat n) (drop (Z.to_nat a) s1) = take (Z.to_nat n) (drop (Z.to_nat b) s2) ->
  memcpy d o s1 a n = memcpy d o s2 b n.
Proof.
  intros Ha Hb H1 H2 E. unfold memcpy. rewrite E. destruct (n =? 0); [done|].
  replace (_ || _) with ((o <? 0) || (n <? 0) || (Z.of_nat (length d) <? o + n)) by lia.
  by replace (_ || (Z.of_nat (length s2) <? b + n)) with ((o <? 0) || (n <? 0) || (Z.of_nat (length d) <? o + n)) by lia.
Qed.

Lemma div_round_up_spec n d : 0 <= n -> 1 <= d -> n + d <= 2 ^ 64 -> n <= DIV_ROUND_UP n d * d < n + d.
Proof.
  intros Hn Hd Hb. unfold DIV_ROUND_UP. rewrite u64_small by (unfold ULLONG_MAX; lia).
  pose proof (Z.div_mod (n + d - 1) d ltac:(lia)). pose proof (Z.mod_pos_bound (n + d - 1) d ltac:(lia)). lia.
Qed.

Lemma length_user_bytes ubuf from n : length (user_bytes ubuf from n) = Z.to_nat n.
Proof. unfold user_bytes. by rewrite length_map, length_seq. Qed.

Lemma user_bytes_lookup ubuf from n i : 0 <= i < n -> user_bytes ubuf from n !! Z.to_nat i = Some (ubuf (from + i)).
Proof. intros Hi. unfold user_bytes. rewrite list_lookup_fmap, lookup_seq_lt by lia. simpl. by rewrite Z2Nat.id by lia. Qed.

Lemma user_bytes_take ubuf from n m : 0 <= m <= n -> take (Z.to_nat m) (user_bytes ubuf from n) = user_bytes ubuf from m.
Proof. intros Hm. unfold user_bytes. rewrite <- fmap_take, take_seq. by rewrite Nat.min_l by lia. Qed.

Lemma user_bytes_app ubuf from n m : 0 <= n -> 0 <= m ->
  user_bytes ubuf from (n + m) = user_bytes ubuf from n ++ user_bytes ubuf (from + n) m.
Proof.
  intros Hn Hm. unfold user_bytes. rewrite Z2Nat.inj_add, seq_app, map_app by lia. f_equal. simpl.
  rewrite <- (Nat.add_0_r (Z.to_nat n)) at 1. rewrite <- fmap_add_seq, <- list_fmap_compose. apply map_ext. intros i. simpl.
  f_equal. lia.
Qed.

Section User.
Context (fault : Z -> Z -> Z).
(** The uncopied count of a copy of [n] bytes is at most [n]. *)
Hypothesis fault_range : forall a n, 0 <= n -> 0 <= fault a n <= n.

(** Every access inside [[a, a + n)] succeeds. *)
Definition accessible (a n : Z) : Prop := forall a' n', a <= a' -> 0 <= n' -> a' + n' <= a + n -> fault a' n' = 0.

(** What [copy_from_user] leaves in a destination of [n] bytes. *)
Definition received (ubuf : Z -> Z) (from n ret : Z) : list Z := user_bytes ubuf from (n - ret) ++ replicate (Z.to_nat ret) 0.

Lemma length_received ubuf from n ret : 0 <= ret <= n -> length (received ubuf from n ret) = Z.to_nat n.
Proof. intros H. unfold received. rewrite length_app, length_user_bytes, length_replicate. lia. Qed.

Lemma received_lookup ubuf from n ret i : 0 <= ret <= n -> 0 <= i < n - ret ->
  received ubuf from n ret !! Z.to_nat i = user_bytes ubuf from n !! Z.to_nat i.
Proof.
  intros H Hi. unfold received. rewrite lookup_app_l by (rewrite length_user_bytes; lia).
  by rewrite !user_bytes_lookup by lia.
Qed.

Lemma split_bounds k f off len : shaped k f -> 0 <= len <= 2 ^ k ->
  let o := (off mod 2 ^ k) * esize f in
  let l := Z.min (len * esize f) (2 ^ k * esize f - o) in
  0 <= o < 2 ^ k * esize f /\ 0 <= l <= len * esize f /\ len * esize f <= 2 ^ k * esize f < 2 ^ 32.
Proof.
  intros Hs Hlen o l. pose proof (size_pos k f Hs). pose proof (Z.mod_pos_bound off (2 ^ k) ltac:(lia)). destruct Hs as (_&_&He&Hc&_).
  assert (0 <= o < 2 ^ k * esize f) by (unfold o; nia). assert (0 <= len * esize f <= 2 ^ k * esize f) by nia. unfold l. lia.
Qed.

Section CopyFrom.
Context (k : Z) (f : __kfifo) (ubuf : Z -> Z) (from off len : Z).
Hypothesis Hs : shaped k f.
Hypothesis Hlen : 0 <= len <= 2 ^ k.

Let o := (off mod 2 ^ k) * esize f.
Let l := Z.min (len * esize f) (2 ^ k * esize f - o).

Lemma user_bounds : 0 <= o < 2 ^ k * esize f /\ 0 <= l <= len * esize f /\ len * esize f <= 2 ^ k * esize f < 2 ^ 32.
Proof. by apply split_bounds. Qed.

(** The copy stops before the end of the buffer. *)
Lemma first_part_fails : let r := fault from l in r <> 0 ->
  exists d, memcpy (data f) o (received ubuf from l r) 0 l = Ok d /\
    written k f off (l - r) (len * esize f) (user_bytes ubuf from (len * esize f)) (data f) d.
Proof.
  intros r Hr. pose proof user_bounds as (Ho&Hl&Hc). pose proof (fault_range from l ltac:(lia)) as Hf. fold r in Hf.
  destruct (two_copies k f Hs off l (received ubuf from l r) (data f)) as (d1&d2&H1&H2&L&Hi&Hout);
    [lia|rewrite length_received by done; lia|done|]. fold o in H1, H2.
  replace (Z.min l (2 ^ k * esize f - o)) with l in H1, H2 by (unfold l; lia).
  rewrite Z.sub_diag in H2. injection H2 as <-. exists d1. split; [done|]. split_and!; [done| |].
  - intros i Hi'. rewrite Hi, received_lookup, !user_bytes_lookup by lia. done.
  - intros p Hp Hne. apply Hout; [done|]. intros i Hi'. apply Hne. lia.
Qed.

(** It goes on at the start of the buffer. *)
Lemma second_part : let r := fault (from + l) (len * esize f - l) in fault from l = 0 ->
  exists d1 d2, memcpy (data f) o (received ubuf from l 0) 0 l = Ok d1 /\
    memcpy d1 0 (received ubuf (from + l) (len * esize f - l) r) 0 (len * esize f - l) = Ok d2 /\
    written k f off (len * esize f - r) (len * esize f) (user_bytes ubuf from (len * esize f)) (data f) d2.
Proof.
  intros r H0. pose proof user_bounds as (Ho&Hl&Hc). pose proof (fault_range (from + l) (len * esize f - l) ltac:(lia)) as Hf. fold r in Hf.
  set (S := received ubuf from (len * esize f) r).
  assert (HS : Z.of_nat (length S) = len * esize f) by (unfold S; rewrite length_received by lia; lia).
  assert (ES : S = user_bytes ubuf from l ++ received ubuf (from + l) (len * esize f - l) r).
  { unfold S, received. rewrite app_assoc, <- user_bytes_app by lia. do 2 f_equal. lia. }
  destruct (two_copies k f Hs off (len * esize f) S (data f)) as (d1&d2&H1&H2&L&Hi&Hout); [lia..|done|].
  fold o in H1, H2. fold l in H1, H2. rewrite u32_small in H2 by (unfold UINT_MAX; lia).
  exists d1, d2. split_and!.
  - rewrite <- H1. apply memcpy_ext; [lia..| |lia|]; rewrite ?length_received by lia; [lia|].
    rewrite !drop_0, ES, take_app_le by (rewrite length_user_bytes; lia). unfold received. simpl. by rewrite Z.sub_0_r, app_nil_r.
  - rewrite <- H2. apply memcpy_ext; [lia..| |lia|]; [rewrite length_received by lia; lia|].
    rewrite drop_0, ES, drop_app_length' by (rewrite length_user_bytes; lia). done.
  - split_and!; [done| |done]. intros i Hi'. rewrite Hi by lia. unfold S. by rewrite received_lookup by lia.
Qed.

Lemma copy_from_spec : exists ret d,
  kfifo_copy_from_user fault f ubuf from len off = Ok (ret, (len - ret) * esize f, set_data f d) /\
  0 <= ret <= len /\ (accessible from (len * esize f) -> ret = 0) /\
  written k f off ((len - ret) * esize f) (len * esize f) (user_bytes ubuf from (len * esize f)) (data f) d.
Proof.
  pose proof user_bounds as (Ho&Hl&Hc). assert (He : 1 <= esize f) by apply Hs. assert (esize f < 2 ^ 32) by (pose proof (size_pos k f Hs); nia).
  unfold kfifo_copy_from_user. rewrite (split_copy_eq k f Hs) by done. fold o. fold l. unfold copy_from_user.
  fold (received ubuf from l (fault from l)). pose proof (fault_range from l ltac:(lia)) as Hf1.
  destruct (decide (fault from l = 0)) as [E|E].
  - destruct (second_part E) as (d1&d2&H1&H2&Hw). rewrite E, H1. cbn [obind negb Z.eqb].
    rewrite (u32_small (len * esize f - l)) by (unfold UINT_MAX; lia). unfold received in H2. rewrite H2. cbn [obind].
    pose proof (fault_range (from + l) (len * esize f - l) ltac:(lia)) as Hf2.
    remember (fault (from + l) (len * esize f - l)) as r eqn:Er.
    assert (Hret : exists ret, (if negb (r =? 0) then DIV_ROUND_UP r (esize f) else r) = ret /\ r <= ret * esize f < r + esize f /\ (r = 0 -> ret = 0)).
    { eexists. split; [done|]. destruct (r =? 0) eqn:Ez; simpl; [lia|]. split; [apply div_round_up_spec; lia|lia]. }
    destruct Hret as (ret&->&Hret&Hz). assert (0 <= ret <= len) by nia. exists ret, d2. split_and!; try lia.
    + f_equal. f_equal. f_equal. rewrite Z.mul_sub_distr_r. apply u32_small. unfold UINT_MAX. nia.
    + intros Hacc. apply Hz. rewrite Er. apply Hacc; lia.
    + destruct Hw as (?&Hi&?). split_and!; [done| |done]. intros i Hi'. apply Hi. nia.
  - destruct (first_part_fails E) as (d&->&Hw). cbn [obind]. destruct (fault from l =? 0) eqn:Ez; [lia|]. cbn [obind negb].
    remember (fault from l) as r eqn:Er.
    rewrite (u64_small (r + len * esize f)), u64_small by (unfold ULLONG_MAX; lia).
    pose proof (div_round_up_spec (r + len * esize f - l) (esize f) ltac:(lia) He ltac:(lia)) as Hret.
    remember (DIV_ROUND_UP _ _) as ret. assert (0 < ret <= len) by nia. exists ret, d. split_and!; try lia.
    + f_equal. f_equal. f_equal. rewrite Z.mul_sub_distr_r. apply u32_small. unfold UINT_MAX. nia.
    + intros Hacc. exfalso. apply E. rewrite Er. apply Hacc; lia.
    + destruct Hw as (?&Hi&?). split_and!; [done| |done]. intros i Hi'. apply Hi. nia.
Qed.

End CopyFrom.

Section CopyTo.
Context (k : Z) (f : __kfifo) (ubuf : Z -> Z) (to off len : Z).
Hypothesis Hs : shaped k f.
Hypothesis Hlen : 0 <= len <= 2 ^ k.

(** User memory after a transfer of [n] bytes of which the first [m] are
    accounted for. *)
Definition delivered (n m : Z) (ubuf' : Z -> Z) : Prop :=
  (forall i, 0 <= i < m -> ubuf' (to + i) = default 0 (data f !! Z.to_nat (pos k f off i))) /\
  (forall a, a < to \/ to + n <= a -> ubuf' a = ubuf a).

Lemma copy_to_spec : exists ret ubuf',
  kfifo_copy_to_user fault f ubuf to len off = Ok (ret, (len - ret) * esize f, ubuf') /\
  0 <= ret <= len /\ (accessible to (len * esize f) -> ret = 0) /\
  delivered (len * esize f) ((len - ret) * esize f) ubuf'.
Proof.
  pose proof (split_bounds k f off len Hs Hlen) as (Ho&Hl&Hc). assert (He : 1 <= esize f) by apply Hs.
  assert (esize f < 2 ^ 32) by (pose proof (size_pos k f Hs); nia).
  assert (Hcap : 2 ^ k * esize f <= Z.of_nat (length (data f))) by apply Hs.
  assert (Hpos : forall i, 0 <= i < len * esize f -> pos k f off i =
    let o := off mod 2 ^ k * esize f in if o + i <? 2 ^ k * esize f then o + i else o + i - 2 ^ k * esize f).
  { intros i Hi. apply (pos_offset k f Hs); lia. }
  unfold kfifo_copy_to_user. rewrite (split_copy_eq k f Hs) by done.
  remember (off mod 2 ^ k * esize f) as o eqn:Eo. remember (Z.min (len * esize f) (2 ^ k * esize f - o)) as l eqn:El.
  unfold copy_to_user. pose proof (fault_range to l ltac:(lia)) as Hf1.
  replace (_ && (0 <? l)) with false by lia. cbn [obind].
  destruct (decide (fault to l = 0)) as [E|E].
  - rewrite E. cbn [negb Z.eqb]. rewrite (u32_small (len * esize f - l)) by (unfold UINT_MAX; lia).
    replace (_ && (0 <? len * esize f - l)) with false by lia. cbn [obind].
    pose proof (fault_range (to + l) (len * esize f - l) ltac:(lia)) as Hf2.
    remember (fault (to + l) (len * esize f - l)) as r eqn:Er.
    assert (Hret : exists ret, (if negb (r =? 0) then DIV_ROUND_UP r (esize f) else r) = ret /\ r <= ret * esize f < r + esize f /\ (r = 0 -> ret = 0)).
    { eexists. split; [done|]. destruct (r =? 0) eqn:Ez; simpl; [lia|]. split; [apply div_round_up_spec; lia|lia]. }
    destruct Hret as (ret&->&Hret&Hz). assert (0 <= ret <= len) by nia. eexists ret, _. split; [|split; [lia|split]].
    + f_equal. f_equal. f_equal. rewrite Z.mul_sub_distr_r. apply u32_small. unfold UINT_MAX. nia.
    + intros Hacc. apply Hz. rewrite Er. apply Hacc; lia.
    + split.
      * intros i Hi. assert (i < len * esize f - r) by nia. simpl. rewrite Hpos by lia. simpl.
        destruct (o + i <? 2 ^ k * esize f) eqn:Ei.
        -- replace ((to + l <=? to + i) && _) with false by lia. replace (_ && _) with true by lia. do 3 f_equal. lia.
        -- replace ((to + l <=? to + i) && _) with true by lia. do 3 f_equal. lia.
      * intros a Ha. simpl. replace ((to + l <=? a) && _) with false by lia. by replace (_ && _) with false by lia.
  - destruct (fault to l =? 0) eqn:Ez; [lia|]. cbn [obind negb]. remember (fault to l) as r eqn:Er.
    rewrite (u64_small (r + len * esize f)), u64_small by (unfold ULLONG_MAX; lia).
    pose proof (div_round_up_spec (r + len * esize f - l) (esize f) ltac:(lia) He ltac:(lia)) as Hret.
    remember (DIV_ROUND_UP _ _) as ret. assert (0 < ret <= len) by nia. eexists ret, _. split; [|split; [lia|split]].
    + f_equal. f_equal. f_equal. rewrite Z.mul_sub_distr_r. apply u32_small. unfold UINT_MAX. nia.
    + intros Hacc. exfalso. apply E. rewrite Er. apply Hacc; lia.
    + split.
      * intros i Hi. assert (i < l - r) by nia. simpl. rewrite Hpos by lia. simpl.
        replace (o + i <? 2 ^ k * esize f) with true by lia. replace (_ && _) with true by lia. do 3 f_equal. lia.
      * intros a Ha. simpl. by replace (_ && _) with false by lia.
Qed.

End CopyTo.

(** ** The operations on the queue *)

Section Ops.
Context (k : Z) (f : __kfifo) (e : Z) (q : list Z).
Hypothesis Hq : queue k f e q.

(** [m] of the [n] elements that could be moved were; [-EFAULT] tells that some
    were not. *)
Definition progress (err copied n m : Z) : Prop :=
  0 <= m <= n /\ copied = m * e /\ (err = 0 /\ m = n \/ err = - EFAULT /\ m < n).

Lemma user_count len room : 0 <= len -> 0 <= room ->
  (if room <? (if negb (esize f =? 1) then len / esize f else len) then room else (if negb (esize f =? 1) then len / esize f else len))
  = Z.min (len / e) room.
Proof.
  intros Hl Hr. destruct Hq as (_&->&_). destruct (e =? 1) eqn:E; simpl.
  - replace e with 1 by lia. rewrite Z.div_1_r. case_if; lia.
  - case_if; lia.
Qed.

Lemma from_user_spec ubuf from len : 0 <= len < 2 ^ 64 ->
  let n := Z.min (len / e) (2 ^ k - kfifo_len f) in
  exists err copied m f', __kfifo_from_user fault f ubuf from len = Ok (err, copied, f') /\
    progress err copied n m /\ (accessible from (n * e) -> err = 0) /\
    queue k f' e (q ++ user_bytes ubuf from (m * e)).
Proof.
  intros Hl n. destruct (queue_len _ _ _ _ Hq) as (_&Hlen&He). pose proof Hq as (Hwf&Ee&_).
  pose proof (size_pos k f (proj1 Hwf)). pose proof (Z.div_pos len e ltac:(lia) ltac:(lia)).
  unfold __kfifo_from_user. rewrite (unused_eq k f Hwf), user_count by lia. fold n.
  destruct (copy_from_spec k f ubuf from (in_ f) n (proj1 Hwf)) as (ret&d&->&Hret&Hacc&Hw); [lia|]. cbn [obind].
  rewrite Ee in Hacc, Hw |- *. apply (push_window k f e q Hq) in Hw; [|lia|lia|rewrite length_user_bytes; nia].
  rewrite user_bytes_take in Hw by nia. destruct (ret =? 0) eqn:E; simpl.
  - replace ret with 0 in * by lia. rewrite Z.sub_0_r in *. eexists _, _, n, _. split; [done|]. split; [|split; done].
    split; [lia|]. split; [done|]. by left.
  - rewrite (u64_small (n - ret)) by (unfold ULLONG_MAX; lia). eexists _, _, (n - ret), _. split; [done|]. split; [|split; [|done]].
    + split; [lia|]. split; [done|]. right. split; [done|lia].
    + intros Ha. apply Hacc in Ha. lia.
Qed.

Lemma to_user_spec ubuf to len : 0 <= len < 2 ^ 64 ->
  let n := Z.min (len / e) (kfifo_len f) in
  exists err copied m ubuf' f', __kfifo_to_user fault f ubuf to len = Ok (err, copied, ubuf', f') /\
    progress err copied n m /\ (accessible to (n * e) -> err = 0) /\
    (forall i, 0 <= i < m * e -> Some (ubuf' (to + i)) = q !! Z.to_nat i) /\
    (forall a, a < to \/ to + n * e <= a -> ubuf' a = ubuf a) /\
    queue k f' e (drop (Z.to_nat (m * e)) q).
Proof.
  intros Hl n. destruct (queue_len _ _ _ _ Hq) as (Hlq&Hlen&He). pose proof Hq as (Hwf&Ee&Hc).
  pose proof (size_pos k f (proj1 Hwf)). pose proof (Z.div_pos len e ltac:(lia) ltac:(lia)).
  unfold __kfifo_to_user. fold (kfifo_len f). rewrite user_count by lia. fold n.
  destruct (copy_to_spec k f ubuf to (out f) n (proj1 Hwf)) as (ret&ubuf'&->&Hret&Hacc&Hd&Hout); [lia|]. cbn [obind].
  rewrite Ee in *. destruct (pop_queue k f e q Hq (n - ret)) as [Hpop _]; [lia|].
  assert (Hbytes : forall i, 0 <= i < (n - ret) * e -> Some (ubuf' (to + i)) = q !! Z.to_nat i).
  { intros i Hi. rewrite Hd by done. rewrite <- Hc. unfold contents. rewrite Ee, (ring_lookup k f (proj1 Hwf)) by nia.
    destruct (lookup_lt_is_Some_2 (data f) (Z.to_nat (pos k f (out f) i))) as [b Hb]; [|by rewrite Hb].
    pose proof (pos_range k f (proj1 Hwf) (out f) i). destruct Hwf as ((_&_&_&_&?)&_). lia. }
  destruct (ret =? 0) eqn:E; simpl.
  - replace ret with 0 in * by lia. rewrite Z.sub_0_r in *. eexists _, _, n, ubuf', _. split; [done|].
    split; [split; [lia|]; split; [done|by left]|]. split; [done|]. split; [done|]. split; done.
  - rewrite (u64_small (n - ret)) by (unfold ULLONG_MAX; lia). eexists _, _, (n - ret), ubuf', _. split; [done|].
    split; [split; [lia|]; split; [done|right; split; [done|lia]]|]. split; [intros Ha; apply Hacc in Ha; lia|]. split; [done|]. split; done.
Qed.

End Ops.

(** ** The operations on records *)

Lemma max_r_spec len r : r = 1 \/ r = 2 -> __kfifo_max_r len r = Z.min len (2 ^ (8 * r) - 1).
Proof. intros [-> | ->]; unfold __kfifo_max_r; [change (u32 _) with 255|change (u32 _) with 65535]; case_if; simpl; lia. Qed.

Section RecordOps.
Context (k r : Z) (f : __kfifo) (recs : list (list Z)).
Hypothesis Hr : r = 1 \/ r = 2.
Hypothesis Hrecs : records k r f recs.

(** On a fault the record is not published and the fifo keeps its records. *)
Lemma from_user_r_spec ubuf from len : 0 <= len < 2 ^ 64 ->
  let n := Z.min (u32 len) (2 ^ (8 * r) - 1) in
  if 2 ^ k - kfifo_len f <? n + r then __kfifo_from_user_r fault f ubuf from len r = Ok (0, 0, f)
  else exists f',
    (__kfifo_from_user_r fault f ubuf from len r = Ok (0, n, f') /\ records k r f' (recs ++ [user_bytes ubuf from n])) \/
    (__kfifo_from_user_r fault f ubuf from len r = Ok (- EFAULT, 0, f') /\ records k r f' recs /\ ~ accessible from n).
Proof.
  intros Hl n. destruct Hrecs as [Hq Hall]. pose proof Hq as (Hwf&Ee&_). assert (Hs : shaped k f) by apply Hwf.
  destruct (queue_len _ _ _ _ Hq) as (_&Hlen&_). pose proof (wrap_range 32 len ltac:(lia)).
  assert (Hn : 0 <= n < 2 ^ (8 * r) /\ n < 2 ^ 32) by (unfold n; destruct Hr as [-> | ->]; simpl; lia).
  unfold __kfifo_from_user_r. rewrite max_r_spec, (unused_eq k f Hwf) by done. fold n.
  rewrite u64_small by (unfold ULLONG_MAX; lia). case_if; [done|].
  destruct (poke_n_spec k r f n Hs Ee Hr) as (d1&->&Hl1). cbn [obind].
  change (in_ (set_data f d1)) with (in_ f).
  destruct (copy_from_spec k (set_data f d1) ubuf from (u32 (in_ f + r)) n (shaped_data k f d1 (proj1 Hl1) Hs)) as (ret&d2&->&Hret&Hacc&Hw); [lia|].
  cbn [obind]. change (esize (set_data f d1)) with (esize f) in *. rewrite Ee in Hacc, Hw. change (data (set_data f d1)) with d1 in Hw.
  pose proof (record_written k r f n (n - ret) n _ d1 d2 Hs Ee Hr ltac:(lia) ltac:(lia) Hl1 Hw) as Hall2.
  destruct (ret =? 0) eqn:E; simpl.
  - replace ret with 0 in * by lia. rewrite Z.sub_0_r in *. eexists. left. split; [by rewrite Ee, Z.mul_1_r|].
    apply (push_window k f 1 _ Hq) in Hall2; [|lia|lia|rewrite length_app, length_user_bytes, Nat2Z.inj_add, header_length by done; lia].
    assert (Hlub : Z.of_nat (length (user_bytes ubuf from n)) = n) by (rewrite length_user_bytes; lia).
    split; [|apply Forall_app; split; [done|apply Forall_singleton; lia]].
    rewrite map_app, concat_app. simpl. rewrite app_nil_r. unfold frame. rewrite Hlub. rewrite take_ge in Hall2.
    2:{ pose proof (header_length r n Hr). rewrite length_app, length_user_bytes. lia. }
    rewrite Z.mul_1_r in Hall2. replace (n + r) with (r + n) by lia. exact Hall2.
  - eexists. right. split; [done|]. split; [|intros Ha; rewrite Z.mul_1_r in Hacc; apply Hacc in Ha; lia].
    destruct Hall2 as (L&_&O). assert (Hw0 : written k f (in_ f) (0 * 1) ((r + n) * 1) [] (data f) d2) by (split_and!; [done|lia|done]).
    apply (push_window k f 1 _ Hq) in Hw0; [|lia|lia|simpl; lia]. simpl in Hw0. rewrite app_nil_r, Z.add_0_r in Hw0.
    rewrite wrap_small in Hw0 by (destruct Hwf as (_&?&_); lia). split; [|done]. by destruct f.
Qed.

Lemma to_user_r_spec ubuf to len : 0 <= len ->
  match recs with
  | [] => __kfifo_to_user_r fault f ubuf to len r = Ok (0, 0, ubuf, f)
  | rec :: rest =>
    let n := Z.min len (Z.of_nat (length rec)) in
    exists ubuf', (forall a, a < to \/ to + n <= a -> ubuf' a = ubuf a) /\
    ((exists f', __kfifo_to_user_r fault f ubuf to len r = Ok (0, n, ubuf', f') /\ records k r f' rest /\
        forall i, 0 <= i < n -> Some (ubuf' (to + i)) = rec !! Z.to_nat i) \/
     (__kfifo_to_user_r fault f ubuf to len r = Ok (- EFAULT, 0, ubuf', f) /\ ~ accessible to n))
  end.
Proof.
  intros Hl. pose proof (records_wf k r f recs Hrecs) as Hwf. unfold __kfifo_to_user_r. rewrite (empty_iff k f Hwf).
  destruct recs as [|rec rest].
  - destruct Hrecs as [Hq _]. destruct (queue_len _ _ _ _ Hq) as (Hz&_). simpl in Hz. by replace (kfifo_len f =? 0) with true by lia.
  - pose proof (front_len k r f Hr rec rest Hrecs) as Hfl. replace (kfifo_len f =? 0) with false by lia.
    rewrite (front_peek k r f Hr rec rest Hrecs). cbn [obind]. pose proof (front_drop k r f Hr rec rest Hrecs) as Hdrop.
    set (n := Z.min len (Z.of_nat (length rec))). replace (if _ <? len then _ else len) with n by (unfold n; case_if; lia).
    pose proof Hrecs as [Hq _]. pose proof Hq as (_&Ee&Hc). destruct (queue_len _ _ _ _ Hq) as (_&Hle&_).
    destruct (copy_to_spec k f ubuf to (u32 (out f + r)) n (proj1 Hwf)) as (ret&ubuf'&->&Hret&Hacc&Hd&Hout); [lia|].
    cbn [obind]. rewrite Ee, !Z.mul_1_r in *. exists ubuf'. split; [done|]. destruct (ret =? 0) eqn:E; simpl.
    + replace ret with 0 in * by lia. rewrite Z.sub_0_r in *. left. eexists. split; [done|]. split; [done|].
      intros i Hi. rewrite Hd by done. pose proof (ring_lookup k f (proj1 Hwf) (u32 (out f + r)) (n * esize f) i) as Hrl.
      rewrite (ring_contents k f Hwf) in Hrl by lia. rewrite Ee, Hc, !Z.mul_1_r in Hrl.
      rewrite <- Hrl by done. rewrite lookup_take_lt by lia. simpl. unfold frame at 1.
      rewrite <- !app_assoc, drop_app_length' by (pose proof (header_length r (Z.of_nat (length rec)) Hr); lia).
      rewrite lookup_app_l by lia. destruct (lookup_lt_is_Some_2 rec (Z.to_nat i)) as [b ->]; [lia|done].
    + right. split; [done|]. intros Ha. apply Hacc in Ha. lia.
Qed.

End RecordOps.
End User.
