(* ===== verification/KfifoSpsc.v ===== *)
(** * KfifoSpsc: one reader and one writer without a lock

    [include/linux/kfifo.h] promises that one concurrent reader and one
    concurrent writer need no locking. [__kfifo_in] and [__kfifo_out] are split
    here into their shared-memory actions: the writer reads the counters, stores
    byte by byte, and publishes [in]; the reader reads the counters, loads byte
    by byte, and publishes [out]. The actions of the two sides interleave
    freely. The write barriers of the code order the copies before the
    publication, which is the program order of the model. *)

From stdpp Require Import relations.
From S2P Require Import Prelude Bits Kfifo KfifoFacts KfifoOps.

(** Where the writer and the reader are: in a copy of [len] elements, with [i]
    bytes of [buf] stored, or with the bytes [acc] loaded. *)
Inductive writer := WIdle | WCopy (len : Z) (buf : list Z) (i : Z).
Inductive reader := RIdle | RCopy (len : Z) (acc : list Z).

(** [sent] and [received] are the bytes of the finished calls of each side. *)
Record conc := Conc {
  fifo : __kfifo;
  wpc : writer;
  rpc : reader;
  sent : list Z;
  received : list Z
}.

(** The address of byte [i] of a copy: the two [memcpy] calls of
    [kfifo_copy_in] and [kfifo_copy_out] go through these in order. *)
Definition copy_addr (f : __kfifo) (len off i : Z) : Z :=
  let '(off, len, l) := split_copy f len off in
  if i <? l then off + i else i - l.

Definition clamp (l len : Z) : Z := if l <? len then l else len.

Inductive step : conc -> conc -> Prop :=
| w_start f r s c buf len : 0 <= len -> len * esize f <= Z.of_nat (length buf) ->
    step (Conc f WIdle r s c) (Conc f (WCopy (clamp (kfifo_unused f) len) buf 0) r s c)
| w_byte f r s c len buf i b d : i < len * esize f -> buf !! Z.to_nat i = Some b ->
    wr (data f) (copy_addr f len (in_ f) i) b = Ok d ->
    step (Conc f (WCopy len buf i) r s c) (Conc (set_data f d) (WCopy len buf (i + 1)) r s c)
| w_publish f r s c len buf :
    step (Conc f (WCopy len buf (len * esize f)) r s c)
         (Conc (set_in f (u32 (in_ f + len))) WIdle r (s ++ take (Z.to_nat (len * esize f)) buf) c)
| r_start f w s c len : 0 <= len ->
    step (Conc f w RIdle s c) (Conc f w (RCopy (clamp (u32 (in_ f - out f)) len) []) s c)
| r_byte f w s c len acc b : Z.of_nat (length acc) < len * esize f ->
    rd (data f) (copy_addr f len (out f) (Z.of_nat (length acc))) = Ok b ->
    step (Conc f w (RCopy len acc) s c) (Conc f w (RCopy len (acc ++ [b])) s c)
| r_publish f w s c len acc : Z.of_nat (length acc) = len * esize f ->
    step (Conc f w (RCopy len acc) s c) (Conc (set_out f (u32 (out f + len))) w RIdle s (c ++ acc)).

(** A copy that is not finished can make its next access. *)
Definition in_bounds (c : conc) : Prop :=
  match wpc c with
  | WIdle => True
  | WCopy len buf i => i < len * esize (fifo c) ->
      exists b d, buf !! Z.to_nat i = Some b /\ wr (data (fifo c)) (copy_addr (fifo c) len (in_ (fifo c)) i) b = Ok d
  end /\
  match rpc c with
  | RIdle => True
  | RCopy len acc => Z.of_nat (length acc) < len * esize (fifo c) ->
      exists b, rd (data (fifo c)) (copy_addr (fifo c) len (out (fifo c)) (Z.of_nat (length acc))) = Ok b
  end.

Section Invariant.
Context (k e : Z).

Definition writer_ok (f : __kfifo) (w : writer) : Prop :=
  match w with
  | WIdle => True
  | WCopy len buf i => 0 <= len /\ kfifo_len f + len <= 2 ^ k /\ 0 <= i <= len * e /\ len * e <= Z.of_nat (length buf) /\
      forall j, 0 <= j < i -> data f !! Z.to_nat (pos k f (in_ f) j) = buf !! Z.to_nat j
  end.

Definition reader_ok (f : __kfifo) (r : reader) : Prop :=
  match r with
  | RIdle => True
  | RCopy len acc => 0 <= len <= kfifo_len f /\ Z.of_nat (length acc) <= len * e /\ acc = take (length acc) (contents k f)
  end.

Definition inv (c : conc) : Prop :=
  exists q, queue k (fifo c) e q /\ writer_ok (fifo c) (wpc c) /\ reader_ok (fifo c) (rpc c) /\ sent c = received c ++ q.

Lemma copy_addr_pos f len off i : shaped k f -> 0 <= len <= 2 ^ k -> 0 <= i < len * esize f -> copy_addr f len off i = pos k f off i.
Proof.
  intros Hs Hl Hi. unfold copy_addr. rewrite (split_copy_eq k f Hs) by done.
  pose proof (size_pos k f Hs). pose proof (Z.mod_pos_bound off (2 ^ k) ltac:(lia)). assert (He : 1 <= esize f) by apply Hs.
  assert (0 <= off mod 2 ^ k * esize f < 2 ^ k * esize f) by nia. assert (len * esize f <= 2 ^ k * esize f) by nia.
  destruct (pos_offset k f Hs off i ltac:(lia)) as [_ ->]; [lia|]. case_ifs; lia.
Qed.

(** A store into the free part of the ring does not touch the contents. *)
Lemma store_free f q i b : queue k f e q -> 0 <= i < (2 ^ k - kfifo_len f) * e ->
  let d := <[Z.to_nat (pos k f (in_ f) i) := b]> (data f) in
  wr (data f) (pos k f (in_ f) i) b = Ok d /\ queue k (set_data f d) e q /\
  (forall j, 0 <= j < (2 ^ k - kfifo_len f) * e ->
     d !! Z.to_nat (pos k f (in_ f) j) = if j =? i then Some b else data f !! Z.to_nat (pos k f (in_ f) j)).
Proof.
  intros Hq Hi d. pose proof Hq as (Hwf&Ee&_). assert (Hs : shaped k f) by apply Hwf. destruct (queue_len _ _ _ _ Hq) as (_&Hl&He).
  pose proof (pos_range k f Hs (in_ f) i) as Hp.
  assert (Hcap : 2 ^ k * e <= Z.of_nat (length (data f))) by (rewrite <- Ee; apply Hs). rewrite Ee in Hp.
  assert (Hbnd : (2 ^ k - kfifo_len f) * e <= 2 ^ k * e) by nia. split; [apply wr_Ok; lia|]. split.
  - assert (Hw : written k f (in_ f) (0 * e) ((2 ^ k - kfifo_len f) * e) [] (data f) d).
    { split_and!; [apply length_insert|lia|]. intros p Hpp Hne. unfold d. apply list_lookup_insert_ne.
      specialize (Hne i Hi). lia. }
    apply (push_window k f e q Hq) in Hw; [|lia|lia|simpl; lia]. simpl in Hw. rewrite app_nil_r, Z.add_0_r in Hw.
    rewrite wrap_small in Hw by (destruct Hwf as (_&?&_); lia). by destruct f.
  - intros j Hj. unfold d. destruct (j =? i) eqn:E.
    + replace j with i by lia. apply list_lookup_insert_eq. lia.
    + apply list_lookup_insert_ne. intros Heq. pose proof (pos_range k f Hs (in_ f) j).
      apply Z2Nat.inj, (pos_inj k f Hs) in Heq; rewrite ?Ee; lia.
Qed.

Lemma inv_in_bounds c : inv c -> in_bounds c.
Proof.
  intros (q&Hq&Hw&Hr&_). destruct c as [f w r s c]. simpl in *. pose proof Hq as (Hwf&Ee&_). pose proof (size_pos k f (proj1 Hwf)).
  destruct (queue_len _ _ _ _ Hq) as (_&Hl&He). split; simpl.
  - destruct w as [|len buf i]; [done|]. rewrite Ee. intros Hi. destruct Hw as (Hz&Hle&Hi'&Hb&_).
    destruct (lookup_lt_is_Some_2 buf (Z.to_nat i)) as [b Hlb]; [lia|]. exists b. eexists. split; [done|].
    rewrite copy_addr_pos by (try apply Hwf; rewrite ?Ee; lia). apply (store_free f q); [done|nia].
  - destruct r as [|len acc]; [done|]. rewrite Ee. intros Hi. destruct Hr as (Hlen&_).
    rewrite copy_addr_pos by (try apply Hwf; rewrite ?Ee; lia). pose proof (pos_range k f (proj1 Hwf) (out f) (Z.of_nat (length acc))).
    destruct (rd_Ok (data f) (pos k f (out f) (Z.of_nat (length acc)))) as (b&?&_); [|eauto]. destruct Hwf as ((_&_&_&_&?)&_). lia.
Qed.

Lemma reader_ok_app f f' q q' r : queue k f e q -> queue k f' e (q ++ q') -> kfifo_len f <= kfifo_len f' ->
  reader_ok f r -> reader_ok f' r.
Proof.
  intros Hq Hq' Hle. destruct r as [|len acc]; [done|]. intros (Hl&Ha&Hp). split_and!; [lia|lia|done|].
  destruct (queue_len _ _ _ _ Hq) as (Hlq&_&He). destruct Hq as (_&_&Hc). destruct Hq' as (_&_&->). rewrite Hc in Hp.
  rewrite Hp at 1. symmetry. apply take_app_le. nia.
Qed.

Lemma inv_step c c' : inv c -> step c c' -> inv c'.
Proof.
  intros (q&Hq&Hw&Hr&Hh) Hstep. pose proof (queue_len _ _ _ _ Hq) as (Hlq&Hl&He). pose proof Hq as (Hwf&Ee&Hc).
  destruct Hstep; simpl in *; rewrite ?Ee in *.
  - exists q. split_and!; try done. simpl. rewrite (unused_eq k f Hwf). unfold clamp. split_and!; try done; try lia; case_ifs; nia.
  - destruct Hw as (Hz&Hle&Hi'&Hb&Hj). rewrite copy_addr_pos in * by (try apply Hwf; rewrite ?Ee; lia).
    destruct (store_free f q i b Hq) as (Hst&Hq'&Hlook); [nia|]. rewrite Hst in *. match goal with H : Ok _ = Ok _ |- _ => injection H as <- end.
    exists q. split; [done|]. split; [|split; [|done]].
    + split_and!; try done; try lia. intros j Hj'. etransitivity; [apply (Hlook j); nia|]. case_if; [by replace j with i by lia|apply Hj; lia].
    + apply (reader_ok_app f _ q []); [done|by rewrite app_nil_r|done|done].
  - destruct Hw as (Hz&Hle&_&Hb&Hj). exists (q ++ take (Z.to_nat (len * e)) buf).
    assert (Hd : set_data f (data f) = f) by (by destruct f).
    destruct (push k f Hwf len len buf (data f)) as (Hwf'&Hlen'&Hc'); rewrite ?Ee; [lia|lia|done|split_and!; done|].
    rewrite Hd, Ee, Hc in *. assert (Hq' : queue k (set_in f (u32 (in_ f + len))) e (q ++ take (Z.to_nat (len * e)) buf)) by done.
    split; [done|]. split; [done|]. split; [|by rewrite Hh, app_assoc].
    apply (reader_ok_app f _ q (take (Z.to_nat (len * e)) buf)); [done|done|simpl; lia|done].
  - exists q. split; [done|]. split; [done|]. split; [|done]. fold (kfifo_len f). unfold clamp. simpl.
    split_and!; try done; case_ifs; nia.
  - destruct Hr as (Hlen&Ha&Hp). rewrite copy_addr_pos in * by (try apply Hwf; rewrite ?Ee; lia).
    exists q. split; [done|]. split; [done|]. split; [|done]. split; [done|]. rewrite length_app. simpl. split; [lia|].
    assert (Hb : contents k f !! length acc = Some b).
    { unfold contents. rewrite <- (Nat2Z.id (length acc)) at 1. rewrite (ring_lookup k f (proj1 Hwf)) by (rewrite Ee; nia).
      pose proof (pos_range k f (proj1 Hwf) (out f) (Z.of_nat (length acc))).
      match goal with H : rd _ _ = Ok b |- _ => revert H end. unfold rd. case_if; [lia|]. case_match; [|done]. by intros [= ->]. }
    rewrite Nat.add_1_r, (take_S_r _ _ b Hb), <- Hp. done.
  - destruct Hr as (Hlen&_&Hp). destruct (pop_queue k f e q Hq len Hlen) as [Hq' _].
    exists (drop (Z.to_nat (len * e)) q). split; [done|].
    assert (Hlen' : kfifo_len (set_out f (u32 (out f + len))) = kfifo_len f - len).
    { destruct (pop k f Hwf len Hlen) as (_&?&_). done. }
    split; [|split; [done|]].
    + destruct w as [|wl buf i]; [done|]. destruct Hw as (Hz&Hle&Hi'&Hb&Hj). split_and!; try done; simpl; lia.
    + simpl. rewrite Hh, <- app_assoc. f_equal. rewrite Hp, Hc. replace (length acc) with (Z.to_nat (len * e)) by lia.
      by rewrite take_drop.
Qed.

Lemma inv_reachable c c' : inv c -> rtc step c c' -> inv c'.
Proof. intros Hi Hs. induction Hs; [done|]. eauto using inv_step. Qed.

End Invariant.

(** ** The steps of one side in a row are the sequential operation *)

Lemma laid_unique k f off n src d d1 d2 : shaped k f -> 0 <= n <= 2 ^ k * esize f ->
  laid k f off n src d d1 -> laid k f off n src d d2 -> d1 = d2.
Proof.
  intros Hs Hn (L1&I1&O1) (L2&I2&O2). apply list_eq. intros j. rewrite <- (Nat2Z.id j). pose proof (Nat2Z.is_nonneg j) as Hj.
  generalize dependent (Z.of_nat j). intros p Hp.
  destruct (decide (Exists (fun i => p = pos k f off (Z.of_nat i)) (seq 0 (Z.to_nat n)))) as [He|He].
  - apply Exists_exists in He as (i&Hi&->). apply in_seq in Hi. rewrite I1, I2 by lia. done.
  - rewrite O1, O2; [done|done| |done|]; intros i Hi ->; apply He, Exists_exists; exists (Z.to_nat i);
      (split; [apply in_seq; lia|by rewrite Z2Nat.id by lia]).
Qed.

Section Sequential.
Context (k e : Z) (f : __kfifo) (q : list Z).
Hypothesis Hq : queue k f e q.

Lemma laid_snoc off i b buf d d' : 0 <= i < 2 ^ k * e -> buf !! Z.to_nat i = Some b -> length d = length (data f) ->
  laid k f off i buf (data f) d -> d' = <[Z.to_nat (pos k f off i) := b]> d -> laid k f off (i + 1) buf (data f) d'.
Proof.
  intros Hi Hb Hd (L&I&O) ->. pose proof Hq as (Hwf&Ee&_). assert (Hs : shaped k f) by apply Hwf.
  pose proof (pos_range k f Hs off i) as Hp. assert (Hcap : 2 ^ k * esize f <= Z.of_nat (length (data f))) by apply Hs.
  split_and!; [by rewrite length_insert| |].
  - intros j Hj. destruct (decide (j = i)) as [->|Hne]; [rewrite list_lookup_insert_eq by lia; done|].
    rewrite list_lookup_insert_ne; [apply I; lia|]. intros E. pose proof (pos_range k f Hs off j).
    apply Z2Nat.inj, (pos_inj k f Hs) in E; rewrite ?Ee; lia.
  - intros p Hpp Hne. rewrite list_lookup_insert_ne; [apply O; [done|]; intros j Hj; apply Hne; lia|]. specialize (Hne i ltac:(lia)). lia.
Qed.

Lemma writer_bytes n buf r s c (m : nat) : 0 <= n <= 2 ^ k -> n * e <= Z.of_nat (length buf) -> Z.of_nat m <= n * e ->
  exists d, rtc step (Conc f (WCopy n buf 0) r s c) (Conc (set_data f d) (WCopy n buf (Z.of_nat m)) r s c) /\
    laid k f (in_ f) (Z.of_nat m) buf (data f) d.
Proof.
  intros Hn Hb. pose proof Hq as (Hwf&Ee&_). assert (Hs : shaped k f) by apply Hwf. destruct (queue_len _ _ _ _ Hq) as (_&_&He).
  induction m as [|m IH]; intros Hm.
  - exists (data f). split; [destruct f; apply rtc_refl|]. split_and!; [done|lia|done].
  - destruct IH as (d&Hsteps&Hl); [lia|]. destruct (lookup_lt_is_Some_2 buf (Z.to_nat (Z.of_nat m))) as [b Hlb]; [lia|].
    pose proof (pos_range k f Hs (in_ f) (Z.of_nat m)) as Hp. assert (Hcap : 2 ^ k * esize f <= Z.of_nat (length (data f))) by apply Hs.
    exists (<[Z.to_nat (pos k f (in_ f) (Z.of_nat m)) := b]> d). split.
    + eapply rtc_r; [exact Hsteps|]. replace (Z.of_nat (S m)) with (Z.of_nat m + 1) by lia.
      assert (Hsd : shaped k (set_data f d)) by (apply shaped_data; [apply Hl|done]).
      apply (w_byte (set_data f d) r s c n buf (Z.of_nat m) b); [simpl; rewrite Ee; lia|done|].
      rewrite (copy_addr_pos k) by (try done; simpl; rewrite ?Ee; lia).
      apply wr_Ok. destruct Hl as (L&_). change (pos k (set_data f d)) with (pos k f). simpl. lia.
    + replace (Z.of_nat (S m)) with (Z.of_nat m + 1) by lia. eapply laid_snoc; [nia|done|apply Hl|done|done].
Qed.

Lemma reader_bytes n w s c (m : nat) : 0 <= n <= 2 ^ k -> Z.of_nat m <= n * e ->
  rtc step (Conc f w (RCopy n []) s c) (Conc f w (RCopy n (ring k f (out f) (Z.of_nat m))) s c).
Proof.
  intros Hn. pose proof Hq as (Hwf&Ee&_). assert (Hs : shaped k f) by apply Hwf. destruct (queue_len _ _ _ _ Hq) as (_&_&He).
  induction m as [|m IH]; intros Hm; [apply rtc_refl|]. eapply rtc_r; [apply IH; lia|].
  pose proof (pos_range k f Hs (out f) (Z.of_nat m)) as Hp. assert (Hcap : 2 ^ k * esize f <= Z.of_nat (length (data f))) by apply Hs.
  destruct (rd_Ok (data f) (pos k f (out f) (Z.of_nat m))) as (b&Hb&Hlb); [lia|].
  assert (E : ring k f (out f) (Z.of_nat (S m)) = ring k f (out f) (Z.of_nat m) ++ [b]).
  { unfold ring. rewrite !Nat2Z.id, seq_S, map_app. simpl. do 2 f_equal. by apply list_lookup_total_correct. }
  rewrite E. apply r_byte; rewrite length_ring, Nat2Z.id; [rewrite Ee; lia|].
  by rewrite (copy_addr_pos k) by (try done; rewrite ?Ee; lia).
Qed.

Lemma in_steps buf len r s c : 0 <= len -> len * e <= Z.of_nat (length buf) ->
  exists n f', __kfifo_in f buf len = Ok (n, f') /\
    rtc step (Conc f WIdle r s c) (Conc f' WIdle r (s ++ take (Z.to_nat (n * e)) buf) c).
Proof.
  intros Hl Hb. pose proof Hq as (Hwf&Ee&_). assert (Hs : shaped k f) by apply Hwf. destruct (queue_len _ _ _ _ Hq) as (_&Hlen&He).
  pose proof (unused_eq k f Hwf) as Hu. unfold __kfifo_in. fold (clamp (kfifo_unused f) len).
  set (n := clamp (kfifo_unused f) len). assert (Hn : 0 <= n <= 2 ^ k /\ n <= len) by (unfold n, clamp; case_if; lia).
  assert (Hne : n * e <= 2 ^ k * e /\ n * e <= len * e /\ 0 <= n * e) by nia.
  destruct (copy_in_spec k f Hs buf n (in_ f)) as (d&->&Hlaid); [lia|rewrite Ee; lia|]. cbn [obind].
  eexists n, _. split; [done|]. eapply rtc_l; [apply (w_start f r s c buf len Hl); by rewrite Ee|]. fold n.
  destruct (writer_bytes n buf r s c (Z.to_nat (n * e))) as (d'&Hsteps&Hl'); [lia..|]. rewrite Z2Nat.id in Hsteps, Hl' by lia.
  assert (d' = d) as ->. { rewrite <- Ee in Hl'. eapply (laid_unique k f (in_ f) (n * esize f) buf); [done|rewrite Ee; lia|done..]. }
  eapply rtc_r; [exact Hsteps|]. pose proof (w_publish (set_data f d) r s c n buf) as Hpub. simpl in Hpub. rewrite Ee in Hpub. exact Hpub.
Qed.

Lemma out_steps dst len w s c : 0 <= len -> len * e <= Z.of_nat (length dst) ->
  exists n bytes f', __kfifo_out f dst len = Ok (n, bytes ++ drop (length bytes) dst, f') /\
    rtc step (Conc f w RIdle s c) (Conc f' w RIdle s (c ++ bytes)).
Proof.
  intros Hl Hb. pose proof Hq as (Hwf&Ee&_). assert (Hs : shaped k f) by apply Hwf. destruct (queue_len _ _ _ _ Hq) as (_&Hlen&He).
  unfold __kfifo_out, __kfifo_out_peek. fold (clamp (u32 (in_ f - out f)) len).
  set (n := clamp (u32 (in_ f - out f)) len). assert (Hn : 0 <= n <= 2 ^ k /\ n <= len) by (unfold n, clamp; fold (kfifo_len f); case_if; lia).
  assert (Hne : n * e <= len * e /\ 0 <= n * e) by nia.
  rewrite (copy_out_spec k f Hs) by (rewrite ?Ee; lia). cbn [obind]. rewrite Ee.
  exists n, (ring k f (out f) (n * e)). eexists. rewrite length_ring. split; [done|].
  eapply rtc_l; [apply (r_start f w s c len Hl)|]. fold n. pose proof (reader_bytes n w s c (Z.to_nat (n * e)) ltac:(lia) ltac:(lia)) as Hsteps.
  rewrite Z2Nat.id in Hsteps by lia. eapply rtc_r; [exact Hsteps|]. apply r_publish. rewrite length_ring, Ee. lia.
Qed.

End Sequential.
