(* ===== verification/KfifoDma.v ===== *)
(** * KfifoDma: the scatterlists set up for DMA transfers *)

From S2P Require Import Prelude Bits Kfifo KfifoFacts KfifoOps.

(** Consecutive addresses. *)
Definition addrs (a n : Z) : list Z := map (fun i => a + Z.of_nat i) (seq 0 (Z.to_nat n)).

Lemma addrs_app a n m : 0 <= n -> 0 <= m -> addrs a (n + m) = addrs a n ++ addrs (a + n) m.
Proof.
  intros Hn Hm. unfold addrs. rewrite Z2Nat.inj_add, seq_app, map_app by lia. f_equal. simpl.
  rewrite <- (Nat.add_0_r (Z.to_nat n)) at 1. rewrite <- fmap_add_seq, <- list_fmap_compose. apply map_ext. intros i. simpl. lia.
Qed.

Lemma map_addrs_ext (g h : Z -> Z) a n : (forall i, 0 <= i < n -> g (a + i) = h (a + i)) -> map g (addrs a n) = map h (addrs a n).
Proof.
  intros H. unfold addrs. rewrite !map_map. apply map_ext_in. intros i Hi. apply in_seq in Hi. apply H. lia.
Qed.

Lemma map_addrs_shift (g : Z -> Z) a b n : (forall i, 0 <= i < n -> g (a + i) = b + i) -> map g (addrs a n) = addrs b n.
Proof.
  intros H. unfold addrs. rewrite map_map. apply map_ext_in. intros i Hi. apply in_seq in Hi. apply H. lia.
Qed.

(** The physical bytes an entry describes. *)
Definition sg_bytes (s : scatterlist) : list Z := addrs (sg_page s + sg_offset s) (sg_len s).

(** The bytes of the entries [k .. k + n). *)
Definition described (sgl : list scatterlist) (k n : Z) : list Z :=
  concat (map sg_bytes (take (Z.to_nat n) (drop (Z.to_nat k) sgl))).

Lemma described_snoc sgl k n s : 0 <= k -> 0 <= n -> sgl !! Z.to_nat (k + n) = Some s ->
  described sgl k (n + 1) = described sgl k n ++ sg_bytes s.
Proof.
  intros Hk Hn Hs. unfold described. replace (Z.to_nat (n + 1)) with (S (Z.to_nat n)) by lia.
  rewrite (take_S_r _ _ s), map_app, concat_app; [simpl; by rewrite app_nil_r|]. rewrite lookup_drop. rewrite <- Hs. f_equal. lia.
Qed.

Lemma described_ext sgl sgl' k n : 0 <= k -> 0 <= n ->
  (forall j, k <= j < k + n -> sgl' !! Z.to_nat j = sgl !! Z.to_nat j) -> described sgl' k n = described sgl k n.
Proof.
  intros Hk Hn H. unfold described. do 2 f_equal. apply list_eq. intros i. destruct (decide (Z.of_nat i < n)).
  - rewrite !lookup_take_lt, !lookup_drop by lia. rewrite <- (Nat2Z.id (Z.to_nat k + i)). apply H. lia.
  - rewrite !lookup_take_ge by lia. done.
Qed.

Lemma described_app sgl k n m : 0 <= k -> 0 <= n -> 0 <= m -> described sgl k (n + m) = described sgl k n ++ described sgl (k + n) m.
Proof.
  intros Hk Hn Hm. unfold described. rewrite <- concat_app, <- map_app. do 2 f_equal.
  rewrite !Z2Nat.inj_add by lia. by rewrite <- drop_drop, <- take_take_drop.
Qed.

(** Only the last of the entries [k .. k + nents) may end the list. *)
Definition table (sgl : list scatterlist) (k nents : Z) : Prop :=
  k + nents <= Z.of_nat (length sgl) /\
  forall j s, k <= j < k + nents - 1 -> sgl !! Z.to_nat j = Some s -> sg_is_last s = false.

(** The entries outside [k .. k + n) and all end marks are kept. *)
Definition frame_sgl (sgl sgl' : list scatterlist) (k n : Z) : Prop :=
  length sgl' = length sgl /\
  forall j s, 0 <= j -> sgl !! Z.to_nat j = Some s ->
    exists s', sgl' !! Z.to_nat j = Some s' /\ sg_is_last s' = sg_is_last s /\ ((j < k \/ k + n <= j) -> s' = s).

Lemma frame_refl sgl k n : frame_sgl sgl sgl k n.
Proof. split; [done|]. intros j s _ Hs. eauto. Qed.

Lemma frame_trans a b c k n m : 0 <= n -> 0 <= m -> frame_sgl a b k n -> frame_sgl b c (k + n) m -> frame_sgl a c k (n + m).
Proof.
  intros Hn Hm [L1 F1] [L2 F2]. split; [congruence|]. intros j s Hj Hs.
  destruct (F1 j s Hj Hs) as (s1&H1&E1&K1). destruct (F2 j s1 Hj H1) as (s2&H2&E2&K2). exists s2. split; [done|]. split; [congruence|].
  intros Hout. rewrite K2, K1 by lia. done.
Qed.

Lemma frame_table a b k n nents : 0 <= k -> frame_sgl a b k n -> table a k nents -> table b k nents.
Proof.
  intros Hk [L F] [Hb Ht]. split; [congruence|]. intros j s Hj Hs.
  destruct (lookup_lt_is_Some_2 a (Z.to_nat j)) as [s0 Hs0]; [rewrite <- L; by eapply lookup_lt_Some|].
  destruct (F j s0 ltac:(lia) Hs0) as (s'&Hs'&E&_). rewrite Hs in Hs'. injection Hs' as <-. rewrite E. by eapply Ht.
Qed.

Lemma sg_set_page_spec sgl k page len off : 0 <= k < Z.of_nat (length sgl) ->
  exists sgl' s, sg_set_page sgl k page len off = Ok sgl' /\ frame_sgl sgl sgl' k 1 /\
    sgl' !! Z.to_nat k = Some s /\ sg_bytes s = addrs (page + off) len.
Proof.
  intros Hk. unfold sg_set_page. destruct (rd_Ok sgl k Hk) as (s&->&Hs). cbn [obind]. rewrite wr_Ok by done.
  eexists _, _. split; [done|]. split; [|split; [apply list_lookup_insert_eq; lia|done]].
  split; [apply length_insert|]. intros j s' Hj Hs'. destruct (decide (j = k)) as [->|Hne].
  - rewrite Hs in Hs'. injection Hs' as <-. rewrite list_lookup_insert_eq by lia. eexists. split; [done|]. split; [done|lia].
  - exists s'. rewrite list_lookup_insert_ne by lia. done.
Qed.

Section Dma.
Context (page_phys : Z -> Z).
(** Physical addresses leave room for a transfer of 32-bit length. *)
Hypothesis phys_range : forall p, 0 <= page_phys p < 2 ^ 64 - 2 ^ 33.

Definition phys (v : Z) : Z := page_phys (v / PAGE_SIZE) + v mod PAGE_SIZE.

(** The pages of a chunk of [l] bytes from page [p] on are contiguous. *)
Definition contiguous (p page l : Z) : Prop := forall j, 0 <= j <= l / PAGE_SIZE -> page_phys (p + j) = page + PAGE_SIZE * j.

Lemma chunk_phys p page l off n : contiguous p page l -> 0 <= off -> off + n <= l + PAGE_SIZE -> l mod PAGE_SIZE = 0 ->
  map phys (addrs (p * PAGE_SIZE + off) n) = addrs (page + off) n.
Proof.
  intros Hc Ho Hn Hl. apply map_addrs_shift. intros i Hi. unfold contiguous, phys, PAGE_SIZE in *.
  replace (p * 4096 + off + i) with (off + i + p * 4096) by lia. rewrite Z.div_add, Z.mod_add by lia.
  replace ((off + i) / 4096 + p) with (p + (off + i) / 4096) by lia. rewrite Hc.
  - pose proof (Z.div_mod (off + i) 4096 ltac:(lia)). lia.
  - split; [apply Z.div_pos; lia|]. pose proof (Z.div_mod l 4096 ltac:(lia)).
    assert ((off + i) / 4096 < l / 4096 + 1); [|lia]. apply Z.div_lt_upper_bound; lia.
Qed.

Lemma next_page page npage l : 0 <= page -> 0 <= npage < 2 ^ 64 -> 0 <= l -> page + l < 2 ^ 64 ->
  (page =? u64 (npage - l)) = (npage =? page + l).
Proof.
  intros Hp Hn Hl Hb. apply Bool.eq_true_iff_eq. rewrite !Z.eqb_eq. unfold wrap. split.
  - intros E. pose proof (Z.div_mod (npage - l) (2 ^ 64) ltac:(lia)). rewrite <- E in *.
    assert (npage - l = 2 ^ 64 * ((npage - l) / 2 ^ 64) + page) by lia. nia.
  - intros ->. rewrite Z.mod_small by lia. lia.
Qed.

(** ** The loop *)

Section Loop.
Context (k0 nents v0 E : Z).
Hypothesis Hk0 : 0 <= k0.

(** The state of the loop: [n] entries are written and describe the addresses
    from [v0] to the current chunk, which starts at offset [off] of the virtual
    page [p], is physically contiguous for [l] bytes of pages, and has [len]
    bytes left up to [E]. *)
Definition chunk (sgl : list scatterlist) (n p page len off l : Z) : Prop :=
  0 <= n < nents /\ table sgl k0 nents /\ 0 <= l /\ l mod PAGE_SIZE = 0 /\ 0 <= off < PAGE_SIZE /\
  0 <= len /\ len + off < 2 ^ 32 /\ p * PAGE_SIZE + off + len = E /\ v0 <= p * PAGE_SIZE + off /\ contiguous p page l /\
  described sgl k0 n = map phys (addrs v0 (p * PAGE_SIZE + off - v0)).

(** The loop left by [return]: all entries are used. *)
Definition used_up (sgl : list scatterlist) (n : Z) : Prop :=
  n = nents /\ exists m, 0 <= m <= E - v0 /\ described sgl k0 n = map phys (addrs v0 m).

(** One entry written for the chunk, up to the end of its last page. *)
Lemma emit sgl n p page len off l : chunk sgl n p page len off l -> l + PAGE_SIZE <= len + off ->
  exists sgl', sg_set_page sgl (k0 + n) page (l + PAGE_SIZE - off) off = Ok sgl' /\ frame_sgl sgl sgl' (k0 + n) 1 /\ table sgl' k0 nents /\
    described sgl' k0 (n + 1) = map phys (addrs v0 (p * PAGE_SIZE + l + PAGE_SIZE - v0)).
Proof.
  intros (Hn&Ht&Hl&Hlm&Ho&Hlen&Hb&HE&Hv&Hc&Hd) Hle. unfold PAGE_SIZE in *.
  destruct (sg_set_page_spec sgl (k0 + n) page (l + 4096 - off) off) as (sgl'&s&->&Hf&Hs&Hsb); [destruct Ht; lia|].
  exists sgl'. split; [done|]. split; [done|]. split.
  - apply (frame_table sgl sgl' k0 (n + 1)); [done| |done]. apply (frame_trans sgl sgl); [lia|lia|apply frame_refl|done].
  - rewrite (described_snoc sgl' k0 n s) by (done || lia). rewrite (described_ext sgl sgl'), Hd, Hsb; [|lia|lia|].
    + rewrite <- (chunk_phys p page l off (l + 4096 - off)) by (done || (unfold PAGE_SIZE; lia)). rewrite <- map_app. f_equal.
      replace (p * 4096 + l + 4096 - v0) with (p * 4096 + off - v0 + (l + 4096 - off)) by lia. rewrite addrs_app by lia. do 2 f_equal. unfold PAGE_SIZE. lia.
    + intros j Hj. destruct Hf as [L F]. destruct (lookup_lt_is_Some_2 sgl (Z.to_nat j)) as [x Hx]; [destruct Ht; lia|].
      destruct (F j x ltac:(lia) Hx) as (x'&Hx'&_&Hk). rewrite Hx, Hx', Hk by lia. done.
Qed.

(** The next page extends the chunk. *)
Lemma extend sgl n p page len off l : chunk sgl n p page len off l -> page_phys (p + l / PAGE_SIZE + 1) = page + (l + PAGE_SIZE) ->
  chunk sgl n p page len off (l + PAGE_SIZE).
Proof.
  intros (Hn&Ht&Hl&Hlm&Ho&Hlen&Hb&HE&Hv&Hc&Hd) Hnext. unfold chunk, PAGE_SIZE in *.
  assert (Hlm' : (l + 4096) mod 4096 = 0) by lia.
  split; [done|]. split; [done|]. split; [lia|]. split; [done|]. split; [done|]. split; [done|]. split; [done|]. split; [done|]. split; [done|]. split; [|done].
  intros j Hj. unfold PAGE_SIZE in *. destruct (decide (j <= l / 4096)); [apply Hc; unfold PAGE_SIZE; lia|].
  replace j with (l / 4096 + 1) by lia. replace (p + (l / 4096 + 1)) with (p + l / 4096 + 1) by lia. rewrite Hnext. lia.
Qed.

Lemma loop_spec fuel sgl n buf p page len off l :
  chunk sgl n p page len off l -> 0 <= len + off - l -> buf / PAGE_SIZE = p + l / PAGE_SIZE -> 0 <= buf -> 0 <= p ->
  buf + (len + off - l) < 2 ^ 64 -> (len + off - l) / PAGE_SIZE < Z.of_nat fuel ->
  exists sgl' r, setup_sgl_loop page_phys fuel sgl (k0 + n) n nents buf page len off l = Ok (sgl', r) /\
    match r with
    | inl (k', n', page', len', off') => k' = k0 + n' /\ n <= n' /\ frame_sgl sgl sgl' (k0 + n) (n' - n) /\
        exists p' l', chunk sgl' n' p' page' len' off' l' /\ off' + len' < l' + PAGE_SIZE
    | inr n' => n <= n' /\ frame_sgl sgl sgl' (k0 + n) (n' - n) /\ used_up sgl' n'
    end.
Proof.
  revert sgl n buf p page len off l. induction fuel as [|fuel IH]; intros sgl n buf p page len off l Hch Hrem Hbuf Hb0 Hp0 Hb Hf.
  { exfalso. pose proof (Z.div_pos (len + off - l) PAGE_SIZE ltac:(lia) ltac:(unfold PAGE_SIZE; lia)). lia. }
  pose proof Hch as (Hn&Ht&Hl&Hlm&Ho&Hlen&Hb32&HE&Hv&Hc&Hd). unfold PAGE_SIZE in Hlm, Ho, HE, Hv. cbn [setup_sgl_loop].
  change PAGE_SIZE with 4096 in *. rewrite (u64_small (l + 4096)), u64_small by (unfold ULLONG_MAX; lia).
  destruct (l + 4096 - off <=? len) eqn:Eg.
  2:{ eexists _, (inl _). split; [done|]. split; [done|]. split; [lia|]. split; [apply frame_refl|]. exists p, l. split; [done|]. unfold PAGE_SIZE. lia. }
  rewrite (u32_small (l + 4096)) by (unfold UINT_MAX; lia). rewrite (u64_small (buf + 4096)) by (unfold ULLONG_MAX; lia).
  assert (Hnb : (buf + 4096) / 4096 = p + l / 4096 + 1) by lia. rewrite Hnb.
  assert (Hpg : page = page_phys p). { specialize (Hc 0). rewrite !Z.add_0_r in Hc. symmetry. apply Hc. split; [lia|]. apply Z.div_pos; unfold PAGE_SIZE; lia. }
  pose proof (phys_range p). rewrite next_page; [|lia|pose proof (phys_range (p + l / 4096 + 1)); lia|lia|lia].
  destruct (page_phys (p + l / 4096 + 1) =? page + (l + 4096)) eqn:En; cbn [negb].
  - apply IH with (p := p); try lia. apply extend; [done|unfold PAGE_SIZE; lia].
  - destruct (emit sgl n p page len off l Hch) as (sgl1&Hset&Hfr&Ht1&Hd1); [unfold PAGE_SIZE; lia|].
    change PAGE_SIZE with 4096 in Hset, Hd1. rewrite (u32_small (l + 4096 - off)) by (unfold UINT_MAX; lia). rewrite Hset. cbn [obind].
    unfold sg_next. destruct (rd_Ok sgl1 (k0 + n)) as (s&->&Hs); [destruct Ht1; lia|]. cbn [obind].
    assert (Hused : n + 1 = nents -> used_up sgl1 (n + 1)).
    { intros Hlast. split; [done|]. eexists. split; [|exact Hd1]. lia. }
    destruct (sg_is_last s) eqn:Els; [|destruct (n + 1 =? nents) eqn:Ene].
    + eexists _, (inr _). split; [done|]. split; [lia|]. replace (n + 1 - n) with 1 by lia. split; [done|]. apply Hused.
      destruct (decide (n + 1 = nents)) as [|Hne]; [done|]. destruct Ht1 as [_ Ht1]. rewrite (Ht1 (k0 + n) s) in Els; [done|lia|done].
    + eexists _, (inr _). split; [done|]. split; [lia|]. replace (n + 1 - n) with 1 by lia. split; [done|]. apply Hused. lia.
    + replace (k0 + n + 1) with (k0 + (n + 1)) by lia. rewrite (u32_small (len - (l + 4096 - off))) by (unfold UINT_MAX; lia).
      assert (Hm : l / 4096 * 4096 = l) by lia.
      destruct (IH sgl1 (n + 1) (buf + 4096) (p + l / 4096 + 1) (page_phys (p + l / 4096 + 1)) (len - (l + 4096 - off)) 0 0)
        as (sgl2&r&Hr&Hpost); try (change (0 / 4096) with 0); try lia.
      { unfold chunk, PAGE_SIZE. split; [lia|]. split; [done|]. split; [lia|]. split; [done|]. split; [lia|]. split; [lia|]. split; [lia|].
        split; [lia|]. split; [lia|]. split.
        - intros j Hj. change (0 / PAGE_SIZE) with 0 in Hj. replace j with 0 by lia. by rewrite Z.add_0_r, Z.mul_0_r, Z.add_0_r.
        - rewrite Hd1. do 2 f_equal. lia. }
      exists sgl2, r. split; [exact Hr|]. destruct r as [[[[[k' n'] page'] len'] off']|n'].
      * destruct Hpost as (->&Hle&Hfr2&Hrest). split; [done|]. split; [lia|]. split; [|done].
        replace (n' - n) with (1 + (n' - (n + 1))) by lia. eapply frame_trans; [lia|lia|exact Hfr|]. by rewrite <- Z.add_assoc.
      * destruct Hpost as (Hle&Hfr2&Hrest). split; [lia|]. split; [|done].
        replace (n' - n) with (1 + (n' - (n + 1))) by lia. eapply frame_trans; [lia|lia|exact Hfr|]. by rewrite <- Z.add_assoc.
Qed.

End Loop.

(** The entries describe the first [m] bytes of the buffer, all of them unless
    the table is used up. *)
Definition covers (sgl : list scatterlist) (k n nents v len m : Z) : Prop :=
  0 <= n <= nents /\ 0 <= m <= len /\ (n < nents -> m = len) /\ described sgl k n = map phys (addrs v m).

Lemma setup_sgl_buf_spec sgl k buf nents len : 0 <= k -> 0 <= nents -> table sgl k nents -> 0 <= len -> len + PAGE_SIZE <= 2 ^ 32 ->
  0 <= buf -> buf + len + PAGE_SIZE < 2 ^ 64 ->
  exists sgl' n m, setup_sgl_buf page_phys sgl k buf nents len = Ok (sgl', n) /\ frame_sgl sgl sgl' k n /\ covers sgl' k n nents buf len m.
Proof.
  intros Hk Hne Ht Hl Hl32 Hb Hb64. unfold setup_sgl_buf.
  destruct (nents =? 0) eqn:En.
  { exists sgl, 0, 0. split; [done|]. split; [apply frame_refl|]. split; [lia|]. split; [lia|]. split; [lia|done]. }
  destruct (len =? 0) eqn:El.
  { exists sgl, 0, 0. split; [done|]. split; [apply frame_refl|]. split; [lia|]. split; [lia|]. split; [lia|done]. }
  pose proof (Z.div_mod buf PAGE_SIZE ltac:(unfold PAGE_SIZE; lia)) as Hdm. pose proof (Z.mod_pos_bound buf PAGE_SIZE ltac:(unfold PAGE_SIZE; lia)) as Hm.
  unfold PAGE_SIZE in *.
  destruct (loop_spec k nents buf (buf + len) Hk (Z.to_nat (len / 4096) + 2) sgl 0 buf (buf / 4096) (page_phys (buf / 4096)) len (buf mod 4096) 0)
    as (sgl1&r&Hr&Hpost); try (unfold PAGE_SIZE; change (0 / 4096) with 0; lia).
  { unfold chunk, PAGE_SIZE. split; [lia|]. split; [done|]. split; [lia|]. split; [done|]. split; [lia|]. split; [lia|]. split; [lia|].
    split; [lia|]. split; [lia|]. split.
    - intros j Hj. change (0 / PAGE_SIZE) with 0 in Hj. replace j with 0 by lia. by rewrite Z.add_0_r, Z.mul_0_r, Z.add_0_r.
    - replace (buf / 4096 * 4096 + buf mod 4096 - buf) with 0 by lia. done. }
  rewrite Z.add_0_r in Hr. rewrite Hr. cbn [obind]. destruct r as [[[[[k' n'] page'] len'] off']|n'].
  - destruct Hpost as (->&Hn'&Hfr&p'&l'&Hch&Hlt). pose proof Hch as (Hn&Ht1&Hl'&Hlm&Ho&Hlen&Hb32&HE&Hv&Hc&Hd).
    destruct (sg_set_page_spec sgl1 (k + n') page' len' off') as (sgl2&s&->&Hf&Hs&Hsb); [destruct Ht1; lia|]. cbn [obind].
    rewrite Z.add_0_r, Z.sub_0_r in Hfr. exists sgl2, (n' + 1), len. split; [done|]. split; [eapply frame_trans; [lia|lia|exact Hfr|exact Hf]|].
    split; [lia|]. split; [lia|]. split; [done|].
    rewrite (described_snoc sgl2 k n' s) by (done || lia). rewrite (described_ext sgl1 sgl2), Hd, Hsb; [|lia|lia|].
    + rewrite <- (chunk_phys p' page' l' off' len') by (done || (unfold PAGE_SIZE in *; lia)). rewrite <- map_app. f_equal.
      replace len with (p' * PAGE_SIZE + off' - buf + len') by lia. rewrite addrs_app by lia. do 2 f_equal. lia.
    + intros j Hj. destruct Hf as [L F]. destruct (lookup_lt_is_Some_2 sgl1 (Z.to_nat j)) as [x Hx]; [destruct Ht1; lia|].
      destruct (F j x ltac:(lia) Hx) as (x'&Hx'&_&Hkeep). rewrite Hx, Hx', Hkeep by lia. done.
  - destruct Hpost as (Hn'&Hfr&->&m&Hm'&Hd). rewrite Z.add_0_r, Z.sub_0_r in Hfr. exists sgl1, nents, m. split; [done|]. split; [done|].
    split; [lia|]. split; [lia|]. split; [lia|done].
Qed.

(** ** The fifo *)

Context (base : Z).

(** The physical addresses of the [n] bytes of the ring from element [idx]. *)
Definition ring_phys (k : Z) (f : __kfifo) (idx n : Z) : list Z := map (fun i => phys (base + pos k f idx i)) (addrs 0 n).

Lemma setup_sgl_spec k f sgl nents len off : shaped k f -> 0 <= nents -> table sgl 0 nents -> 0 <= len <= 2 ^ k ->
  2 ^ k * esize f + PAGE_SIZE <= 2 ^ 32 -> 0 <= base -> base + 2 * 2 ^ 32 < 2 ^ 64 ->
  exists sgl' n m, setup_sgl page_phys base f sgl nents len off = Ok (sgl', n) /\
    0 <= n <= nents /\ 0 <= m <= len * esize f /\ (n < nents -> m = len * esize f) /\
    described sgl' 0 n = ring_phys k f off m.
Proof.
  intros Hs Hne Ht Hlen Hcap32 Hb Hb64. unfold setup_sgl. rewrite (split_copy_eq k f Hs) by done.
  pose proof (size_pos k f Hs) as Hk. pose proof (Z.mod_pos_bound off (2 ^ k) ltac:(lia)) as Hmo. assert (He : 1 <= esize f) by apply Hs.
  remember (off mod 2 ^ k * esize f) as o eqn:Eo. assert (Ho : 0 <= o < 2 ^ k * esize f) by (subst o; nia).
  assert (HN : 0 <= len * esize f <= 2 ^ k * esize f) by nia.
  assert (Hpos : forall i, 0 <= i < len * esize f -> pos k f off i = if o + i <? 2 ^ k * esize f then o + i else o + i - 2 ^ k * esize f).
  { intros i Hi. rewrite Eo. apply (pos_offset k f Hs); lia. }
  remember (len * esize f) as N. remember (2 ^ k * esize f) as C. remember (Z.min N (C - o)) as l.
  unfold PAGE_SIZE in *. rewrite (u64_small (base + o)), (u32_small (N - l)) by (unfold ULLONG_MAX, UINT_MAX; lia).
  destruct (setup_sgl_buf_spec sgl 0 (base + o) nents l) as (sgl1&n1&m1&->&Hf1&Hn1&Hm1&Hall1&Hd1); [lia|lia|done|unfold PAGE_SIZE; lia..|]. cbn [obind].
  assert (Ht2 : table sgl1 n1 (nents - n1)).
  { pose proof (frame_table sgl sgl1 0 n1 nents ltac:(lia) Hf1 Ht) as [HL HT]. split; [lia|]. intros j s Hj. apply HT. lia. }
  destruct (setup_sgl_buf_spec sgl1 n1 base (nents - n1) (N - l)) as (sgl2&n2&m2&->&Hf2&Hn2&Hm2&Hall2&Hd2); [lia|lia|done|unfold PAGE_SIZE; lia..|]. cbn [obind].
  assert (Hfirst : described sgl2 0 n1 = map phys (addrs (base + o) m1)).
  { rewrite (described_ext sgl1 sgl2), Hd1; [done|lia|lia|]. intros j Hj. destruct Hf2 as [L F].
    destruct Ht2 as [HL _]. destruct (lookup_lt_is_Some_2 sgl1 (Z.to_nat j)) as [x Hx]; [lia|].
    destruct (F j x ltac:(lia) Hx) as (x'&Hx'&_&Hkeep). rewrite Hx, Hx', Hkeep by lia. done. }
  assert (Hring1 : map phys (addrs (base + o) m1) = ring_phys k f off m1).
  { unfold ring_phys, addrs. rewrite !map_map. apply map_ext_in. intros i Hi. apply in_seq in Hi. rewrite Hpos by lia. simpl.
    replace (o + _ <? C) with true by lia. f_equal. lia. }
  exists sgl2, (n1 + n2), (m1 + m2). split; [done|]. split; [lia|]. split; [lia|]. split; [lia|].
  rewrite described_app by lia. rewrite Hfirst, Hring1, Z.add_0_l, Hd2.
  destruct (decide (n1 < nents)) as [Hlt|Hge].
  - rewrite Hall1 in * by done. unfold ring_phys. rewrite addrs_app, map_app by lia. f_equal.
    unfold addrs. rewrite !map_map. apply map_ext_in. intros i Hi. apply in_seq in Hi. rewrite Hpos by lia.
    replace (o + _ <? C) with false by lia. f_equal. lia.
  - assert (Hn20 : n2 = 0) by lia. subst n2. change (described sgl2 n1 0) with (@nil Z) in Hd2.
    assert (m2 = 0) as ->. { apply (f_equal length) in Hd2. unfold addrs in Hd2. rewrite length_map, length_map, length_seq in Hd2. simpl in Hd2. lia. }
    by rewrite Z.add_0_r, app_nil_r.
Qed.

End Dma.
