(* ===== verification/KfifoProps.v ===== *)
(** * KfifoProps: theorems about the kfifo *)

From stdpp Require Import relations.
From S2P Require Import Prelude Bits Kfifo KfifoFacts KfifoOps KfifoRecords KfifoUser KfifoSpsc KfifoDma.

(** ** The abstract queue of elements *)




(** The same calls on a queue of at most [size] elements of [e] bytes. *)
Section Spec.
Context (size e : Z).






End Spec.

Section Refinement.
Context (k e : Z).



End Refinement.

(** ** Records *)

Inductive rec_op :=
| RIn (buf : list Z)
| ROut (dst : list Z)
| RPeek (dst : list Z)
| RLen
| RSkip.

Section RecordSpec.
Context (k r : Z).

Definition rec_exec (o : rec_op) (f : __kfifo) : outcome (Z * list Z * __kfifo) :=
  match o with
  | RIn buf => let* (n, f) := kfifo_in f buf (Z.of_nat (length buf)) r in Ok (n, [], f)
  | ROut dst => kfifo_out f dst (Z.of_nat (length dst)) r
  | RPeek dst => let* (n, b) := kfifo_out_peek f dst (Z.of_nat (length dst)) r in Ok (n, b, f)
  | RLen => let* n := kfifo_peek_len f r in Ok (n, [], f)
  | RSkip => let* f := kfifo_skip f r in Ok (0, [], f)
  end.

(** The bytes that records take in the fifo. *)
Definition used (recs : list (list Z)) : Z := Z.of_nat (length (concat (map (frame r) recs))).

(** Copy a record into a buffer, truncated to it. *)
Definition fill (rec dst : list Z) : Z * list Z :=
  let n := Nat.min (length dst) (length rec) in (Z.of_nat n, take n rec ++ drop n dst).

Definition rec_spec (o : rec_op) (recs : list (list Z)) : Z * list Z * list (list Z) :=
  match o, recs with
  | RIn buf, _ => if 2 ^ k - used recs <? Z.of_nat (length buf) + r then (0, [], recs)
                  else (Z.of_nat (length buf), [], recs ++ [buf])
  | ROut dst, rec :: recs => (fill rec dst, recs)
  | RPeek dst, rec :: recs => (fill rec dst, rec :: recs)
  | RLen, rec :: recs => (Z.of_nat (length rec), [], rec :: recs)
  | RSkip, rec :: recs => (0, [], recs)
  | ROut dst, [] | RPeek dst, [] => (0, dst, [])
  | RLen, [] | RSkip, [] => (0, [], [])
  end.

(** The caller passes records whose length fits the length field, or that find no
    room in the fifo, and does not ask for the length of a record, or skip one,
    when there is none. *)
Definition rec_valid (o : rec_op) (recs : list (list Z)) : bool :=
  match o with
  | RIn buf => (Z.of_nat (length buf) <? 2 ^ 32) && ((Z.of_nat (length buf) <? 2 ^ (8 * r)) || (2 ^ k - used recs <? Z.of_nat (length buf) + r))
  | ROut dst | RPeek dst => Z.of_nat (length dst) <? 2 ^ 32
  | RLen | RSkip => negb (Nat.eqb (length recs) 0)
  end.

Fixpoint rec_exec_all (os : list rec_op) (f : __kfifo) : outcome (list (Z * list Z) * __kfifo) :=
  match os with
  | [] => Ok ([], f)
  | o :: os => let* (n, b, f) := rec_exec o f in let* (rs, f) := rec_exec_all os f in Ok ((n, b) :: rs, f)
  end.

Fixpoint rec_spec_all (os : list rec_op) (recs : list (list Z)) : list (Z * list Z) * list (list Z) :=
  match os with
  | [] => ([], recs)
  | o :: os => let '(n, b, recs) := rec_spec o recs in let '(rs, recs) := rec_spec_all os recs in ((n, b) :: rs, recs)
  end.

Fixpoint rec_valid_all (os : list rec_op) (recs : list (list Z)) : bool :=
  match os with
  | [] => true
  | o :: os => rec_valid o recs && (let '(_, _, recs) := rec_spec o recs in rec_valid_all os recs)
  end.

Hypothesis Hr : r = 1 \/ r = 2.

Lemma used_len f recs : records k r f recs -> used recs = kfifo_len f.
Proof. intros [Hq _]. destruct (queue_len _ _ _ _ Hq) as (Hl&_). unfold used. lia. Qed.

Lemma fill_eq rec dst : let n := Z.min (Z.of_nat (length dst)) (Z.of_nat (length rec)) in
  fill rec dst = (n, take (Z.to_nat n) rec ++ drop (Z.to_nat n) dst).
Proof. simpl. unfold fill. rewrite <- Nat2Z.inj_min, Nat2Z.id. done. Qed.

Lemma rec_exec_spec o f recs : records k r f recs -> rec_valid o recs = true ->
  exists f', rec_exec o f = Ok (fst (rec_spec o recs), f') /\ records k r f' (snd (rec_spec o recs)).
Proof.
  intros Hrec Hv. assert (Hr0 : (r =? 0) = false) by lia. pose proof (used_len f recs Hrec) as Hu.
  unfold rec_exec, rec_spec, rec_valid, kfifo_in, kfifo_out, kfifo_out_peek, kfifo_peek_len, __kfifo_len_r, kfifo_skip in *. rewrite Hr0, Hu. cbn [negb].
  destruct o as [buf|dst|dst| |].
  - apply andb_prop in Hv as [H32 Hv]. rewrite u32_small by (unfold UINT_MAX; lia). rewrite Hu in Hv. case_if.
    + destruct Hrec as [Hq Hall]. pose proof (in_r_bytes k r f _ Hq Hr buf (Z.of_nat (length buf)) ltac:(lia) ltac:(lia)) as Hin.
      replace (_ <? _) with true in Hin by lia. rewrite Hin. cbn [obind]. by eexists.
    + pose proof (in_r_spec k r f Hr recs buf (Z.of_nat (length buf)) Hrec ltac:(lia) ltac:(lia)) as Hin. replace (_ <? _) with false in Hin by lia.
      destruct Hin as (f'&->&Hrec'). cbn [obind]. rewrite take_ge in Hrec' by lia. eauto.
  - rewrite u32_small by (unfold UINT_MAX; lia). pose proof (out_r_spec k r f Hr recs dst (Z.of_nat (length dst)) Hrec ltac:(lia)) as Ho.
    destruct recs as [|rec recs]; [rewrite Ho; eauto|]. destruct Ho as (f'&->&?); [lia|]. rewrite fill_eq. eauto.
  - rewrite u32_small by (unfold UINT_MAX; lia). pose proof (out_peek_r_spec k r f Hr recs dst (Z.of_nat (length dst)) Hrec ltac:(lia)) as Ho.
    destruct recs as [|rec recs]; [rewrite Ho; cbn [obind]; eauto|]. rewrite Ho by lia. cbn [obind]. rewrite fill_eq. eauto.
  - destruct recs as [|rec recs]; [done|]. rewrite (front_peek k r f Hr rec recs Hrec). cbn [obind]. eauto.
  - destruct recs as [|rec recs]; [done|]. destruct (skip_r_spec k r f Hr rec recs Hrec) as (f'&->&?). cbn [obind]. eauto.
Qed.

Lemma rec_exec_all_spec os f recs : records k r f recs -> rec_valid_all os recs = true ->
  exists f', rec_exec_all os f = Ok (fst (rec_spec_all os recs), f') /\ records k r f' (snd (rec_spec_all os recs)).
Proof.
  revert f recs. induction os as [|o os IH]; intros f recs Hq Hv; cbn [rec_exec_all rec_spec_all rec_valid_all] in *; [eauto|].
  apply andb_true_iff in Hv as [Hv Hvs]. destruct (rec_exec_spec o f recs Hq Hv) as (f1&->&Hq1).
  destruct (rec_spec o recs) as [[n b] recs1]. cbn [fst snd obind] in *. destruct (IH f1 recs1 Hq1 Hvs) as (f2&->&Hq2).
  destruct (rec_spec_all os recs1) as [rs recs2]. cbn [fst snd obind] in *. eauto.
Qed.

End RecordSpec.

(** ** Theorems *)




(** C11: A record fifo on a buffer of [2 ^ k] bytes behaves as a queue of
    records under every sequence of calls that keeps two conditions: a record
    that finds room in the fifo is short enough for its length to fit the length
    field of [r] bytes, and the length of the next record is asked for, or a
    record skipped, only when there is one. A record is stored whole or, if it
    does not fit, not at all; and reading returns the oldest record, truncated to
    the destination, whole records being consumed. (The code checks neither
    condition: [__kfifo_in_r] truncates the length of a longer record, and an empty
    fifo is asked for the length in stale bytes.) *)
Theorem kfifo_records_refine k r buffer :
  1 <= k <= 31 -> r = 1 \/ r = 2 -> Z.of_nat (length buffer) = 2 ^ k ->
  exists f, __kfifo_init buffer (2 ^ k) 1 = Ok (0, f) /\
    forall os, rec_valid_all k r os [] = true ->
      exists f', rec_exec_all r os f = Ok (fst (rec_spec_all k r os []), f') /\ records k r f' (snd (rec_spec_all k r os [])).
Proof.
  intros Hk Hr Hb. pose proof (Z.pow_le_mono_r 2 k 31 ltac:(lia) ltac:(lia)).
  destruct (init_spec buffer (2 ^ k) 1 k) as (f&Hi&Hwf&Ee&Hc); [done|lia|lia|lia|done|].
  exists f. split; [done|]. intros os Hv. apply rec_exec_all_spec; [done| |done]. split; [|apply Forall_nil_2].
  refine (conj Hwf (conj Ee _)). done.
Qed.

Definition sample_recs : list rec_op :=
  [RIn [1; 2; 3]; RIn [4]; RIn [5; 6; 7]; RIn (replicate 300 1); RLen; RPeek [0; 0]; ROut [0; 0; 0; 0]; RIn [5; 6; 7]; RSkip; ROut [0; 0; 0]; ROut [9]].

Lemma kfifo_records_refine_witness :
  exists f f', __kfifo_init (replicate 8 0) 8 1 = Ok (0, f) /\
    rec_exec_all 1 sample_recs f =
      Ok ([(3, []); (1, []); (0, []); (0, []); (3, []); (2, [1; 2]); (3, [1; 2; 3; 0]); (3, []); (0, []); (3, [5; 6; 7]); (0, [9])], f').
Proof.
  destruct (kfifo_records_refine 3 1 (replicate 8 0)) as (f&Hi&Hall); [lia|by left|done|].
  destruct (Hall sample_recs eq_refl) as (f'&Hf'&_). exists f, f'. split; [exact Hi|exact Hf'].
Defined.

(** C10: One writer and one reader need no lock. However the actions of a writer
    in [__kfifo_in] and a reader in [__kfifo_out] interleave, every access is
    in bounds, the bytes received are a prefix of the bytes sent with exactly
    the queue in between, and a read in progress has loaded bytes of the
    queue; and each call alone takes these steps. *)
Theorem kfifo_spsc k e f c :
  queue k f e [] -> rtc step (Conc f WIdle RIdle [] []) c ->
  in_bounds c /\
  (exists q, queue k (fifo c) e q /\ sent c = received c ++ q /\
     match rpc c with RIdle => True | RCopy _ acc => acc = take (length acc) q end) /\
  (forall buf len r s d, 0 <= len -> len * e <= Z.of_nat (length buf) ->
     exists n f', __kfifo_in (fifo c) buf len = Ok (n, f') /\
       rtc step (Conc (fifo c) WIdle r s d) (Conc f' WIdle r (s ++ take (Z.to_nat (n * e)) buf) d)) /\
  (forall dst len w s d, 0 <= len -> len * e <= Z.of_nat (length dst) ->
     exists n bytes f', __kfifo_out (fifo c) dst len = Ok (n, bytes ++ drop (length bytes) dst, f') /\
       rtc step (Conc (fifo c) w RIdle s d) (Conc f' w RIdle s (d ++ bytes))).
Proof.
  intros Hq Hsteps. assert (Hinv : inv k e c) by (eapply inv_reachable; [|done]; exists []; done).
  pose proof Hinv as (q&Hq'&_&Hr&Hh). split; [by apply (inv_in_bounds k e)|]. split; [|split].
  - exists q. split; [done|]. split; [done|]. destruct (rpc c); [done|]. destruct Hr as (_&_&Hr). destruct Hq' as (_&_&<-). done.
  - intros. by apply (in_steps k e _ q).
  - intros. by apply (out_steps k e _ q).
Qed.

Definition fifo4 : __kfifo := Kfifo (2 ^ 32 - 1) (2 ^ 32 - 1) 3 1 [0; 0; 0; 0].

Lemma fifo4_queue : queue 2 fifo4 1 [].
Proof. refine (conj _ (conj eq_refl eq_refl)). unfold wf, shaped. simpl. unfold kfifo_len. simpl. change (u32 _) with 0. lia. Qed.

(** The counters wrap while a read is in progress. *)
Lemma kfifo_spsc_witness : exists c, rtc step (Conc fifo4 WIdle RIdle [] []) c /\
  sent c = [7; 8] /\ rpc c = RCopy 2 [7] /\ in_bounds c.
Proof.
  assert (H : rtc step (Conc fifo4 WIdle RIdle [] []) (Conc (Kfifo 1 (2 ^ 32 - 1) 3 1 [8; 0; 0; 7]) WIdle (RCopy 2 [7]) [7; 8] [])).
  { eapply rtc_l; [apply (w_start fifo4 RIdle [] [] [7; 8] 2); simpl; lia|]. simpl.
    eapply rtc_l; [eapply w_byte; [vm_compute; reflexivity|reflexivity|reflexivity]|].
    eapply rtc_l; [eapply w_byte; [vm_compute; reflexivity|reflexivity|reflexivity]|].
    eapply rtc_l; [refine (w_publish (Kfifo (2 ^ 32 - 1) (2 ^ 32 - 1) 3 1 [8; 0; 0; 7]) RIdle [] [] 2 [7; 8])|].
    eapply rtc_l; [eapply (r_start _ _ _ _ 5); lia|].
    eapply rtc_l; [eapply r_byte; [simpl; vm_compute; reflexivity|reflexivity]|]. apply rtc_refl. }
  eexists. split; [exact H|]. split; [done|]. split; [done|]. apply (kfifo_spsc 2 1 fifo4 _ fifo4_queue H).
Defined.

(** Transfers from and to user space account for exactly what they moved.
    On a fault [-EFAULT] is returned, the counters advance by the whole elements
    that were moved, [*copied] is their size and the bytes are those of the
    queue and of user memory; an accessible buffer gives 0. *)
Theorem kfifo_user_correct fault k f e q ubuf addr len :
  (forall a n, 0 <= n -> 0 <= fault a n <= n) -> queue k f e q -> 0 <= len < 2 ^ 64 ->
  (let n := Z.min (len / e) (2 ^ k - kfifo_len f) in
   exists err copied m f', __kfifo_from_user fault f ubuf addr len = Ok (err, copied, f') /\
     progress e err copied n m /\ (accessible fault addr (n * e) -> err = 0) /\
     queue k f' e (q ++ user_bytes ubuf addr (m * e))) /\
  (let n := Z.min (len / e) (kfifo_len f) in
   exists err copied m ubuf' f', __kfifo_to_user fault f ubuf addr len = Ok (err, copied, ubuf', f') /\
     progress e err copied n m /\ (accessible fault addr (n * e) -> err = 0) /\
     (forall i, 0 <= i < m * e -> Some (ubuf' (addr + i)) = q !! Z.to_nat i) /\
     (forall a, a < addr \/ addr + n * e <= a -> ubuf' a = ubuf a) /\
     queue k f' e (drop (Z.to_nat (m * e)) q)).
Proof. intros Hf Hq Hl. split; [by apply from_user_spec|by apply to_user_spec]. Qed.

(** User memory that ends at address 103. *)
Definition fault103 (a n : Z) : Z := Z.max 0 (Z.min n (a + n - 103)).

Lemma kfifo_user_correct_witness :
  (forall a n, 0 <= n -> 0 <= fault103 a n <= n) /\
  exists f', __kfifo_from_user fault103 (Kfifo 3 3 3 2 (replicate 8 0)) (fun a => a) 100 6 = Ok (- EFAULT, 2, f') /\
    queue 2 f' 2 [100; 101].
Proof.
  assert (Hf : forall a n, 0 <= n -> 0 <= fault103 a n <= n) by (intros; unfold fault103; lia).
  assert (Hq : queue 2 (Kfifo 3 3 3 2 (replicate 8 0)) 2 []).
  { refine (conj _ (conj eq_refl eq_refl)). unfold wf, shaped. simpl. unfold kfifo_len. simpl. change (u32 _) with 0. lia. }
  split; [exact Hf|]. destruct (kfifo_user_correct fault103 2 _ 2 [] (fun a => a) 100 6 Hf Hq ltac:(lia)) as [(err&copied&m&f'&He&Hp&_&Hq') _].
  vm_compute in He. injection He as <- <- <-. destruct Hp as (_&Hc&_). assert (m = 1) as -> by lia.
  eexists. split; [vm_compute; reflexivity|]. exact Hq'.
Defined.

(** The scatterlist set up for a DMA transfer names, in order, the physical
    address of each byte of the free room (or of the queue), in physically
    contiguous pieces; it stops early only when the table is used up. *)
Theorem kfifo_dma_correct page_phys base k f sgl nents len :
  (forall p, 0 <= page_phys p < 2 ^ 64 - 2 ^ 33) -> wf k f -> 0 <= nents -> table sgl 0 nents -> 0 <= len ->
  2 ^ k * esize f + PAGE_SIZE <= 2 ^ 32 -> 0 <= base -> base + 2 * 2 ^ 32 < 2 ^ 64 ->
  (exists sgl' n m, __kfifo_dma_in_prepare page_phys base f sgl nents len = Ok (sgl', n) /\
     let N := Z.min len (2 ^ k - kfifo_len f) * esize f in
     0 <= n <= nents /\ 0 <= m <= N /\ (n < nents -> m = N) /\ described sgl' 0 n = ring_phys page_phys base k f (in_ f) m) /\
  (exists sgl' n m, __kfifo_dma_out_prepare page_phys base f sgl nents len = Ok (sgl', n) /\
     let N := Z.min len (kfifo_len f) * esize f in
     0 <= n <= nents /\ 0 <= m <= N /\ (n < nents -> m = N) /\ described sgl' 0 n = ring_phys page_phys base k f (out f) m).
Proof.
  intros Hp Hwf Hn Ht Hl Hc Hb Hb64. pose proof (len_range k f Hwf). pose proof (size_pos k f (proj1 Hwf)). split.
  - unfold __kfifo_dma_in_prepare. rewrite (unused_eq k f Hwf).
    replace (if _ <? len then _ else len) with (Z.min len (2 ^ k - kfifo_len f)) by (case_if; lia).
    apply setup_sgl_spec; try done; try apply Hwf; lia.
  - unfold __kfifo_dma_out_prepare. fold (kfifo_len f).
    replace (if _ <? len then _ else len) with (Z.min len (kfifo_len f)) by (case_if; lia).
    apply setup_sgl_spec; try done; try apply Hwf; lia.
Qed.

(** A buffer over two pages that are not contiguous, and a ring that wraps. *)
Lemma kfifo_dma_correct_witness :
  let pp := fun p => if p =? 1 then 0x9000 else 0x4000 in
  let f := Kfifo 6 6 7 1 (replicate 8 0) in
  let sgl := replicate 4 (Sg 0 0 0 false) in
  (forall p, 0 <= pp p < 2 ^ 64 - 2 ^ 33) /\ wf 3 f /\
  exists sgl' n m, __kfifo_dma_in_prepare pp 8189 f sgl 4 8 = Ok (sgl', n) /\ (n < 4 -> m = 8) /\ described sgl' 0 n = ring_phys pp 8189 3 f 6 m.
Proof.
  assert (Hp : forall p, 0 <= (if p =? 1 then 0x9000 else 0x4000) < 2 ^ 64 - 2 ^ 33) by (intros p; case_if; lia).
  assert (Hwf : wf 3 (Kfifo 6 6 7 1 (replicate 8 0))).
  { unfold wf, shaped. simpl. unfold kfifo_len. simpl. change (u32 _) with 0. lia. }
  assert (Ht : table (replicate 4 (Sg 0 0 0 false)) 0 4).
  { split; [simpl; lia|]. intros j s _ Hs. apply lookup_replicate in Hs as [-> _]. done. }
  simpl. split; [exact Hp|]. split; [exact Hwf|].
  destruct (kfifo_dma_correct _ 8189 3 _ _ 4 8 Hp Hwf ltac:(lia) Ht ltac:(lia) ltac:(unfold PAGE_SIZE; simpl; lia) ltac:(lia) ltac:(lia)) as [(sgl'&n&m&He&_&_&Hm&Hd) _].
  exists sgl', n, m. split; [exact He|]. split; [exact Hm|exact Hd].
Defined.

(** [__kfifo_init] rounds the size of the buffer it is given up to a power
    of two: on a buffer of any other size it returns 0, and a call that fills
    the fifo writes past the end of the buffer. *)
Theorem kfifo_init_overflow k buffer buf :
  1 <= k <= 30 -> 2 ^ k < Z.of_nat (length buffer) < 2 ^ (k + 1) -> Z.of_nat (length buf) = Z.of_nat (length buffer) + 1 ->
  exists f, __kfifo_init buffer (Z.of_nat (length buffer)) 1 = Ok (0, f) /\
    __kfifo_in f buf (Z.of_nat (length buffer) + 1) = Oops.
Proof.
  intros Hk Hb Hl. remember (Z.of_nat (length buffer)) as n. pose proof (Z.pow_le_mono_r 2 (k + 1) 31 ltac:(lia) ltac:(lia)) as Hmax.
  pose proof (Z.pow_le_mono_r 2 1 k ltac:(lia) ltac:(lia)). rewrite Z.pow_add_r in * by lia. change (2 ^ 1) with 2 in *.
  assert (Hlog : Z.log2_up n = Z.succ k).
  { apply Z.log2_up_unique; [lia|]. rewrite Z.pred_succ, Z.pow_succ_r by lia. lia. }
  unfold __kfifo_init. change (1 =? 0) with false. cbv iota. rewrite Z.div_1_r, roundup_pow_of_two_spec, Hlog, Z.pow_succ_r by lia.
  rewrite (u32_small (2 * 2 ^ k)) by (unfold UINT_MAX; lia). replace (2 * 2 ^ k <? 2) with false by lia.
  eexists. split; [done|]. rewrite (u32_small (2 * 2 ^ k - 1)) by (unfold UINT_MAX; lia).
  unfold __kfifo_in, kfifo_unused. simpl. rewrite Z.sub_add. change (u32 (0 - 0)) with 0.
  rewrite !(u32_small (2 * 2 ^ k)), Z.sub_0_r, u32_small by (unfold UINT_MAX; lia). replace (2 * 2 ^ k <? n + 1) with false by lia.
  unfold kfifo_copy_in, split_copy. simpl. rewrite Z.sub_add, (u32_small (2 * 2 ^ k)) by (unfold UINT_MAX; lia).
  rewrite Z.land_0_l, Z.sub_0_r, u32_small by (unfold UINT_MAX; lia). replace (2 * 2 ^ k <? n + 1) with false by lia.
  rewrite Z.min_l by lia.
  unfold memcpy at 1. replace (n + 1 =? 0) with false by lia. rewrite <- Heqn. by replace (_ || _) with true by lia.
Qed.

Lemma kfifo_init_overflow_witness :
  exists f, __kfifo_init (replicate 5 0) 5 1 = Ok (0, f) /\ __kfifo_in f (replicate 6 1) 6 = Oops.
Proof. apply (kfifo_init_overflow 2 (replicate 5 0) (replicate 6 1)); simpl; lia. Defined.

(** [kfifo_in] on a record fifo does not limit the record to what the
    length field can hold, as [__kfifo_from_user_r] does: the record is stored
    whole under a length reduced modulo 256, and its tail is read back as
    further records. *)
Theorem kfifo_in_r_truncates_length k f buf :
  queue k f 1 [] -> 256 <= Z.of_nat (length buf) < 2 ^ k ->
  exists f', kfifo_in f buf (Z.of_nat (length buf)) 1 = Ok (Z.of_nat (length buf), f') /\
    queue k f' 1 (u8 (Z.of_nat (length buf)) :: buf) /\ kfifo_peek_len f' 1 = Ok (u8 (Z.of_nat (length buf))).
Proof.
  intros Hq Hl. pose proof (size_pos k f (proj1 (proj1 Hq))) as Hk. destruct (queue_len _ _ _ _ Hq) as (Hz&_). simpl in Hz.
  unfold kfifo_in. cbn [negb Z.eqb]. rewrite u32_small by (unfold UINT_MAX; lia).
  pose proof (in_r_bytes k 1 f [] Hq ltac:(by left) buf (Z.of_nat (length buf)) ltac:(lia) ltac:(lia)) as Hin.
  replace (_ <? _) with false in Hin by lia. destruct Hin as (f'&->&Hq'). simpl in Hq'. rewrite take_ge in Hq' by lia.
  exists f'. split; [done|]. split; [done|]. unfold kfifo_peek_len, __kfifo_len_r. cbn [Z.eqb].
  pose proof (wrap_range 8 (Z.of_nat (length buf)) ltac:(lia)) as Hw.
  apply (peek_n_spec k 1 f' _ Hq' ltac:(by left) (u8 (Z.of_nat (length buf))) buf); [|done].
  unfold header. simpl. unfold wrap. by rewrite Z.mod_mod by lia.
Qed.

Lemma kfifo_in_r_truncates_length_witness :
  exists f', kfifo_in (Kfifo 0 0 511 1 (replicate 512 0)) (replicate 300 7) 300 1 = Ok (300, f') /\ kfifo_peek_len f' 1 = Ok 44.
Proof.
  assert (Hq : queue 9 (Kfifo 0 0 511 1 (replicate 512 0)) 1 []).
  { refine (conj _ (conj eq_refl eq_refl)). unfold wf, shaped. cbn [mask esize data in_ out]. rewrite length_replicate.
    unfold kfifo_len. simpl. change (u32 _) with 0. lia. }
  destruct (kfifo_in_r_truncates_length 9 _ (replicate 300 7) Hq) as (f'&H1&_&H2); [rewrite length_replicate; simpl; lia|].
  exists f'. split; [exact H1|exact H2].
Defined.
