(* ===== verification/Sort.v ===== *)
(** * Sort: the heapsort of [lib/sort.c] and the search of [lib/bsearch.c]

    The counters of [sort] are byte offsets kept in [int]s and compared as
    [size_t]; they are modelled as such. The array is a list of elements, and
    the element at byte offset [o] is the one of index [o / size]. *)

From S2P Require Import Prelude.

(** ** Swap functions, on bytes *)

(** Exchange two words of [w] bytes through a variable of that type. *)
Definition word_swap (w : Z) (mem : list Z) (a b : Z) : outcome (list Z) :=
  let* t := memcpy (replicate (Z.to_nat w) 0) 0 mem a w in
  let* u := memcpy (replicate (Z.to_nat w) 0) 0 mem b w in
  let* mem := memcpy mem a u 0 w in
  memcpy mem b t 0 w.

Definition u32_swap : list Z -> Z -> Z -> outcome (list Z) := word_swap 4.
Definition u64_swap : list Z -> Z -> Z -> outcome (list Z) := word_swap 8.

Fixpoint generic_swap (fuel : nat) (mem : list Z) (a b size : Z) : outcome (list Z) :=
  match fuel with
  | O => NoFuel
  | S fuel =>
    let* t := rd mem a in
    let* u := rd mem b in
    let* mem := wr mem a u in
    let* mem := wr mem b t in
    let size := size - 1 in
    if 0 <? size then generic_swap fuel mem (a + 1) (b + 1) size else Ok mem
  end.

(** ** The sort *)

Section Sort.
Context {A : Type} (cmp_func : A -> A -> Z) (size : Z).

(** The element at byte offset [o]. *)
Definition at_ (base : list A) (o : Z) : outcome A := rd base (o / size).

(** [swap_func(base + a, base + b, size)] *)
Definition swap_func (base : list A) (a b : Z) : outcome (list A) :=
  let* x := at_ base a in
  let* y := at_ base b in
  let* base := wr base (a / size) y in
  wr base (b / size) x.

(** [for ( ; r * 2 + size < n; r = c)] *)
Fixpoint sift_down (fuel : nat) (base : list A) (n r : Z) : outcome (list A) :=
  match fuel with
  | O => NoFuel
  | S fuel =>
    if u64 (r * 2 + size) <? u64 n then
      let c := s32 (u64 (r * 2 + size)) in
      let* c := (if u64 c <? u64 (n - size) then
                   let* x := at_ base c in
                   let* y := at_ base (c + size) in
                   Ok (if cmp_func x y <? 0 then s32 (c + size) else c)
                 else Ok c) in
      let* x := at_ base r in
      let* y := at_ base c in
      if 0 <=? cmp_func x y then Ok base
      else
        let* base := swap_func base r c in
        sift_down fuel base n c
    else Ok base
  end.

(** [for ( ; i >= 0; i -= size)] *)
Fixpoint heapify (fuel : nat) (base : list A) (n i : Z) : outcome (list A) :=
  match fuel with
  | O => NoFuel
  | S fuel =>
    if 0 <=? i then
      let* base := sift_down (Z.to_nat n + 1) base n i in
      heapify fuel base n (s32 (i - size))
    else Ok base
  end.

(** [for (i = n - size; i > 0; i -= size)] *)
Fixpoint extract (fuel : nat) (base : list A) (i : Z) : outcome (list A) :=
  match fuel with
  | O => NoFuel
  | S fuel =>
    if 0 <? i then
      let* base := swap_func base 0 i in
      let* base := sift_down (Z.to_nat i + 1) base i 0 in
      extract fuel base (s32 (i - size))
    else Ok base
  end.

Definition sort (base : list A) (num : Z) : outcome (list A) :=
  let i := s32 (u64 ((num / 2 - 1) * size)) in
  let n := s32 (u64 (num * size)) in
  let* base := heapify (Z.to_nat num + 2) base n i in
  extract (Z.to_nat num + 2) base (s32 (n - size)).

End Sort.

(** [bsearch]: the index of the element found. *)
Fixpoint bsearch_loop {K A : Type} (cmp : K -> A -> Z) (fuel : nat) (key : K) (base : list A) (start end_ : Z) : outcome (option Z) :=
  match fuel with
  | O => NoFuel
  | S fuel =>
    if start <? end_ then
      let mid := u64 (start + (end_ - start) / 2) in
      let* x := rd base mid in
      let result := cmp key x in
      if result <? 0 then bsearch_loop cmp fuel key base start mid
      else if 0 <? result then bsearch_loop cmp fuel key base (u64 (mid + 1)) end_
      else Ok (Some mid)
    else Ok None
  end.

Definition bsearch {K A : Type} (cmp : K -> A -> Z) (key : K) (base : list A) (num : Z) : outcome (option Z) :=
  bsearch_loop cmp (Z.to_nat num + 1) key base 0 num.

(** ** Facts about swaps *)

(** Two disjoint objects of [w] bytes have changed places. *)
Definition swapped (w a b : Z) (mem mem' : list Z) : Prop :=
  length mem' = length mem /\
  forall i, 0 <= i -> mem' !! Z.to_nat i =
    if (a <=? i) && (i <? a + w) then mem !! Z.to_nat (b + (i - a))
    else if (b <=? i) && (i <? b + w) then mem !! Z.to_nat (a + (i - b)) else mem !! Z.to_nat i.

Lemma word_swap_spec w mem a b : 0 < w -> 0 <= a -> 0 <= b -> a + w <= Z.of_nat (length mem) -> b + w <= Z.of_nat (length mem) ->
  a + w <= b \/ b + w <= a -> exists mem', word_swap w mem a b = Ok mem' /\ swapped w a b mem mem'.
Proof.
  intros Hw Ha Hb Hla Hlb Hd. unfold word_swap.
  destruct (memcpy_spec (replicate (Z.to_nat w) 0) 0 mem a w) as (t&->&Lt&Bt); [lia..|rewrite length_replicate; lia|].
  destruct (memcpy_spec (replicate (Z.to_nat w) 0) 0 mem b w) as (u&Hu&Lu&Bu); [lia..|rewrite length_replicate; lia|]. cbn [obind]. rewrite Hu. cbn [obind].
  rewrite length_replicate in Lt, Lu.
  destruct (memcpy_spec mem a u 0 w) as (m1&->&L1&B1); [lia..|]. cbn [obind].
  destruct (memcpy_spec m1 b t 0 w) as (m2&->&L2&B2); [lia..|]. exists m2. split; [done|]. split; [lia|].
  intros i Hi. rewrite B2, B1 by lia. destruct ((b <=? i) && (i <? b + w)) eqn:Eb.
  - replace ((a <=? i) && (i <? a + w)) with false by lia. rewrite Bt by lia. replace (_ && _) with true by lia. f_equal. lia.
  - destruct ((a <=? i) && (i <? a + w)) eqn:Ea; [|done]. rewrite Bu by lia. replace (_ && _) with true by lia. f_equal. lia.
Qed.

Lemma generic_swap_spec fuel mem a b size : 0 < size <= Z.of_nat fuel -> 0 <= a -> 0 <= b ->
  a + size <= Z.of_nat (length mem) -> b + size <= Z.of_nat (length mem) -> a + size <= b \/ b + size <= a ->
  exists mem', generic_swap fuel mem a b size = Ok mem' /\ swapped size a b mem mem'.
Proof.
  revert mem a b size. induction fuel as [|fuel IH]; intros mem a b size Hs Ha Hb Hla Hlb Hd; [lia|]. cbn [generic_swap].
  destruct (rd_Ok mem a) as (t&->&Ht); [lia|]. destruct (rd_Ok mem b) as (u&->&Hu); [lia|]. cbn [obind].
  rewrite wr_Ok by lia. cbn [obind]. rewrite wr_Ok by (rewrite length_insert; lia). cbn [obind].
  set (mem1 := <[Z.to_nat b := t]> (<[Z.to_nat a := u]> mem)).
  assert (L1 : length mem1 = length mem) by (unfold mem1; by rewrite !length_insert).
  assert (B1 : forall i, 0 <= i -> mem1 !! Z.to_nat i = if i =? a then Some u else if i =? b then Some t else mem !! Z.to_nat i).
  { intros i Hi. unfold mem1. destruct (i =? b) eqn:Eb.
    - replace i with b by lia. rewrite list_lookup_insert_eq by (rewrite length_insert; lia). by replace (b =? a) with false by lia.
    - rewrite list_lookup_insert_ne by lia. destruct (i =? a) eqn:Ea; [|by rewrite list_lookup_insert_ne by lia].
      replace i with a by lia. by rewrite list_lookup_insert_eq by lia. }
  destruct (0 <? size - 1) eqn:E.
  - destruct (IH mem1 (a + 1) (b + 1) (size - 1)) as (mem'&->&L&B); [lia..|]. exists mem'. split; [done|]. split; [lia|].
    intros i Hi. rewrite B by done. destruct (decide (i = a)) as [->|Hna]; [|destruct (decide (i = b)) as [->|Hnb]].
    + replace ((a + 1 <=? a) && _) with false by lia. replace ((b + 1 <=? a) && _) with false by lia. rewrite B1 by lia.
      replace (a =? a) with true by lia. replace ((a <=? a) && _) with true by lia. rewrite <- Hu. f_equal. lia.
    + replace ((a + 1 <=? b) && _) with false by lia. replace ((b + 1 <=? b) && _) with false by lia. rewrite B1 by lia.
      replace (b =? a) with false by lia. replace (b =? b) with true by lia. replace ((a <=? b) && _) with false by lia.
      replace ((b <=? b) && _) with true by lia. rewrite <- Ht. f_equal. lia.
    + replace ((a + 1 <=? i) && (i <? a + 1 + (size - 1))) with ((a <=? i) && (i <? a + size)) by lia.
      replace ((b + 1 <=? i) && (i <? b + 1 + (size - 1))) with ((b <=? i) && (i <? b + size)) by lia.
      case_ifs; rewrite B1 by lia; repeat (case_if; try lia); f_equal; lia.
  - exists mem1. split; [done|]. split; [done|]. intros i Hi. assert (size = 1) as -> by lia. rewrite B1 by done.
    destruct (i =? a) eqn:Ea; [|destruct (i =? b) eqn:Eb].
    + replace (_ && _) with true by lia. rewrite <- Hu. f_equal. lia.
    + replace ((a <=? i) && _) with false by lia. replace (_ && _) with true by lia. rewrite <- Ht. f_equal. lia.
    + replace ((a <=? i) && _) with false by lia. by replace (_ && _) with false by lia.
Qed.
