(* ===== verification/SortFacts.v ===== *)
(** * SortFacts: correctness of the heapsort

    The heap order is stated over element indices: a parent [p] has the children
    [2 p + 1] and [2 p + 2]. *)

From stdpp Require Import sorting.
From S2P Require Import Prelude Sort.

(** ** Exchanging two elements *)

Definition exchange {A} (l : list A) (i j : nat) (x y : A) : list A := <[j := x]> (<[i := y]> l).

Lemma exchange_perm {A} (l : list A) i j x y : l !! i = Some x -> l !! j = Some y -> exchange l i j x y ≡ₚ l.
Proof.
  assert (Hlt : forall i j x y, (i < j)%nat -> l !! i = Some x -> l !! j = Some y ->
    exists l1 l2 l3, l = l1 ++ x :: l2 ++ y :: l3 /\ length l1 = i /\ (length l1 + S (length l2))%nat = j).
  { clear. intros i j x y Hij Hi Hj. exists (take i l), (take (j - i - 1) (drop (S i) l)), (drop (S j) l).
    pose proof (lookup_lt_Some _ _ _ Hj). rewrite !length_take, length_drop. split; [|lia].
    rewrite <- (take_drop_middle l i x Hi) at 1. do 2 f_equal.
    rewrite <- (take_drop_middle (drop (S i) l) (j - i - 1) y) at 1 by (rewrite lookup_drop; rewrite <- Hj; f_equal; lia).
    do 2 f_equal. rewrite drop_drop. f_equal. lia. }
  unfold exchange. intros Hi Hj. destruct (lt_eq_lt_dec i j) as [[Hij| ->]|Hij].
  - destruct (Hlt i j x y Hij Hi Hj) as (l1&l2&l3&->&<-&<-).
    rewrite (insert_app_r_alt l1 _ (length l1)) by lia. rewrite Nat.sub_diag. simpl.
    rewrite (insert_app_r_alt l1) by lia. replace (length l1 + S (length l2) - length l1)%nat with (S (length l2)) by lia. simpl.
    rewrite (insert_app_r_alt l2) by lia. rewrite Nat.sub_diag. simpl.
    apply Permutation_app_head. rewrite <- (Permutation_middle l2 l3 x), <- (Permutation_middle l2 l3 y). apply Permutation_swap.
  - rewrite list_insert_insert_eq. rewrite list_insert_id by done. done.
  - destruct (Hlt j i y x Hij Hj Hi) as (l1&l2&l3&->&<-&<-).
    rewrite (insert_app_r_alt l1) by lia. replace (length l1 + S (length l2) - length l1)%nat with (S (length l2)) by lia. simpl.
    rewrite (insert_app_r_alt l2) by lia. rewrite Nat.sub_diag. simpl.
    rewrite (insert_app_r_alt l1) by lia. rewrite Nat.sub_diag. simpl.
    apply Permutation_app_head. rewrite <- (Permutation_middle l2 l3 x), <- (Permutation_middle l2 l3 y). apply Permutation_swap.
Qed.

Lemma exchange_lookup {A} (l : list A) i j x y k : (i < length l)%nat -> (j < length l)%nat ->
  exchange l i j x y !! k = if decide (k = j) then Some x else if decide (k = i) then Some y else l !! k.
Proof.
  intros Hi Hj. unfold exchange. case_decide as Ej; [subst; apply list_lookup_insert_eq; by rewrite length_insert|].
  rewrite list_lookup_insert_ne by done. case_decide as Ei; [subst; by apply list_lookup_insert_eq|by apply list_lookup_insert_ne].
Qed.

(** ** Comparison functions *)

(** What [sort] needs of its callback: a total preorder, read off the sign. *)
Class Comparison {A} (cmp : A -> A -> Z) : Prop := {
  cmp_sign x y : cmp x y < 0 <-> 0 < cmp y x;
  cmp_trans x y z : cmp x y <= 0 -> cmp y z <= 0 -> cmp x z <= 0
}.

Lemma cmp_flip {A} (cmp : A -> A -> Z) `{!Comparison cmp} x y : 0 <= cmp x y -> cmp y x <= 0.
Proof. intros H. pose proof (cmp_sign x y). lia. Qed.

Definition child (p c : nat) : Prop := c = (2 * p + 1)%nat \/ c = (2 * p + 2)%nat.

Section Heap.
Context {A : Type} (cmp : A -> A -> Z) `{!Comparison cmp}.

Abbreviation le x y := (cmp x y <= 0).

(** Heap order below [m] for all parents from [lo] on. *)
Definition heap (lo m : nat) (l : list A) : Prop :=
  forall p c x y, (lo <= p)%nat -> child p c -> (c < m)%nat -> l !! p = Some x -> l !! c = Some y -> le y x.

(** The same but for the element at [h], whose children are below its parent. *)
Definition heap_but (lo m h : nat) (l : list A) : Prop :=
  (forall p c x y, (lo <= p)%nat -> p <> h -> child p c -> (c < m)%nat -> l !! p = Some x -> l !! c = Some y -> le y x) /\
  (forall p c x y, (lo <= p)%nat -> child p h -> child h c -> (c < m)%nat -> l !! p = Some x -> l !! c = Some y -> le y x).

Lemma heap_but_close lo m h l x : heap_but lo m h l -> l !! h = Some x ->
  (forall c y, child h c -> (c < m)%nat -> l !! c = Some y -> le y x) -> heap lo m l.
Proof.
  intros [H1 _] Hx Hc p c x' y' Hp Hch Hm Hpx Hcy. destruct (decide (p = h)) as [->|Hne]; [|by eapply H1].
  simplify_eq. by eapply Hc.
Qed.

(** One step of the sift: the greater child [c] moves up. *)
Lemma heap_but_step lo m h c l x y : (lo <= h)%nat -> heap_but lo m h l -> child h c -> (c < m)%nat -> (m <= length l)%nat ->
  l !! h = Some x -> l !! c = Some y -> cmp x y <= 0 ->
  (forall c' z, child h c' -> (c' < m)%nat -> l !! c' = Some z -> le z y) ->
  heap_but lo m c (exchange l h c x y).
Proof.
  intros Hlo [H1 H2] Hch Hcm Hml Hx Hy Hxy Hmax. assert (Hhc : (h < c)%nat) by (destruct Hch; lia).
  assert (Hlk : forall k, exchange l h c x y !! k = if decide (k = c) then Some x else if decide (k = h) then Some y else l !! k).
  { intros k. apply exchange_lookup; lia. }
  split.
  - intros p k u v Hp Hpc Hchk Hkm Hu Hv. rewrite Hlk in Hu, Hv. rewrite decide_False in Hu by done.
    destruct (decide (p = h)) as [->|Hph].
    + simplify_eq. case_decide; [simplify_eq; done|]. rewrite decide_False in Hv by (destruct Hchk; lia). by eapply Hmax.
    + destruct (decide (k = c)) as [->|Hkc]; [exfalso; destruct Hchk, Hch; lia|].
      destruct (decide (k = h)) as [->|Hkh]; [simplify_eq; eapply (H2 p c); done|]. by eapply H1.
  - intros p k u v Hp Hpc Hck Hkm Hu Hv. assert (p = h) as -> by (destruct Hpc, Hch; lia).
    rewrite Hlk in Hu, Hv. rewrite decide_False, decide_True in Hu by (done || lia). simplify_eq.
    rewrite !decide_False in Hv by (destruct Hck; lia). eapply (H1 c k); try done; lia.
Qed.

(** The root of a heap is a greatest element. *)
Lemma heap_root m l r k x : heap 0 m l -> l !! 0%nat = Some r -> (k < m)%nat -> (m <= length l)%nat -> l !! k = Some x -> le x r.
Proof.
  intros Hh Hr. revert x. induction k as [k IH] using lt_wf_ind. intros x Hk Hm Hx.
  destruct (decide (k = 0%nat)) as [->|Hne].
  { simplify_eq. destruct (Z.le_gt_cases 0 (cmp r r)); [by apply (cmp_flip cmp)|lia]. }
  assert (exists p, child p k) as [p Hp].
  { destruct (Nat.Even_or_Odd k) as [[q Hq]|[q Hq]]; [exists (q - 1)%nat|exists q]; unfold child; lia. }
  assert (p < k)%nat by (destruct Hp; lia). destruct (lookup_lt_is_Some_2 l p) as [u Hu]; [lia|].
  apply (cmp_trans x u r); [eapply (Hh p k); done || lia|eapply (IH p); done || lia].
Qed.

(** ** The loops *)

Context (size : Z).
Hypothesis Hsize : 0 < size < 2 ^ 29.

(** The byte offsets fit the [int] counters. *)
Definition fits (m : nat) : Prop := Z.of_nat m * size < 2 ^ 29.

Lemma at_index (l : list A) k x : l !! k = Some x -> at_ size l (Z.of_nat k * size) = Ok x.
Proof. intros Hx. unfold at_. rewrite Z.div_mul by lia. apply rd_Some; [lia|]. by rewrite Nat2Z.id. Qed.

Lemma swap_index (l : list A) i j x y : l !! i = Some x -> l !! j = Some y ->
  swap_func size l (Z.of_nat i * size) (Z.of_nat j * size) = Ok (exchange l i j x y).
Proof.
  intros Hx Hy. pose proof (lookup_lt_Some _ _ _ Hx). pose proof (lookup_lt_Some _ _ _ Hy). unfold swap_func.
  rewrite (at_index _ i x), (at_index _ j y) by done. cbn [obind]. rewrite !Z.div_mul by lia.
  rewrite wr_Ok by lia. cbn [obind]. rewrite wr_Ok by (rewrite length_insert; lia). by rewrite !Nat2Z.id.
Qed.

Lemma s32_u64 x : - 2 ^ 31 <= x < 2 ^ 31 -> s32 (u64 x) = x.
Proof.
  intros Hx. rewrite <- (s32_small x) at 2 by done. unfold swrap, wrap. f_equal. rewrite (Z.mod_eq x) by lia.
  replace (x - 2 ^ 64 * (x / 2 ^ 64) + 2 ^ (32 - 1)) with (x + 2 ^ (32 - 1) + (- 2 ^ 32 * (x / 2 ^ 64)) * 2 ^ 32) by lia.
  apply Z.mod_add. lia.
Qed.

(** The greater of the children below [m]. *)
Lemma greater_child m l h : fits m -> (m <= length l)%nat -> (2 * h + 1 < m)%nat ->
  let c0 := Z.of_nat (2 * h + 1) * size in
  exists c y, (if u64 c0 <? u64 (Z.of_nat m * size - size) then
                 let* x := at_ size l c0 in
                 let* y := at_ size l (c0 + size) in
                 Ok (if cmp x y <? 0 then s32 (c0 + size) else c0)
               else Ok c0) = Ok (Z.of_nat c * size) /\
    child h c /\ (c < m)%nat /\ l !! c = Some y /\
    forall c' z, child h c' -> (c' < m)%nat -> l !! c' = Some z -> le z y.
Proof.
  intros Hf Hm Hh c0. unfold fits in Hf. assert (Hc0 : 0 <= c0 /\ c0 + size <= Z.of_nat m * size) by (unfold c0; nia).
  assert (Hrefl : forall z, le z z) by (intros z; destruct (Z.le_gt_cases 0 (cmp z z)); [by apply (cmp_flip cmp)|lia]).
  rewrite !u64_small by (unfold ULLONG_MAX; lia).
  destruct (lookup_lt_is_Some_2 l (2 * h + 1)) as [x Hx]; [lia|]. destruct (c0 <? Z.of_nat m * size - size) eqn:E.
  - assert (Hlt : (2 * h + 2 < m)%nat) by (unfold c0 in E; nia). destruct (lookup_lt_is_Some_2 l (2 * h + 2)) as [y Hy]; [lia|].
    unfold c0. rewrite (at_index _ _ x Hx). cbn [obind].
    replace (Z.of_nat (2 * h + 1) * size + size) with (Z.of_nat (2 * h + 2) * size) by lia. rewrite (at_index _ _ y Hy). cbn [obind].
    rewrite s32_small by (split; nia). destruct (cmp x y <? 0) eqn:Ec.
    + exists (2 * h + 2)%nat, y. split_and!; [done|by right|done|done|]. intros c' z [-> | ->] _ Hz; simplify_eq; [lia|apply Hrefl].
    + exists (2 * h + 1)%nat, x. split_and!; [done|by left|lia|done|]. intros c' z [-> | ->] _ Hz; simplify_eq; [apply Hrefl|apply (cmp_flip cmp); lia].
  - exists (2 * h + 1)%nat, x. split_and!; [done|by left|done|done|]. intros c' z [-> | ->] Hc' Hz; simplify_eq; [apply Hrefl|].
    unfold c0 in E. exfalso. nia.
Qed.

Lemma sift_down_spec fuel lo m h l : fits m -> (m <= length l)%nat -> (lo <= h < m)%nat -> (m - h < fuel)%nat -> heap_but lo m h l ->
  exists l', sift_down cmp size fuel l (Z.of_nat m * size) (Z.of_nat h * size) = Ok l' /\ l' ≡ₚ l /\ heap lo m l' /\
    forall k, (m <= k)%nat -> l' !! k = l !! k.
Proof.
  intros Hf. revert h l. induction fuel as [|fuel IH]; intros h l Hm Hh Hfuel Hb; [lia|]. cbn [sift_down].
  unfold fits in Hf. assert (Hhs : 0 <= Z.of_nat h * size /\ Z.of_nat h * size < Z.of_nat m * size /\ size <= Z.of_nat m * size) by nia.
  rewrite !u64_small by (unfold ULLONG_MAX; lia). destruct (lookup_lt_is_Some_2 l h) as [x Hx]; [lia|].
  replace (Z.of_nat h * size * 2 + size) with (Z.of_nat (2 * h + 1) * size) by lia.
  destruct (Z.of_nat (2 * h + 1) * size <? Z.of_nat m * size) eqn:E.
  - assert (Hlt : (2 * h + 1 < m)%nat) by nia. rewrite (s32_small (Z.of_nat (2 * h + 1) * size)) by nia.
    destruct (greater_child m l h Hf Hm Hlt) as (c&y&Hc&Hch&Hcm&Hy&Hmax). simpl in Hc. simpl. rewrite Hc. cbn [obind].
    rewrite (at_index _ _ x Hx), (at_index _ _ y Hy). cbn [obind]. destruct (0 <=? cmp x y) eqn:Ecmp.
    + exists l. split; [done|]. split; [done|]. split; [|done]. eapply heap_but_close; [done|done|].
      intros c' z Hc' Hm' Hz. apply (cmp_trans z y x); [by eapply Hmax|apply (cmp_flip cmp); lia].
    + rewrite (swap_index _ _ _ x y Hx Hy). cbn [obind].
      assert (Hlen : length (exchange l h c x y) = length l) by (unfold exchange; by rewrite !length_insert).
      destruct (IH c (exchange l h c x y)) as (l'&Hl'&Hp&Hheap&Hrest); [lia|destruct Hch; lia|destruct Hch; lia| |].
      { apply heap_but_step; try done; lia. }
      exists l'. split; [done|]. split; [by rewrite Hp, exchange_perm|]. split; [done|].
      intros k Hk. rewrite Hrest, exchange_lookup by lia. rewrite !decide_False by lia. done.
  - exists l. split; [done|]. split; [done|]. split; [|done]. eapply heap_but_close; [done|done|].
    intros c z [-> | ->] Hc; exfalso; nia.
Qed.

Lemma heapify_spec fuel k m l : fits m -> (m <= length l)%nat -> (k <= m)%nat -> (k < fuel)%nat -> heap k m l ->
  exists l', heapify cmp size fuel l (Z.of_nat m * size) (Z.of_nat k * size - size) = Ok l' /\ l' ≡ₚ l /\ heap 0 m l' /\
    forall j, (m <= j)%nat -> l' !! j = l !! j.
Proof.
  intros Hf. revert fuel l. induction k as [|k IH]; intros fuel l Hm Hk Hfuel Hh; (destruct fuel as [|fuel]; [lia|]); cbn [heapify].
  - destruct (0 <=? Z.of_nat 0 * size - size) eqn:E; [lia|]. by exists l.
  - replace (Z.of_nat (S k) * size - size) with (Z.of_nat k * size) by lia. destruct (0 <=? Z.of_nat k * size) eqn:E; [|nia].
    unfold fits in Hf. destruct (sift_down_spec (Z.to_nat (Z.of_nat m * size) + 1) k m k l Hf Hm) as (l1&->&Hp1&Hh1&Hr1); [lia|nia| |].
    { split; [intros p c x y Hp Hne; apply Hh; lia|]. intros p c x y Hp Hch. destruct Hch; lia. }
    cbn [obind]. rewrite s32_small by nia. pose proof (Permutation_length Hp1).
    destruct (IH fuel l1) as (l2&->&Hp2&Hh2&Hr2); [lia|lia|lia|done|].
    exists l2. split; [done|]. split; [by rewrite Hp2|]. split; [done|]. intros j Hj. by rewrite Hr2, Hr1.
Qed.

(** Permutations that agree from [k] on permute the first [k] elements. *)
Lemma perm_prefix (k : nat) (l l' : list A) : l' ≡ₚ l -> (forall j, (k <= j)%nat -> l' !! j = l !! j) -> take k l' ≡ₚ take k l /\ drop k l' = drop k l.
Proof.
  intros Hp Hj. assert (Hd : drop k l' = drop k l) by (apply list_eq; intros i; rewrite !lookup_drop; apply Hj; lia).
  split; [|done]. rewrite <- (take_drop k l'), <- (take_drop k l), Hd in Hp. by apply Permutation_app_inv_r in Hp.
Qed.

Lemma perm_index (k : nat) (l l' : list A) a x : l' ≡ₚ l -> (forall j, (k <= j)%nat -> l' !! j = l !! j) -> (a < k)%nat -> l' !! a = Some x ->
  exists a', (a' < k)%nat /\ l !! a' = Some x.
Proof.
  intros Hp Hj Ha Hx. destruct (perm_prefix k l l' Hp Hj) as [Ht _].
  assert (Hin : x ∈ take k l) by (rewrite <- Ht; apply list_elem_of_lookup; exists a; by rewrite lookup_take_lt).
  apply list_elem_of_lookup in Hin as [a' Ha']. apply lookup_take_Some in Ha' as [??]. eauto.
Qed.

(** The elements from [k] to [m] are sorted and not below the others. *)
Definition settled (k m : nat) (l : list A) : Prop :=
  forall a b x y, (k <= b < m)%nat -> (a < b)%nat -> l !! a = Some x -> l !! b = Some y -> le x y.

Lemma extract_spec fuel k m l : fits m -> (m <= length l)%nat -> (1 <= k <= m)%nat -> (k < fuel)%nat -> heap 0 k l -> settled k m l ->
  exists l', extract cmp size fuel l (Z.of_nat k * size - size) = Ok l' /\ l' ≡ₚ l /\ settled 1 m l' /\
    forall j, (m <= j)%nat -> l' !! j = l !! j.
Proof.
  intros Hf. revert fuel l. induction k as [|k IH]; intros fuel l Hm Hk Hfuel Hh Hs; [lia|]. destruct fuel as [|fuel]; [lia|]. cbn [extract].
  replace (Z.of_nat (S k) * size - size) with (Z.of_nat k * size) by lia. unfold fits in Hf.
  destruct (decide (k = 0%nat)) as [->|Hk0]; [exists l; done|]. destruct (0 <? Z.of_nat k * size) eqn:E; [|nia].
  destruct (lookup_lt_is_Some_2 l 0) as [r Hr]; [lia|]. destruct (lookup_lt_is_Some_2 l k) as [z Hz]; [lia|].
  change 0 with (Z.of_nat 0 * size) at 1. rewrite (swap_index l 0 k r z Hr Hz). cbn [obind]. set (l1 := exchange l 0 k r z).
  assert (Hlk : forall j, l1 !! j = if decide (j = k) then Some r else if decide (j = 0%nat) then Some z else l !! j).
  { intros j. apply exchange_lookup; lia. }
  assert (Hp1 : l1 ≡ₚ l) by (by apply exchange_perm). pose proof (Permutation_length Hp1).
  assert (Hfk : fits k) by (unfold fits; nia).
  destruct (sift_down_spec (Z.to_nat (Z.of_nat k * size) + 1) 0 k 0 l1 Hfk) as (l2&Hl2&Hp2&Hh2&Hr2); [lia|lia|nia| |].
  { split; [|intros p c x y _ [?|?]; lia]. intros p c x y _ Hp0 Hch Hck Hx Hy. rewrite Hlk in Hx, Hy.
    rewrite !decide_False in Hx by (destruct Hch; lia). rewrite !decide_False in Hy by (destruct Hch; lia).
    eapply (Hh p c); try done; lia. }
  change (Z.of_nat 0 * size) with 0 in Hl2. rewrite Hl2. cbn [obind]. rewrite s32_small by nia. pose proof (Permutation_length Hp2).
  assert (Hpk : l2 ≡ₚ l) by (by rewrite Hp2).
  assert (Hag : forall j, (S k <= j)%nat -> l2 !! j = l !! j) by (intros j Hj; rewrite Hr2, Hlk, !decide_False by lia; done).
  destruct (IH fuel l2) as (l3&->&Hp3&Hs3&Hr3); [lia|lia|lia|done| |].
  { intros a b x y Hb Hab Hx Hy. destruct (decide (b = k)) as [->|Hbk].
    - rewrite Hr2, Hlk, decide_True in Hy by (done || lia). simplify_eq.
      destruct (perm_index (S k) l l2 a x) as (a'&Ha'&Hxa); [done|done|lia|done|]. eapply (heap_root (S k)); try done; lia.
    - rewrite Hag in Hy by lia. destruct (decide (a <= k)%nat).
      + destruct (perm_index (S k) l l2 a x) as (a'&Ha'&Hxa); [done|done|lia|done|]. eapply (Hs a' b); try done; lia.
      + rewrite Hag in Hx by lia. eapply (Hs a b); try done; lia. }
  exists l3. split; [done|]. split; [by rewrite Hp3|]. split; [done|]. intros j Hj. rewrite Hr3, Hag by lia. done.
Qed.

Lemma settled_sorted (l : list A) : settled 1 (length l) l -> StronglySorted (fun x y => le x y) l.
Proof.
  induction l as [|x l IH]; intros Hs; constructor.
  - apply IH. intros a b u v Hb Hab Hu Hv. eapply (Hs (S a) (S b)); simpl; try done; lia.
  - apply Forall_forall. intros y Hy. apply list_elem_of_In, list_elem_of_lookup in Hy as [i Hi]. eapply (Hs 0%nat (S i)); try done; [|lia].
    apply lookup_lt_Some in Hi. simpl. lia.
Qed.

Lemma sort_spec (base : list A) (num : nat) : (num <= length base)%nat -> fits num ->
  exists l, sort cmp size base (Z.of_nat num) = Ok l /\ take num l ≡ₚ take num base /\ drop num l = drop num base /\
    StronglySorted (fun x y => le x y) (take num l).
Proof.
  intros Hn Hf. unfold sort. unfold fits in Hf. rewrite Nat2Z.id.
  assert (Hhalf : Z.of_nat num / 2 = Z.of_nat (num / 2)) by (by rewrite Nat2Z.inj_div).
  assert (Hle : (num / 2 <= num)%nat) by (apply Nat.Div0.div_le_upper_bound; lia).
  rewrite Hhalf, (s32_u64 (_ * size)), s32_u64 by nia. rewrite Z.mul_sub_distr_r, Z.mul_1_l.
  destruct (heapify_spec (num + 2) (num / 2) num base Hf Hn Hle ltac:(lia)) as (l1&->&Hp1&Hh1&Hr1).
  { intros p c x y Hp Hch Hc. exfalso. pose proof (Nat.div_mod_eq num 2). pose proof (Nat.mod_upper_bound num 2 ltac:(lia)). destruct Hch; lia. }
  cbn [obind]. rewrite s32_small by nia. pose proof (Permutation_length Hp1).
  destruct (decide (num = 0%nat)) as [->|H0].
  { exists l1. cbn [extract Nat.add]. destruct (0 <? _) eqn:E; [lia|]. split; [done|]. split; [done|]. split; [|constructor].
    by destruct (perm_prefix 0 base l1 Hp1 Hr1). }
  destruct (extract_spec (num + 2) num num l1 Hf) as (l2&->&Hp2&Hs2&Hr2); [lia|lia|lia|done| |].
  { intros a b x y Hb. lia. }
  assert (Hp : l2 ≡ₚ base) by (by rewrite Hp2). pose proof (Permutation_length Hp).
  destruct (perm_prefix num base l2 Hp) as [Ht Hd]; [intros j Hj; by rewrite Hr2, Hr1|].
  exists l2. split; [done|]. split; [done|]. split; [done|]. apply settled_sorted. rewrite length_take, Nat.min_l by lia.
  intros a b x y Hb Hab Hx Hy. rewrite lookup_take_lt in Hx, Hy by lia. by eapply (Hs2 a b).
Qed.
End Heap.

(** ** Binary search *)

(** The sign of the comparison with the key descends along the array. *)
Definition ordered {K A} (cmp : K -> A -> Z) (key : K) (l : list A) : Prop :=
  forall i j x y, (i < j)%nat -> l !! i = Some x -> l !! j = Some y ->
    (cmp key x < 0 -> cmp key y < 0) /\ (cmp key x = 0 -> cmp key y <= 0).

Section Search.
Context {K A : Type} (cmp : K -> A -> Z) (key : K) (l : list A).
Hypothesis Hord : ordered cmp key l.

Lemma bsearch_loop_spec fuel start end_ : 0 <= start <= end_ -> end_ <= Z.of_nat (length l) < 2 ^ 63 -> end_ - start < Z.of_nat fuel ->
  (forall i x, Z.of_nat i < start -> l !! i = Some x -> 0 < cmp key x) ->
  (forall i x, end_ <= Z.of_nat i -> l !! i = Some x -> cmp key x < 0) ->
  exists r, bsearch_loop cmp fuel key l start end_ = Ok r /\
    match r with
    | Some k => 0 <= k /\ exists x, l !! Z.to_nat k = Some x /\ cmp key x = 0
    | None => forall i x, l !! i = Some x -> cmp key x <> 0
    end.
Proof.
  revert start end_. induction fuel as [|fuel IH]; intros start end_ Hs He Hf Hlo Hhi; [lia|]. cbn [bsearch_loop].
  destruct (start <? end_) eqn:E.
  - assert (Hmid : start <= start + (end_ - start) / 2 < end_) by lia. rewrite u64_small by (unfold ULLONG_MAX; lia).
    remember (start + (end_ - start) / 2) as mid. destruct (rd_Ok l mid) as (x&->&Hx); [lia|]. cbn [obind].
    destruct (cmp key x <? 0) eqn:E1; [|destruct (0 <? cmp key x) eqn:E2].
    + apply IH; [lia|lia|lia|done|]. intros i y Hi Hy. destruct (decide (i = Z.to_nat mid)) as [->|Hne]; [simplify_eq; lia|].
      destruct (Hord (Z.to_nat mid) i x y) as [Hneg _]; [lia|done|done|]. apply Hneg. lia.
    + rewrite u64_small by (unfold ULLONG_MAX; lia). apply IH; [lia|lia|lia| |done]. intros i y Hi Hy.
      destruct (decide (i = Z.to_nat mid)) as [->|Hne]; [simplify_eq; lia|].
      destruct (Hord i (Z.to_nat mid) y x) as [Hneg Hzero]; [lia|done|done|]. lia.
    + exists (Some mid). split; [done|]. split; [lia|]. exists x. split; [done|lia].
  - exists None. split; [done|]. intros i x Hx. destruct (decide (Z.of_nat i < start)); [pose proof (Hlo i x); lia|].
    assert (cmp key x < 0) by (apply (Hhi i); [lia|done]). lia.
Qed.

End Search.

(** The same comparison serves for both. *)
Lemma sorted_ordered {A} (cmp : A -> A -> Z) `{!Comparison cmp} (key : A) l : StronglySorted (fun x y => cmp x y <= 0) l -> ordered cmp key l.
Proof.
  intros Hs i j x y Hij Hx Hy. assert (Hxy : cmp x y <= 0).
  { revert i j Hij Hx Hy. induction Hs as [|a l Hs IH Ha]; intros i j Hij Hx Hy; [done|]. destruct j as [|j]; [lia|]. simpl in Hy.
    destruct i as [|i]; simpl in Hx; [|eapply (IH i j); done || lia]. simplify_eq. apply (Forall_lookup_1 _ _ _ _ Ha Hy). }
  split; [|intros; apply (cmp_trans key x y); lia]. intros Hneg.
  destruct (decide (cmp key y < 0)) as [|Hge]; [done|]. exfalso.
  assert (cmp y key <= 0) by (apply (cmp_flip cmp); lia). assert (cmp x key <= 0) by (by apply (cmp_trans x y key)).
  apply cmp_sign in Hneg. lia.
Qed.
