(* ===== verification/Range.v ===== *)
(** * Range: the tables of address ranges of [kernel/range.c]

    A table is an array of [az] slots; a slot whose [end] is 0 is free. The
    model keeps the slots in place, with the memmove of the merge and the
    compaction of [clean_sort_range], and sorts with the heapsort of [Sort]. *)

From S2P Require Import Prelude Sort.

Record range := Range {
  start : Z;
  end_ : Z
}.

#[export] Instance range_eq_dec : EqDecision range.
Proof. solve_decision. Defined.

#[export] Instance range_inhabited : Inhabited range := populate (Range 0 0).

Definition add_range (rs : list range) (az nr_range s e : Z) : outcome (Z * list range) :=
  if e <=? s then Ok (nr_range, rs)
  else if az <=? nr_range then Ok (nr_range, rs)
  else
    let* rs := wr rs nr_range (Range s e) in
    Ok (nr_range + 1, rs).

(** [memmove(&range[i], &range[i + 1], n * sizeof(range[i]))] *)
Definition memmove_down (rs : list range) (i n : Z) : outcome (list range) :=
  if n =? 0 then Ok rs
  else if (i <? 0) || (n <? 0) || (Z.of_nat (length rs) <? i + 1 + n) then Oops
  else Ok (take (Z.to_nat i) rs ++ take (Z.to_nat n) (drop (Z.to_nat (i + 1)) rs) ++ drop (Z.to_nat (i + n)) rs).

Fixpoint merge_loop (fuel : nat) (rs : list range) (nr_range i s e : Z) : outcome (list range * Z * Z * Z) :=
  match fuel with
  | O => NoFuel
  | S fuel =>
    if i <? nr_range then
      let* r := rd rs i in
      if end_ r =? 0 then merge_loop fuel rs nr_range (i + 1) s e
      else
        let common_start := Z.max (start r) s in
        let common_end := Z.min (end_ r) e in
        if common_end <? common_start then merge_loop fuel rs nr_range (i + 1) s e
        else
          let s := Z.min (start r) s in
          let e := Z.max (end_ r) e in
          let* rs := memmove_down rs i (nr_range - (i + 1)) in
          let* rs := wr rs (nr_range - 1) (Range 0 0) in
          merge_loop fuel rs (nr_range - 1) i s e
    else Ok (rs, nr_range, s, e)
  end.

Definition add_range_with_merge (rs : list range) (az nr_range s e : Z) : outcome (Z * list range) :=
  if e <=? s then Ok (nr_range, rs)
  else
    let* (rs, nr_range, s, e) := merge_loop (Z.to_nat nr_range + 1) rs nr_range 0 s e in
    add_range rs az nr_range s e.

(** [for (i = 0; i < az; i++) if (range[i].end == 0) break;] *)
Fixpoint find_spare (fuel : nat) (rs : list range) (az i : Z) : outcome Z :=
  match fuel with
  | O => NoFuel
  | S fuel =>
    if i <? az then
      let* r := rd rs i in
      if end_ r =? 0 then Ok i else find_spare fuel rs az (i + 1)
    else Ok i
  end.

(** The body of the loop of [subtract_range]. *)
Definition subtract_step (rs : list range) (az s e j : Z) : outcome (list range) :=
  let* r := rd rs j in
  if end_ r =? 0 then Ok rs
  else if (s <=? start r) && (end_ r <=? e) then wr rs j (Range 0 0)
  else if (s <=? start r) && (e <? end_ r) && (start r <? e) then wr rs j (Range e (end_ r))
  else if (start r <? s) && (end_ r <=? e) && (s <? end_ r) then wr rs j (Range (start r) s)
  else if (start r <? s) && (e <? end_ r) then
    let* i := find_spare (Z.to_nat az + 1) rs az 0 in
    let* rs := (if i <? az then wr rs i (Range e (end_ r)) else Ok rs) in
    let* r := rd rs j in
    wr rs j (Range (start r) s)
  else Ok rs.

Definition subtract_range (rs : list range) (az s e : Z) : outcome (list range) :=
  if e <=? s then Ok rs
  else for_do 0 az (fun j rs => subtract_step rs az s e j) rs.

Definition cmp_range (r1 r2 : range) : Z :=
  if start r1 <? start r2 then -1 else if start r2 <? start r1 then 1 else 0.

(** [for (j = k; j > i; j--) if (range[j].end) { k = j; break; }]: the final [j]. *)
Fixpoint last_used (fuel : nat) (rs : list range) (i j : Z) : outcome Z :=
  match fuel with
  | O => NoFuel
  | S fuel =>
    if i <? j then
      let* r := rd rs j in
      if negb (end_ r =? 0) then Ok j else last_used fuel rs i (j - 1)
    else Ok j
  end.

Fixpoint compact_loop (fuel : nat) (rs : list range) (i k : Z) : outcome (list range) :=
  match fuel with
  | O => NoFuel
  | S fuel =>
    if i <? k then
      let* r := rd rs i in
      if negb (end_ r =? 0) then compact_loop fuel rs (i + 1) k
      else
        let* j := last_used (Z.to_nat k + 1) rs i k in
        if j =? i then Ok rs
        else
          let* q := rd rs j in
          let* rs := wr rs i q in
          let* rs := wr rs j (Range 0 0) in
          compact_loop fuel rs (i + 1) (j - 1)
    else Ok rs
  end.

Definition clean_sort_range (rs : list range) (az : Z) : outcome (Z * list range) :=
  let* rs := compact_loop (Z.to_nat az + 1) rs 0 (az - 1) in
  let* i := find_spare (Z.to_nat az + 1) rs az 0 in
  let nr_range := i in
  let* rs := sort cmp_range 16 rs nr_range in
  Ok (nr_range, rs).

Definition sort_range (rs : list range) (nr_range : Z) : outcome (list range) :=
  sort cmp_range 16 rs nr_range.
