(* ===== verification/RangeFacts.v ===== *)
(** * RangeFacts: range tables as sets of addresses *)

From stdpp Require Import sorting.
From S2P Require Import Prelude Sort SortFacts Range.

Definition inside (r : range) (x : Z) : Prop := start r <= x < end_ r.

(** Some slot holds the address [x]. *)
Definition covers (rs : list range) (x : Z) : Prop := exists k r, rs !! k = Some r /\ inside r x.

(** Slots are free or hold a non-empty range. *)
Definition valid (rs : list range) : Prop := forall k r, rs !! k = Some r -> 0 <= start r /\ (end_ r = 0 \/ start r < end_ r).

Definition disjoint (rs : list range) : Prop :=
  forall i j r q x, rs !! i = Some r -> rs !! j = Some q -> inside r x -> inside q x -> i = j.

(** [r] and [q] neither overlap nor touch. *)
Definition apart (r q : range) : Prop := end_ r < start q \/ end_ q < start r.

Definition separate (rs : list range) : Prop :=
  forall i j r q, i <> j -> rs !! i = Some r -> rs !! j = Some q -> end_ r <> 0 -> end_ q <> 0 -> apart r q.

(** The slots from [nr] on are free. *)
Definition free_from (rs : list range) (nr : Z) : Prop := forall k r, nr <= Z.of_nat k -> rs !! k = Some r -> end_ r = 0.

Lemma free_inside r x : 0 <= x -> end_ r = 0 -> 0 <= start r -> ~ inside r x.
Proof. unfold inside. lia. Qed.

Lemma covers_insert rs i r' x : (i < length rs)%nat ->
  covers (<[i := r']> rs) x <-> inside r' x \/ exists k r, k <> i /\ rs !! k = Some r /\ inside r x.
Proof.
  intros Hi. split.
  - intros (k&r&Hk&Hx). destruct (decide (k = i)) as [->|Hne].
    + rewrite list_lookup_insert_eq in Hk by done. simplify_eq. by left.
    + rewrite list_lookup_insert_ne in Hk by done. right. eauto.
  - intros [Hx|(k&r&Hne&Hk&Hx)].
    + exists i, r'. by rewrite list_lookup_insert_eq.
    + exists k, r. by rewrite list_lookup_insert_ne.
Qed.

Lemma covers_split rs i r x : rs !! i = Some r -> covers rs x <-> inside r x \/ exists k q, k <> i /\ rs !! k = Some q /\ inside q x.
Proof.
  intros Hr. rewrite <- (list_insert_id rs i r Hr) at 1. apply covers_insert. by eapply lookup_lt_Some.
Qed.

Lemma valid_insert rs i r : valid rs -> 0 <= start r -> end_ r = 0 \/ start r < end_ r -> valid (<[i := r]> rs).
Proof.
  intros Hv Hs He k q Hq. destruct (decide (k = i)) as [->|Hne].
  - destruct (decide (i < length rs)%nat); [rewrite list_lookup_insert_eq in Hq by done; by simplify_eq|].
    rewrite list_insert_ge in Hq by lia. by eapply Hv.
  - rewrite list_lookup_insert_ne in Hq by done. by eapply Hv.
Qed.

Lemma free_from_insert rs nr i r : free_from rs nr -> Z.of_nat i < nr -> free_from (<[i := r]> rs) nr.
Proof. intros Hf Hi k q Hk Hq. rewrite list_lookup_insert_ne in Hq by lia. by eapply Hf. Qed.

Lemma separate_disjoint rs : valid rs -> separate rs -> disjoint rs.
Proof.
  intros Hv Hs i j r q x Hr Hq Hrx Hqx. destruct (decide (i = j)) as [|Hne]; [done|]. exfalso.
  destruct (Hv _ _ Hr), (Hv _ _ Hq). unfold inside in *. destruct (Hs i j r q); try done; lia.
Qed.

(** ** Adding *)

Lemma add_range_spec rs az nr s e : 0 <= nr < az -> az <= Z.of_nat (length rs) -> s < e ->
  add_range rs az nr s e = Ok (nr + 1, <[Z.to_nat nr := Range s e]> rs).
Proof.
  intros Hn Ha Hs. unfold add_range. replace (e <=? s) with false by lia. replace (az <=? nr) with false by lia.
  rewrite wr_Ok by lia. done.
Qed.

(** The memmove and the zeroing of the last slot take slot [i] out. *)
Lemma take_out rs i nr : 0 <= i < nr -> nr <= Z.of_nat (length rs) ->
  exists rs', (let* rs := memmove_down rs i (nr - (i + 1)) in wr rs (nr - 1) (Range 0 0)) = Ok rs' /\ length rs' = length rs /\
    forall k, rs' !! k = if Z.of_nat k <? i then rs !! k else if Z.of_nat k <? nr - 1 then rs !! S k
                         else if Z.of_nat k =? nr - 1 then Some (Range 0 0) else rs !! k.
Proof.
  intros Hi Hn. set (n := nr - (i + 1)).
  assert (exists rs1, memmove_down rs i n = Ok rs1 /\ length rs1 = length rs /\
    forall k, Z.of_nat k <> nr - 1 -> rs1 !! k = if Z.of_nat k <? i then rs !! k else if Z.of_nat k <? nr - 1 then rs !! S k else rs !! k)
    as (rs1&->&L1&B1).
  { unfold memmove_down. destruct (n =? 0) eqn:E.
    - exists rs. split; [done|]. split; [done|]. intros k Hk. unfold n in E. case_ifs; done.
    - case_if; [unfold n in *; lia|]. eexists. split; [done|].
      split; [rewrite !length_app, !length_take, !length_drop; unfold n in *; lia|]. intros k Hk.
      destruct (Z.of_nat k <? i) eqn:Ek; [rewrite lookup_app_l, lookup_take_lt by (rewrite ?length_take; lia); done|].
      rewrite lookup_app_r by (rewrite length_take; lia). rewrite length_take, Nat.min_l by lia.
      destruct (Z.of_nat k <? nr - 1) eqn:Ek2.
      + rewrite lookup_app_l by (rewrite length_take, length_drop; unfold n; lia). rewrite lookup_take_lt, lookup_drop by (unfold n; lia). f_equal. lia.
      + rewrite lookup_app_r by (rewrite length_take, length_drop; unfold n; lia). rewrite length_take, length_drop, lookup_drop.
        f_equal. unfold n in *. lia. }
  cbn [obind]. rewrite wr_Ok by lia. eexists. split; [done|]. split; [by rewrite length_insert|]. intros k.
  destruct (decide (Z.of_nat k = nr - 1)) as [E|E].
  - replace k with (Z.to_nat (nr - 1)) by lia. rewrite list_lookup_insert_eq by lia.
    replace (_ <? i) with false by lia. replace (_ <? nr - 1) with false by lia. by replace (_ =? nr - 1) with true by lia.
  - rewrite list_lookup_insert_ne by lia. rewrite B1 by done. by replace (Z.of_nat k =? nr - 1) with false by lia.
Qed.

Section TakenOut.
Context (rs rs' : list range) (i nr : Z) (r : range).
Hypothesis Hi : 0 <= i < nr.
Hypothesis Hn : nr <= Z.of_nat (length rs).
Hypothesis Hr : rs !! Z.to_nat i = Some r.
Hypothesis Hrs' : forall k, rs' !! k = if Z.of_nat k <? i then rs !! k else if Z.of_nat k <? nr - 1 then rs !! S k
                         else if Z.of_nat k =? nr - 1 then Some (Range 0 0) else rs !! k.
Hypothesis Hv : valid rs.

(** Where a slot of the new table comes from. *)
Definition origin (k : nat) : nat := if (i <=? Z.of_nat k) && (Z.of_nat k <? nr - 1) then S k else k.

Lemma taken_from k q : rs' !! k = Some q -> q = Range 0 0 \/ (rs !! origin k = Some q /\ Z.of_nat (origin k) <> i /\ Z.of_nat k <> nr - 1).
Proof.
  rewrite Hrs'. unfold origin. intros Hq. destruct (Z.of_nat k <? i) eqn:E1; [right; case_ifs; split_and!; done || lia|].
  destruct (Z.of_nat k <? nr - 1) eqn:E2; [right; case_ifs; split_and!; done || lia|].
  destruct (Z.of_nat k =? nr - 1) eqn:E3; [left; by simplify_eq|]. right. case_ifs; split_and!; done || lia.
Qed.

Lemma taken_covers x : 0 <= x -> covers rs x <-> covers rs' x \/ inside r x.
Proof.
  intros Hx. rewrite (covers_split rs _ r x Hr). split.
  - intros [?|(k&q&Hk&Hq&Hqx)]; [by right|]. left.
    destruct (decide (Z.of_nat k < i)); [|destruct (decide (Z.of_nat k < nr))].
    + exists k, q. rewrite Hrs'. by replace (Z.of_nat k <? i) with true by lia.
    + exists (k - 1)%nat, q. rewrite Hrs'. replace (_ <? i) with false by lia. replace (_ <? nr - 1) with true by lia.
      split; [|done]. rewrite <- Hq. f_equal. lia.
    + exists k, q. rewrite Hrs'. replace (_ <? i) with false by lia. replace (_ <? nr - 1) with false by lia.
      by replace (_ =? nr - 1) with false by lia.
  - intros [(k&q&Hk&Hqx)|?]; [|by left]. apply taken_from in Hk as [->|(Hk0&Hne&_)]; [unfold inside in Hqx; simpl in Hqx; lia|].
    right. exists (origin k), q. split; [lia|done].
Qed.

Lemma taken_valid : valid rs'.
Proof. intros k q Hq. apply taken_from in Hq as [->|(Hk0&_)]; [simpl; lia|by eapply Hv]. Qed.

Lemma taken_free : free_from rs nr -> free_from rs' (nr - 1).
Proof.
  intros Hf k q Hk Hq. rewrite Hrs' in Hq. replace (_ <? i) with false in Hq by lia. replace (_ <? nr - 1) with false in Hq by lia.
  destruct (Z.of_nat k =? nr - 1) eqn:E; [by simplify_eq|]. eapply (Hf k); [lia|done].
Qed.

Lemma taken_separate : separate rs -> separate rs'.
Proof.
  intros Hs a b p q Hab Ha Hb Hp Hq. apply taken_from in Ha as [->|(Ha0&_&Ea)]; [done|].
  apply taken_from in Hb as [->|(Hb0&_&Eb)]; [done|]. apply (Hs (origin a) (origin b)); try done.
  unfold origin. case_ifs; lia.
Qed.

End TakenOut.

(** The table and the range still to be added, after the slots before [i]. *)
Record merging (rs : list range) (nr i s e : Z) : Prop := {
  m_index : 0 <= i <= nr /\ nr <= Z.of_nat (length rs);
  m_range : 0 <= s < e;
  m_valid : valid rs;
  m_free : free_from rs nr;
  m_sep : separate rs;
  m_apart : forall k r, Z.of_nat k < i -> rs !! k = Some r -> end_ r <> 0 -> apart r (Range s e)
}.

Lemma slots_merge_spec fuel rs nr i s e : merging rs nr i s e -> nr - i < Z.of_nat fuel ->
  exists rs' nr' s' e', merge_loop fuel rs nr i s e = Ok (rs', nr', s', e') /\ merging rs' nr' nr' s' e' /\
    length rs' = length rs /\ nr' <= nr /\ (nr' = nr -> rs' = rs /\ s' = s /\ e' = e) /\
    forall x, 0 <= x -> (covers rs' x \/ s' <= x < e') <-> (covers rs x \/ s <= x < e).
Proof.
  revert rs nr i s e. induction fuel as [|fuel IH]; intros rs nr i s e Hm Hf; [destruct Hm; lia|]. pose proof Hm as [Hi Hse Hv Hfree Hsep Hap].
  cbn [merge_loop]. destruct (i <? nr) eqn:Ei.
  2:{ assert (i = nr) as -> by lia. exists rs, nr, s, e. done. }
  destruct (rd_Ok rs i) as (r&->&Hr); [lia|]. cbn [obind]. destruct (Hv _ _ Hr) as [Hr0 Hr1].
  assert (Hnext : (end_ r <> 0 -> apart r (Range s e)) -> merging rs nr (i + 1) s e).
  { intros Hrap. split; try done; [lia|]. intros k q Hk Hq Hq0.
    destruct (decide (Z.of_nat k < i)); [by eapply Hap|]. assert (k = Z.to_nat i) as -> by lia. simplify_eq. by apply Hrap. }
  destruct (end_ r =? 0) eqn:E0; [apply IH; [apply Hnext; lia|lia]|].
  destruct (Z.min (end_ r) e <? Z.max (start r) s) eqn:Eap; [apply IH; [apply Hnext; unfold apart; simpl; lia|lia]|].
  assert (Hin : 0 <= i < nr) by lia. destruct (take_out rs i nr Hin) as (rs1&Hto&L1&B1); [lia|]. apply obind_Ok in Hto as (rs0&->&Hwr). cbn [obind]. rewrite Hwr. cbn [obind].
  destruct (IH rs1 (nr - 1) i (Z.min (start r) s) (Z.max (end_ r) e)) as (rs'&nr'&s'&e'&Heq&Hm'&L'&Hle&_&Hcov); [|lia|].
  { split; [lia|lia|exact (taken_valid rs rs1 i nr Hin B1 Hv)|exact (taken_free rs rs1 i nr Hin B1 Hfree)|exact (taken_separate rs rs1 i nr Hin B1 Hsep)|].
    intros k q Hk Hq Hq0. rewrite B1 in Hq. replace (Z.of_nat k <? i) with true in Hq by lia.
    pose proof (Hap k q Hk Hq Hq0) as H1. assert (H2 : apart q r) by (apply (Hsep k (Z.to_nat i)); try done; lia).
    destruct (Hv _ _ Hq) as [? ?]. unfold apart in *. simpl in *. lia. }
  exists rs', nr', s', e'. split; [done|]. split; [done|]. split; [congruence|]. split; [lia|]. split; [lia|].
  intros x Hx. rewrite (Hcov x Hx), (taken_covers rs rs1 i nr r) by done.
  assert (Hu : Z.min (start r) s <= x < Z.max (end_ r) e <-> inside r x \/ s <= x < e) by (unfold inside; lia). tauto.
Qed.

(** Adding with merge: the set grows by the range, and the slots stay apart. *)
Lemma add_merge_spec rs az nr s e : 0 <= nr <= az -> az <= Z.of_nat (length rs) -> 0 <= s < e -> valid rs -> free_from rs nr -> separate rs ->
  exists nr' rs', add_range_with_merge rs az nr s e = Ok (nr', rs') /\ length rs' = length rs /\ 0 <= nr' <= az /\
    valid rs' /\ free_from rs' nr' /\ separate rs' /\
    ((forall x, 0 <= x -> covers rs' x <-> covers rs x \/ s <= x < e) \/
     (nr = az /\ rs' = rs /\ nr' = nr /\ forall k r, rs !! k = Some r -> end_ r <> 0 -> apart r (Range s e))).
Proof.
  intros Hn Ha Hs Hv Hf Hsep. unfold add_range_with_merge. replace (e <=? s) with false by lia.
  destruct (slots_merge_spec (Z.to_nat nr + 1) rs nr 0 s e) as (rs1&nr1&s1&e1&->&[Hi1 Hs1 Hv1 Hf1 Hsep1 Hap1]&L1&Hle&Hsame&Hcov); [|lia|].
  { split; try done; lia. }
  assert (Hnew : forall k r, rs1 !! k = Some r -> end_ r <> 0 -> apart r (Range s1 e1)).
  { intros k r Hr Hr0. apply (Hap1 k); try done. destruct (decide (Z.of_nat k < nr1)); [done|]. exfalso. apply Hr0. eapply (Hf1 k); [lia|done]. }
  cbn [obind]. destruct (decide (nr1 < az)) as [Hlt|Hge].
  - rewrite add_range_spec by lia. eexists _, _. split; [done|]. split; [by rewrite length_insert|]. split; [lia|].
    split; [apply valid_insert; simpl; try done; lia|]. split; [|split].
    + intros k r Hk Hr. rewrite list_lookup_insert_ne in Hr by lia. eapply (Hf1 k); [lia|done].
    + intros a b p q Hab Hpa Hqb Hp0 Hq0.
      destruct (decide (a = Z.to_nat nr1)) as [->|Ha1], (decide (b = Z.to_nat nr1)) as [->|Hb1]; [done| | |].
      * rewrite list_lookup_insert_eq in Hpa by lia. rewrite list_lookup_insert_ne in Hqb by done. simplify_eq.
        pose proof (Hnew b q Hqb Hq0). unfold apart in *. simpl in *. lia.
      * rewrite list_lookup_insert_eq in Hqb by lia. rewrite list_lookup_insert_ne in Hpa by done. simplify_eq. by apply (Hnew a).
      * rewrite list_lookup_insert_ne in Hpa by done. rewrite list_lookup_insert_ne in Hqb by done. by apply (Hsep1 a b).
    + left. intros x Hx. rewrite <- (Hcov x Hx), covers_insert by lia. unfold inside at 1. simpl. split.
      * intros [?|(k&r&_&Hr&Hrx)]; [by right|left; by exists k, r].
      * intros [(k&r&Hr&Hrx)|?]; [|by left]. right. exists k, r. split; [|done]. intros ->.
        destruct (Hv1 _ _ Hr). unfold inside in Hrx. assert (end_ r = 0) by (eapply (Hf1 (Z.to_nat nr1)); [lia|done]). lia.
  - assert (nr1 = nr /\ nr = az) as [-> ->] by lia. destruct (Hsame eq_refl) as (->&->&->). unfold add_range.
    replace (e <=? s) with false by lia. replace (az <=? az) with true by lia. exists az, rs. split; [done|]. split; [done|]. split; [lia|].
    split; [done|]. split; [done|]. split; [done|]. right. split_and!; done.
Qed.

(** ** Subtracting *)

(** Slot [j] is replaced by a part of it. *)
Lemma separate_shrink rs j r r' : separate rs -> rs !! j = Some r -> (end_ r' <> 0 -> end_ r <> 0 /\ start r <= start r' /\ end_ r' <= end_ r) -> separate (<[j := r']> rs).
Proof.
  intros Hs Hr Hsub a b p q Hab Ha Hb Hp Hq. pose proof (lookup_lt_Some _ _ _ Hr).
  destruct (decide (a = j)) as [->|Ha1], (decide (b = j)) as [->|Hb1]; [done| | |].
  - rewrite list_lookup_insert_eq in Ha by done. rewrite list_lookup_insert_ne in Hb by done. simplify_eq. destruct (Hsub Hp) as (?&?&?).
    destruct (Hs j b r q); try done; unfold apart; lia.
  - rewrite list_lookup_insert_eq in Hb by done. rewrite list_lookup_insert_ne in Ha by done. simplify_eq. destruct (Hsub Hq) as (?&?&?).
    destruct (Hs a j p r); try done; unfold apart; lia.
  - rewrite list_lookup_insert_ne in Ha by done. rewrite list_lookup_insert_ne in Hb by done. by apply (Hs a b).
Qed.

Lemma find_spare_spec fuel rs az i : 0 <= i <= az -> az <= Z.of_nat (length rs) -> az - i < Z.of_nat fuel ->
  exists j, find_spare fuel rs az i = Ok j /\ i <= j <= az /\
    (j < az -> exists r, rs !! Z.to_nat j = Some r /\ end_ r = 0) /\
    (forall k r, i <= Z.of_nat k < j -> rs !! k = Some r -> end_ r <> 0).
Proof.
  intros Hi Ha Hf. revert i Hi Hf. induction fuel as [|fuel IH]; intros i Hi Hf; [lia|]. cbn [find_spare].
  destruct (i <? az) eqn:E.
  - destruct (rd_Ok rs i) as (r&->&Hr); [lia|]. cbn [obind]. destruct (end_ r =? 0) eqn:E0.
    + exists i. split; [done|]. split; [lia|]. split; [|lia]. intros _. exists r. split; [done|lia].
    + destruct (IH (i + 1)) as (j&->&Hj&Hspare&Hused); [lia|lia|]. exists j. split; [done|]. split; [lia|]. split; [done|].
      intros k q Hk Hq. destruct (decide (Z.of_nat k = i)); [|eapply (Hused k); [lia|done]]. assert (k = Z.to_nat i) as -> by lia. simplify_eq. lia.
  - exists i. split; [done|]. split; [lia|]. split; lia.
Qed.

Section Subtract.
Context (rs0 : list range) (s e : Z).
Hypothesis Hse : 0 <= s < e.

(** The range [r] would have to be split. *)
Definition strictly_contains (r : range) : Prop := start r < s /\ e < end_ r.

(** A free slot is there, or none is needed from slot [j] on. *)
Definition room (rs : list range) (j : Z) : Prop :=
  (exists k r, rs !! k = Some r /\ end_ r = 0) \/
  (forall k r, j <= Z.of_nat k -> rs !! k = Some r -> ~ strictly_contains r).

(** The table after the slots before [j]. *)
Record subtracting (j : Z) (rs : list range) : Prop := {
  s_length : length rs = length rs0;
  s_valid : valid rs;
  s_separate : separate rs;
  s_room : room rs j;
  s_done : forall k r x, Z.of_nat k < j -> rs !! k = Some r -> 0 <= x -> inside r x -> ~ s <= x < e;
  s_keep : forall x, 0 <= x -> ~ s <= x < e -> covers rs x <-> covers rs0 x;
  s_sub : forall x, 0 <= x -> covers rs x -> covers rs0 x
}.

(** Slot [j] keeps the part outside of the subtracted range. *)
Lemma subtract_replace j rs r r' : subtracting j rs -> 0 <= j -> rs !! Z.to_nat j = Some r ->
  (forall x, 0 <= x -> inside r' x <-> inside r x /\ ~ s <= x < e) -> 0 <= start r' -> end_ r' = 0 \/ start r' < end_ r' ->
  (end_ r = 0 -> end_ r' = 0) -> subtracting (j + 1) (<[Z.to_nat j := r']> rs).
Proof.
  intros [Hl Hv Hsep Hroom Hdone Hkeep Hsub] Hj Hr Hin Hr0 Hr1 Hfree. pose proof (separate_disjoint rs Hv Hsep) as Hd. pose proof (lookup_lt_Some _ _ _ Hr) as Hlt.
  assert (Hcov : forall x, 0 <= x -> covers (<[Z.to_nat j := r']> rs) x <-> covers rs x /\ ~ (inside r x /\ s <= x < e)).
  { intros x Hx. rewrite covers_insert, (covers_split rs _ r) by done. rewrite (Hin x Hx). split.
    - intros [[Ha Hb]|(k&q&Hne&Hq&Hqx)]; [split; [by left|tauto]|]. split; [right; eauto|]. intros [Hrx _]. apply Hne. by eapply Hd.
    - intros [[Ha|?] Hb]; [left|by right]. split; [done|tauto]. }
  split.
  - by rewrite length_insert.
  - by apply valid_insert.
  - apply (separate_shrink rs (Z.to_nat j) r r'); try done. intros Hu. destruct (Hv _ _ Hr). pose proof (Hin (start r') Hr0) as Hlo. pose proof (Hin (end_ r' - 1) ltac:(lia)) as Hhi.
    unfold inside in Hlo, Hhi. lia.
  - destruct Hroom as [(k&q&Hq&Hq0)|Hno]; [left|right].
    + destruct (decide (k = Z.to_nat j)) as [->|Hne]; [|exists k, q; by rewrite list_lookup_insert_ne].
      exists (Z.to_nat j), r'. rewrite list_lookup_insert_eq by done. simplify_eq. auto.
    + intros k q Hk Hq. rewrite list_lookup_insert_ne in Hq by lia. eapply Hno; [|done]. lia.
  - intros k q x Hk Hq Hx Hqx. destruct (decide (k = Z.to_nat j)) as [->|Hne].
    + rewrite list_lookup_insert_eq in Hq by done. simplify_eq. by apply Hin.
    + rewrite list_lookup_insert_ne in Hq by done. eapply (Hdone k q); try done. lia.
  - intros x Hx Hout. rewrite Hcov, Hkeep by done. tauto.
  - intros x Hx Hc. apply Hcov in Hc as [Hc _]; [|done]. by apply Hsub.
Qed.

(** Slot [j] is split; slot [i] takes the upper part. *)
Lemma subtract_split j i rs r q : subtracting j rs -> 0 <= j -> rs !! Z.to_nat j = Some r -> strictly_contains r ->
  rs !! Z.to_nat i = Some q -> end_ q = 0 -> 0 <= i ->
  subtracting (j + 1) (<[Z.to_nat j := Range (start r) s]> (<[Z.to_nat i := Range e (end_ r)]> rs)).
Proof.
  intros [Hl Hv Hsep Hroom Hdone Hkeep Hsub] Hj Hr [Hc1 Hc2] Hq Hq0 Hi. pose proof (separate_disjoint rs Hv Hsep) as Hd. pose proof (lookup_lt_Some _ _ _ Hr) as Hlj. pose proof (lookup_lt_Some _ _ _ Hq) as Hli.
  destruct (Hv _ _ Hr) as [Hr0 _]. destruct (Hv _ _ Hq) as [Hq1 _].
  assert (Hij : i <> j) by (intros ->; simplify_eq; lia).
  set (rs' := <[Z.to_nat j := Range (start r) s]> (<[Z.to_nat i := Range e (end_ r)]> rs)).
  assert (Hlk : forall k p, rs' !! k = Some p -> (k = Z.to_nat j /\ p = Range (start r) s) \/ (k = Z.to_nat i /\ p = Range e (end_ r)) \/
    (k <> Z.to_nat j /\ k <> Z.to_nat i /\ rs !! k = Some p)).
  { intros k p. unfold rs'. destruct (decide (k = Z.to_nat j)) as [->|Hkj]; [rewrite list_lookup_insert_eq by (rewrite length_insert; lia); intros; simplify_eq; by left|].
    rewrite list_lookup_insert_ne by done. destruct (decide (k = Z.to_nat i)) as [->|Hki]; [rewrite list_lookup_insert_eq by lia; intros; simplify_eq; right; by left|].
    rewrite list_lookup_insert_ne by done. auto. }
  assert (Hold : forall k p x, k <> Z.to_nat j -> rs !! k = Some p -> inside p x -> ~ inside r x).
  { intros k p x Hk Hp Hpx Hrx. apply Hk. by eapply Hd. }
  assert (Hcov : forall x, 0 <= x -> covers rs' x <-> covers rs x /\ ~ (s <= x < e)).
  { intros x Hx. split.
    - intros (k&p&Hp&Hpx). apply Hlk in Hp as [[-> ->]|[[-> ->]|(Hkj&Hki&Hp)]].
      + unfold inside in Hpx. simpl in Hpx. split; [exists (Z.to_nat j), r; split; [done|unfold inside; lia]|lia].
      + unfold inside in Hpx. simpl in Hpx. split; [exists (Z.to_nat j), r; split; [done|unfold inside; lia]|lia].
      + split; [by exists k, p|]. intros Hse'. apply (Hold k p x); try done. unfold inside. lia.
    - intros [(k&p&Hp&Hpx) Hout]. destruct (decide (k = Z.to_nat j)) as [->|Hkj].
      + assert (p = r) as -> by congruence. unfold inside in Hpx. destruct (decide (x < s)).
        * exists (Z.to_nat j), (Range (start r) s). split; [|unfold inside; simpl; lia]. unfold rs'. apply list_lookup_insert_eq. by rewrite length_insert.
        * exists (Z.to_nat i), (Range e (end_ r)). split; [|unfold inside; simpl; lia]. unfold rs'. rewrite list_lookup_insert_ne by lia. by apply list_lookup_insert_eq.
      + destruct (decide (k = Z.to_nat i)) as [->|Hki]; [simplify_eq; unfold inside in Hpx; lia|].
        exists k, p. split; [|done]. unfold rs'. by rewrite !list_lookup_insert_ne. }
  assert (Hv' : valid rs').
  { unfold rs'. apply valid_insert; simpl; [apply valid_insert; simpl; [done|lia|lia]|lia|lia]. }
  split; [unfold rs'; by rewrite !length_insert|done| | | | |].
  - assert (Hother : forall k p, k <> Z.to_nat j -> rs !! k = Some p -> end_ p <> 0 -> apart p r) by (intros k p Hk Hp Hp0; apply (Hsep k (Z.to_nat j)); try done; lia).
    intros a b p p' Hab Ha Hb Hp Hp'. unfold apart.
    apply Hlk in Ha as [[-> ->]|[[-> ->]|(Haj&Hai&Ha)]]; apply Hlk in Hb as [[-> ->]|[[-> ->]|(Hbj&Hbi&Hb)]]; try done; simpl in *; try lia;
      first [pose proof (Hother _ _ Haj Ha Hp) as Hx|pose proof (Hother _ _ Hbj Hb Hp') as Hx]; unfold apart in Hx; [lia..|].
    destruct (Hsep a b p p'); try done; lia.
  - right. intros k p Hk Hp [Hs1 Hs2]. apply Hlk in Hp as [[-> ->]|[[-> ->]|(Hkj&Hki&Hp)]]; [lia|simpl in *; lia|].
    apply (Hold k p s); try done; unfold inside; lia.
  - intros k p x Hk Hp Hx Hpx Hse'. assert (Hc : covers rs' x) by (by exists k, p). by apply Hcov in Hc as [_ Hc].
  - intros x Hx Hout. rewrite Hcov, Hkeep by done. tauto.
  - intros x Hx Hc. apply Hcov in Hc as [Hc _]; [|done]. by apply Hsub.
Qed.

Lemma subtract_step_spec j rs az : subtracting j rs -> 0 <= j < az -> az = Z.of_nat (length rs0) ->
  exists rs', subtract_step rs az s e j = Ok rs' /\ subtracting (j + 1) rs'.
Proof.
  intros Hsub Hj Haz. pose proof Hsub as [Hl Hv _ Hroom _ _ _]. unfold subtract_step.
  destruct (rd_Ok rs j) as (r&->&Hr); [lia|]. cbn [obind]. destruct (Hv _ _ Hr) as [Hr0 Hr1].
  assert (Hsame : (forall x, 0 <= x -> inside r x -> ~ s <= x < e) -> subtracting (j + 1) rs).
  { intros Hout. rewrite <- (list_insert_id rs _ r Hr). apply (subtract_replace j rs r r); try done; [lia|]. intros x Hx. specialize (Hout x Hx). tauto. }
  destruct (end_ r =? 0) eqn:E0; [exists rs; split; [done|]; apply Hsame; unfold inside; lia|].
  destruct ((s <=? start r) && (end_ r <=? e)) eqn:E1.
  { rewrite wr_Ok by lia. eexists. split; [done|]. apply (subtract_replace j rs r); try done; simpl; try lia. intros x Hx. unfold inside. simpl. lia. }
  destruct ((s <=? start r) && (e <? end_ r) && (start r <? e)) eqn:E2.
  { rewrite wr_Ok by lia. eexists. split; [done|]. apply (subtract_replace j rs r); try done; simpl; try lia. intros x Hx. unfold inside. simpl. lia. }
  destruct ((start r <? s) && (end_ r <=? e) && (s <? end_ r)) eqn:E3.
  { rewrite wr_Ok by lia. eexists. split; [done|]. apply (subtract_replace j rs r); try done; simpl; try lia. intros x Hx. unfold inside. simpl. lia. }
  destruct ((start r <? s) && (e <? end_ r)) eqn:E4; [|exists rs; split; [done|]; apply Hsame; unfold inside; lia].
  destruct (find_spare_spec (Z.to_nat az + 1) rs az 0) as (i&->&Hi&Hspare&Hused); [lia|lia|lia|]. cbn [obind].
  assert (Hlt : i < az).
  { destruct (decide (i < az)); [done|]. exfalso. destruct Hroom as [(k&q&Hq&Hq0)|Hno].
    - eapply (Hused k); try done. apply lookup_lt_Some in Hq. lia.
    - apply (Hno (Z.to_nat j) r); [lia|done|]. unfold strictly_contains. lia. }
  replace (i <? az) with true by lia. rewrite wr_Ok by lia. cbn [obind]. destruct (Hspare Hlt) as (q&Hq&Hq0).
  assert (Hij : i <> j) by (intros ->; simplify_eq; lia).
  rewrite (rd_Some _ j r) by (rewrite ?list_lookup_insert_ne by lia; done || lia). cbn [obind].
  rewrite wr_Ok by (rewrite length_insert; lia). eexists. split; [done|]. apply (subtract_split j i rs r q); try done; try lia. unfold strictly_contains. lia.
Qed.

Lemma subtract_spec : valid rs0 -> separate rs0 -> room rs0 0 ->
  exists rs, subtract_range rs0 (Z.of_nat (length rs0)) s e = Ok rs /\ length rs = length rs0 /\ valid rs /\ separate rs /\
    forall x, 0 <= x -> covers rs x <-> covers rs0 x /\ ~ s <= x < e.
Proof.
  intros Hv Hd Hroom. unfold subtract_range. replace (e <=? s) with false by lia.
  destruct (for_do_inv (fun j rs => subtracting j rs) 0 (Z.of_nat (length rs0)) (fun j rs => subtract_step rs (Z.of_nat (length rs0)) s e j) rs0)
    as (rs&->&[Hl Hv' Hd' _ Hdone Hkeep Hsub]); [lia| | |].
  - split; try done; lia.
  - intros i rs Hi Hsub. by apply subtract_step_spec.
  - exists rs. split; [done|]. split; [done|]. split; [done|]. split; [done|]. intros x Hx. split.
    + intros Hc. split; [by apply Hsub|]. destruct Hc as (k&r&Hr&Hrx). eapply Hdone; try done. apply lookup_lt_Some in Hr. lia.
    + intros [Hc Hout]. by apply Hkeep.
Qed.

(** Without a free slot the part above the hole is lost. *)
Lemma subtract_lost k r : valid rs0 -> separate rs0 -> (forall i q, rs0 !! i = Some q -> end_ q <> 0) -> rs0 !! k = Some r -> strictly_contains r ->
  subtract_range rs0 (Z.of_nat (length rs0)) s e = Ok (<[k := Range (start r) s]> rs0).
Proof.
  intros Hv Hsep Hfull Hr [Hc1 Hc2]. pose proof (lookup_lt_Some _ _ _ Hr) as Hk. unfold subtract_range. replace (e <=? s) with false by lia.
  destruct (for_do_inv (fun j rs => rs = if j <=? Z.of_nat k then rs0 else <[k := Range (start r) s]> rs0) 0 (Z.of_nat (length rs0))
    (fun j rs => subtract_step rs (Z.of_nat (length rs0)) s e j) rs0) as (rs&->&->); [lia|by replace (0 <=? Z.of_nat k) with true by lia| |by replace (_ <=? _) with false by lia].
  intros j rs Hj ->. unfold subtract_step. destruct (decide (j = Z.of_nat k)) as [->|Hne].
  - replace (_ <=? _) with true by lia. replace (_ <=? _) with false by lia. rewrite (rd_Some rs0 _ r) by (rewrite ?Nat2Z.id; done || lia). cbn [obind].
    replace (end_ r =? 0) with false by lia. replace ((s <=? start r) && (end_ r <=? e)) with false by lia. replace ((s <=? start r) && (e <? end_ r) && (start r <? e)) with false by lia.
    replace ((start r <? s) && (end_ r <=? e) && (s <? end_ r)) with false by lia. replace ((start r <? s) && (e <? end_ r)) with true by lia.
    destruct (find_spare_spec (Z.to_nat (Z.of_nat (length rs0)) + 1) rs0 (Z.of_nat (length rs0)) 0) as (i&->&Hi&Hspare&_); [lia|lia|lia|]. cbn [obind].
    replace (i <? Z.of_nat (length rs0)) with false. 2:{ destruct (decide (i < Z.of_nat (length rs0))) as [Hlt|]; [|lia]. destruct (Hspare Hlt) as (q&Hq&Hq0). by destruct (Hfull _ _ Hq). }
    cbn [obind]. rewrite (rd_Some rs0 _ r) by (rewrite ?Nat2Z.id; done || lia). cbn [obind]. rewrite wr_Ok by lia. eexists. split; [done|]. by rewrite Nat2Z.id.
  - assert (exists q, (if j <=? Z.of_nat k then rs0 else <[k := Range (start r) s]> rs0) !! Z.to_nat j = Some q /\ rs0 !! Z.to_nat j = Some q) as (q&Hq&Hq0).
    { destruct (lookup_lt_is_Some_2 rs0 (Z.to_nat j)) as [q Hq]; [lia|]. exists q. split; [|done]. case_match; [done|]. by rewrite list_lookup_insert_ne by lia. }
    rewrite (rd_Some _ j q) by (done || lia). cbn [obind]. pose proof (Hfull _ _ Hq0) as Hu. destruct (Hv _ _ Hq0) as [? Hq1].
    assert (Hap : apart q r) by (apply (Hsep (Z.to_nat j) k); try done; lia). unfold apart in Hap. exists (if j <=? Z.of_nat k then rs0 else <[k := Range (start r) s]> rs0).
    split; [|repeat case_match; (done || lia)]. repeat case_match; (done || lia).
Qed.

Lemma subtract_table : valid rs0 -> separate rs0 ->
  exists rs, subtract_range rs0 (Z.of_nat (length rs0)) s e = Ok rs /\ length rs = length rs0 /\ valid rs /\ separate rs /\
    ((forall x, 0 <= x -> covers rs x <-> covers rs0 x /\ ~ s <= x < e) \/
     ((forall k r, rs0 !! k = Some r -> end_ r <> 0) /\ exists k r, rs0 !! k = Some r /\ start r < s /\ e < end_ r /\
        forall x, 0 <= x -> covers rs x <-> covers rs0 x /\ ~ s <= x < end_ r)).
Proof.
  intros Hv Hsep. assert (Hroom : room rs0 0 \/ (forall k r, rs0 !! k = Some r -> end_ r <> 0) /\ exists k r, rs0 !! k = Some r /\ strictly_contains r).
  { destruct (decide (Exists (fun r => end_ r = 0) rs0)) as [Hf|Hf]; [left; left; apply Exists_exists in Hf as (r&Hin&Hr); apply list_elem_of_In, list_elem_of_lookup in Hin as [k Hk]; by exists k, r|].
    destruct (decide (Exists (fun r => start r < s /\ e < end_ r) rs0)) as [Hc|Hc].
    - right. split; [|apply Exists_exists in Hc as (r&Hin&Hr); apply list_elem_of_In, list_elem_of_lookup in Hin as [k Hk]; by exists k, r].
      intros k r Hk Hr. apply Hf, Exists_exists. exists r. split; [apply list_elem_of_In; by eapply list_elem_of_lookup_2|done].
    - left. right. intros k r _ Hk Hr. apply Hc, Exists_exists. exists r. split; [apply list_elem_of_In; by eapply list_elem_of_lookup_2|done]. }
  destruct Hroom as [Hroom|(Hfull&k&r&Hr&Hc)].
  { destruct (subtract_spec Hv Hsep Hroom) as (rs&?&?&?&?&?). exists rs. split_and!; try done. by left. }
  pose proof Hc as [Hc1 Hc2]. pose proof (lookup_lt_Some _ _ _ Hr) as Hk. destruct (Hv _ _ Hr) as [Hr0 _]. eexists. split; [by apply (subtract_lost k r)|]. split; [by rewrite length_insert|].
  split; [by apply valid_insert; simpl; try lia|]. split; [apply (separate_shrink rs0 k r); simpl; [done|done|lia]|]. right. split; [done|]. exists k, r. split_and!; [done|done|done|].
  intros x Hx. rewrite covers_insert, (covers_split rs0 k r) by done. unfold inside at 1 3. simpl. split.
  - intros [Hin|(i&q&Hi&Hq&Hqx)]; [split; [left; lia|lia]|]. split; [right; by exists i, q|]. intros Hsx.
    destruct (Hsep i k q r); try done; [by eapply Hfull|by eapply Hfull|unfold inside in Hqx; lia..].
  - intros [[Hin|Hin] Hout]; [left; lia|by right].
Qed.

End Subtract.

(** ** Cleaning and sorting *)

Lemma strongly_sorted_impl {A} (R R' : A -> A -> Prop) l : (forall x y, R x y -> R' x y) -> StronglySorted R l -> StronglySorted R' l.
Proof. intros Himp Hs. induction Hs; constructor; [done|]. eapply Forall_impl; [|done]. auto. Qed.

#[export] Instance cmp_range_comparison : Comparison cmp_range.
Proof. split; unfold cmp_range; intros; repeat case_match; lia. Qed.

Definition used (r : range) : Prop := end_ r <> 0.
#[export] Instance used_dec r : Decision (used r) := _.

Lemma filter_free (rs : list range) i r q : rs !! i = Some r -> ~ used r -> ~ used q -> filter used (<[i := q]> rs) = filter used rs.
Proof.
  intros Hr Hu Hq. pose proof (lookup_lt_Some _ _ _ Hr) as Hlt. rewrite <- (take_drop_middle rs i r Hr) at 2.
  rewrite insert_take_drop by done. by rewrite !list.filter_app, !filter_cons_False.
Qed.

(** Moving the entry [q] of slot [j] into the free slot [i]. *)
Lemma move_perm (rs : list range) i j r q : i <> j -> rs !! i = Some r -> ~ used r -> rs !! j = Some q ->
  filter used (<[j := Range 0 0]> (<[i := q]> rs)) ≡ₚ filter used rs.
Proof.
  intros Hij Hr Hu Hq. pose proof (lookup_lt_Some _ _ _ Hr). assert (Hz : ~ used (Range 0 0)) by (unfold used; simpl; lia).
  rewrite <- (filter_free rs i r (Range 0 0)) by done.
  rewrite <- (exchange_perm (<[i := Range 0 0]> rs) i j (Range 0 0) q).
  - unfold exchange. by rewrite list_insert_insert_eq.
  - by apply list_lookup_insert_eq.
  - by rewrite list_lookup_insert_ne.
Qed.

Lemma last_used_spec fuel rs i j : 0 <= i <= j -> j < Z.of_nat (length rs) -> j - i < Z.of_nat fuel ->
  exists j', last_used fuel rs i j = Ok j' /\ i <= j' <= j /\ (i < j' -> exists r, rs !! Z.to_nat j' = Some r /\ used r) /\
    forall k r, j' < Z.of_nat k <= j -> rs !! k = Some r -> ~ used r.
Proof.
  revert j. induction fuel as [|fuel IH]; intros j Hi Hj Hf; [lia|]. cbn [last_used]. destruct (i <? j) eqn:E.
  - destruct (rd_Ok rs j) as (r&->&Hr); [lia|]. cbn [obind]. destruct (end_ r =? 0) eqn:E0; simpl.
    + destruct (IH (j - 1)) as (j'&->&Hj'&Hl&Hrest); [lia|lia|lia|]. exists j'. split; [done|]. split; [lia|]. split; [done|].
      intros k q Hk Hq. destruct (decide (Z.of_nat k = j)); [|eapply Hrest; [|done]; lia]. assert (k = Z.to_nat j) as -> by lia. simplify_eq. unfold used. lia.
    + exists j. split; [done|]. split; [lia|]. split; [|lia]. intros _. exists r. split; [done|unfold used; lia].
  - exists j. split; [done|]. split; [lia|]. split; lia.
Qed.

(** Used slots come first. *)
Definition packed (rs : list range) : Prop := forall a b q, (a < b)%nat -> rs !! b = Some q -> used q -> exists r, rs !! a = Some r /\ used r.

Record compacting (i k : Z) (rs : list range) : Prop := {
  c_index : 0 <= i <= k + 1 /\ k < Z.of_nat (length rs);
  c_low : forall a r, Z.of_nat a < i -> rs !! a = Some r -> used r;
  c_high : forall b r, k < Z.of_nat b -> rs !! b = Some r -> ~ used r
}.

Lemma compact_loop_spec fuel rs i k : compacting i k rs -> k + 1 - i < Z.of_nat fuel ->
  exists rs', compact_loop fuel rs i k = Ok rs' /\ length rs' = length rs /\ packed rs' /\ filter used rs' ≡ₚ filter used rs /\
    forall P : range -> Prop, P (Range 0 0) -> Forall P rs -> Forall P rs'.
Proof.
  revert rs i k. induction fuel as [|fuel IH]; intros rs i k Hc Hf; [destruct Hc; lia|]. pose proof Hc as [Hi Hlow Hhigh]. cbn [compact_loop].
  assert (Hpack : forall n, 0 <= n -> n <= Z.of_nat (length rs) -> (forall a r, Z.of_nat a < n -> rs !! a = Some r -> used r) ->
    (forall b r, n < Z.of_nat b -> rs !! b = Some r -> ~ used r) -> packed rs).
  { intros n Hn Hn2 Hl Hh a b q Hab Hb Hq. assert (Z.of_nat b <= n) by (destruct (decide (Z.of_nat b <= n)); [done|]; exfalso; eapply Hh; try done; lia).
    destruct (lookup_lt_is_Some_2 rs a) as [r Hr]; [apply lookup_lt_Some in Hb; lia|]. exists r. split; [done|]. eapply Hl; [|done]. lia. }
  destruct (i <? k) eqn:E.
  2:{ exists rs. split; [done|]. split; [done|]. split; [|done]. apply (Hpack i); [lia|lia|done|]. intros b r Hb. apply Hhigh. lia. }
  destruct (rd_Ok rs i) as (r&->&Hr); [lia|]. cbn [obind]. destruct (end_ r =? 0) eqn:E0; simpl.
  2:{ apply IH; [|lia]. split; [lia| |done]. intros a q Ha Hq. destruct (decide (Z.of_nat a < i)); [by eapply Hlow|].
      assert (a = Z.to_nat i) as -> by lia. simplify_eq. unfold used. lia. }
  destruct (last_used_spec (Z.to_nat k + 1) rs i k) as (j&->&Hj&Hused&Hrest); [lia|lia|lia|]. cbn [obind].
  assert (Hru : ~ used r) by (unfold used; lia). destruct (j =? i) eqn:Eji.
  - exists rs. split; [done|]. split; [done|]. split; [|done]. apply (Hpack i); [lia|lia|done|].
    intros b q Hb Hq. destruct (decide (Z.of_nat b <= k)); [eapply Hrest; [|done]; lia|eapply Hhigh; [|done]; lia].
  - destruct Hused as (q&Hq&Hqu); [lia|]. rewrite (rd_Some rs j q) by (done || lia). cbn [obind].
    rewrite wr_Ok by lia. cbn [obind]. rewrite wr_Ok by (rewrite length_insert; lia). cbn [obind].
    destruct (IH (<[Z.to_nat j := Range 0 0]> (<[Z.to_nat i := q]> rs)) (i + 1) (j - 1)) as (rs'&->&L&Hp&Hf'&HP); [|lia|].
    + split; [rewrite !length_insert; lia| |].
      * intros a p Ha Hp. rewrite list_lookup_insert_ne in Hp by lia. destruct (decide (Z.of_nat a < i)).
        -- rewrite list_lookup_insert_ne in Hp by lia. by eapply Hlow.
        -- assert (a = Z.to_nat i) as -> by lia. rewrite list_lookup_insert_eq in Hp by lia. by simplify_eq.
      * intros b p Hb Hp. destruct (decide (b = Z.to_nat j)) as [->|Hbj].
        -- rewrite list_lookup_insert_eq in Hp by (rewrite length_insert; lia). simplify_eq. unfold used. simpl. lia.
        -- rewrite !list_lookup_insert_ne in Hp by lia. destruct (decide (Z.of_nat b <= k)); [eapply Hrest; [|done]; lia|eapply Hhigh; [|done]; lia].
    + exists rs'. split; [done|]. split; [by rewrite L, !length_insert|]. split; [done|]. split; [rewrite Hf'; eapply move_perm; try done; lia|].
      intros P H0 Hall. apply HP; [done|]. apply Forall_insert; [apply Forall_insert|]; try done. by eapply Forall_lookup_1 in Hall.
Qed.

(** Separate slots, as a property of the multiset of the used ones. *)
Fixpoint all_apart (l : list range) : Prop := match l with [] => True | r :: l => Forall (apart r) l /\ all_apart l end.

Lemma all_apart_perm l l' : l ≡ₚ l' -> all_apart l -> all_apart l'.
Proof.
  induction 1 as [|r l l' Hp IH|r q l|l l' l'' _ IH1 _ IH2]; [done| | |auto].
  - intros [Hr Hl]. split; [by rewrite <- Hp|auto].
  - intros ([Hrq Hr]%Forall_cons_1&Hq&Hl). split; [apply Forall_cons; [unfold apart in *; lia|done]|done].
Qed.

Lemma separate_used rs : separate rs <-> all_apart (filter used rs).
Proof.
  induction rs as [|r rs IH]; [split; [done|intros _ i j ? ? _ Hi; by rewrite lookup_nil in Hi]|].
  assert (Hcons : separate (r :: rs) <-> (used r -> Forall (fun q => used q -> apart r q) rs) /\ separate rs).
  { rewrite Forall_lookup. split.
    - intros Hs. split; [intros Hr j q Hq Hu; by apply (Hs 0%nat (S j))|]. intros i j p q Hij Hi Hj. apply (Hs (S i) (S j)); (done || lia).
    - intros [Hr Hs] i j p q Hij Hi Hj Hp Hq. destruct i as [|i], j as [|j]; [done| | |]; simpl in Hi, Hj; simplify_eq.
      + by apply (Hr Hp j).
      + pose proof (Hr Hq i p Hi Hp). unfold apart in *. lia.
      + apply (Hs i j); (done || lia). }
  rewrite Hcons, IH. destruct (decide (used r)) as [Hu|Hu].
  - rewrite filter_cons_True by done. cbn [all_apart]. assert (Forall (fun q => used q -> apart r q) rs <-> Forall (apart r) (filter used rs)) as <-; [|tauto].
    rewrite !list.Forall_forall. setoid_rewrite list_elem_of_filter. naive_solver.
  - rewrite filter_cons_False by done. tauto.
Qed.

Lemma filter_covers (rs rs' : list range) x : valid rs -> valid rs' -> 0 <= x -> filter used rs' ≡ₚ filter used rs -> covers rs' x -> covers rs x.
Proof.
  intros Hv Hv' Hx Hp (k&r&Hr&Hrx). assert (Hu : used r) by (destruct (Hv' _ _ Hr); unfold used, inside in *; lia).
  assert (Hin : r ∈ filter used rs) by (rewrite <- Hp; apply list_elem_of_filter; split; [done|by eapply list_elem_of_lookup_2]).
  apply list_elem_of_filter in Hin as [_ Hin]. apply list_elem_of_lookup in Hin as [k' Hk']. by exists k', r.
Qed.

Lemma clean_sort_spec (rs : list range) : Z.of_nat (length rs) * 16 < 2 ^ 29 ->
  exists nr rs', clean_sort_range rs (Z.of_nat (length rs)) = Ok (Z.of_nat nr, rs') /\ length rs' = length rs /\ (nr <= length rs)%nat /\
    Forall used (take nr rs') /\ Forall (fun r => ~ used r) (drop nr rs') /\ filter used rs' ≡ₚ filter used rs /\
    StronglySorted (fun r q => start r <= start q) (take nr rs') /\ forall P : range -> Prop, P (Range 0 0) -> Forall P rs -> Forall P rs'.
Proof.
  intros Hfit. unfold clean_sort_range.
  destruct (compact_loop_spec (Z.to_nat (Z.of_nat (length rs)) + 1) rs 0 (Z.of_nat (length rs) - 1)) as (rs1&->&L1&Hpack&Hperm1&HP); [|lia|].
  { split; [lia|lia|]. intros b r Hb Hr. apply lookup_lt_Some in Hr. lia. }
  cbn [obind]. destruct (find_spare_spec (Z.to_nat (Z.of_nat (length rs)) + 1) rs1 (Z.of_nat (length rs)) 0) as (i&->&Hi&Hspare&Hused); [lia|lia|lia|].
  cbn [obind]. rewrite <- (Z2Nat.id i) by lia. set (nr := Z.to_nat i).
  assert (Htake : Forall used (take nr rs1)).
  { apply Forall_lookup. intros k r Hr. apply lookup_take_Some in Hr as [Hr Hk]. eapply (Hused k); [lia|done]. }
  assert (Hdrop : Forall (fun r => ~ used r) (drop nr rs1)).
  { apply Forall_lookup. intros k r Hr. rewrite lookup_drop in Hr. pose proof (lookup_lt_Some _ _ _ Hr). intros Hu.
    destruct Hspare as (q&Hq&Hq0); [lia|]. destruct (decide (k = 0%nat)) as [->|Hk0].
    - rewrite Nat.add_0_r in Hr. unfold nr in Hr. by simplify_eq.
    - destruct (Hpack nr (nr + k)%nat r) as (q'&Hq'&Hu'); [lia|done|done|]. unfold nr in Hq'. by simplify_eq. }
  destruct (sort_spec cmp_range 16 ltac:(lia) rs1 nr) as (rs2&->&Ht&Hd&Hs); [lia|unfold fits; lia|]. cbn [obind].
  assert (Hp2 : rs2 ≡ₚ rs1) by (rewrite <- (take_drop nr rs2), <- (take_drop nr rs1), Hd; by apply Permutation_app_tail).
  exists nr, rs2. split; [done|]. split; [by rewrite (Permutation_length Hp2)|]. split; [lia|]. split; [by rewrite Ht|]. split; [by rewrite Hd|].
  split; [by rewrite Hp2|]. split; [eapply strongly_sorted_impl; [|exact Hs]; intros r q; unfold cmp_range; case_ifs; lia|].
  intros P H0 Hall. rewrite Hp2. by apply HP.
Qed.

(** A cleaned table is packed and denotes the same set. *)
Lemma clean_sort_table (rs : list range) : Z.of_nat (length rs) * 16 < 2 ^ 29 -> valid rs -> separate rs ->
  exists nr rs', clean_sort_range rs (Z.of_nat (length rs)) = Ok (nr, rs') /\ length rs' = length rs /\ 0 <= nr <= Z.of_nat (length rs) /\
    valid rs' /\ separate rs' /\ free_from rs' nr /\ forall x, 0 <= x -> covers rs' x <-> covers rs x.
Proof.
  intros Hfit Hv Hsep. destruct (clean_sort_spec rs Hfit) as (nr&rs'&Hrun&L&Hnr&_&Hfree&Hperm&_&HP). exists (Z.of_nat nr), rs'.
  assert (Hv' : valid rs').
  { pose proof (HP (fun r => 0 <= start r /\ (end_ r = 0 \/ start r < end_ r)) ltac:(simpl; lia)) as H. rewrite !Forall_lookup in H. exact (H Hv). }
  split; [done|]. split; [done|]. split; [lia|]. split; [done|]. split; [|split].
  - apply separate_used. apply (all_apart_perm (filter used rs)); [done|]. by apply separate_used.
  - intros k r Hk Hr. rewrite Forall_lookup in Hfree. specialize (Hfree (k - nr)%nat r). rewrite lookup_drop in Hfree.
    replace (nr + (k - nr))%nat with k in Hfree by lia. specialize (Hfree Hr). unfold used in Hfree. lia.
  - intros x Hx. split; apply filter_covers; done.
Qed.
