(* ===== verification/RangeProps.v ===== *)
(** * RangeProps: theorems about sorting, searching and range tables *)

From stdpp Require Import sorting.
From S2P Require Import Prelude Sort SortFacts Range RangeFacts.

(** C12: For every comparison that is a total preorder, [sort] returns, sorts
    the first [num] elements, permutes them and leaves the rest of the array
    alone; and [bsearch] with the same comparison on the result finds an
    element equal to the key exactly if there is one. *)
Theorem sort_bsearch_correct {A} (cmp : A -> A -> Z) size base (num : nat) :
  Comparison cmp -> 0 < size < 2 ^ 29 -> (num <= length base)%nat -> Z.of_nat num * size < 2 ^ 29 ->
  exists l, sort cmp size base (Z.of_nat num) = Ok l /\
    take num l ≡ₚ take num base /\ drop num l = drop num base /\ StronglySorted (fun x y => cmp x y <= 0) (take num l) /\
    forall key, exists r, bsearch cmp key (take num l) (Z.of_nat num) = Ok r /\
      match r with
      | Some k => 0 <= k /\ exists x, take num l !! Z.to_nat k = Some x /\ cmp key x = 0
      | None => forall x, x ∈ take num base -> cmp key x <> 0
      end.
Proof.
  intros Hc Hs Hn Hf. destruct (sort_spec cmp size Hs base num Hn Hf) as (l&Hl&Ht&Hd&Hsort). exists l.
  split; [done|]. split; [done|]. split; [done|]. split; [done|]. intros key.
  assert (Hlen : length (take num l) = num) by (rewrite Ht, length_take; lia).
  destruct (bsearch_loop_spec cmp key (take num l)) with (fuel := (Z.to_nat (Z.of_nat num) + 1)%nat) (start := 0) (end_ := Z.of_nat num)
    as (r&Hr&Hpost); try lia.
  - by apply sorted_ordered.
  - intros i x Hi Hx. apply lookup_lt_Some in Hx. lia.
  - exists r. split; [done|]. destruct r; [done|]. intros x Hx. rewrite <- Ht in Hx. apply list_elem_of_lookup in Hx as [i Hi]. by eapply Hpost.
Qed.

Lemma sort_bsearch_correct_witness :
  exists l, sort cmp_range 16 [Range 9 10; Range 3 4; Range 7 9; Range 1 2; Range 0 1] 4 = Ok l /\
    l = [Range 1 2; Range 3 4; Range 7 9; Range 9 10; Range 0 1] /\
    StronglySorted (fun x y => cmp_range x y <= 0) (take 4 l).
Proof.
  destruct (sort_bsearch_correct cmp_range 16 [Range 9 10; Range 3 4; Range 7 9; Range 1 2; Range 0 1] 4 _ ltac:(lia) ltac:(simpl; lia) ltac:(simpl; lia))
    as (l&Hl&_&_&Hs&_).
  exists l. split; [exact Hl|]. split; [vm_compute in Hl; injection Hl as <-; reflexivity|exact Hs].
Defined.

(** C13: A table of separate ranges whose used slots are all before [nr] is a set
    of addresses. [add_range_with_merge] adds the range and merges all that touch,
    except that a full table none of whose ranges touches the new one is left
    as it is. [subtract_range] removes exactly the range, except that in a table
    without a free slot the part above the hole of a range that must be split
    is lost with it. Both keep the ranges separate, the first also the slots packed;
    [clean_sort_range] packs them again after the second, without changing the
    set, so that the operations can follow each other in any order. *)
Theorem range_table_correct rs nr s e :
  valid rs -> separate rs -> free_from rs nr -> 0 <= nr <= Z.of_nat (length rs) -> 0 <= s < e -> Z.of_nat (length rs) * 16 < 2 ^ 29 ->
  (exists nr' rs', add_range_with_merge rs (Z.of_nat (length rs)) nr s e = Ok (nr', rs') /\
     length rs' = length rs /\ 0 <= nr' <= Z.of_nat (length rs) /\ valid rs' /\ separate rs' /\ free_from rs' nr' /\
     ((forall x, 0 <= x -> covers rs' x <-> covers rs x \/ s <= x < e) \/
      (nr = Z.of_nat (length rs) /\ rs' = rs /\ nr' = nr /\ forall k r, rs !! k = Some r -> end_ r <> 0 -> apart r (Range s e)))) /\
  (exists rs', subtract_range rs (Z.of_nat (length rs)) s e = Ok rs' /\ length rs' = length rs /\ valid rs' /\ separate rs' /\
     ((forall x, 0 <= x -> covers rs' x <-> covers rs x /\ ~ s <= x < e) \/
      ((forall k r, rs !! k = Some r -> end_ r <> 0) /\ exists k r, rs !! k = Some r /\ start r < s /\ e < end_ r /\
         forall x, 0 <= x -> covers rs' x <-> covers rs x /\ ~ s <= x < end_ r)) /\
     exists nr'' rs'', clean_sort_range rs' (Z.of_nat (length rs)) = Ok (nr'', rs'') /\ length rs'' = length rs /\ 0 <= nr'' <= Z.of_nat (length rs) /\
       valid rs'' /\ separate rs'' /\ free_from rs'' nr'' /\ forall x, 0 <= x -> covers rs'' x <-> covers rs' x).
Proof.
  intros Hv Hsep Hfree Hn Hs Hfit. split.
  - destruct (add_merge_spec rs (Z.of_nat (length rs)) nr s e) as (nr'&rs'&?&?&?&?&?&?&?); try done; try lia. exists nr', rs'. split_and!; done || lia.
  - destruct (subtract_table rs s e Hs Hv Hsep) as (rs'&Hrun&L&Hv'&Hsep'&Hcov). exists rs'. split; [done|]. split; [done|]. split; [done|]. split; [done|].
    split; [done|]. destruct (clean_sort_table rs') as (nr''&rs''&Hc&L''&H''); [by rewrite L|done|done|]. rewrite L in *. exists nr'', rs''. done.
Qed.

(** Three ranges of which the new one joins two. *)
Lemma range_table_correct_witness :
  exists nr rs, add_range_with_merge [Range 0 5; Range 20 30; Range 7 9; Range 0 0; Range 0 0] 5 3 5 7 = Ok (nr, rs) /\
    nr = 2 /\ rs = [Range 20 30; Range 0 9; Range 0 0; Range 0 0; Range 0 0] /\
    forall x, 0 <= x -> covers rs x <-> covers [Range 0 5; Range 20 30; Range 7 9; Range 0 0; Range 0 0] x \/ 5 <= x < 7.
Proof.
  assert (Hv : valid [Range 0 5; Range 20 30; Range 7 9; Range 0 0; Range 0 0]).
  { intros k r Hr. do 5 (destruct k as [|k]; [injection Hr as <-; simpl; lia|]). done. }
  assert (Hs : separate [Range 0 5; Range 20 30; Range 7 9; Range 0 0; Range 0 0]).
  { intros i j r q Hij Hr Hq Hr0 Hq0. unfold apart.
    do 5 (destruct i as [|i]; [injection Hr as <-; do 5 (destruct j as [|j]; [injection Hq as <-; simpl in *; lia|]); done|]). done. }
  assert (Hf : free_from [Range 0 5; Range 20 30; Range 7 9; Range 0 0; Range 0 0] 3).
  { intros k r Hk Hr. do 3 (destruct k as [|k]; [lia|]). do 2 (destruct k as [|k]; [by injection Hr as <-|]). done. }
  destruct (range_table_correct _ 3 5 7 Hv Hs Hf ltac:(simpl; lia) ltac:(lia) ltac:(simpl; lia)) as [(nr&rs&He&_&_&_&_&_&Hc) _].
  vm_compute in He. injection He as <- <-. exists 2, [Range 20 30; Range 0 9; Range 0 0; Range 0 0; Range 0 0].
  split; [reflexivity|]. split; [reflexivity|]. split; [reflexivity|]. destruct Hc as [Hc|[[=] _]]. exact Hc.
Defined.

(** [clean_sort_range] keeps the multiset of the used slots, moves them to
    the front, sorted by their start, and returns their number. *)
Theorem clean_sort_range_correct (rs : list range) :
  Z.of_nat (length rs) * 16 < 2 ^ 29 ->
  exists nr rs', clean_sort_range rs (Z.of_nat (length rs)) = Ok (Z.of_nat nr, rs') /\ length rs' = length rs /\ (nr <= length rs)%nat /\
    Forall used (take nr rs') /\ Forall (fun r => ~ used r) (drop nr rs') /\ filter used rs' ≡ₚ filter used rs /\
    StronglySorted (fun r q => start r <= start q) (take nr rs').
Proof.
  intros Hfit. destruct (clean_sort_spec rs Hfit) as (nr&rs'&?&?&?&?&?&?&?&_). exists nr, rs'. split_and!; done.
Qed.

Lemma clean_sort_range_correct_witness :
  exists rs, clean_sort_range [Range 0 0; Range 20 30; Range 0 0; Range 0 9; Range 12 14] 5 = Ok (3, rs) /\
    rs = [Range 0 9; Range 12 14; Range 20 30; Range 0 0; Range 0 0].
Proof.
  destruct (clean_sort_range_correct [Range 0 0; Range 20 30; Range 0 0; Range 0 9; Range 12 14]) as (nr&rs&He&_); [simpl; lia|].
  vm_compute in He. injection He as E <-. eexists. split; [vm_compute; reflexivity|reflexivity].
Defined.
