(* ===== verification/Ashmem.v ===== *)
(** * Ashmem: the anonymous shared memory driver

    [drivers/staging/android/ashmem.c]. The ranges of unpinned pages live in
    two kinds of list at once: the list of their area, in descending page
    order, and the global LRU list of ranges that may be purged. The lists hold
    identities of ranges, and a store maps identities to ranges, so that a
    range that is freed while a list still names it is a fault of the model.

    The mutex makes each operation atomic. Allocation failures, user memory,
    the virtual file system and the backing shmem file are arguments. *)

From stdpp Require Import gmap.
From S2P Require Import Prelude.

Definition EPERM : Z := 1.
Definition EBADF : Z := 9.
Definition ENOTTY : Z := 25.

Definition PAGE_SIZE : Z := 4096.
Definition ASHMEM_NAME_LEN : Z := 256.
Definition ASHMEM_NOT_PURGED : Z := 0.
Definition ASHMEM_WAS_PURGED : Z := 1.
Definition ASHMEM_IS_UNPINNED : Z := 0.
Definition ASHMEM_IS_PINNED : Z := 1.

(** The bytes of ["dev/ashmem/"] and ["dev/ashmem"] with its NUL. *)
Definition ASHMEM_NAME_PREFIX : list Z := [100; 101; 118; 47; 97; 115; 104; 109; 101; 109; 47].
Definition ASHMEM_NAME_PREFIX_LEN : Z := 11.
Definition ASHMEM_FULL_NAME_LEN : Z := ASHMEM_NAME_LEN + ASHMEM_NAME_PREFIX_LEN.
Definition ASHMEM_NAME_DEF : list Z := [100; 101; 118; 47; 97; 115; 104; 109; 101; 109; 0].

Definition PROT_READ : Z := 1.
Definition PROT_WRITE : Z := 2.
Definition PROT_EXEC : Z := 4.
Definition PROT_MASK : Z := 7.

(** ** State *)

Record ashmem_range := AshmemRange {
  asma : Z;
  pgstart : Z;
  pgend : Z;
  purged : Z
}.

Record ashmem_area := AshmemArea {
  name : list Z;
  unpinned_list : list Z;
  file : option Z;
  size : Z;
  prot_mask : Z
}.

(** The store, the LRU list and its page count, the next identity, and the holes
    punched so far: file, first byte and length. *)
Record world := World {
  ranges : gmap Z ashmem_range;
  areas : gmap Z ashmem_area;
  ashmem_lru_list : list Z;
  lru_count : Z;
  next_id : Z;
  punched : list (Z * Z * Z)
}.

Definition set_ranges (w : world) (m : gmap Z ashmem_range) : world :=
  World m (areas w) (ashmem_lru_list w) (lru_count w) (next_id w) (punched w).
Definition set_areas (w : world) (m : gmap Z ashmem_area) : world :=
  World (ranges w) m (ashmem_lru_list w) (lru_count w) (next_id w) (punched w).
Definition set_lru (w : world) (l : list Z) (n : Z) : world :=
  World (ranges w) (areas w) l n (next_id w) (punched w).
Definition set_next (w : world) (n : Z) : world :=
  World (ranges w) (areas w) (ashmem_lru_list w) (lru_count w) n (punched w).
Definition punch (w : world) (h : Z * Z * Z) : world :=
  World (ranges w) (areas w) (ashmem_lru_list w) (lru_count w) (next_id w) (punched w ++ [h]).

Definition set_unpinned (a : ashmem_area) (l : list Z) : ashmem_area :=
  AshmemArea (name a) l (file a) (size a) (prot_mask a).

(** Dereference; a freed object is a fault. *)
Definition get_range (w : world) (id : Z) : outcome ashmem_range :=
  match ranges w !! id with Some r => Ok r | None => Oops end.
Definition get_area (w : world) (a : Z) : outcome ashmem_area :=
  match areas w !! a with Some x => Ok x | None => Oops end.

(** [list_del] and [list_add_tail(new, pos)], [None] being the list head. *)
Definition list_del (id : Z) (l : list Z) : list Z := filter (fun x => x <> id) l.

Fixpoint list_insert_before (pos : option Z) (id : Z) (l : list Z) : list Z :=
  match l with
  | [] => [id]
  | x :: l => if bool_decide (pos = Some x) then id :: x :: l else x :: list_insert_before pos id l
  end.

(** ** Ranges *)

Definition range_size (r : ashmem_range) : Z := u64 (pgend r - pgstart r + 1).
Definition range_on_lru (r : ashmem_range) : bool := purged r =? ASHMEM_NOT_PURGED.
Definition page_range_subsumes_range (r : ashmem_range) (s e : Z) : bool := (s <=? pgstart r) && (pgend r <=? e).
Definition page_range_subsumed_by_range (r : ashmem_range) (s e : Z) : bool := (pgstart r <=? s) && (e <=? pgend r).
Definition page_in_range (r : ashmem_range) (page : Z) : bool := (pgstart r <=? page) && (page <=? pgend r).
Definition page_range_in_range (r : ashmem_range) (s e : Z) : bool :=
  page_in_range r s || page_in_range r e || page_range_subsumes_range r s e.
Definition range_before_page (r : ashmem_range) (page : Z) : bool := pgend r <? page.

Definition lru_add (w : world) (id : Z) : outcome world :=
  let* r := get_range w id in
  Ok (set_lru w (ashmem_lru_list w ++ [id]) (u64 (lru_count w + range_size r))).

Definition lru_del (w : world) (id : Z) : outcome world :=
  let* r := get_range w id in
  Ok (set_lru w (list_del id (ashmem_lru_list w)) (u64 (lru_count w - range_size r))).

Section Alloc.
(** Whether the allocation that would get identity [id] succeeds. *)
Context (alloc_ok : Z -> bool).

Definition range_alloc (w : world) (a : Z) (prev : option Z) (purge start end_ : Z) : outcome (Z * world) :=
  let id := next_id w in
  let w := set_next w (id + 1) in
  if negb (alloc_ok id) then Ok (- ENOMEM, w)
  else
    let r := AshmemRange a start end_ purge in
    let w := set_ranges w (<[id := r]> (ranges w)) in
    let* ar := get_area w a in
    let w := set_areas w (<[a := set_unpinned ar (list_insert_before prev id (unpinned_list ar))]> (areas w)) in
    let* w := (if range_on_lru r then lru_add w id else Ok w) in
    Ok (0, w).

Definition range_del (w : world) (id : Z) : outcome world :=
  let* r := get_range w id in
  let* ar := get_area w (asma r) in
  let w := set_areas w (<[asma r := set_unpinned ar (list_del id (unpinned_list ar))]> (areas w)) in
  let* w := (if range_on_lru r then lru_del w id else Ok w) in
  Ok (set_ranges w (delete id (ranges w))).

Definition range_shrink (w : world) (id start end_ : Z) : outcome world :=
  let* r := get_range w id in
  let pre := range_size r in
  let r := AshmemRange (asma r) start end_ (purged r) in
  let w := set_ranges w (<[id := r]> (ranges w)) in
  Ok (if range_on_lru r then set_lru w (ashmem_lru_list w) (u64 (lru_count w - u64 (pre - range_size r))) else w).

(** ** Pinning *)

(** The loop of [ashmem_pin] over the entries that are left. The entries seen
    by [list_for_each_entry_safe] are those of the list at the start: the body
    deletes the current entry, or adds one before it and leaves. *)
Fixpoint pin_loop (ids : list Z) (w : world) (a s e ret : Z) : outcome (Z * world) :=
  match ids with
  | [] => Ok (ret, w)
  | id :: ids =>
    let* r := get_range w id in
    if range_before_page r s then Ok (ret, w)
    else if page_range_in_range r s e then
      let ret := Z.lor ret (purged r) in
      if page_range_subsumes_range r s e then
        let* w := range_del w id in
        pin_loop ids w a s e ret
      else if s <=? pgstart r then
        let* w := range_shrink w id (u64 (e + 1)) (pgend r) in
        pin_loop ids w a s e ret
      else if pgend r <=? e then
        let* w := range_shrink w id (pgstart r) (u64 (s - 1)) in
        pin_loop ids w a s e ret
      else
        let* (_, w) := range_alloc w a (Some id) (purged r) (u64 (e + 1)) (pgend r) in
        let* w := range_shrink w id (pgstart r) (u64 (s - 1)) in
        Ok (ret, w)
    else pin_loop ids w a s e ret
  end.

Definition ashmem_pin (w : world) (a s e : Z) : outcome (Z * world) :=
  let* ar := get_area w a in
  pin_loop (unpinned_list ar) w a s e ASHMEM_NOT_PURGED.

(** One pass of the loop of [ashmem_unpin]: where to insert, an early return,
    or the entry that is merged before the restart. *)
Inductive unpin_result := InsertAt (pos : option Z) | Covered | MergeWith (id : Z).

Fixpoint unpin_scan (ids : list Z) (w : world) (s e : Z) : outcome unpin_result :=
  match ids with
  | [] => Ok (InsertAt None)
  | id :: ids =>
    let* r := get_range w id in
    if range_before_page r s then Ok (InsertAt (Some id))
    else if page_range_subsumed_by_range r s e then Ok Covered
    else if page_range_in_range r s e then Ok (MergeWith id)
    else unpin_scan ids w s e
  end.

Fixpoint unpin_restart (fuel : nat) (w : world) (a s e purge : Z) : outcome (Z * world) :=
  match fuel with
  | O => NoFuel
  | S fuel =>
    let* ar := get_area w a in
    let* x := unpin_scan (unpinned_list ar) w s e in
    match x with
    | Covered => Ok (0, w)
    | InsertAt pos => range_alloc w a pos purge s e
    | MergeWith id =>
      let* r := get_range w id in
      let s := Z.min (pgstart r) s in
      let e := Z.max (pgend r) e in
      let purge := Z.lor purge (purged r) in
      let* w := range_del w id in
      unpin_restart fuel w a s e purge
    end
  end.

Definition ashmem_unpin (w : world) (a s e : Z) : outcome (Z * world) :=
  let* ar := get_area w a in
  unpin_restart (length (unpinned_list ar) + 1) w a s e ASHMEM_NOT_PURGED.

Fixpoint pin_status_loop (ids : list Z) (w : world) (s e : Z) : outcome Z :=
  match ids with
  | [] => Ok ASHMEM_IS_PINNED
  | id :: ids =>
    let* r := get_range w id in
    if range_before_page r s then Ok ASHMEM_IS_PINNED
    else if page_range_in_range r s e then Ok ASHMEM_IS_UNPINNED
    else pin_status_loop ids w s e
  end.

Definition ashmem_get_pin_status (w : world) (a s e : Z) : outcome Z :=
  let* ar := get_area w a in
  pin_status_loop (unpinned_list ar) w s e.

Definition PAGE_ALIGN (x : Z) : Z := Z.land (u64 (x + (PAGE_SIZE - 1))) (u64 (Z.lnot (PAGE_SIZE - 1))).

Inductive pin_cmd := ASHMEM_PIN | ASHMEM_UNPIN | ASHMEM_GET_PIN_STATUS.

(** [pin] is the structure read from user space, [None] on a fault; its fields
    have 32 bits. *)
Definition ashmem_pin_unpin (w : world) (a : Z) (cmd : pin_cmd) (pin : option (Z * Z)) : outcome (Z * world) :=
  let* ar := get_area w a in
  match file ar with
  | None => Ok (- EINVAL, w)
  | Some _ =>
    match pin with
    | None => Ok (- EFAULT, w)
    | Some (offset, len) =>
      let len := if len =? 0 then u32 (PAGE_ALIGN (size ar) - offset) else len in
      if negb (Z.land (Z.lor offset len) (PAGE_SIZE - 1) =? 0) then Ok (- EINVAL, w)
      else if u32 (UINT_MAX - offset) <? len then Ok (- EINVAL, w)
      else if PAGE_ALIGN (size ar) <? u32 (offset + len) then Ok (- EINVAL, w)
      else
        let s := offset / PAGE_SIZE in
        let e := u64 (s + len / PAGE_SIZE - 1) in
        match cmd with
        | ASHMEM_PIN => ashmem_pin w a s e
        | ASHMEM_UNPIN => ashmem_unpin w a s e
        | ASHMEM_GET_PIN_STATUS => let* r := ashmem_get_pin_status w a s e in Ok (r, w)
        end
    end
  end.

(** ** Files *)

(** [open_ret] is the result of [generic_file_open]; the new area is returned. *)
Definition ashmem_open (w : world) (open_ret : Z) : Z * option Z * world :=
  if negb (open_ret =? 0) then (open_ret, None, w)
  else
    let id := next_id w in
    let w := set_next w (id + 1) in
    if negb (alloc_ok id) then (- ENOMEM, None, w)
    else
      let ar := AshmemArea (ASHMEM_NAME_PREFIX ++ replicate (Z.to_nat ASHMEM_NAME_LEN) 0) [] None 0 PROT_MASK in
      (0, Some id, set_areas w (<[id := ar]> (areas w))).

Fixpoint release_loop (ids : list Z) (w : world) : outcome world :=
  match ids with
  | [] => Ok w
  | id :: ids => let* w := range_del w id in release_loop ids w
  end.

Definition ashmem_release (w : world) (a : Z) : outcome (Z * world) :=
  let* ar := get_area w a in
  let* w := release_loop (unpinned_list ar) w in
  Ok (0, set_areas w (delete a (areas w))).

End Alloc.

Definition SHRINK_STOP : Z := ULLONG_MAX.

(** [range->asma->file->f_op->fallocate(..., start, end - start)]: a hole. *)
Definition purge_range (w : world) (id : Z) : outcome (ashmem_range * world) :=
  let* r := get_range w id in
  let* ar := get_area w (asma r) in
  match file ar with
  | None => Oops
  | Some f =>
    let start := s64 (pgstart r * PAGE_SIZE) in
    let end_ := s64 (u64 (pgend r + 1) * PAGE_SIZE) in
    let w := punch w (f, start, s64 (end_ - start)) in
    let r := AshmemRange (asma r) (pgstart r) (pgend r) ASHMEM_WAS_PURGED in
    let w := set_ranges w (<[id := r]> (ranges w)) in
    let* w := lru_del w id in
    Ok (r, w)
  end.

(** [sc->nr_to_scan] is an unsigned long, so [--nr_to_scan <= 0] is a test for
    zero after the wrap. *)
Fixpoint shrink_loop (ids : list Z) (w : world) (nr_to_scan freed : Z) : outcome (Z * world) :=
  match ids with
  | [] => Ok (freed, w)
  | id :: ids =>
    let* (r, w) := purge_range w id in
    let freed := u64 (freed + range_size r) in
    let nr_to_scan := u64 (nr_to_scan - 1) in
    if nr_to_scan <=? 0 then Ok (freed, w)
    else shrink_loop ids w nr_to_scan freed
  end.

(** [gfp_fs]: the mask allows file system calls; [locked]: the trylock succeeds. *)
Definition ashmem_shrink_scan (w : world) (gfp_fs locked : bool) (nr_to_scan : Z) : outcome (Z * world) :=
  if negb gfp_fs then Ok (SHRINK_STOP, w)
  else if negb locked then Ok (u64 (-1), w)
  else shrink_loop (ashmem_lru_list w) w nr_to_scan 0.

Definition ashmem_shrink_count (w : world) : Z := lru_count w.

(** ** Names and protection *)

Definition set_area (w : world) (a : Z) (ar : ashmem_area) : world := set_areas w (<[a := ar]> (areas w)).

(** [read_implies_exec]: the personality of the caller. *)
Definition set_prot_mask (w : world) (a prot : Z) (read_implies_exec : bool) : outcome (Z * world) :=
  let* ar := get_area w a in
  if negb (Z.land (prot_mask ar) prot =? prot) then Ok (- EINVAL, w)
  else
    let prot := if negb (Z.land prot PROT_READ =? 0) && read_implies_exec then Z.lor prot PROT_EXEC else prot in
    Ok (0, set_area w a (AshmemArea (name ar) (unpinned_list ar) (file ar) (size ar) prot)).

(** The bytes before the first NUL, or [None] if there is none. *)
Fixpoint cstring (l : list Z) : option (list Z) :=
  match l with
  | [] => None
  | c :: l => if c =? 0 then Some [] else option_map (cons c) (cstring l)
  end.

(** [strncpy_from_user(local_name, name, ASHMEM_NAME_LEN)]: the user string is
    [inr s] without its NUL, or [inl err]; [junk] is the uninitialised buffer. *)
Definition strncpy_from_user (junk : list Z) (user : Z + list Z) : Z * list Z :=
  match user with
  | inl err => (err, junk)
  | inr s =>
    let copied := take (Z.to_nat ASHMEM_NAME_LEN) (s ++ [0]) in
    (Z.min (Z.of_nat (length s)) ASHMEM_NAME_LEN, copied ++ drop (length copied) junk)
  end.

(** [strcpy(asma->name + ASHMEM_NAME_PREFIX_LEN, local_name)] *)
Definition strcpy_name (nm local_name : list Z) : outcome (list Z) :=
  match cstring local_name with
  | None => Oops
  | Some s => memcpy nm ASHMEM_NAME_PREFIX_LEN (s ++ [0]) 0 (Z.of_nat (length s) + 1)
  end.

Definition set_name (w : world) (a : Z) (junk : list Z) (user : Z + list Z) : outcome (Z * world) :=
  let '(len, local_name) := strncpy_from_user junk user in
  if len <? 0 then Ok (len, w)
  else
    let* local_name := (if len =? ASHMEM_NAME_LEN then wr local_name (ASHMEM_NAME_LEN - 1) 0 else Ok local_name) in
    let* ar := get_area w a in
    match file ar with
    | Some _ => Ok (- EINVAL, w)
    | None =>
      let* nm := strcpy_name (name ar) local_name in
      Ok (0, set_area w a (AshmemArea nm (unpinned_list ar) (file ar) (size ar) (prot_mask ar)))
    end.

(** The bytes copied to user space, and the result of the copy: [uncopied] is
    what [copy_to_user] leaves. *)
Definition get_name (w : world) (a : Z) (uncopied : Z) : outcome (Z * list Z) :=
  let* ar := get_area w a in
  let* c := rd (name ar) ASHMEM_NAME_PREFIX_LEN in
  let local_name := replicate (Z.to_nat ASHMEM_NAME_LEN) 0 in
  let* (local_name, len) :=
    (if negb (c =? 0) then
       match cstring (drop (Z.to_nat ASHMEM_NAME_PREFIX_LEN) (name ar)) with
       | None => Oops
       | Some s => let len := Z.of_nat (length s) + 1 in
                   let* l := memcpy local_name 0 (name ar) ASHMEM_NAME_PREFIX_LEN len in
                   Ok (l, len)
       end
     else
       let len := Z.of_nat (length ASHMEM_NAME_DEF) in
       let* l := memcpy local_name 0 ASHMEM_NAME_DEF 0 len in
       Ok (l, len)) in
  if negb (uncopied =? 0) then Ok (- EFAULT, [])
  else Ok (0, take (Z.to_nat len) local_name).

(** ** Mapping *)

Definition VM_MAYREAD : Z := 16.
Definition VM_MAYWRITE : Z := 32.
Definition VM_MAYEXEC : Z := 64.

Definition calc_vm_trans (x bit1 bit2 : Z) : Z :=
  if bit1 <=? bit2 then Z.land x bit1 * (bit2 / bit1) else Z.land x bit1 / (bit1 / bit2).

(** The protection bits are the flag bits of the same value. *)
Definition calc_vm_prot_bits (prot : Z) : Z :=
  Z.lor (Z.lor (calc_vm_trans prot PROT_READ 1) (calc_vm_trans prot PROT_WRITE 2)) (calc_vm_trans prot PROT_EXEC 4).

Definition calc_vm_may_flags (prot : Z) : Z :=
  Z.lor (Z.lor (calc_vm_trans prot PROT_READ VM_MAYREAD) (calc_vm_trans prot PROT_WRITE VM_MAYWRITE))
        (calc_vm_trans prot PROT_EXEC VM_MAYEXEC).

(** [shmem_file_setup] gives a file or an error. Returns the result, the flags
    and the file of the mapping. *)
Definition ashmem_mmap (w : world) (a vm_flags : Z) (shmem_file_setup : Z + Z) : outcome (Z * Z * option Z * world) :=
  let* ar := get_area w a in
  if size ar =? 0 then Ok (- EINVAL, vm_flags, None, w)
  else if negb (Z.land (Z.land vm_flags (u64 (Z.lnot (calc_vm_prot_bits (prot_mask ar))))) (calc_vm_prot_bits PROT_MASK) =? 0)
  then Ok (- EPERM, vm_flags, None, w)
  else
    let vm_flags := Z.land vm_flags (u64 (Z.lnot (calc_vm_may_flags (u64 (Z.lnot (prot_mask ar)))))) in
    match file ar with
    | Some f => Ok (0, vm_flags, Some f, w)
    | None =>
      match shmem_file_setup with
      | inl err => Ok (err, vm_flags, None, w)
      | inr f => Ok (0, vm_flags, Some f, set_area w a (AshmemArea (name ar) (unpinned_list ar) (Some f) (size ar) (prot_mask ar)))
      end
    end.

(** [vfs_llseek] of the backing file returns a value and its new position.
    Returns the result and the new position of the ashmem file. *)
Definition ashmem_llseek (w : world) (a f_pos : Z) (vfs_llseek : Z * Z) : outcome (Z * Z) :=
  let* ar := get_area w a in
  if size ar =? 0 then Ok (- EINVAL, f_pos)
  else match file ar with
       | None => Ok (- EBADF, f_pos)
       | Some _ =>
         let ret := s32 (fst vfs_llseek) in
         if ret <? 0 then Ok (ret, f_pos) else Ok (ret, snd vfs_llseek)
       end.

(** [__vfs_read] returns a count and the position it leaves in [*pos]. Returns the
    result and the position of the backing file. *)
Definition ashmem_read (w : world) (a backing_pos : Z) (vfs_read : Z * Z) : outcome (Z * Z) :=
  let* ar := get_area w a in
  if size ar =? 0 then Ok (0, backing_pos)
  else match file ar with
       | None => Ok (- EBADF, backing_pos)
       | Some _ =>
         let ret := s32 (fst vfs_read) in
         if 0 <=? ret then Ok (ret, snd vfs_read) else Ok (ret, backing_pos)
       end.

(** ** The ioctl *)

Inductive ioctl_cmd :=
| SET_NAME (junk : list Z) (user : Z + list Z)
| GET_NAME (uncopied : Z)
| SET_SIZE (arg : Z)
| GET_SIZE
| SET_PROT_MASK (prot : Z) (read_implies_exec : bool)
| GET_PROT_MASK
| PIN_UNPIN (cmd : pin_cmd) (pin : option (Z * Z))
| PURGE_ALL_CACHES (capable locked : bool)
| OTHER.

Definition LONG_MAX : Z := 2 ^ 63 - 1.

Definition ashmem_ioctl (alloc_ok : Z -> bool) (w : world) (a : Z) (cmd : ioctl_cmd) : outcome (Z * world) :=
  match cmd with
  | SET_NAME junk user => set_name w a junk user
  | GET_NAME uncopied => let* (r, _) := get_name w a uncopied in Ok (r, w)
  | SET_SIZE arg =>
    let* ar := get_area w a in
    match file ar with
    | None => Ok (0, set_area w a (AshmemArea (name ar) (unpinned_list ar) (file ar) arg (prot_mask ar)))
    | Some _ => Ok (- EINVAL, w)
    end
  | GET_SIZE => let* ar := get_area w a in Ok (s64 (size ar), w)
  | SET_PROT_MASK prot rie => set_prot_mask w a prot rie
  | GET_PROT_MASK => let* ar := get_area w a in Ok (s64 (prot_mask ar), w)
  | PIN_UNPIN cmd pin => ashmem_pin_unpin alloc_ok w a cmd pin
  | PURGE_ALL_CACHES capable locked =>
    if capable then
      let ret := ashmem_shrink_count w in
      let* (_, w) := ashmem_shrink_scan w true locked LONG_MAX in
      Ok (s64 ret, w)
    else Ok (- EPERM, w)
  | OTHER => Ok (- ENOTTY, w)
  end.
