(* ===== verification/AshmemFacts.v ===== *)
(** * AshmemFacts: the bookkeeping invariant of ashmem

    Every range is on the list of its area, exactly the ranges that are not
    purged are on the LRU list, and [lru_count] is the number of pages on it.
    The operations on single ranges keep this. *)

From stdpp Require Import gmap.
From S2P Require Import Prelude Ashmem.

(** ** Lists of identities *)

Lemma list_del_notin id l : id ∉ l -> list_del id l = l.
Proof.
  induction l as [|x l IH]; intros Hn; [done|]. apply not_elem_of_cons in Hn as [Hx Hl]. unfold list_del in *.
  rewrite filter_cons_True by done. by rewrite IH.
Qed.

Lemma list_del_middle id l1 l2 : NoDup (l1 ++ id :: l2) -> list_del id (l1 ++ id :: l2) = l1 ++ l2.
Proof.
  intros Hn. apply list.NoDup_app in Hn as (_&H12&H2). apply list.NoDup_cons in H2 as [Hid _].
  unfold list_del. rewrite list.filter_app, filter_cons_False by (by intros []). f_equal.
  - apply list_del_notin. intros H1. apply (H12 id H1). by left.
  - by apply list_del_notin.
Qed.

Lemma elem_of_list_del x id l : x ∈ list_del id l <-> x ∈ l /\ x <> id.
Proof. unfold list_del. rewrite list_elem_of_filter. tauto. Qed.

Lemma NoDup_list_del id l : NoDup l -> NoDup (list_del id l).
Proof. apply list.NoDup_filter. Qed.

(** Insertion before the first occurrence. *)
Lemma insert_before_app pos id l1 l2 : Forall (fun x => pos <> Some x) l1 ->
  list_insert_before pos id (l1 ++ l2) = l1 ++ list_insert_before pos id l2.
Proof.
  induction l1 as [|x l1 IH]; intros Hf; [done|]. apply Forall_cons_1 in Hf as [Hx Hf]. simpl. rewrite bool_decide_eq_false_2 by done. by rewrite IH.
Qed.

Lemma insert_before_perm pos id l : list_insert_before pos id l ≡ₚ id :: l.
Proof.
  induction l as [|x l IH]; [done|]. simpl. case_bool_decide; [done|]. rewrite IH. apply Permutation_swap.
Qed.

(** ** The pages on a list *)

Definition pages_of (m : gmap Z ashmem_range) (l : list Z) : Z :=
  foldr (fun id acc => from_option range_size 0 (m !! id) + acc) 0 l.

Lemma pages_of_app m l1 l2 : pages_of m (l1 ++ l2) = pages_of m l1 + pages_of m l2.
Proof. induction l1 as [|x l1 IH]; simpl; lia. Qed.

Lemma pages_of_ext m m' l : (forall id, id ∈ l -> m !! id = m' !! id) -> pages_of m l = pages_of m' l.
Proof.
  induction l as [|x l IH]; intros H; [done|]. simpl. rewrite H by (by left). rewrite IH; [done|]. intros id Hid. apply H. by right.
Qed.

Lemma pages_of_del m l id r : NoDup l -> id ∈ l -> m !! id = Some r -> pages_of m l = range_size r + pages_of m (list_del id l).
Proof.
  intros Hn Hid Hr. apply list_elem_of_split in Hid as (l1&l2&->). rewrite list_del_middle by done.
  rewrite !pages_of_app. simpl. rewrite Hr. simpl. lia.
Qed.

Lemma u64_sub_r a b : u64 (a - u64 b) = u64 (a - b).
Proof. apply Zminus_mod_idemp_r. Qed.

Lemma u64_add_r a b : u64 (a + u64 b) = u64 (a + b).
Proof. apply Zplus_mod_idemp_r. Qed.

(** ** The invariant *)

Definition range_ok (r : ashmem_range) : Prop :=
  0 <= pgstart r < 2 ^ 64 /\ 0 <= pgend r < 2 ^ 64 /\ (purged r = 0 \/ purged r = 1).

(** An area: its name is terminated inside the array, and once it has a backing
    file its size is that of a file. *)
Definition area_ok (ar : ashmem_area) : Prop :=
  (exists s pad, name ar = ASHMEM_NAME_PREFIX ++ s ++ 0 :: pad /\ Forall (fun c => c <> 0) s /\
     Z.of_nat (length (s ++ 0 :: pad)) = ASHMEM_NAME_LEN) /\
  0 <= size ar < 2 ^ 64 /\ (file ar <> None -> 0 < size ar < 2 ^ 63) /\ 0 <= prot_mask ar < 8.

Record wf (w : world) : Prop := {
  wf_area a ar : areas w !! a = Some ar -> area_ok ar /\ a < next_id w /\ NoDup (unpinned_list ar) /\
    forall id, id ∈ unpinned_list ar -> exists r, ranges w !! id = Some r /\ asma r = a;
  wf_range id r : ranges w !! id = Some r -> range_ok r /\ id < next_id w /\
    exists ar, areas w !! asma r = Some ar /\ id ∈ unpinned_list ar /\ file ar <> None;
  wf_lru : NoDup (ashmem_lru_list w) /\ forall id, id ∈ ashmem_lru_list w <-> exists r, ranges w !! id = Some r /\ purged r = 0;
  wf_count : lru_count w = u64 (pages_of (ranges w) (ashmem_lru_list w))
}.

(** Only the lists of area [a] and the ranges of area [a] differ. *)
Record same_but (a : Z) (w w' : world) : Prop := {
  sb_areas : exists l, forall b, areas w' !! b = (if decide (b = a) then (fun ar => set_unpinned ar l) <$> areas w !! b else areas w !! b);
  sb_ranges : forall id r, asma r <> a -> ranges w' !! id = Some r <-> ranges w !! id = Some r;
  sb_next : next_id w <= next_id w';
  sb_punched : punched w' = punched w
}.

Lemma same_but_refl a w : same_but a w w.
Proof.
  split; [|done|lia|done]. destruct (areas w !! a) as [ar|] eqn:E.
  - exists (unpinned_list ar). intros b. case_decide; [subst; rewrite E; by destruct ar|done].
  - exists []. intros b. case_decide; [subst; by rewrite E|done].
Qed.

Lemma same_but_trans a w1 w2 w3 : same_but a w1 w2 -> same_but a w2 w3 -> same_but a w1 w3.
Proof.
  intros [[l1 A1] R1 N1 P1] [[l2 A2] R2 N2 P2]. split; [|intros id r Hr; by rewrite R2, R1|lia|congruence].
  exists l2. intros b. rewrite A2, A1. case_decide; [|done]. by destruct (areas w1 !! b).
Qed.

(** ** Allocation *)

Section Ops.
Context (alloc_ok : Z -> bool).

(** A new range [r] on the list of the area [a]. *)
Section added.
Context (w : world) (Hwf : wf w) (a : Z) (ar : ashmem_area) (Har : areas w !! a = Some ar) (Hf : file ar <> None) (r : ashmem_range) (Hok : range_ok r) (Hr : asma r = a) (l' : list Z) (Hl' : l' ≡ₚ next_id w :: unpinned_list ar).

Let areas' := <[a := set_unpinned ar l']> (areas w).
Let ranges' := <[next_id w := r]> (ranges w).

Lemma fresh_range : ranges w !! next_id w = None.
Proof. destruct (ranges w !! next_id w) as [q|] eqn:E; [|done]. destruct (wf_range _ Hwf _ _ E) as (_&?&_). lia. Qed.

Lemma fresh_unlisted b br : areas w !! b = Some br -> next_id w ∉ unpinned_list br.
Proof. intros Hb Hin. destruct (wf_area _ Hwf b br Hb) as (_&_&_&Hin'). destruct (Hin' _ Hin) as (q&E&_). by rewrite fresh_range in E. Qed.

Lemma fresh_off_lru : next_id w ∉ ashmem_lru_list w.
Proof. destruct (wf_lru _ Hwf) as (_&Hl). rewrite Hl. intros (q&E&_). by rewrite fresh_range in E. Qed.

Lemma added_old id : ranges w !! id <> None -> ranges' !! id = ranges w !! id.
Proof. intros Hn. unfold ranges'. rewrite lookup_insert_ne; [done|]. intros <-. by rewrite fresh_range in Hn. Qed.

Lemma added_area b br : areas' !! b = Some br -> area_ok br /\ b < next_id w + 1 /\ NoDup (unpinned_list br) /\
  forall id, id ∈ unpinned_list br -> exists q, ranges' !! id = Some q /\ asma q = b.
Proof.
  intros Hb. unfold areas' in Hb. destruct (decide (b = a)) as [->|Hne].
  - rewrite lookup_insert_eq in Hb. injection Hb as <-. destruct (wf_area _ Hwf a ar Har) as (Hok'&Hlt&Hnd&Hin). split; [done|]. split; [lia|]. simpl. split.
    + rewrite Hl'. apply list.NoDup_cons. split; [by eapply fresh_unlisted|done].
    + intros id. rewrite Hl', elem_of_cons. intros [->|Hid]; [exists r; unfold ranges'; by rewrite lookup_insert_eq|].
      destruct (Hin id Hid) as (q&Hq&Hqa). exists q. split; [|done]. rewrite added_old; [done|by rewrite Hq].
  - rewrite lookup_insert_ne in Hb by done. destruct (wf_area _ Hwf b br Hb) as (Hok'&Hlt&Hnd&Hin). split; [done|]. split; [lia|]. split; [done|].
    intros id Hid. destruct (Hin id Hid) as (q&Hq&Hqa). exists q. split; [|done]. rewrite added_old; [done|by rewrite Hq].
Qed.

Lemma added_range id q : ranges' !! id = Some q -> range_ok q /\ id < next_id w + 1 /\
  exists br, areas' !! asma q = Some br /\ id ∈ unpinned_list br /\ file br <> None.
Proof.
  intros Hq. unfold ranges' in Hq. destruct (decide (id = next_id w)) as [->|Hne].
  - rewrite lookup_insert_eq in Hq. injection Hq as <-. split; [done|]. split; [lia|]. exists (set_unpinned ar l'). rewrite Hr. unfold areas'. rewrite lookup_insert_eq.
    split; [done|]. split; [|done]. simpl. rewrite Hl'. by left.
  - rewrite lookup_insert_ne in Hq by done. destruct (wf_range _ Hwf id q Hq) as (Hok'&Hlt&br&Hb&Hid&Hfb). split; [done|]. split; [lia|].
    unfold areas'. destruct (decide (asma q = a)) as [Eqa|Hqa]; [|rewrite lookup_insert_ne by done; by exists br].
    rewrite Eqa in *. rewrite lookup_insert_eq. exists (set_unpinned ar l'). simpl. assert (br = ar) as -> by congruence. split; [done|]. split; [|done]. rewrite Hl'. by right.
Qed.

Lemma added_same lru n : same_but a w (World ranges' areas' lru n (next_id w + 1) (punched w)).
Proof.
  split; simpl; [|intros id q Hqa|lia|done].
  - exists l'. intros b. unfold areas'. case_decide as Eb; [subst b; by rewrite lookup_insert_eq, Har|by rewrite lookup_insert_ne].
  - unfold ranges'. destruct (decide (id = next_id w)) as [->|Hne]; [|by rewrite lookup_insert_ne].
    rewrite lookup_insert_eq, fresh_range. split; [intros [= <-]; by destruct Hqa|done].
Qed.

Lemma added_lru : range_on_lru r = true -> wf (World ranges' areas' (ashmem_lru_list w ++ [next_id w]) (u64 (lru_count w + range_size r)) (next_id w + 1) (punched w)).
Proof.
  intros Elru. destruct (wf_lru _ Hwf) as (Hln&Hl). split; simpl; [exact added_area|exact added_range| |].
  - split; [apply list.NoDup_app; split_and!; [done| |apply NoDup_singleton]; intros x Hx ->%list_elem_of_singleton; by apply fresh_off_lru|].
    intros id. rewrite elem_of_app, list_elem_of_singleton, Hl. unfold ranges'. destruct (decide (id = next_id w)) as [->|Hne].
    + rewrite lookup_insert_eq. split; [|by right]. intros _. exists r. split; [done|]. unfold range_on_lru, ASHMEM_NOT_PURGED in Elru. lia.
    + rewrite lookup_insert_ne by done. split; [intros [?|?]; done|by left].
  - rewrite (wf_count _ Hwf), u64_add_l. f_equal. rewrite pages_of_app. simpl. unfold ranges' at 2. rewrite lookup_insert_eq. simpl.
    rewrite (pages_of_ext ranges' (ranges w)); [lia|]. intros id Hid. apply added_old. apply Hl in Hid as (q&Hq&_). by rewrite Hq.
Qed.

Lemma added_off_lru : range_on_lru r = false -> wf (World ranges' areas' (ashmem_lru_list w) (lru_count w) (next_id w + 1) (punched w)).
Proof.
  intros Elru. destruct (wf_lru _ Hwf) as (Hln&Hl). split; simpl; [exact added_area|exact added_range| |].
  - split; [done|]. intros id. rewrite Hl. unfold ranges'. destruct (decide (id = next_id w)) as [->|Hne]; [|by rewrite lookup_insert_ne].
    rewrite lookup_insert_eq, fresh_range. split; [intros (?&?&_); done|]. intros (q&[= <-]&Hq). unfold range_on_lru, ASHMEM_NOT_PURGED in Elru. lia.
  - rewrite (wf_count _ Hwf). f_equal. apply pages_of_ext. intros id Hid. symmetry. apply added_old. apply Hl in Hid as (q&Hq&_). by rewrite Hq.
Qed.

End added.

Lemma range_alloc_spec w a ar prev p s e : wf w -> areas w !! a = Some ar -> file ar <> None -> range_ok (AshmemRange a s e p) ->
  exists rc w', range_alloc alloc_ok w a prev p s e = Ok (rc, w') /\ wf w' /\ same_but a w w' /\
    if alloc_ok (next_id w)
    then rc = 0 /\ areas w' !! a = Some (set_unpinned ar (list_insert_before prev (next_id w) (unpinned_list ar))) /\
         ranges w' = <[next_id w := AshmemRange a s e p]> (ranges w)
    else rc = - ENOMEM /\ areas w' = areas w /\ ranges w' = ranges w.
Proof.
  intros Hwf Har Hf Hok. unfold range_alloc. destruct (alloc_ok (next_id w)) eqn:Eok; cbn [negb].
  2:{ destruct Hwf as [Ha Hr Hl Hc]. eexists _, _. split; [done|]. split; [|split; [|done]].
      - split; simpl; try done.
        + intros b br Hb. destruct (Ha b br Hb) as (?&?&?). split; [done|]. split; [lia|done].
        + intros id r Hid. destruct (Hr id r Hid) as (?&?&?). split; [done|]. split; [lia|done].
      - destruct (same_but_refl a w) as [H1 H2 H3 H4]. split; simpl; try done. lia. }
  unfold get_area. simpl. rewrite Har. cbn [obind]. set (r := AshmemRange a s e p).
  pose proof (insert_before_perm prev (next_id w) (unpinned_list ar)) as Hl'. set (l' := list_insert_before _ _ _) in *.
  destruct (range_on_lru r) eqn:Elru.
  - unfold lru_add, get_range. simpl. rewrite lookup_insert_eq. cbn [obind].
    eexists 0, _. split; [done|]. split; [by apply (added_lru w)|]. split; [by apply (added_same w)|]. split; [done|]. split; [apply lookup_insert_eq|done].
  - cbn [obind]. eexists 0, _. split; [done|]. split; [by apply (added_off_lru w)|]. split; [by apply (added_same w)|]. split; [done|]. split; [apply lookup_insert_eq|done].
Qed.

End Ops.

(** ** Deletion and shrinking *)

Lemma range_del_spec w id r : wf w -> ranges w !! id = Some r ->
  exists ar w', areas w !! asma r = Some ar /\ range_del w id = Ok w' /\ wf w' /\ same_but (asma r) w w' /\ next_id w' = next_id w /\
    areas w' = <[asma r := set_unpinned ar (list_del id (unpinned_list ar))]> (areas w) /\ ranges w' = delete id (ranges w).
Proof.
  intros [Ha Hr [Hln Hl] Hc] Hid. destruct (Hr id r Hid) as (Hok&Hlt&ar&Har&Hin&Hf). exists ar.
  unfold range_del, get_range, get_area. rewrite Hid. cbn [obind]. rewrite Har. cbn [obind].
  set (areas' := <[asma r := _]> (areas w)).
  assert (HA : forall b br, areas' !! b = Some br -> area_ok br /\ b < next_id w /\ NoDup (unpinned_list br) /\
    forall x, x ∈ unpinned_list br -> exists q, delete id (ranges w) !! x = Some q /\ asma q = b).
  { intros b br Hb. unfold areas' in Hb. destruct (decide (b = asma r)) as [->|Hne].
    - rewrite lookup_insert_eq in Hb. injection Hb as <-. destruct (Ha _ _ Har) as (?&?&Hnd&Hx). simpl. split; [done|]. split; [done|].
      split; [by apply NoDup_list_del|]. intros x [Hxl Hxn]%elem_of_list_del. rewrite lookup_delete_ne by done. by apply Hx.
    - rewrite lookup_insert_ne in Hb by done. destruct (Ha _ _ Hb) as (?&?&Hnd&Hx). split; [done|]. split; [done|]. split; [done|].
      intros x Hxl. destruct (Hx x Hxl) as (q&Hq&Hqb). exists q. rewrite lookup_delete_ne; [done|]. intros <-. congruence. }
  assert (HR : forall x q, delete id (ranges w) !! x = Some q -> range_ok q /\ x < next_id w /\
    exists br, areas' !! asma q = Some br /\ x ∈ unpinned_list br /\ file br <> None).
  { intros x q [Hx Hq]%lookup_delete_Some. destruct (Hr x q Hq) as (?&?&br&Hb&Hxl&Hfb). split; [done|]. split; [done|]. unfold areas'.
    destruct (decide (asma q = asma r)) as [E|E].
    - rewrite E in *. rewrite lookup_insert_eq. assert (br = ar) as -> by congruence. eexists. split; [done|]. split; [|done].
      apply elem_of_list_del. split; [done|congruence].
    - rewrite lookup_insert_ne by done. by exists br. }
  assert (Hsame : forall lru n, same_but (asma r) w (World (delete id (ranges w)) areas' lru n (next_id w) (punched w))).
  { intros lru n. split; simpl; [|intros x q Hq|lia|done].
    - eexists. intros b. unfold areas'. case_decide as Eb; [subst b; by rewrite lookup_insert_eq, Har|by rewrite lookup_insert_ne].
    - rewrite lookup_delete_Some. split; [tauto|]. intros Hx. split; [|done]. intros ->. congruence. }
  destruct (range_on_lru r) eqn:E; unfold range_on_lru, ASHMEM_NOT_PURGED in E.
  - unfold lru_del, get_range. simpl. rewrite Hid. cbn [obind]. eexists. split; [done|]. split; [done|]. split; [|split; [apply Hsame|done]].
    assert (Hmem : id ∈ ashmem_lru_list w). { apply Hl. exists r. split; [done|lia]. }
    split; simpl; [done|done| |].
    + split; [by apply NoDup_list_del|]. intros x. rewrite elem_of_list_del, Hl. split.
      * intros ((q&Hq&Hp)&Hx). exists q. by rewrite lookup_delete_ne.
      * intros (q&[Hx Hq]%lookup_delete_Some&Hp). split; [by exists q|done].
    + rewrite Hc, u64_sub_l, (pages_of_del _ _ _ _ Hln Hmem Hid). f_equal.
      rewrite (pages_of_ext (delete id (ranges w)) (ranges w)); [lia|]. intros x [_ Hx]%elem_of_list_del. by rewrite lookup_delete_ne.
  - cbn [obind]. eexists. split; [done|]. split; [done|]. split; [|split; [apply Hsame|done]].
    assert (Hmem : id ∉ ashmem_lru_list w). { rewrite Hl. intros (q&Hq&Hp). assert (q = r) as -> by congruence. lia. }
    split; simpl; [done|done| |].
    + split; [done|]. intros x. rewrite Hl. split; intros (q&Hq&Hp); exists q; (split; [|done]).
      * rewrite lookup_delete_ne; [done|]. intros <-. assert (q = r) as -> by congruence. lia.
      * by apply lookup_delete_Some in Hq as [].
    + rewrite Hc. f_equal. apply pages_of_ext. intros x Hx. rewrite lookup_delete_ne; [done|]. by intros <-.
Qed.

(** Replacing a range by one of the same area, the LRU list given. *)
Lemma wf_replace w id r r' lru n : wf w -> ranges w !! id = Some r -> asma r' = asma r -> range_ok r' ->
  NoDup lru -> (forall x, x ∈ lru <-> exists q, <[id := r']> (ranges w) !! x = Some q /\ purged q = 0) ->
  n = u64 (pages_of (<[id := r']> (ranges w)) lru) ->
  forall h, wf (World (<[id := r']> (ranges w)) (areas w) lru n (next_id w) h).
Proof.
  intros [Ha Hr _ _] Hid Has Hok Hnd Hlru Hn h. split; simpl; [| |done|done].
  - intros b br Hb. destruct (Ha b br Hb) as (?&?&?&Hx). do 3 (split; [done|]). intros x Hxl. destruct (Hx x Hxl) as (q&Hq&Hqb).
    destruct (decide (x = id)) as [->|Hne]; [|exists q; by rewrite lookup_insert_ne].
    exists r'. rewrite lookup_insert_eq. split; [done|]. congruence.
  - intros x q Hq. destruct (decide (x = id)) as [->|Hne].
    + rewrite lookup_insert_eq in Hq. injection Hq as <-. destruct (Hr id r Hid) as (?&?&br&?). split; [done|]. split; [done|]. exists br. by rewrite Has.
    + rewrite lookup_insert_ne in Hq by done. by apply Hr.
Qed.

Lemma same_but_replace w id r r' lru n : ranges w !! id = Some r -> asma r' = asma r ->
  same_but (asma r) w (World (<[id := r']> (ranges w)) (areas w) lru n (next_id w) (punched w)).
Proof.
  intros Hid Has. destruct (same_but_refl (asma r) w) as [HA HR HN HP]. split; simpl; try done. intros x q Hq.
  destruct (decide (x = id)) as [->|Hne]; [|by rewrite lookup_insert_ne]. rewrite lookup_insert_eq. split; congruence.
Qed.

Lemma range_shrink_spec w id r s e : wf w -> ranges w !! id = Some r -> range_ok (AshmemRange (asma r) s e (purged r)) ->
  exists w', range_shrink w id s e = Ok w' /\ wf w' /\ same_but (asma r) w w' /\ next_id w' = next_id w /\
    areas w' = areas w /\ ranges w' = <[id := AshmemRange (asma r) s e (purged r)]> (ranges w).
Proof.
  intros Hwf Hid Hok. pose proof Hwf as [_ _ [Hln Hl] Hc]. unfold range_shrink, get_range. rewrite Hid. cbn [obind]. eexists. split; [done|].
  set (r' := AshmemRange (asma r) s e (purged r)) in *.
  assert (Hlru : forall x, x ∈ ashmem_lru_list w <-> exists q, <[id := r']> (ranges w) !! x = Some q /\ purged q = 0).
  { intros x. rewrite Hl. destruct (decide (x = id)) as [->|Hne]; [|by rewrite lookup_insert_ne].
    rewrite lookup_insert_eq, Hid. split; intros (q&[= <-]&Hq); eexists; (split; [done|]); exact Hq. }
  destruct (range_on_lru r') eqn:E; unfold range_on_lru, ASHMEM_NOT_PURGED in E.
  - assert (Hmem : id ∈ ashmem_lru_list w). { apply Hl. exists r. split; [done|]. simpl in E. lia. }
    split; [|split; [exact (same_but_replace w id r r' _ _ Hid eq_refl)|done]]. apply (wf_replace w id r r'); try done. simpl.
    rewrite u64_sub_r, Hc, u64_sub_l, (pages_of_del _ _ _ _ Hln Hmem Hid).
    rewrite (pages_of_del (<[id := r']> (ranges w)) _ id r' Hln Hmem (lookup_insert_eq _ _ _)). f_equal.
    rewrite (pages_of_ext (<[id := r']> (ranges w)) (ranges w)); [lia|]. intros x [_ Hx]%elem_of_list_del. by rewrite lookup_insert_ne.
  - assert (Hmem : id ∉ ashmem_lru_list w). { rewrite Hl. intros (q&Hq&Hp). assert (q = r) as -> by congruence. simpl in E. lia. }
    split; [|split; [exact (same_but_replace w id r r' _ _ Hid eq_refl)|done]]. apply (wf_replace w id r r'); try done. rewrite Hc. f_equal.
    apply pages_of_ext. intros x Hx. rewrite lookup_insert_ne; [done|]. by intros <-.
Qed.

(** ** Purging *)

Lemma purge_range_spec w id r : wf w -> ranges w !! id = Some r -> purged r = 0 ->
  exists ar f w', areas w !! asma r = Some ar /\ file ar = Some f /\
    purge_range w id = Ok (AshmemRange (asma r) (pgstart r) (pgend r) 1, w') /\ wf w' /\
    areas w' = areas w /\ ranges w' = <[id := AshmemRange (asma r) (pgstart r) (pgend r) 1]> (ranges w) /\
    ashmem_lru_list w' = list_del id (ashmem_lru_list w) /\ next_id w' = next_id w /\
    punched w' = punched w ++ [(f, s64 (pgstart r * PAGE_SIZE), s64 (s64 (u64 (pgend r + 1) * PAGE_SIZE) - s64 (pgstart r * PAGE_SIZE)))].
Proof.
  intros Hwf Hid Hp. pose proof Hwf as [_ Hr [Hln Hl] Hc]. destruct (Hr id r Hid) as (Hok&_&ar&Har&_&Hf).
  destruct (file ar) as [f|] eqn:Ef; [|done]. exists ar, f. unfold purge_range, get_range, get_area. rewrite Hid. cbn [obind]. rewrite Har. cbn [obind]. rewrite Ef.
  unfold lru_del, get_range. simpl. rewrite lookup_insert_eq. cbn [obind].
  set (r' := AshmemRange (asma r) (pgstart r) (pgend r) 1). eexists. split; [done|]. split; [done|]. split; [done|]. split; [|done].
  assert (Hmem : id ∈ ashmem_lru_list w). { apply Hl. by exists r. }
  apply (wf_replace w id r r'); try done; [|by apply NoDup_list_del| |].
  - destruct Hok as (?&?&?). split; [done|]. split; [done|by right].
  - intros x. rewrite elem_of_list_del, Hl. destruct (decide (x = id)) as [->|Hne].
    + rewrite lookup_insert_eq. split; [by intros [_ []]|]. by intros (q&[= <-]&Hq).
    + rewrite lookup_insert_ne by done. tauto.
  - simpl. change (range_size (AshmemRange (asma r) (pgstart r) (pgend r) ASHMEM_WAS_PURGED)) with (range_size r).
    rewrite Hc, u64_sub_l, (pages_of_del _ _ _ _ Hln Hmem Hid). f_equal.
    rewrite (pages_of_ext (<[id := r']> (ranges w)) (ranges w)); [lia|]. intros x [_ Hx]%elem_of_list_del. by rewrite lookup_insert_ne.
Qed.
