(* ===== verification/AshmemOps.v ===== *)
(** * AshmemOps: pinning and unpinning as functions of the sequence of ranges

    The loops of [ashmem_pin] and [ashmem_unpin] run over linked identities; here
    they are shown to compute a function (a relation for [ashmem_unpin]) of the
    sequence of ranges of the area, and to keep the bookkeeping invariant. *)

From stdpp Require Import gmap.
From S2P Require Import Prelude Ashmem AshmemFacts.

(** The ranges a list of identities stands for. *)
Definition view (w : world) (l : list Z) : list ashmem_range := omap (fun id => ranges w !! id) l.

Lemma view_app w l1 l2 : view w (l1 ++ l2) = view w l1 ++ view w l2.
Proof. apply omap_app. Qed.

Lemma view_cons w id l r : ranges w !! id = Some r -> view w (id :: l) = r :: view w l.
Proof. intros H. unfold view, omap. cbn. by rewrite H. Qed.

Lemma view_ext w w' l : (forall id, id ∈ l -> ranges w !! id = ranges w' !! id) -> view w l = view w' l.
Proof.
  intros H. apply list_omap_ext, Forall_Forall2_diag, Forall_forall. intros id Hid. apply H. by apply list_elem_of_In.
Qed.

Lemma view_insert w w' id r l : ranges w' = <[id := r]> (ranges w) -> id ∉ l -> view w' l = view w l.
Proof. intros E Hid. apply view_ext. intros x Hx. rewrite E, lookup_insert_ne; [done|]. by intros ->. Qed.

Lemma view_delete w w' id l : ranges w' = delete id (ranges w) -> id ∉ l -> view w' l = view w l.
Proof. intros E Hid. apply view_ext. intros x Hx. rewrite E, lookup_delete_ne; [done|]. by intros ->. Qed.

(** The entry under the cursor of a walk over the list of an area. *)
Lemma wf_at w a ar l1 id l2 : wf w -> areas w !! a = Some ar -> unpinned_list ar = l1 ++ id :: l2 ->
  exists r, ranges w !! id = Some r /\ asma r = a /\ range_ok r /\ id ∉ l1 /\ id ∉ l2.
Proof.
  intros Hwf Har Hl. destruct (wf_area _ Hwf a ar Har) as (_&_&Hnd&Hin). rewrite Hl in Hnd, Hin.
  destruct (Hin id) as (r&Hr&Ha); [apply elem_of_app; right; by left|]. exists r. split; [done|]. split; [done|].
  split; [by destruct (wf_range _ Hwf id r Hr)|]. apply list.NoDup_app in Hnd as (_&H1&H2). apply list.NoDup_cons in H2 as [H2 _].
  split; [|done]. intros H. apply (H1 id H). by left.
Qed.

(** The area after an operation that may change only its list. *)
Lemma same_but_area a w w' ar ar' : same_but a w w' -> areas w !! a = Some ar -> areas w' !! a = Some ar' -> file ar' = file ar.
Proof. intros [[l H] _ _ _] E E'. rewrite H, decide_True, E in E' by done. simpl in E'. by injection E' as <-. Qed.

(** ** Pinning *)

Fixpoint pin_view (ok : bool) (s e : Z) (rs : list ashmem_range) : list ashmem_range :=
  match rs with
  | [] => []
  | r :: rs =>
    if range_before_page r s then r :: rs
    else if page_range_in_range r s e then
      if page_range_subsumes_range r s e then pin_view ok s e rs
      else if s <=? pgstart r then AshmemRange (asma r) (u64 (e + 1)) (pgend r) (purged r) :: pin_view ok s e rs
      else if pgend r <=? e then AshmemRange (asma r) (pgstart r) (u64 (s - 1)) (purged r) :: pin_view ok s e rs
      else (if ok then [AshmemRange (asma r) (u64 (e + 1)) (pgend r) (purged r)] else []) ++
           AshmemRange (asma r) (pgstart r) (u64 (s - 1)) (purged r) :: rs
    else r :: pin_view ok s e rs
  end.

Fixpoint pin_purged (s e : Z) (rs : list ashmem_range) : Z :=
  match rs with
  | [] => 0
  | r :: rs =>
    if range_before_page r s then 0
    else if page_range_in_range r s e then
      if (pgstart r <? s) && (e <? pgend r) then purged r else Z.lor (purged r) (pin_purged s e rs)
    else pin_purged s e rs
  end.

Section Pin.
Context (alloc_ok : Z -> bool) (a s e : Z).

(** What a walk of [ashmem_pin] over [ids], after [l1], achieves. *)
Definition pin_post (w : world) (l1 ids : list Z) (ret : Z) (o : outcome (Z * world)) : Prop :=
  exists w' ar', o = Ok (Z.lor ret (pin_purged s e (view w ids)), w') /\ wf w' /\ same_but a w w' /\ areas w' !! a = Some ar' /\
    view w' (unpinned_list ar') = view w l1 ++ pin_view (alloc_ok (next_id w)) s e (view w ids).

(** A step to [w1] that turns the sequence before the rest into [V]. *)
Lemma pin_post_step w w1 l1 l1' id r ids ret o V : ranges w !! id = Some r ->
  same_but a w w1 -> next_id w1 = next_id w -> view w1 ids = view w ids -> view w1 l1' = view w l1 ++ V ->
  range_before_page r s = false -> page_range_in_range r s e = true -> (pgstart r <? s) && (e <? pgend r) = false ->
  pin_view (alloc_ok (next_id w)) s e (r :: view w ids) = V ++ pin_view (alloc_ok (next_id w)) s e (view w ids) ->
  pin_post w1 l1' ids (Z.lor ret (purged r)) o -> pin_post w l1 (id :: ids) ret o.
Proof.
  intros Hr Hsb Hn Hids Hl1 Hb Hi Hs Hpv (w'&ar'&->&Hwf&Hsb'&Har'&Hv). exists w', ar'. rewrite (view_cons _ _ _ _ Hr).
  cbn [pin_purged]. rewrite Hb, Hi, Hs, Hids, Z.lor_assoc. split; [done|]. split; [done|].
  split; [by eapply same_but_trans|]. split; [done|]. by rewrite Hv, Hpv, Hl1, Hids, Hn, <- app_assoc.
Qed.

(** The pinned pages lie inside a range: it is cut in two. *)
Lemma pin_split w ar l1 id ids r ret : wf w -> areas w !! a = Some ar -> file ar <> None -> unpinned_list ar = l1 ++ id :: ids ->
  ranges w !! id = Some r -> range_before_page r s = false -> page_range_in_range r s e = true -> page_range_subsumes_range r s e = false ->
  (s <=? pgstart r) = false -> (pgend r <=? e) = false ->
  pin_post w l1 (id :: ids) ret
    (let* (_, w) := range_alloc alloc_ok w a (Some id) (purged r) (u64 (e + 1)) (pgend r) in
     let* w := range_shrink w id (pgstart r) (u64 (s - 1)) in Ok (Z.lor ret (purged r), w)).
Proof.
  intros Hwf Har Hf Hl Hr Eb Ei Es E3 E4. destruct (wf_at _ _ _ _ _ _ Hwf Har Hl) as (r0&Hr0&Ha&Hok&Hid1&Hid2).
  assert (r0 = r) as -> by congruence. pose proof Hok as (Hs0&He0&Hp0).
  assert (Hup : forall b, range_ok (AshmemRange b (u64 (e + 1)) (pgend r) (purged r))) by (intros; split; [apply wrap_range; lia|done]).
  assert (Hlo : forall b, range_ok (AshmemRange b (pgstart r) (u64 (s - 1)) (purged r))) by (intros; split; [done|split; [apply wrap_range; lia|done]]).
  destruct (range_alloc_spec alloc_ok w a ar (Some id) (purged r) (u64 (e + 1)) (pgend r) Hwf Har Hf) as (rc&w1&->&Hwf1&Hsb1&Hcase); [done|]. cbn [obind].
  assert (Hids : id <> next_id w). { destruct (wf_range _ Hwf id r Hr) as (_&?&_). lia. }
  assert (Hr1 : ranges w1 !! id = Some r).
  { destruct (alloc_ok (next_id w)); destruct Hcase as (_&_&->); [by rewrite lookup_insert_ne|done]. }
  destruct (range_shrink_spec w1 id r (pgstart r) (u64 (s - 1)) Hwf1 Hr1) as (w2&->&Hwf2&Hsb2&Hn2&HA2&HR2); [done|]. rewrite Ha in Hsb2. cbn [obind].
  assert (Hfresh : forall l : list Z, (forall x, x ∈ l -> x ∈ unpinned_list ar) -> next_id w ∉ l).
  { intros l Hsub Hin. destruct (wf_area _ Hwf a ar Har) as (_&_&_&Hx). destruct (Hx _ (Hsub _ Hin)) as (q&Hq&_). destruct (wf_range _ Hwf _ _ Hq) as (_&?&_). lia. }
  assert (Hf1 : next_id w ∉ l1). { apply Hfresh. intros x Hx. rewrite Hl. apply elem_of_app. by left. }
  assert (Hf2 : next_id w ∉ ids). { apply Hfresh. intros x Hx. rewrite Hl. apply elem_of_app. right. by right. }
  assert (Hv : forall l : list Z, id ∉ l -> next_id w ∉ l -> view w2 l = view w l).
  { intros l Hi Hi'. rewrite (view_insert w1 w2 id _ l HR2 Hi). destruct (alloc_ok (next_id w)); destruct Hcase as (_&_&HR); [by eapply view_insert|].
    apply view_ext. by intros; rewrite HR. }
  assert (Hret : pin_purged s e (view w (id :: ids)) = purged r).
  { rewrite (view_cons _ _ _ _ Hr). cbn [pin_purged]. rewrite Eb, Ei. replace ((pgstart r <? s) && (e <? pgend r)) with true by lia. done. }
  assert (Hpv : pin_view (alloc_ok (next_id w)) s e (view w (id :: ids)) =
    (if alloc_ok (next_id w) then [AshmemRange (asma r) (u64 (e + 1)) (pgend r) (purged r)] else []) ++ AshmemRange (asma r) (pgstart r) (u64 (s - 1)) (purged r) :: view w ids).
  { rewrite (view_cons _ _ _ _ Hr). cbn [pin_view]. by rewrite Eb, Ei, Es, E3, E4. }
  assert (Hid' : ranges w2 !! id = Some (AshmemRange (asma r) (pgstart r) (u64 (s - 1)) (purged r))) by (by rewrite HR2, lookup_insert_eq).
  assert (Hnot : Forall (fun x => Some id <> Some x) l1).
  { apply Forall_forall. intros x Hx [= ->]. apply Hid1. by apply list_elem_of_In. }
  unfold pin_post. rewrite Hret, Hpv. destruct (alloc_ok (next_id w)); destruct Hcase as (_&HA1&HR1).
  - eexists w2, _. split; [done|]. split; [done|]. split; [by eapply same_but_trans|]. rewrite HA2, HA1. split; [done|]. cbn [unpinned_list set_unpinned].
    rewrite Hl, insert_before_app by done. simpl. rewrite bool_decide_eq_true_2 by done.
    rewrite view_app, (Hv l1) by done. f_equal. rewrite (view_cons _ _ _ (AshmemRange a (u64 (e + 1)) (pgend r) (purged r))).
    + rewrite (view_cons _ _ _ _ Hid'), (Hv ids) by done. by rewrite Ha.
    + by rewrite HR2, lookup_insert_ne, HR1, lookup_insert_eq.
  - exists w2, ar. split; [done|]. split; [done|]. split; [by eapply same_but_trans|]. rewrite HA2, HA1. split; [done|].
    rewrite Hl, view_app, (Hv l1), (view_cons _ _ _ _ Hid'), (Hv ids) by done. done.
Qed.

Lemma pin_loop_spec ids : forall l1 w ar ret, wf w -> areas w !! a = Some ar -> file ar <> None -> unpinned_list ar = l1 ++ ids ->
  pin_post w l1 ids ret (pin_loop alloc_ok ids w a s e ret).
Proof.
  induction ids as [|id ids IH]; intros l1 w ar ret Hwf Har Hf Hl.
  { exists w, ar. simpl. rewrite Z.lor_0_r, Hl, view_app. by split_and!; try apply same_but_refl. }
  destruct (wf_at _ _ _ _ _ _ Hwf Har Hl) as (r&Hr&Ha&Hok&Hid1&Hid2). pose proof Hok as (Hs0&He0&Hp0).
  cbn [pin_loop]. unfold get_range. rewrite Hr. cbn [obind].
  destruct (range_before_page r s) eqn:Eb.
  { exists w, ar. rewrite (view_cons _ _ _ _ Hr). simpl. rewrite Eb, Z.lor_0_r, Hl, view_app, (view_cons _ _ _ _ Hr). by split_and!; try apply same_but_refl. }
  assert (Hup : forall b, range_ok (AshmemRange b (u64 (e + 1)) (pgend r) (purged r))) by (intros; split; [apply wrap_range; lia|done]).
  assert (Hlo : forall b, range_ok (AshmemRange b (pgstart r) (u64 (s - 1)) (purged r))) by (intros; split; [done|split; [apply wrap_range; lia|done]]).
  destruct (page_range_in_range r s e) eqn:Ei.
  2:{ destruct (IH (l1 ++ [id]) w ar ret) as (w'&ar'&->&Hwf'&Hsb&Har'&Hv); try done; [by rewrite <- app_assoc|].
      exists w', ar'. rewrite (view_cons _ _ _ _ Hr). cbn [pin_purged pin_view]. rewrite Eb, Ei. split_and!; try done.
      rewrite Hv, view_app, (view_cons _ _ _ _ Hr), <- app_assoc. done. }
  destruct (page_range_subsumes_range r s e) eqn:Es.
  { destruct (range_del_spec w id r Hwf Hr) as (ar0&w1&Har0&->&Hwf1&Hsb&Hn&HA&HR). rewrite Ha in *. assert (ar0 = ar) as -> by congruence. cbn [obind].
    eapply (pin_post_step w w1 l1 l1 id r ids ret _ []); try done; [by eapply view_delete|by rewrite app_nil_r; eapply view_delete| | |].
    - unfold page_range_subsumes_range in Es. lia.
    - cbn [pin_view]. by rewrite Eb, Ei, Es.
    - eapply (IH l1 w1); [done|by rewrite HA, lookup_insert_eq|done|]. simpl. rewrite Hl. apply list_del_middle. rewrite <- Hl. by destruct (wf_area _ Hwf a ar Har) as (_&_&?&_). }
  assert (Hshrink : forall s' e', range_ok (AshmemRange (asma r) s' e' (purged r)) -> (pgstart r <? s) && (e <? pgend r) = false ->
    pin_view (alloc_ok (next_id w)) s e (r :: view w ids) = [AshmemRange (asma r) s' e' (purged r)] ++ pin_view (alloc_ok (next_id w)) s e (view w ids) ->
    pin_post w l1 (id :: ids) ret (let* w := range_shrink w id s' e' in pin_loop alloc_ok ids w a s e (Z.lor ret (purged r)))).
  { intros s' e' Hok' Hs Hpv. destruct (range_shrink_spec w id r s' e' Hwf Hr Hok') as (w1&->&Hwf1&Hsb&Hn&HA&HR). rewrite Ha in Hsb. cbn [obind].
    eapply (pin_post_step w w1 l1 (l1 ++ [id])); try done; [by eapply view_insert| |].
    - rewrite view_app, (view_insert w w1 id _ l1 HR Hid1). f_equal. apply view_cons. by rewrite HR, lookup_insert_eq.
    - eapply IH; [done|by rewrite HA|done|by rewrite <- app_assoc]. }
  destruct (s <=? pgstart r) eqn:E3; [apply Hshrink; [done|lia|cbn [pin_view]; by rewrite Eb, Ei, Es, E3]|].
  destruct (pgend r <=? e) eqn:E4; [apply Hshrink; [done|lia|cbn [pin_view]; by rewrite Eb, Ei, Es, E3, E4]|].
  by eapply pin_split.
Qed.

End Pin.

(** ** Unpinning *)

(** An entry the scan of [ashmem_unpin] passes over. *)
Definition passed (s e : Z) (r : ashmem_range) : Prop := range_before_page r s = false /\ page_range_in_range r s e = false.

(** [unpin_view a ok s e p rs rc rs']: unpinning pages [s] to [e] of a sequence
    [rs], having met purged flags [p], returns [rc] and leaves [rs']. *)
Inductive unpin_view (a : Z) (ok : bool) : Z -> Z -> Z -> list ashmem_range -> Z -> list ashmem_range -> Prop :=
| uv_insert s e p rs1 rs2 : Forall (passed s e) rs1 -> Forall (fun r => range_before_page r s = true) (take 1 rs2) ->
    unpin_view a ok s e p (rs1 ++ rs2) (if ok then 0 else - ENOMEM) (rs1 ++ (if ok then [AshmemRange a s e p] else []) ++ rs2)
| uv_covered s e p rs1 r rs2 : Forall (passed s e) rs1 -> range_before_page r s = false -> page_range_subsumed_by_range r s e = true ->
    unpin_view a ok s e p (rs1 ++ r :: rs2) 0 (rs1 ++ r :: rs2)
| uv_merge s e p rs1 r rs2 rc rs' : Forall (passed s e) rs1 -> range_before_page r s = false ->
    page_range_subsumed_by_range r s e = false -> page_range_in_range r s e = true ->
    unpin_view a ok (Z.min (pgstart r) s) (Z.max (pgend r) e) (Z.lor p (purged r)) (rs1 ++ rs2) rc rs' ->
    unpin_view a ok s e p (rs1 ++ r :: rs2) rc rs'.

(** Where a scan stops: the entries before are passed over. *)
Definition scan_post (w : world) (s e : Z) (l : list Z) (x : unpin_result) : Prop :=
  exists l1 l2, l = l1 ++ l2 /\ Forall (passed s e) (view w l1) /\
  match x with
  | InsertAt None => l2 = []
  | InsertAt (Some id) => exists r l2', l2 = id :: l2' /\ ranges w !! id = Some r /\ range_before_page r s = true
  | Covered => exists id r l2', l2 = id :: l2' /\ ranges w !! id = Some r /\ range_before_page r s = false /\ page_range_subsumed_by_range r s e = true
  | MergeWith id => exists r l2', l2 = id :: l2' /\ ranges w !! id = Some r /\ range_before_page r s = false /\
      page_range_subsumed_by_range r s e = false /\ page_range_in_range r s e = true
  end.

Lemma unpin_scan_spec w s e ids : (forall id, id ∈ ids -> is_Some (ranges w !! id)) ->
  exists x, unpin_scan ids w s e = Ok x /\ scan_post w s e ids x.
Proof.
  induction ids as [|id ids IH]; intros Hin.
  { exists (InsertAt None). split; [done|]. exists [], []. by split_and!; try apply Forall_nil. }
  destruct (Hin id) as [r Hr]; [by left|]. simpl. unfold get_range. rewrite Hr. cbn [obind].
  destruct (range_before_page r s) eqn:Eb.
  { exists (InsertAt (Some id)). split; [done|]. exists [], (id :: ids). split; [done|]. split; [apply Forall_nil; done|]. by exists r, ids. }
  destruct (page_range_subsumed_by_range r s e) eqn:Es.
  { exists Covered. split; [done|]. exists [], (id :: ids). split; [done|]. split; [apply Forall_nil; done|]. by exists id, r, ids. }
  destruct (page_range_in_range r s e) eqn:Ei.
  { exists (MergeWith id). split; [done|]. exists [], (id :: ids). split; [done|]. split; [apply Forall_nil; done|]. by exists r, ids. }
  destruct IH as (x&->&l1&l2&->&Hp&Hx); [intros i Hi; apply Hin; by right|]. exists x. split; [done|].
  exists (id :: l1), l2. split; [done|]. split; [|done]. rewrite (view_cons _ _ _ _ Hr). by apply Forall_cons.
Qed.

Section Unpin.
Context (alloc_ok : Z -> bool) (a : Z).

Definition unpin_post (w : world) (ar : ashmem_area) (s e p : Z) (o : outcome (Z * world)) : Prop :=
  exists rc w' ar', o = Ok (rc, w') /\ wf w' /\ same_but a w w' /\ areas w' !! a = Some ar' /\
    unpin_view a (alloc_ok (next_id w)) s e p (view w (unpinned_list ar)) rc (view w' (unpinned_list ar')).

Lemma unpin_insert w ar pos s e p : wf w -> areas w !! a = Some ar -> file ar <> None -> range_ok (AshmemRange a s e p) ->
  scan_post w s e (unpinned_list ar) (InsertAt pos) -> unpin_post w ar s e p (range_alloc alloc_ok w a pos p s e).
Proof.
  intros Hwf Har Hf Hok (l1&l2&Hl&Hp&Hx). destruct (wf_area _ Hwf a ar Har) as (_&_&Hnd&Hin).
  destruct (range_alloc_spec alloc_ok w a ar pos p s e Hwf Har Hf Hok) as (rc&w'&->&Hwf'&Hsb&Hcase).
  assert (Hb : Forall (fun r => range_before_page r s = true) (take 1 (view w l2))).
  { destruct pos as [id|]; [destruct Hx as (r&l2'&->&Hr&Hb)|subst l2; apply Forall_nil; done].
    rewrite (view_cons _ _ _ _ Hr). simpl. apply Forall_cons; [done|]. apply Forall_nil; done. }
  pose proof (uv_insert a (alloc_ok (next_id w)) s e p _ _ Hp Hb) as Huv. rewrite <- view_app, <- Hl in Huv.
  unfold unpin_post. destruct (alloc_ok (next_id w)); destruct Hcase as (->&HA&HR).
  + eexists 0, w', _. split; [done|]. split; [done|]. split; [done|]. split; [exact HA|]. cbn [unpinned_list set_unpinned].
    replace (view w' _) with (view w l1 ++ [AshmemRange a s e p] ++ view w l2); [done|].
    assert (Hfr : next_id w ∉ l1 ++ l2).
    { rewrite <- Hl. intros Hi. destruct (Hin _ Hi) as (q&Hq&_). destruct (wf_range _ Hwf _ _ Hq) as (_&?&_). lia. }
    apply not_elem_of_app in Hfr as [Hf1 Hf2]. rewrite Hl in *. rewrite insert_before_app.
    * replace (list_insert_before pos (next_id w) l2) with (next_id w :: l2).
      { rewrite view_app, (view_cons _ _ _ (AshmemRange a s e p)) by (by rewrite HR, lookup_insert_eq).
        by rewrite !(view_insert w w' _ _ _ HR). }
      destruct pos as [id|]; [destruct Hx as (r&l2'&->&_)|by subst l2]. simpl. by rewrite bool_decide_eq_true_2.
    * destruct pos as [id|]; [|by apply Forall_forall]. destruct Hx as (r&l2'&->&_). apply Forall_forall. intros y Hy [= ->].
      apply list.NoDup_app in Hnd as (_&Hd&_). apply (Hd y); [by apply list_elem_of_In|by left].
  + exists (- ENOMEM), w', ar. rewrite HA. split_and!; try done. replace (view w' _) with (view w (unpinned_list ar)); [by rewrite Hl, view_app in Huv |- *|].
    apply view_ext. intros. by rewrite HR.
Qed.

Lemma unpin_restart_spec fuel : forall w ar s e p, wf w -> areas w !! a = Some ar -> file ar <> None -> range_ok (AshmemRange a s e p) ->
  (length (unpinned_list ar) < fuel)%nat ->
  unpin_post w ar s e p (unpin_restart alloc_ok fuel w a s e p).
Proof.
  induction fuel as [|fuel IH]; intros w ar s e p Hwf Har Hf Hok Hlen; [lia|]. cbn [unpin_restart]. unfold get_area. rewrite Har. cbn [obind].
  destruct (wf_area _ Hwf a ar Har) as (_&_&Hnd&Hin).
  destruct (unpin_scan_spec w s e (unpinned_list ar)) as (x&->&l1&l2&Hl&Hp&Hx).
  { intros id Hid. destruct (Hin id Hid) as (r&Hr&_). by exists r. }
  cbn [obind]. destruct x as [pos| |id].
  - apply unpin_insert; try done. by exists l1, l2.
  - destruct Hx as (id&r&l2'&->&Hr&Hb&Hs). exists 0, w, ar. split; [done|]. split; [done|]. split; [apply same_but_refl|]. split; [done|].
    rewrite Hl, view_app, (view_cons _ _ _ _ Hr). by apply uv_covered.
  - destruct Hx as (r&l2'&->&Hr&Hb&Hs&Hi). unfold get_range. rewrite Hr. cbn [obind].
    destruct (wf_at _ _ _ _ _ _ Hwf Har Hl) as (r0&Hr0&Ha&Hokr&Hid1&Hid2). assert (r0 = r) as -> by congruence.
    destruct (range_del_spec w id r Hwf Hr) as (ar0&w1&Har0&->&Hwf1&Hsb&Hn&HA&HR). rewrite Ha in *. assert (ar0 = ar) as -> by congruence. cbn [obind].
    assert (Hdel : list_del id (unpinned_list ar) = l1 ++ l2') by (rewrite Hl in *; by apply list_del_middle).
    assert (Hok' : range_ok (AshmemRange a (Z.min (pgstart r) s) (Z.max (pgend r) e) (Z.lor p (purged r)))).
    { destruct Hok as (?&?&Hp0), Hokr as (?&?&Hp1). simpl in *. split; [simpl; lia|]. split; [simpl; lia|]. simpl. destruct Hp0 as [->| ->], Hp1 as [->| ->]; auto. }
    destruct (IH w1 (set_unpinned ar (list_del id (unpinned_list ar))) _ _ _ Hwf1 ltac:(by rewrite HA, lookup_insert_eq) Hf Hok') as (rc&w'&ar'&->&Hwf'&Hsb'&Har'&Huv).
    { simpl. rewrite Hdel. rewrite Hl in Hlen. rewrite length_app in *. simpl in Hlen. lia. }
    exists rc, w', ar'. split; [done|]. split; [done|]. split; [by eapply same_but_trans|]. split; [done|].
    simpl in Huv. rewrite Hdel, Hn, view_app in Huv. rewrite !(view_delete w w1 _ _ HR) in Huv by done.
    rewrite Hl, view_app, (view_cons _ _ _ _ Hr). by apply uv_merge.
Qed.

End Unpin.
