(* ===== verification/AshmemPages.v ===== *)
(** * AshmemPages: what pinning and unpinning do to the pages

    A page of an area is pinned when no range holds it; otherwise it has the
    purged flag of its range. On a sequence of disjoint ranges in descending
    order, the loops of the driver act on this map page by page. *)

From stdpp Require Import gmap.
From S2P Require Import Prelude Ashmem AshmemFacts AshmemOps.

Fixpoint status (rs : list ashmem_range) (p : Z) : option Z :=
  match rs with
  | [] => None
  | r :: rs => if page_in_range r p then Some (purged r) else status rs p
  end.

(** Disjoint, not empty, in descending order. *)
Fixpoint desc (rs : list ashmem_range) : Prop :=
  match rs with
  | [] => True
  | r :: rs => pgstart r <= pgend r /\ Forall (fun q => pgend q < pgstart r) rs /\ desc rs
  end.

Lemma status_app l1 l2 p : status (l1 ++ l2) p = match status l1 p with Some x => Some x | None => status l2 p end.
Proof. induction l1 as [|r l1 IH]; [done|]. simpl. by destruct (page_in_range r p). Qed.

Lemma status_below rs p : Forall (fun q => pgend q < p) rs -> status rs p = None.
Proof.
  induction 1 as [|r rs Hr Hrs IH]; [done|]. simpl. unfold page_in_range. case_match; [lia|done].
Qed.

Lemma status_above rs p : Forall (fun q => p < pgstart q) rs -> status rs p = None.
Proof.
  induction 1 as [|r rs Hr Hrs IH]; [done|]. simpl. unfold page_in_range. case_match; [lia|done].
Qed.

Lemma Forall_pgend_le rs b c : Forall (fun q => pgend q < b) rs -> b <= c -> Forall (fun q => pgend q < c) rs.
Proof. intros H Hbc. eapply Forall_impl; [|exact H]. simpl. lia. Qed.

Lemma desc_app l1 l2 : desc (l1 ++ l2) <-> desc l1 /\ desc l2 /\ Forall (fun r => Forall (fun q => pgend q < pgstart r) l2) l1.
Proof.
  induction l1 as [|r l1 IH]; simpl; [split; [intros; split_and!; done|tauto]|].
  rewrite Forall_app, IH, Forall_cons_iff. tauto.
Qed.

(** ** Pinning *)

Section PinPages.
Context (s e : Z) (Hse : s <= e).

(** A nonempty range either overlaps the pages or lies on one side. *)
Lemma in_range_overlap r : pgstart r <= pgend r -> page_range_in_range r s e = (pgstart r <=? e) && (s <=? pgend r).
Proof. intros H. unfold page_range_in_range, page_in_range, page_range_subsumes_range. lia. Qed.

Lemma pin_view_below ok rs b : desc rs -> Forall range_ok rs -> 0 <= s -> Forall (fun q => pgend q < b) rs -> Forall (fun q => pgend q < b) (pin_view ok s e rs).
Proof.
  intros Hd Hok Hs. revert Hd Hok. induction rs as [|r rs IH]; intros Hd Hok Hf; [done|]. destruct Hd as (Hr&Hb&Hd).
  apply Forall_cons_1 in Hok as [(?&?&?) Hok]. apply Forall_cons_1 in Hf as [Hrb Hf]. specialize (IH Hd Hok Hf). simpl.
  destruct (range_before_page r s) eqn:E1; [by apply Forall_cons|]. unfold range_before_page in E1.
  destruct (page_range_in_range r s e); [|by apply Forall_cons].
  destruct (page_range_subsumes_range r s e); [done|].
  destruct (s <=? pgstart r) eqn:E2; [by apply Forall_cons|].
  assert (Hlo : u64 (s - 1) < b) by (rewrite wrap_small by lia; lia).
  destruct (pgend r <=? e); [by apply Forall_cons|]. apply Forall_app. split; [destruct ok; [by apply Forall_cons|done]|by apply Forall_cons].
Qed.

Lemma pin_view_desc ok rs : desc rs -> Forall range_ok rs -> 0 <= s -> e < 2 ^ 64 -> desc (pin_view ok s e rs).
Proof.
  intros Hd Hok Hs He. revert Hd Hok. induction rs as [|r rs IH]; intros Hd Hok; [done|]. destruct Hd as (Hr&Hb&Hd).
  apply Forall_cons_1 in Hok as [(?&?&?) Hok]. pose proof (pin_view_below ok rs _ Hd Hok Hs Hb) as Hb'. specialize (IH Hd Hok). simpl.
  destruct (range_before_page r s) eqn:E1; [done|]. unfold range_before_page in E1. rewrite in_range_overlap by done.
  destruct ((pgstart r <=? e) && (s <=? pgend r)) eqn:E0; [|done].
  destruct (page_range_subsumes_range r s e) eqn:E2; unfold page_range_subsumes_range in E2; [done|].
  destruct (s <=? pgstart r) eqn:E3.
  { simpl. rewrite wrap_small by lia. split; [lia|]. split; [|done]. eapply Forall_pgend_le; [exact Hb'|lia]. }
  assert (Hlo : u64 (s - 1) = s - 1) by (apply wrap_small; lia).
  destruct (pgend r <=? e) eqn:E4; [simpl; rewrite Hlo; split; [lia|done]|].
  assert (Htail : desc (AshmemRange (asma r) (pgstart r) (u64 (s - 1)) (purged r) :: rs)) by (simpl; rewrite Hlo; split; [lia|done]).
  destruct ok; [|done]. cbn [app]. split; [simpl; rewrite wrap_small; lia|]. split; [|done].
  cbn [pgstart]. rewrite (wrap_small 64 (e + 1)) by lia. apply Forall_cons; [simpl; lia|]. eapply Forall_pgend_le; [exact Hb|lia].
Qed.

Lemma pin_view_status ok rs p : desc rs -> Forall range_ok rs -> 0 <= s -> e < 2 ^ 64 ->
  (s <= p <= e -> status (pin_view ok s e rs) p = None) /\
  (~ s <= p <= e -> ok = true -> status (pin_view ok s e rs) p = status rs p) /\
  (status (pin_view ok s e rs) p = None \/ status (pin_view ok s e rs) p = status rs p).
Proof.
  intros Hd Hok Hs He. revert Hd Hok. induction rs as [|r rs IH]; intros Hd Hok; [simpl; auto|]. destruct Hd as (Hr&Hb&Hd).
  apply Forall_cons_1 in Hok as [(?&?&?) Hok]. specialize (IH Hd Hok). simpl.
  destruct (range_before_page r s) eqn:E1; unfold range_before_page in E1.
  { split; [|auto]. intros Hp. rewrite status_below; [done|]. apply Forall_cons; [lia|]. eapply Forall_pgend_le; [exact Hb|lia]. }
  rewrite in_range_overlap by done.
  destruct ((pgstart r <=? e) && (s <=? pgend r)) eqn:E0.
  2:{ cbn [status]. destruct (page_in_range r p) eqn:Ep; unfold page_in_range in Ep; [|done]. split; [lia|auto]. }
  assert (Hrs' : pgstart r <= p -> status rs p = None).
  { intros. apply status_below. eapply Forall_pgend_le; [exact Hb|lia]. }
  destruct IH as (IH1&IH2&IH3).
  destruct (page_range_subsumes_range r s e) eqn:E2; unfold page_range_subsumes_range in E2.
  { unfold page_in_range. destruct ((pgstart r <=? p) && (p <=? pgend r)) eqn:Ep; [|done]. split; [auto|]. split; [lia|]. left. apply IH1. lia. }
  destruct (s <=? pgstart r) eqn:E3.
  { cbn [status]. unfold page_in_range. cbn [pgstart pgend purged]. rewrite wrap_small by lia.
    destruct ((pgstart r <=? p) && (p <=? pgend r)) eqn:Ep, ((e + 1 <=? p) && (p <=? pgend r)) eqn:Ep'; try (exfalso; lia).
    - split; [lia|auto].
    - assert (s <= p <= e) as Hp by lia. rewrite IH1 by done. tauto.
    - done. }
  assert (Hlo : u64 (s - 1) = s - 1) by (apply wrap_small; lia).
  destruct (pgend r <=? e) eqn:E4.
  { cbn [status]. unfold page_in_range. cbn [pgstart pgend purged]. rewrite Hlo.
    destruct ((pgstart r <=? p) && (p <=? pgend r)) eqn:Ep, ((pgstart r <=? p) && (p <=? s - 1)) eqn:Ep'; try (exfalso; lia).
    - split; [lia|auto].
    - assert (s <= p <= e) as Hp by lia. rewrite IH1 by done. tauto.
    - done. }
  rewrite status_app. cbn [status]. unfold page_in_range. cbn [pgstart pgend purged]. rewrite Hlo.
  replace (status (if ok then _ else []) p) with (if ok && (e + 1 <=? p) && (p <=? pgend r) then Some (purged r) else None)
    by (destruct ok; [simpl; unfold page_in_range; simpl; by rewrite wrap_small by lia|done]).
  unfold page_in_range. destruct ok; cbn [andb];
    destruct ((pgstart r <=? p) && (p <=? pgend r)) eqn:Ep, ((e + 1 <=? p) && (p <=? pgend r)) eqn:Ep', ((pgstart r <=? p) && (p <=? s - 1)) eqn:Ep'';
    try (exfalso; lia); rewrite ?Hrs' by lia;
    (split; [intros; first [done|exfalso; lia]|split; [intros; first [done|exfalso; lia]|auto]]).
Qed.

Lemma status_cons_ne r rs q : status rs q <> None -> status (r :: rs) q <> None.
Proof. simpl. by case_match. Qed.

(** A page outside the request changes only if it is above it, in the range that
    the request splits. *)
Lemma pin_view_outside ok rs p : desc rs -> Forall range_ok rs -> 0 <= s -> e < 2 ^ 64 -> ~ s <= p <= e ->
  status (pin_view ok s e rs) p = status rs p \/ (e < p /\ forall y, s <= y <= p -> status rs y <> None).
Proof.
  intros Hd Hok Hs He Hp. revert Hd Hok. induction rs as [|r rs IH]; intros Hd Hok; [by left|]. destruct Hd as (Hr&Hb&Hd).
  apply Forall_cons_1 in Hok as [(?&?&?) Hok]. specialize (IH Hd Hok). simpl pin_view. destruct (range_before_page r s) eqn:E1; [by left|]. unfold range_before_page in E1.
  assert (Hrest : page_in_range r p = false -> status (pin_view ok s e rs) p = status (r :: rs) p \/ (e < p /\ forall y, s <= y <= p -> status (r :: rs) y <> None)).
  { intros Hnr. simpl. rewrite Hnr. destruct IH as [->|[? IH]]; [by left|]. right. split; [done|]. intros y Hy. apply (status_cons_ne r). by apply IH. }
  assert (Hq : forall q l, page_in_range q p = false -> status (q :: l) p = status l p) by (intros q l Hq; simpl; by rewrite Hq).
  rewrite in_range_overlap by done. destruct (page_in_range r p) eqn:Er.
  - assert (Hst : status (r :: rs) p = Some (purged r)) by (simpl; by rewrite Er). pose proof Er as Er'. unfold page_in_range in Er'. rewrite Hst.
    destruct ((pgstart r <=? e) && (s <=? pgend r)) eqn:E0; [|left; simpl; by rewrite Er].
    destruct (page_range_subsumes_range r s e) eqn:E2; unfold page_range_subsumes_range in E2; [exfalso; lia|].
    destruct (s <=? pgstart r) eqn:E3; [left; simpl; unfold page_in_range; simpl; rewrite wrap_small by lia; case_match; [done|lia]|].
    destruct (pgend r <=? e) eqn:E4; [left; simpl; unfold page_in_range; simpl; rewrite wrap_small by lia; case_match; [done|lia]|].
    destruct (decide (e < p)) as [Hep|Hep].
    + right. split; [done|]. intros y Hy. simpl. unfold page_in_range. case_match; [done|lia].
    + left. rewrite status_app, status_above; [simpl; unfold page_in_range; simpl; rewrite wrap_small by lia; case_match; [done|lia]|].
      destruct ok; [|done]. apply Forall_cons; [simpl; rewrite wrap_small by lia; lia|done].
  - specialize (Hrest eq_refl). pose proof Er as Er'. unfold page_in_range in Er'.
    destruct ((pgstart r <=? e) && (s <=? pgend r)) eqn:E0; [|by rewrite Hq].
    destruct (page_range_subsumes_range r s e) eqn:E2; unfold page_range_subsumes_range in E2; [done|].
    destruct (s <=? pgstart r) eqn:E3; [rewrite Hq; [done|]; unfold page_in_range; simpl; rewrite wrap_small by lia; lia|].
    destruct (pgend r <=? e) eqn:E4; [rewrite Hq; [done|]; unfold page_in_range; simpl; rewrite wrap_small by lia; lia|].
    left. rewrite status_app. replace (status (if ok then _ else []) p) with (@None Z);
      [|destruct ok; [simpl; unfold page_in_range; simpl; rewrite wrap_small by lia; case_match; [lia|done]|done]].
    rewrite !Hq; [done|done|]. unfold page_in_range. simpl. rewrite (wrap_small 64) by lia. lia.
Qed.

(** The pages of a range that overlaps, and those further down the sequence. *)
Lemma status_overlap r rs : pgstart r <= pgend r -> pgstart r <= e -> s <= pgend r ->
  exists p, s <= p <= e /\ status (r :: rs) p = Some (purged r).
Proof.
  intros. exists (Z.max s (pgstart r)). split; [lia|]. simpl. unfold page_in_range. case_eq ((pgstart r <=? Z.max s (pgstart r)) && (Z.max s (pgstart r) <=? pgend r)); [done|lia].
Qed.

Lemma status_tail r rs p x : Forall (fun q => pgend q < pgstart r) rs -> status rs p = Some x -> status (r :: rs) p = Some x.
Proof.
  intros Hb Hx. simpl. destruct (page_in_range r p) eqn:Ep; [|done]. unfold page_in_range in Ep.
  rewrite status_below in Hx; [done|]. eapply Forall_pgend_le; [exact Hb|lia].
Qed.

Lemma pin_purged_spec rs : desc rs -> Forall range_ok rs ->
  (pin_purged s e rs = 1 /\ exists p, s <= p <= e /\ status rs p = Some 1) \/
  (pin_purged s e rs = 0 /\ forall p, s <= p <= e -> status rs p <> Some 1).
Proof.
  induction rs as [|r rs IH]; intros Hd Hok; [by right|]. destruct Hd as (Hr&Hb&Hd). apply Forall_cons_1 in Hok as [(_&_&Hp) Hok]. specialize (IH Hd Hok).
  cbn [pin_purged]. destruct (range_before_page r s) eqn:E1; unfold range_before_page in E1.
  { right. split; [done|]. intros p Hpp. rewrite status_below; [done|]. apply Forall_cons; [lia|]. eapply Forall_pgend_le; [exact Hb|lia]. }
  rewrite in_range_overlap by done. destruct ((pgstart r <=? e) && (s <=? pgend r)) eqn:E0.
  2:{ assert (Hsame : forall p, s <= p <= e -> status (r :: rs) p = status rs p).
      { intros p Hpp. simpl. destruct (page_in_range r p) eqn:Ep; [|done]. unfold page_in_range in Ep. lia. }
      destruct IH as [[? (p&?&?)]|[? H0]]; [left|right]; (split; [done|]); [exists p; by rewrite Hsame|intros p Hpp; rewrite Hsame by done; by apply H0]. }
  destruct (status_overlap r rs Hr) as (p0&Hp0&Hst); [lia|lia|].
  assert (Hin : (pgstart r <? s) && (e <? pgend r) = true -> forall p, s <= p <= e -> status (r :: rs) p = Some (purged r)).
  { intros Ei p Hpp. simpl. destruct (page_in_range r p) eqn:Ep; unfold page_in_range in Ep; [done|lia]. }
  destruct ((pgstart r <? s) && (e <? pgend r)) eqn:E2.
  { destruct Hp as [Hp|Hp]; rewrite Hp in *; [right|left]; (split; [done|]); [intros p Hpp; by rewrite Hin|by exists p0]. }
  destruct Hp as [Hp|Hp]; rewrite Hp in *.
  - destruct IH as [[-> (p&?&?)]|[-> H0]]; [left|right]; (split; [done|]); [exists p; split; [done|by apply status_tail]|].
    intros p Hpp. simpl. rewrite Hp. destruct (page_in_range r p); [done|by apply H0].
  - left. split; [by destruct IH as [[-> _]|[-> _]]|]. by exists p0.
Qed.

(** The answer of [ASHMEM_GET_PIN_STATUS]. *)
Lemma pin_status_loop_spec w ids : (forall id, id ∈ ids -> is_Some (ranges w !! id)) -> desc (view w ids) ->
  (pin_status_loop ids w s e = Ok ASHMEM_IS_PINNED /\ forall p, s <= p <= e -> status (view w ids) p = None) \/
  (pin_status_loop ids w s e = Ok ASHMEM_IS_UNPINNED /\ exists p, s <= p <= e /\ status (view w ids) p <> None).
Proof.
  induction ids as [|id ids IH]; intros Hin Hd; [by left|]. destruct (Hin id) as [r Hr]; [by left|]. rewrite (view_cons _ _ _ _ Hr) in *.
  destruct Hd as (Hne&Hb&Hd). cbn [pin_status_loop]. unfold get_range. rewrite Hr. cbn [obind].
  destruct (range_before_page r s) eqn:E1; unfold range_before_page in E1.
  { left. split; [done|]. intros p Hpp. apply status_below. apply Forall_cons; [lia|]. eapply Forall_pgend_le; [exact Hb|lia]. }
  rewrite in_range_overlap by done. destruct ((pgstart r <=? e) && (s <=? pgend r)) eqn:E0.
  { right. split; [done|]. destruct (status_overlap r (view w ids) Hne) as (p&Hp&Hst); [lia|lia|]. exists p. by rewrite Hst. }
  destruct IH as [[-> H0]|[-> (p&Hp&H0)]]; [intros i Hi; apply Hin; by right|done|left|right]; (split; [done|]).
  - intros p Hpp. simpl. destruct (page_in_range r p) eqn:Ep; unfold page_in_range in Ep; [lia|by apply H0].
  - exists p. split; [done|]. simpl. by destruct (page_in_range r p).
Qed.

End PinPages.

(** ** Unpinning *)

Lemma passed_above s e r : s <= e -> pgstart r <= pgend r -> passed s e r -> e < pgstart r.
Proof. intros Hse Hr [H1 H2]. rewrite in_range_overlap in H2 by done. unfold range_before_page in H1. lia. Qed.

Lemma desc_nonempty rs : desc rs -> Forall (fun r => pgstart r <= pgend r) rs.
Proof. induction rs as [|r rs IH]; [done|]. intros (?&?&?). apply Forall_cons; auto. Qed.

Lemma passed_all s e rs : s <= e -> desc rs -> Forall (passed s e) rs -> Forall (fun r => e < pgstart r) rs.
Proof.
  intros Hse Hd Hp. pose proof (desc_nonempty rs Hd) as Hne. eapply Forall_impl; [|exact (Forall_and Hne Hp)].
  intros r [? ?]. by eapply passed_above.
Qed.

Lemma desc_remove rs1 r rs2 : desc (rs1 ++ r :: rs2) -> desc (rs1 ++ rs2) /\ desc (r :: rs2) /\
  forall p, status (rs1 ++ r :: rs2) p = if page_in_range r p then Some (purged r) else status (rs1 ++ rs2) p.
Proof.
  rewrite !desc_app. intros (H1&H2&H12). pose proof H2 as (Hne&Hb&Hd). split; [|split; [done|]].
  { split; [done|]. split; [done|]. eapply Forall_impl; [|exact H12]. intros q Hq. by apply Forall_cons_1 in Hq as [_ ?]. }
  intros p. rewrite !status_app. cbn [status]. destruct (page_in_range r p) eqn:Ep; [|done]. unfold page_in_range in Ep.
  rewrite status_above; [done|]. eapply Forall_impl; [|exact H12]. intros q Hq. apply Forall_cons_1 in Hq as [? _]. lia.
Qed.

Lemma desc_removed rs1 r rs2 : desc (rs1 ++ r :: rs2) -> forall q, page_in_range r q = true -> status (rs1 ++ rs2) q = None.
Proof.
  intros (_&(_&Hbr&_)&H12)%desc_app q Hq. unfold page_in_range in Hq. rewrite status_app, status_above.
  - apply status_below. eapply Forall_pgend_le; [exact Hbr|lia].
  - eapply Forall_impl; [|exact H12]. intros x Hx. apply Forall_cons_1 in Hx as [? _]. lia.
Qed.

Lemma desc_all_before s rs : desc rs -> Forall (fun r => range_before_page r s = true) (take 1 rs) -> Forall (fun r => pgend r < s) rs.
Proof.
  destruct rs as [|r rs]; [done|]. intros (?&Hb&_) Hf. apply Forall_cons_1 in Hf as [Hr _]. unfold range_before_page in Hr.
  apply Forall_cons; [lia|]. eapply Forall_pgend_le; [exact Hb|lia].
Qed.

Lemma desc_insert a s e p rs1 rs2 : s <= e -> desc (rs1 ++ rs2) -> Forall (fun r => e < pgstart r) rs1 -> Forall (fun r => pgend r < s) rs2 ->
  desc (rs1 ++ [AshmemRange a s e p] ++ rs2).
Proof.
  rewrite (desc_app rs1 rs2), (desc_app rs1). intros Hse (H1&H2&H12) Ha Hb. split; [done|]. split; [simpl; auto|].
  eapply Forall_impl; [|exact (Forall_and Ha H12)]. intros r [? ?]. by apply Forall_cons.
Qed.

Lemma status_insert a s e x rs1 rs2 p : Forall (fun r => e < pgstart r) rs1 ->
  status (rs1 ++ [AshmemRange a s e x] ++ rs2) p = if (s <=? p) && (p <=? e) then Some x else status (rs1 ++ rs2) p.
Proof.
  intros Ha. rewrite !status_app. cbn [status]. unfold page_in_range. cbn [pgstart pgend purged].
  destruct ((s <=? p) && (p <=? e)) eqn:E; [|by destruct (status rs1 p)]. rewrite status_above; [done|].
  eapply Forall_impl; [|exact Ha]. simpl. lia.
Qed.

(** Unpinning when the allocation succeeds: exactly the pages asked for join the
    unpinned ones; purged pages stay purged, and a page becomes purged only
    when a run of unpinned pages joins it to a purged one. *)
Definition unpin_effect (s e p : Z) (st st' : Z -> option Z) : Prop :=
  (forall q, st' q = None <-> ~ s <= q <= e /\ st q = None) /\
  (forall q, st q = Some 1 \/ (p = 1 /\ s <= q <= e) -> st' q = Some 1) /\
  (forall q, st' q = Some 1 -> exists x, (st x = Some 1 \/ (p = 1 /\ s <= x <= e)) /\
     forall y, Z.min q x <= y <= Z.max q x -> st' y <> None).

Lemma effect_insert a s e p rs1 rs2 : s <= e -> Forall (fun r => e < pgstart r) rs1 -> Forall (fun r => pgend r < s) rs2 ->
  unpin_effect s e p (status (rs1 ++ rs2)) (status (rs1 ++ [AshmemRange a s e p] ++ rs2)).
Proof.
  intros Hse Ha Hb.
  assert (Hin : forall q, s <= q <= e -> status (rs1 ++ rs2) q = None).
  { intros q Hq. rewrite status_app, status_above; [apply status_below; eapply Forall_pgend_le; [exact Hb|lia]|].
    eapply Forall_impl; [|exact Ha]. simpl. lia. }
  split; [|split]; intros q; rewrite status_insert by done; destruct ((s <=? q) && (q <=? e)) eqn:E.
  - split; [done|lia].
  - split; [intros; split; [lia|done]|tauto].
  - intros [H|[-> _]]; [|done]. rewrite Hin in H by lia. done.
  - intros [H|[_ H]]; [done|lia].
  - intros [= ->]. exists q. split; [right; split; [done|lia]|]. intros y Hy. rewrite status_insert by done. case_match; [done|lia].
  - intros H. exists q. split; [by left|]. intros y Hy. rewrite status_insert by done. assert (y = q) as -> by lia. by rewrite E, H.
Qed.

Lemma effect_merge s e p r st st' st'' : pgstart r <= pgend r -> page_range_in_range r s e = true -> s <= e -> purged r = 0 \/ purged r = 1 -> p = 0 \/ p = 1 ->
  (forall q, st q = if page_in_range r q then Some (purged r) else st' q) -> (forall q, page_in_range r q = true -> st' q = None) ->
  unpin_effect (Z.min (pgstart r) s) (Z.max (pgend r) e) (Z.lor p (purged r)) st' st'' -> unpin_effect s e p st st''.
Proof.
  intros Hne Hi Hse Hpr Hp Hst Hst' (H1&H2&H3). rewrite in_range_overlap in Hi by done.
  assert (Hun : forall y, Z.min (pgstart r) s <= y <= Z.max (pgend r) e -> st'' y <> None) by (intros y Hy E; apply H1 in E; lia).
  assert (Hlor : p = 1 \/ purged r = 1 -> Z.lor p (purged r) = 1) by (destruct Hp as [->| ->], Hpr as [->| ->]; intros []; done).
  split; [|split].
  - intros q. rewrite H1, Hst. unfold page_in_range. destruct ((pgstart r <=? q) && (q <=? pgend r)) eqn:E.
    + split; [lia|intros [_ ?]; done].
    + split; intros [? ?]; (split; [lia|done]).
  - intros q Hq. apply H2. rewrite Hst in Hq. destruct (page_in_range r q) eqn:E; unfold page_in_range in E.
    + right. split; [|lia]. apply Hlor. destruct Hq as [[= ?]|[? _]]; auto.
    + destruct Hq as [?|[? ?]]; [by left|]. right. split; [auto|lia].
  - intros q Hq. destruct (H3 q Hq) as (x&Hx&Hy). destruct Hx as [Hx|[Hl Hx]].
    + exists x. split; [|done]. left. rewrite Hst. destruct (page_in_range r x) eqn:E; [|done]. rewrite Hst' in Hx by done. done.
    + assert (Hpath : forall z, Z.min (pgstart r) s <= z <= Z.max (pgend r) e -> forall y, Z.min q z <= y <= Z.max q z -> st'' y <> None).
      { intros z Hz y Hyz. destruct (decide (Z.min q x <= y <= Z.max q x)); [by apply Hy|]. apply Hun. lia. }
      destruct (decide (p = 1)) as [->|Hn].
      * exists s. split; [right; split; [done|lia]|]. apply Hpath. lia.
      * exists (pgstart r). split; [|apply Hpath; lia]. left. rewrite Hst. unfold page_in_range. case_match; [|lia].
        destruct Hp as [->|?]; [|done]. rewrite Z.lor_0_l in Hl. by rewrite Hl.
Qed.

Lemma unpin_view_effect a s e p rs rc rs' : unpin_view a true s e p rs rc rs' -> s <= e -> desc rs -> Forall range_ok rs ->
  p = 0 \/ (p = 1 /\ exists x, s <= x <= e /\ status rs x = None) ->
  rc = 0 /\ desc rs' /\ unpin_effect s e p (status rs) (status rs').
Proof.
  induction 1 as [s e p rs1 rs2 Hp Hb|s e p rs1 r rs2 Hp Hb Hs|s e p rs1 r rs2 rc rs' Hp Hb Hs Hi Huv IH]; intros Hse Hd Hok Hpx.
  - pose proof Hd as (Hd1&Hd2&_)%desc_app. pose proof (passed_all s e rs1 Hse Hd1 Hp) as Ha. pose proof (desc_all_before s rs2 Hd2 Hb) as Hb'.
    split; [done|]. split; [by apply desc_insert|]. by apply effect_insert.
  - split; [done|]. split; [done|]. destruct (desc_remove _ _ _ Hd) as (_&(Hne&_)&Hst). unfold page_range_subsumed_by_range in Hs.
    assert (Hcov : forall q, s <= q <= e -> status (rs1 ++ r :: rs2) q <> None).
    { intros q Hq. rewrite Hst. unfold page_in_range. case_match; [done|lia]. }
    assert (p = 0) as ->. { destruct Hpx as [?|(_&x&Hx&Hx')]; [done|]. by destruct (Hcov x Hx). }
    split; [|split].
    + intros q. split; [|tauto]. intros H. split; [|done]. intros Hq. by destruct (Hcov q Hq).
    + intros q [?|[? _]]; done.
    + intros q Hq. exists q. split; [by left|]. intros y Hy. assert (y = q) as -> by lia. by rewrite Hq.
  - destruct (desc_remove _ _ _ Hd) as (Hd'&(Hne&Hbr&_)&Hst). apply Forall_app in Hok as [Hok1 Hok2]. apply Forall_cons_1 in Hok2 as [(_&_&Hpr) Hok2].
    pose proof (desc_removed _ _ _ Hd) as Hgone.
    assert (Hpp : p = 0 \/ p = 1) by tauto.
    destruct IH as (->&Hd''&Heff); [lia|done|by apply Forall_app| |split; [done|split; [done|by eapply effect_merge]]].
    destruct (decide (Z.lor p (purged r) = 0)) as [->|Hl]; [by left|]. right.
    split; [destruct Hpp as [->| ->], Hpr as [Hpr|Hpr]; rewrite Hpr in *; done|]. exists (pgstart r). split; [lia|]. apply Hgone. unfold page_in_range. lia.
Qed.

(** Unpinning when the allocation fails: the ranges that overlap the request are
    gone. Its pages are pinned, and another page is pinned only if a run of
    unpinned pages joined it to the request. *)
Definition unpin_lost (s e : Z) (st st' : Z -> option Z) : Prop :=
  (forall q, s <= q <= e -> st' q = None) /\
  (forall q, st' q = st q \/ (st' q = None /\ exists x, s <= x <= e /\ forall y, Z.min q x <= y <= Z.max q x -> st y <> None)).

Lemma lost_merge s e r st st' st'' : pgstart r <= pgend r -> page_range_in_range r s e = true -> s <= e ->
  (forall q, st q = if page_in_range r q then Some (purged r) else st' q) -> (forall q, page_in_range r q = true -> st' q = None) ->
  unpin_lost (Z.min (pgstart r) s) (Z.max (pgend r) e) st' st'' -> unpin_lost s e st st''.
Proof.
  intros Hne Hi Hse Hst Hst' [H1 H2]. rewrite in_range_overlap in Hi by done. split; [intros q Hq; apply H1; lia|].
  assert (Hin : forall q, page_in_range r q = true <-> pgstart r <= q <= pgend r) by (intros q; unfold page_in_range; lia).
  intros q. destruct (page_in_range r q) eqn:E.
  { right. apply Hin in E. split; [apply H1; lia|]. exists (Z.max s (pgstart r)). split; [lia|]. intros y Hy. rewrite Hst. by rewrite (proj2 (Hin y)) by lia. }
  destruct (H2 q) as [H|(H&x&Hx&Hy)]; [left; by rewrite H, Hst, E|]. right. split; [done|].
  assert (Hout : forall y, Z.min q x <= y <= Z.max q x -> page_in_range r y = false).
  { intros y Hyq. destruct (page_in_range r y) eqn:Ey; [|done]. by destruct (Hy y Hyq); apply Hst'. }
  exists x. split; [|intros y Hyq; rewrite Hst, Hout by done; auto].
  assert (Hxr : ~ pgstart r <= x <= pgend r) by (rewrite <- Hin, Hout by lia; done). lia.
Qed.

Lemma unpin_view_lost a s e p rs rc rs' : unpin_view a false s e p rs rc rs' -> s <= e -> desc rs ->
  desc rs' /\ ((rc = 0 /\ rs' = rs /\ forall q, s <= q <= e -> status rs q <> None) \/ (rc = - ENOMEM /\ unpin_lost s e (status rs) (status rs'))).
Proof.
  induction 1 as [s e p rs1 rs2 Hp Hb|s e p rs1 r rs2 Hp Hb Hs|s e p rs1 r rs2 rc rs' Hp Hb Hs Hi Huv IH]; intros Hse Hd.
  - split; [done|]. right. split; [done|]. split; [|by left]. pose proof Hd as (Hd1&Hd2&_)%desc_app. intros q Hq. cbn [app].
    rewrite status_app, status_above; [apply status_below; eapply Forall_pgend_le; [by apply (desc_all_before s rs2)|lia]|].
    eapply Forall_impl; [|exact (passed_all s e rs1 Hse Hd1 Hp)]. simpl. lia.
  - split; [done|]. left. split; [done|]. split; [done|]. destruct (desc_remove _ _ _ Hd) as (_&_&Hst). unfold page_range_subsumed_by_range in Hs.
    intros q Hq. rewrite Hst. unfold page_in_range. case_match; [done|lia].
  - destruct (desc_remove _ _ _ Hd) as (Hd'&(Hne&_&_)&Hst). pose proof (desc_removed _ _ _ Hd) as Hgone.
    destruct IH as (Hd''&[(_&_&Hcov)|[-> Hlost]]); [lia|done| |split; [done|right; split; [done|by eapply lost_merge]]].
    exfalso. apply (Hcov (pgstart r)); [lia|]. apply Hgone. unfold page_in_range. lia.
Qed.
