(* ===== verification/AshmemDriver.v ===== *)
(** * AshmemDriver: the entry points of ashmem as steps of one system

    A call is one of the file operations or a run of the shrinker. The
    conditions under which the kernel makes a call (an open file, a user string
    without NUL, a backing file of a legal size) are [allowed]. *)

From stdpp Require Import gmap relations.
From S2P Require Import Prelude Ashmem AshmemFacts AshmemOps.

Inductive call :=
| Open (open_ret : Z)
| Release (a : Z)
| Ioctl (a : Z) (cmd : ioctl_cmd)
| Mmap (a vm_flags : Z) (shmem_file_setup : Z + Z)
| Llseek (a f_pos : Z) (vfs_llseek : Z * Z)
| Read (a backing_pos : Z) (vfs_read : Z * Z)
| Shrink (gfp_fs locked : bool) (nr_to_scan : Z).

Definition exec (alloc_ok : Z -> bool) (w : world) (c : call) : outcome world :=
  match c with
  | Open open_ret => Ok (snd (ashmem_open alloc_ok w open_ret))
  | Release a => let* (_, w) := ashmem_release w a in Ok w
  | Ioctl a cmd => let* (_, w) := ashmem_ioctl alloc_ok w a cmd in Ok w
  | Mmap a vm_flags setup => let* (_, w) := ashmem_mmap w a vm_flags setup in Ok w
  | Llseek a f_pos vfs => let* _ := ashmem_llseek w a f_pos vfs in Ok w
  | Read a pos vfs => let* _ := ashmem_read w a pos vfs in Ok w
  | Shrink gfp_fs locked nr => let* (_, w) := ashmem_shrink_scan w gfp_fs locked nr in Ok w
  end.

(** The types of the arguments of an ioctl. *)
Definition cmd_ok (cmd : ioctl_cmd) : Prop :=
  match cmd with
  | SET_NAME junk (inl err) => Z.of_nat (length junk) = ASHMEM_NAME_LEN /\ err < 0
  | SET_NAME junk (inr s) => Z.of_nat (length junk) = ASHMEM_NAME_LEN /\ Forall (fun c => c <> 0) s
  | SET_SIZE arg => 0 <= arg < 2 ^ 64
  | SET_PROT_MASK prot _ => 0 <= prot
  | PIN_UNPIN _ (Some (offset, len)) => 0 <= offset < 2 ^ 32 /\ 0 <= len < 2 ^ 32
  | _ => True
  end.

Definition allowed (w : world) (c : call) : Prop :=
  match c with
  | Open _ => True
  | Release a | Llseek a _ _ | Read a _ _ => is_Some (areas w !! a)
  | Ioctl a cmd => is_Some (areas w !! a) /\ cmd_ok cmd
  | Mmap a _ (inr _) => exists ar, areas w !! a = Some ar /\ size ar < 2 ^ 63
  | Mmap a _ (inl _) => is_Some (areas w !! a)
  | Shrink _ _ nr => 0 <= nr < 2 ^ 64
  end.

Inductive step (alloc_ok : Z -> bool) : world -> world -> Prop :=
| do_call w c w' : allowed w c -> exec alloc_ok w c = Ok w' -> step alloc_ok w w'.

(** The module as it is loaded. *)
Definition init_world : world := World ∅ ∅ [] 0 0 [].

(** ** Areas *)

Lemma set_area_wf w a ar ar' : wf w -> areas w !! a = Some ar -> unpinned_list ar' = unpinned_list ar -> area_ok ar' ->
  (file ar <> None -> file ar' <> None) -> wf (set_area w a ar').
Proof.
  intros [Ha Hr Hl Hc] Har Hul Hok Hf. split; simpl; [| |done|done].
  - intros b br Hb. destruct (decide (b = a)) as [->|Hne].
    + rewrite lookup_insert_eq in Hb. injection Hb as <-. destruct (Ha a ar Har) as (_&?). rewrite Hul. by split.
    + rewrite lookup_insert_ne in Hb by done. by apply Ha.
  - intros id r Hid. destruct (Hr id r Hid) as (?&?&br&Hb&Hin&Hfb). split; [done|]. split; [done|]. destruct (decide (asma r = a)) as [E|Hne].
    + rewrite E in *. assert (br = ar) as -> by congruence. exists ar'. rewrite lookup_insert_eq, Hul. auto.
    + exists br. by rewrite lookup_insert_ne.
Qed.

Lemma init_wf : wf init_world.
Proof.
  split; simpl; try done. split; [constructor|]. intros id. split; [by intros ?%elem_of_nil|]. by intros (r&?&_).
Qed.

Lemma open_wf alloc_ok w ret : wf w -> wf (snd (ashmem_open alloc_ok w ret)).
Proof.
  intros [Ha Hr Hl Hc]. unfold ashmem_open. case_match; [done|]. case_match; simpl.
  { split; simpl; [| |done|done].
    - intros b br Hb. destruct (Ha b br Hb) as (?&?&?). split; [done|]. split; [lia|done].
    - intros id r Hid. destruct (Hr id r Hid) as (?&?&?). split; [done|]. split; [lia|done]. }
  assert (Hnew : areas w !! next_id w = None).
  { destruct (areas w !! next_id w) as [br|] eqn:E; [|done]. destruct (Ha _ _ E) as (_&?&_). lia. }
  split; simpl; [| |done|done].
  - intros b br Hb. destruct (decide (b = next_id w)) as [->|Hne].
    + rewrite lookup_insert_eq in Hb. injection Hb as <-. split; [|split; [lia|split; [constructor|by intros id ?%elem_of_nil]]].
      split; [by exists [], (replicate 255 0)|]. split; [simpl; lia|]. split; [done|]. simpl. unfold PROT_MASK. lia.
    + rewrite lookup_insert_ne in Hb by done. destruct (Ha b br Hb) as (?&?&?). split; [done|]. split; [lia|done].
  - intros id r Hid. destruct (Hr id r Hid) as (?&?&br&Hb&?). split; [done|]. split; [lia|]. exists br. rewrite lookup_insert_ne; [done|]. intros E. congruence.
Qed.

(** ** Release *)

Lemma release_loop_spec a ids : forall w ar, wf w -> areas w !! a = Some ar -> unpinned_list ar = ids ->
  exists w', release_loop ids w = Ok w' /\ wf w' /\ same_but a w w' /\ areas w' !! a = Some (set_unpinned ar []).
Proof.
  induction ids as [|id ids IH]; intros w ar Hwf Har Hl.
  { exists w. split; [done|]. split; [done|]. split; [apply same_but_refl|]. rewrite Har. destruct ar. simpl in *. by subst. }
  destruct (wf_at w a ar [] id ids Hwf Har Hl) as (r&Hr&Ha&_&_&Hni). simpl.
  destruct (range_del_spec w id r Hwf Hr) as (ar0&w1&Har0&->&Hwf1&Hsb&_&HA&_). rewrite Ha in *. assert (ar0 = ar) as -> by congruence. cbn [obind].
  assert (Hdel : list_del id (unpinned_list ar) = ids).
  { rewrite Hl. apply (list_del_middle id [] ids). simpl. rewrite <- Hl. by destruct (wf_area _ Hwf a ar Har) as (_&_&?&_). }
  destruct (IH w1 (set_unpinned ar ids) Hwf1) as (w'&->&Hwf'&Hsb'&Har'); [by rewrite HA, lookup_insert_eq, Hdel|done|].
  exists w'. split; [done|]. split; [done|]. split; [by eapply same_but_trans|done].
Qed.

Lemma release_spec w a : wf w -> is_Some (areas w !! a) ->
  exists w1 w', ashmem_release w a = Ok (0, w') /\ wf w' /\ same_but a w w1 /\ ranges w' = ranges w1 /\ areas w' = delete a (areas w1).
Proof.
  intros Hwf [ar Har]. unfold ashmem_release, get_area. rewrite Har. cbn [obind].
  destruct (release_loop_spec a _ w ar Hwf Har eq_refl) as (w1&->&Hwf1&Hsb&Har1). cbn [obind]. exists w1. eexists. split; [done|]. simpl.
  split; [|done]. destruct Hwf1 as [Ha Hr Hl Hc]. split; simpl; [| |done|done].
  - intros b br [_ Hb]%lookup_delete_Some. by apply Ha.
  - intros id r Hid. destruct (Hr id r Hid) as (?&?&br&Hb&Hin&?). split; [done|]. split; [done|]. exists br. split; [|done].
    rewrite lookup_delete_ne; [done|]. intros E. rewrite <- E, Har1 in Hb. injection Hb as <-. by apply elem_of_nil in Hin.
Qed.

(** ** The shrinker *)

(** The loop purges the first [shrink_batch] entries of the LRU list. *)
Definition shrink_batch (nr len : Z) : Z := Z.min (if nr =? 0 then 2 ^ 64 else nr) len.

Definition purge (r : ashmem_range) : ashmem_range := AshmemRange (asma r) (pgstart r) (pgend r) ASHMEM_WAS_PURGED.

(** The hole of a range: the bytes of its pages in the backing file. *)
Definition hole (w : world) (id : Z) : option (Z * Z * Z) :=
  r ← ranges w !! id; ar ← areas w !! asma r; f ← file ar;
  Some (f, s64 (pgstart r * PAGE_SIZE), s64 (s64 (u64 (pgend r + 1) * PAGE_SIZE) - s64 (pgstart r * PAGE_SIZE))).

(** The head of the LRU list is purged. *)
Lemma purge_head w id ids : wf w -> ashmem_lru_list w = id :: ids ->
  exists r w1, ranges w !! id = Some r /\ purge_range w id = Ok (purge r, w1) /\ wf w1 /\ areas w1 = areas w /\
    ranges w1 = <[id := purge r]> (ranges w) /\ ashmem_lru_list w1 = ids /\ next_id w1 = next_id w /\ id ∉ ids /\
    exists h, hole w id = Some h /\ punched w1 = punched w ++ [h].
Proof.
  intros Hwf Hl. destruct (wf_lru _ Hwf) as [Hnd Hmem]. destruct (Hmem id) as [Hm _]. destruct Hm as (r&Hr&Hp); [rewrite Hl; by left|].
  destruct (purge_range_spec w id r Hwf Hr Hp) as (ar&f&w1&Har&Hf&Hpr&Hwf1&HA&HR&Hl1&Hn&Hpu).
  exists r, w1. split; [done|]. split; [done|]. split; [done|]. split; [done|]. split; [done|]. rewrite Hl in Hnd.
  split; [rewrite Hl1, Hl; by apply (list_del_middle id [] ids)|]. split; [done|]. split; [by apply list.NoDup_cons in Hnd as [? _]|].
  eexists. split; [|exact Hpu]. unfold hole. rewrite Hr. simpl. rewrite Har. simpl. by rewrite Hf.
Qed.

Lemma shrink_loop_spec ids : forall w nr freed, wf w -> ashmem_lru_list w = ids -> 0 <= nr < 2 ^ 64 -> freed = u64 freed ->
  exists w', let l := take (Z.to_nat (shrink_batch nr (Z.of_nat (length ids)))) ids in
    shrink_loop ids w nr freed = Ok (u64 (freed + pages_of (ranges w) l), w') /\ wf w' /\
    areas w' = areas w /\ next_id w' = next_id w /\
    ashmem_lru_list w' = drop (length l) ids /\
    (forall id, ranges w' !! id = if decide (id ∈ l) then purge <$> ranges w !! id else ranges w !! id) /\
    punched w' = punched w ++ omap (hole w) l.
Proof.
  induction ids as [|id ids IH]; intros w nr freed Hwf Hl Hnr Hfr.
  { exists w. rewrite take_nil. cbn zeta. cbn [shrink_loop pages_of foldr length]. rewrite Z.add_0_r, <- Hfr, drop_0.
    split; [done|]. split; [done|]. split; [done|]. split; [done|]. split; [done|]. split; [|by rewrite app_nil_r]. intros i. by rewrite decide_False by apply not_elem_of_nil. }
  destruct (purge_head w id ids Hwf Hl) as (r&w1&Hr&Hpr&Hwf1&HA&HR&Hl1'&Hn&Hni&h&Hhole&Hpu).
  cbn [shrink_loop]. rewrite Hpr. cbn [obind]. change (range_size (purge r)) with (range_size r).
  assert (Hnr' : u64 (nr - 1) = if nr =? 0 then 2 ^ 64 - 1 else nr - 1).
  { case_match; [replace nr with 0 by lia; done|apply wrap_small; lia]. }
  destruct (u64 (nr - 1) <=? 0) eqn:Estop.
  - assert (nr = 1) as -> by (destruct (nr =? 0) eqn:?; lia).
    exists w1. assert (Z.to_nat (shrink_batch 1 (Z.of_nat (length (id :: ids)))) = 1%nat) as -> by (unfold shrink_batch; change (1 =? 0) with false; cbn [length]; lia).
    cbn zeta. rewrite firstn_cons, take_0. cbn [pages_of foldr length drop]. rewrite Hr, drop_0, Hpu, Hn, HA. cbn [from_option]. rewrite Z.add_0_r.
    split; [done|]. split; [done|]. split; [done|]. split; [done|]. split; [done|]. split; [|unfold omap; cbn [list_omap]; by rewrite Hhole].
    intros i. rewrite HR. case_decide as E; [apply list_elem_of_singleton in E as ->; by rewrite lookup_insert_eq, Hr|].
    rewrite lookup_insert_ne; [done|]. intros <-. apply E. by left.
  - destruct (IH w1 (u64 (nr - 1)) (u64 (freed + range_size r)) Hwf1 Hl1') as (w'&Hrun&Hwf'&HA'&Hn'&Hlr&HR'&Hpu'); [apply wrap_range; lia|symmetry; apply Zmod_mod|].
    exists w'.
    assert (Z.to_nat (shrink_batch nr (Z.of_nat (length (id :: ids)))) = S (Z.to_nat (shrink_batch (u64 (nr - 1)) (Z.of_nat (length ids))))) as ->.
    { unfold shrink_batch. rewrite Hnr'. cbn [length]. destruct (nr =? 0) eqn:E0; [replace (2 ^ 64 - 1 =? 0) with false by done; lia|].
      destruct (nr - 1 =? 0) eqn:E1; [rewrite Hnr' in Estop; lia|lia]. }
    revert Hrun Hlr HR' Hpu'. cbn zeta. generalize (Z.to_nat (shrink_batch (u64 (nr - 1)) (Z.of_nat (length ids)))). intros n Hrun Hlr HR' Hpu'.
    assert (Hnt : id ∉ take n ids). { intros Hin. apply Hni. by eapply elem_of_take in Hin as (?&?%list_elem_of_lookup_2&_). }
    simpl take. simpl pages_of. rewrite Hr. cbn [from_option].
    assert (Hsame : forall i, i ∈ take n ids -> ranges w1 !! i = ranges w !! i). { intros i Hi. rewrite HR, lookup_insert_ne; [done|]. by intros <-. }
    rewrite Hrun, u64_add_l, (pages_of_ext _ (ranges w)) by done. split; [by rewrite Z.add_assoc|]. split; [done|]. rewrite HA', HA, Hn', Hn.
    split; [done|]. split; [done|]. split; [by rewrite Hlr|]. split.
    + intros i. rewrite HR', HR. destruct (decide (i = id)) as [->|Hne].
      * rewrite lookup_insert_eq, !decide_False by done. rewrite decide_True by (by left). by rewrite Hr.
      * rewrite lookup_insert_ne by done. destruct (decide (i ∈ take n ids)); [by rewrite decide_True by (by right)|].
        rewrite decide_False; [done|]. by intros [->|?]%elem_of_cons.
    + rewrite Hpu', Hpu, <- app_assoc. f_equal. unfold omap at 2. cbn [list_omap]. rewrite Hhole. cbn [app]. f_equal.
      apply list_omap_ext, Forall_Forall2_diag, Forall_forall. intros i Hi. unfold hole. rewrite Hsame by (by apply list_elem_of_In). by rewrite HA.
Qed.

(** ** Names *)

Lemma cstring_app s l : Forall (fun c => c <> 0) s -> cstring (s ++ 0 :: l) = Some s.
Proof.
  induction 1 as [|c s Hc Hs IH]; [done|]. simpl. rewrite (proj2 (Z.eqb_neq c 0)) by done. by rewrite IH.
Qed.

(** The buffer after [strncpy_from_user] and the forced terminator. *)
Lemma local_name_spec junk s : Z.of_nat (length junk) = ASHMEM_NAME_LEN -> Forall (fun c => c <> 0) s ->
  exists l, (let '(len, local_name) := strncpy_from_user junk (inr s) in
             0 <= len /\ (if len =? ASHMEM_NAME_LEN then wr local_name (ASHMEM_NAME_LEN - 1) 0 else Ok local_name) = Ok l) /\
    cstring l = Some (take 255 s).
Proof.
  intros Hj Hs. unfold ASHMEM_NAME_LEN in *. cbn [strncpy_from_user]. unfold ASHMEM_NAME_LEN. change (Z.to_nat 256) with 256%nat.
  destruct (decide (length s < 256)%nat) as [Hlt|Hge].
  - rewrite (take_ge (s ++ [0])) by (rewrite length_app; simpl; lia). rewrite (take_ge s) by lia.
    replace (Z.min (Z.of_nat (length s)) 256 =? 256) with false by lia. eexists. split; [split; [lia|done]|]. rewrite <- app_assoc. by apply cstring_app.
  - rewrite take_app_le by lia. replace (Z.min (Z.of_nat (length s)) 256 =? 256) with true by lia.
    rewrite length_take, Nat.min_l, drop_ge, app_nil_r by lia. rewrite wr_Ok by (rewrite length_take; lia).
    eexists. split; [split; [lia|done]|]. change (Z.to_nat (256 - 1)) with 255%nat.
    rewrite insert_take_drop by (rewrite length_take; lia). rewrite take_take. change (255 `min` 256)%nat with 255%nat. apply cstring_app. by apply Forall_take.
Qed.

Definition named (ar : ashmem_area) (nm : list Z) : ashmem_area := AshmemArea nm (unpinned_list ar) (file ar) (size ar) (prot_mask ar).

Lemma set_name_spec w a ar junk s : wf w -> areas w !! a = Some ar -> Z.of_nat (length junk) = ASHMEM_NAME_LEN -> Forall (fun c => c <> 0) s ->
  match file ar with
  | Some _ => set_name w a junk (inr s) = Ok (- EINVAL, w)
  | None => exists pad, Z.of_nat (length (take 255 s ++ 0 :: pad)) = ASHMEM_NAME_LEN /\
      set_name w a junk (inr s) = Ok (0, set_area w a (named ar (ASHMEM_NAME_PREFIX ++ take 255 s ++ 0 :: pad)))
  end.
Proof.
  intros Hwf Har Hj Hs. destruct (local_name_spec junk s Hj Hs) as (l&Hl&Hc). unfold set_name.
  destruct (strncpy_from_user junk (inr s)) as [len local_name]. destruct Hl as [Hlen Hl]. replace (len <? 0) with false by lia. rewrite Hl. cbn [obind].
  unfold get_area. rewrite Har. cbn [obind]. destruct (file ar) eqn:Ef; [done|].
  destruct (wf_area _ Hwf a ar Har) as (((s0&pad0&Hn&_&Hlen0)&_)&_). unfold strcpy_name. rewrite Hc.
  set (t := take 255 s) in *. assert (Ht : (length t <= 255)%nat) by (unfold t; rewrite length_take; lia).
  assert (Hnl : Z.of_nat (length (name ar)) = 267). { rewrite Hn, length_app. unfold ASHMEM_NAME_LEN in Hlen0. change (length ASHMEM_NAME_PREFIX) with 11%nat. lia. }
  unfold memcpy, ASHMEM_NAME_PREFIX_LEN. replace (Z.of_nat (length t) + 1 =? 0) with false by lia.
  rewrite length_app. cbn [length]. case_if; [lia|]. cbn [obind].
  exists (drop (Z.to_nat (11 + (Z.of_nat (length t) + 1))) (name ar)). split.
  - rewrite length_app. cbn [length]. rewrite length_drop. unfold ASHMEM_NAME_LEN. lia.
  - do 3 f_equal. unfold named. rewrite Ef. f_equal. change (Z.to_nat 11) with (length ASHMEM_NAME_PREFIX) at 1. change (Z.to_nat 0) with 0%nat.
    rewrite Hn at 1. rewrite take_app_length, drop_0, take_ge by (rewrite length_app; cbn [length]; lia). by rewrite <- app_assoc.
Qed.

(** A named area gives its name back, and an area without one the default. *)
Lemma get_name_spec w a ar s pad uncopied : areas w !! a = Some ar -> name ar = ASHMEM_NAME_PREFIX ++ s ++ 0 :: pad ->
  Forall (fun c => c <> 0) s -> Z.of_nat (length (s ++ 0 :: pad)) = ASHMEM_NAME_LEN ->
  get_name w a uncopied = if uncopied =? 0 then Ok (0, match s with [] => ASHMEM_NAME_DEF | _ => s ++ [0] end) else Ok (- EFAULT, []).
Proof.
  intros Har Hn Hs Hlen. unfold get_name, get_area. rewrite Har. cbn [obind]. rewrite Hn. unfold ASHMEM_NAME_PREFIX_LEN, ASHMEM_NAME_LEN in *.
  change (Z.to_nat 11) with (length ASHMEM_NAME_PREFIX). rewrite drop_app_length, cstring_app by done.
  assert (Hrd : rd (ASHMEM_NAME_PREFIX ++ s ++ 0 :: pad) 11 = Ok (match s with [] => 0 | c :: _ => c end)).
  { apply rd_Some; [lia|]. change (Z.to_nat 11) with (length ASHMEM_NAME_PREFIX + 0)%nat. rewrite lookup_app_r, Nat.add_sub' by lia. by destruct s. }
  rewrite Hrd. cbn [obind]. destruct s as [|c s'] eqn:Es.
  { change (negb (0 =? 0)) with false. cbn [obind]. by destruct (uncopied =? 0). }
  apply Forall_cons_1 in Hs as [Hc _]. replace (negb (c =? 0)) with true by lia. rewrite <- Es in *.
  unfold memcpy. rewrite length_replicate. rewrite length_app in Hlen. cbn [length] in Hlen. rewrite !length_app. cbn [length]. change (length ASHMEM_NAME_PREFIX) with 11%nat.
  replace (Z.of_nat (length s) + 1 =? 0) with false by lia. case_if; [lia|]. cbn [obind].
  destruct (uncopied =? 0); [|done]. cbn [negb]. do 2 f_equal. change (take (Z.to_nat 0) _) with (@nil Z).
  change (Z.to_nat 11) with (length ASHMEM_NAME_PREFIX). rewrite drop_app_length. cbn [app].
  replace (Z.to_nat (Z.of_nat (length s) + 1)) with (length (s ++ [0])) by (rewrite length_app; cbn [length]; lia).
  replace (s ++ 0 :: pad) with ((s ++ [0]) ++ pad) by (by rewrite <- app_assoc). by rewrite take_app_length, take_app_length.
Qed.

(** ** Every call keeps the invariant *)

(** The call ends without a fault in a well-formed state. *)
Definition safe {A} (o : outcome (A * world)) : Prop := exists x w', o = Ok (x, w') /\ wf w'.

Lemma safe_same {A} (x : A) w : wf w -> safe (Ok (x, w)).
Proof. intros H. by exists x, w. Qed.

Lemma pin_status_total w s e ids : (forall id, id ∈ ids -> is_Some (ranges w !! id)) -> exists r, pin_status_loop ids w s e = Ok r.
Proof.
  induction ids as [|id ids IH]; intros Hin; [by eexists|]. destruct (Hin id) as [r Hr]; [by left|]. simpl. unfold get_range. rewrite Hr. cbn [obind].
  case_match; [by eexists|]. case_match; [by eexists|]. apply IH. intros i Hi. apply Hin. by right.
Qed.

Lemma wf_listed w a ar : wf w -> areas w !! a = Some ar -> forall id, id ∈ unpinned_list ar -> is_Some (ranges w !! id).
Proof. intros Hwf Har id Hid. destruct (wf_area _ Hwf a ar Har) as (_&_&_&H). destruct (H id Hid) as (r&Hr&_). by exists r. Qed.

Lemma ashmem_pin_spec alloc_ok w a ar s e : wf w -> areas w !! a = Some ar -> file ar <> None ->
  pin_post alloc_ok a s e w [] (unpinned_list ar) 0 (ashmem_pin alloc_ok w a s e).
Proof. intros Hwf Har Hf. unfold ashmem_pin, get_area. rewrite Har. cbn [obind]. by eapply pin_loop_spec. Qed.

Lemma ashmem_unpin_spec alloc_ok w a ar s e : wf w -> areas w !! a = Some ar -> file ar <> None -> 0 <= s < 2 ^ 64 -> 0 <= e < 2 ^ 64 ->
  unpin_post alloc_ok a w ar s e 0 (ashmem_unpin alloc_ok w a s e).
Proof.
  intros Hwf Har Hf Hs He. unfold ashmem_unpin, get_area. rewrite Har. cbn [obind].
  apply unpin_restart_spec; try done; [|lia]. split; [done|]. split; [done|by left].
Qed.

Lemma pin_unpin_safe alloc_ok w a cmd pin : wf w -> is_Some (areas w !! a) -> cmd_ok (PIN_UNPIN cmd pin) ->
  safe (ashmem_pin_unpin alloc_ok w a cmd pin).
Proof.
  intros Hwf [ar Har] Hok. unfold ashmem_pin_unpin, get_area. rewrite Har. cbn [obind].
  destruct (file ar) as [f|] eqn:Ef; [|by apply safe_same]. assert (Hf : file ar <> None) by (by rewrite Ef).
  destruct pin as [[offset len]|]; [|by apply safe_same]. destruct Hok as [Ho Hl]. cbv zeta.
  generalize (if len =? 0 then u32 (PAGE_ALIGN (size ar) - offset) else len) as n. intros n. do 3 (case_match; [by apply safe_same|]).
  assert (Hs : 0 <= offset / PAGE_SIZE < 2 ^ 64).
  { unfold PAGE_SIZE. split; [apply Z.div_pos; lia|apply Z.div_lt_upper_bound; lia]. }
  assert (He : forall x, 0 <= u64 x < 2 ^ 64) by (intros; apply wrap_range; lia). destruct cmd.
  - destruct (ashmem_pin_spec alloc_ok w a ar (offset / PAGE_SIZE) (u64 (offset / PAGE_SIZE + n / PAGE_SIZE - 1)) Hwf Har Hf)
      as (w'&ar'&->&Hwf'&_). by eexists _, w'.
  - destruct (ashmem_unpin_spec alloc_ok w a ar _ _ Hwf Har Hf Hs (He (offset / PAGE_SIZE + n / PAGE_SIZE - 1))) as (rc&w'&ar'&->&Hwf'&_). by exists rc, w'.
  - unfold ashmem_get_pin_status, get_area. rewrite Har. cbn [obind]. edestruct (pin_status_total w) as [r ->]; [by eapply wf_listed|]. by apply safe_same.
Qed.

Lemma land_sub_bound m p : 0 <= m < 8 -> Z.land m p = p -> 0 <= p < 8.
Proof.
  intros Hm H. assert (Hm' : Z.land m (Z.ones 3) = m) by (rewrite Z.land_ones by lia; apply Z.mod_small; lia).
  rewrite <- H, <- Hm', <- Z.land_assoc, (Z.land_comm (Z.ones 3)), Z.land_assoc, Z.land_ones by lia. apply Z.mod_pos_bound. lia.
Qed.

Lemma set_prot_mask_safe w a prot rie : wf w -> is_Some (areas w !! a) -> safe (set_prot_mask w a prot rie).
Proof.
  intros Hwf [ar Har]. unfold set_prot_mask, get_area. rewrite Har. cbn [obind]. destruct (negb _) eqn:E; [by apply safe_same|].
  destruct (wf_area _ Hwf a ar Har) as ((Hn&Hs&Hf&Hm)&_). assert (Hp : 0 <= prot < 8) by (apply (land_sub_bound (prot_mask ar)); [done|lia]).
  eexists 0, _. split; [done|]. apply (set_area_wf w a ar); try done. split; [done|]. split; [done|]. split; [done|]. simpl.
  case_match; [|done]. assert (prot = 0 \/ prot = 1 \/ prot = 2 \/ prot = 3 \/ prot = 4 \/ prot = 5 \/ prot = 6 \/ prot = 7) as Hc by lia.
  repeat destruct Hc as [->|Hc]; try (vm_compute; split; congruence). subst. vm_compute. split; congruence.
Qed.

Lemma shrink_safe w gfp_fs locked nr : wf w -> 0 <= nr < 2 ^ 64 -> safe (ashmem_shrink_scan w gfp_fs locked nr).
Proof.
  intros Hwf Hnr. unfold ashmem_shrink_scan. case_match; [by apply safe_same|]. case_match; [by apply safe_same|].
  destruct (shrink_loop_spec (ashmem_lru_list w) w nr 0 Hwf eq_refl Hnr eq_refl) as (w'&->&Hwf'&_). by eexists _, w'.
Qed.

Lemma ioctl_safe alloc_ok w a cmd : wf w -> is_Some (areas w !! a) -> cmd_ok cmd -> safe (ashmem_ioctl alloc_ok w a cmd).
Proof.
  intros Hwf Ha Hok. pose proof Ha as [ar Har]. destruct (wf_area _ Hwf a ar Har) as (((s&pad&Hn&Hs&Hlen)&Hsz&Hf&Hm)&_).
  destruct cmd; cbn [ashmem_ioctl]; unfold get_area; rewrite ?Har; cbn [obind]; try (by apply safe_same).
  - destruct user as [err|t]; destruct Hok as [Hj Ht].
    + unfold set_name. cbn [strncpy_from_user]. replace (err <? 0) with true by lia. by apply safe_same.
    + pose proof (set_name_spec w a ar junk t Hwf Har Hj Ht) as Hset. destruct (file ar) eqn:Ef; [rewrite Hset; by apply safe_same|].
      destruct Hset as (pad'&Hlen'&->). eexists 0, _. split; [done|]. apply (set_area_wf w a ar); try done. simpl. split; [|done].
      exists (take 255 t), pad'. split; [done|]. split; [by apply Forall_take|done].
  - rewrite (get_name_spec w a ar s pad uncopied Har Hn Hs Hlen). case_match; cbn [obind]; by apply safe_same.
  - destruct (file ar) eqn:Ef; [by apply safe_same|]. eexists 0, _. split; [done|]. apply (set_area_wf w a ar); try done.
    split; [by exists s, pad|done].
  - by apply set_prot_mask_safe.
  - by apply pin_unpin_safe.
  - destruct capable; [|by apply safe_same]. destruct (shrink_safe w true locked LONG_MAX Hwf ltac:(unfold LONG_MAX; lia)) as (x&w'&->&Hwf'). by apply safe_same.
Qed.

Lemma mmap_safe w a flags setup : wf w -> allowed w (Mmap a flags setup) -> safe (ashmem_mmap w a flags setup).
Proof.
  intros Hwf Hal. assert (exists ar, areas w !! a = Some ar /\ match setup with inl _ => True | inr _ => size ar < 2 ^ 63 end) as (ar&Har&Hsize).
  { destruct setup as [err|f]; [destruct Hal as [ar Har]; by exists ar|done]. }
  unfold ashmem_mmap, get_area. rewrite Har. cbn [obind]. destruct (size ar =? 0) eqn:E0; [by apply safe_same|]. destruct (negb _); [by apply safe_same|].
  destruct (file ar) eqn:Ef; [by apply safe_same|]. destruct setup as [err|f]; [by apply safe_same|].
  destruct (wf_area _ Hwf a ar Har) as ((Hn&Hs&_&Hm)&_). eexists _, _. split; [done|]. apply (set_area_wf w a ar); try done.
  split; [done|]. split; [done|]. split; [simpl; lia|done].
Qed.

Lemma exec_safe alloc_ok w c : wf w -> allowed w c -> exists w', exec alloc_ok w c = Ok w' /\ wf w'.
Proof.
  assert (Hdrop : forall A (o : outcome (A * world)), safe o -> exists w', (let* (_, w) := o in Ok w) = Ok w' /\ wf w').
  { intros A o (x&w'&->&Hwf). by exists w'. }
  intros Hwf Hal. destruct c; cbn [exec].
  - eexists. split; [done|]. by apply open_wf.
  - destruct (release_spec w a Hwf Hal) as (w1&w'&->&Hwf'&_). by exists w'.
  - destruct Hal. by apply Hdrop, ioctl_safe.
  - by apply Hdrop, mmap_safe.
  - destruct Hal as [ar Har]. unfold ashmem_llseek, get_area. rewrite Har. cbn [obind]. repeat case_match; simplify_eq; by exists w.
  - destruct Hal as [ar Har]. unfold ashmem_read, get_area. rewrite Har. cbn [obind]. repeat case_match; simplify_eq; by exists w.
  - by apply Hdrop, shrink_safe.
Qed.

(** What is reached from the start is well formed. *)
Lemma reach_wf alloc_ok w : rtc (step alloc_ok) init_world w -> wf w.
Proof.
  apply (rtc_ind_r (fun w => wf w)); [apply init_wf|]. intros w1 w2 _ [w3 c w4 Hal Hex] Hwf.
  destruct (exec_safe alloc_ok w3 c Hwf Hal) as (w'&Hex'&Hwf'). by assert (w' = w4) as -> by congruence.
Qed.
