(* ===== verification/AshmemOrder.v ===== *)
(** * AshmemOrder: the ranges of an area stay in order

    The page ranges that a pin request names, and the states that are reached as
    long as no pin request names zero pages: the ranges of every area are then
    not empty, disjoint and in descending order. *)

From stdpp Require Import gmap relations.
From S2P Require Import Prelude Bits Ashmem AshmemFacts AshmemOps AshmemPages AshmemDriver.

(** ** The arguments of a pin request *)

Lemma PAGE_ALIGN_mod x : PAGE_ALIGN x mod PAGE_SIZE = 0.
Proof.
  unfold PAGE_ALIGN, PAGE_SIZE. change 4096 with (2 ^ 12). rewrite <- Z.land_ones, <- Z.land_assoc by lia.
  change (Z.land (u64 (Z.lnot (2 ^ 12 - 1))) (Z.ones 12)) with 0. apply Z.land_0_r.
Qed.

Lemma aligned_spec o n : (Z.land (Z.lor o n) (PAGE_SIZE - 1) =? 0) = (o mod PAGE_SIZE =? 0) && (n mod PAGE_SIZE =? 0).
Proof.
  unfold PAGE_SIZE. change (4096 - 1) with (Z.ones 12). rewrite Z.land_lor_distr_l, !Z.land_ones by lia. change (2 ^ 12) with 4096.
  assert (H : Z.lor (o mod 4096) (n mod 4096) = 0 <-> o mod 4096 = 0 /\ n mod 4096 = 0) by apply Z.lor_eq_0_iff. lia.
Qed.

(** The bytes asked for in an area of [P] bytes: a length of zero means
    everything from [offset] on, in the 32 bits of the field. *)
Definition pin_len (P offset len : Z) : Z := if len =? 0 then u32 (P - offset) else len.

Definition pin_args_ok (P offset len : Z) : bool :=
  (offset mod PAGE_SIZE =? 0) && (pin_len P offset len mod PAGE_SIZE =? 0) && (offset + pin_len P offset len <? 2 ^ 32) && (offset + pin_len P offset len <=? P).

(** Below 4 GiB nothing is lost. *)
Lemma pin_len_small P offset len : 0 <= offset <= P -> P < 2 ^ 32 -> pin_len P offset len = if len =? 0 then P - offset else len.
Proof. intros Ho HP. unfold pin_len. by rewrite (wrap_small 32) by lia. Qed.

Lemma pin_len_range P offset len : 0 <= len < 2 ^ 32 -> 0 <= pin_len P offset len < 2 ^ 32.
Proof. intros Hl. unfold pin_len. case_match; [apply wrap_range; lia|done]. Qed.

Lemma pin_unpin_args alloc_ok w a ar f cmd offset len : areas w !! a = Some ar -> file ar = Some f -> 0 <= offset < 2 ^ 32 -> 0 <= len < 2 ^ 32 ->
  ashmem_pin_unpin alloc_ok w a cmd (Some (offset, len)) =
    if pin_args_ok (PAGE_ALIGN (size ar)) offset len then
      let s := offset / PAGE_SIZE in
      let e := u64 (s + pin_len (PAGE_ALIGN (size ar)) offset len / PAGE_SIZE - 1) in
      match cmd with
      | ASHMEM_PIN => ashmem_pin alloc_ok w a s e
      | ASHMEM_UNPIN => ashmem_unpin alloc_ok w a s e
      | ASHMEM_GET_PIN_STATUS => let* r := ashmem_get_pin_status w a s e in Ok (r, w)
      end
    else Ok (- EINVAL, w).
Proof.
  intros Har Hf Ho Hl. unfold ashmem_pin_unpin, get_area. rewrite Har. cbn [obind]. rewrite Hf. unfold pin_args_ok.
  pose proof (pin_len_range (PAGE_ALIGN (size ar)) offset len Hl) as Hn. fold (pin_len (PAGE_ALIGN (size ar)) offset len). cbv zeta.
  generalize dependent (pin_len (PAGE_ALIGN (size ar)) offset len). generalize (PAGE_ALIGN (size ar)). intros P n Hn. rewrite aligned_spec. unfold UINT_MAX.
  rewrite (wrap_small 32 (2 ^ 32 - 1 - offset)) by lia. destruct ((offset mod PAGE_SIZE =? 0) && (n mod PAGE_SIZE =? 0)); [|done]. cbn [negb andb].
  destruct (2 ^ 32 - 1 - offset <? n) eqn:E1; [by replace (offset + n <? 2 ^ 32) with false by lia|]. rewrite (wrap_small 32 (offset + n)) by lia.
  replace (offset + n <? 2 ^ 32) with true by lia. cbn [andb]. destruct (P <? offset + n) eqn:E2; [by replace (offset + n <=? P) with false by lia|by replace (offset + n <=? P) with true by lia].
Qed.

(** The first and last page of a request that is not empty. *)
Lemma request_pages P offset len : 0 <= offset < 2 ^ 32 -> pin_args_ok P offset len = true -> 0 < pin_len P offset len ->
  let s := offset / PAGE_SIZE in let n := pin_len P offset len / PAGE_SIZE in u64 (s + n - 1) = s + n - 1 /\ 0 <= s <= s + n - 1 /\ s + n - 1 < 2 ^ 64 - 1.
Proof.
  intros Ho Hok Hn. cbv zeta. unfold pin_args_ok in Hok. apply andb_prop in Hok as [[[_ Hm]%andb_prop Hlt]%andb_prop _].
  revert Hn Hm Hlt. generalize (pin_len P offset len). intros n Hn Hm Hlt. unfold PAGE_SIZE in *.
  assert (0 <= offset / 4096 <= offset) by (split; [apply Z.div_pos; lia|apply Z.div_le_upper_bound; lia]).
  assert (1 <= n / 4096). { apply Z.eqb_eq, Z.div_exact in Hm; [|lia]. lia. }
  assert (n / 4096 <= n) by (apply Z.div_le_upper_bound; lia). rewrite wrap_small by lia. lia.
Qed.

(** ** The order *)

Definition ordered (w : world) : Prop := forall a ar, areas w !! a = Some ar -> desc (view w (unpinned_list ar)).

Lemma view_range_ok w a ar : wf w -> areas w !! a = Some ar -> Forall range_ok (view w (unpinned_list ar)).
Proof.
  intros Hwf Har. apply Forall_forall. intros r Hr. apply list_elem_of_In, list_elem_of_omap in Hr as (id&Hid&Hr). by destruct (wf_range _ Hwf id r Hr).
Qed.

(** Ranges that are as before, on lists that are as before or empty. *)
Lemma ordered_areas w w' : ordered w -> ranges w' = ranges w ->
  (forall a ar', areas w' !! a = Some ar' -> unpinned_list ar' = [] \/ exists ar, areas w !! a = Some ar /\ unpinned_list ar' = unpinned_list ar) -> ordered w'.
Proof.
  intros Ho HR HA a ar' Har'. unfold view. rewrite HR. destruct (HA a ar' Har') as [->|(ar&Har&->)]; [done|]. by apply (Ho a ar).
Qed.

Lemma ordered_set_area w a ar ar' : ordered w -> areas w !! a = Some ar -> unpinned_list ar' = unpinned_list ar -> ordered (set_area w a ar').
Proof.
  intros Ho Har Hl. apply (ordered_areas w); [done|done|]. simpl. intros b br. destruct (decide (b = a)) as [->|Hne].
  - rewrite lookup_insert_eq. intros [= <-]. right. by exists ar.
  - rewrite lookup_insert_ne by done. intros Hb. right. by exists br.
Qed.

(** A call on one area leaves the ranges of the others alone. *)
Lemma view_other w w' a b br : wf w -> same_but a w w' -> areas w !! b = Some br -> b <> a -> view w' (unpinned_list br) = view w (unpinned_list br).
Proof.
  intros Hwf Hsb Hb Hne. symmetry. apply view_ext. intros id Hid. destruct (wf_area _ Hwf b br Hb) as (_&_&_&Hin). destruct (Hin id Hid) as (r&Hr&Ha).
  rewrite Hr. symmetry. apply (sb_ranges _ _ _ Hsb); [by rewrite Ha|done].
Qed.

Lemma ordered_same_but w w' a : wf w -> ordered w -> same_but a w w' ->
  (forall ar', areas w' !! a = Some ar' -> desc (view w' (unpinned_list ar'))) -> ordered w'.
Proof.
  intros Hwf Ho Hsb Ha b br Hb. destruct (decide (b = a)) as [->|Hne]; [by apply Ha|]. destruct (sb_areas _ _ _ Hsb) as [l HA].
  rewrite HA, decide_False in Hb by done. rewrite (view_other w w' a b br) by done. by apply (Ho b).
Qed.

Lemma ordered_open alloc_ok w ret : ordered w -> ordered (snd (ashmem_open alloc_ok w ret)).
Proof.
  intros Ho. unfold ashmem_open. case_match; [done|]. case_match; simpl; (apply (ordered_areas w); [done|done|]); simpl; intros b br.
  - intros Hb. right. by exists br.
  - destruct (decide (b = next_id w)) as [->|Hne]; [rewrite lookup_insert_eq; intros [= <-]; by left|].
    rewrite lookup_insert_ne by done. intros Hb. right. by exists br.
Qed.

Lemma ordered_release w a w' : wf w -> ordered w -> is_Some (areas w !! a) -> ashmem_release w a = Ok (0, w') -> ordered w'.
Proof.
  intros Hwf Ho Ha Hrun. destruct (release_spec w a Hwf Ha) as (w1&w2&Hrun'&_&Hsb&HR&HA). assert (w2 = w') as -> by congruence.
  intros b br. rewrite HA. intros [Hne Hb]%lookup_delete_Some. destruct (sb_areas _ _ _ Hsb) as [l HB]. rewrite HB, decide_False in Hb by done.
  unfold view. rewrite HR. change (desc (view w1 (unpinned_list br))). rewrite (view_other w w1 a b br) by done. by apply (Ho b).
Qed.

(** The purged flag does not matter. *)
Definition bounds (r : ashmem_range) : Z * Z := (pgstart r, pgend r).

Lemma desc_bounds rs : forall rs', map bounds rs' = map bounds rs -> desc rs -> desc rs'.
Proof.
  assert (Hbelow : forall b rs rs', map bounds rs' = map bounds rs -> Forall (fun q => pgend q < b) rs -> Forall (fun q => pgend q < b) rs').
  { intros b l l'. rewrite <- !(Forall_map bounds (fun x => snd x < b)). by intros ->. }
  induction rs as [|r rs IH]; intros [|r' rs'] E; try done. simpl in E. injection E as E1 E2 E3. intros (Hr&Hb&Hd). simpl. rewrite E1, E2.
  split; [done|]. split; [by apply (Hbelow _ rs)|by apply IH].
Qed.

Lemma view_bounds w w' l : (forall id, bounds <$> ranges w' !! id = bounds <$> ranges w !! id) -> map bounds (view w' l) = map bounds (view w l).
Proof.
  intros H. induction l as [|id l IH]; [done|]. unfold view, omap. cbn [list_omap]. specialize (H id).
  destruct (ranges w' !! id), (ranges w !! id); try done; simpl in *. f_equal; [congruence|done].
Qed.

Lemma ordered_shrink w gfp_fs locked nr x w' : wf w -> ordered w -> 0 <= nr < 2 ^ 64 -> ashmem_shrink_scan w gfp_fs locked nr = Ok (x, w') -> ordered w'.
Proof.
  intros Hwf Ho Hnr. unfold ashmem_shrink_scan. case_match; [by intros [= _ <-]|]. case_match; [by intros [= _ <-]|].
  destruct (shrink_loop_spec (ashmem_lru_list w) w nr 0 Hwf eq_refl Hnr eq_refl) as (w1&->&_&HA&_&_&HR&_). intros [= _ <-]. intros a ar. rewrite HA. intros Har.
  apply (desc_bounds (view w (unpinned_list ar))); [|by apply (Ho a)]. apply view_bounds. intros id. rewrite HR. case_decide; [|done]. by destruct (ranges w !! id).
Qed.

(** ** Requests for pages *)

(** The call is not a pin request for zero pages. *)
Definition names_pages (w : world) (c : call) : Prop :=
  match c with
  | Ioctl a (PIN_UNPIN _ (Some (offset, len))) => forall ar, areas w !! a = Some ar -> 0 < pin_len (PAGE_ALIGN (size ar)) offset len
  | _ => True
  end.

Inductive page_step (alloc_ok : Z -> bool) : world -> world -> Prop :=
| page_call w c w' : allowed w c -> names_pages w c -> exec alloc_ok w c = Ok w' -> page_step alloc_ok w w'.

Lemma ordered_pin alloc_ok w a ar cmd offset len x w' : wf w -> ordered w -> areas w !! a = Some ar -> 0 <= offset < 2 ^ 32 -> 0 <= len < 2 ^ 32 ->
  0 < pin_len (PAGE_ALIGN (size ar)) offset len -> ashmem_pin_unpin alloc_ok w a cmd (Some (offset, len)) = Ok (x, w') -> ordered w'.
Proof.
  intros Hwf Ho Har Hoff Hl Hn. destruct (file ar) as [f|] eqn:Ef; [|unfold ashmem_pin_unpin, get_area; rewrite Har; cbn [obind]; rewrite Ef; by intros [= _ <-]].
  rewrite (pin_unpin_args alloc_ok w a ar f cmd offset len) by done. destruct (pin_args_ok _ offset len) eqn:Eok; [|by intros [= _ <-]].
  destruct (request_pages _ offset len Hoff Eok Hn) as (He&Hse&Hlt). revert Hse Hlt. cbv zeta. rewrite He. clear He.
  generalize (offset / PAGE_SIZE), (offset / PAGE_SIZE + pin_len (PAGE_ALIGN (size ar)) offset len / PAGE_SIZE - 1). intros s e Hse Hlt.
  assert (Hf : file ar <> None) by (by rewrite Ef). pose proof (view_range_ok w a ar Hwf Har) as Hok. destruct cmd.
  - destruct (ashmem_pin_spec alloc_ok w a ar s e Hwf Har Hf) as (w1&ar1&->&_&Hsb&Har1&Hv). intros [= _ <-]. apply (ordered_same_but w w1 a); [done..|].
    intros ar'. rewrite Har1. intros [= <-]. rewrite Hv. simpl. apply pin_view_desc; try done; [lia|by apply (Ho a)|lia|lia].
  - destruct (ashmem_unpin_spec alloc_ok w a ar s e Hwf Har Hf ltac:(lia) ltac:(lia)) as (rc&w1&ar1&->&_&Hsb&Har1&Huv). intros [= _ <-]. apply (ordered_same_but w w1 a); [done..|].
    intros ar'. rewrite Har1. intros [= <-]. destruct (alloc_ok (next_id w)).
    + by destruct (unpin_view_effect _ _ _ _ _ _ _ Huv ltac:(lia) (Ho a ar Har) Hok (or_introl eq_refl)) as (_&Hd&_).
    + by destruct (unpin_view_lost _ _ _ _ _ _ _ Huv ltac:(lia) (Ho a ar Har)) as [Hd _].
  - destruct (ashmem_get_pin_status w a s e); simpl; [by intros [= _ <-]|done|done].
Qed.

Lemma ordered_ioctl alloc_ok w a cmd x w' : wf w -> ordered w -> allowed w (Ioctl a cmd) -> names_pages w (Ioctl a cmd) ->
  ashmem_ioctl alloc_ok w a cmd = Ok (x, w') -> ordered w'.
Proof.
  intros Hwf Ho [[ar Har] Hok] Hp. destruct cmd as [junk user| |arg| |prot rie| |cmd [[offset len]|]|capable locked|]; cbn [ashmem_ioctl]; unfold get_area; rewrite ?Har; cbn [obind];
    try (by intros [= _ <-]).
  - destruct user as [err|t]; destruct Hok as [Hj Ht]; [unfold set_name; cbn [strncpy_from_user]; replace (err <? 0) with true by lia; by intros [= _ <-]|].
    pose proof (set_name_spec w a ar junk t Hwf Har Hj Ht) as Hset. destruct (file ar); [rewrite Hset; by intros [= _ <-]|].
    destruct Hset as (pad&_&->). intros [= _ <-]. by eapply ordered_set_area.
  - destruct (get_name w a uncopied) as [[r l]| |]; simpl; [by intros [= _ <-]|done|done].
  - destruct (file ar); intros [= _ <-]; [done|by eapply ordered_set_area].
  - unfold set_prot_mask, get_area. rewrite Har. cbn [obind]. case_match; intros [= _ <-]; [done|by eapply ordered_set_area].
  - destruct Hok. apply (ordered_pin alloc_ok w a ar); try done. by apply Hp.
  - unfold ashmem_pin_unpin, get_area. rewrite Har. cbn [obind]. case_match; by intros [= _ <-].
  - destruct capable; [|by intros [= _ <-]]. destruct (ashmem_shrink_scan w true locked LONG_MAX) as [[y w1]| |] eqn:E; simpl; [|done|done].
    intros [= _ <-]. by apply (ordered_shrink w true locked LONG_MAX y w1).
Qed.

Lemma ordered_exec alloc_ok w c w' : wf w -> ordered w -> allowed w c -> names_pages w c -> exec alloc_ok w c = Ok w' -> ordered w'.
Proof.
  intros Hwf Ho Hal Hp. destruct c as [ret|a|a cmd|a flags setup|a f_pos vfs|a pos vfs|gfp_fs locked nr]; cbn [exec].
  - intros [= <-]. by apply ordered_open.
  - destruct (release_spec w a Hwf Hal) as (_&w1&Hrun&_). rewrite Hrun. intros [= <-]. by apply (ordered_release w a).
  - destruct (ashmem_ioctl alloc_ok w a cmd) as [[x w1]| |] eqn:E; [|done|done]. intros [= <-]. by eapply ordered_ioctl.
  - unfold ashmem_mmap. destruct (get_area w a) as [ar| |] eqn:Ea; [|done|done]. unfold get_area in Ea. destruct (areas w !! a) as [ar0|] eqn:Har; [|done]. injection Ea as ->.
    cbn [obind]. repeat case_match; simpl; intros [= <-]; try done. by eapply ordered_set_area.
  - destruct (ashmem_llseek w a f_pos vfs) as [y| |]; [by intros [= <-]|done|done].
  - destruct (ashmem_read w a pos vfs) as [y| |]; [by intros [= <-]|done|done].
  - destruct (ashmem_shrink_scan w gfp_fs locked nr) as [[y w1]| |] eqn:E; [|done|done]. intros [= <-]. by eapply ordered_shrink.
Qed.

(** What is reached by calls that never ask for zero pages. *)
Lemma reach_ordered alloc_ok w : rtc (page_step alloc_ok) init_world w -> wf w /\ ordered w.
Proof.
  apply (rtc_ind_r (fun w => wf w /\ ordered w)); [split; [apply init_wf|done]|]. intros w1 w2 _ [w3 c w4 Hal Hp Hex] [Hwf Ho].
  split; [|by eapply ordered_exec]. destruct (exec_safe alloc_ok w3 c Hwf Hal) as (w'&Hex'&Hwf'). by assert (w' = w4) as -> by congruence.
Qed.
