(* ===== verification/AshmemProps.v ===== *)
(** * AshmemProps: what ashmem guarantees *)

From stdpp Require Import gmap relations.
From S2P Require Import Prelude Bits Ashmem AshmemFacts AshmemOps AshmemPages AshmemDriver AshmemOrder.

(** ** Requests on pages *)

(** The status of the pages of an area. *)
Definition area_status (w : world) (a p : Z) : option Z :=
  match areas w !! a with Some ar => status (view w (unpinned_list ar)) p | None => None end.

(** The pages that a request names. *)
Definition inside (P offset len p : Z) : Prop := offset / PAGE_SIZE <= p < offset / PAGE_SIZE + pin_len P offset len / PAGE_SIZE.

(** A page of the area that is joined to the request by unpinned pages. *)
Definition joined (w : world) (a P offset len p : Z) : Prop :=
  exists q, inside P offset len q /\ forall y, Z.min p q <= y <= Z.max p q -> area_status w a y <> None.

(** An accepted request that is not empty runs on pages [s] to [e]. *)
Lemma request_run alloc_ok w a ar offset len : areas w !! a = Some ar -> file ar <> None -> ordered w -> 0 <= offset < 2 ^ 32 -> 0 <= len < 2 ^ 32 ->
  let P := PAGE_ALIGN (size ar) in pin_args_ok P offset len = true -> 0 < pin_len P offset len ->
  exists s e, desc (view w (unpinned_list ar)) /\ (forall p, area_status w a p = status (view w (unpinned_list ar)) p) /\
    0 <= s /\ s <= e /\ e < 2 ^ 64 - 1 /\ (forall p, inside P offset len p <-> s <= p <= e) /\
    forall cmd, ashmem_pin_unpin alloc_ok w a cmd (Some (offset, len)) =
      match cmd with
      | ASHMEM_PIN => ashmem_pin alloc_ok w a s e
      | ASHMEM_UNPIN => ashmem_unpin alloc_ok w a s e
      | ASHMEM_GET_PIN_STATUS => let* r := ashmem_get_pin_status w a s e in Ok (r, w)
      end.
Proof.
  intros Har Hf Hord Ho Hl P E Hn. destruct (file ar) as [f|] eqn:Ef; [|done].
  destruct (request_pages P offset len Ho E Hn) as (He&Hse&Hlt). exists (offset / PAGE_SIZE), (offset / PAGE_SIZE + pin_len P offset len / PAGE_SIZE - 1).
  split; [by apply (Hord a)|]. split; [intros p; unfold area_status; by rewrite Har|].
  split; [apply Hse|]. split; [apply Hse|]. split; [done|]. split; [intros p; unfold inside; clear; lia|].
  intros cmd. rewrite (pin_unpin_args alloc_ok w a ar f cmd offset len Har Ef Ho Hl). fold P. rewrite E. cbv zeta. by rewrite He.
Qed.

(** C15: in every state reached by calls none of which is a pin request for zero
    pages, a request on an area that is not mapped yet, is misaligned, leaves the
    area or ends at or above 4 GiB is refused with [-EINVAL]; a length of zero
    stands for the rest of the area (its low 32 bits from 4 GiB on). Any other
    request for at least one page is served. A pin request pins exactly the pages
    asked for and answers whether one of them was purged, other areas are not
    touched, and the ranges stay in order. Pages outside the request keep their
    status, unless the record for the upper part of a range that is split cannot
    be allocated: then pages above the request that unpinned pages join to it
    may become pinned. A status request answers whether all the pages are pinned. *)
Theorem ashmem_pin_correct alloc_ok w a ar offset len : rtc (page_step alloc_ok) init_world w -> areas w !! a = Some ar ->
  0 <= offset < 2 ^ 32 -> 0 <= len < 2 ^ 32 -> let P := PAGE_ALIGN (size ar) in
  (file ar = None \/ pin_args_ok P offset len = false -> forall cmd, ashmem_pin_unpin alloc_ok w a cmd (Some (offset, len)) = Ok (- EINVAL, w)) /\
  (file ar <> None -> pin_args_ok P offset len = true -> 0 < pin_len P offset len ->
   (exists rc w', ashmem_pin_unpin alloc_ok w a ASHMEM_PIN (Some (offset, len)) = Ok (rc, w') /\ wf w' /\ ordered w' /\ same_but a w w' /\
      ((rc = ASHMEM_WAS_PURGED /\ exists p, inside P offset len p /\ area_status w a p = Some 1) \/
       (rc = ASHMEM_NOT_PURGED /\ forall p, inside P offset len p -> area_status w a p <> Some 1)) /\
      (forall p, inside P offset len p -> area_status w' a p = None) /\
      (forall p, ~ inside P offset len p -> area_status w' a p = area_status w a p \/
         (alloc_ok (next_id w) = false /\ area_status w' a p = None /\ (forall q, inside P offset len q -> q < p) /\ joined w a P offset len p))) /\
   (exists rc, ashmem_pin_unpin alloc_ok w a ASHMEM_GET_PIN_STATUS (Some (offset, len)) = Ok (rc, w) /\
      ((rc = ASHMEM_IS_PINNED /\ forall p, inside P offset len p -> area_status w a p = None) \/
       (rc = ASHMEM_IS_UNPINNED /\ exists p, inside P offset len p /\ area_status w a p <> None)))).
Proof.
  intros Hr Har Ho Hl P. destruct (reach_ordered alloc_ok w Hr) as [Hwf Hord]. split.
  { intros Href cmd. destruct (file ar) as [f|] eqn:Ef.
    - destruct Href as [Href|Href]; [done|]. rewrite (pin_unpin_args alloc_ok w a ar f cmd offset len Har Ef Ho Hl). fold P. by rewrite Href.
    - unfold ashmem_pin_unpin, get_area. rewrite Har. cbn [obind]. by rewrite Ef. }
  intros Hf E Hn. destruct (request_run alloc_ok w a ar offset len Har Hf Hord Ho Hl E Hn) as (s&e&Hd&Hst&Hs&Hse&He&Hin&Hrun). fold P in Hin.
  assert (Hok := view_range_ok w a ar Hwf Har). rewrite !Hrun. split.
  - destruct (ashmem_pin_spec alloc_ok w a ar s e Hwf Har Hf) as (w'&ar'&->&Hwf'&Hsb&Har'&Hv). simpl in Hv. eexists _, w'. split; [done|]. split; [done|].
    split. { apply (ordered_same_but w w' a); [done..|]. intros ar1. rewrite Har'. intros [= <-]. rewrite Hv. apply pin_view_desc; try done; lia. }
    split; [done|]. rewrite Z.lor_0_l. split.
    { destruct (pin_purged_spec s e Hse _ Hd Hok) as [[-> (p&Hp&H)]|[-> H]]; [left|right]; (split; [done|]); [exists p; by rewrite Hin, Hst|].
      intros p Hp. rewrite Hst. apply H. by apply Hin. }
    assert (Hst' : forall p, area_status w' a p = status (pin_view (alloc_ok (next_id w)) s e (view w (unpinned_list ar))) p) by (intros p; unfold area_status; by rewrite Har', Hv).
    split; intros p Hp; rewrite Hin in Hp; rewrite Hst', ?Hst; destruct (pin_view_status s e Hse (alloc_ok (next_id w)) _ p Hd Hok Hs ltac:(lia)) as (H1&H2&H3); [auto|].
    destruct (alloc_ok (next_id w)) eqn:Ea; [auto|]. destruct H3 as [H3|H3]; [|auto].
    destruct (pin_view_outside s e Hse false _ p Hd Hok Hs ltac:(lia) Hp) as [?|[Hep Hy]]; [auto|]. right. split; [done|]. split; [done|].
    split; [intros q Hq%Hin; lia|]. exists s. split; [apply Hin; lia|]. intros y Hys. rewrite Hst. apply Hy. lia.
  - unfold ashmem_get_pin_status, get_area. rewrite Har. cbn [obind].
    destruct (pin_status_loop_spec s e Hse w (unpinned_list ar)) as [[-> H]|[-> H]];
      [by eapply wf_listed|done|eexists; split; [done|]; left; split; [done|]|eexists; split; [done|]; right; split; [done|]].
    + intros p Hp. rewrite Hst. apply H. by apply Hin.
    + destruct H as (p&Hp&H). exists p. by rewrite Hin, Hst.
Qed.


(** ** The driver as a whole *)

(** C14: whatever sequence of calls is made, whichever allocations fail: each
    call that the kernel may make returns without touching a freed range or
    area, and the books balance afterwards. Every range is on the list of its
    area and on the LRU list exactly if it is not purged, and the page count
    of the shrinker is the sum over the LRU list. *)
Theorem ashmem_calls_safe alloc_ok w : rtc (step alloc_ok) init_world w ->
  wf w /\ forall c, allowed w c -> exists w', exec alloc_ok w c = Ok w' /\ wf w'.
Proof. intros Hr. pose proof (reach_wf alloc_ok w Hr) as Hwf. split; [done|]. intros c. by apply exec_safe. Qed.

(** the shrinker purges the least recently unpinned ranges, one for each unit
    of [nr_to_scan] (all of them if it is 0): it punches exactly their bytes
    out of the backing files, marks them as purged, takes them off the list,
    and returns the number of pages by which the count has gone down. *)
Theorem ashmem_shrink_correct w nr : wf w -> 0 <= nr < 2 ^ 64 ->
  let l := take (Z.to_nat (shrink_batch nr (Z.of_nat (length (ashmem_lru_list w))))) (ashmem_lru_list w) in
  exists freed w', ashmem_shrink_scan w true true nr = Ok (freed, w') /\ wf w' /\ freed = u64 (pages_of (ranges w) l) /\
    ashmem_shrink_count w' = u64 (ashmem_shrink_count w - freed) /\ areas w' = areas w /\
    ashmem_lru_list w' = drop (length l) (ashmem_lru_list w) /\
    (forall id, ranges w' !! id = if decide (id ∈ l) then purge <$> ranges w !! id else ranges w !! id) /\
    punched w' = punched w ++ omap (hole w) l.
Proof.
  intros Hwf Hnr l. destruct (shrink_loop_spec (ashmem_lru_list w) w nr 0 Hwf eq_refl Hnr eq_refl) as (w'&Hrun&Hwf'&HA&_&Hl&HR&Hp). fold l in Hrun, Hl, HR, Hp.
  eexists _, w'. split; [exact Hrun|]. split; [done|]. split; [done|]. split; [|done].
  unfold ashmem_shrink_count. rewrite (wf_count _ Hwf'), (wf_count _ Hwf), u64_sub_l, u64_sub_r, Hl. f_equal.
  assert (Hsplit : ashmem_lru_list w = l ++ drop (length l) (ashmem_lru_list w)).
  { unfold l. rewrite length_take. rewrite <- (take_drop (Z.to_nat (shrink_batch nr (Z.of_nat (length (ashmem_lru_list w))))) (ashmem_lru_list w)) at 1. f_equal.
    destruct (decide (Z.to_nat (shrink_batch nr (Z.of_nat (length (ashmem_lru_list w)))) <= length (ashmem_lru_list w))%nat); [by rewrite Nat.min_l|]. by rewrite Nat.min_r, !drop_ge by lia. }
  destruct (wf_lru _ Hwf) as [Hnd _]. rewrite Hsplit in Hnd. apply list.NoDup_app in Hnd as (_&Hd&_).
  rewrite Hsplit at 2. rewrite pages_of_app. rewrite (pages_of_ext _ (ranges w)); [lia|]. intros id Hid. rewrite HR, decide_False; [done|]. intros Hin. by apply (Hd id).
Qed.

(** a name set before the area is mapped reads back, cut to 255 bytes and
    terminated; an empty name reads back as the default. The name stays inside
    its array. *)
Theorem ashmem_name_roundtrip w a ar junk s : wf w -> areas w !! a = Some ar -> file ar = None ->
  Z.of_nat (length junk) = ASHMEM_NAME_LEN -> Forall (fun c => c <> 0) s ->
  exists w', set_name w a junk (inr s) = Ok (0, w') /\ wf w' /\
    get_name w' a 0 = Ok (0, match s with [] => ASHMEM_NAME_DEF | _ => take 255 s ++ [0] end).
Proof.
  intros Hwf Har Hf Hj Hs. pose proof (set_name_spec w a ar junk s Hwf Har Hj Hs) as Hset. rewrite Hf in Hset. destruct Hset as (pad&Hlen&->).
  assert (Hs' : Forall (fun c => c <> 0) (take 255 s)) by (by apply Forall_take). eexists. split; [done|]. split.
  - apply (set_area_wf w a ar); try done. destruct (wf_area _ Hwf a ar Har) as ((_&Hok)&_). split; [by exists (take 255 s), pad|done].
  - erewrite (get_name_spec _ a _ (take 255 s) pad 0); [|apply lookup_insert_eq|done|done|done]. by destruct s.
Qed.

(** ** Protection *)

Lemma mask_cases m (Q : Z -> Prop) : 0 <= m < 8 -> Q 0 -> Q 1 -> Q 2 -> Q 3 -> Q 4 -> Q 5 -> Q 6 -> Q 7 -> Q m.
Proof.
  intros Hm ? ? ? ? ? ? ? ?. assert (m = 0 \/ m = 1 \/ m = 2 \/ m = 3 \/ m = 4 \/ m = 5 \/ m = 6 \/ m = 7) as Hc by lia.
  repeat destruct Hc as [->|Hc]; try done. by subst.
Qed.

(** The allowed bits of a request, and the MAY bits that are cleared. *)
Lemma prot_bits_mask m : 0 <= m < 8 -> calc_vm_prot_bits m = m.
Proof. intros Hm. by apply (mask_cases m). Qed.

Lemma may_flags_mask m : 0 <= m < 8 -> calc_vm_may_flags (u64 (Z.lnot m)) = (7 - m) * 2 ^ 4.
Proof. intros Hm. by apply (mask_cases m (fun m => calc_vm_may_flags (u64 (Z.lnot m)) = (7 - m) * 2 ^ 4)). Qed.

Lemma mask_compl_bit m i : 0 <= m < 8 -> Z.testbit (7 - m) i = (0 <=? i) && (i <? 3) && negb (Z.testbit m i).
Proof.
  intros Hm. destruct (decide (i < 0)) as [?|Hi]; [rewrite Z.testbit_neg_r by done; by replace (0 <=? i) with false by lia|].
  destruct (decide (3 <= i)) as [Hi3|Hi3].
  - replace (i <? 3) with false by lia. rewrite andb_false_r. rewrite <- (Z.mod_small (7 - m) (2 ^ 3)) by lia. by apply Z.mod_pow2_bits_high.
  - assert (i = 0 \/ i = 1 \/ i = 2) as Hc by lia. destruct Hc as [->|[->| ->]]; pattern m; by apply (mask_cases m).
Qed.

(** Protection [i] (read, write, execute) is asked for but not in the mask. *)
Definition excess (flags mask : Z) : Prop := exists i, 0 <= i < 3 /\ Z.testbit flags i = true /\ Z.testbit mask i = false.

Lemma excess_spec flags m : 0 <= m < 8 -> 0 <= flags < 2 ^ 64 ->
  Z.land (Z.land flags (u64 (Z.lnot (calc_vm_prot_bits m)))) (calc_vm_prot_bits PROT_MASK) <> 0 <-> excess flags m.
Proof.
  intros Hm Hfl. rewrite prot_bits_mask by done. change (calc_vm_prot_bits PROT_MASK) with (Z.ones 3).
  assert (Hbit : forall i, 0 <= i < 3 -> Z.testbit (Z.land (Z.land flags (u64 (Z.lnot m))) (Z.ones 3)) i = Z.testbit flags i && negb (Z.testbit m i)).
  { intros i Hi. rewrite !Z.land_spec, u64_bit, Z.lnot_spec, Z.ones_spec_low, andb_true_r by lia. by replace (i <? 64) with true by lia. }
  split.
  - intros Hne. destruct (word_nonzero (Z.land (Z.land flags (u64 (Z.lnot m))) (Z.ones 3))) as (i&Hi&Hb); [| done|].
    + apply land_word; [|done]. apply land_word; [done|]. apply u64_range.
    + destruct (decide (i < 3)) as [Hi3|Hi3]; [|by rewrite Z.land_spec, Z.ones_spec_high, andb_false_r in Hb by lia].
      rewrite Hbit in Hb by lia. apply andb_prop in Hb as [? ?]. exists i. split; [lia|]. split; [done|]. by apply negb_true_iff.
  - intros (i&Hi&Hf&Hb) H0. specialize (Hbit i Hi). by rewrite H0, Z.bits_0, Hf, Hb in Hbit.
Qed.

Definition with_file (ar : ashmem_area) (f : Z) : ashmem_area := AshmemArea (name ar) (unpinned_list ar) (Some f) (size ar) (prot_mask ar).

(** a mapping needs a size, and is refused with [-EPERM] exactly if it asks for
    a protection that is not in the mask. Otherwise the MAY bits outside the mask
    are cleared, so that [mprotect] cannot add the protection later, and no other
    flag changes; the first mapping creates the backing file, the others share it. *)
Theorem ashmem_mmap_correct w a ar flags setup : wf w -> areas w !! a = Some ar -> 0 <= flags < 2 ^ 64 ->
  (size ar = 0 -> ashmem_mmap w a flags setup = Ok (- EINVAL, flags, None, w)) /\
  (size ar <> 0 -> excess flags (prot_mask ar) -> ashmem_mmap w a flags setup = Ok (- EPERM, flags, None, w)) /\
  (size ar <> 0 -> ~ excess flags (prot_mask ar) -> exists flags',
     ashmem_mmap w a flags setup =
       match file ar, setup with
       | Some f, _ => Ok (0, flags', Some f, w)
       | None, inl err => Ok (err, flags', None, w)
       | None, inr f => Ok (0, flags', Some f, set_area w a (with_file ar f))
       end /\
     forall j, 0 <= j -> Z.testbit flags' j = Z.testbit flags j && (if (4 <=? j) && (j <? 7) then Z.testbit (prot_mask ar) (j - 4) else true)).
Proof.
  intros Hwf Har Hfl. destruct (wf_area _ Hwf a ar Har) as ((_&_&_&Hm)&_). unfold ashmem_mmap, get_area. rewrite Har. cbn [obind].
  pose proof (excess_spec flags (prot_mask ar) Hm Hfl) as Hex. split; [by intros ->|].
  split; intros Hsz Hx; (replace (size ar =? 0) with false by lia).
  { apply Hex in Hx. rewrite (proj2 (Z.eqb_neq _ 0) Hx). done. }
  destruct (Z.eqb_spec (Z.land (Z.land flags (u64 (Z.lnot (calc_vm_prot_bits (prot_mask ar))))) (calc_vm_prot_bits PROT_MASK)) 0) as [_|Hne]; [|by destruct Hx; apply Hex].
  cbn [negb]. eexists. split; [done|]. intros j Hj. rewrite may_flags_mask, Z.land_spec, u64_bit, Z.lnot_spec, Z.mul_pow2_bits, mask_compl_bit by (lia || done).
  destruct (decide (j < 64)) as [Hj64|Hj64]; [replace (j <? 64) with true by lia|rewrite (word_bit_high flags j) by (done || lia); done].
  replace ((0 <=? j - 4) && (j - 4 <? 3)) with ((4 <=? j) && (j <? 7)) by lia.
  destruct ((4 <=? j) && (j <? 7)); cbn [andb]; [by rewrite negb_involutive|done].
Qed.

(** ** The empty range *)

Lemma length_view w a ar : wf w -> areas w !! a = Some ar -> length (view w (unpinned_list ar)) = length (unpinned_list ar).
Proof.
  intros Hwf Har. assert (H := wf_listed w a ar Hwf Har). revert H. generalize (unpinned_list ar). induction l as [|id l IH]; intros H; [done|].
  destruct (H id) as [r Hr]; [by left|]. rewrite (view_cons _ _ _ _ Hr). simpl. rewrite IH; [done|]. intros i Hi. apply H. by right.
Qed.

Lemma unpin_view_below a s e p rs rc rs' : unpin_view a true s e p rs rc rs' -> Forall (fun r => pgend r < s) rs ->
  rc = 0 /\ rs' = AshmemRange a s e p :: rs.
Proof.
  intros H Hb. assert (Hno : forall rs1, Forall (fun r => pgend r < s) rs1 -> Forall (passed s e) rs1 -> rs1 = []).
  { intros [|r rs1] H1 H2; [done|]. apply Forall_cons_1 in H1 as [H1 _]. apply Forall_cons_1 in H2 as [[H2 _] _]. unfold range_before_page in H2. lia. }
  destruct H as [s e p rs1 rs2 Hp _|s e p rs1 r rs2 Hp Hr _|s e p rs1 r rs2 rc rs' Hp Hr _ _ _]; apply Forall_app in Hb as [Hb1 Hb2].
  - by rewrite (Hno rs1 Hb1 Hp).
  - apply Forall_cons_1 in Hb2 as [Hb2 _]. unfold range_before_page in Hr. lia.
  - apply Forall_cons_1 in Hb2 as [Hb2 _]. unfold range_before_page in Hr. lia.
Qed.

(** The same request, again and again. *)
Fixpoint unpin_times (k : nat) (w : world) (a offset : Z) : outcome world :=
  match k with
  | O => Ok w
  | S k => let* (rc, w) := ashmem_pin_unpin (fun _ => true) w a ASHMEM_UNPIN (Some (offset, 0)) in
           if rc =? 0 then unpin_times k w a offset else Oops
  end.

(** [ASHMEM_UNPIN] with [len = 0] at the end of the area is accepted although
    there are no pages left: the last page is below the first, no existing
    range matches, and every call adds one more empty range. The number of
    ranges a process can have the kernel allocate is therefore not bounded by
    the pages of the area. *)
Theorem ashmem_unpin_empty_grows w a ar : wf w -> areas w !! a = Some ar -> file ar <> None -> 0 < PAGE_ALIGN (size ar) < 2 ^ 32 ->
  Forall (fun r => pgend r < PAGE_ALIGN (size ar) / PAGE_SIZE) (view w (unpinned_list ar)) -> forall k,
  exists w' ar', unpin_times k w a (PAGE_ALIGN (size ar)) = Ok w' /\ areas w' !! a = Some ar' /\
    length (unpinned_list ar') = (length (unpinned_list ar) + k)%nat /\ forall p, area_status w' a p = area_status w a p.
Proof.
  intros Hwf Har Hf HP Hb k. revert w ar Hwf Har Hf HP Hb. induction k as [|k IH]; intros w ar Hwf Har Hf HP Hb.
  { exists w, ar. split; [done|]. split; [done|]. split; [lia|done]. }
  destruct (file ar) as [f|] eqn:Ef; [|done]. cbn [unpin_times].
  assert (Hs : 1 <= PAGE_ALIGN (size ar) / PAGE_SIZE < 2 ^ 32).
  { pose proof (PAGE_ALIGN_mod (size ar)) as Hm. apply Z.div_exact in Hm; [|done]. revert HP Hm. generalize (PAGE_ALIGN (size ar)). intros P HP Hm.
    unfold PAGE_SIZE in *. lia. }
  rewrite (pin_unpin_args (fun _ => true) w a ar f ASHMEM_UNPIN (PAGE_ALIGN (size ar)) 0 Har Ef ltac:(lia) ltac:(lia)).
  assert (Hargs : pin_args_ok (PAGE_ALIGN (size ar)) (PAGE_ALIGN (size ar)) 0 = true).
  { unfold pin_args_ok. rewrite pin_len_small, PAGE_ALIGN_mod by lia. change (0 =? 0) with true. rewrite Z.sub_diag. change (0 mod PAGE_SIZE =? 0) with true. cbn [andb]. lia. }
  rewrite Hargs, pin_len_small by lia. change (0 =? 0) with true. cbv zeta iota. rewrite Z.sub_diag. change (0 / PAGE_SIZE) with 0.
  rewrite Z.add_0_r, (wrap_small 64) by lia. clear Hargs. revert Hs Hb. remember (PAGE_ALIGN (size ar) / PAGE_SIZE) as s eqn:Es. intros Hs Hb.
  destruct (ashmem_unpin_spec (fun _ => true) w a ar s (s - 1) Hwf Har ltac:(by rewrite Ef) ltac:(lia) ltac:(lia)) as (rc&w1&ar1&->&Hwf1&Hsb&Har1&Huv).
  destruct (unpin_view_below _ _ _ _ _ _ _ Huv Hb) as [-> Hv]. cbn [obind]. change (0 =? 0) with true. cbv iota.
  assert (Hsame : file ar1 = file ar /\ size ar1 = size ar).
  { destruct Hsb as [[l H] _ _ _]. pose proof (H a) as Ha. rewrite decide_True, Har, Har1 in Ha by done. simpl in Ha. injection Ha as ->. done. }
  destruct Hsame as [Hf1 Hs1]. rewrite <- Hs1 in HP, Es |- *.
  destruct (IH w1 ar1 Hwf1 Har1 ltac:(by rewrite Hf1, Ef) HP) as (w'&ar'&->&Har'&Hlen&Hst).
  { rewrite Hv, <- Es. apply Forall_cons; [simpl; lia|done]. }
  exists w', ar'. split; [done|]. split; [done|]. split.
  - rewrite Hlen, <- (length_view w1 a ar1), Hv, <- (length_view w a ar) by done. cbn [length]. lia.
  - intros p. rewrite Hst. unfold area_status. rewrite Har1, Har, Hv. cbn [status]. unfold page_in_range. cbn [pgstart pgend]. by replace ((s <=? p) && (p <=? s - 1)) with false by lia.
Qed.

(** ** Witnesses *)

(** An area of four pages, the second and third unpinned and then purged, the
    fourth unpinned later; and one not mapped yet. *)
Definition after (w : world) (c : call) : world := match exec (fun _ => true) w c with Ok w' => w' | _ => w end.

Lemma after_wf w c : wf w -> allowed w c -> wf (after w c).
Proof. intros Hwf Hal. unfold after. destruct (exec_safe (fun _ => true) w c Hwf Hal) as (w'&->&?). done. Qed.

Definition demo_open : world := after (after init_world (Open 0)) (Ioctl 0 (SET_SIZE 16000)).
Definition demo_mapped : world := after demo_open (Mmap 0 3 (inr 7)).
Definition demo : world :=
  after (after (after demo_mapped (Ioctl 0 (PIN_UNPIN ASHMEM_UNPIN (Some (4096, 8192))))) (Shrink true true 1))
        (Ioctl 0 (PIN_UNPIN ASHMEM_UNPIN (Some (12288, 4096)))).

Definition the_area (w : world) : ashmem_area := default (AshmemArea [] [] None 0 0) (areas w !! 0).

Lemma demo_open_wf : wf demo_open.
Proof.
  unfold demo_open. apply after_wf; [apply after_wf; [apply init_wf|done]|]. split; [vm_compute; by eexists|]. cbn [cmd_ok]. lia.
Qed.

Lemma demo_mapped_wf : wf demo_mapped.
Proof. apply after_wf; [apply demo_open_wf|]. eexists. split; [vm_compute; reflexivity|]. simpl. lia. Qed.

Lemma demo_wf : wf demo.
Proof.
  unfold demo. apply after_wf; [apply after_wf; [apply after_wf; [apply demo_mapped_wf|]|]|].
  - split; [vm_compute; by eexists|]. cbn [cmd_ok]. lia.
  - cbn [allowed]. lia.
  - split; [vm_compute; by eexists|]. cbn [cmd_ok]. lia.
Qed.

(** The same states by calls that never ask for zero pages. *)
Lemma after_reach w c : rtc (page_step (fun _ => true)) init_world w -> allowed w c -> names_pages w c -> rtc (page_step (fun _ => true)) init_world (after w c).
Proof.
  intros Hr Hal Hp. destruct (reach_ordered _ w Hr) as [Hwf _]. unfold after. destruct (exec_safe (fun _ => true) w c Hwf Hal) as (w'&Hex&_). rewrite Hex.
  apply (rtc_r _ w); [done|]. by apply (page_call _ w c).
Qed.

Lemma demo_mapped_reach : rtc (page_step (fun _ => true)) init_world demo_mapped.
Proof.
  unfold demo_mapped, demo_open. apply after_reach; [apply after_reach; [apply after_reach; [apply rtc_refl|done|done]| |done]| |done].
  - split; [vm_compute; by eexists|]. cbn [cmd_ok]. lia.
  - eexists. split; [vm_compute; reflexivity|]. simpl. lia.
Qed.

Lemma demo_reach : rtc (page_step (fun _ => true)) init_world demo.
Proof.
  unfold demo. apply after_reach; [apply after_reach; [apply after_reach; [apply demo_mapped_reach| |]| |done]| |].
  - split; [vm_compute; by eexists|]. cbn [cmd_ok]. lia.
  - intros ar Har. vm_compute in Har. by injection Har as <-.
  - cbn [allowed]. lia.
  - split; [vm_compute; by eexists|]. cbn [cmd_ok]. lia.
  - intros ar Har. vm_compute in Har. by injection Har as <-.
Qed.

Lemma ashmem_calls_safe_witness : wf demo_mapped /\ exists w', exec (fun _ => true) demo_mapped (Shrink true true 5) = Ok w' /\ wf w'.
Proof.
  assert (H : rtc (step (fun _ => true)) init_world demo_mapped).
  { apply rtc_l with (after init_world (Open 0)); [by apply (do_call _ _ (Open 0))|].
    apply rtc_l with demo_open; [apply (do_call _ _ (Ioctl 0 (SET_SIZE 16000))); [split; [vm_compute; by eexists|cbn [cmd_ok]; lia]|vm_compute; reflexivity]|].
    apply rtc_once, (do_call _ _ (Mmap 0 3 (inr 7))); [eexists; split; [vm_compute; reflexivity|simpl; lia]|vm_compute; reflexivity]. }
  destruct (ashmem_calls_safe (fun _ => true) demo_mapped H) as [Hwf Hc]. split; [exact Hwf|]. apply Hc. cbn [allowed]. lia.
Defined.

Lemma ashmem_pin_correct_witness : exists rc w', ashmem_pin_unpin (fun _ => true) demo 0 ASHMEM_PIN (Some (8192, 0)) = Ok (rc, w') /\
  area_status w' 0 2 = None /\ area_status w' 0 1 = Some 1.
Proof.
  destruct (ashmem_pin_correct (fun _ => true) demo 0 (the_area demo) 8192 0 demo_reach) as [_ H]; [vm_compute; reflexivity|lia|lia|].
  destruct (H ltac:(done) eq_refl eq_refl) as [(rc&w'&Hrun&_&_&_&_&Hin&Hout) _]. exists rc, w'. split; [exact Hrun|]. split.
  - apply Hin. vm_compute. split; congruence.
  - destruct (Hout 1) as [->|[Hc _]]; [|vm_compute; reflexivity|done]. vm_compute. intros [Hc _]. by apply Hc.
Defined.


Lemma ashmem_shrink_correct_witness : exists freed w', ashmem_shrink_scan demo true true 0 = Ok (freed, w') /\ freed = 1.
Proof.
  destruct (ashmem_shrink_correct demo 0 demo_wf ltac:(lia)) as (freed&w'&Hrun&_&Hfreed&_). exists freed, w'. split; [exact Hrun|].
  rewrite Hfreed. vm_compute. reflexivity.
Defined.

Lemma ashmem_name_roundtrip_witness : exists w', set_name demo_open 0 (replicate 256 1) (inr [104; 105]) = Ok (0, w') /\ get_name w' 0 0 = Ok (0, [104; 105; 0]).
Proof.
  destruct (ashmem_name_roundtrip demo_open 0 (the_area demo_open) (replicate 256 1) [104; 105] demo_open_wf) as (w'&Hset&_&Hget);
    [vm_compute; reflexivity|reflexivity|reflexivity|repeat (apply Forall_cons; [done|]); apply Forall_nil; done|]. by exists w'.
Defined.

Lemma ashmem_mmap_correct_witness : exists flags', ashmem_mmap demo_mapped 0 3 (inl (- ENOMEM)) = Ok (0, flags', Some 7, demo_mapped).
Proof.
  destruct (ashmem_mmap_correct demo_mapped 0 (the_area demo_mapped) 3 (inl (- ENOMEM)) demo_mapped_wf) as (_&_&H); [vm_compute; reflexivity|lia|].
  destruct H as (flags'&Hrun&_); [done| |by exists flags'].
  intros (i&Hi&_&Hb). assert (i = 0 \/ i = 1 \/ i = 2) as Hc by lia. destruct Hc as [->|[->| ->]]; vm_compute in Hb; congruence.
Defined.

Lemma ashmem_unpin_empty_grows_witness : exists w' ar', unpin_times 3 demo 0 16384 = Ok w' /\ areas w' !! 0 = Some ar' /\ length (unpinned_list ar') = 5%nat.
Proof.
  destruct (ashmem_unpin_empty_grows demo 0 (the_area demo) demo_wf) with (k := 3%nat) as (w'&ar'&Hrun&Har'&Hlen&_); [vm_compute; reflexivity|done|vm_compute; split; congruence| |].
  - vm_compute. repeat (apply Forall_cons; [congruence|]). apply Forall_nil; done.
  - exists w', ar'. split; [exact Hrun|]. split; [exact Har'|]. exact Hlen.
Defined.
