(* ===== verification/Kstrtox.v ===== *)
(** * Kstrtox: the parsers of integers

    [lib/kstrtox.c] and the [simple_strto*] functions of [lib/vsprintf.c], with the
    character classes of [lib/ctype.c]. A string is the list of bytes from the
    pointer to the end of its object; reading past the object is a fault. *)

From S2P Require Import Prelude.

(** ** Character classes *)

Definition _U : Z := 0x01.
Definition _L : Z := 0x02.
Definition _D : Z := 0x04.
Definition _C : Z := 0x08.
Definition _P : Z := 0x10.
Definition _S : Z := 0x20.
Definition _X : Z := 0x40.
Definition _SP : Z := 0x80.

Definition _ctype : list Z :=
  replicate 8 _C ++ [_C] ++ replicate 5 (Z.lor _C _S) ++ replicate 18 _C ++
  [Z.lor _S _SP] ++ replicate 15 _P ++
  replicate 10 _D ++ replicate 6 _P ++
  [_P] ++ replicate 6 (Z.lor _U _X) ++ replicate 20 _U ++ replicate 5 _P ++
  [_P] ++ replicate 6 (Z.lor _L _X) ++ replicate 20 _L ++ replicate 4 _P ++ [_C] ++
  replicate 32 0 ++
  [Z.lor _S _SP] ++ replicate 31 _P ++
  replicate 23 _U ++ [_P] ++ replicate 7 _U ++ [_L] ++
  replicate 23 _L ++ [_P] ++ replicate 8 _L.

Definition __ismask (c : Z) : Z := nth (Z.to_nat (u8 c)) _ctype 0.

Definition isdigit (c : Z) : bool := negb (Z.land (__ismask c) _D =? 0).
Definition isspace (c : Z) : bool := negb (Z.land (__ismask c) _S =? 0).
Definition isupper (c : Z) : bool := negb (Z.land (__ismask c) _U =? 0).
Definition isxdigit (c : Z) : bool := negb (Z.land (__ismask c) (Z.lor _D _X) =? 0).

Definition __tolower (c : Z) : Z := if isupper c then u8 (c - (65 - 97)) else c.
Definition _tolower (c : Z) : Z := Z.lor c 0x20.

(** ** Parsing in a given radix *)

Definition KSTRTOX_OVERFLOW : Z := 2 ^ 31.

Definition _parse_integer_fixup_radix (s : list Z) (base : Z) : outcome (list Z * Z) :=
  let* s0 := rd s 0 in
  let* base :=
    (if base =? 0 then
       if s0 =? 48 then
         let* s1 := rd s 1 in
         if _tolower s1 =? 120 then
           let* s2 := rd s 2 in
           Ok (if isxdigit s2 then 16 else 8)
         else Ok 8
       else Ok 10
     else Ok base) in
  let* skip :=
    (if (base =? 16) && (s0 =? 48) then
       let* s1 := rd s 1 in Ok (_tolower s1 =? 120)
     else Ok false) in
  Ok (if skip then drop 2 s else s, base).

(** The value of a character as a digit; [None] leaves the loop. *)
Definition digit_value (c : Z) : option Z :=
  if (48 <=? c) && (c <=? 57) then Some (c - 48)
  else if (97 <=? _tolower c) && (_tolower c <=? 102) then Some (_tolower c - 97 + 10)
  else None.

(** The characters that are left, the number read so far, the count and the flag. *)
Fixpoint parse_integer_loop (s : list Z) (base res rv : Z) (overflow : bool) : outcome (Z * Z * bool) :=
  match s with
  | [] => Oops
  | c :: s =>
    if c =? 0 then Ok (res, rv, overflow)
    else match digit_value c with
         | None => Ok (res, rv, overflow)
         | Some val =>
           if base <=? val then Ok (res, rv, overflow)
           else
             let* overflow :=
               (if negb (Z.land res (u64 (Z.shiftl ULLONG_MAX 60)) =? 0) then
                  if base =? 0 then Oops
                  else Ok (if u64 (ULLONG_MAX - val) / base <? res then true else overflow)
                else Ok overflow) in
             parse_integer_loop s base (u64 (res * base + val)) (u32 (rv + 1)) overflow
         end
  end.

(** Returns the value and the count, or-ed with the overflow bit. *)
Definition _parse_integer (s : list Z) (base : Z) : outcome (Z * Z) :=
  let* (res, rv, overflow) := parse_integer_loop s base 0 0 false in
  Ok (res, if overflow : bool then Z.lor rv KSTRTOX_OVERFLOW else rv).

(** ** The checked parsers *)

(** Each returns the result code and the value stored, if it stores one. *)
Definition _kstrtoull (s : list Z) (base : Z) : outcome (Z * option Z) :=
  let* (s, base) := _parse_integer_fixup_radix s base in
  let* (res, rv) := _parse_integer s base in
  if negb (Z.land rv KSTRTOX_OVERFLOW =? 0) then Ok (- ERANGE, None)
  else if rv =? 0 then Ok (- EINVAL, None)
  else
    let s := drop (Z.to_nat rv) s in
    let* c := rd s 0 in
    let s := if c =? 10 then drop 1 s else s in
    let* c := rd s 0 in
    if negb (c =? 0) then Ok (- EINVAL, None) else Ok (0, Some res).

Definition kstrtoull (s : list Z) (base : Z) : outcome (Z * option Z) :=
  let* c := rd s 0 in
  _kstrtoull (if c =? 43 then drop 1 s else s) base.

Definition kstrtoll (s : list Z) (base : Z) : outcome (Z * option Z) :=
  let* c := rd s 0 in
  if c =? 45 then
    let* (rv, tmp) := _kstrtoull (drop 1 s) base in
    match tmp with
    | None => Ok (rv, None)
    | Some tmp =>
      if 0 <? s64 (u64 (- tmp)) then Ok (- ERANGE, None) else Ok (0, Some (s64 (u64 (- tmp))))
    end
  else
    let* (rv, tmp) := kstrtoull s base in
    match tmp with
    | None => Ok (rv, None)
    | Some tmp => if s64 tmp <? 0 then Ok (- ERANGE, None) else Ok (0, Some (s64 tmp))
    end.

(** The narrower types: [tmp != (type)tmp] is an overflow. *)
Definition narrow (conv : Z -> Z) (r : outcome (Z * option Z)) : outcome (Z * option Z) :=
  let* (rv, tmp) := r in
  match tmp with
  | None => Ok (rv, None)
  | Some tmp => if negb (tmp =? conv tmp) then Ok (- ERANGE, None) else Ok (0, Some (conv tmp))
  end.

Definition _kstrtoul (s : list Z) (base : Z) : outcome (Z * option Z) := narrow u64 (kstrtoull s base).
Definition _kstrtol (s : list Z) (base : Z) : outcome (Z * option Z) := narrow s64 (kstrtoll s base).
Definition kstrtouint (s : list Z) (base : Z) : outcome (Z * option Z) := narrow u32 (kstrtoull s base).
Definition kstrtoint (s : list Z) (base : Z) : outcome (Z * option Z) := narrow s32 (kstrtoll s base).
Definition kstrtou16 (s : list Z) (base : Z) : outcome (Z * option Z) := narrow u16 (kstrtoull s base).
Definition kstrtos16 (s : list Z) (base : Z) : outcome (Z * option Z) := narrow (swrap 16) (kstrtoll s base).
Definition kstrtou8 (s : list Z) (base : Z) : outcome (Z * option Z) := narrow u8 (kstrtoull s base).
Definition kstrtos8 (s : list Z) (base : Z) : outcome (Z * option Z) := narrow (swrap 8) (kstrtoll s base).

(** [kstrto_from_user(f, g, type)] for a type of [size] bytes. [user] are the
    [count] bytes in user space; the copy may fault. *)
Definition kstrto_from_user (g : list Z -> Z -> outcome (Z * option Z)) (size : Z) (junk user : list Z) (fault : bool) (base : Z)
    : outcome (Z * option Z) :=
  let len := 1 + size * 8 + 1 + 1 in
  let count := Z.min (Z.of_nat (length user)) (len - 1) in
  if fault then Ok (- EFAULT, None)
  else
    let* buf := memcpy junk 0 user 0 count in
    let* buf := wr buf count 0 in
    g buf base.

(** ** The unchecked parsers *)

(** The value and the position of [*endp]. *)
Definition simple_strtoull (cp : list Z) (base : Z) : outcome (Z * Z) :=
  let* (s, base) := _parse_integer_fixup_radix cp base in
  let* (res, rv) := _parse_integer s base in
  Ok (res, Z.of_nat (length cp - length s) + Z.land rv (u32 (Z.lnot KSTRTOX_OVERFLOW))).

Definition simple_strtoul (cp : list Z) (base : Z) : outcome (Z * Z) := simple_strtoull cp base.

Definition simple_strtol (cp : list Z) (base : Z) : outcome (Z * Z) :=
  let* c := rd cp 0 in
  if c =? 45 then
    let* (res, endp) := simple_strtoul (drop 1 cp) base in
    Ok (s64 (u64 (- res)), 1 + endp)
  else
    let* (res, endp) := simple_strtoul cp base in Ok (s64 res, endp).

Definition simple_strtoll (cp : list Z) (base : Z) : outcome (Z * Z) :=
  let* c := rd cp 0 in
  if c =? 45 then
    let* (res, endp) := simple_strtoull (drop 1 cp) base in
    Ok (s64 (u64 (- res)), 1 + endp)
  else
    let* (res, endp) := simple_strtoull cp base in Ok (s64 res, endp).
