(* ===== verification/KstrtoxFacts.v ===== *)
(** * KstrtoxFacts: what the parsers of integers accept *)

From S2P Require Import Prelude Kstrtox.

(** ** Numerals *)

(** The value of a sequence of digits, the first the most significant. *)
Definition numeral (base : Z) (ds : list Z) : Z := foldl (fun acc d => acc * base + d) 0 ds.

Definition numeral_from (base acc : Z) (ds : list Z) : Z := foldl (fun acc d => acc * base + d) acc ds.

Lemma numeral_from_app base acc l1 l2 : numeral_from base acc (l1 ++ l2) = numeral_from base (numeral_from base acc l1) l2.
Proof. apply foldl_app. Qed.

Lemma numeral_from_le base ds : 1 <= base -> Forall (fun d => 0 <= d) ds -> forall acc, 0 <= acc -> acc <= numeral_from base acc ds.
Proof.
  intros Hb Hds. induction Hds as [|d ds Hd Hds IH]; intros acc Ha; simpl; [lia|].
  assert (acc * 1 <= acc * base) by (apply Z.mul_le_mono_nonneg_l; lia). etrans; [|apply IH]; lia.
Qed.

(** The longest run of digits below [base] at the start of a string. *)
Fixpoint digit_run (base : Z) (s : list Z) : list Z :=
  match s with
  | [] => []
  | c :: s =>
    if c =? 0 then []
    else match digit_value c with
         | Some v => if base <=? v then [] else v :: digit_run base s
         | None => []
         end
  end.

Lemma digit_value_nonneg c v : digit_value c = Some v -> 0 <= v < 16.
Proof. unfold digit_value. repeat case_match; intros [= <-]; lia. Qed.

Lemma digit_run_ok base s : Forall (fun d => 0 <= d < base) (digit_run base s).
Proof.
  induction s as [|c s IH]; [done|]. simpl. case_match; [done|]. destruct (digit_value c) as [v|] eqn:E; [|done].
  apply digit_value_nonneg in E. case_match; [done|]. apply Forall_cons; [lia|done].
Qed.

Lemma digit_run_length base s : (length (digit_run base s) <= length s)%nat.
Proof. induction s as [|c s IH]; simpl; [done|]. repeat case_match; simpl; lia. Qed.

(** ** The loop *)

Lemma high_bits res : 0 <= res < 2 ^ 64 -> (Z.land res (u64 (Z.shiftl ULLONG_MAX 60)) =? 0) = (res <? 2 ^ 60).
Proof.
  intros Hr. change (u64 (Z.shiftl ULLONG_MAX 60)) with (u64 (Z.lnot (2 ^ 60 - 1))). rewrite land_ones_compl by lia.
  pose proof (Z.div_mod res (2 ^ 60) ltac:(lia)). pose proof (Z.mod_pos_bound res (2 ^ 60) ltac:(lia)).
  destruct (res <? 2 ^ 60) eqn:E; [rewrite (Z.mod_small res) by lia; lia|]. assert (res mod 2 ^ 60 < res) by lia. lia.
Qed.

Lemma mul_overflow res base val : 0 < base -> 0 <= val < base -> 0 <= res < 2 ^ 64 -> base <= 16 ->
  (u64 (ULLONG_MAX - val) / base <? res) = (2 ^ 64 <=? res * base + val).
Proof.
  intros Hb Hv Hr Hb16. unfold ULLONG_MAX. rewrite wrap_small by lia.
  pose proof (Z.div_mod (2 ^ 64 - 1 - val) base ltac:(lia)). pose proof (Z.mod_pos_bound (2 ^ 64 - 1 - val) base Hb).
  remember ((2 ^ 64 - 1 - val) / base) as q. remember ((2 ^ 64 - 1 - val) mod base) as m. clear Heqq Heqm.
  destruct (decide (q < res)) as [Hlt|Hge].
  - assert (base * (q + 1) <= base * res) by (apply Z.mul_le_mono_nonneg_l; lia). rewrite (proj2 (Z.ltb_lt q res)) by done. symmetry. apply Z.leb_le. lia.
  - assert (base * res <= base * q) by (apply Z.mul_le_mono_nonneg_l; lia). rewrite (proj2 (Z.ltb_ge q res)) by lia. symmetry. apply Z.leb_gt. lia.
Qed.

(** [overflow] records that the number read so far, [acc], left 64 bits. *)
Definition parse_inv (acc res : Z) (overflow : bool) : Prop :=
  0 <= acc /\ 0 <= res < 2 ^ 64 /\ if overflow then 2 ^ 64 <= acc else res = acc.

Lemma parse_loop_spec base s : 2 <= base <= 16 -> 0 ∈ s -> forall acc res rv overflow,
  parse_inv acc res overflow -> 0 <= rv -> rv + Z.of_nat (length s) < 2 ^ 31 ->
  exists res' overflow', parse_integer_loop s base res rv overflow = Ok (res', rv + Z.of_nat (length (digit_run base s)), overflow') /\
    parse_inv (numeral_from base acc (digit_run base s)) res' overflow'.
Proof.
  intros Hb. induction s as [|c s IH]; intros H0 acc res rv overflow Hinv Hrv Hlen; [by apply elem_of_nil in H0|]. simpl.
  assert (Hstop : exists res' overflow', Ok (res, rv, overflow) = Ok (res', rv + Z.of_nat (length (@nil Z)), overflow') /\ parse_inv acc res' overflow').
  { exists res, overflow. split; [|done]. do 3 f_equal. simpl. lia. }
  destruct (c =? 0) eqn:Ec; [done|]. destruct (digit_value c) as [v|] eqn:Ev; [|done]. pose proof (digit_value_nonneg c v Ev) as Hv.
  destruct (base <=? v) eqn:Ebv; [done|]. apply elem_of_cons in H0 as [H0|H0]; [lia|].
  destruct Hinv as (Ha&Hr&Hi). assert (Hacc : acc <= acc * base + v).
  { assert (acc * 1 <= acc * base) by (apply Z.mul_le_mono_nonneg_l; lia). lia. }
  assert (Hnext : exists o, (if negb (Z.land res (u64 (Z.shiftl ULLONG_MAX 60)) =? 0) then
       if base =? 0 then Oops else Ok (if u64 (ULLONG_MAX - v) / base <? res then true else overflow) else Ok overflow) = Ok o /\
     parse_inv (acc * base + v) (u64 (res * base + v)) o).
  { replace (base =? 0) with false by lia. rewrite high_bits, mul_overflow by lia. destruct overflow.
    - exists true. split; [by destruct (negb _); [destruct (2 ^ 64 <=? _)|]|]. split; [lia|]. split; [apply wrap_range; lia|lia].
    - subst res. assert (Hsmall : acc < 2 ^ 60 -> acc * base + v < 2 ^ 64).
      { intros. assert (acc * base <= (2 ^ 60 - 1) * base) by (apply Z.mul_le_mono_nonneg_r; lia). lia. }
      exists (2 ^ 64 <=? acc * base + v). split.
      + destruct (acc <? 2 ^ 60) eqn:E; cbn [negb]; [|by destruct (2 ^ 64 <=? acc * base + v)]. f_equal. symmetry. apply Z.leb_gt. apply Hsmall. lia.
      + split; [lia|]. split; [apply wrap_range; lia|]. destruct (2 ^ 64 <=? acc * base + v) eqn:E; [lia|]. apply wrap_small. lia. }
  destruct Hnext as (o&->&Hinv'). cbn [obind]. simpl length in Hlen. rewrite (wrap_small 32 (rv + 1)) by lia.
  destruct (IH H0 _ _ (rv + 1) o Hinv' ltac:(lia) ltac:(lia)) as (res'&o'&->&Hfin). exists res', o'. split; [|done]. do 3 f_equal. simpl. lia.
Qed.

Lemma count_no_overflow_bit n : 0 <= n < 2 ^ 31 -> Z.land n KSTRTOX_OVERFLOW = 0.
Proof.
  intros Hn. unfold KSTRTOX_OVERFLOW. apply Z.bits_inj'. intros i Hi. rewrite Z.land_spec, Z.bits_0, Z.pow2_bits_eqb by lia.
  destruct (31 =? i) eqn:Ei; [|by rewrite andb_false_r]. replace i with 31 by lia. rewrite <- (Z.mod_small n (2 ^ 31)) by lia. by rewrite Z.mod_pow2_bits_high by lia.
Qed.

Lemma count_lor_overflow n : 0 <= n < 2 ^ 31 -> Z.lor n KSTRTOX_OVERFLOW = n + KSTRTOX_OVERFLOW.
Proof. intros Hn. pose proof (count_no_overflow_bit n Hn). by rewrite Z.add_nocarry_lxor, Z.lxor_lor. Qed.

Lemma parse_integer_spec base s : 2 <= base <= 16 -> 0 ∈ s -> Z.of_nat (length s) < 2 ^ 31 ->
  exists res, let n := Z.of_nat (length (digit_run base s)) in
    _parse_integer s base = Ok (res, if 2 ^ 64 <=? numeral base (digit_run base s) then n + KSTRTOX_OVERFLOW else n) /\
    0 <= res < 2 ^ 64 /\ (numeral base (digit_run base s) < 2 ^ 64 -> res = numeral base (digit_run base s)).
Proof.
  intros Hb H0 Hlen. destruct (parse_loop_spec base s Hb H0 0 0 0 false ltac:(done) ltac:(lia) ltac:(lia)) as (res&o&Hrun&Hacc&Hr&Hi).
  fold (numeral base (digit_run base s)) in Hi, Hacc. change (numeral_from base 0 (digit_run base s)) with (numeral base (digit_run base s)) in *.
  exists res. unfold _parse_integer. rewrite Hrun. cbn [obind]. pose proof (digit_run_length base s). destruct o.
  - rewrite (proj2 (Z.leb_le _ _) Hi). split; [|split; [done|lia]]. do 2 f_equal. rewrite Z.add_0_l. apply count_lor_overflow. lia.
  - subst res. rewrite (proj2 (Z.leb_gt _ _)) by lia. done.
Qed.

(** ** What a string denotes *)

(** The digits and the radix, after a [0x] if the radix is 16 or is to be detected. *)
Definition radix (s : list Z) (base : Z) : list Z * Z :=
  let hex := (nth 0 s 0 =? 48) && (_tolower (nth 1 s 0) =? 120) in
  let base := if base =? 0 then if nth 0 s 0 =? 48 then if hex && isxdigit (nth 2 s 0) then 16 else 8 else 10 else base in
  (if (base =? 16) && hex then drop 2 s else s, base).

(** The end of a string, with or without a newline. *)
Definition at_end (s : list Z) : bool := (nth 0 s 0 =? 0) || ((nth 0 s 0 =? 10) && (nth 1 s 0 =? 0)).

(** Whether the string is one numeral, and the value of its digits. *)
Definition unsigned_text (s : list Z) (base : Z) : bool * Z :=
  let '(u, b) := radix s base in
  let ds := digit_run b u in
  (negb (length ds =? 0)%nat && at_end (drop (length ds) u), numeral b ds).

Definition strip_plus (s : list Z) : list Z := if nth 0 s 0 =? 43 then drop 1 s else s.

Definition signed_text (s : list Z) (base : Z) : bool * Z :=
  if nth 0 s 0 =? 45 then let '(ok, v) := unsigned_text (drop 1 s) base in (ok, - v)
  else unsigned_text (strip_plus s) base.

(** The answer for a type with values from [lo] to [hi]. *)
Definition verdict (lo hi : Z) (x : bool * Z) : Z * option Z :=
  let '(ok, v) := x in
  if 2 ^ 64 <=? Z.abs v then (- ERANGE, None)
  else if negb ok then (- EINVAL, None)
  else if (lo <=? v) && (v <=? hi) then (0, Some v)
  else (- ERANGE, None).

(** A terminated string in an object of less than 2 GiB, and a radix that is supported. *)
Definition c_string (s : list Z) : Prop := 0 ∈ s /\ Z.of_nat (length s) < 2 ^ 31.
Definition radix_ok (base : Z) : Prop := base = 0 \/ 2 <= base <= 16.

Lemma rd_nth s i : (i < length s)%nat -> rd s (Z.of_nat i) = Ok (nth i s 0).
Proof.
  intros Hi. destruct (lookup_lt_is_Some_2 s i Hi) as [x Hx]. rewrite (rd_Some s (Z.of_nat i) x); [|lia|by rewrite Nat2Z.id].
  f_equal. symmetry. apply nth_lookup_Some with (d := 0) in Hx. done.
Qed.

Lemma c_string_nonempty s : c_string s -> (0 < length s)%nat.
Proof. intros [H _]. destruct s; [by apply elem_of_nil in H|simpl; lia]. Qed.

Lemma c_string_drop s n : c_string s -> (forall i, (i < n)%nat -> nth i s 0 <> 0) -> c_string (drop n s) /\ (n < length s)%nat.
Proof.
  revert n. induction s as [|c s IH]; intros n [H0 Hlen] Hn; [by apply elem_of_nil in H0|]. simpl in Hlen.
  destruct n as [|n]; [split; [by split|simpl; lia]|]. pose proof (Hn 0%nat ltac:(lia)) as Hc. simpl in Hc. simpl.
  destruct (IH n) as [? ?]; [split; [|lia]; by apply elem_of_cons in H0 as [?|?]|intros i Hi; apply (Hn (S i)); lia|]. split; [done|lia].
Qed.

Lemma digit_run_chars base s i : (i < length (digit_run base s))%nat -> nth i s 0 <> 0.
Proof.
  revert i. induction s as [|c s IH]; intros i; simpl; [lia|]. destruct (c =? 0) eqn:E; simpl; [lia|]. destruct (digit_value c); simpl; [|lia].
  case_match; simpl; [lia|]. destruct i; [lia|]. intros. apply IH. lia.
Qed.

Lemma fixup_radix_spec s base : c_string s -> radix_ok base ->
  _parse_integer_fixup_radix s base = Ok (radix s base) /\ c_string (fst (radix s base)) /\ 2 <= snd (radix s base) <= 16.
Proof.
  intros Hs Hb. pose proof (c_string_nonempty s Hs) as Hlen. unfold _parse_integer_fixup_radix. rewrite (rd_nth s 0 Hlen : rd s 0 = _). cbn [obind].
  assert (H1 : nth 0 s 0 = 48 -> c_string (drop 1 s) /\ rd s 1 = Ok (nth 1 s 0)).
  { intros H. destruct (c_string_drop s 1 Hs) as [Hd Hl]; [intros [|i] Hi; lia|]. split; [done|]. by apply (rd_nth s 1). }
  assert (H2 : nth 0 s 0 = 48 -> _tolower (nth 1 s 0) = 120 -> c_string (drop 2 s) /\ rd s 2 = Ok (nth 2 s 0)).
  { intros H Hx. destruct (c_string_drop s 2 Hs) as [Hd Hl].
    - intros [|[|i]] Hi; [lia| |lia]. intros E. rewrite E in Hx. done.
    - split; [done|]. by apply (rd_nth s 2). }
  unfold radix. destruct (nth 0 s 0 =? 48) eqn:E0; cbn [andb].
  2:{ rewrite !andb_false_r. destruct (base =? 0) eqn:Eb; cbn [obind]; rewrite ?andb_false_r; (split; [done|split; [done|unfold radix_ok in Hb; simpl; lia]]). }
  destruct (H1 ltac:(lia)) as [Hc1 R1]. destruct (_tolower (nth 1 s 0) =? 120) eqn:Ex; cbn [andb].
  - destruct (H2 ltac:(lia) ltac:(lia)) as [Hc2 R2]. destruct (base =? 0) eqn:Eb; rewrite ?R1; cbn [obind]; rewrite ?Ex, ?R2; cbn [obind].
    + destruct (isxdigit (nth 2 s 0)); cbn [obind]; [change (16 =? 16) with true|change (8 =? 16) with false]; cbn [andb]; cbv iota; rewrite ?R1; cbn [obind]; rewrite ?Ex; simpl; (split; [done|split; [done|lia]]).
    + destruct (base =? 16) eqn:Eb16; cbn [andb]; rewrite ?R1; cbn [obind]; rewrite ?Ex; simpl; (split; [done|split; [done|unfold radix_ok in Hb; lia]]).
  - destruct (base =? 0) eqn:Eb; rewrite ?R1; cbn [obind]; rewrite ?Ex; cbn [obind].
    + change (8 =? 16) with false. simpl. split; [done|split; [done|lia]].
    + rewrite andb_false_r. destruct (base =? 16) eqn:Eb16; cbn [andb]; rewrite ?R1; cbn [obind]; rewrite ?Ex; simpl; (split; [done|split; [done|unfold radix_ok in Hb; lia]]).
Qed.

Lemma numeral_nonneg base s : 2 <= base -> 0 <= numeral base (digit_run base s).
Proof.
  intros Hb. apply (numeral_from_le base (digit_run base s)); [lia| |done]. eapply Forall_impl; [|apply digit_run_ok]. simpl. lia.
Qed.

Lemma _kstrtoull_spec s base : c_string s -> radix_ok base -> _kstrtoull s base = Ok (verdict 0 ULLONG_MAX (unsigned_text s base)).
Proof.
  intros Hs Hb. destruct (fixup_radix_spec s base Hs Hb) as (Hfix&Hu&Hr). unfold _kstrtoull, unsigned_text. rewrite Hfix. destruct (radix s base) as [u b]. cbn [obind fst snd] in *.
  destruct (parse_integer_spec b u Hr (proj1 Hu) (proj2 Hu)) as (res&Hp&Hres&Hval). rewrite Hp. cbn [obind]. pose proof (numeral_nonneg b u ltac:(lia)) as Hnn.
  pose proof (digit_run_length b u) as Hdl. destruct Hu as [Hu0 Hul]. unfold verdict. rewrite Z.abs_eq by done. clear Hp Hfix.
  destruct (2 ^ 64 <=? numeral b (digit_run b u)) eqn:E.
  { assert (Hov : Z.land (Z.of_nat (length (digit_run b u)) + KSTRTOX_OVERFLOW) KSTRTOX_OVERFLOW <> 0); [|by rewrite (proj2 (Z.eqb_neq _ _) Hov)].
    rewrite <- count_lor_overflow, Z.land_lor_distr_l, count_no_overflow_bit, Z.land_diag by lia. done. }
  rewrite count_no_overflow_bit by lia. change (negb (0 =? 0)) with false. cbv iota. rewrite Hval by lia.
  assert (Hrange : (0 <=? numeral b (digit_run b u)) && (numeral b (digit_run b u) <=? ULLONG_MAX) = true) by (unfold ULLONG_MAX; lia). rewrite Hrange.
  destruct (length (digit_run b u) =? 0)%nat eqn:El; [replace (Z.of_nat (length (digit_run b u)) =? 0) with true by lia; done|].
  replace (Z.of_nat (length (digit_run b u)) =? 0) with false by lia. cbn [negb andb]. rewrite Nat2Z.id.
  destruct (c_string_drop u (length (digit_run b u))) as [Hd Hdl']; [by split|apply digit_run_chars|]. remember (drop (length (digit_run b u)) u) as t eqn:Et.
  pose proof (c_string_nonempty t Hd) as Ht. rewrite (rd_nth t 0 Ht : rd t 0 = _). cbn [obind]. unfold at_end.
  destruct (nth 0 t 0 =? 10) eqn:En.
  - replace (nth 0 t 0 =? 0) with false by lia. cbn [orb andb]. destruct (c_string_drop t 1 Hd) as [Hd1 _]; [intros [|i] Hi; lia|].
    pose proof (c_string_nonempty _ Hd1) as Ht1. rewrite (rd_nth (drop 1 t) 0 Ht1 : rd (drop 1 t) 0 = _). cbn [obind].
    replace (nth 0 (drop 1 t) 0) with (nth 1 t 0) by (by destruct t as [|? [|? ?]]). by destruct (nth 1 t 0 =? 0).
  - rewrite (rd_nth t 0 Ht : rd t 0 = _). cbn [obind]. rewrite orb_false_r. by destruct (nth 0 t 0 =? 0).
Qed.

(** ** Signs and narrower types *)

Lemma drop_1_string s c : c_string s -> nth 0 s 0 = c -> c <> 0 -> c_string (drop 1 s).
Proof. intros Hs Hc Hn. apply (c_string_drop s 1 Hs). intros [|i] Hi; lia. Qed.

Lemma kstrtoull_spec s base : c_string s -> radix_ok base -> kstrtoull s base = Ok (verdict 0 ULLONG_MAX (unsigned_text (strip_plus s) base)).
Proof.
  intros Hs Hb. unfold kstrtoull. rewrite (rd_nth s 0 (c_string_nonempty s Hs) : rd s 0 = _). cbn [obind]. fold (strip_plus s).
  apply _kstrtoull_spec; [|done]. unfold strip_plus. case_match; [|done]. eapply drop_1_string; [done..|lia].
Qed.

Lemma unsigned_text_nonneg s base : c_string s -> radix_ok base -> 0 <= snd (unsigned_text s base).
Proof.
  intros Hs Hb. destruct (fixup_radix_spec s base Hs Hb) as (_&_&Hr). unfold unsigned_text. destruct (radix s base) as [u b]. simpl in *. apply numeral_nonneg. lia.
Qed.

Lemma strip_plus_string s : c_string s -> c_string (strip_plus s).
Proof. intros Hs. unfold strip_plus. case_match; [|done]. eapply drop_1_string; [done..|lia]. Qed.

Lemma s64_signed x : - 2 ^ 63 <= x < 2 ^ 63 -> s64 x = x.
Proof. intros Hx. unfold swrap. change (2 ^ (64 - 1)) with (2 ^ 63). rewrite Z.mod_small; lia. Qed.

Lemma s64_high x : 2 ^ 63 <= x < 2 ^ 64 -> s64 x = x - 2 ^ 64.
Proof.
  intros Hx. unfold swrap. change (2 ^ (64 - 1)) with (2 ^ 63). rewrite <- (Z.mod_add _ (-1)) by lia. rewrite Z.mod_small; lia.
Qed.

Lemma s64_neg v : 0 <= v < 2 ^ 64 -> s64 (u64 (- v)) = if v <=? 2 ^ 63 then - v else 2 ^ 64 - v.
Proof.
  intros Hv. destruct (decide (v = 0)) as [->|Hne]; [done|]. assert (u64 (- v) = 2 ^ 64 - v) as ->.
  { unfold wrap. rewrite <- (Z.mod_add _ 1) by lia. rewrite Z.mod_small; lia. }
  case_match; [rewrite s64_high; lia|apply s64_signed; lia].
Qed.

Lemma kstrtoll_spec s base : c_string s -> radix_ok base -> kstrtoll s base = Ok (verdict (- 2 ^ 63) (2 ^ 63 - 1) (signed_text s base)).
Proof.
  intros Hs Hb. unfold kstrtoll, signed_text. rewrite (rd_nth s 0 (c_string_nonempty s Hs) : rd s 0 = _). cbn [obind].
  destruct (nth 0 s 0 =? 45) eqn:E.
  - assert (Hd : c_string (drop 1 s)) by (eapply drop_1_string; [done..|lia]). rewrite _kstrtoull_spec by done.
    pose proof (unsigned_text_nonneg _ base Hd Hb) as Hnn. destruct (unsigned_text (drop 1 s) base) as [ok v]. simpl in Hnn. cbn [obind verdict].
    rewrite Z.abs_opp, Z.abs_eq by lia. destruct (2 ^ 64 <=? v) eqn:Ev; [done|]. destruct ok; [|done]. cbn [negb].
    replace ((0 <=? v) && (v <=? ULLONG_MAX)) with true by (unfold ULLONG_MAX; lia). cbn [obind]. rewrite s64_neg by lia.
    destruct (v <=? 2 ^ 63) eqn:E63.
    + replace (0 <? - v) with false by lia. by replace ((- 2 ^ 63 <=? - v) && (- v <=? 2 ^ 63 - 1)) with true by lia.
    + replace (0 <? 2 ^ 64 - v) with true by lia. by replace ((- 2 ^ 63 <=? - v) && (- v <=? 2 ^ 63 - 1)) with false by lia.
  - rewrite kstrtoull_spec by done. pose proof (unsigned_text_nonneg _ base (strip_plus_string s Hs) Hb) as Hnn.
    destruct (unsigned_text (strip_plus s) base) as [ok v]. simpl in Hnn. cbn [obind verdict]. rewrite Z.abs_eq by lia.
    destruct (2 ^ 64 <=? v) eqn:Ev; [done|]. destruct ok; [|done]. cbn [negb].
    replace ((0 <=? v) && (v <=? ULLONG_MAX)) with true by (unfold ULLONG_MAX; lia). cbn [obind].
    destruct (v <? 2 ^ 63) eqn:E63.
    + rewrite s64_signed by lia. replace (v <? 0) with false by lia. by replace ((- 2 ^ 63 <=? v) && (v <=? 2 ^ 63 - 1)) with true by lia.
    + rewrite s64_high by lia. replace (v - 2 ^ 64 <? 0) with true by lia. by replace ((- 2 ^ 63 <=? v) && (v <=? 2 ^ 63 - 1)) with false by lia.
Qed.

(** A conversion that keeps exactly the values from [lo] to [hi]. *)
Definition keeps (conv : Z -> Z) (lo hi : Z) : Prop := forall v, conv v = v <-> lo <= v <= hi.

Lemma keeps_wrap w : 0 < w -> keeps (wrap w) 0 (2 ^ w - 1).
Proof.
  intros Hw v. assert (0 < 2 ^ w) by lia. split; [intros Heq; pose proof (wrap_range w v ltac:(lia)); lia|]. intros Hv. apply wrap_small. lia.
Qed.

Lemma keeps_swrap w : 0 < w -> keeps (swrap w) (- 2 ^ (w - 1)) (2 ^ (w - 1) - 1).
Proof.
  intros Hw v. assert (H2 : 2 ^ w = 2 * 2 ^ (w - 1)) by (rewrite <- Z.pow_succ_r by lia; f_equal; lia). assert (0 < 2 ^ (w - 1)) by (apply Z.pow_pos_nonneg; lia).
  unfold swrap. rewrite H2. split.
  - intros H1. pose proof (Z.mod_pos_bound (v + 2 ^ (w - 1)) (2 * 2 ^ (w - 1)) ltac:(lia)). lia.
  - intros Hv. rewrite Z.mod_small; lia.
Qed.

Lemma narrow_spec conv lo hi lo' hi' x : keeps conv lo hi -> lo' <= lo -> hi <= hi' ->
  narrow conv (Ok (verdict lo' hi' x)) = Ok (verdict lo hi x).
Proof.
  intros Hk Hlo Hhi. destruct x as [ok v]. unfold narrow, verdict. cbn [obind]. destruct (2 ^ 64 <=? Z.abs v); [done|]. destruct ok; [|done]. cbn [negb].
  destruct ((lo' <=? v) && (v <=? hi')) eqn:E; cbn [obind].
  - destruct (Z.eqb_spec v (conv v)) as [Heq|Hne]; cbn [negb].
    + symmetry in Heq. pose proof (proj1 (Hk v) Heq). replace ((lo <=? v) && (v <=? hi)) with true by lia. by rewrite Heq.
    + replace ((lo <=? v) && (v <=? hi)) with false; [done|]. symmetry. apply not_true_is_false. intros Hin. apply Hne. symmetry. apply Hk. lia.
  - by replace ((lo <=? v) && (v <=? hi)) with false by lia.
Qed.

Lemma kstrto_from_user_spec g size junk user base : 1 <= size -> Z.of_nat (length junk) = 1 + size * 8 + 1 + 1 ->
  exists pad, kstrto_from_user g size junk user false base = g (take (Z.to_nat (size * 8 + 2)) user ++ 0 :: pad) base /\
    Z.of_nat (length (take (Z.to_nat (size * 8 + 2)) user ++ 0 :: pad)) = size * 8 + 3.
Proof.
  intros Hs Hj. unfold kstrto_from_user. set (count := Z.min (Z.of_nat (length user)) (1 + size * 8 + 1 + 1 - 1)).
  assert (Hc : 0 <= count <= Z.of_nat (length user) /\ count <= size * 8 + 2) by lia.
  assert (Htk : take (Z.to_nat (size * 8 + 2)) user = take (Z.to_nat count) user).
  { destruct (decide (Z.of_nat (length user) <= size * 8 + 2)); [|f_equal; lia]. by rewrite !take_ge by lia. }
  assert (Hm : memcpy junk 0 user 0 count = Ok (take (Z.to_nat count) user ++ drop (Z.to_nat count) junk)).
  { unfold memcpy. destruct (count =? 0) eqn:E0; [replace count with 0 by lia; by rewrite take_0, drop_0|]. case_if; [lia|]. simpl. rewrite ?take_0, ?drop_0. by rewrite Z.add_0_l. }
  rewrite Hm. cbn [obind]. rewrite wr_Ok by (rewrite length_app, length_take, length_drop; lia). cbn [obind]. rewrite Htk.
  exists (drop (S (Z.to_nat count)) junk). split.
  - f_equal. destruct (drop (Z.to_nat count) junk) as [|x l] eqn:Ed; [apply (f_equal length) in Ed; rewrite length_drop in Ed; simpl in Ed; lia|].
    rewrite insert_app_r_alt by (rewrite length_take; lia). f_equal. rewrite length_take, Nat.min_l, Nat.sub_diag by lia. simpl. f_equal.
    change (S (Z.to_nat count)) with (1 + Z.to_nat count)%nat. rewrite Nat.add_comm, <- drop_drop, Ed. done.
  - rewrite length_app. simpl. rewrite length_take, length_drop. lia.
Qed.
