(* ===== verification/Vsprintf.v ===== *)
(** * Vsprintf: numbers and bitmaps as text

    The number formatting core of [lib/vsprintf.c] on a 64-bit machine, and the
    two formats for bitmaps, [%*pb] and [%*pbl]. The text goes to [mem] from
    position [buf] on; what lies at or beyond [end_] is counted but not
    written. The functions return the memory and the new position. *)

From S2P Require Import Prelude Bits FindBit.

(** ** Decimal digits, two at a time *)

Definition decpair : list Z :=
  map (fun x => Z.lor (x mod 10) (Z.shiftl (x / 10) 8) + 0x3030) (seqZ 0 100).

(** [*((u16 * )buf) = decpair[x]], little endian. *)
Definition put_pair (tmp : list Z) (buf x : Z) : outcome (list Z) :=
  let* v := rd decpair x in
  let* tmp := wr tmp buf (u8 v) in
  wr tmp (buf + 1) (u8 (Z.shiftr v 8)).

(** The label [out_r]. *)
Definition put_dec_out (tmp : list Z) (buf r : Z) : outcome (list Z * Z) :=
  let* tmp := put_pair tmp buf r in
  Ok (tmp, buf + (if r <? 10 then 1 else 2)).

Definition put_dec_trunc8 (tmp : list Z) (buf r : Z) : outcome (list Z * Z) :=
  if r <? 100 then put_dec_out tmp buf r
  else
    let q := u32 (Z.shiftr (u64 (r * 0x28f5c29)) 32) in
    let* tmp := put_pair tmp buf (u32 (r - u32 (100 * q))) in
    let buf := buf + 2 in
    if q <? 100 then put_dec_out tmp buf q
    else
      let r := u32 (Z.shiftr (u64 (q * 0x28f5c29)) 32) in
      let* tmp := put_pair tmp buf (u32 (q - u32 (100 * r))) in
      let buf := buf + 2 in
      if r <? 100 then put_dec_out tmp buf r
      else
        let q := Z.shiftr (u32 (r * 0x147b)) 19 in
        let* tmp := put_pair tmp buf (u32 (r - u32 (100 * q))) in
        put_dec_out tmp (buf + 2) q.

Definition put_dec_full8 (tmp : list Z) (buf r : Z) : outcome (list Z * Z) :=
  let q := u32 (Z.shiftr (u64 (r * 0x28f5c29)) 32) in
  let* tmp := put_pair tmp buf (u32 (r - u32 (100 * q))) in
  let r := u32 (Z.shiftr (u64 (q * 0x28f5c29)) 32) in
  let* tmp := put_pair tmp (buf + 2) (u32 (q - u32 (100 * r))) in
  let q := Z.shiftr (u32 (r * 0x147b)) 19 in
  let* tmp := put_pair tmp (buf + 4) (u32 (r - u32 (100 * q))) in
  let* tmp := put_pair tmp (buf + 6) q in
  Ok (tmp, buf + 8).

Definition E8 : Z := 100000000.

Definition put_dec (tmp : list Z) (buf n : Z) : outcome (list Z * Z) :=
  let* (tmp, buf, n) :=
    (if E8 <=? n then let* (tmp, buf) := put_dec_full8 tmp buf (n mod E8) in Ok (tmp, buf, n / E8) else Ok (tmp, buf, n)) in
  let* (tmp, buf, n) :=
    (if E8 <=? n then let* (tmp, buf) := put_dec_full8 tmp buf (n mod E8) in Ok (tmp, buf, n / E8) else Ok (tmp, buf, n)) in
  put_dec_trunc8 tmp buf (u32 n).

(** [for (idx = 0; idx < len; ++idx) buf[idx] = tmp[len - idx - 1];] *)
Definition num_to_str (junk buf : list Z) (size num : Z) : outcome (Z * list Z) :=
  let* (tmp, len) :=
    (if num <=? 9 then let* tmp := wr junk 0 (48 + num) in Ok (tmp, 1) else put_dec junk 0 num) in
  if size <? len then Ok (0, buf)
  else
    let* buf := for_do 0 len (fun idx buf => let* c := rd tmp (len - idx - 1) in wr buf idx c) buf in
    Ok (len, buf).

(** ** Numbers *)

Definition SIGN : Z := 1.
Definition LEFT : Z := 2.
Definition PLUS : Z := 4.
Definition SPACE : Z := 8.
Definition ZEROPAD : Z := 16.
Definition SMALL : Z := 32.
Definition SPECIAL : Z := 64.

Abbreviation s16 := (swrap 16).

(** The fields of [struct printf_spec] that [number] uses. *)
Record printf_spec := PrintfSpec { flags : Z; base : Z; field_width : Z; precision : Z }.

Definition has (f : Z) (spec_flags : Z) : bool := negb (Z.land spec_flags f =? 0).

(** ["0123456789ABCDEF"] *)
Definition hex_asc_upper : list Z := [48; 49; 50; 51; 52; 53; 54; 55; 56; 57; 65; 66; 67; 68; 69; 70].

(** [if (buf < end) *buf = c; ++buf;] *)
Definition emit (mem : list Z) (buf end_ c : Z) : outcome (list Z * Z) :=
  let* mem := (if buf <? end_ then wr mem buf c else Ok mem) in
  Ok (mem, buf + 1).

(** [while (--field_width >= 0) emit(c);] *)
Fixpoint pad_loop (fuel : nat) (mem : list Z) (buf end_ c fw : Z) : outcome (list Z * Z * Z) :=
  match fuel with
  | O => NoFuel
  | S fuel =>
    let fw := s16 (fw - 1) in
    if 0 <=? fw then
      let* (mem, buf) := emit mem buf end_ c in
      pad_loop fuel mem buf end_ c fw
    else Ok (mem, buf, fw)
  end.

(** The iterations left: the counter is decremented before the test. *)
Definition pad (mem : list Z) (buf end_ c fw : Z) : outcome (list Z * Z * Z) :=
  pad_loop (Z.to_nat (s16 (fw - 1) + 1) + 1) mem buf end_ c fw.

(** [while (i <= --precision) emit('0');] *)
Fixpoint zero_loop (fuel : nat) (mem : list Z) (buf end_ i prec : Z) : outcome (list Z * Z) :=
  match fuel with
  | O => NoFuel
  | S fuel =>
    let prec := s16 (prec - 1) in
    if i <=? prec then
      let* (mem, buf) := emit mem buf end_ 48 in
      zero_loop fuel mem buf end_ i prec
    else Ok (mem, buf)
  end.

(** [while (--i >= 0) emit(tmp[i]);] *)
Fixpoint digits_loop (fuel : nat) (mem : list Z) (buf end_ : Z) (tmp : list Z) (i : Z) : outcome (list Z * Z) :=
  match fuel with
  | O => NoFuel
  | S fuel =>
    let i := i - 1 in
    if 0 <=? i then
      let* c := rd tmp i in
      let* (mem, buf) := emit mem buf end_ c in
      digits_loop fuel mem buf end_ tmp i
    else Ok (mem, buf)
  end.

(** [do { tmp[i++] = ...; num >>= shift; } while (num);] *)
Fixpoint radix_loop (fuel : nat) (tmp : list Z) (i num mask shift locase : Z) : outcome (list Z * Z) :=
  match fuel with
  | O => NoFuel
  | S fuel =>
    let* c := rd hex_asc_upper (Z.land (u8 num) mask) in
    let* tmp := wr tmp i (Z.lor c locase) in
    let i := i + 1 in
    let num := Z.shiftr num shift in
    if negb (num =? 0) then radix_loop fuel tmp i num mask shift locase else Ok (tmp, i)
  end.

(** The sign, the absolute value and the width that is left. *)
Definition take_sign (num fw fl : Z) : list Z * Z * Z :=
  if has SIGN fl then
    if s64 num <? 0 then ([45], u64 (- s64 num), s16 (fw - 1))
    else if has PLUS fl then ([43], num, s16 (fw - 1))
    else if has SPACE fl then ([32], num, s16 (fw - 1))
    else ([], num, fw)
  else ([], num, fw).

(** [junk] is the uninitialised array [tmp] of 24 bytes. *)
Definition number (junk mem : list Z) (buf end_ num : Z) (spec : printf_spec) : outcome (list Z * Z) :=
  let need_pfx := has SPECIAL (flags spec) && negb (base spec =? 10) in
  let is_zero := num =? 0 in
  let locase := Z.land (flags spec) SMALL in
  let fl := if has LEFT (flags spec) then Z.land (flags spec) (u8 (Z.lnot ZEROPAD)) else flags spec in
  let '(sign, num, fw) := take_sign num (field_width spec) fl in
  let fw := if need_pfx then if base spec =? 16 then s16 (fw - 2) else if negb is_zero then s16 (fw - 1) else fw else fw in
  let* (tmp, i) :=
    (if num <? base spec then
       let* c := rd hex_asc_upper num in
       let* tmp := wr junk 0 (Z.lor c locase) in Ok (tmp, 1)
     else if negb (base spec =? 10) then
       radix_loop 64 junk 0 num (base spec - 1) (if base spec =? 16 then 4 else 3) locase
     else put_dec junk 0 num) in
  let prec := if precision spec <? i then s16 i else precision spec in
  let fw := s16 (fw - prec) in
  let* (mem, buf, fw) := (if negb (has (Z.lor ZEROPAD LEFT) fl) then pad mem buf end_ 32 fw else Ok (mem, buf, fw)) in
  let* (mem, buf) := (match sign with c :: _ => emit mem buf end_ c | [] => Ok (mem, buf) end) in
  let* (mem, buf) :=
    (if need_pfx then
       let* (mem, buf) := (if (base spec =? 16) || negb is_zero then emit mem buf end_ 48 else Ok (mem, buf)) in
       if base spec =? 16 then emit mem buf end_ (Z.lor 88 locase) else Ok (mem, buf)
     else Ok (mem, buf)) in
  let* (mem, buf, fw) := (if negb (has LEFT fl) then pad mem buf end_ (32 + Z.land fl ZEROPAD) fw else Ok (mem, buf, fw)) in
  let* (mem, buf) := zero_loop (Z.to_nat (prec - i) + 1) mem buf end_ i prec in
  let* (mem, buf) := digits_loop (Z.to_nat i + 1) mem buf end_ tmp i in
  let* (mem, buf, _) := pad mem buf end_ 32 fw in
  Ok (mem, buf).

(** ** Bitmaps *)

Definition ALIGN32 (x : Z) : Z := s32 (Z.land (s32 (x + 31)) (Z.lnot 31)).

Fixpoint bitmap_string_loop (fuel : nat) (junk mem : list Z) (buf end_ : Z) (bitmap : list Z) (i chunksz : Z) (first : bool)
    : outcome (list Z * Z) :=
  match fuel with
  | O => NoFuel
  | S fuel =>
    if 0 <=? i then
      let chunkmask := u32 (Z.shiftl 1 chunksz - 1) in
      let* w := rd bitmap (i / 64) in
      let val := u32 (Z.land (Z.shiftr w (i mod 64)) chunkmask) in
      let* (mem, buf) := (if negb first then emit mem buf end_ 44 else Ok (mem, buf)) in
      let* (mem, buf) := number junk mem buf end_ val (PrintfSpec (Z.lor SMALL ZEROPAD) 16 ((chunksz + 4 - 1) / 4) 0) in
      bitmap_string_loop fuel junk mem buf end_ bitmap (i - 32) 32 false
    else Ok (mem, buf)
  end.

(** [nr_bits] is the field width of the format. *)
Definition bitmap_string (junk mem : list Z) (buf end_ : Z) (bitmap : list Z) (nr_bits : Z) : outcome (list Z * Z) :=
  let nr_bits := Z.max nr_bits 0 in
  let chunksz := Z.land nr_bits 31 in
  let chunksz := if chunksz =? 0 then 32 else chunksz in
  let i := ALIGN32 nr_bits - 32 in
  bitmap_string_loop (Z.to_nat (nr_bits / 32) + 2) junk mem buf end_ bitmap i chunksz true.

Definition dec_spec : printf_spec := PrintfSpec 0 10 0 0.

Fixpoint bitmap_list_loop (fuel : nat) (junk mem : list Z) (buf end_ : Z) (bitmap : list Z) (nr_bits cur rbot : Z) (first : bool)
    : outcome (list Z * Z) :=
  match fuel with
  | O => NoFuel
  | S fuel =>
    if cur <? nr_bits then
      let rtop := cur in
      let* cur := find_next_bit bitmap nr_bits (cur + 1) in
      if (cur <? nr_bits) && (cur <=? rtop + 1) then bitmap_list_loop fuel junk mem buf end_ bitmap nr_bits cur rbot first
      else
        let* (mem, buf) := (if negb first then emit mem buf end_ 44 else Ok (mem, buf)) in
        let* (mem, buf) := number junk mem buf end_ rbot dec_spec in
        let* (mem, buf) :=
          (if rbot <? rtop then
             let* (mem, buf) := emit mem buf end_ 45 in
             number junk mem buf end_ rtop dec_spec
           else Ok (mem, buf)) in
        bitmap_list_loop fuel junk mem buf end_ bitmap nr_bits cur cur false
    else Ok (mem, buf)
  end.

Definition bitmap_list_string (junk mem : list Z) (buf end_ : Z) (bitmap : list Z) (nr_bits : Z) : outcome (list Z * Z) :=
  let nr_bits := Z.max nr_bits 0 in
  let* cur := find_first_bit bitmap nr_bits in
  bitmap_list_loop (Z.to_nat nr_bits + 1) junk mem buf end_ bitmap nr_bits cur cur true.
