(* ===== verification/VsprintfFacts.v ===== *)
(** * VsprintfFacts: the digits and the layout of a number *)

From S2P Require Import Prelude Bits FindBit KstrtoxFacts Vsprintf.

(** ** Digits, least significant first *)

Definition value_lsb (b : Z) (l : list Z) : Z := foldr (fun d acc => d + b * acc) 0 l.

(** [l] is the numeral of [n] without leading zeros. *)
Definition is_digits (b n : Z) (l : list Z) : Prop :=
  Forall (fun d => 0 <= d < b) l /\ value_lsb b l = n /\ l <> [] /\ (length l = 1%nat \/ list.last l <> Some 0).

Lemma value_lsb_app b l1 l2 : value_lsb b (l1 ++ l2) = value_lsb b l1 + b ^ Z.of_nat (length l1) * value_lsb b l2.
Proof.
  induction l1 as [|d l1 IH]; [change (Z.of_nat (length [])) with 0; rewrite Z.pow_0_r; simpl; lia|]. cbn [app value_lsb foldr]. fold (value_lsb b (l1 ++ l2)) (value_lsb b l1).
  rewrite IH. cbn [length]. rewrite Nat2Z.inj_succ, Z.pow_succ_r by lia. ring.
Qed.

Lemma is_digits_app b n l1 l2 : Forall (fun d => 0 <= d < b) l1 -> 0 < n -> is_digits b n l2 ->
  is_digits b (value_lsb b l1 + b ^ Z.of_nat (length l1) * n) (l1 ++ l2).
Proof.
  intros H1 Hn (H2&Hv&Hne&Hlast). split; [by apply Forall_app|]. split; [by rewrite value_lsb_app, Hv|]. split; [by destruct l1|]. right.
  rewrite last_app. destruct (list.last l2) as [x|] eqn:E; [|by apply last_None in E]. destruct Hlast as [Hl|Hl]; [|done].
  destruct l2 as [|y [|? ?]]; try done. simpl in E, Hv. injection E as <-. intros [= ->]. lia.
Qed.

(** ** Division by multiplication *)

Lemma div100_wide x : 0 <= x < 10 ^ 8 -> u32 (Z.shiftr (u64 (x * 0x28f5c29)) 32) = x / 100.
Proof.
  intros Hx. rewrite (wrap_small 64) by lia. rewrite Z.shiftr_div_pow2 by lia.
  assert (H : x * 42949673 / 2 ^ 32 = x / 100).
  { symmetry. apply (Z.div_unique _ _ _ (4 * (x / 100) + x mod 100 * 42949673));
      pose proof (Z.div_mod x 100 ltac:(lia)); pose proof (Z.mod_pos_bound x 100 ltac:(lia)); lia. }
  rewrite H. apply wrap_small. split; [apply Z.div_pos; lia|apply Z.div_lt_upper_bound; lia].
Qed.

Lemma div100_narrow x : 0 <= x < 10 ^ 4 -> Z.shiftr (u32 (x * 0x147b)) 19 = x / 100.
Proof.
  intros Hx. rewrite (wrap_small 32) by lia. rewrite Z.shiftr_div_pow2 by lia. symmetry.
  apply (Z.div_unique _ _ _ (12 * (x / 100) + x mod 100 * 5243));
    pose proof (Z.div_mod x 100 ltac:(lia)); pose proof (Z.mod_pos_bound x 100 ltac:(lia)); lia.
Qed.

Lemma rem100 x : 0 <= x < 2 ^ 32 -> u32 (x - u32 (100 * (x / 100))) = x mod 100.
Proof.
  intros Hx. pose proof (Z.div_mod x 100 ltac:(lia)). pose proof (Z.mod_pos_bound x 100 ltac:(lia)).
  assert (0 <= x / 100) by (apply Z.div_pos; lia). rewrite (wrap_small 32 (100 * _)) by lia. rewrite wrap_small; lia.
Qed.

(** ** Pairs of digits *)

Definition chr (d : Z) : Z := 48 + d.

Definition pair (x : Z) : list Z := [x mod 10; x / 10].

Lemma decpair_spec x : 0 <= x < 100 -> exists v, rd decpair x = Ok v /\ u8 v = chr (x mod 10) /\ u8 (Z.shiftr v 8) = chr (x / 10).
Proof.
  intros Hx. assert (Hall : forallb (fun x => match rd decpair x with Ok v => (u8 v =? chr (x mod 10)) && (u8 (Z.shiftr v 8) =? chr (x / 10)) | _ => false end) (seqZ 0 100) = true) by (vm_compute; reflexivity).
  rewrite forallb_forall in Hall. specialize (Hall x). rewrite <- list_elem_of_In, elem_of_seqZ in Hall. specialize (Hall ltac:(lia)).
  destruct (rd decpair x) as [v| |]; [|done..]. exists v. split; [done|]. lia.
Qed.

Lemma put_pair_spec ds rest x : 0 <= x < 100 -> (2 <= length rest)%nat ->
  put_pair (ds ++ rest) (Z.of_nat (length ds)) x = Ok ((ds ++ map chr (pair x)) ++ drop 2 rest).
Proof.
  intros Hx Hr. destruct (decpair_spec x Hx) as (v&Hv&H0&H1). unfold put_pair. rewrite Hv. cbn [obind]. rewrite H0, H1.
  destruct rest as [|r0 [|r1 rest]]; [simpl in Hr; lia..|]. rewrite wr_Ok by (rewrite length_app; simpl; lia). cbn [obind].
  rewrite Nat2Z.id. rewrite insert_app_r_alt, Nat.sub_diag by lia. cbn [insert list_insert]. rewrite wr_Ok by (rewrite length_app; simpl; lia).
  rewrite insert_app_r_alt by lia. replace (Z.to_nat (Z.of_nat (length ds) + 1) - length ds)%nat with 1%nat by lia. by rewrite <- app_assoc.
Qed.

Lemma pair_digits x : 0 <= x < 100 -> Forall (fun d => 0 <= d < 10) (pair x) /\ value_lsb 10 (pair x) = x.
Proof.
  intros Hx. pose proof (Z.div_mod x 10 ltac:(lia)). pose proof (Z.mod_pos_bound x 10 ltac:(lia)).
  assert (0 <= x / 10 < 10) by (split; [apply Z.div_pos; lia|apply Z.div_lt_upper_bound; lia]).
  split; [repeat (apply Forall_cons; [lia|]); by apply Forall_nil|]. unfold pair. cbn [value_lsb foldr]. lia.
Qed.

(** What a routine appends to the digits in the buffer. *)
Definition appends (ds rest : list Z) (l : list Z) (o : outcome (list Z * Z)) : Prop :=
  exists rest', o = Ok ((ds ++ map chr l) ++ rest', Z.of_nat (length ds) + Z.of_nat (length l)) /\
    length rest = (length l + length rest')%nat.

Lemma appends_pair ds rest x l k : 0 <= x < 100 -> (2 <= length rest)%nat ->
  (forall rest', length rest = (2 + length rest')%nat -> appends (ds ++ map chr (pair x)) rest' l (k ((ds ++ map chr (pair x)) ++ rest'))) ->
  appends ds rest (pair x ++ l) (let* tmp := put_pair (ds ++ rest) (Z.of_nat (length ds)) x in k tmp).
Proof.
  intros Hx Hr Hk. rewrite put_pair_spec by done. cbn [obind]. destruct (Hk (drop 2 rest)) as (rest'&->&Hlen); [rewrite length_drop; lia|].
  exists rest'. split; [|rewrite length_app; cbn [length]; rewrite length_drop in Hlen; cbn [length pair]; lia].
  f_equal. f_equal; [by rewrite map_app, !app_assoc|]. rewrite !length_app, length_map. cbn [length pair]. lia.
Qed.

Lemma put_dec_out_spec ds rest r : 0 <= r < 100 -> (2 <= length rest)%nat ->
  exists l, appends ds rest l (put_dec_out (ds ++ rest) (Z.of_nat (length ds)) r) /\ is_digits 10 r l.
Proof.
  intros Hr Hlen. unfold put_dec_out. rewrite put_pair_spec by done. cbn [obind]. destruct (pair_digits r Hr) as [Hd Hv]. destruct (r <? 10) eqn:E.
  - exists [r]. split.
    + exists (chr (r / 10) :: drop 2 rest). split; [|cbn [length]; rewrite length_drop; lia]. f_equal. f_equal. rewrite <- !app_assoc. f_equal. cbn [map pair app]. by rewrite Z.mod_small by lia.
    + split; [apply Forall_cons; [lia|by apply Forall_nil]|]. split; [cbn [value_lsb foldr]; lia|]. split; [done|by left].
  - exists (pair r). split.
    + exists (drop 2 rest). split; [done|]. cbn [length pair]. rewrite length_drop. lia.
    + split; [done|]. split; [done|]. split; [done|]. right. cbn [list.last pair]. intros [= H]. assert (r / 10 >= 1); [|lia]. apply Z.le_ge. apply Z.div_le_lower_bound; lia.
Qed.

Lemma length_pair ds x : Z.of_nat (length ds) + 2 = Z.of_nat (length (ds ++ map chr (pair x))).
Proof. rewrite length_app. cbn [length map pair]. lia. Qed.

Lemma div100_bounds x m : 0 <= x < 100 * m -> 0 <= x mod 100 < 100 /\ 0 <= x / 100 < m /\ x = x mod 100 + 100 * (x / 100).
Proof.
  intros Hx. pose proof (Z.div_mod x 100 ltac:(lia)). pose proof (Z.mod_pos_bound x 100 ltac:(lia)).
  split; [lia|]. split; [|lia]. split; [apply Z.div_pos; lia|apply Z.div_lt_upper_bound; lia].
Qed.

(** One pair, and the digits of the quotient after it. *)
Lemma appends_quot ds rest x k : 100 <= x < 10 ^ 8 -> (2 <= length rest)%nat ->
  (forall rest', length rest = (2 + length rest')%nat ->
     exists l, appends (ds ++ map chr (pair (x mod 100))) rest' l (k ((ds ++ map chr (pair (x mod 100))) ++ rest')) /\ is_digits 10 (x / 100) l) ->
  exists l, appends ds rest l (let* tmp := put_pair (ds ++ rest) (Z.of_nat (length ds)) (x mod 100) in k tmp) /\ is_digits 10 x l.
Proof.
  intros Hx Hr Hk. destruct (div100_bounds x (10 ^ 6)) as (Hm&Hq&He); [lia|]. destruct (Hk (drop 2 rest)) as (l&Happ&Hd); [rewrite length_drop; lia|].
  exists (pair (x mod 100) ++ l). split.
  - rewrite put_pair_spec by done. cbn [obind]. destruct Happ as (rest'&->&Hlen).
    exists rest'. split; [|rewrite length_app; cbn [length pair]; rewrite length_drop in Hlen; lia].
    f_equal. f_equal; [by rewrite map_app, !app_assoc|]. rewrite !length_app, length_map. cbn [length pair]. lia.
  - destruct (pair_digits (x mod 100) Hm) as [Hf Hv]. assert (0 < x / 100) by (apply Z.div_str_pos; lia).
    pose proof (is_digits_app 10 (x / 100) (pair (x mod 100)) l Hf ltac:(done) Hd) as Hdig. rewrite Hv in Hdig. cbn [length pair] in Hdig. change (10 ^ Z.of_nat 2) with 100 in Hdig. by rewrite <- He in Hdig.
Qed.

Lemma put_dec_trunc8_spec ds rest r : 0 <= r < 10 ^ 8 -> (8 <= length rest)%nat ->
  exists l, appends ds rest l (put_dec_trunc8 (ds ++ rest) (Z.of_nat (length ds)) r) /\ is_digits 10 r l.
Proof.
  intros Hr Hlen. unfold put_dec_trunc8. destruct (r <? 100) eqn:E1; [apply put_dec_out_spec; lia|].
  destruct (div100_bounds r (10 ^ 6)) as (_&Hq&_); [lia|]. rewrite div100_wide, rem100 by lia. cbv zeta.
  apply (appends_quot ds rest r (fun tmp => if r / 100 <? 100 then _ else _)); [lia|lia|]. intros rest1 Hl1. rewrite (length_pair ds (r mod 100)).
  destruct (r / 100 <? 100) eqn:E2; [apply put_dec_out_spec; lia|].
  remember (ds ++ map chr (pair (r mod 100))) as ds1. remember (r / 100) as q. clear Heqds1 Heqq.
  destruct (div100_bounds q (10 ^ 4)) as (_&Hq2&_); [lia|]. rewrite div100_wide, rem100 by lia.
  apply (appends_quot ds1 rest1 q (fun tmp => if q / 100 <? 100 then _ else _)); [lia|lia|]. intros rest2 Hl2. rewrite (length_pair ds1 (q mod 100)).
  destruct (q / 100 <? 100) eqn:E3; [apply put_dec_out_spec; lia|].
  remember (ds1 ++ map chr (pair (q mod 100))) as ds2. remember (q / 100) as r2. clear Heqds2 Heqr2.
  destruct (div100_bounds r2 100) as (_&Hq3&_); [lia|]. rewrite div100_narrow, rem100 by lia.
  apply appends_quot; [lia|lia|]. intros rest3 Hl3. rewrite (length_pair ds2 (r2 mod 100)). apply put_dec_out_spec; lia.
Qed.

(** Eight digits, leading zeros included. *)
Lemma put_dec_full8_spec ds rest r : 0 <= r < 10 ^ 8 -> (8 <= length rest)%nat ->
  exists l, appends ds rest l (put_dec_full8 (ds ++ rest) (Z.of_nat (length ds)) r) /\
    length l = 8%nat /\ Forall (fun d => 0 <= d < 10) l /\ value_lsb 10 l = r.
Proof.
  intros Hr Hlen. destruct (div100_bounds r (10 ^ 6)) as (Hm1&Hq1&He1); [lia|]. destruct (div100_bounds (r / 100) (10 ^ 4)) as (Hm2&Hq2&He2); [lia|].
  destruct (div100_bounds (r / 100 / 100) 100) as (Hm3&Hq3&He3); [lia|].
  unfold put_dec_full8. rewrite div100_wide, rem100 by lia. rewrite div100_wide, rem100 by lia. rewrite div100_narrow, rem100 by lia. cbv zeta.
  remember (r mod 100) as a. remember (r / 100) as q. remember (q mod 100) as b. remember (q / 100) as q2. remember (q2 mod 100) as c. remember (q2 / 100) as d.
  exists (pair a ++ pair b ++ pair c ++ pair d). split.
  - apply appends_pair; [lia|lia|]. intros rest1 Hl1. rewrite (length_pair ds a). apply appends_pair; [lia|lia|]. intros rest2 Hl2.
    replace (Z.of_nat (length ds) + 4) with (Z.of_nat (length ((ds ++ map chr (pair a)) ++ map chr (pair b)))) by (rewrite !length_app; cbn [length map pair]; lia).
    apply appends_pair; [lia|lia|]. intros rest3 Hl3.
    replace (Z.of_nat (length ds) + 6) with (Z.of_nat (length (((ds ++ map chr (pair a)) ++ map chr (pair b)) ++ map chr (pair c)))) by (rewrite !length_app; cbn [length map pair]; lia).
    rewrite put_pair_spec by lia. cbn [obind]. exists (drop 2 rest3). split; [|cbn [length pair]; rewrite length_drop; lia].
    f_equal. f_equal. rewrite !length_app. cbn [length map pair]. lia.
  - split; [done|]. destruct (pair_digits a Hm1), (pair_digits b Hm2), (pair_digits c Hm3), (pair_digits d Hq3).
    split; [by repeat (apply Forall_app; split)|]. rewrite !value_lsb_app. cbn [length pair]. change (10 ^ Z.of_nat 2) with 100. lia.
Qed.

(** One of the two divisions by 10^8, if it is needed. *)
Lemma put_dec_step k ds rest n : 0 <= n < 2 ^ 64 -> (8 <= length rest)%nat ->
  (forall ds' rest' n', 0 <= n' -> n' <= n / E8 \/ n' < E8 -> (length rest <= length rest' + 8)%nat ->
     exists l, appends ds' rest' l (k (ds' ++ rest', Z.of_nat (length ds'), n')) /\ is_digits 10 n' l) ->
  exists l, appends ds rest l (obind (if E8 <=? n then let* (tmp, buf) := put_dec_full8 (ds ++ rest) (Z.of_nat (length ds)) (n mod E8) in Ok (tmp, buf, n / E8)
                                     else Ok (ds ++ rest, Z.of_nat (length ds), n)) k) /\ is_digits 10 n l.
Proof.
  intros Hn Hr Hk. destruct (E8 <=? n) eqn:E; [|cbn [obind]; apply Hk; [lia|right; lia|lia]].
  pose proof (Z.mod_pos_bound n E8 ltac:(done)) as Hm. pose proof (Z.div_mod n E8 ltac:(done)) as Hdm. assert (0 < n / E8) by (apply Z.div_str_pos; unfold E8 in *; lia).
  destruct (put_dec_full8_spec ds rest (n mod E8)) as (l1&(rest1&->&Hl1)&Hlen&Hf&Hv); [done|done|]. cbn [obind].
  destruct (Hk (ds ++ map chr l1) rest1 (n / E8)) as (l2&(rest2&Hr2&Hl2)&Hd); [lia|by left|lia|]. exists (l1 ++ l2). split.
  - exists rest2. replace (Z.of_nat (length ds) + Z.of_nat (length l1)) with (Z.of_nat (length (ds ++ map chr l1))) by (rewrite length_app, length_map; lia). rewrite Hr2.
    split; [|rewrite length_app; lia]. f_equal. f_equal; [by rewrite map_app, !app_assoc|]. rewrite !length_app, length_map. lia.
  - pose proof (is_digits_app 10 (n / E8) l1 l2 Hf ltac:(done) Hd) as H1. rewrite Hv, Hlen in H1. change (10 ^ Z.of_nat 8) with E8 in H1. by replace n with (n mod E8 + E8 * (n / E8)) by lia.
Qed.

Lemma put_dec_spec junk n : 0 <= n < 2 ^ 64 -> length junk = 24%nat ->
  exists l rest, put_dec junk 0 n = Ok (map chr l ++ rest, Z.of_nat (length l)) /\ is_digits 10 n l /\ length junk = (length l + length rest)%nat.
Proof.
  intros Hn Hj.
  destruct (put_dec_step (fun '(tmp, buf, n) => let* (tmp, buf, n) := (if E8 <=? n then let* (tmp, buf) := put_dec_full8 tmp buf (n mod E8) in Ok (tmp, buf, n / E8) else Ok (tmp, buf, n)) in
    put_dec_trunc8 tmp buf (u32 n)) [] junk n Hn ltac:(lia)) as (l&(rest&Hr&Hlen)&Hd).
  - intros ds1 rest1 n1 Hn1 Hb1 Hr1. assert (n1 < 2 ^ 64 /\ n1 / E8 < E8) as [Hn64 Hq].
    { unfold E8 in *. assert (n / 100000000 < 2 ^ 38) by (apply Z.div_lt_upper_bound; lia). split; [lia|]. apply Z.div_lt_upper_bound; lia. }
    apply (put_dec_step (fun '(tmp, buf, n) => put_dec_trunc8 tmp buf (u32 n))); [lia|lia|]. intros ds2 rest2 n2 Hn2 Hb2 Hr2. unfold E8 in *.
    rewrite wrap_small by lia. apply put_dec_trunc8_spec; lia.
  - exists l, rest. split; [|done]. unfold put_dec. simpl in Hr. exact Hr.
Qed.

(** ** Octal and hexadecimal *)

(** The character of a digit; [locase] is 0 or 0x20. *)
Definition digit_char (locase d : Z) : Z := Z.lor (nth (Z.to_nat d) hex_asc_upper 0) locase.

Lemma digit_char_dec locase d : 0 <= d < 10 -> locase = 0 \/ locase = 32 -> digit_char locase d = chr d.
Proof.
  intros Hd Hl. assert (d = 0 \/ d = 1 \/ d = 2 \/ d = 3 \/ d = 4 \/ d = 5 \/ d = 6 \/ d = 7 \/ d = 8 \/ d = 9) as Hc by lia.
  destruct Hl as [->| ->]; repeat destruct Hc as [->|Hc]; try done; by subst.
Qed.

Lemma rd_hex d : 0 <= d < 16 -> rd hex_asc_upper d = Ok (nth (Z.to_nat d) hex_asc_upper 0).
Proof. intros Hd. rewrite <- (Z2Nat.id d) at 1 by lia. apply rd_nth. simpl. lia. Qed.

Lemma radix_loop_spec sh locase n : 1 <= sh <= 4 -> forall fuel ds rest num, 0 <= num < (2 ^ sh) ^ Z.of_nat n -> (0 < n <= fuel)%nat -> (n <= length rest)%nat ->
  exists l rest', radix_loop fuel (ds ++ rest) (Z.of_nat (length ds)) num (2 ^ sh - 1) sh locase = Ok ((ds ++ map (digit_char locase) l) ++ rest', Z.of_nat (length ds) + Z.of_nat (length l)) /\
    is_digits (2 ^ sh) num l /\ length rest = (length l + length rest')%nat.
Proof.
  intros Hsh. assert (H2 : 2 <= 2 ^ sh <= 16). { assert (sh = 1 \/ sh = 2 \/ sh = 3 \/ sh = 4) as Hc by lia. destruct Hc as [->|[->|[->| ->]]]; done. }
  induction n as [|n IH]; intros [|fuel] ds rest num Hnum Hfuel Hlen; try lia. cbn [radix_loop].
  assert (Hd : Z.land (u8 num) (2 ^ sh - 1) = num mod 2 ^ sh).
  { rewrite <- (Z.land_ones num sh), Z.ones_equiv by lia. unfold Z.pred, wrap. rewrite <- (Z.land_ones num 8) by lia. rewrite <- Z.land_assoc. f_equal.
    assert (sh = 1 \/ sh = 2 \/ sh = 3 \/ sh = 4) as Hc by lia. by destruct Hc as [->|[->|[->| ->]]]. }
  pose proof (Z.mod_pos_bound num (2 ^ sh) ltac:(lia)) as Hm. rewrite Hd, rd_hex by lia. cbn [obind]. fold (digit_char locase (num mod 2 ^ sh)).
  destruct rest as [|x rest]; [simpl in Hlen; lia|]. rewrite wr_Ok by (rewrite length_app; simpl; lia). cbn [obind].
  rewrite Nat2Z.id, insert_app_r_alt, Nat.sub_diag by lia. cbn [insert list_insert]. rewrite Z.shiftr_div_pow2 by lia. cbv zeta.
  assert (Hq : 0 <= num / 2 ^ sh) by (apply Z.div_pos; lia). pose proof (Z.div_mod num (2 ^ sh) ltac:(lia)) as Hdm.
  destruct (num / 2 ^ sh =? 0) eqn:E; cbn [negb].
  - exists [num mod 2 ^ sh], rest. cbn [map length]. split; [by rewrite <- app_assoc|]. split; [|done].
    split; [apply Forall_cons; [lia|by apply Forall_nil]|]. split; [cbn [value_lsb foldr]; lia|]. split; [done|by left].
  - rewrite Nat2Z.inj_succ, Z.pow_succ_r in Hnum by lia.
    assert (Hlt : num / 2 ^ sh < (2 ^ sh) ^ Z.of_nat n) by (apply Z.div_lt_upper_bound; lia).
    assert (n <> 0%nat) by (intros ->; change (Z.of_nat 0) with 0 in Hlt; rewrite Z.pow_0_r in Hlt; lia).
    destruct (IH fuel (ds ++ [digit_char locase (num mod 2 ^ sh)]) rest (num / 2 ^ sh)) as (l&rest'&Hr&Hdig&Hl'); [lia|lia|simpl in Hlen; lia|].
    exists (num mod 2 ^ sh :: l), rest'. rewrite length_app in Hr. cbn [length] in Hr. rewrite <- app_assoc in Hr. cbn [app] in Hr.
    replace (Z.of_nat (length ds + 1)) with (Z.of_nat (length ds) + 1) in Hr by lia. rewrite Hr. split; [|split; [|cbn [length]; lia]].
    + f_equal. f_equal; [cbn [map]; by rewrite <- !app_assoc|cbn [length]; lia].
    + pose proof (is_digits_app (2 ^ sh) (num / 2 ^ sh) [num mod 2 ^ sh] l ltac:(apply Forall_cons; [lia|by apply Forall_nil]) ltac:(lia) Hdig) as Happ.
      cbn [value_lsb foldr length app] in Happ. rewrite Z.pow_1_r in Happ. by replace num with (num mod 2 ^ sh + 2 ^ sh * 0 + 2 ^ sh * (num / 2 ^ sh)) at 1 by lia.
Qed.

(** ** Writing text *)

(** The memory after [t] has been written at [buf], as far as it lies below [end_]. *)
Fixpoint store (mem : list Z) (buf end_ : Z) (t : list Z) : list Z :=
  match t with
  | [] => mem
  | c :: t => store (if buf <? end_ then <[Z.to_nat buf := c]> mem else mem) (buf + 1) end_ t
  end.

Lemma length_store t : forall mem buf end_, length (store mem buf end_ t) = length mem.
Proof. induction t as [|c t IH]; intros; [done|]. simpl. rewrite IH. case_match; [apply length_insert|done]. Qed.

Lemma store_app t1 t2 : forall mem buf end_, store mem buf end_ (t1 ++ t2) = store (store mem buf end_ t1) (buf + Z.of_nat (length t1)) end_ t2.
Proof. induction t1 as [|c t1 IH]; intros; cbn [app store length]; [f_equal; lia|]. rewrite IH. f_equal. lia. Qed.

Lemma store_lookup t : forall mem buf end_ p, 0 <= buf -> end_ <= Z.of_nat (length mem) ->
  store mem buf end_ t !! p = if (buf <=? Z.of_nat p) && (Z.of_nat p <? end_) && (Z.of_nat p <? buf + Z.of_nat (length t)) then t !! (p - Z.to_nat buf)%nat else mem !! p.
Proof.
  induction t as [|c t IH]; intros mem buf end_ p Hb He; cbn [store length]; [by replace (_ && _) with false by lia|].
  rewrite IH by (try case_match; rewrite ?length_insert; lia). destruct (decide (p = Z.to_nat buf)) as [->|Hne].
  - replace (buf + 1 <=? _) with false by lia. cbn [andb]. rewrite Nat.sub_diag. destruct (buf <? end_) eqn:E.
    + rewrite list_lookup_insert_eq by lia. by replace (_ && _) with true by lia.
    + by replace (_ && _) with false by lia.
  - replace (buf + 1 <=? Z.of_nat p) with (buf <=? Z.of_nat p) by lia. replace (buf + 1 + Z.of_nat (length t)) with (buf + Z.of_nat (S (length t))) by lia.
    destruct (_ && _ && _) eqn:E; [|by case_match; [rewrite list_lookup_insert_ne by lia|]]. by replace (p - Z.to_nat buf)%nat with (S (p - Z.to_nat (buf + 1))) by lia.
Qed.

Section Writing.
Context (end_ : Z).

Definition room (mem : list Z) (buf : Z) : Prop := 0 <= buf /\ end_ <= Z.of_nat (length mem).

Lemma room_store mem buf t : room mem buf -> room (store mem buf end_ t) (buf + Z.of_nat (length t)).
Proof. intros [H1 H2]. split; [lia|]. by rewrite length_store. Qed.

Lemma emit_spec mem buf c : room mem buf -> emit mem buf end_ c = Ok (store mem buf end_ [c], buf + Z.of_nat (length [c])).
Proof. intros [H1 H2]. unfold emit. simpl. case_if; [rewrite wr_Ok by lia|]; done. Qed.

Lemma s16_small x : - 2 ^ 15 <= x < 2 ^ 15 -> s16 x = x.
Proof. intros Hx. apply keeps_swrap; [lia|]. simpl. lia. Qed.

Lemma pad_loop_spec c fuel : forall mem buf fw, room mem buf -> - 2 ^ 15 < fw < 2 ^ 15 -> (Z.to_nat fw < fuel)%nat ->
  pad_loop fuel mem buf end_ c fw = Ok (store mem buf end_ (replicate (Z.to_nat fw) c), buf + Z.of_nat (length (replicate (Z.to_nat fw) c)), Z.min (fw - 1) (-1)).
Proof.
  induction fuel as [|fuel IH]; intros mem buf fw Hroom Hfw Hfuel; [lia|]. cbn [pad_loop]. rewrite s16_small by lia. destruct (0 <=? fw - 1) eqn:E.
  - rewrite emit_spec by done. cbn [obind]. pose proof (room_store mem buf [c] Hroom) as Hr. rewrite IH by (done || lia).
    replace (Z.to_nat fw) with (S (Z.to_nat (fw - 1))) by lia. change (replicate (S (Z.to_nat (fw - 1))) c) with ([c] ++ replicate (Z.to_nat (fw - 1)) c).
    rewrite store_app, length_app. do 2 f_equal; [f_equal; lia|lia].
  - replace (Z.to_nat fw) with 0%nat by lia. cbn [replicate store length]. do 2 f_equal; [f_equal; lia|lia].
Qed.

Lemma pad_spec mem buf c fw : room mem buf -> - 2 ^ 15 < fw < 2 ^ 15 ->
  pad mem buf end_ c fw = Ok (store mem buf end_ (replicate (Z.to_nat fw) c), buf + Z.of_nat (length (replicate (Z.to_nat fw) c)), Z.min (fw - 1) (-1)).
Proof. intros Hroom Hfw. unfold pad. apply pad_loop_spec; [done|done|]. rewrite s16_small by lia. lia. Qed.

Lemma zero_loop_spec i fuel : 0 <= i -> forall mem buf prec, room mem buf -> - 2 ^ 15 < prec < 2 ^ 15 -> (Z.to_nat (prec - i) < fuel)%nat ->
  zero_loop fuel mem buf end_ i prec = Ok (store mem buf end_ (replicate (Z.to_nat (prec - i)) 48), buf + Z.of_nat (length (replicate (Z.to_nat (prec - i)) 48))).
Proof.
  intros Hi. induction fuel as [|fuel IH]; intros mem buf prec Hroom Hp Hfuel; [lia|]. cbn [zero_loop]. rewrite s16_small by lia. destruct (i <=? prec - 1) eqn:E.
  - rewrite emit_spec by done. cbn [obind]. pose proof (room_store mem buf [48] Hroom) as Hr. rewrite IH by (done || lia).
    replace (Z.to_nat (prec - i)) with (S (Z.to_nat (prec - 1 - i))) by lia.
    change (replicate (S (Z.to_nat (prec - 1 - i))) 48) with ([48] ++ replicate (Z.to_nat (prec - 1 - i)) 48).
    rewrite store_app, length_app. do 2 f_equal. lia.
  - replace (Z.to_nat (prec - i)) with 0%nat by lia. cbn [replicate store length]. do 2 f_equal. lia.
Qed.

Lemma digits_loop_spec l rest fuel : (length l < fuel)%nat -> forall mem buf, room mem buf ->
  digits_loop fuel mem buf end_ (l ++ rest) (Z.of_nat (length l)) = Ok (store mem buf end_ (reverse l), buf + Z.of_nat (length (reverse l))).
Proof.
  revert rest fuel. induction l as [|c l IH] using rev_ind; intros rest [|fuel] Hfuel mem buf Hroom; try (simpl in Hfuel; lia).
  - simpl. do 2 f_equal. lia.
  - rewrite length_app in *. cbn [length] in *. cbn [digits_loop]. replace (0 <=? Z.of_nat (length l + 1) - 1) with true by lia.
    rewrite (rd_Some _ _ c) by (lia || (rewrite lookup_app_l by (rewrite length_app; simpl; lia); rewrite lookup_app_r by lia; by replace (Z.to_nat (Z.of_nat (length l + 1) - 1) - length l)%nat with 0%nat by lia)).
    cbn [obind]. rewrite emit_spec by done. cbn [obind]. replace (Z.of_nat (length l + 1) - 1) with (Z.of_nat (length l)) by lia. rewrite <- app_assoc.
    rewrite IH by (lia || by apply room_store). rewrite reverse_app, reverse_singleton, store_app. do 2 f_equal. rewrite length_app. lia.
Qed.

End Writing.

(** ** The layout of a number *)

Definition locase_of (spec : printf_spec) : Z := Z.land (flags spec) SMALL.

Definition sign_text (num fl : Z) : list Z :=
  if has SIGN fl then if s64 num <? 0 then [45] else if has PLUS fl then [43] else if has SPACE fl then [32] else [] else [].

Definition magnitude (num fl : Z) : Z := if has SIGN fl && (s64 num <? 0) then - s64 num else num.

Definition prefix_text (spec : printf_spec) (num : Z) : list Z :=
  if has SPECIAL (flags spec) && negb (base spec =? 10) then
    if base spec =? 16 then [48; Z.lor 88 (locase_of spec)] else if num =? 0 then [] else [48]
  else [].

(** The digits, with zeros up to the precision. *)
Definition body_text (spec : printf_spec) (l : list Z) : list Z :=
  replicate (Z.to_nat (precision spec - Z.of_nat (length l))) 48 ++ map (digit_char (locase_of spec)) (reverse l).

(** Sign, prefix and digits, and what is missing to the field width. *)
Definition layout (spec : printf_spec) (num : Z) (l : list Z) : list Z :=
  let sign := sign_text num (flags spec) in
  let pfx := prefix_text spec num in
  let body := body_text spec l in
  let fill c := replicate (Z.to_nat (field_width spec - Z.of_nat (length (sign ++ pfx ++ body)))) c in
  if has LEFT (flags spec) then sign ++ pfx ++ body ++ fill 32
  else if has ZEROPAD (flags spec) then sign ++ pfx ++ fill 48 ++ body
  else fill 32 ++ sign ++ pfx ++ body.

(** A format that [number] can serve: a radix it knows, a width and precision of
    16 bits, and a width that stays above the smallest number of 16 bits when
    the sign, the prefix, the digits and the three steps of the padding loops
    are taken from it. *)
Definition spec_ok (spec : printf_spec) : Prop :=
  0 <= flags spec < 2 ^ 8 /\ (base spec = 8 \/ base spec = 10 \/ base spec = 16) /\ - 2 ^ 15 <= field_width spec < 2 ^ 15 /\
  - 2 ^ 15 <= precision spec < 2 ^ 15 /\ - 2 ^ 15 + 6 <= field_width spec - Z.max (precision spec) 24.

Lemma has_bit fl k : 0 <= k -> has (2 ^ k) fl = Z.testbit fl k.
Proof.
  intros Hk. unfold has. destruct (Z.testbit fl k) eqn:E.
  - apply negb_true_iff, Z.eqb_neq. intros H0. assert (Hb : Z.testbit (Z.land fl (2 ^ k)) k = true) by (by rewrite Z.land_spec, Z.pow2_bits_true, E by lia). by rewrite H0, Z.bits_0 in Hb.
  - apply negb_false_iff, Z.eqb_eq, Z.bits_inj'. intros i Hi. rewrite Z.land_spec, Z.bits_0, Z.pow2_bits_eqb by lia. destruct (k =? i) eqn:Eki; [|by rewrite andb_false_r]. by replace i with k by lia; rewrite E.
Qed.

(** The flags with [ZEROPAD] dropped if [LEFT] is set. *)
Definition eff_flags (fl : Z) : Z := if has LEFT fl then Z.land fl (u8 (Z.lnot ZEROPAD)) else fl.

Lemma eff_flags_bit fl k : 0 <= fl < 2 ^ 8 -> 0 <= k < 8 -> has (2 ^ k) (eff_flags fl) = has (2 ^ k) fl && negb ((k =? 4) && has LEFT fl).
Proof.
  intros Hfl Hk. unfold eff_flags. destruct (has LEFT fl); [|by rewrite andb_false_r, andb_true_r]. rewrite !has_bit, Z.land_spec, andb_true_r by lia. f_equal.
  assert (k = 0 \/ k = 1 \/ k = 2 \/ k = 3 \/ k = 4 \/ k = 5 \/ k = 6 \/ k = 7) as Hc by lia. repeat destruct Hc as [->|Hc]; try done. by subst.
Qed.

Lemma has_either fl : has (Z.lor ZEROPAD LEFT) fl = has ZEROPAD fl || has LEFT fl.
Proof.
  unfold has. rewrite Z.land_lor_distr_r. pose proof (Z.lor_eq_0_iff (Z.land fl ZEROPAD) (Z.land fl LEFT)). lia.
Qed.

Lemma zeropad_char fl : 32 + Z.land fl ZEROPAD = if has ZEROPAD fl then 48 else 32.
Proof.
  change ZEROPAD with (2 ^ 4). rewrite (has_bit fl 4) by lia. assert (Hl : Z.land fl (2 ^ 4) = if Z.testbit fl 4 then 16 else 0); [|rewrite Hl; by destruct (Z.testbit fl 4)].
  apply Z.bits_inj'. intros i Hi. rewrite Z.land_spec, Z.pow2_bits_eqb by lia. destruct (Z.eqb_spec 4 i) as [<-|Hne].
  - by destruct (Z.testbit fl 4).
  - rewrite andb_false_r. destruct (Z.testbit fl 4); [|by rewrite Z.bits_0]. change 16 with (2 ^ 4). rewrite Z.pow2_bits_eqb by lia. lia.
Qed.

Lemma locase_cases spec : locase_of spec = 0 \/ locase_of spec = 32.
Proof.
  unfold locase_of, SMALL. destruct (Z.testbit (flags spec) 5) eqn:E; [right|left]; apply Z.bits_inj'; intros i Hi; change 32 with (2 ^ 5); rewrite Z.land_spec, Z.pow2_bits_eqb by lia;
    destruct (Z.eqb_spec 5 i) as [<-|Hne]; rewrite ?E, ?andb_false_r, ?Z.bits_0; done.
Qed.

Lemma magnitude_range num fl : 0 <= num < 2 ^ 64 -> 0 <= magnitude num fl < 2 ^ 64.
Proof.
  intros Hn. unfold magnitude. destruct (has SIGN fl && (s64 num <? 0)) eqn:E; [|done]. assert (- 2 ^ 63 <= s64 num); [|lia].
  unfold swrap. pose proof (Z.mod_pos_bound (num + 2 ^ (64 - 1)) (2 ^ 64) ltac:(lia)). change (2 ^ (64 - 1)) with (2 ^ 63) in *. lia.
Qed.

Lemma take_sign_spec num fw fl : 0 <= num < 2 ^ 64 -> - 2 ^ 15 < fw < 2 ^ 15 ->
  take_sign num fw fl = (sign_text num fl, magnitude num fl, fw - Z.of_nat (length (sign_text num fl))).
Proof.
  intros Hn Hfw. pose proof (magnitude_range num fl Hn) as Hm. unfold take_sign, sign_text, magnitude in *. destruct (has SIGN fl); [|cbn [length]; do 2 f_equal; lia].
  destruct (s64 num <? 0) eqn:E; cbn [andb] in *; [cbn [length]; rewrite wrap_small, s16_small by lia; done|].
  destruct (has PLUS fl); [rewrite s16_small by lia; done|]. destruct (has SPACE fl); [rewrite s16_small by lia; done|]. cbn [length]. do 2 f_equal. lia.
Qed.

(** The digits in [tmp], in each radix. *)
Lemma number_digits junk num spec : length junk = 24%nat -> 0 <= num < 2 ^ 64 -> spec_ok spec ->
  exists l rest, (if num <? base spec then let* c := rd hex_asc_upper num in let* tmp := wr junk 0 (Z.lor c (locase_of spec)) in Ok (tmp, 1)
                  else if negb (base spec =? 10) then radix_loop 64 junk 0 num (base spec - 1) (if base spec =? 16 then 4 else 3) (locase_of spec)
                  else put_dec junk 0 num) = Ok (map (digit_char (locase_of spec)) l ++ rest, Z.of_nat (length l)) /\
    is_digits (base spec) num l /\ (1 <= length l <= 24)%nat.
Proof.
  intros Hj Hn (_&Hb&_). destruct (num <? base spec) eqn:E.
  { exists [num], (drop 1 junk). rewrite rd_hex by lia. cbn [obind]. rewrite wr_Ok by lia. cbn [obind map length]. split; [|split; [|lia]].
    - do 2 f_equal. destruct junk; [done|]. simpl. by rewrite drop_0.
    - split; [apply Forall_cons; [lia|by apply Forall_nil]|]. split; [cbn [value_lsb foldr]; lia|]. split; [done|by left]. }
  assert (Hradix : forall sh, base spec = 2 ^ sh -> 3 <= sh <= 4 -> exists l rest,
    radix_loop 64 junk 0 num (2 ^ sh - 1) sh (locase_of spec) = Ok (map (digit_char (locase_of spec)) l ++ rest, Z.of_nat (length l)) /\ is_digits (2 ^ sh) num l /\ (1 <= length l <= 24)%nat).
  { intros sh Hsh Hr. destruct (radix_loop_spec sh (locase_of spec) 22 ltac:(lia) 64 [] junk num) as (l&rest&Hrun&Hd&Hlen); [|lia|lia|].
    - split; [lia|]. rewrite <- Z.pow_mul_r by lia. assert (2 ^ 64 <= 2 ^ (sh * Z.of_nat 22)) by (apply Z.pow_le_mono_r; lia). lia.
    - exists l, rest. split; [exact Hrun|]. split; [done|]. destruct Hd as (_&_&Hne&_). destruct l; [done|]. simpl in *. lia. }
  destruct Hb as [Hb|[Hb|Hb]]; rewrite Hb in *; cbn [Z.eqb Pos.eqb negb].
  - apply (Hradix 3); [done|lia].
  - destruct (put_dec_spec junk num Hn Hj) as (l&rest&Hrun&Hd&Hlen). exists l, rest. split; [|split; [done|]].
    + rewrite Hrun. do 2 f_equal. f_equal. apply map_ext_in. intros d Hin. symmetry. apply digit_char_dec; [|apply locase_cases].
      destruct Hd as (Hf&_). rewrite List.Forall_forall in Hf. by apply Hf.
    + destruct Hd as (_&_&Hne&_). destruct l; [done|]. simpl in *. lia.
  - apply (Hradix 4); [done|lia].
Qed.

(** Steps that write compose. *)
Lemma write_step {A} end_ mem buf t (x : A) T o k : room end_ mem buf -> o = Ok (store mem buf end_ t, buf + Z.of_nat (length t), x) ->
  (forall mem' buf', room end_ mem' buf' -> k (mem', buf', x) = Ok (store mem' buf' end_ T, buf' + Z.of_nat (length T))) ->
  obind o k = Ok (store mem buf end_ (t ++ T), buf + Z.of_nat (length (t ++ T))).
Proof.
  intros Hroom -> Hk. cbn [obind]. rewrite Hk by (by apply room_store). rewrite store_app, length_app. do 2 f_equal. lia.
Qed.

Lemma write_step2 end_ mem buf t T o k : room end_ mem buf -> o = Ok (store mem buf end_ t, buf + Z.of_nat (length t)) ->
  (forall mem' buf', room end_ mem' buf' -> k (mem', buf') = Ok (store mem' buf' end_ T, buf' + Z.of_nat (length T))) ->
  obind o k = Ok (store mem buf end_ (t ++ T), buf + Z.of_nat (length (t ++ T))).
Proof.
  intros Hroom -> Hk. cbn [obind]. rewrite Hk by (by apply room_store). rewrite store_app, length_app. do 2 f_equal. lia.
Qed.

Lemma write_nothing end_ mem buf : (Ok (mem, buf) : outcome (list Z * Z)) = Ok (store mem buf end_ [], buf + Z.of_nat (length (@nil Z))).
Proof. simpl. by rewrite Z.add_0_r. Qed.

Definition fill (n c : Z) : list Z := replicate (Z.to_nat n) c.

(** Padding that is done only in one of the modes. *)
Lemma pad_if end_ mem buf (b : bool) c fw : room end_ mem buf -> - 2 ^ 15 < fw < 2 ^ 15 ->
  (if b then pad mem buf end_ c fw else Ok (mem, buf, fw)) =
    Ok (store mem buf end_ (if b then fill fw c else []), buf + Z.of_nat (length (if b then fill fw c else [])), if b then Z.min (fw - 1) (-1) else fw).
Proof. intros Hroom Hfw. destruct b; [by apply pad_spec|]. simpl. by rewrite Z.add_0_r. Qed.

Lemma prefix_emit end_ mem buf spec num : room end_ mem buf ->
  (if has SPECIAL (flags spec) && negb (base spec =? 10) then
     let* (mem, buf) := (if (base spec =? 16) || negb (num =? 0) then emit mem buf end_ 48 else Ok (mem, buf)) in
     if base spec =? 16 then emit mem buf end_ (Z.lor 88 (locase_of spec)) else Ok (mem, buf)
   else Ok (mem, buf)) = Ok (store mem buf end_ (prefix_text spec num), buf + Z.of_nat (length (prefix_text spec num))).
Proof.
  intros Hroom. unfold prefix_text. destruct (has SPECIAL (flags spec) && negb (base spec =? 10)); [|apply write_nothing].
  destruct (base spec =? 16); cbn [orb].
  - apply (write_step2 end_ mem buf [48] [Z.lor 88 (locase_of spec)]); [done|by apply emit_spec|]. intros mem' buf' Hroom'. by apply emit_spec.
  - destruct (num =? 0); cbn [negb]; [cbn [obind]; apply write_nothing|].
    apply (write_step2 end_ mem buf [48] []); [done|by apply emit_spec|]. intros. apply write_nothing.
Qed.

(** The width left after sign and prefix. *)
Lemma prefix_width spec num fw : - 2 ^ 15 + 2 <= fw < 2 ^ 15 ->
  (if has SPECIAL (flags spec) && negb (base spec =? 10) then if base spec =? 16 then s16 (fw - 2) else if negb (num =? 0) then s16 (fw - 1) else fw else fw)
    = fw - Z.of_nat (length (prefix_text spec num)).
Proof.
  intros Hfw. unfold prefix_text. destruct (has SPECIAL (flags spec) && negb (base spec =? 10)); [|cbn [length]; lia].
  destruct (base spec =? 16); [rewrite s16_small by lia; done|]. destruct (num =? 0); cbn [negb length]; [lia|]. rewrite s16_small by lia. done.
Qed.

Lemma sign_length num fl : (length (sign_text num fl) <= 1)%nat.
Proof. unfold sign_text. repeat case_match; simpl; lia. Qed.

Lemma prefix_length spec num : (length (prefix_text spec num) <= 2)%nat.
Proof. unfold prefix_text. repeat case_match; simpl; lia. Qed.

Lemma body_length spec l : (1 <= length l)%nat -> Z.of_nat (length (body_text spec l)) = Z.max (precision spec) (Z.of_nat (length l)).
Proof. intros Hl. unfold body_text. rewrite length_app, length_replicate, length_map, length_reverse. lia. Qed.

Lemma fill_neg n c : n <= 0 -> fill n c = [].
Proof. intros Hn. unfold fill. by replace (Z.to_nat n) with 0%nat by lia. Qed.

(** The three places where the code pads, of which the flags select one. *)
Lemma padding_modes (left zero : bool) fw (sg pfx body : list Z) : fw < 2 ^ 15 ->
  let p1 := negb (zero && negb left || left) in
  let fw1 := if p1 then Z.min (fw - 1) (-1) else fw in
  let fw2 := if negb left then Z.min (fw1 - 1) (-1) else fw1 in
  (if p1 then fill fw 32 else []) ++ sg ++ pfx ++ (if negb left then fill fw1 (if zero && negb left then 48 else 32) else []) ++ body ++ fill fw2 32 =
  if left then sg ++ pfx ++ body ++ fill fw 32 else if zero then sg ++ pfx ++ fill fw 48 ++ body else fill fw 32 ++ sg ++ pfx ++ body.
Proof.
  intros Hfw. destruct left, zero; cbn [negb andb orb app]; [done|done| |].
  - by rewrite (fill_neg (Z.min (fw - 1) (-1)) 32), app_nil_r by lia.
  - rewrite (fill_neg (Z.min (Z.min (fw - 1) (-1) - 1) (-1)) 32), (fill_neg (Z.min (fw - 1) (-1)) 32) by lia. by rewrite app_nil_r.
Qed.

Lemma body_emit end_ mem buf spec l rest : (1 <= length l <= 24)%nat -> - 2 ^ 15 <= precision spec < 2 ^ 15 -> room end_ mem buf -> forall T k,
  (forall mem' buf', room end_ mem' buf' -> k (mem', buf') = Ok (store mem' buf' end_ T, buf' + Z.of_nat (length T))) ->
  (let* (mem, buf) := zero_loop (Z.to_nat (Z.max (precision spec) (Z.of_nat (length l)) - Z.of_nat (length l)) + 1) mem buf end_ (Z.of_nat (length l)) (Z.max (precision spec) (Z.of_nat (length l))) in
   obind (digits_loop (Z.to_nat (Z.of_nat (length l)) + 1) mem buf end_ (map (digit_char (locase_of spec)) l ++ rest) (Z.of_nat (length l))) k) =
  Ok (store mem buf end_ (body_text spec l ++ T), buf + Z.of_nat (length (body_text spec l ++ T))).
Proof.
  intros Hl Hp Hroom T k Hk. unfold body_text. rewrite <- app_assoc.
  replace (Z.to_nat (precision spec - Z.of_nat (length l))) with (Z.to_nat (Z.max (precision spec) (Z.of_nat (length l)) - Z.of_nat (length l))) by lia.
  eapply write_step2; [done|apply zero_loop_spec; [lia|done|lia|lia]|]. intros mem1 buf1 Hroom1. eapply write_step2; [done| |exact Hk].
  pose proof (digits_loop_spec end_ (map (digit_char (locase_of spec)) l) rest (Z.to_nat (Z.of_nat (length l)) + 1)) as Hd. rewrite length_map in Hd.
  rewrite Hd by (lia || done). by rewrite (fmap_reverse (digit_char (locase_of spec)) l : map _ (reverse l) = _).
Qed.

(** [number] prints the layout of the digits of the magnitude. *)
Lemma number_spec junk num spec : length junk = 24%nat -> 0 <= num < 2 ^ 64 -> spec_ok spec ->
  exists l, is_digits (base spec) (magnitude num (flags spec)) l /\ forall mem buf end_, room end_ mem buf ->
    number junk mem buf end_ num spec = Ok (store mem buf end_ (layout spec num l), buf + Z.of_nat (length (layout spec num l))).
Proof.
  intros Hj Hn Hok. pose proof Hok as (Hfl&_&Hw&Hp&Hwp).
  destruct (number_digits junk (magnitude num (flags spec)) spec Hj (magnitude_range num (flags spec) Hn) Hok) as (l&rest&Hdig&Hisd&Hl). exists l. split; [done|].
  intros mem buf end_ Hroom. unfold number. fold (eff_flags (flags spec)) (locase_of spec).
  assert (HS : forall k, 0 <= k < 8 -> k <> 4 -> has (2 ^ k) (eff_flags (flags spec)) = has (2 ^ k) (flags spec)).
  { intros k Hk Hne. rewrite eff_flags_bit by lia. replace (k =? 4) with false by lia. by rewrite andb_true_r. }
  assert (Hsame : sign_text num (eff_flags (flags spec)) = sign_text num (flags spec) /\ magnitude num (eff_flags (flags spec)) = magnitude num (flags spec)).
  { unfold sign_text, magnitude. change SIGN with (2 ^ 0). change PLUS with (2 ^ 2). change SPACE with (2 ^ 3). by rewrite !HS by lia. }
  assert (HL : has LEFT (eff_flags (flags spec)) = has LEFT (flags spec)) by (change LEFT with (2 ^ 1); apply HS; lia).
  assert (HZ : has ZEROPAD (eff_flags (flags spec)) = has ZEROPAD (flags spec) && negb (has LEFT (flags spec))) by (change ZEROPAD with (2 ^ 4); by rewrite eff_flags_bit by lia).
  rewrite take_sign_spec by lia. destruct Hsame as [-> ->]. cbv zeta. pose proof (sign_length num (flags spec)) as Hsl. pose proof (prefix_length spec num) as Hpl.
  rewrite prefix_width by lia. rewrite Hdig. cbn [obind].
  assert (Hprec : (if precision spec <? Z.of_nat (length l) then s16 (Z.of_nat (length l)) else precision spec) = Z.max (precision spec) (Z.of_nat (length l))).
  { case_if; [rewrite s16_small by lia; lia|lia]. }
  rewrite Hprec. clear Hprec. rewrite has_either, zeropad_char, HL, HZ. pose proof (body_length spec l ltac:(lia)) as Hbl. unfold layout.
  rewrite !length_app, !Nat2Z.inj_add, Hbl, s16_small by lia.
  replace (field_width spec - (Z.of_nat (length (sign_text num (flags spec))) + (Z.of_nat (length (prefix_text spec num)) + Z.max (precision spec) (Z.of_nat (length l)))))
    with (field_width spec - Z.of_nat (length (sign_text num (flags spec))) - Z.of_nat (length (prefix_text spec num)) - Z.max (precision spec) (Z.of_nat (length l))) by lia.
  remember (field_width spec - _ - _ - _) as fw eqn:Efw. assert (Hfw : - 2 ^ 15 + 3 <= fw < 2 ^ 15) by lia. clear Efw. fold (fill fw 32) (fill fw 48).
  rewrite <- (padding_modes (has LEFT (flags spec)) (has ZEROPAD (flags spec)) fw) by lia. cbv zeta.
  eapply write_step; [done|apply pad_if; [done|lia]|]. intros mem1 buf1 Hroom1.
  eapply write_step2; [done|destruct (sign_text num (flags spec)) as [|c [|? ?]] eqn:Es; [apply write_nothing|by apply emit_spec|simpl in Hsl; lia]|]. intros mem2 buf2 Hroom2.
  eapply write_step2; [done|by apply prefix_emit|]. intros mem3 buf3 Hroom3.
  eapply write_step; [done|apply pad_if; [done|case_if; lia]|]. intros mem4 buf4 Hroom4.
  apply body_emit; [done|lia|done|]. intros mem5 buf5 Hroom5. rewrite pad_spec; [done|done|]. repeat case_if; lia.
Qed.
