(* ===== verification/BitmapParse.v ===== *)
(** * BitmapParse: bitmaps read from text

    [__bitmap_parse] (hexadecimal chunks) and [__bitmap_parselist] (numbers and
    ranges) of [lib/bitmap.c]. The buffer is the list of its [buflen] characters;
    [None] is a character of user space that [__get_user] fails on. *)

From S2P Require Import Prelude Bits FindBit Bitmap Kstrtox.

(** ** Hexadecimal *)

Definition CHUNKSZ : Z := 32.

Definition fls (x : Z) : Z := if x =? 0 then 0 else Z.log2 x + 1.

Definition hex_to_bin (ch : Z) : Z :=
  if (48 <=? ch) && (ch <=? 57) then ch - 48
  else
    let ch := __tolower ch in
    if (97 <=? ch) && (ch <=? 102) then ch - 97 + 10 else -1.

(** The inner loop: an error, or what is left of the buffer, the last character,
    the chunk and the digits so far. *)
Fixpoint parse_chunk (buf : list (option Z)) (c chunk totaldigits : Z) : Z + (list (option Z) * Z * Z * Z) :=
  match buf with
  | [] => inr ([], c, chunk, totaldigits)
  | None :: _ => inl (- EFAULT)
  | Some c' :: buf =>
    let old_c := c in
    if isspace c' then parse_chunk buf c' chunk totaldigits
    else if negb (totaldigits =? 0) && negb (c' =? 0) && isspace old_c then inl (- EINVAL)
    else if (c' =? 0) || (c' =? 44) then inr (buf, c', chunk, totaldigits)
    else if negb (isxdigit c') then inl (- EINVAL)
    else if negb (Z.land chunk (bnot (shl 1 (CHUNKSZ - 4) - 1)) =? 0) then inl (- EOVERFLOW)
    else parse_chunk buf c' (u32 (Z.lor (Z.shiftl chunk 4) (hex_to_bin c'))) (totaldigits + 1)
  end.

(** Returns the result code and the bitmap. *)
Fixpoint parse_loop (fuel : nat) (buf : list (option Z)) (c : Z) (maskp : list Z) (nmaskbits nchunks nbits totaldigits : Z)
    : outcome (Z * list Z) :=
  match fuel with
  | O => NoFuel
  | S fuel =>
    let ndigits := totaldigits in
    match parse_chunk buf c 0 totaldigits with
    | inl err => Ok (err, maskp)
    | inr (buf, c, chunk, totaldigits) =>
      let again maskp nchunks nbits :=
        if negb (length buf =? 0)%nat && (c =? 44) then parse_loop fuel buf c maskp nmaskbits nchunks nbits totaldigits
        else Ok (0, maskp) in
      if ndigits =? totaldigits then Ok (- EINVAL, maskp)
      else if (nchunks =? 0) && (chunk =? 0) then again maskp nchunks nbits
      else
        let* maskp := __bitmap_shift_left maskp Self CHUNKSZ nmaskbits in
        let* w := rd maskp 0 in
        let* maskp := wr maskp 0 (Z.lor w chunk) in
        let nchunks := nchunks + 1 in
        let nbits := nbits + (if nchunks =? 1 then fls chunk else CHUNKSZ) in
        if nmaskbits <? nbits then Ok (- EOVERFLOW, maskp)
        else again maskp nchunks nbits
    end
  end.

Definition __bitmap_parse (buf : list (option Z)) (maskp : list Z) (nmaskbits : Z) : outcome (Z * list Z) :=
  let* maskp := bitmap_zero false maskp nmaskbits in
  parse_loop (length buf + 1) buf 0 maskp nmaskbits 0 0 0.

(** [access_ok] is the check of the user range. *)
Definition bitmap_parse_user (access_ok : bool) (buf : list (option Z)) (maskp : list Z) (nmaskbits : Z) : outcome (Z * list Z) :=
  if negb access_ok then Ok (- EFAULT, maskp) else __bitmap_parse buf maskp nmaskbits.

(** ** Lists of ranges *)

Record range_state := RangeState { a_ : Z; b_ : Z; at_start : bool; in_range : bool; digits_ : Z }.

(** The inner loop, for one number or range. *)
Fixpoint parse_range (buf : list (option Z)) (c : Z) (st : range_state) (ndigits : Z) : Z + (list (option Z) * Z * range_state) :=
  match buf with
  | [] => inr ([], c, st)
  | None :: _ => inl (- EFAULT)
  | Some c' :: buf =>
    let old_c := c in
    if isspace c' then parse_range buf c' st ndigits
    else if (c' =? 0) || (c' =? 44) then inr (buf, c', st)
    else if negb (digits_ st =? ndigits) && isspace old_c then inl (- EINVAL)
    else if c' =? 45 then
      if at_start st || in_range st then inl (- EINVAL)
      else parse_range buf c' (RangeState (a_ st) 0 true true (digits_ st)) ndigits
    else if negb (isdigit c') then inl (- EINVAL)
    else
      let b := u32 (b_ st * 10 + (c' - 48)) in
      parse_range buf c' (RangeState (if in_range st then a_ st else b) b false (in_range st) (digits_ st + 1)) ndigits
  end.

(** [while (a <= b) { set_bit(a, maskp); a++; }] *)
Fixpoint set_bits (fuel : nat) (maskp : list Z) (a b : Z) : outcome (list Z) :=
  match fuel with
  | O => NoFuel
  | S fuel =>
    if a <=? b then
      let* maskp := __set_bit a maskp in
      set_bits fuel maskp (u32 (a + 1)) b
    else Ok maskp
  end.

Fixpoint parselist_loop (fuel : nat) (buf : list (option Z)) (c : Z) (maskp : list Z) (nmaskbits totaldigits : Z) : outcome (Z * list Z) :=
  match fuel with
  | O => NoFuel
  | S fuel =>
    let ndigits := totaldigits in
    match parse_range buf c (RangeState 0 0 true false totaldigits) ndigits with
    | inl err => Ok (err, maskp)
    | inr (buf, c, st) =>
      let totaldigits := digits_ st in
      let again maskp :=
        if negb (length buf =? 0)%nat && (c =? 44) then parselist_loop fuel buf c maskp nmaskbits totaldigits
        else Ok (0, maskp) in
      if ndigits =? totaldigits then again maskp
      else if at_start st && in_range st then Ok (- EINVAL, maskp)
      else if negb (a_ st <=? b_ st) then Ok (- EINVAL, maskp)
      else if u32 nmaskbits <=? b_ st then Ok (- ERANGE, maskp)
      else
        let* maskp := set_bits (Z.to_nat (b_ st - a_ st + 1) + 1) maskp (a_ st) (b_ st) in
        again maskp
    end
  end.

Definition __bitmap_parselist (buf : list (option Z)) (maskp : list Z) (nmaskbits : Z) : outcome (Z * list Z) :=
  let* maskp := bitmap_zero false maskp nmaskbits in
  parselist_loop (length buf + 1) buf 0 maskp nmaskbits 0.

(** The part of a string before the first newline or its end. *)
Fixpoint line (s : list Z) : outcome (list Z) :=
  match s with
  | [] => Oops
  | c :: s => if (c =? 0) || (c =? 10) then Ok [] else let* l := line s in Ok (c :: l)
  end.

Definition bitmap_parselist (bp : list Z) (maskp : list Z) (nmaskbits : Z) : outcome (Z * list Z) :=
  let* l := line bp in
  __bitmap_parselist (map Some l) maskp nmaskbits.

Definition bitmap_parselist_user (access_ok : bool) (buf : list (option Z)) (maskp : list Z) (nmaskbits : Z) : outcome (Z * list Z) :=
  if negb access_ok then Ok (- EFAULT, maskp) else __bitmap_parselist buf maskp nmaskbits.
