(* ===== verification/BitmapParseFacts.v ===== *)
(** * BitmapParseFacts: the parsers on well-formed text *)

From S2P Require Import Prelude Bits FindBit Bitmap BitmapFacts BitmapMap Kstrtox KstrtoxFacts Vsprintf VsprintfFacts BitmapParse.

(** ** Characters *)

Lemma hex_cases (P : Z -> Prop) : Forall P (seqZ 0 16) -> forall d, 0 <= d < 16 -> P d.
Proof. intros H d Hd. eapply Forall_forall in H; [exact H|]. apply list_elem_of_In, elem_of_seqZ. lia. Qed.

(** Facts about all sixteen digits, by evaluation. *)
Lemma hex_char d : 0 <= d < 16 ->
  isspace (digit_char 32 d) = false /\ (digit_char 32 d =? 0) = false /\ (digit_char 32 d =? 44) = false /\
  isxdigit (digit_char 32 d) = true /\ hex_to_bin (digit_char 32 d) = d.
Proof.
  revert d. apply (hex_cases (fun d => isspace (digit_char 32 d) = false /\ (digit_char 32 d =? 0) = false /\ (digit_char 32 d =? 44) = false /\
    isxdigit (digit_char 32 d) = true /\ hex_to_bin (digit_char 32 d) = d)). change (seqZ 0 16) with [0; 1; 2; 3; 4; 5; 6; 7; 8; 9; 10; 11; 12; 13; 14; 15].
  repeat (apply Forall_cons; [vm_compute; tauto|]). by apply Forall_nil.
Qed.

Lemma dec_char d : 0 <= d < 10 ->
  isspace (chr d) = false /\ (chr d =? 0) = false /\ (chr d =? 44) = false /\ (chr d =? 45) = false /\ isdigit (chr d) = true.
Proof.
  intros Hd. assert (d = 0 \/ d = 1 \/ d = 2 \/ d = 3 \/ d = 4 \/ d = 5 \/ d = 6 \/ d = 7 \/ d = 8 \/ d = 9) as Hc by lia.
  repeat destruct Hc as [->|Hc]; try (vm_compute; tauto). subst. vm_compute. tauto.
Qed.

(** The end of a buffer: perhaps a newline, then the end or a NUL. *)
Inductive ending : list (option Z) -> Prop :=
| ending_nil : ending []
| ending_nul rest : ending (Some 0 :: rest)
| ending_nl rest : ending rest -> ending (Some 10 :: rest).

(** ** Chunks of hexadecimal digits *)

Definition hex_text (ds : list Z) : list (option Z) := map (fun d => Some (digit_char 32 d)) ds.

Lemma numeral_from_nonneg b ds acc : 1 <= b -> Forall (fun d => 0 <= d < b) ds -> 0 <= acc -> acc <= numeral_from b acc ds.
Proof. intros Hb Hf Ha. apply numeral_from_le; [done| |done]. eapply Forall_impl; [|exact Hf]. simpl. lia. Qed.

Lemma parse_chunk_digits ds rest : Forall (fun d => 0 <= d < 16) ds -> forall c chunk td, 0 <= chunk -> 0 <= td -> isspace c = false ->
  numeral_from 16 chunk ds < 2 ^ 32 ->
  exists c', isspace c' = false /\ (ds <> [] -> c' <> 44) /\ parse_chunk (hex_text ds ++ rest) c chunk td = parse_chunk rest c' (numeral_from 16 chunk ds) (td + Z.of_nat (length ds)).
Proof.
  induction 1 as [|d ds Hd Hds IH]; intros c chunk td Hc Htd Hsp Hlim; [exists c; cbn [hex_text map app length]; by rewrite Z.add_0_r|].
  destruct (hex_char d Hd) as (H1&H2&H3&H4&H5). cbn [hex_text map app]. fold (hex_text ds). cbn [parse_chunk]. rewrite H1, H2, H3, H4, H5, Hsp, andb_false_r. cbn [orb negb].
  cbn [numeral_from foldl] in Hlim. fold (numeral_from 16 (chunk * 16 + d) ds) in Hlim. pose proof (numeral_from_nonneg 16 ds (chunk * 16 + d) ltac:(lia) Hds ltac:(lia)) as Hle.
  assert (Hz : Z.land chunk (bnot (shl 1 (CHUNKSZ - 4) - 1)) = 0).
  { change (bnot (shl 1 (CHUNKSZ - 4) - 1)) with (u64 (Z.lnot (2 ^ 28 - 1))). rewrite land_ones_compl, Z.mod_small by lia. lia. }
  rewrite Hz. change (negb (0 =? 0)) with false. cbv iota.
  assert (Hnew : u32 (Z.lor (Z.shiftl chunk 4) d) = chunk * 16 + d).
  { rewrite Z.shiftl_mul_pow2 by lia. change (2 ^ 4) with 16. assert (Hl0 : Z.land (chunk * 16) d = 0).
    { change 16 with (2 ^ 4). apply Z.bits_inj'. intros i Hi. rewrite Z.land_spec, Z.bits_0. destruct (decide (i < 4)); [by rewrite Z.mul_pow2_bits_low|].
      rewrite <- (Z.mod_small d (2 ^ 4)) by lia. rewrite (Z.mod_pow2_bits_high d) by lia. apply andb_false_r. }
    rewrite <- Z.lxor_lor, <- Z.add_nocarry_lxor by done. apply wrap_small. lia. }
  rewrite Hnew. destruct (IH (digit_char 32 d) (chunk * 16 + d) (td + 1)) as (c'&Hc'&Hn'&Hrun); [lia|lia|done|done|]. exists (if decide (ds = []) then digit_char 32 d else c').
  destruct (decide (ds = [])) as [->|Hne].
  - split; [done|]. split; [lia|]. cbn [hex_text map app length numeral_from foldl]. f_equal.
  - split; [done|]. split; [auto|]. rewrite Hrun. f_equal. cbn [length]. lia.
Qed.

Lemma parse_chunk_end tail chunk : ending tail -> forall c td, c <> 44 -> exists rest c', parse_chunk tail c chunk td = inr (rest, c', chunk, td) /\ (c' =? 44) = false.
Proof.
  induction 1 as [|rest|rest He IH]; intros c td Hc.
  - exists [], c. split; [done|lia].
  - exists rest, 0. cbn [parse_chunk]. change (isspace 0) with false. change (0 =? 0) with true. cbn [negb orb]. by rewrite andb_false_r.
  - cbn [parse_chunk]. change (isspace 10) with true. cbv iota. by apply IH.
Qed.

(** ** The value of the chunks *)

Definition chunk_values (dss : list (list Z)) : list Z := map (numeral 16) dss.

(** Chunks of at most eight digits. *)
Definition chunk_ok (ds : list Z) : Prop := Forall (fun d => 0 <= d < 16) ds /\ (1 <= length ds <= 8)%nat.

Lemma numeral_from_bound b ds : 2 <= b -> Forall (fun d => 0 <= d < b) ds -> forall acc, 0 <= acc -> numeral_from b acc ds < (acc + 1) * b ^ Z.of_nat (length ds).
Proof.
  intros Hb Hf. induction Hf as [|d ds Hd Hds IH]; intros acc Ha; [cbn [length numeral_from foldl]; change (Z.of_nat 0) with 0; lia|].
  cbn [numeral_from foldl length]. fold (numeral_from b (acc * b + d) ds). rewrite Nat2Z.inj_succ, Z.pow_succ_r by lia.
  assert (0 <= acc * b) by (apply Z.mul_nonneg_nonneg; lia). eapply Z.lt_le_trans; [apply IH; lia|]. rewrite Z.mul_assoc. apply Z.mul_le_mono_nonneg_r; [apply Z.pow_nonneg; lia|lia].
Qed.

Lemma chunk_value_bound ds : chunk_ok ds -> 0 <= numeral 16 ds < 2 ^ 32.
Proof.
  intros [Hf Hl]. split; [apply (numeral_from_nonneg 16 ds 0); [lia|done|lia]|].
  pose proof (numeral_from_bound 16 ds ltac:(lia) Hf 0 ltac:(lia)) as Hb. unfold numeral. fold (numeral_from 16 0 ds).
  assert (16 ^ Z.of_nat (length ds) <= 16 ^ 8) by (apply Z.pow_le_mono_r; lia). lia.
Qed.

(** The mask holds the number [n] in its first words. *)
Definition holds_number (m : list Z) (lim n : Z) : Prop := words m /\ forall i, 0 <= i < 64 * lim -> bit m i = Z.testbit n i.

(** The bits a number needs. *)
Definition width (n : Z) : Z := if n =? 0 then 0 else Z.log2 n + 1.

Lemma width_le n k : 0 <= n -> 0 <= k -> width n <= k <-> n < 2 ^ k.
Proof.
  intros Hn Hk. unfold width. destruct (n =? 0) eqn:E; [split; intros; [replace n with 0 by lia; apply Z.pow_pos_nonneg; lia|lia]|]. pose proof (Z.log2_lt_pow2 n k ltac:(lia)). lia.
Qed.

Lemma width_shift n v : 0 < n -> 0 <= v < 2 ^ 32 -> width (n * 2 ^ 32 + v) = width n + 32.
Proof.
  intros Hn Hv. unfold width. replace (n * 2 ^ 32 + v =? 0) with false by lia. replace (n =? 0) with false by lia.
  rewrite (Z.log2_unique (n * 2 ^ 32 + v) (Z.log2 n + 32)); [lia|pose proof (Z.log2_nonneg n); lia|].
  pose proof (Z.log2_spec n Hn). pose proof (Z.log2_nonneg n). rewrite <- Z.add_succ_l, !Z.pow_add_r by lia. lia.
Qed.

(** One round: shift by a chunk and fill in the next. *)
Lemma chunk_step m lim n v nmaskbits : holds_number m lim n -> lim = BITS_TO_LONGS nmaskbits -> 0 < nmaskbits <= capacity m -> 0 <= n -> 0 <= v < 2 ^ 32 ->
  exists m', (let* maskp := __bitmap_shift_left m Self CHUNKSZ nmaskbits in let* w := rd maskp 0 in wr maskp 0 (Z.lor w v)) = Ok m' /\
    holds_number m' lim (n * 2 ^ 32 + v) /\ length m' = length m.
Proof.
  intros [Hw Hb] Hlim Hn Hn0 Hv. destruct (longs_bounds nmaskbits) as [Hl0 Hl1]; [lia|].
  destruct (shift_left_spec m Self CHUNKSZ nmaskbits) as (m1&->&Hw1&Hlen1&Hup); [done|done|done|simpl; lia|unfold CHUNKSZ; lia|change (CHUNKSZ / 64) with 0; lia|]. cbn [obind resolve] in *.
  assert (Hc : (0 < length m)%nat) by (unfold capacity in Hn; lia). destruct (rd_word m1 0 Hw1 ltac:(lia)) as (w&->&Hww&Hwb). cbn [obind].
  destruct (wr_word m1 0 (Z.lor w v) Hw1) as (m2&->&Hw2&Hlen2&Hb2); [apply lor_word; [done|unfold is_word; lia]|lia|]. exists m2. split; [done|]. split; [|congruence].
  split; [done|]. intros i Hi. rewrite Hb2 by lia. change (2 ^ 32) with (2 ^ CHUNKSZ).
  assert (Hshift : forall j, 0 <= j < 64 * lim -> bit m1 j = (CHUNKSZ <=? j) && Z.testbit n (j - CHUNKSZ)).
  { intros j Hj. rewrite Hup by lia. rewrite <- Hlim. case_if; [|lia]. destruct (CHUNKSZ <=? j) eqn:E; [|done]. cbn [andb]. apply Hb. unfold CHUNKSZ in *. lia. }
  assert (Hsum : Z.testbit (n * 2 ^ CHUNKSZ + v) i = ((CHUNKSZ <=? i) && Z.testbit n (i - CHUNKSZ)) || Z.testbit v i).
  { assert (Hl : Z.land (n * 2 ^ CHUNKSZ) v = 0).
    { apply Z.bits_inj'. intros j Hj. rewrite Z.land_spec, Z.bits_0. unfold CHUNKSZ. destruct (decide (j < 32)); [by rewrite Z.mul_pow2_bits_low|].
      rewrite <- (Z.mod_small v (2 ^ 32)) by lia. rewrite (Z.mod_pow2_bits_high v) by lia. apply andb_false_r. }
    rewrite Z.add_nocarry_lxor, Z.lxor_lor, Z.lor_spec, Z.mul_pow2_bits by (done || (unfold CHUNKSZ; lia)). f_equal. destruct (CHUNKSZ <=? i) eqn:E; [done|]. apply Z.testbit_neg_r. lia. }
  rewrite Hsum. destruct (i / 64 =? 0) eqn:E.
  - assert (Hi64 : 0 <= i < 64) by (pose proof (Z.div_mod i 64 ltac:(lia)); pose proof (Z.mod_pos_bound i 64 ltac:(lia)); lia).
    rewrite (Z.mod_small i 64), Z.lor_spec, Hwb by lia. replace (64 * 0 + i) with i by lia. by rewrite Hshift.
  - rewrite Hshift by lia. assert (64 <= i) by (pose proof (Z.div_mod i 64 ltac:(lia)); pose proof (Z.mod_pos_bound i 64 ltac:(lia)); lia).
    rewrite <- (Z.mod_small v (2 ^ 32)) by lia. by rewrite Z.mod_pow2_bits_high, orb_false_r by lia.
Qed.

(** A comma before each chunk. *)
Definition hex_chunks (dss : list (list Z)) : list (option Z) := concat (map (fun ds => Some 44 :: hex_text ds) dss).

(** The state of the outer loop after the number [n]. *)
Definition parse_state (m : list Z) (lim n nchunks nbits td : Z) : Prop :=
  holds_number m lim n /\ 0 <= n /\ 0 <= nchunks /\ (nchunks = 0 <-> n = 0) /\ nbits = width n /\ 0 <= td.

(** What a round does once the chunk [v] has been read. *)
Lemma parse_round m lim n nchunks nbits td v nmaskbits (again : list Z -> Z -> Z -> outcome (Z * list Z)) :
  parse_state m lim n nchunks nbits td -> lim = BITS_TO_LONGS nmaskbits -> 0 < nmaskbits <= capacity m -> 0 <= v < 2 ^ 32 -> n * 2 ^ 32 + v < 2 ^ nmaskbits ->
  exists m' nchunks' nbits', length m' = length m /\ (forall td', 0 <= td' -> parse_state m' lim (n * 2 ^ 32 + v) nchunks' nbits' td') /\
    (if (nchunks =? 0) && (v =? 0) then again m nchunks nbits
     else
       let* maskp := __bitmap_shift_left m Self CHUNKSZ nmaskbits in
       let* w := rd maskp 0 in
       let* maskp := wr maskp 0 (Z.lor w v) in
       let nchunks := nchunks + 1 in
       let nbits := nbits + (if nchunks =? 1 then fls v else CHUNKSZ) in
       if nmaskbits <? nbits then Ok (- EOVERFLOW, maskp) else again maskp nchunks nbits) = again m' nchunks' nbits'.
Proof.
  intros (Hm&Hn&Hnc&Hz&Hnb&Htd) Hlim Hcap Hv Hfit. destruct ((nchunks =? 0) && (v =? 0)) eqn:E.
  - exists m, nchunks, nbits. split; [done|]. split; [|done]. intros td' Htd'. replace (n * 2 ^ 32 + v) with n by lia. done.
  - destruct (chunk_step m lim n v nmaskbits Hm Hlim Hcap Hn Hv) as (m'&Hrun&Hm'&Hlen). exists m', (nchunks + 1), (width (n * 2 ^ 32 + v)).
    split; [done|]. assert (Hpos : n * 2 ^ 32 + v <> 0) by (intros H0; assert (n = 0) by lia; lia).
    split; [intros td' Htd'; split; [done|]; split; [lia|]; split; [lia|]; split; [lia|]; done|].
    apply obind_Ok in Hrun as (m1&->&Hrun). apply obind_Ok in Hrun as (w&Hrd&Hwr). cbn [obind]. rewrite Hrd. cbn [obind]. rewrite Hwr. cbn [obind]. cbv zeta.
    assert (Hbits : nbits + (if nchunks + 1 =? 1 then fls v else CHUNKSZ) = width (n * 2 ^ 32 + v)).
    { destruct (nchunks + 1 =? 1) eqn:E1.
      - assert (n = 0) as -> by (apply Hz; lia). rewrite Hnb. unfold fls, width. change (0 =? 0) with true. cbv iota. by rewrite Z.mul_0_l, !Z.add_0_l.
      - rewrite Hnb, width_shift by (done || lia). done. }
    rewrite Hbits. replace (nmaskbits <? width (n * 2 ^ 32 + v)) with false; [done|]. symmetry. apply Z.ltb_ge. apply width_le; lia.
Qed.

Lemma parse_loop_chunks nmaskbits lim tail dss : lim = BITS_TO_LONGS nmaskbits -> 0 < nmaskbits -> ending tail -> Forall chunk_ok dss ->
  forall fuel ds c m n nchunks nbits td, chunk_ok ds -> isspace c = false -> parse_state m lim n nchunks nbits td -> nmaskbits <= capacity m ->
  numeral_from (2 ^ 32) n (chunk_values (ds :: dss)) < 2 ^ nmaskbits -> (length dss < fuel)%nat ->
  exists m', parse_loop fuel (hex_text ds ++ hex_chunks dss ++ tail) c m nmaskbits nchunks nbits td = Ok (0, m') /\
    holds_number m' lim (numeral_from (2 ^ 32) n (chunk_values (ds :: dss))) /\ length m' = length m.
Proof.
  intros Hlim Hpos Htail. induction dss as [|ds2 dss IH]; intros Hdss [|fuel] ds c m n nchunks nbits td Hds Hsp Hst Hcap Hfit Hfuel; try lia.
  - pose proof Hds as [Hdig Hdl]. pose proof (chunk_value_bound ds Hds) as Hv. pose proof Hst as (Hm&Hn&_&_&_&Htd).
    destruct (parse_chunk_digits ds (hex_chunks [] ++ tail) Hdig c 0 td) as (c1&Hsp1&Hn44&Hrun); [lia|done|done|apply Hv|].
    cbn [parse_loop]. rewrite Hrun. cbn [hex_chunks map concat app]. change (numeral_from 16 0 ds) with (numeral 16 ds).
    destruct (parse_chunk_end tail (numeral 16 ds) Htail c1 (td + Z.of_nat (length ds))) as (rest&c2&->&Hc2); [apply Hn44; intros ->; simpl in Hdl; lia|].
    replace (td =? td + Z.of_nat (length ds)) with false by lia.
    destruct (parse_round m lim n nchunks nbits td (numeral 16 ds) nmaskbits (fun m nc nb => if negb (length rest =? 0)%nat && (c2 =? 44) then
      parse_loop fuel rest c2 m nmaskbits nc nb (td + Z.of_nat (length ds)) else Ok (0, m))) as (m'&nc'&nb'&Hlen&Hst'&Hagain); [exact Hst|done|lia|done|exact Hfit|].
    exists m'. split; [etrans; [exact Hagain|by rewrite Hc2, andb_false_r]|]. split; [|done]. by destruct (Hst' 0 ltac:(lia)) as [? _].
  - pose proof Hds as [Hdig Hdl]. pose proof (chunk_value_bound ds Hds) as Hv. pose proof Hst as (Hm&Hn&_&_&_&Htd). apply Forall_cons_1 in Hdss as [Hds2 Hdss].
    destruct (parse_chunk_digits ds (hex_chunks (ds2 :: dss) ++ tail) Hdig c 0 td) as (c1&Hsp1&Hn44&Hrun); [lia|done|done|apply Hv|].
    cbn [parse_loop]. rewrite Hrun. cbn [hex_chunks map concat]. fold (hex_chunks dss). cbn [app parse_chunk]. change (isspace 44) with false. cbv iota.
    rewrite Hsp1, andb_false_r. change ((44 =? 0) || (44 =? 44)) with true. cbv iota. change (numeral_from 16 0 ds) with (numeral 16 ds).
    replace (td =? td + Z.of_nat (length ds)) with false by lia. rewrite <- app_assoc.
    cbn [chunk_values map numeral_from foldl] in Hfit. fold (chunk_values dss) in Hfit. fold (numeral_from (2 ^ 32) ((n * 2 ^ 32 + numeral 16 ds) * 2 ^ 32 + numeral 16 ds2) (chunk_values dss)) in Hfit.
    assert (Hvs : Forall (fun d => 0 <= d < 2 ^ 32) (numeral 16 ds2 :: chunk_values dss)).
    { apply Forall_cons; [by apply chunk_value_bound|]. apply Forall_map. eapply Forall_impl; [|exact Hdss]. intros x. apply chunk_value_bound. }
    pose proof (numeral_from_nonneg (2 ^ 32) _ (n * 2 ^ 32 + numeral 16 ds) ltac:(lia) Hvs ltac:(lia)) as Hle. cbn [numeral_from foldl] in Hle.
    fold (numeral_from (2 ^ 32) ((n * 2 ^ 32 + numeral 16 ds) * 2 ^ 32 + numeral 16 ds2) (chunk_values dss)) in Hle.
    destruct (parse_round m lim n nchunks nbits td (numeral 16 ds) nmaskbits (fun m nc nb => if negb (length (hex_text ds2 ++ hex_chunks dss ++ tail) =? 0)%nat && (44 =? 44) then
      parse_loop fuel (hex_text ds2 ++ hex_chunks dss ++ tail) 44 m nmaskbits nc nb (td + Z.of_nat (length ds)) else Ok (0, m))) as (m'&nc'&nb'&Hlen&Hst'&Hagain); [done|done|lia|done|lia|].
    destruct (IH Hdss fuel ds2 44 m' (n * 2 ^ 32 + numeral 16 ds) nc' nb' (td + Z.of_nat (length ds))) as (m2&Hrun2&Hm2&Hl2); [done|done|apply Hst'; lia|unfold capacity in *; lia|done|simpl in Hfuel; lia|].
    exists m2. split; [|split; [done|congruence]]. etrans; [exact Hagain|]. cbv beta.
    replace (length (hex_text ds2 ++ hex_chunks dss ++ tail) =? 0)%nat with false by (rewrite length_app; unfold hex_text; rewrite length_map; destruct Hds2; lia). exact Hrun2.
Qed.

Lemma bitmap_parse_spec ds dss tail maskp nmaskbits : words maskp -> 0 < nmaskbits <= capacity maskp -> ending tail -> chunk_ok ds -> Forall chunk_ok dss ->
  numeral (2 ^ 32) (chunk_values (ds :: dss)) < 2 ^ nmaskbits ->
  exists m, __bitmap_parse (hex_text ds ++ hex_chunks dss ++ tail) maskp nmaskbits = Ok (0, m) /\ words m /\ length m = length maskp /\
    forall i, 0 <= i < nmaskbits -> bit m i = Z.testbit (numeral (2 ^ 32) (chunk_values (ds :: dss))) i.
Proof.
  intros Hw Hn Htail Hds Hdss Hfit. unfold __bitmap_parse. destruct (longs_bounds nmaskbits) as [Hl0 Hl1]; [lia|].
  destruct (bitmap_zero_spec maskp nmaskbits Hw ltac:(lia)) as (m0&->&Hw0&Hlen0&Hup0). cbn [obind].
  destruct (parse_loop_chunks nmaskbits (BITS_TO_LONGS nmaskbits) tail dss eq_refl ltac:(lia) Htail Hdss (length (hex_text ds ++ hex_chunks dss ++ tail) + 1) ds 0 m0 0 0 0 0) as (m&Hrun&[Hwm Hb]&Hlen); try done.
  - split; [|by split_and!]. split; [done|]. intros i Hi. rewrite Hup0 by lia. rewrite Z.bits_0. case_if; [done|lia].
  - unfold capacity in *. lia.
  - rewrite !length_app. assert (length dss <= length (hex_chunks dss))%nat; [|lia]. clear. induction dss as [|x dss IH]; [done|]. cbn [hex_chunks map concat]. fold (hex_chunks dss). rewrite length_app. cbn [length]. lia.
  - exists m. split; [exact Hrun|]. split; [done|]. split; [congruence|]. intros i Hi. apply Hb. lia.
Qed.
