(* ===== verification/BitmapPrint.v ===== *)
(** * BitmapPrint: the text of a bitmap *)

From S2P Require Import Prelude Bits FindBit Bitmap BitmapFacts BitmapMap Kstrtox KstrtoxFacts Vsprintf VsprintfFacts BitmapParse BitmapParseFacts.

(** ** Numerals *)

Lemma numeral_from_split b ds : forall acc, numeral_from b acc ds = acc * b ^ Z.of_nat (length ds) + numeral b ds.
Proof.
  induction ds as [|d ds IH] using rev_ind; intros acc; [cbn [numeral_from numeral foldl length]; change (Z.of_nat 0) with 0; rewrite Z.pow_0_r; lia|].
  unfold numeral. fold (numeral_from b 0 (ds ++ [d])). rewrite !numeral_from_app, IH, (IH 0). cbn [numeral_from foldl]. rewrite length_app. cbn [length].
  replace (Z.of_nat (length ds + 1)) with (Z.succ (Z.of_nat (length ds))) by lia. rewrite Z.pow_succ_r by lia. ring.
Qed.

Lemma numeral_cons b d ds : numeral b (d :: ds) = d * b ^ Z.of_nat (length ds) + numeral b ds.
Proof. unfold numeral. cbn [foldl]. fold (numeral_from b (0 * b + d) ds). rewrite numeral_from_split. unfold numeral. lia. Qed.

Lemma numeral_reverse b l : numeral b (reverse l) = value_lsb b l.
Proof.
  induction l as [|d l IH]; [done|]. rewrite reverse_cons. unfold numeral. fold (numeral_from b 0 (reverse l ++ [d])). rewrite numeral_from_app.
  fold (numeral b (reverse l)). change (numeral_from b 0 (reverse l)) with (numeral b (reverse l)). rewrite IH. cbn [numeral_from foldl value_lsb foldr]. fold (value_lsb b l). lia.
Qed.

Lemma numeral_zeros b n ds : numeral b (replicate n 0 ++ ds) = numeral b ds.
Proof. induction n as [|n IH]; [done|]. cbn [replicate app]. rewrite numeral_cons, IH. lia. Qed.

(** A number below [b ^ k] has at most [k] digits. *)
Lemma is_digits_length b n l k : 2 <= b -> is_digits b n l -> (1 <= k)%nat -> n < b ^ Z.of_nat k -> (length l <= k)%nat.
Proof.
  intros Hb (Hf&Hv&Hne&Hlast) Hk Hn. destruct Hlast as [Hl|Hlast]; [lia|]. destruct (decide (length l <= k)%nat) as [|Hgt]; [done|exfalso].
  destruct l as [|x l _] using rev_ind; [done|]. rewrite last_snoc in Hlast. apply Forall_app in Hf as [Hf Hx]. apply Forall_cons_1 in Hx as [Hx _].
  rewrite value_lsb_app in Hv. cbn [value_lsb foldr] in Hv. fold (value_lsb b l) in Hv. rewrite length_app in Hgt. cbn [length] in Hgt.
  assert (0 <= value_lsb b l) by (rewrite <- numeral_reverse; apply (numeral_from_nonneg b (reverse l) 0); [lia|by apply Forall_reverse|lia]).
  assert (1 <= x) by (destruct (decide (x = 0)) as [->|]; [done|lia]).
  assert (b ^ Z.of_nat k <= b ^ Z.of_nat (length l)) by (apply Z.pow_le_mono_r; lia). assert (0 < b ^ Z.of_nat (length l)) by (apply Z.pow_pos_nonneg; lia).
  assert (b ^ Z.of_nat (length l) * 1 <= b ^ Z.of_nat (length l) * (x + b * 0)) by (apply Z.mul_le_mono_nonneg_l; lia). lia.
Qed.

(** ** One chunk *)

Definition hex_chars (ds : list Z) : list Z := map (digit_char 32) ds.

Lemma hex_text_chars ds : hex_text ds = map Some (hex_chars ds).
Proof. unfold hex_text, hex_chars. by rewrite map_map. Qed.

Lemma chunk_printed junk val chunksz : length junk = 24%nat -> 1 <= chunksz <= 32 -> 0 <= val < 2 ^ chunksz ->
  exists ds, chunk_ok ds /\ numeral 16 ds = val /\ forall mem buf end_, room end_ mem buf ->
    number junk mem buf end_ val (PrintfSpec (Z.lor SMALL ZEROPAD) 16 ((chunksz + 4 - 1) / 4) 0) = Ok (store mem buf end_ (hex_chars ds), buf + Z.of_nat (length (hex_chars ds))).
Proof.
  intros Hj Hc Hval. assert (Hw : 1 <= (chunksz + 4 - 1) / 4 <= 8 /\ chunksz <= 4 * ((chunksz + 4 - 1) / 4)).
  { pose proof (Z.div_mod (chunksz + 4 - 1) 4 ltac:(lia)). pose proof (Z.mod_pos_bound (chunksz + 4 - 1) 4 ltac:(lia)). lia. }
  remember ((chunksz + 4 - 1) / 4) as fw eqn:Efw. clear Efw.
  assert (H32 : 2 ^ chunksz <= 2 ^ (4 * fw)) by (apply Z.pow_le_mono_r; lia). assert (H64 : 2 ^ chunksz <= 2 ^ 32) by (apply Z.pow_le_mono_r; lia).
  destruct (number_spec junk val (PrintfSpec (Z.lor SMALL ZEROPAD) 16 fw 0) Hj ltac:(lia)) as (l&Hd&Hrun).
  { split; [done|]. split; [auto|]. simpl. lia. }
  change (magnitude val (flags (PrintfSpec (Z.lor SMALL ZEROPAD) 16 fw 0))) with val in Hd. cbn [base] in Hd.
  assert (Hlen : (length l <= Z.to_nat fw)%nat).
  { apply (is_digits_length 16 val l); [lia|done|lia|]. rewrite Z2Nat.id by lia. change 16 with (2 ^ 4). rewrite <- Z.pow_mul_r by lia. lia. }
  destruct Hd as (Hf&Hv&Hne&_). exists (replicate (Z.to_nat fw - length l) 0 ++ reverse l). split; [|split].
  - split; [apply Forall_app; split; [apply Forall_replicate; lia|by apply Forall_reverse]|]. rewrite length_app, length_replicate, length_reverse. destruct l; [done|]. simpl in *. lia.
  - by rewrite numeral_zeros, numeral_reverse.
  - intros mem buf end_ Hroom. rewrite Hrun by done. unfold layout. cbn [flags base field_width precision]. change (sign_text val (Z.lor SMALL ZEROPAD)) with (@nil Z).
    change (prefix_text (PrintfSpec (Z.lor SMALL ZEROPAD) 16 fw 0) val) with (@nil Z). change (has LEFT (Z.lor SMALL ZEROPAD)) with false. change (has ZEROPAD (Z.lor SMALL ZEROPAD)) with true.
    cbv iota. cbn [app]. unfold body_text. cbn [precision]. replace (Z.to_nat (0 - Z.of_nat (length l))) with 0%nat by lia. cbn [replicate app].
    change (locase_of (PrintfSpec (Z.lor SMALL ZEROPAD) 16 fw 0)) with 32. rewrite length_map, length_reverse.
    assert (Htext : replicate (Z.to_nat (fw - Z.of_nat (length l))) 48 ++ map (digit_char 32) (reverse l) = hex_chars (replicate (Z.to_nat fw - length l) 0 ++ reverse l)); [|by rewrite Htext].
    unfold hex_chars. rewrite map_app. f_equal. replace (Z.to_nat (fw - Z.of_nat (length l))) with (Z.to_nat fw - length l)%nat by lia. generalize (Z.to_nat fw - length l)%nat as n. clear. induction n as [|n IH]; [done|]. cbn [replicate map]. by rewrite IH.
Qed.

(** ** All chunks *)

(** The bits [i] to [i + n] of a map, where [i] is a multiple of 32. *)
Lemma chunk_bits map j chunksz : words map -> 0 <= j -> 1 <= chunksz <= 32 -> 32 * j + chunksz <= capacity map ->
  exists w val, rd map (32 * j / 64) = Ok w /\ u32 (Z.land (Z.shiftr w (32 * j mod 64)) (u32 (Z.shiftl 1 chunksz - 1))) = val /\ 0 <= val < 2 ^ chunksz /\
    forall p, 0 <= p -> Z.testbit val p = (p <? chunksz) && bit map (32 * j + p).
Proof.
  intros Hw Hj Hc Hcap. unfold capacity in Hcap. pose proof (bit_eta (32 * j)) as [Heta Hm]. pose proof (Z.div_pos (32 * j) 64 ltac:(lia) ltac:(lia)) as Hq.
  destruct (rd_word map (32 * j / 64) Hw ltac:(lia)) as (w&Hrd&Hww&Hb). exists w. eexists. split; [done|]. split; [reflexivity|].
  assert (Hmod : 32 * j mod 64 <= 32).
  { replace 64 with (32 * 2) by lia. rewrite Zmult_mod_distr_l. pose proof (Z.mod_pos_bound j 2 ltac:(lia)). lia. }
  assert (Hpow : 2 ^ chunksz <= 2 ^ 32) by (apply Z.pow_le_mono_r; lia). assert (0 < 2 ^ chunksz) by (apply Z.pow_pos_nonneg; lia).
  assert (Hmask : u32 (Z.shiftl 1 chunksz - 1) = Z.ones chunksz). { rewrite Z.shiftl_1_l, Z.ones_equiv. unfold Z.pred. apply wrap_small. lia. }
  rewrite Hmask, Z.land_ones by lia. pose proof (Z.mod_pos_bound (Z.shiftr w (32 * j mod 64)) (2 ^ chunksz) ltac:(lia)) as Hr.
  rewrite wrap_small by lia. split; [done|]. intros p Hp. destruct (p <? chunksz) eqn:E; cbn [andb].
  - rewrite Z.mod_pow2_bits_low, Z.shiftr_spec by lia. rewrite Hb by lia. f_equal. lia.
  - apply Z.mod_pow2_bits_high. lia.
Qed.

(** The number whose bits are the first [n] of the map. *)
Definition map_number (map : list Z) (n N : Z) : Prop := 0 <= N < 2 ^ n /\ forall p, 0 <= p -> Z.testbit N p = (p <? n) && bit map p.

Lemma map_number_cons map j chunksz val N : 0 <= j -> 1 <= chunksz <= 32 -> map_number map (32 * j) N -> 0 <= val < 2 ^ chunksz ->
  (forall p, 0 <= p -> Z.testbit val p = (p <? chunksz) && bit map (32 * j + p)) -> map_number map (32 * j + chunksz) (val * (2 ^ 32) ^ j + N).
Proof.
  intros Hj Hc [HN Hb] Hv Hvb. rewrite <- Z.pow_mul_r by lia. assert (0 < 2 ^ (32 * j)) by (apply Z.pow_pos_nonneg; lia). split.
  - split; [assert (0 <= val * 2 ^ (32 * j)) by (apply Z.mul_nonneg_nonneg; lia); lia|]. rewrite Z.add_comm with (n := 32 * j), Z.pow_add_r by lia.
    assert (val * 2 ^ (32 * j) <= (2 ^ chunksz - 1) * 2 ^ (32 * j)) by (apply Z.mul_le_mono_nonneg_r; lia). lia.
  - intros p Hp. assert (Hl : Z.land (val * 2 ^ (32 * j)) N = 0).
    { apply Z.bits_inj'. intros i Hi. rewrite Z.land_spec, Z.bits_0. destruct (decide (i < 32 * j)); [by rewrite Z.mul_pow2_bits_low|].
      rewrite <- (Z.mod_small N (2 ^ (32 * j))) by lia. rewrite (Z.mod_pow2_bits_high N) by lia. apply andb_false_r. }
    rewrite Z.add_nocarry_lxor, Z.lxor_lor, Z.lor_spec, Hb by done. destruct (decide (p < 32 * j)) as [Hlt|Hge].
    + rewrite Z.mul_pow2_bits_low by lia. replace (p <? 32 * j) with true by lia. by replace (p <? 32 * j + chunksz) with true by lia.
    + rewrite Z.mul_pow2_bits, Hvb by lia. replace (p <? 32 * j) with false by lia. rewrite orb_false_r. replace (32 * j + (p - 32 * j)) with p by lia. f_equal. lia.
Qed.

Definition chunk_chars (dss : list (list Z)) : list Z := concat (map (fun ds => 44 :: hex_chars ds) dss).

Lemma chunks_text ds dss : hex_text ds ++ hex_chunks dss = map Some (hex_chars ds ++ chunk_chars dss).
Proof.
  rewrite map_app, <- hex_text_chars. f_equal. unfold hex_chunks, chunk_chars. rewrite concat_map, map_map. f_equal. apply map_ext. intros x. cbn [map]. by rewrite hex_text_chars.
Qed.

Lemma comma_step end_ mem buf (first : bool) T k : room end_ mem buf ->
  (forall mem' buf', room end_ mem' buf' -> k (mem', buf') = Ok (store mem' buf' end_ T, buf' + Z.of_nat (length T))) ->
  obind (if negb first then emit mem buf end_ 44 else Ok (mem, buf)) k =
    Ok (store mem buf end_ ((if first then [] else [44]) ++ T), buf + Z.of_nat (length ((if first then [] else [44]) ++ T))).
Proof. intros Hroom Hk. eapply write_step2; [done| |done]. destruct first; cbn [negb]; [apply write_nothing|by apply emit_spec]. Qed.

(** What one round of the loop prints, and the number it prints. *)
Lemma string_round junk (map : list Z) j chunksz : length junk = 24%nat -> words map -> 0 <= j -> 1 <= chunksz <= 32 -> 32 * j + chunksz <= capacity map ->
  exists ds, chunk_ok ds /\
    (forall N, map_number map (32 * j) N -> map_number map (32 * j + chunksz) (numeral 16 ds * (2 ^ 32) ^ j + N)) /\
    forall fuel (first : bool) end_ mem buf T, room end_ mem buf ->
      (forall mem' buf', room end_ mem' buf' ->
         bitmap_string_loop fuel junk mem' buf' end_ map (32 * j - 32) 32 false = Ok (store mem' buf' end_ T, buf' + Z.of_nat (length T))) ->
      bitmap_string_loop (S fuel) junk mem buf end_ map (32 * j) chunksz first =
        Ok (store mem buf end_ ((if first then [] else [44]) ++ hex_chars ds ++ T), buf + Z.of_nat (length ((if first then [] else [44]) ++ hex_chars ds ++ T))).
Proof.
  intros Hjk Hw Hj Hc Hcap. destruct (chunk_bits map j chunksz Hw Hj Hc Hcap) as (w&val&Hrd&Hval&Hr&Hb).
  destruct (chunk_printed junk val chunksz Hjk Hc Hr) as (ds&Hok&Hnum&Hrun). exists ds. split; [done|]. split.
  - intros N HN. rewrite Hnum. by apply map_number_cons.
  - intros fuel first end_ mem buf T Hroom Hnext. cbn [bitmap_string_loop]. replace (0 <=? 32 * j) with true by lia. cbv zeta. rewrite Hrd. cbn [obind]. rewrite Hval.
    apply comma_step; [done|]. intros mem1 buf1 Hroom1. eapply write_step2; [done|by apply Hrun|]. intros mem2 buf2 Hroom2. by apply Hnext.
Qed.

Lemma string_loop_spec junk (map : list Z) j : length junk = 24%nat -> words map -> forall chunksz, 1 <= chunksz <= 32 -> 32 * Z.of_nat j + chunksz <= capacity map ->
  exists ds dss, chunk_ok ds /\ Forall chunk_ok dss /\ length dss = j /\ map_number map (32 * Z.of_nat j + chunksz) (numeral (2 ^ 32) (chunk_values (ds :: dss))) /\
    forall fuel (first : bool) end_ mem buf, (S j < fuel)%nat -> room end_ mem buf ->
      let T := (if first then [] else [44]) ++ hex_chars ds ++ chunk_chars dss in
      bitmap_string_loop fuel junk mem buf end_ map (32 * Z.of_nat j) chunksz first = Ok (store mem buf end_ T, buf + Z.of_nat (length T)).
Proof.
  intros Hj Hw. induction j as [|j IH]; intros chunksz Hc Hcap.
  - destruct (string_round junk map 0 chunksz Hj Hw ltac:(lia) Hc Hcap) as (ds&Hok&Hnum&Hrun). exists ds, []. split; [done|]. split; [by apply Forall_nil|]. split; [done|]. split.
    + unfold chunk_values. cbn [List.map]. rewrite numeral_cons. apply Hnum. split; [done|]. intros p Hp. rewrite Z.bits_0. by replace (p <? 32 * 0) with false by lia.
    + intros [|[|fuel]] first end_ mem buf Hfuel Hroom; try lia. apply Hrun; [done|]. intros mem' buf' _. cbn [bitmap_string_loop]. change (0 <=? 32 * 0 - 32) with false. cbv iota. apply write_nothing.
  - destruct (string_round junk map (Z.of_nat (S j)) chunksz Hj Hw ltac:(lia) Hc Hcap) as (ds&Hok&Hnum&Hrun).
    destruct (IH 32 ltac:(lia) ltac:(lia)) as (ds'&dss&Hok'&Hoks&Hlen&Hnum'&Hrun'). exists ds, (ds' :: dss). split; [done|]. split; [by apply Forall_cons|]. split; [simpl; lia|]. split.
    + unfold chunk_values in *. cbn [List.map]. cbn [List.map] in Hnum'. rewrite numeral_cons. replace (Z.of_nat (length (numeral 16 ds' :: List.map (numeral 16) dss))) with (Z.of_nat (S j)) by (cbn [length]; rewrite length_map; lia).
      apply Hnum. by replace (32 * Z.of_nat (S j)) with (32 * Z.of_nat j + 32) by lia.
    + intros [|fuel] first end_ mem buf Hfuel Hroom; [lia|]. apply Hrun; [done|]. intros mem' buf' Hroom'. replace (32 * Z.of_nat (S j) - 32) with (32 * Z.of_nat j) by lia.
      apply (Hrun' fuel false end_ mem' buf'); [lia|done].
Qed.

Lemma align32 x : 0 <= x < 2 ^ 31 - 31 -> ALIGN32 x = 32 * ((x + 31) / 32).
Proof.
  intros Hx. unfold ALIGN32. rewrite (s32_small (x + 31)) by lia. rewrite <- Z.ldiff_land. change 31 with (Z.ones 5) at 2. rewrite Z.ldiff_ones_r by lia.
  rewrite Z.shiftr_div_pow2, Z.shiftl_mul_pow2 by lia. change (2 ^ 5) with 32. pose proof (Z.div_mod (x + 31) 32 ltac:(lia)). pose proof (Z.mod_pos_bound (x + 31) 32 ltac:(lia)).
  pose proof (Z.div_pos (x + 31) 32 ltac:(lia) ltac:(lia)). rewrite s32_small by lia. lia.
Qed.

(** The chunks of a bitmap of [nr] bits: the top one has the rest. *)
Lemma chunks_of nr : 0 < nr <= 32767 -> exists j chunksz, nr = 32 * Z.of_nat j + chunksz /\ 1 <= chunksz <= 32 /\ (j <= Z.to_nat (nr / 32))%nat /\
  (if Z.land nr 31 =? 0 then 32 else Z.land nr 31) = chunksz /\ ALIGN32 nr - 32 = 32 * Z.of_nat j.
Proof.
  intros Hnr. rewrite align32 by lia. change 31 with (Z.ones 5) at 1 2. rewrite Z.land_ones by lia. change (2 ^ 5) with 32.
  pose proof (Z.div_mod nr 32 ltac:(lia)) as Hd. pose proof (Z.mod_pos_bound nr 32 ltac:(lia)) as Hm. pose proof (Z.div_pos nr 32 ltac:(lia) ltac:(lia)) as Hq.
  destruct (nr mod 32 =? 0) eqn:E.
  - exists (Z.to_nat (nr / 32 - 1)), 32. replace ((nr + 31) / 32) with (nr / 32); [split_and!; lia|]. apply (Z.div_unique_pos _ _ _ 31); lia.
  - exists (Z.to_nat (nr / 32)), (nr mod 32). replace ((nr + 31) / 32) with (nr / 32 + 1); [split_and!; lia|]. apply (Z.div_unique_pos _ _ _ (nr mod 32 - 1)); lia.
Qed.

(** ["%*pb"]: the chunks of the bitmap, whose number has the bitmap's bits. *)
Lemma bitmap_string_spec junk (map : list Z) nr : length junk = 24%nat -> words map -> 0 < nr <= 32767 -> nr <= capacity map ->
  exists ds dss, chunk_ok ds /\ Forall chunk_ok dss /\ map_number map nr (numeral (2 ^ 32) (chunk_values (ds :: dss))) /\
    forall end_ mem buf, room end_ mem buf -> let T := hex_chars ds ++ chunk_chars dss in
      bitmap_string junk mem buf end_ map nr = Ok (store mem buf end_ T, buf + Z.of_nat (length T)).
Proof.
  intros Hj Hw Hnr Hcap. destruct (chunks_of nr Hnr) as (j&chunksz&Hsum&Hc&Hjl&Hcs&Hi).
  destruct (string_loop_spec junk map j Hj Hw chunksz Hc ltac:(lia)) as (ds&dss&Hok&Hoks&_&Hnum&Hrun).
  exists ds, dss. split; [done|]. split; [done|]. split; [by rewrite Hsum|]. intros end_ mem buf Hroom. unfold bitmap_string. rewrite Z.max_l by lia. cbv zeta. rewrite Hcs, Hi.
  apply (Hrun _ true); [lia|done].
Qed.

(** Printed in hexadecimal and read back, a bitmap is the same. *)
Lemma hex_print_parse junk (map : list Z) nr : length junk = 24%nat -> words map -> 0 < nr <= 32767 -> nr <= capacity map ->
  exists T, (forall end_ mem buf, room end_ mem buf -> bitmap_string junk mem buf end_ map nr = Ok (store mem buf end_ T, buf + Z.of_nat (length T))) /\
    forall tail maskp, ending tail -> words maskp -> nr <= capacity maskp ->
      exists m, __bitmap_parse (List.map Some T ++ tail) maskp nr = Ok (0, m) /\ words m /\ length m = length maskp /\ forall i, 0 <= i < nr -> bit m i = bit map i.
Proof.
  intros Hj Hw Hnr Hcap. destruct (bitmap_string_spec junk map nr Hj Hw Hnr Hcap) as (ds&dss&Hok&Hoks&[HN Hb]&Hrun). exists (hex_chars ds ++ chunk_chars dss). split; [exact Hrun|].
  intros tail maskp Htail Hwm Hcm. destruct (bitmap_parse_spec ds dss tail maskp nr Hwm ltac:(lia) Htail Hok Hoks ltac:(lia)) as (m&Hm&Hwm'&Hlen&Hbits).
  exists m. rewrite <- chunks_text, <- app_assoc. split; [done|]. split; [done|]. split; [done|]. intros i Hi. rewrite Hbits, Hb by lia. by replace (i <? nr) with true by lia.
Qed.
