(* ===== verification/NumberText.v ===== *)
(** * NumberText: printed numbers read back *)

From S2P Require Import Prelude Kstrtox KstrtoxFacts Vsprintf VsprintfFacts BitmapParse BitmapParseFacts BitmapPrint.

Definition locase_ok (locase : Z) : Prop := locase = 0 \/ locase = 32.

(** Facts about all sixteen digits in both cases, by evaluation. *)
Lemma digit_facts locase d : locase_ok locase -> 0 <= d < 16 ->
  digit_value (digit_char locase d) = Some d /\ (digit_char locase d =? 0) = false /\ (digit_char locase d =? 43) = false /\ (digit_char locase d =? 45) = false /\
  isxdigit (digit_char locase d) = true /\ (_tolower (digit_char locase d) =? 120) = false.
Proof.
  intros Hl. revert d. apply (hex_cases (fun d => digit_value (digit_char locase d) = Some d /\ (digit_char locase d =? 0) = false /\ (digit_char locase d =? 43) = false /\
    (digit_char locase d =? 45) = false /\ isxdigit (digit_char locase d) = true /\ (_tolower (digit_char locase d) =? 120) = false)).
  change (seqZ 0 16) with [0; 1; 2; 3; 4; 5; 6; 7; 8; 9; 10; 11; 12; 13; 14; 15].
  destruct Hl as [->| ->]; repeat (apply Forall_cons; [vm_compute; tauto|]); by apply Forall_nil.
Qed.

(** What follows the text of a number: the end of the string, perhaps after a newline. *)
Inductive string_end : list Z -> Prop :=
| end_nul rest : string_end (0 :: rest)
| end_newline rest : string_end (10 :: 0 :: rest).

Definition digit_text (locase : Z) (ds : list Z) : list Z := map (digit_char locase) ds.

Lemma digit_run_text base locase ds tl : locase_ok locase -> 2 <= base <= 16 -> Forall (fun d => 0 <= d < base) ds -> string_end tl ->
  digit_run base (digit_text locase ds ++ tl) = ds.
Proof.
  intros Hl Hb Hds Htl. induction Hds as [|d ds Hd Hds IH]; [by destruct Htl|]. destruct (digit_facts locase d Hl ltac:(lia)) as (Hv&H0&_).
  cbn [digit_text map app digit_run]. rewrite H0, Hv. replace (base <=? d) with false by lia. f_equal. exact IH.
Qed.

(** The text of digits, perhaps after a [0x], denotes their value. *)
Lemma unsigned_digits base p locase pfx ds tl : locase_ok locase -> 2 <= base <= 16 -> Forall (fun d => 0 <= d < base) ds -> ds <> [] -> string_end tl ->
  pfx = [] /\ p = base \/ base = 16 /\ pfx = [48; Z.lor 88 locase] /\ (p = 16 \/ p = 0) \/ base = 8 /\ p = 0 /\ pfx = [] /\ nth 0 ds 0 = 0 ->
  unsigned_text (pfx ++ digit_text locase ds ++ tl) p = (true, numeral base ds).
Proof.
  intros Hl Hb Hds Hne Htl Hp. assert (Hr : radix (pfx ++ digit_text locase ds ++ tl) p = (digit_text locase ds ++ tl, base)).
  { destruct ds as [|d ds]; [done|]. apply Forall_cons_1 in Hds as [Hd Hds]. destruct (digit_facts locase d Hl ltac:(lia)) as (_&_&_&_&Hx&_).
    assert (Hhex : (_tolower (nth 0 (digit_text locase ds ++ tl) 0) =? 120) = false).
    { destruct ds as [|d' ds]; [by destruct Htl|]. apply Forall_cons_1 in Hds as [Hd' _]. apply (digit_facts locase d' Hl ltac:(lia)). }
    unfold radix. destruct Hp as [[-> ->]|[(->&->&Hp)|(->&->&->&Hz)]].
    - cbn [app digit_text map nth]. fold (digit_text locase ds). rewrite Hhex, !andb_false_r. by replace (base =? 0) with false by lia.
    - cbn [app digit_text map nth drop]. rewrite Hx. destruct Hl as [->| ->]; destruct Hp as [->| ->]; done.
    - cbn [nth] in Hz. subst d. cbn [app digit_text map nth]. fold (digit_text locase ds). rewrite Hhex. change (digit_char locase 0) with (Z.lor 48 locase). by destruct Hl as [->| ->]. }
  unfold unsigned_text. rewrite Hr, digit_run_text by done. f_equal. destruct ds as [|d ds]; [done|]. cbn [length Nat.eqb negb andb].
  unfold digit_text. rewrite drop_app_length' by (cbn [map length]; by rewrite length_map). by destruct Htl.
Qed.

(** A format whose output is a number with nothing around it, and a radix to read it with. *)
Definition readable (spec : printf_spec) (p : Z) : Prop :=
  has LEFT (flags spec) = false /\ has SPACE (flags spec) = false /\ (has ZEROPAD (flags spec) = true \/ field_width spec <= 0) /\
  (p = base spec \/ p = 0 /\ has SPECIAL (flags spec) = true /\ base spec <> 10).

Lemma locase_spec spec : locase_ok (locase_of spec).
Proof.
  unfold locase_of, locase_ok. change SMALL with (Z.shiftl 1 5). destruct (Z.testbit (flags spec) 5) eqn:E; [right|left]; apply Z.bits_inj'; intros i Hi;
    rewrite Z.land_spec, Z.shiftl_1_l, Z.pow2_bits_eqb by lia; destruct (Z.eqb_spec 5 i) as [<-|Hne]; rewrite ?E, ?andb_false_r, ?Z.bits_0; try done.
  change 32 with (2 ^ 5). by rewrite Z.pow2_bits_false.
Qed.

Lemma zeros_text locase n : locase_ok locase -> replicate n 48 = digit_text locase (replicate n 0).
Proof. intros Hl. induction n as [|n IH]; [done|]. cbn [replicate digit_text map]. rewrite IH. f_equal. by destruct Hl as [->| ->]. Qed.

Lemma digit_text_app locase l1 l2 : digit_text locase (l1 ++ l2) = digit_text locase l1 ++ digit_text locase l2.
Proof. apply map_app. Qed.

(** The padding of a readable number is zeros before its digits. *)
Lemma layout_digits spec num l p : readable spec p ->
  exists ds, layout spec num l = sign_text num (flags spec) ++ prefix_text spec num ++ digit_text (locase_of spec) (ds ++ reverse l) /\ Forall (fun d => d = 0) ds.
Proof.
  intros (HL&_&Hz&_). pose proof (locase_spec spec) as Hl. unfold layout. rewrite HL. destruct (has ZEROPAD (flags spec)).
  - eexists (replicate _ 0 ++ replicate _ 0). split; [|apply Forall_app; split; by apply Forall_replicate].
    rewrite !digit_text_app, <- app_assoc, <- !(zeros_text (locase_of spec)) by done. reflexivity.
  - exists (replicate (Z.to_nat (precision spec - Z.of_nat (length l))) 0). split; [|by apply Forall_replicate]. destruct Hz as [|Hz]; [done|].
    replace (Z.to_nat (field_width spec - _)) with 0%nat by lia. cbn [replicate app]. rewrite digit_text_app, <- zeros_text by done. reflexivity.
Qed.

Lemma value_zero b l : 1 <= b -> Forall (fun d => 0 <= d < b) l -> 0 <= value_lsb b l /\ (value_lsb b l = 0 -> Forall (fun d => d = 0) l).
Proof.
  intros Hb. induction 1 as [|d l Hd Hl [IH0 IH]]; [by split|]. cbn [value_lsb foldr]. fold (value_lsb b l).
  assert (0 <= value_lsb b l * b) by (apply Z.mul_nonneg_nonneg; lia). split; [lia|]. intros Hz. apply Forall_cons; [lia|]. apply IH.
  assert (value_lsb b l * 1 <= value_lsb b l * b) by (apply Z.mul_le_mono_nonneg_l; lia). lia.
Qed.

Lemma numeral_lead b ds l : Forall (fun d => d = 0) ds -> numeral b (ds ++ l) = numeral b l.
Proof. induction 1 as [|d ds -> _ IH]; [done|]. cbn [app]. rewrite numeral_cons, IH. lia. Qed.

(** Without its sign, a printed number denotes its magnitude. *)
Lemma printed_unsigned spec num l p ds tl : readable spec p -> spec_ok spec -> 0 <= num < 2 ^ 64 -> is_digits (base spec) (magnitude num (flags spec)) l -> Forall (fun d => d = 0) ds -> string_end tl ->
  unsigned_text (prefix_text spec num ++ digit_text (locase_of spec) (ds ++ reverse l) ++ tl) p = (true, magnitude num (flags spec)).
Proof.
  intros (_&_&_&Hp) (_&Hb&_) Hnum (Hf&Hv&Hne&_) Hds Htl. pose proof (locase_spec spec) as Hl.
  assert (Hok : Forall (fun d => 0 <= d < base spec) (ds ++ reverse l)). { apply Forall_app. split; [|by apply Forall_reverse]. eapply Forall_impl; [|exact Hds]. simpl. lia. }
  assert (Hne' : ds ++ reverse l <> []). { intros H. apply app_eq_nil in H as [_ H]. apply Hne. by rewrite <- (reverse_involutive l), H. }
  assert (Hnum' : numeral (base spec) (ds ++ reverse l) = magnitude num (flags spec)) by (by rewrite numeral_lead, numeral_reverse).
  rewrite <- Hnum'. unfold prefix_text. destruct (has SPECIAL (flags spec)) eqn:ES; cbn [andb]; [|apply unsigned_digits; try done; [lia|]; left; destruct Hp as [->|(_&?&_)]; [by split|done]].
  destruct (base spec =? 10) eqn:E10; cbn [negb]; [apply unsigned_digits; try done; [lia|]; left; destruct Hp as [->|(_&_&?)]; [by split|lia]|].
  destruct (base spec =? 16) eqn:E16; [apply unsigned_digits; try done; [lia|]; right; left; split; [lia|]; split; [done|]; destruct Hp as [->|(->&_)]; [left|right]; lia|].
  assert (H8 : base spec = 8) by lia. destruct (num =? 0) eqn:E0.
  - apply unsigned_digits; try done; [lia|]. destruct Hp as [->|(->&_)]; [by left|]. right; right. split; [done|]. split; [done|]. split; [done|].
    assert (Hz : Forall (fun d => d = 0) (ds ++ reverse l)).
    { apply Forall_app. split; [done|]. apply Forall_reverse. apply (value_zero (base spec)); [lia|done|]. rewrite Hv. replace num with 0 by lia. unfold magnitude. by rewrite andb_false_r. }
    destruct Hz as [|d rest -> _]; done.
  - replace (numeral (base spec) (ds ++ reverse l)) with (numeral (base spec) (0 :: ds ++ reverse l)) by (rewrite numeral_cons; lia).
    change ([48] ++ digit_text (locase_of spec) (ds ++ reverse l) ++ tl) with ([] ++ (replicate 1 48 ++ digit_text (locase_of spec) (ds ++ reverse l)) ++ tl).
    rewrite (zeros_text (locase_of spec)), <- digit_text_app by done. apply unsigned_digits; try done; [lia|apply Forall_cons; [lia|done]|].
    destruct Hp as [->|(->&_)]; [by left|]. right; right. by split.
Qed.

(** The first character of a number is not a sign. *)
Lemma no_sign spec num ds l tl : spec_ok spec -> Forall (fun d => 0 <= d < base spec) (ds ++ l) -> ds ++ l <> [] ->
  let c := nth 0 (prefix_text spec num ++ digit_text (locase_of spec) (ds ++ l) ++ tl) 0 in (c =? 43) = false /\ (c =? 45) = false.
Proof.
  intros (_&Hb&_) Hf Hne. unfold prefix_text. destruct (ds ++ l) as [|d l']; [done|]. apply Forall_cons_1 in Hf as [Hd _].
  destruct (digit_facts (locase_of spec) d (locase_spec spec) ltac:(lia)) as (_&_&H43&H45&_). repeat case_match; cbn [app digit_text map nth]; done.
Qed.

Lemma layout_denotes spec num l p tl : readable spec p -> spec_ok spec -> 0 <= num < 2 ^ 64 -> is_digits (base spec) (magnitude num (flags spec)) l -> string_end tl ->
  if has SIGN (flags spec) then signed_text (layout spec num l ++ tl) p = (true, s64 num)
  else unsigned_text (strip_plus (layout spec num l ++ tl)) p = (true, num).
Proof.
  intros Hr Hok Hnum Hl Htl. destruct (layout_digits spec num l p Hr) as (ds&->&Hds). pose proof (printed_unsigned spec num l p ds tl Hr Hok Hnum Hl Hds Htl) as Hu.
  assert (Hns : let c := nth 0 (prefix_text spec num ++ digit_text (locase_of spec) (ds ++ reverse l) ++ tl) 0 in (c =? 43) = false /\ (c =? 45) = false).
  { destruct Hl as (Hf&_&Hne&_). pose proof Hok as (_&Hb&_). apply no_sign; [done| |].
    - apply Forall_app. split; [|by apply Forall_reverse]. eapply Forall_impl; [|exact Hds]. simpl. lia.
    - intros H. apply app_eq_nil in H as [_ H]. apply Hne. by rewrite <- (reverse_involutive l), H. }
  cbv zeta in Hns. destruct Hns as [H43 H45]. rewrite <- !app_assoc. unfold sign_text, magnitude in *. destruct Hr as (_&HS&_). rewrite HS. destruct (has SIGN (flags spec)); cbn [andb app] in *.
  - unfold signed_text. destruct (s64 num <? 0) eqn:E; [cbn [app nth drop]; change (45 =? 45) with true; cbv iota; rewrite drop_0, Hu; f_equal; lia|].
    assert (Hs : s64 num = num). { unfold swrap in *. change (2 ^ (64 - 1)) with (2 ^ 63) in *. destruct (decide (num < 2 ^ 63)); [rewrite Z.mod_small; lia|].
      replace (num + 2 ^ 63) with (num - 2 ^ 63 + 1 * 2 ^ 64) in E by lia. rewrite Z_mod_plus_full, Z.mod_small in E; lia. }
    rewrite Hs. destruct (has PLUS (flags spec)); cbn [app nth].
    + change (43 =? 45) with false. cbv iota. unfold strip_plus. cbn [nth drop]. change (43 =? 43) with true. cbv iota. by rewrite drop_0, Hu.
    + rewrite H45. unfold strip_plus. by rewrite H43.
  - unfold strip_plus. by rewrite H43.
Qed.

(** Printed and read back, a number is the same. *)
Lemma number_text junk num spec p : length junk = 24%nat -> 0 <= num < 2 ^ 64 -> spec_ok spec -> readable spec p ->
  exists T, (forall mem buf end_, room end_ mem buf -> number junk mem buf end_ num spec = Ok (store mem buf end_ T, buf + Z.of_nat (length T))) /\
    forall tl, string_end tl -> Z.of_nat (length (T ++ tl)) < 2 ^ 31 ->
      (if has SIGN (flags spec) then kstrtoll (T ++ tl) p = Ok (0, Some (s64 num)) else kstrtoull (T ++ tl) p = Ok (0, Some num)).
Proof.
  intros Hj Hnum Hok Hr. destruct (number_spec junk num spec Hj Hnum Hok) as (l&Hl&Hrun). exists (layout spec num l). split; [exact Hrun|].
  intros tl Htl Hlen. pose proof (layout_denotes spec num l p tl Hr Hok Hnum Hl Htl) as Hd.
  assert (Hs : c_string (layout spec num l ++ tl)). { split; [|done]. apply elem_of_app. right. destruct Htl; repeat constructor. }
  assert (Hp : radix_ok p). { destruct Hr as (_&_&_&[->|(->&_)]); [right|by left]. destruct Hok as (_&Hb&_). lia. }
  assert (Hrange : - 2 ^ 63 <= s64 num < 2 ^ 63). { unfold swrap. change (2 ^ (64 - 1)) with (2 ^ 63). pose proof (Z.mod_pos_bound (num + 2 ^ 63) (2 ^ 64) ltac:(lia)). lia. }
  destruct (has SIGN (flags spec)).
  - rewrite kstrtoll_spec, Hd by done. unfold verdict. replace (2 ^ 64 <=? Z.abs (s64 num)) with false by lia. cbn [negb]. by replace ((- 2 ^ 63 <=? s64 num) && (s64 num <=? 2 ^ 63 - 1)) with true by lia.
  - rewrite kstrtoull_spec, Hd by done. unfold verdict, ULLONG_MAX. replace (2 ^ 64 <=? Z.abs num) with false by lia. cbn [negb]. by replace ((0 <=? num) && (num <=? _)) with true by lia.
Qed.
