(* ===== verification/BitmapList.v ===== *)
(** * BitmapList: bitmaps as lists of ranges, printed and read *)

From S2P Require Import Prelude Bits FindBit Bitmap BitmapFacts BitmapMap Kstrtox KstrtoxFacts Vsprintf VsprintfFacts BitmapParse BitmapParseFacts BitmapPrint NumberText.

(** ** Decimal numbers *)

Definition dec_chars (ds : list Z) : list Z := map chr ds.

(** [ds] are the decimal digits of [n], the highest first. *)
Definition decimal (n : Z) (ds : list Z) : Prop := Forall (fun d => 0 <= d < 10) ds /\ numeral 10 ds = n /\ ds <> [].

Lemma dec_printed junk n : length junk = 24%nat -> 0 <= n < 2 ^ 64 ->
  exists ds, decimal n ds /\ forall mem buf end_, room end_ mem buf ->
    number junk mem buf end_ n dec_spec = Ok (store mem buf end_ (dec_chars ds), buf + Z.of_nat (length (dec_chars ds))).
Proof.
  intros Hj Hn. destruct (number_spec junk n dec_spec Hj Hn) as (l&(Hf&Hv&Hne&_)&Hrun). { split; [done|]. split; [by auto|]. simpl. split; [lia|done]. }
  change (magnitude n (flags dec_spec)) with n in Hv. cbn [base dec_spec] in *. exists (reverse l). split; [split; [by apply Forall_reverse|split; [by rewrite numeral_reverse|]]|].
  { intros H. apply Hne. by rewrite <- (reverse_involutive l), H. }
  intros mem buf end_ Hroom. rewrite Hrun by done.
  assert (Hl : layout dec_spec n l = dec_chars (reverse l)); [|by rewrite Hl].
  unfold layout. change (sign_text n (flags dec_spec)) with (@nil Z). change (prefix_text dec_spec n) with (@nil Z). change (has LEFT (flags dec_spec)) with false. change (has ZEROPAD (flags dec_spec)) with false.
  cbv iota zeta. unfold body_text. change (locase_of dec_spec) with 0. cbn [precision field_width dec_spec app].
  replace (Z.to_nat (0 - Z.of_nat (length l))) with 0%nat by lia. cbn [replicate app]. rewrite length_map, length_reverse.
  replace (Z.to_nat (0 - Z.of_nat (length l))) with 0%nat by lia. cbn [replicate app]. apply map_ext_in. intros d Hd. apply digit_char_dec; [|by left].
  apply list_elem_of_In in Hd. rewrite elem_of_reverse in Hd. rewrite list.Forall_forall in Hf. by apply Hf.
Qed.

Lemma numeral_from_wrap w ds : forall acc, wrap w (numeral_from 10 (wrap w acc) ds) = wrap w (numeral_from 10 acc ds).
Proof.
  intros acc. rewrite !numeral_from_split. unfold wrap. rewrite Zplus_mod, Zmult_mod_idemp_l, <- Zplus_mod. done.
Qed.

(** The parser computes numbers modulo 2^32. *)
Lemma parse_range_wrap ds rest nd : Forall (fun d => 0 <= d < 10) ds -> forall c a b start inr_ td, isspace c = false -> ds <> [] ->
  exists c', isspace c' = false /\ parse_range (map Some (dec_chars ds) ++ rest) c (RangeState a b start inr_ td) nd =
    parse_range rest c' (RangeState (if inr_ then a else u32 (numeral_from 10 b ds)) (u32 (numeral_from 10 b ds)) false inr_ (td + Z.of_nat (length ds))) nd.
Proof.
  induction 1 as [|d ds Hd Hds IH]; intros c a b start inr_ td Hc Hne; [done|]. destruct (dec_char d Hd) as (Hsp&H0&H44&H45&Hdig).
  cbn [dec_chars map app parse_range digits_ b_ a_ in_range at_start]. fold (dec_chars ds). rewrite Hsp, H0, H44, H45, Hdig, Hc, andb_false_r. cbn [orb negb]. cbv iota zeta.
  replace (b * 10 + (chr d - 48)) with (b * 10 + d) by (unfold chr; lia).
  destruct (decide (ds = [])) as [->|Hn].
  - exists (chr d). split; [done|]. cbn [dec_chars map app numeral_from foldl length]. done.
  - destruct (IH (chr d) (if inr_ then a else u32 (b * 10 + d)) (u32 (b * 10 + d)) false inr_ (td + 1) Hsp Hn) as (c'&Hc'&->). exists c'. split; [done|].
    rewrite numeral_from_wrap. cbn [numeral_from foldl length]. fold (numeral_from 10 (b * 10 + d) ds). f_equal. f_equal; [by destruct inr_|lia].
Qed.

Lemma parse_range_digits ds rest nd : Forall (fun d => 0 <= d < 10) ds -> forall c a start inr_ td, isspace c = false -> numeral 10 ds < 2 ^ 32 -> ds <> [] ->
  exists c', isspace c' = false /\ parse_range (map Some (dec_chars ds) ++ rest) c (RangeState a 0 start inr_ td) nd =
    parse_range rest c' (RangeState (if inr_ then a else numeral 10 ds) (numeral 10 ds) false inr_ (td + Z.of_nat (length ds))) nd.
Proof.
  intros Hds c a start inr_ td Hc Hfit Hne. destruct (parse_range_wrap ds rest nd Hds c a 0 start inr_ td Hc Hne) as (c'&Hc'&Hrun). exists c'. split; [done|]. rewrite Hrun.
  change (numeral_from 10 0 ds) with (numeral 10 ds). pose proof (numeral_from_nonneg 10 ds 0 ltac:(lia) Hds ltac:(lia)) as H0. change (numeral_from 10 0 ds) with (numeral 10 ds) in H0. by rewrite wrap_small by lia.
Qed.

(** ** Ranges *)

(** The text of the range from [b] to [t]. *)
Inductive item_text (b t : Z) : list Z -> Prop :=
| item_one db : b = t -> decimal b db -> item_text b t (dec_chars db)
| item_range db dt : b < t -> decimal b db -> decimal t dt -> item_text b t (dec_chars db ++ 45 :: dec_chars dt).

Lemma item_parse b t txt rest c td : item_text b t txt -> 0 <= b -> t < 2 ^ 32 -> isspace c = false ->
  exists c' n inr_, isspace c' = false /\ 0 < n /\
    parse_range (map Some txt ++ rest) c (RangeState 0 0 true false td) td = parse_range rest c' (RangeState b t false inr_ (td + n)) td.
Proof.
  intros Hi Hb Ht Hc. destruct Hi as [db <- (Hf&Hv&Hne)|db dt Hlt (Hf&Hv&Hne) (Hf'&Hv'&Hne')].
  - destruct (parse_range_digits db rest td Hf c 0 true false td Hc ltac:(lia) Hne) as (c'&Hc'&->).
    exists c', (Z.of_nat (length db)), false. split; [done|]. split; [destruct db; [done|simpl; lia]|]. by rewrite Hv.
  - rewrite map_app, <- app_assoc. cbn [map app].
    destruct (parse_range_digits db (Some 45 :: map Some (dec_chars dt) ++ rest) td Hf c 0 true false td Hc ltac:(lia) Hne) as (c1&Hc1&->).
    destruct (parse_range_digits dt rest td Hf' 45 b true true (td + Z.of_nat (length db)) eq_refl ltac:(lia) Hne') as (c2&Hc2&Hrun).
    exists c2, (Z.of_nat (length db) + Z.of_nat (length dt)), true. split; [done|]. split; [destruct db; [done|simpl; lia]|].
    cbn [parse_range digits_ b_ a_ in_range at_start]. change (isspace 45) with false. rewrite Hc1, andb_false_r. change ((45 =? 0) || (45 =? 44)) with false. change (45 =? 45) with true. cbn [orb]. cbv iota.
    rewrite Hv, Hrun, Hv'. f_equal. f_equal. lia.
Qed.

Lemma range_end tail : ending tail -> forall c st nd, exists rest c', parse_range tail c st nd = inr (rest, c', st) /\ negb (length rest =? 0)%nat && (c' =? 44) = false.
Proof.
  induction 1 as [|rest|rest He IH]; intros c st nd.
  - by exists [], c.
  - exists rest, 0. split; [done|]. by rewrite andb_false_r.
  - cbn [parse_range]. change (isspace 10) with true. cbv iota. apply IH.
Qed.

Lemma set_bits_spec fuel : forall m a b, words m -> 0 <= a -> b < capacity m -> b < 2 ^ 32 - 1 -> (Z.to_nat (b - a + 1) < fuel)%nat ->
  exists m', set_bits fuel m a b = Ok m' /\ words m' /\ length m' = length m /\ forall i, 0 <= i -> bit m' i = (a <=? i) && (i <=? b) || bit m i.
Proof.
  induction fuel as [|fuel IH]; intros m a b Hw Ha Hb Hm Hf; [lia|]. cbn [set_bits]. destruct (a <=? b) eqn:E.
  - destruct (set_bit_spec a m Hw ltac:(lia)) as (m1&->&Hw1&Hl1&Hb1). cbn [obind]. rewrite wrap_small by lia. unfold capacity in *.
    destruct (IH m1 (a + 1) b Hw1 ltac:(lia) ltac:(lia) Hm ltac:(lia)) as (m2&->&Hw2&Hl2&Hb2). exists m2. split; [done|]. split; [done|]. split; [congruence|].
    intros i Hi. rewrite Hb2, Hb1 by done. destruct (i =? a) eqn:E2; [rewrite orb_true_r; by replace ((a <=? i) && (i <=? b)) with true by lia|f_equal; lia].
  - exists m. split; [done|]. split; [done|]. split; [done|]. intros i Hi. by replace ((a <=? i) && (i <=? b)) with false by lia.
Qed.

Definition in_item (i : Z) (it : Z * Z) : bool := (it.1 <=? i) && (i <=? it.2).
Definition rest_text (ts : list (list Z)) : list Z := concat (map (cons 44) ts).

Lemma parselist_items nmaskbits tail its ts : ending tail -> Forall2 (fun it => item_text it.1 it.2) its ts -> forall b t txt, item_text b t txt ->
  Forall (fun it => 0 <= it.1 <= it.2 /\ it.2 < nmaskbits) ((b, t) :: its) -> nmaskbits < 2 ^ 31 -> forall fuel c m td, (length its < fuel)%nat -> isspace c = false -> words m -> nmaskbits <= capacity m -> 
  exists m', parselist_loop fuel (map Some (txt ++ rest_text ts) ++ tail) c m nmaskbits td = Ok (0, m') /\ words m' /\ length m' = length m /\
    forall i, 0 <= i -> bit m' i = existsb (in_item i) ((b, t) :: its) || bit m i.
Proof.
  intros Htail. induction 1 as [|[b' t'] txt' its ts Ht' Hts IH]; intros b t txt Htxt Hits Hn [|fuel] c m td Hfuel Hc Hw Hcap; try (simpl in Hfuel; lia);
    apply Forall_cons_1 in Hits as [[Hbt Htn] Hits]; cbn [fst snd] in *; destruct (set_bits_spec (Z.to_nat (t - b + 1) + 1) m b t Hw ltac:(lia) ltac:(lia) ltac:(lia) ltac:(lia)) as (m1&Hset&Hw1&Hl1&Hb1).
  - cbn [rest_text map concat]. rewrite app_nil_r. destruct (item_parse b t txt tail c td Htxt ltac:(lia) ltac:(lia) Hc) as (c'&n&inr_&Hc'&Hnp&Hrun).
    cbn [parselist_loop]. rewrite Hrun. destruct (range_end tail Htail c' (RangeState b t false inr_ (td + n)) td) as (rest&c2&->&Hstop). cbn [digits_ at_start a_ b_].
    replace (td =? td + n) with false by lia. replace (b <=? t) with true by lia. rewrite wrap_small by lia. replace (nmaskbits <=? t) with false by lia. cbn [andb negb]. cbv iota.
    rewrite Hset. cbn [obind]. rewrite Hstop. exists m1. split; [done|]. split; [done|]. split; [done|]. intros i Hi. rewrite Hb1 by done. cbn [existsb]. by rewrite orb_false_r.
  - cbn [rest_text map concat]. fold (rest_text ts). rewrite !map_app, <- !app_assoc. cbn [map app].
    destruct (item_parse b t txt (Some 44 :: map Some txt' ++ map Some (rest_text ts) ++ tail) c td Htxt ltac:(lia) ltac:(lia) Hc) as (c'&n&inr_&Hc'&Hnp&Hrun).
    cbn [parselist_loop]. rewrite Hrun. cbn [parse_range]. change (isspace 44) with false. change ((44 =? 0) || (44 =? 44)) with true. cbv iota. cbn [digits_ at_start a_ b_].
    replace (td =? td + n) with false by lia. replace (b <=? t) with true by lia. rewrite wrap_small by lia. replace (nmaskbits <=? t) with false by lia. cbn [andb negb]. cbv iota.
    rewrite Hset. cbn [obind]. 
    destruct (IH b' t' txt' Ht' Hits Hn fuel 44 m1 (td + n)) as (m2&Hrun2&Hw2&Hl2&Hb2); [simpl in Hfuel; lia|done|done|unfold capacity in *; lia|].
    rewrite map_app, <- app_assoc in Hrun2. exists m2. split; [|split; [done|split; [congruence|]]].
    + rewrite andb_true_r. destruct (negb _) eqn:E; [exact Hrun2|]. exfalso. apply negb_false_iff, Nat.eqb_eq in E. rewrite length_app, length_map in E.
      destruct Ht' as [db _ (_&_&Hne)|db dt _ (_&_&Hne) _]; destruct db; simpl in E; congruence || lia.
    + intros i Hi. rewrite Hb2, Hb1 by done. cbn [existsb]. by rewrite !orb_assoc, (orb_comm _ (in_item i (b, t))), <- !orb_assoc; cbn [in_item fst snd].
Qed.

(** The text of a whole list, or of what follows its first range. *)
Definition list_text (first : bool) (ts : list (list Z)) : list Z :=
  if first then match ts with [] => [] | t :: ts => t ++ rest_text ts end else rest_text ts.

Lemma parselist_spec its ts tail maskp nmaskbits : ending tail -> Forall2 (fun it => item_text it.1 it.2) its ts -> words maskp -> 0 < nmaskbits <= capacity maskp -> nmaskbits < 2 ^ 31 ->
  Forall (fun it => 0 <= it.1 <= it.2 /\ it.2 < nmaskbits) its ->
  exists m, __bitmap_parselist (map Some (list_text true ts) ++ tail) maskp nmaskbits = Ok (0, m) /\ words m /\ length m = length maskp /\
    forall i, 0 <= i < nmaskbits -> bit m i = existsb (in_item i) its.
Proof.
  intros Htail Hts Hw Hn Hmax Hits. unfold __bitmap_parselist. destruct (longs_bounds nmaskbits) as [Hl0 Hl1]; [lia|].
  destruct (bitmap_zero_spec maskp nmaskbits Hw ltac:(lia)) as (m0&->&Hw0&Hlen0&Hup0). cbn [obind].
  assert (Hz : forall i, 0 <= i < nmaskbits -> bit m0 i = false). { intros i Hi. rewrite Hup0 by lia. case_if; [done|lia]. }
  destruct Hts as [|[b t] txt its ts Ht Hts].
  - cbn [list_text map app]. destruct (range_end tail Htail 0 (RangeState 0 0 true false 0) 0) as (rest&c'&Hrun&Hstop).
    replace (length tail + 1)%nat with (S (length tail)) by lia. cbn [parselist_loop]. rewrite Hrun. cbn [digits_]. change (0 =? 0) with true. cbv iota. rewrite Hstop. exists m0. auto.
  - destruct (parselist_items nmaskbits tail its ts Htail Hts b t txt Ht Hits Hmax (length (map Some (txt ++ rest_text ts) ++ tail) + 1) 0 m0 0) as (m&Hrun&Hwm&Hlm&Hb); [|done|done|unfold capacity in *; lia|].
    + assert (length its <= length (rest_text ts))%nat; [|rewrite !length_app, length_map, length_app; lia].
      clear -Hts. induction Hts as [|it x its ts _ _ IH]; [done|]. cbn [rest_text map concat]. fold (rest_text ts). rewrite length_app. cbn [length]. lia.
    + exists m. split; [exact Hrun|]. split; [done|]. split; [congruence|]. intros i Hi. rewrite Hb, Hz by lia. by rewrite orb_false_r.
Qed.

(** ** Printing *)

Lemma item_printed junk b t : length junk = 24%nat -> 0 <= b <= t -> t < 2 ^ 31 ->
  exists txt, item_text b t txt /\ forall end_ mem buf T k, room end_ mem buf ->
    (forall mem' buf', room end_ mem' buf' -> k (mem', buf') = Ok (store mem' buf' end_ T, buf' + Z.of_nat (length T))) ->
    obind (number junk mem buf end_ b dec_spec) (fun '(mem, buf) =>
      obind (if b <? t then let* (mem, buf) := emit mem buf end_ 45 in number junk mem buf end_ t dec_spec else Ok (mem, buf)) k) =
    Ok (store mem buf end_ (txt ++ T), buf + Z.of_nat (length (txt ++ T))).
Proof.
  intros Hj Hb Ht. destruct (dec_printed junk b Hj ltac:(lia)) as (db&Hdb&Hpb). destruct (dec_printed junk t Hj ltac:(lia)) as (dt&Hdt&Hpt). destruct (b <? t) eqn:E.
  - exists (dec_chars db ++ 45 :: dec_chars dt). split; [apply item_range; [lia|done|done]|]. intros end_ mem buf T k Hroom Hk. rewrite <- app_assoc.
    eapply write_step2; [done|by apply Hpb|]. intros mem1 buf1 Hroom1. cbv beta iota. eapply write_step2; [done| |done].
    change (45 :: dec_chars dt) with ([45] ++ dec_chars dt). eapply write_step2; [done|by apply emit_spec|]. intros mem2 buf2 Hroom2. by apply Hpt.
  - exists (dec_chars db). split; [apply item_one; [lia|done]|]. intros end_ mem buf T k Hroom Hk. eapply write_step2; [done|by apply Hpb|]. intros mem1 buf1 Hroom1. by apply Hk.
Qed.

(** The ranges are those of the set bits from [lo] on. *)
Definition covers (its : list (Z * Z)) (map : list Z) (lo nr : Z) : Prop :=
  Forall (fun it => lo <= it.1 <= it.2 /\ it.2 < nr) its /\ forall i, lo <= i < nr -> existsb (in_item i) its = bit map i.

Lemma covers_below its lo nr i : Forall (fun it => lo <= it.1 <= it.2 /\ it.2 < nr) its -> i < lo -> existsb (in_item i) its = false.
Proof. induction 1 as [|it its Hit _ IH]; intros Hi; [done|]. cbn [existsb]. rewrite IH, orb_false_r by done. unfold in_item. destruct Hit. lia. Qed.

Lemma covers_cons its map lo top cur nr : 0 <= lo <= top -> top < cur -> top < nr -> covers its map cur nr -> (forall i, lo <= i <= top -> bit map i = true) ->
  (forall i, top < i < Z.min cur nr -> bit map i = false) -> covers ((lo, top) :: its) map lo nr.
Proof.
  intros Hlo Htc Htn [Hf Hc] Hset Hclr. split.
  - apply Forall_cons; [simpl; lia|]. eapply Forall_impl; [|exact Hf]. simpl. lia.
  - intros i Hi. cbn [existsb]. unfold in_item at 1. cbn [fst snd]. destruct (decide (i <= top)); [rewrite Hset by lia; by replace ((lo <=? i) && (i <=? top)) with true by lia|].
    replace ((lo <=? i) && (i <=? top)) with false by lia. cbn [orb]. destruct (decide (i < cur)); [|apply Hc; lia]. rewrite Hclr by lia.
    by apply (covers_below its cur nr).
Qed.

Section Printing.

Context (junk map : list Z) (nr : Z).
Hypotheses (Hjunk : length junk = 24%nat) (Hmap : words map) (Hnr : 0 <= nr < 2 ^ 31) (Hcap : nr <= capacity map) (Hmax : capacity map < 2 ^ 63).

(** Between two rounds: the bits from [rbot] to [cur] are set, or there are no more. *)
Definition in_run (rbot cur : Z) : Prop := (rbot = nr /\ cur = nr) \/ (0 <= rbot <= cur /\ cur < nr /\ forall i, rbot <= i <= cur -> bit map i = true).

Lemma list_loop_spec fuel : forall rbot cur, in_run rbot cur -> (Z.to_nat (nr - cur) < fuel)%nat ->
  exists its ts, Forall2 (fun it => item_text it.1 it.2) its ts /\ covers its map rbot nr /\
    forall (first : bool) end_ mem buf, room end_ mem buf ->
      bitmap_list_loop fuel junk mem buf end_ map nr cur rbot first = Ok (store mem buf end_ (list_text first ts), buf + Z.of_nat (length (list_text first ts))).
Proof.
  induction fuel as [|fuel IH]; intros rbot cur Hrun Hfuel; [lia|]. destruct Hrun as [[-> ->]|(Hr&Hcur&Hset)].
  { exists [], []. split; [constructor|]. split; [split; [by apply Forall_nil|lia]|]. intros first end_ mem buf Hroom. cbn [bitmap_list_loop]. rewrite Z.ltb_irrefl.
    replace (list_text first []) with (@nil Z) by (by destruct first). apply write_nothing. }
  cbn [bitmap_list_loop]. replace (cur <? nr) with true by lia. cbv zeta. destruct (find_next_bit_spec map Hmap nr (cur + 1)) as (cur'&->&Hscan); [lia|lia|done|]. cbn [obind].
  destruct ((cur' <? nr) && (cur' <=? cur + 1)) eqn:E.
  - destruct Hscan as [(Hc&Hbit&_)|[-> _]]; [|lia]. apply IH; [|lia]. right. split; [lia|]. split; [lia|]. intros i Hi. destruct (decide (i = cur')) as [->|]; [done|apply Hset; lia].
  - assert (Hnext : in_run cur' cur' /\ cur < cur' <= nr /\ forall i, cur < i < cur' -> bit map i = false).
    { destruct Hscan as [(Hc&Hbit&Hclr)|[-> Hclr]].
      - split; [right; split; [lia|split; [lia|intros i Hi; by replace i with cur' by lia]]|]. split; [lia|]. intros i Hi. apply Hclr. lia.
      - split; [by left|]. split; [lia|]. intros i Hi. apply Hclr. lia. }
    destruct Hnext as (Hin&Hc'&Hclr). destruct (IH cur' cur' Hin ltac:(lia)) as (its&ts&Hts&Hcov&Hnext). destruct (item_printed junk rbot cur Hjunk Hr ltac:(lia)) as (txt&Htxt&Hitem).
    exists ((rbot, cur) :: its), (txt :: ts). split; [by constructor|]. split; [apply (covers_cons _ _ _ _ cur'); try done; try lia; intros i Hi; apply Hclr; lia|].
    intros first end_ mem buf Hroom. replace (list_text first (txt :: ts)) with ((if first then [] else [44]) ++ txt ++ list_text false ts) by (by destruct first).
    apply comma_step; [done|]. intros mem1 buf1 Hroom1. cbv beta iota. apply Hitem; [done|]. intros mem2 buf2 Hroom2. by apply Hnext.
Qed.

Lemma bitmap_list_string_spec :
  exists its ts, Forall2 (fun it => item_text it.1 it.2) its ts /\ covers its map 0 nr /\
    forall end_ mem buf, room end_ mem buf ->
      bitmap_list_string junk mem buf end_ map nr = Ok (store mem buf end_ (list_text true ts), buf + Z.of_nat (length (list_text true ts))).
Proof.
  destruct (find_first_bit_spec map Hmap nr ltac:(lia)) as (cur&Hfind&Hscan).
  assert (Hin : in_run cur cur /\ 0 <= cur <= nr /\ forall i, 0 <= i < cur -> bit map i = false).
  { destruct Hscan as [(Hc&Hbit&Hclr)|[-> Hclr]].
    - split; [right; split; [lia|split; [lia|intros i Hi; by replace i with cur by lia]]|]. split; [lia|done].
    - split; [by left|]. split; [lia|done]. }
  destruct Hin as (Hin&Hc&Hclr). destruct (list_loop_spec (Z.to_nat nr + 1) cur cur Hin ltac:(lia)) as (its&ts&Hts&[Hf Hcov]&Hrun). exists its, ts. split; [done|]. split; [split|].
  - eapply Forall_impl; [|exact Hf]. simpl. lia.
  - intros i Hi. destruct (decide (i < cur)); [|apply Hcov; lia]. rewrite Hclr by lia. by apply (covers_below its cur nr).
  - intros end_ mem buf Hroom. unfold bitmap_list_string. rewrite Z.max_l by lia. cbv zeta. rewrite Hfind. cbn [obind]. by apply Hrun.
Qed.

End Printing.

(** One number alone selects the bit it names modulo 2^32. *)
Lemma parselist_one ds tail maskp nmaskbits : Forall (fun d => 0 <= d < 10) ds -> ds <> [] -> ending tail -> words maskp -> 0 < nmaskbits <= capacity maskp -> nmaskbits < 2 ^ 31 ->
  let n := u32 (numeral 10 ds) in
  exists m, __bitmap_parselist (map Some (dec_chars ds) ++ tail) maskp nmaskbits = Ok (if nmaskbits <=? n then - ERANGE else 0, m) /\ words m /\ length m = length maskp /\
    forall i, 0 <= i < nmaskbits -> bit m i = (i =? n).
Proof.
  intros Hds Hne Htail Hw Hn Hmax n. unfold __bitmap_parselist. destruct (longs_bounds nmaskbits) as [Hl0 Hl1]; [lia|].
  destruct (bitmap_zero_spec maskp nmaskbits Hw ltac:(lia)) as (m0&->&Hw0&Hlen0&Hup0). cbn [obind].
  assert (Hz : forall i, 0 <= i < nmaskbits -> bit m0 i = false). { intros i Hi. rewrite Hup0 by lia. case_if; [done|lia]. }
  destruct (parse_range_wrap ds tail 0 Hds 0 0 0 true false 0 eq_refl Hne) as (c'&_&Hrun). destruct (range_end tail Htail c' (RangeState n n false false (0 + Z.of_nat (length ds))) 0) as (rest&c2&Hend&Hstop).
  replace (_ + 1)%nat with (S (length (map Some (dec_chars ds) ++ tail))) by lia. cbn [parselist_loop]. rewrite Hrun. change (numeral_from 10 0 ds) with (numeral 10 ds). fold n. rewrite Hend. cbn [digits_ at_start a_ b_].
  replace (0 =? 0 + Z.of_nat (length ds)) with false by (destruct ds; [done|simpl; lia]). rewrite Z.leb_refl. cbn [andb negb]. cbv iota. rewrite (wrap_small 32 nmaskbits) by lia.
  pose proof (wrap_range 32 (numeral 10 ds) ltac:(lia)) as Hr. fold n in Hr. destruct (nmaskbits <=? n) eqn:E.
  - exists m0. split; [done|]. split; [done|]. split; [done|]. intros i Hi. rewrite Hz by done. lia.
  - destruct (set_bits_spec (Z.to_nat (n - n + 1) + 1) m0 n n Hw0 ltac:(lia) ltac:(unfold capacity in *; lia) ltac:(lia) ltac:(lia)) as (m1&->&Hw1&Hlm1&Hb1). cbn [obind]. rewrite Hstop.
    exists m1. split; [done|]. split; [done|]. split; [congruence|]. intros i Hi. rewrite Hb1, Hz, orb_false_r by lia. lia.
Qed.

(** ** Strings *)

Definition inline (c : Z) : Prop := (c =? 0) = false /\ (c =? 10) = false.

Lemma line_text t tl : Forall inline t -> string_end tl -> line (t ++ tl) = Ok t.
Proof.
  intros Ht Htl. induction Ht as [|c t [H0 H10] _ IH]; [by destruct Htl|]. cbn [app line]. by rewrite H0, H10, IH.
Qed.

Lemma dec_chars_inline ds : Forall (fun d => 0 <= d < 10) ds -> Forall inline (dec_chars ds).
Proof. intros H. apply Forall_map. eapply Forall_impl; [|exact H]. intros d Hd. cbv beta in Hd. unfold inline, chr. split; lia. Qed.

Lemma list_text_inline its ts first : Forall2 (fun it => item_text it.1 it.2) its ts -> Forall inline (list_text first ts).
Proof.
  intros H. assert (Hi : Forall (Forall inline) ts).
  { induction H as [|[b t] txt its ts Ht _ IH]; [by apply Forall_nil|]. apply Forall_cons; [|done]. cbn [fst snd] in Ht.
    destruct Ht as [db _ (Hf&_)|db dt _ (Hf&_) (Hf'&_)]; [by apply dec_chars_inline|]. apply Forall_app. split; [by apply dec_chars_inline|]. apply Forall_cons; [done|by apply dec_chars_inline]. }
  assert (Hrest : forall l, Forall (Forall inline) l -> Forall inline (rest_text l)).
  { induction 1 as [|t l Ht _ IH]; [by apply Forall_nil|]. cbn [rest_text map concat]. apply Forall_app. split; [by apply Forall_cons|done]. }
  unfold list_text. destruct first; [|by apply Hrest]. destruct Hi as [|t ts' Ht Hts]; [by apply Forall_nil|]. apply Forall_app. auto.
Qed.

(** Printed as a list and read back, a bitmap is the same. *)
Lemma list_print_parse junk (map : list Z) nr : length junk = 24%nat -> words map -> 0 < nr < 2 ^ 31 -> nr <= capacity map -> capacity map < 2 ^ 63 ->
  exists T, (forall end_ mem buf, room end_ mem buf -> bitmap_list_string junk mem buf end_ map nr = Ok (store mem buf end_ T, buf + Z.of_nat (length T))) /\
    forall maskp, words maskp -> nr <= capacity maskp -> exists m, words m /\ length m = length maskp /\ (forall i, 0 <= i < nr -> bit m i = bit map i) /\
      (forall tl, string_end tl -> bitmap_parselist (T ++ tl) maskp nr = Ok (0, m)).
Proof.
  intros Hj Hw Hnr Hcap Hmax. destruct (bitmap_list_string_spec junk map nr Hj Hw ltac:(lia) Hcap Hmax) as (its&ts&Hts&[Hf Hcov]&Hrun). exists (list_text true ts). split; [exact Hrun|].
  intros maskp Hwm Hcm. destruct (parselist_spec its ts [] maskp nr ending_nil Hts Hwm ltac:(lia) ltac:(lia) Hf) as (m&Hm&Hwm'&Hlen&Hb).
  exists m. split; [done|]. split; [done|]. split; [intros i Hi; by rewrite Hb, Hcov by lia|]. intros tl Htl. unfold bitmap_parselist. rewrite line_text by (done || by eapply list_text_inline). by rewrite app_nil_r in Hm.
Qed.
