(* ===== verification/FormatProps.v ===== *)
(** * FormatProps: numbers and bitmaps as text

    What [lib/kstrtox.c] accepts, what [number] of [lib/vsprintf.c] prints, and
    that numbers and bitmaps survive being printed and read back. *)

From S2P Require Import Prelude Bits FindBit Bitmap BitmapFacts BitmapMap Kstrtox KstrtoxFacts Vsprintf VsprintfFacts BitmapParse BitmapParseFacts BitmapPrint NumberText BitmapList.

(** ** Parsing numbers *)

(** C17: Each of the ten checked parsers terminates within its string and answers
    what the string denotes: -EINVAL for a string that is not a numeral of the
    radix with an optional sign and newline, -ERANGE for a value outside of the
    type, and the value else. The minus sign is for the signed types only. *)
Theorem kstrto_correct s base : c_string s -> radix_ok base ->
  let U := unsigned_text (strip_plus s) base in
  let S := signed_text s base in
  kstrtoull s base = Ok (verdict 0 (2 ^ 64 - 1) U) /\ kstrtoll s base = Ok (verdict (- 2 ^ 63) (2 ^ 63 - 1) S) /\
  _kstrtoul s base = Ok (verdict 0 (2 ^ 64 - 1) U) /\ _kstrtol s base = Ok (verdict (- 2 ^ 63) (2 ^ 63 - 1) S) /\
  kstrtouint s base = Ok (verdict 0 (2 ^ 32 - 1) U) /\ kstrtoint s base = Ok (verdict (- 2 ^ 31) (2 ^ 31 - 1) S) /\
  kstrtou16 s base = Ok (verdict 0 (2 ^ 16 - 1) U) /\ kstrtos16 s base = Ok (verdict (- 2 ^ 15) (2 ^ 15 - 1) S) /\
  kstrtou8 s base = Ok (verdict 0 (2 ^ 8 - 1) U) /\ kstrtos8 s base = Ok (verdict (- 2 ^ 7) (2 ^ 7 - 1) S).
Proof.
  intros Hs Hb U S. pose proof (kstrtoull_spec s base Hs Hb) as HU. pose proof (kstrtoll_spec s base Hs Hb) as HS. change ULLONG_MAX with (2 ^ 64 - 1) in HU. fold U in HU. fold S in HS.
  unfold _kstrtoul, _kstrtol, kstrtouint, kstrtoint, kstrtou16, kstrtos16, kstrtou8, kstrtos8. rewrite HU, HS.
  repeat split; (apply narrow_spec; [apply keeps_wrap; lia|lia..]) || (apply narrow_spec; [apply (keeps_swrap 64); lia|lia..]) || (apply narrow_spec; [apply (keeps_swrap 32); lia|lia..])
    || (apply narrow_spec; [apply (keeps_swrap 16); lia|lia..]) || (apply narrow_spec; [apply (keeps_swrap 8); lia|lia..]).
Qed.

(** ["-129"] is a number, but none of eight bits. *)
Lemma kstrto_correct_witness : kstrtos8 [45; 49; 50; 57; 10; 0] 10 = Ok (- ERANGE, None) /\ kstrtos16 [45; 49; 50; 57; 10; 0] 10 = Ok (0, Some (-129)).
Proof.
  pose proof (kstrto_correct [45; 49; 50; 57; 10; 0] 10) as H. destruct H as (_&_&_&_&_&_&_&H16&_&H8); [split; [by repeat constructor|done]|by right|].
  split; [exact H8|exact H16].
Defined.

(** The unsigned parser for a type of [size] bytes: [kstrtou8], [kstrtou16] and
    [kstrtouint] are it for 1, 2 and 4. *)
Definition kstrtou (size : Z) (s : list Z) (base : Z) : outcome (Z * option Z) := narrow (wrap (8 * size)) (kstrtoull s base).

(** A numeral from user space of more than [8 * size + 2] digits is not
    refused: all digits after these are dropped, and the value of the others is
    the result if it fits the type. *)
Theorem kstrto_from_user_truncates size junk ds : 1 <= size <= 8 -> Z.of_nat (length junk) = 1 + size * 8 + 1 + 1 -> Forall (fun d => 0 <= d < 10) ds ->
  size * 8 + 2 < Z.of_nat (length ds) -> numeral 10 (take (Z.to_nat (size * 8 + 2)) ds) < 2 ^ (8 * size) ->
  kstrto_from_user (kstrtou size) size junk (map chr ds) false 10 = Ok (0, Some (numeral 10 (take (Z.to_nat (size * 8 + 2)) ds))).
Proof.
  intros Hs Hj Hds Hlen Hfit. destruct (kstrto_from_user_spec (kstrtou size) size junk (map chr ds) 10 ltac:(lia) Hj) as (pad&->&Hl). rewrite firstn_map in *. set (t := take (Z.to_nat (size * 8 + 2)) ds) in *.
  assert (Ht : Forall (fun d => 0 <= d < 10) t) by (by apply Forall_take). assert (Htl : length t = Z.to_nat (size * 8 + 2)) by (unfold t; rewrite length_take; lia).
  assert (Htext : map chr t = digit_text 0 t). { apply map_ext_in. intros d Hd. symmetry. apply digit_char_dec; [|by left]. apply list_elem_of_In in Hd. rewrite list.Forall_forall in Ht. by apply Ht. }
  assert (H64 : 2 ^ (8 * size) <= 2 ^ 64) by (apply Z.pow_le_mono_r; lia). pose proof (numeral_from_nonneg 10 t 0 ltac:(lia) Ht ltac:(lia)) as H0. change (numeral_from 10 0 t) with (numeral 10 t) in H0.
  unfold kstrtou. rewrite Htext in *. rewrite kstrtoull_spec; [|split; [apply elem_of_app; right; constructor|lia]|by right].
  assert (Hne : t <> []) by (intros ->; simpl in Htl; lia). assert (Hu : unsigned_text (digit_text 0 t ++ 0 :: pad) 10 = (true, numeral 10 t)).
  { apply (unsigned_digits 10 10 0 []); try done; [by left|constructor|by left]. }
  assert (Hp : strip_plus (digit_text 0 t ++ 0 :: pad) = digit_text 0 t ++ 0 :: pad).
  { unfold strip_plus. destruct Ht as [|d t Hd _]; [done|]. cbn [digit_text map app nth]. destruct (digit_facts 0 d (or_introl eq_refl) ltac:(lia)) as (_&_&H43&_). by rewrite H43. }
  rewrite Hp, Hu. rewrite (narrow_spec (wrap (8 * size)) 0 (2 ^ (8 * size) - 1)); [|apply keeps_wrap; lia|lia|unfold ULLONG_MAX; lia].
  unfold verdict. replace (2 ^ 64 <=? Z.abs (numeral 10 t)) with false by lia. cbn [negb]. by replace (_ && _) with true by lia.
Qed.

(** ["00000000012"] is read as 1. *)
Lemma kstrto_from_user_truncates_witness : kstrto_from_user kstrtou8 1 (replicate 11 0) (map chr [0; 0; 0; 0; 0; 0; 0; 0; 0; 1; 2]) false 10 = Ok (0, Some 1).
Proof. apply (kstrto_from_user_truncates 1 (replicate 11 0) [0; 0; 0; 0; 0; 0; 0; 0; 0; 1; 2]); [done|done|repeat constructor; lia|done|done]. Defined.

(** ** Printing numbers *)

(** C18: For every 64-bit number, every set of flags, radix 8, 10 or 16, and every
    16-bit field width and precision with [field_width - max (precision, 24)] at
    least -32762, so that the width does not wrap around while it is counted down,
    [number] prints the canonical digits of the number's magnitude with sign,
    prefix, zeros and padding laid out as the flags ask. It returns the position
    after the whole text, and changes exactly the bytes of the text that lie below
    [end]. Below that bound the width can wrap, and spaces are printed that the
    format does not ask for. *)
Theorem number_correct junk num spec : length junk = 24%nat -> 0 <= num < 2 ^ 64 -> spec_ok spec ->
  exists l, is_digits (base spec) (magnitude num (flags spec)) l /\ let T := layout spec num l in
    forall mem buf end_, room end_ mem buf -> exists mem', number junk mem buf end_ num spec = Ok (mem', buf + Z.of_nat (length T)) /\
      forall p : nat, mem' !! p = if (buf <=? Z.of_nat p) && (Z.of_nat p <? end_) && (Z.of_nat p <? buf + Z.of_nat (length T)) then T !! (p - Z.to_nat buf)%nat else mem !! p.
Proof.
  intros Hj Hn Hok. destruct (number_spec junk num spec Hj Hn Hok) as (l&Hl&Hrun). exists l. split; [done|]. cbv zeta. intros mem buf end_ Hroom.
  eexists. split; [by apply Hrun|]. intros p. destruct Hroom. by apply store_lookup.
Qed.

(** ["%#06x"] of 0xbee, in a buffer of five bytes. *)
Lemma number_correct_witness : exists l, is_digits 16 3054 l /\
  exists mem', number (replicate 24 0) [1; 1; 1; 1; 1] 0 5 3054 (PrintfSpec (Z.lor SMALL (Z.lor SPECIAL ZEROPAD)) 16 6 0) = Ok (mem', 6).
Proof.
  destruct (number_correct (replicate 24 0) 3054 (PrintfSpec (Z.lor SMALL (Z.lor SPECIAL ZEROPAD)) 16 6 0)) as (l&Hl&Hrun); [done|lia|split; [done|split; [auto|done]]|]. exists l. split; [exact Hl|].
  destruct (Hrun [1; 1; 1; 1; 1] 0 5) as (mem'&_&_); [done|]. by eexists.
Defined.

(** C19: Every 64-bit number, signed or not, printed in any radix with any sign,
    prefix and zero padding by a format whose width does not wrap around, is read back from the output by [kstrtoll] or
    [kstrtoull], given the radix or left to detect it from the prefix. *)
Theorem number_kstrto_roundtrip junk num spec p : length junk = 24%nat -> 0 <= num < 2 ^ 64 -> spec_ok spec -> readable spec p ->
  exists T, (forall mem buf end_, room end_ mem buf -> number junk mem buf end_ num spec = Ok (store mem buf end_ T, buf + Z.of_nat (length T))) /\
    forall tl, string_end tl -> Z.of_nat (length (T ++ tl)) < 2 ^ 31 ->
      (if has SIGN (flags spec) then kstrtoll (T ++ tl) p = Ok (0, Some (s64 num)) else kstrtoull (T ++ tl) p = Ok (0, Some num)).
Proof. apply number_text. Qed.

(** ["%#o"] read with radix 0. *)
Lemma number_kstrto_roundtrip_witness : exists T, (forall mem buf end_, room end_ mem buf ->
    number (replicate 24 0) mem buf end_ 511 (PrintfSpec SPECIAL 8 (-1) (-1)) = Ok (store mem buf end_ T, buf + Z.of_nat (length T))) /\
  forall tl, string_end tl -> Z.of_nat (length (T ++ tl)) < 2 ^ 31 -> kstrtoull (T ++ tl) 0 = Ok (0, Some 511).
Proof. apply (number_kstrto_roundtrip (replicate 24 0) 511 (PrintfSpec SPECIAL 8 (-1) (-1)) 0); [done|lia|split; [done|split; [auto|done]]|]. split; [done|]. split; [done|]. split; [by right|by right]. Defined.

(** ** Bitmaps *)

(** C20: The output of the format [%*pb] for a bitmap, read by [__bitmap_parse]
    as the whole of the buffer or up to a NUL or newline, gives the bitmap back,
    whatever the destination held. *)
Theorem bitmap_hex_roundtrip junk (map : list Z) nr : length junk = 24%nat -> words map -> 0 < nr <= 32767 -> nr <= capacity map ->
  exists T, (forall end_ mem buf, room end_ mem buf -> bitmap_string junk mem buf end_ map nr = Ok (store mem buf end_ T, buf + Z.of_nat (length T))) /\
    forall tail maskp, ending tail -> words maskp -> nr <= capacity maskp ->
      exists m, __bitmap_parse (List.map Some T ++ tail) maskp nr = Ok (0, m) /\ words m /\ length m = length maskp /\ forall i, 0 <= i < nr -> bit m i = bit map i.
Proof. apply hex_print_parse. Qed.

Lemma bitmap_hex_roundtrip_witness : exists T, (forall end_ mem buf, room end_ mem buf ->
    bitmap_string (replicate 24 0) mem buf end_ [2 ^ 63 + 5; 2] 70 = Ok (store mem buf end_ T, buf + Z.of_nat (length T))) /\
  exists m, __bitmap_parse (List.map Some T ++ [Some 10]) [7; 7] 70 = Ok (0, m) /\ forall i, 0 <= i < 70 -> bit m i = bit [2 ^ 63 + 5; 2] i.
Proof.
  destruct (bitmap_hex_roundtrip (replicate 24 0) [2 ^ 63 + 5; 2] 70) as (T&HT&Hp); [done|by repeat constructor|lia|done|]. exists T. split; [exact HT|].
  destruct (Hp [Some 10] [7; 7]) as (m&Hm&_&_&Hb); [repeat constructor|by repeat constructor|done|]. exists m. split; [exact Hm|exact Hb].
Defined.

(** C21: The output of the format [%*pbl] for a bitmap, read by
    [bitmap_parselist] from a string up to its end or a newline, gives the bitmap
    back, whatever the destination held. *)
Theorem bitmap_list_roundtrip junk (map : list Z) nr : length junk = 24%nat -> words map -> 0 < nr < 2 ^ 31 -> nr <= capacity map -> capacity map < 2 ^ 63 ->
  exists T, (forall end_ mem buf, room end_ mem buf -> bitmap_list_string junk mem buf end_ map nr = Ok (store mem buf end_ T, buf + Z.of_nat (length T))) /\
    forall maskp, words maskp -> nr <= capacity maskp -> exists m, words m /\ length m = length maskp /\ (forall i, 0 <= i < nr -> bit m i = bit map i) /\
      (forall tl, string_end tl -> bitmap_parselist (T ++ tl) maskp nr = Ok (0, m)).
Proof. apply list_print_parse. Qed.

Lemma bitmap_list_roundtrip_witness : exists T, (forall end_ mem buf, room end_ mem buf ->
    bitmap_list_string (replicate 24 0) mem buf end_ [2 ^ 63 + 7; 3] 70 = Ok (store mem buf end_ T, buf + Z.of_nat (length T))) /\
  exists m, bitmap_parselist (T ++ [10; 0]) [9; 9] 70 = Ok (0, m) /\ forall i, 0 <= i < 70 -> bit m i = bit [2 ^ 63 + 7; 3] i.
Proof.
  destruct (bitmap_list_roundtrip (replicate 24 0) [2 ^ 63 + 7; 3] 70) as (T&HT&Hp); [done|by repeat constructor|lia|done|done|]. exists T. split; [exact HT|].
  destruct (Hp [9; 9]) as (m&_&_&Hb&Hm); [by repeat constructor|done|]. exists m. split; [apply Hm; constructor|exact Hb].
Defined.

(** A number alone makes [__bitmap_parselist] set the bit it names modulo
    2^32, and -ERANGE depends on that residue only, so a number of 2^32 or more
    can be accepted. *)
Theorem bitmap_parselist_wraps ds tail maskp nmaskbits : Forall (fun d => 0 <= d < 10) ds -> ds <> [] -> ending tail -> words maskp -> 0 < nmaskbits <= capacity maskp -> nmaskbits < 2 ^ 31 ->
  let n := u32 (numeral 10 ds) in
  exists m, __bitmap_parselist (map Some (map chr ds) ++ tail) maskp nmaskbits = Ok (if nmaskbits <=? n then - ERANGE else 0, m) /\ words m /\ length m = length maskp /\
    forall i, 0 <= i < nmaskbits -> bit m i = (i =? n).
Proof. apply parselist_one. Qed.

(** ["4294967299"] sets bit 3 of 64. *)
Lemma bitmap_parselist_wraps_witness : exists m, __bitmap_parselist (map Some (map chr [4; 2; 9; 4; 9; 6; 7; 2; 9; 9]) ++ []) [0] 64 = Ok (0, m) /\ bit m 3 = true.
Proof.
  destruct (bitmap_parselist_wraps [4; 2; 9; 4; 9; 6; 7; 2; 9; 9] [] [0] 64) as (m&Hm&_&_&Hb); [repeat constructor; lia|done|constructor|by repeat constructor|done|done|].
  exists m. split; [exact Hm|]. rewrite Hb by lia. reflexivity.
Defined.
