(* ===== verification/Semaphore.v ===== *)
(** * Semaphore: counting semaphores

    [kernel/locking/semaphore.c]. A task waits in at most one [__down_common], so
    the [semaphore_waiter] on its stack is named by the task. The spinlock makes
    everything between its acquisition and its release one step; a call of
    [down] that has to wait is one step up to [schedule_timeout], and one more for
    each time the task is scheduled again. Signals, expiring timers and wake-ups
    by others come from the environment. *)

From stdpp Require Import gmap relations.
From S2P Require Import Prelude.

Definition EINTR : Z := 4.
Definition ETIME : Z := 62.

Definition TASK_INTERRUPTIBLE : Z := 1.
Definition TASK_UNINTERRUPTIBLE : Z := 2.
Definition TASK_WAKEKILL : Z := 128.
Definition TASK_KILLABLE : Z := Z.lor TASK_WAKEKILL TASK_UNINTERRUPTIBLE.
Definition MAX_SCHEDULE_TIMEOUT : Z := 2 ^ 63 - 1.

(** The waiter on the stack of a task, with the local variables of its
    [__down_common] and whether the task's state is [TASK_RUNNING]. *)
Record semaphore_waiter := Waiter { w_up : bool; w_state : Z; w_timeout : Z; w_running : bool }.

(** The semaphore, and the waiters that exist. *)
Record semaphore := Sem { count : Z; wait_list : list Z; waiters : gmap Z semaphore_waiter }.

Definition sema_init (val : Z) : semaphore := Sem (u32 val) [] ∅.

(** The signals a task sees: whether one is pending, and whether a fatal one is. *)
Record signals := Signals { pending : bool; fatal : bool }.

Definition signal_pending_state (state : Z) (p : signals) : bool :=
  if Z.land state (Z.lor TASK_INTERRUPTIBLE TASK_WAKEKILL) =? 0 then false
  else if negb (pending p) then false
  else negb (Z.land state TASK_INTERRUPTIBLE =? 0) || fatal p.

(** The value returned by [schedule_timeout] when [elapsed] jiffies have passed. *)
Definition schedule_timeout (timeout elapsed : Z) : Z :=
  let timeout := if timeout =? MAX_SCHEDULE_TIMEOUT then timeout else if timeout <? 0 then timeout else s64 (timeout - elapsed) in
  if timeout <? 0 then 0 else timeout.

(** [list_del], which must find the entry on the list. *)
Definition list_del (l : list Z) (task : Z) : outcome (list Z) :=
  if decide (task ∈ l) then Ok (filter (fun x => x <> task) l) else Oops.

Definition leave (sem : semaphore) (task : Z) (result : Z) : outcome (option Z * semaphore) :=
  let* l := list_del (wait_list sem) task in
  Ok (Some result, Sem (count sem) l (delete task (waiters sem))).

(** The head of the loop, up to [schedule_timeout]: the result, or [None] if the
    task sleeps. *)
Definition wait_round (sem : semaphore) (task : Z) (w : semaphore_waiter) (p : signals) : outcome (option Z * semaphore) :=
  if signal_pending_state (w_state w) p then leave sem task (- EINTR)
  else if w_timeout w <=? 0 then leave sem task (- ETIME)
  else Ok (None, Sem (count sem) (wait_list sem) (<[task := Waiter (w_up w) (w_state w) (w_timeout w) false]> (waiters sem))).

Definition __down_common (sem : semaphore) (task state timeout : Z) (p : signals) : outcome (option Z * semaphore) :=
  let w := Waiter false state timeout true in
  wait_round (Sem (count sem) (wait_list sem ++ [task]) (<[task := w]> (waiters sem))) task w p.

(** The rest of a round, once the task runs again. *)
Definition resume (sem : semaphore) (task elapsed : Z) (p : signals) : outcome (option Z * semaphore) :=
  match waiters sem !! task with
  | None => Oops
  | Some w =>
    let w := Waiter (w_up w) (w_state w) (schedule_timeout (w_timeout w) elapsed) (w_running w) in
    if w_up w then Ok (Some 0, Sem (count sem) (wait_list sem) (delete task (waiters sem)))
    else wait_round sem task w p
  end.

Definition down_with (sem : semaphore) (task state timeout : Z) (p : signals) : outcome (option Z * semaphore) :=
  if 0 <? count sem then Ok (Some 0, Sem (u32 (count sem - 1)) (wait_list sem) (waiters sem))
  else __down_common sem task state timeout p.

Definition down (sem : semaphore) (task : Z) (p : signals) : outcome (option Z * semaphore) :=
  down_with sem task TASK_UNINTERRUPTIBLE MAX_SCHEDULE_TIMEOUT p.

Definition down_interruptible (sem : semaphore) (task : Z) (p : signals) : outcome (option Z * semaphore) :=
  down_with sem task TASK_INTERRUPTIBLE MAX_SCHEDULE_TIMEOUT p.

Definition down_killable (sem : semaphore) (task : Z) (p : signals) : outcome (option Z * semaphore) :=
  down_with sem task TASK_KILLABLE MAX_SCHEDULE_TIMEOUT p.

Definition down_timeout (sem : semaphore) (task timeout : Z) (p : signals) : outcome (option Z * semaphore) :=
  down_with sem task TASK_UNINTERRUPTIBLE timeout p.

(** Returns 1 if the semaphore cannot be acquired. *)
Definition down_trylock (sem : semaphore) : Z * semaphore :=
  let c := s32 (count sem - 1) in
  (if c <? 0 then 1 else 0, if 0 <=? c then Sem (u32 c) (wait_list sem) (waiters sem) else sem).

(** What [wake_up_process] does to the waiter: the task's state becomes
    [TASK_RUNNING], so that [schedule_timeout] returns. *)
Definition wake_task (sem : semaphore) (task : Z) : outcome semaphore :=
  match waiters sem !! task with
  | None => Oops
  | Some w => Ok (Sem (count sem) (wait_list sem) (<[task := Waiter (w_up w) (w_state w) (w_timeout w) true]> (waiters sem)))
  end.

Definition __up (sem : semaphore) : outcome semaphore :=
  match wait_list sem with
  | [] => Oops
  | task :: l =>
    match waiters sem !! task with
    | None => Oops
    | Some w => wake_task (Sem (count sem) l (<[task := Waiter true (w_state w) (w_timeout w) (w_running w)]> (waiters sem))) task
    end
  end.

Definition up (sem : semaphore) : outcome semaphore :=
  if (length (wait_list sem) =? 0)%nat then Ok (Sem (u32 (count sem + 1)) (wait_list sem) (waiters sem))
  else __up sem.

(** ** The system *)

Inductive call := Down | DownInterruptible | DownKillable | DownTimeout (timeout : Z).

Definition call_down (c : call) (sem : semaphore) (task : Z) (p : signals) : outcome (option Z * semaphore) :=
  match c with
  | Down => down sem task p
  | DownInterruptible => down_interruptible sem task p
  | DownKillable => down_killable sem task p
  | DownTimeout timeout => down_timeout sem task timeout p
  end.

(** What happened: a call of [down], which returned or went to sleep; a sleeping
    task ran again; [down_trylock]; [up]; a wake-up from outside. *)
Inductive event :=
| EDown (task : Z) (c : call) (result : option Z)
| EResume (task : Z) (result : option Z)
| ETry (result : Z)
| EUp
| EWake (task : Z).

(** A task that sleeps in [__down_common] makes no other call; it goes on when
    its state is [TASK_RUNNING]. *)
Inductive step : semaphore -> event -> semaphore -> Prop :=
| step_down sem task c p r sem' : waiters sem !! task = None -> call_down c sem task p = Ok (r, sem') -> step sem (EDown task c r) sem'
| step_resume sem task w elapsed p r sem' : waiters sem !! task = Some w -> w_running w = true -> resume sem task elapsed p = Ok (r, sem') -> step sem (EResume task r) sem'
| step_try sem r sem' : down_trylock sem = (r, sem') -> step sem (ETry r) sem'
| step_up sem sem' : up sem = Ok sem' -> step sem EUp sem'
| step_wake sem task sem' : wake_task sem task = Ok sem' -> step sem (EWake task) sem'.

(** Executions, with what happened in them. *)
Inductive run : semaphore -> list event -> semaphore -> Prop :=
| run_nil sem : run sem [] sem
| run_snoc sem l sem' ev sem'' : run sem l sem' -> step sem' ev sem'' -> run sem (l ++ [ev]) sem''.
