(* ===== verification/SemaphoreFacts.v ===== *)
(** * SemaphoreFacts: the invariant of a semaphore and what its calls conserve *)

From stdpp Require Import gmap.
From S2P Require Import Prelude Semaphore.

(** ** The invariant *)

(** The list holds exactly the waiters that have not been given the semaphore, in
    the order of their arrival and none twice; nobody waits while it is free; a
    task that has been given it is awake. *)
Record inv (sem : semaphore) : Prop := Inv {
  inv_nodup : base.NoDup (wait_list sem);
  inv_list : forall t, t ∈ wait_list sem <-> exists w, waiters sem !! t = Some w /\ w_up w = false;
  inv_free : 0 < count sem -> wait_list sem = [];
  inv_count : 0 <= count sem < 2 ^ 32;
  inv_awake : forall t w, waiters sem !! t = Some w -> w_up w = true -> w_running w = true }.

Lemma init_inv val : inv (sema_init val).
Proof.
  split; simpl; [constructor| |done|apply wrap_range; lia|intros t w; by rewrite lookup_empty].
  intros t. split; [by intros ?%not_elem_of_nil|]. intros (w&Hw&_). by rewrite lookup_empty in Hw.
Qed.

(** ** Waiters that have been given the semaphore *)

Definition one (b : bool) : Z := if b then 1 else 0.

Definition holding (m : gmap Z semaphore_waiter) : Z := Z.of_nat (size (filter (fun kv => w_up kv.2 = true) m)).

Lemma holding_insert m t w : m !! t = None -> holding (<[t := w]> m) = holding m + one (w_up w).
Proof.
  intros Ht. unfold holding, one. destruct (w_up w) eqn:E.
  - rewrite map_filter_insert_True by done. rewrite map_size_insert_None; [lia|]. apply map_lookup_filter_None. by left.
  - rewrite map_filter_insert_False by (simpl; congruence). rewrite delete_id by done. lia.
Qed.

Lemma holding_delete m t w : m !! t = Some w -> holding (delete t m) = holding m - one (w_up w).
Proof.
  intros Ht. rewrite <- (insert_delete_id m t w Ht) at 2. rewrite holding_insert by (by rewrite lookup_delete_eq). lia.
Qed.

Lemma holding_update m t w w' : m !! t = Some w -> holding (<[t := w']> m) = holding m - one (w_up w) + one (w_up w').
Proof. intros Ht. rewrite <- insert_delete_eq, holding_insert, (holding_delete _ _ w) by (done || by rewrite lookup_delete_eq). lia. Qed.

(** ** Sleeping and leaving *)

(** How a waiting task goes on: it sleeps again, or it leaves without the
    semaphore. *)
Definition waits_or_leaves (sem : semaphore) (task : Z) (w : semaphore_waiter) (r : option Z) (sem' : semaphore) : Prop :=
  count sem' = count sem /\ holding (waiters sem') = holding (waiters sem) /\
  match r with
  | None => wait_list sem' = wait_list sem /\ waiters sem' = <[task := Waiter false (w_state w) (w_timeout w) false]> (waiters sem) /\ 0 < w_timeout w
  | Some x => wait_list sem' = filter (fun t => t <> task) (wait_list sem) /\ waiters sem' = delete task (waiters sem) /\
      (x = - EINTR \/ x = - ETIME /\ w_timeout w <= 0) /\ (x = - EINTR -> w_state w <> TASK_UNINTERRUPTIBLE)
  end.

Lemma waits_or_leaves_inv sem task w w' r sem' : inv sem -> waiters sem !! task = Some w -> w_up w = false -> waits_or_leaves sem task w' r sem' -> inv sem'.
Proof.
  intros [Hnd Hl Hf Hc Ha] Hw Hup (Hcnt&_&Hr). destruct r as [x|].
  - destruct Hr as (Hwl&Hws&_). split; rewrite ?Hwl, ?Hws, ?Hcnt; try done.
    + by apply list.NoDup_filter.
    + intros t. rewrite list_elem_of_filter, Hl. destruct (decide (t = task)) as [->|Hne].
      * rewrite lookup_delete_eq. naive_solver.
      * rewrite lookup_delete_ne by done. naive_solver.
    + intros Hpos. by rewrite Hf.
    + intros t w0. destruct (decide (t = task)) as [->|Hne]; [by rewrite lookup_delete_eq|]. rewrite lookup_delete_ne by done. apply Ha.
  - destruct Hr as (Hwl&Hws&_). split; rewrite ?Hwl, ?Hws, ?Hcnt; try done.
    + intros t. rewrite Hl. destruct (decide (t = task)) as [->|Hne]; [|by rewrite lookup_insert_ne]. rewrite lookup_insert_eq. naive_solver.
    + intros t w0. destruct (decide (t = task)) as [->|Hne]; [rewrite lookup_insert_eq; naive_solver|]. rewrite lookup_insert_ne by done. apply Ha.
Qed.

Lemma uninterruptible p : signal_pending_state TASK_UNINTERRUPTIBLE p = false.
Proof. done. Qed.

Lemma wait_round_spec sem task w w' p : inv sem -> waiters sem !! task = Some w -> w_up w = false -> w_up w' = false ->
  exists r sem', wait_round sem task w' p = Ok (r, sem') /\ waits_or_leaves sem task w' r sem'.
Proof.
  intros Hinv Hw Hup Hup'. assert (Hin : task ∈ wait_list sem) by (apply (inv_list _ Hinv); eauto).
  assert (Hdel : holding (delete task (waiters sem)) = holding (waiters sem)) by (rewrite (holding_delete _ _ w) by done; rewrite Hup; simpl; lia).
  unfold wait_round, leave, list_del. rewrite decide_True by done. cbn [obind]. destruct (signal_pending_state (w_state w') p) eqn:Es; [|destruct (w_timeout w' <=? 0) eqn:Et].
  - eexists _, _. split; [done|]. split; [done|]. split; [done|]. split; [done|]. split; [done|]. split; [by left|]. intros _ Hst. by rewrite Hst, uninterruptible in Es.
  - eexists _, _. split; [done|]. split; [done|]. split; [done|]. split; [done|]. split; [done|]. split; [right; split; [done|lia]|done].
  - eexists _, _. split; [done|]. split; [done|]. split; [|rewrite Hup'; split; [done|split; [done|lia]]]. simpl. rewrite (holding_update _ _ w) by done. rewrite Hup, Hup'. simpl. lia.
Qed.

(** ** The calls *)

Definition enqueue (sem : semaphore) (task state timeout : Z) : semaphore :=
  Sem (count sem) (wait_list sem ++ [task]) (<[task := Waiter false state timeout true]> (waiters sem)).

Lemma absent_not_listed sem task : inv sem -> waiters sem !! task = None -> task ∉ wait_list sem.
Proof. intros Hinv Hn Hin. apply (inv_list _ Hinv) in Hin as (w&Hw&_). congruence. Qed.

Lemma enqueue_inv sem task state timeout : inv sem -> count sem = 0 -> waiters sem !! task = None -> inv (enqueue sem task state timeout).
Proof.
  intros Hinv H0 Hn. pose proof (absent_not_listed sem task Hinv Hn) as Hout. destruct Hinv as [Hnd Hl Hf Hc Ha]. split; simpl; try done.
  - apply list.NoDup_app. split; [done|]. split; [|by apply NoDup_singleton]. intros t Ht ->%list_elem_of_singleton. done.
  - intros t. rewrite elem_of_app, list_elem_of_singleton, Hl. destruct (decide (t = task)) as [->|Hne]; [rewrite lookup_insert_eq; naive_solver|]. rewrite lookup_insert_ne by done. naive_solver.
  - lia.
  - intros t w. destruct (decide (t = task)) as [->|Hne]; [rewrite lookup_insert_eq; naive_solver|]. rewrite lookup_insert_ne by done. apply Ha.
Qed.

Lemma down_with_spec sem task state timeout p : inv sem -> waiters sem !! task = None ->
  exists r sem', down_with sem task state timeout p = Ok (r, sem') /\ inv sem' /\
    ((r = Some 0 /\ 0 < count sem /\ sem' = Sem (count sem - 1) (wait_list sem) (waiters sem)) \/
     (count sem = 0 /\ waits_or_leaves (enqueue sem task state timeout) task (Waiter false state timeout true) r sem')).
Proof.
  intros Hinv Hn. pose proof Hinv as [Hnd Hl Hf Hc Ha]. unfold down_with. destruct (0 <? count sem) eqn:E.
  - rewrite wrap_small by lia. eexists _, _. split; [done|]. split; [|left; split; [done|split; [lia|done]]]. split; simpl; try done; [intros _; apply Hf; lia|lia].
  - assert (H0 : count sem = 0) by lia. pose proof (enqueue_inv sem task state timeout Hinv H0 Hn) as Hinv'.
    destruct (wait_round_spec (enqueue sem task state timeout) task (Waiter false state timeout true) (Waiter false state timeout true) p Hinv') as (r&sem'&Hrun&Heff); [simpl; apply lookup_insert_eq|done|done|].
    exists r, sem'. split; [exact Hrun|]. split; [|by right]. eapply waits_or_leaves_inv; [exact Hinv'|simpl; apply lookup_insert_eq|done|exact Heff].
Qed.

Lemma resume_spec sem task w elapsed p : inv sem -> waiters sem !! task = Some w ->
  exists r sem', resume sem task elapsed p = Ok (r, sem') /\ inv sem' /\
    ((w_up w = true /\ r = Some 0 /\ sem' = Sem (count sem) (wait_list sem) (delete task (waiters sem))) \/
     (w_up w = false /\ waits_or_leaves sem task (Waiter false (w_state w) (schedule_timeout (w_timeout w) elapsed) (w_running w)) r sem')).
Proof.
  intros Hinv Hw. unfold resume. rewrite Hw. cbn [w_up]. destruct (w_up w) eqn:E.
  - eexists _, _. split; [done|]. split; [|left; done]. destruct Hinv as [Hnd Hl Hf Hc Ha]. split; simpl; try done.
    + intros t. rewrite Hl. destruct (decide (t = task)) as [->|Hne]; [|by rewrite lookup_delete_ne]. rewrite lookup_delete_eq. split; intros (w0&Hw0&Hu0); congruence.
    + intros t w0. destruct (decide (t = task)) as [->|Hne]; [by rewrite lookup_delete_eq|]. rewrite lookup_delete_ne by done. apply Ha.
  - destruct (wait_round_spec sem task w (Waiter false (w_state w) (schedule_timeout (w_timeout w) elapsed) (w_running w)) p Hinv Hw E eq_refl) as (r&sem'&Hrun&Heff).
    exists r, sem'. split; [exact Hrun|]. split; [by eapply waits_or_leaves_inv|by right].
Qed.

Lemma wake_up_spec sem task w : inv sem -> waiters sem !! task = Some w ->
  exists sem', wake_task sem task = Ok sem' /\ inv sem' /\ sem' = Sem (count sem) (wait_list sem) (<[task := Waiter (w_up w) (w_state w) (w_timeout w) true]> (waiters sem)).
Proof.
  intros [Hnd Hl Hf Hc Ha] Hw. unfold wake_task. rewrite Hw. eexists. split; [done|]. split; [|done]. split; simpl; try done.
  - intros t. rewrite Hl. destruct (decide (t = task)) as [->|Hne]; [rewrite lookup_insert_eq; naive_solver|by rewrite lookup_insert_ne].
  - intros t w0. destruct (decide (t = task)) as [->|Hne]; [rewrite lookup_insert_eq; naive_solver|]. rewrite lookup_insert_ne by done. apply Ha.
Qed.

Lemma up_spec sem : inv sem ->
  exists sem', up sem = Ok sem' /\ inv sem' /\
    ((wait_list sem = [] /\ sem' = Sem (u32 (count sem + 1)) [] (waiters sem)) \/
     (exists t l w, wait_list sem = t :: l /\ waiters sem !! t = Some w /\ w_up w = false /\ sem' = Sem (count sem) l (<[t := Waiter true (w_state w) (w_timeout w) true]> (waiters sem)))).
Proof.
  intros Hinv. pose proof Hinv as [Hnd Hl Hf Hc Ha]. unfold up, __up. destruct (wait_list sem) as [|t l] eqn:Ewl; cbn [length Nat.eqb].
  - eexists. split; [done|]. split; [|by left]. split; simpl; try done. apply wrap_range. lia.
  - assert (Hin : t ∈ t :: l) by left. apply Hl in Hin as (w&Hw&Hup). rewrite Hw. unfold wake_task. cbn [waiters count wait_list]. rewrite lookup_insert_eq, insert_insert_eq.
    cbn [w_up w_state w_timeout]. eexists. split; [done|]. split; [|right; eauto 10]. apply list.NoDup_cons in Hnd as [Hout Hnd]. split; simpl; try done.
    + intros x. destruct (decide (x = t)) as [->|Hne]; [rewrite lookup_insert_eq; naive_solver|]. rewrite lookup_insert_ne by done. rewrite <- Hl. set_solver.
    + intros Hpos. by apply Hf in Hpos.
    + intros x w0. destruct (decide (x = t)) as [->|Hne]; [rewrite lookup_insert_eq; naive_solver|]. rewrite lookup_insert_ne by done. apply Ha.
Qed.

Lemma trylock_spec sem : inv sem -> inv (down_trylock sem).2 /\
  ((down_trylock sem).1 = 0 /\ 0 < count sem /\ (down_trylock sem).2 = Sem (count sem - 1) (wait_list sem) (waiters sem) \/
   (down_trylock sem).1 = 1 /\ (down_trylock sem).2 = sem /\ (count sem = 0 \/ 2 ^ 31 < count sem)).
Proof.
  intros Hinv. pose proof Hinv as [Hnd Hl Hf Hc Ha]. unfold down_trylock. cbn [fst snd]. destruct (decide (count sem <= 2 ^ 31)) as [Hs|Hbig].
  - rewrite s32_small by lia. destruct (0 <=? count sem - 1) eqn:E.
    + rewrite wrap_small by lia. replace (count sem - 1 <? 0) with false by lia. split; [|left; split; [done|split; [lia|done]]]. split; simpl; try done; [intros _; apply Hf; lia|lia].
    + replace (count sem - 1 <? 0) with true by lia. split; [done|]. right. split; [done|]. split; [done|lia].
  - assert (Hneg : s32 (count sem - 1) = count sem - 1 - 2 ^ 32). { unfold swrap. change (2 ^ (32 - 1)) with (2 ^ 31). replace (count sem - 1 + 2 ^ 31) with (count sem - 1 - 2 ^ 31 + 1 * 2 ^ 32) by lia. rewrite Z_mod_plus_full, Z.mod_small; lia. }
    rewrite Hneg. replace (count sem - 1 - 2 ^ 32 <? 0) with true by lia. replace (0 <=? count sem - 1 - 2 ^ 32) with false by lia. split; [done|]. right. split; [done|]. split; [done|lia].
Qed.

(** ** Steps *)

Lemma call_down_spec c sem task p : inv sem -> waiters sem !! task = None ->
  exists state timeout r sem', call_down c sem task p = Ok (r, sem') /\ inv sem' /\ (c = Down -> state = TASK_UNINTERRUPTIBLE /\ timeout = MAX_SCHEDULE_TIMEOUT) /\
    ((r = Some 0 /\ 0 < count sem /\ sem' = Sem (count sem - 1) (wait_list sem) (waiters sem)) \/
     (count sem = 0 /\ waits_or_leaves (enqueue sem task state timeout) task (Waiter false state timeout true) r sem')).
Proof.
  intros Hinv Hn. destruct c as [| | |timeout]; (eexists _, _; edestruct down_with_spec as (r&sem'&Hrun&Hi&Heff); [exact Hinv|exact Hn|]; exists r, sem'; split; [exact Hrun|]; split; [done|]; split; [done|exact Heff]).
Qed.

Definition acquires (ev : event) : Z :=
  match ev with EDown _ _ (Some r) => one (r =? 0) | EResume _ (Some r) => one (r =? 0) | ETry r => one (r =? 0) | _ => 0 end.
Definition releases (ev : event) : Z := match ev with EUp => 1 | _ => 0 end.

(** What the semaphore has to give, what it has given to sleeping tasks, and what
    was acquired, against what was released; [k] counts overflows of [count]. *)
Definition conserves (sem : semaphore) (a r : Z) (sem' : semaphore) : Prop :=
  exists k, 0 <= k /\ count sem' + holding (waiters sem') + a + 2 ^ 32 * k = count sem + holding (waiters sem) + r.

Lemma leaves_conserves sem task w x sem' : waits_or_leaves sem task w x sem' -> match x with Some r => one (r =? 0) | None => 0 end = 0.
Proof. intros (_&_&H). destruct x as [r|]; [|done]. destruct H as (_&_&[->|[-> _]]&_); done. Qed.

Lemma step_conserves sem ev sem' : inv sem -> step sem ev sem' -> inv sem' /\ conserves sem (acquires ev) (releases ev) sem'.
Proof.
  intros Hinv Hstep. destruct Hstep as [sem task c p r sem' Hn Hrun|sem task w elapsed p r sem' Hw Hr Hrun|sem r sem' Hrun|sem sem' Hrun|sem task sem' Hrun].
  - destruct (call_down_spec c sem task p Hinv Hn) as (state&timeout&r0&sem0&Hrun0&Hi&_&Heff). rewrite Hrun in Hrun0. injection Hrun0 as <- <-. split; [done|].
    exists 0. split; [done|]. destruct Heff as [(->&Hpos&->)|(H0&Heff)]; [simpl; lia|]. pose proof (leaves_conserves _ _ _ _ _ Heff) as Ha. destruct Heff as (Hc&Hh&_).
    change (acquires (EDown task c r)) with (match r with Some r => one (r =? 0) | None => 0 end). rewrite Ha, Hc, Hh. simpl. rewrite holding_insert by done. simpl. lia.
  - destruct (resume_spec sem task w elapsed p Hinv Hw) as (r0&sem0&Hrun0&Hi&Heff). rewrite Hrun in Hrun0. injection Hrun0 as <- <-. split; [done|].
    exists 0. split; [done|]. destruct Heff as [(Hup&->&->)|(Hup&Heff)]; [simpl; rewrite (holding_delete _ _ w) by done; rewrite Hup; simpl; lia|]. pose proof (leaves_conserves _ _ _ _ _ Heff) as Ha. destruct Heff as (Hc&Hh&_).
    change (acquires (EResume task r)) with (match r with Some r => one (r =? 0) | None => 0 end). rewrite Ha, Hc, Hh. simpl. lia.
  - destruct (trylock_spec sem Hinv) as (Hi&Heff). rewrite Hrun in *. cbn [fst snd] in *. split; [done|]. exists 0. split; [done|]. destruct Heff as [(->&Hpos&->)|(->&->&_)]; simpl; lia.
  - destruct (up_spec sem Hinv) as (sem0&Hrun0&Hi&Heff). rewrite Hrun in Hrun0. injection Hrun0 as <-. split; [done|]. destruct Heff as [[_ ->]|(t&l&w&_&Hw&Hup&->)].
    + exists ((count sem + 1) / 2 ^ 32). pose proof (inv_count _ Hinv). split; [apply Z.div_pos; lia|]. simpl. unfold wrap. pose proof (Z.div_mod (count sem + 1) (2 ^ 32) ltac:(lia)). lia.
    + exists 0. split; [done|]. simpl. rewrite (holding_update _ _ w) by done. rewrite Hup. simpl. lia.
  - unfold wake_task in Hrun. destruct (waiters sem !! task) as [w|] eqn:Hw; [|done]. destruct (wake_up_spec sem task w Hinv Hw) as (sem0&Hrun0&Hi&Hs).
    unfold wake_task in Hrun0. rewrite Hw, Hrun in Hrun0. injection Hrun0 as <-. split; [done|]. exists 0. split; [done|]. rewrite Hs. simpl. rewrite (holding_update _ _ w) by done. simpl. lia.
Qed.

Definition total (f : event -> Z) (l : list event) : Z := foldr (fun ev n => f ev + n) 0 l.

Lemma total_snoc f l ev : total f (l ++ [ev]) = total f l + f ev.
Proof. unfold total. rewrite foldr_app. simpl. induction l as [|x l IH]; simpl; [lia|]. rewrite IH. lia. Qed.

Lemma run_conserves sem l sem' : inv sem -> run sem l sem' -> inv sem' /\ conserves sem (total acquires l) (total releases l) sem'.
Proof.
  intros Hinv. induction 1 as [sem|sem l sem1 ev sem2 Hrun IH Hstep]; [split; [done|]; exists 0; simpl; lia|]. destruct (IH Hinv) as [Hi1 (k1&Hk1&E1)].
  destruct (step_conserves _ _ _ Hi1 Hstep) as [Hi2 (k2&Hk2&E2)]. split; [done|]. exists (k1 + k2). split; [lia|]. rewrite !total_snoc. lia.
Qed.

(** ** The queue *)

(** The number of tasks before [t] on the list. *)
Fixpoint ahead (l : list Z) (t : Z) : nat :=
  match l with [] => 0 | x :: l => if decide (x = t) then 0 else S (ahead l t) end.

Lemma ahead_snoc l x t : t ∈ l -> ahead (l ++ [x]) t = ahead l t.
Proof.
  induction l as [|y l IH]; [by intros ?%not_elem_of_nil|]. intros Hin. cbn [app ahead]. case_decide; [done|]. f_equal. apply IH. set_solver.
Qed.

Lemma ahead_filter l x t : t <> x -> (ahead (filter (fun y => y <> x) l) t <= ahead l t)%nat.
Proof.
  intros Hne. induction l as [|y l IH]; [done|]. rewrite filter_cons. cbn [ahead]. destruct (decide (y <> x)) as [Hy|Hy]; cbn [ahead]; case_decide; try lia.
Qed.

(** One step of a task that waits: it still waits and nobody gets before it, or it
    is given the semaphore by [up], or its call returns. *)
Definition waiting (sem : semaphore) (t : Z) : Prop := t ∈ wait_list sem.
Definition holds_grant (sem : semaphore) (t : Z) : Prop := exists w, waiters sem !! t = Some w /\ w_up w = true.

(** The call [down] has neither a signal nor a timer to end its sleep. *)
Definition patient (sem : semaphore) (t : Z) : Prop := exists w, waiters sem !! t = Some w /\ w_state w = TASK_UNINTERRUPTIBLE /\ w_timeout w = MAX_SCHEDULE_TIMEOUT.

Lemma patient_sleeps sem t state timeout elapsed run r sem' : state = TASK_UNINTERRUPTIBLE -> timeout = MAX_SCHEDULE_TIMEOUT ->
  waits_or_leaves sem t (Waiter false state (schedule_timeout timeout elapsed) run) r sem' -> r = None /\ patient sem' t.
Proof.
  intros -> -> (_&_&H). change (schedule_timeout MAX_SCHEDULE_TIMEOUT elapsed) with MAX_SCHEDULE_TIMEOUT in H. destruct r as [x|].
  - destruct H as (_&_&[->|[_ H]]&H2); [by specialize (H2 eq_refl)|]. simpl in H. unfold MAX_SCHEDULE_TIMEOUT in H. lia.
  - split; [done|]. destruct H as (_&H&_). eexists. rewrite H. split; [apply lookup_insert_eq|done].
Qed.

(** What a step by another task leaves alone. *)
Lemma waits_or_leaves_other sem task w r sem' t : waits_or_leaves sem task w r sem' -> t <> task -> waiters sem' !! t = waiters sem !! t /\
  (t ∈ wait_list sem -> t ∈ wait_list sem' /\ (ahead (wait_list sem') t <= ahead (wait_list sem) t)%nat).
Proof.
  intros (_&_&H) Hne. destruct r as [x|].
  - destruct H as (->&->&_). split; [by rewrite lookup_delete_ne|]. intros Hin. split; [by apply list_elem_of_filter|by apply ahead_filter].
  - destruct H as (->&->&_). split; [by rewrite lookup_insert_ne|]. done.
Qed.

Lemma step_waiting sem ev sem' t : inv sem -> step sem ev sem' -> waiting sem t ->
  (waiting sem' t /\ (ahead (wait_list sem') t <= ahead (wait_list sem) t)%nat /\ (ev = EUp -> (ahead (wait_list sem') t < ahead (wait_list sem) t)%nat) /\ (patient sem t -> patient sem' t)) \/
  (holds_grant sem' t /\ ev = EUp /\ ahead (wait_list sem) t = 0%nat /\ (patient sem t -> patient sem' t)) \/
  (exists r, ev = EResume t (Some r) /\ ~ patient sem t).
Proof.
  intros Hinv Hstep Ht. unfold waiting in *. pose proof Ht as (w0&Hw0&Hup0)%(inv_list _ Hinv).
  assert (Hp : forall s', waiters s' !! t = waiters sem !! t -> patient sem t -> patient s' t) by (unfold patient; intros s' ->; done).
  destruct Hstep as [sem task c p r sem' Hn Hrun|sem task w elapsed p r sem' Hw Hr Hrun|sem r sem' Hrun|sem sem' Hrun|sem task sem' Hrun].
  - left. assert (Hne : t <> task) by congruence. destruct (call_down_spec c sem task p Hinv Hn) as (state&timeout&r0&sem0&Hrun0&_&_&Heff). rewrite Hrun in Hrun0. injection Hrun0 as <- <-.
    destruct Heff as [(->&Hpos&->)|(H0&Heff)]; [by rewrite (inv_free _ Hinv Hpos) in Ht; apply not_elem_of_nil in Ht|].
    destruct (waits_or_leaves_other _ _ _ _ _ t Heff Hne) as [Hl Hq]. simpl in Hl, Hq. rewrite lookup_insert_ne in Hl by done. destruct Hq as [Hin Hle]; [apply elem_of_app; by left|]. rewrite ahead_snoc in Hle by done. split; [done|]. split; [done|]. split; [done|by apply Hp].
  - destruct (resume_spec sem task w elapsed p Hinv Hw) as (r0&sem0&Hrun0&_&Heff). rewrite Hrun in Hrun0. injection Hrun0 as <- <-. destruct (decide (t = task)) as [->|Hne].
    + rewrite Hw in Hw0. injection Hw0 as ->. destruct Heff as [(Hup&_)|(_&Heff)]; [congruence|]. destruct r as [x|].
      * right; right. exists x. split; [done|]. intros (w1&Hw1&Hs&Hto). rewrite Hw in Hw1. injection Hw1 as ->. eapply patient_sleeps in Heff as [? _]; done.
      * left. pose proof Heff as (_&_&Hwl&_). rewrite Hwl. split; [done|]. split; [done|]. split; [done|]. intros (w1&Hw1&Hs&Hto). rewrite Hw in Hw1. injection Hw1 as ->. by eapply patient_sleeps in Heff as [_ ?].
    + left. destruct Heff as [(_&->&->)|(_&Heff)]; [split; [done|]; split; [done|]; split; [done|]; apply Hp; simpl; by rewrite lookup_delete_ne|].
      destruct (waits_or_leaves_other _ _ _ _ _ t Heff Hne) as [Hl Hq]. destruct (Hq Ht) as [Hin Hle]. split; [done|]. split; [done|]. split; [done|by apply Hp].
  - left. destruct (trylock_spec sem Hinv) as (_&Heff). rewrite Hrun in *. cbn [fst snd] in *. destruct Heff as [(->&Hpos&->)|(->&->&_)]; (split; [done|]; split; [done|]; split; [done|by apply Hp]).
  - destruct (up_spec sem Hinv) as (sem0&Hrun0&_&Heff). rewrite Hrun in Hrun0. injection Hrun0 as <-. destruct Heff as [[Hnil ->]|(x&l&w&Hwl&Hw&Hup&->)]; [rewrite Hnil in Ht; by apply not_elem_of_nil in Ht|].
    rewrite Hwl in *. cbn [ahead]. destruct (decide (x = t)) as [->|Hne].
    + right; left. split; [eexists; simpl; rewrite lookup_insert_eq; done|]. split; [done|]. split; [done|]. intros (w1&Hw1&Hs&Hto). rewrite Hw in Hw1. injection Hw1 as ->. eexists. simpl. by rewrite lookup_insert_eq.
    + left. simpl. split; [set_solver|]. split; [lia|]. split; [lia|]. apply Hp. simpl. by rewrite lookup_insert_ne.
  - left. unfold wake_task in Hrun. destruct (waiters sem !! task) as [w|] eqn:Hw; [|done]. injection Hrun as <-. simpl. split; [done|]. split; [done|]. split; [done|].
    destruct (decide (t = task)) as [->|Hne]; [|apply Hp; simpl; by rewrite lookup_insert_ne]. intros (w1&Hw1&Hs&Hto). rewrite Hw in Hw1. injection Hw1 as ->. eexists. simpl. by rewrite lookup_insert_eq.
Qed.

(** A grant stays until the task runs, and makes its call return 0. *)
Lemma step_grant sem ev sem' t : inv sem -> step sem ev sem' -> holds_grant sem t -> (holds_grant sem' t /\ forall r, ev <> EResume t r) \/ ev = EResume t (Some 0).
Proof.
  intros Hinv Hstep (w0&Hw0&Hup0). assert (Hout : t ∉ wait_list sem). { intros (w1&Hw1&?)%(inv_list _ Hinv). congruence. }
  assert (Hk : forall s', waiters s' !! t = waiters sem !! t -> holds_grant s' t) by (unfold holds_grant; intros s' ->; eauto).
  destruct Hstep as [sem task c p r sem' Hn Hrun|sem task w elapsed p r sem' Hw Hr Hrun|sem r sem' Hrun|sem sem' Hrun|sem task sem' Hrun].
  - left. split; [|done]. assert (Hne : t <> task) by congruence. destruct (call_down_spec c sem task p Hinv Hn) as (state&timeout&r0&sem0&Hrun0&_&_&Heff). rewrite Hrun in Hrun0. injection Hrun0 as <- <-.
    apply Hk. destruct Heff as [(->&Hpos&->)|(H0&Heff)]; [done|]. destruct (waits_or_leaves_other _ _ _ _ _ t Heff Hne) as [-> _]. simpl. by rewrite lookup_insert_ne.
  - destruct (resume_spec sem task w elapsed p Hinv Hw) as (r0&sem0&Hrun0&_&Heff). rewrite Hrun in Hrun0. injection Hrun0 as <- <-. destruct (decide (t = task)) as [->|Hne].
    + right. destruct Heff as [(_&->&_)|(Hup&_)]; [done|congruence].
    + left. split; [|congruence]. apply Hk. destruct Heff as [(_&->&->)|(_&Heff)]; [simpl; by rewrite lookup_delete_ne|]. by destruct (waits_or_leaves_other _ _ _ _ _ t Heff Hne) as [-> _].
  - left. split; [|done]. apply Hk. destruct (trylock_spec sem Hinv) as (_&Heff). rewrite Hrun in *. cbn [fst snd] in *. by destruct Heff as [(->&Hpos&->)|(->&->&_)].
  - left. split; [|done]. apply Hk. destruct (up_spec sem Hinv) as (sem0&Hrun0&_&Heff). rewrite Hrun in Hrun0. injection Hrun0 as <-. destruct Heff as [[Hnil ->]|(x&l&w&Hwl&Hw&Hup&->)]; [done|].
    simpl. rewrite lookup_insert_ne; [done|]. intros ->. apply Hout. rewrite Hwl. by left.
  - left. split; [|done]. unfold wake_task in Hrun. destruct (waiters sem !! task) as [w|] eqn:Hw; [|done]. injection Hrun as <-.
    destruct (decide (t = task)) as [->|Hne]; [|apply Hk; simpl; by rewrite lookup_insert_ne]. rewrite Hw in Hw0. injection Hw0 as ->. eexists. simpl. by rewrite lookup_insert_eq.
Qed.
