(* ===== verification/SemaphoreProps.v ===== *)
(** * SemaphoreProps: theorems about counting semaphores *)

From stdpp Require Import gmap.
From S2P Require Import Prelude Semaphore SemaphoreFacts.

(** C22: After any interleaving of calls, signals, expiring timers and wake-ups
    from a semaphore initialised with [val], every call runs without following a
    stale pointer; nobody waits while the semaphore is free; and what was acquired
    or given to a task that is about to run never exceeds [val] and what was
    released. Without an overflow of the counter nothing is lost either: calls
    that end with a signal or a timeout leave no trace. *)
Theorem semaphore_conserves val l sem : run (sema_init val) l sem ->
  (forall c task p, waiters sem !! task = None -> exists x, call_down c sem task p = Ok x) /\
  (forall task elapsed p, is_Some (waiters sem !! task) -> exists x, resume sem task elapsed p = Ok x) /\
  (exists sem', up sem = Ok sem') /\
  (0 < count sem -> forall task, task ∉ wait_list sem) /\
  total acquires l + holding (waiters sem) + count sem <= u32 val + total releases l /\
  (u32 val + total releases l < 2 ^ 32 -> total acquires l + holding (waiters sem) + count sem = u32 val + total releases l).
Proof.
  intros Hrun. destruct (run_conserves _ _ _ (init_inv val) Hrun) as [Hinv (k&Hk&Heq)].
  assert (Hacq : 0 <= total acquires l). { clear. induction l as [|ev l IH]; [done|]. simpl. assert (0 <= acquires ev); [|lia]. unfold acquires, one. repeat case_match; lia. }
  assert (Hh : 0 <= holding (waiters sem)) by (unfold holding; lia). pose proof (inv_count _ Hinv) as Hc. change (holding (waiters (sema_init val))) with 0 in Heq. change (count (sema_init val)) with (u32 val) in Heq.
  split; [|split; [|split; [|split; [|split]]]].
  - intros c task p Hn. destruct (call_down_spec c sem task p Hinv Hn) as (_&_&r&sem'&Hr&_). eauto.
  - intros task elapsed p (w&Hw). destruct (resume_spec sem task w elapsed p Hinv Hw) as (r&sem'&Hr&_). eauto.
  - destruct (up_spec sem Hinv) as (sem'&Hr&_). eauto.
  - intros Hpos task Hin. rewrite (inv_free _ Hinv Hpos) in Hin. by apply not_elem_of_nil in Hin.
  - lia.
  - intros Hs. assert (k = 0) by lia. subst k. lia.
Qed.

(** ** Progress *)

Section Live.

Context (e : nat -> semaphore) (lab : nat -> event).
Hypothesis (Hinv : forall n, inv (e n)) (Hexec : forall n, step (e n) (lab n) (e (S n))).

(** From a grant on, the task's next step returns 0. *)
Lemma grant_returns t d : forall n, holds_grant (e n) t -> (exists r, lab (n + d) = EResume t r) -> exists m, (n <= m)%nat /\ lab m = EResume t (Some 0).
Proof.
  induction d as [|d IH]; intros n Hg Hr; destruct (step_grant _ _ _ t (Hinv n) (Hexec n) Hg) as [[Hg' Hno]|Hret]; try (exists n; split; [lia|done]).
  - destruct Hr as [r Hr]. rewrite Nat.add_0_r in Hr. by apply Hno in Hr.
  - destruct (IH (S n) Hg') as (m&Hm&Hl); [by rewrite Nat.add_succ_r in Hr|]. exists m. split; [lia|done].
Qed.

Definition done_waiting (n m : nat) (t : Z) : Prop :=
  (n <= m)%nat /\ ((holds_grant (e m) t /\ (patient (e n) t -> patient (e m) t)) \/ (exists r, lab m = EResume t (Some r) /\ ~ patient (e n) t)).

(** While no event ends the waiting, the task keeps its place. *)
Lemma waiting_until t d : forall n, waiting (e n) t -> (exists m, done_waiting n m t) \/
  (waiting (e (n + d)) t /\ (ahead (wait_list (e (n + d))) t <= ahead (wait_list (e n)) t)%nat /\ (patient (e n) t -> patient (e (n + d)) t)).
Proof.
  induction d as [|d IH]; intros n Hw; [right; by rewrite Nat.add_0_r|].
  destruct (step_waiting _ _ _ t (Hinv n) (Hexec n) Hw) as [(Hw'&Hle&_&Hp)|[(Hg&_&_&Hp)|(r&Hr&Hnp)]].
  - destruct (IH (S n) Hw') as [(m&Hm&Hd)|(Hw2&Hle2&Hp2)].
    + left. exists m. split; [lia|]. destruct Hd as [[Hg Hpm]|(r&Hr&Hnp)]; [left; auto|right; exists r; tauto].
    + right. rewrite Nat.add_succ_r. cbn [Nat.add] in *. split; [done|]. split; [lia|auto].
  - left. exists (S n). split; [lia|]. by left.
  - left. exists n. split; [lia|]. right. by exists r.
Qed.

(** If the semaphore is released again and again, waiting ends. *)
Lemma waiting_ends t k : (forall n, exists m, (n <= m)%nat /\ lab m = EUp) -> forall n, waiting (e n) t -> ahead (wait_list (e n)) t = k -> exists m, done_waiting n m t.
Proof.
  intros Hup. induction k as [k IH] using lt_wf_ind. intros n Hw Hk. destruct (Hup n) as (u&Hu&Hlab). destruct (waiting_until t (u - n) n Hw) as [?|(Hw2&Hle&Hp)]; [done|].
  replace (n + (u - n))%nat with u in * by lia. destruct (step_waiting _ _ _ t (Hinv u) (Hexec u) Hw2) as [(Hw'&_&Hlt&Hp')|[(Hg&_&_&Hp')|(r&Hr&_)]]; [|exists (S u); split; [lia|left; auto]|by rewrite Hlab in Hr].
  specialize (Hlt Hlab). destruct (IH (ahead (wait_list (e (S u))) t) ltac:(lia) (S u) Hw' eq_refl) as (m&Hm&Hd).
  exists m. split; [lia|]. destruct Hd as [[Hg Hpm]|(r&Hr&Hnp)]; [left; auto|right; exists r; tauto].
Qed.

End Live.

(** An infinite execution from an initialised semaphore. *)
Definition execution (e : nat -> semaphore) (lab : nat -> event) : Prop := (exists val, e 0%nat = sema_init val) /\ forall n, step (e n) (lab n) (e (S n)).

(** A task whose state is [TASK_RUNNING] is scheduled some time. *)
Definition fair (e : nat -> semaphore) (lab : nat -> event) : Prop :=
  forall n t w, waiters (e n) !! t = Some w -> w_running w = true -> exists m r, (n <= m)%nat /\ lab m = EResume t r.

(** C23: Under a fair scheduler, if the semaphore is released again and again, a
    task that waits for it comes to run and return; with [down], whose sleep no
    signal or timer ends, it returns with the semaphore. *)
Theorem semaphore_live e lab : execution e lab -> fair e lab -> (forall n, exists m, (n <= m)%nat /\ lab m = EUp) ->
  forall n t, is_Some (waiters (e n) !! t) -> exists m r, (n <= m)%nat /\ lab m = EResume t (Some r) /\ (patient (e n) t -> r = 0).
Proof.
  intros [(val&He0) Hexec] Hfair Hup n t (w&Hw).
  assert (Hinv : forall n, inv (e n)). { intros k. induction k as [|k IH]; [rewrite He0; apply init_inv|]. by destruct (step_conserves _ _ _ IH (Hexec k)). }
  assert (Hgrant : forall m, (n <= m)%nat -> holds_grant (e m) t -> exists m' r, (n <= m')%nat /\ lab m' = EResume t (Some r) /\ (patient (e n) t -> r = 0)).
  { intros m Hm (w1&Hw1&Hup1). destruct (Hfair m t w1 Hw1 (inv_awake _ (Hinv m) t w1 Hw1 Hup1)) as (m2&r&Hm2&Hl2).
    destruct (grant_returns e lab Hinv Hexec t (m2 - m) m) as (m3&Hm3&Hl3); [eexists; eauto|exists r; by replace (m + (m2 - m))%nat with m2 by lia|]. exists m3, 0. split; [lia|done]. }
  destruct (w_up w) eqn:Eup; [apply (Hgrant n); [lia|by exists w]|].
  assert (Hwt : waiting (e n) t) by (apply (inv_list _ (Hinv n)); eauto). destruct (waiting_ends e lab Hinv Hexec t _ Hup n Hwt eq_refl) as (m&Hm&Hd).
  destruct Hd as [[Hg _]|(r&Hr&Hnp)]; [by apply (Hgrant m)|]. exists m, r. split; [done|]. split; [done|]. intros Hp. by destruct (Hnp Hp).
Qed.

(** ** Witnesses *)

Definition calm : signals := Signals false false.
Definition asleep : semaphore := Sem 0 [7] {[7 := Waiter false TASK_UNINTERRUPTIBLE MAX_SCHEDULE_TIMEOUT false]}.
Definition woken : semaphore := Sem 0 [] {[7 := Waiter true TASK_UNINTERRUPTIBLE MAX_SCHEDULE_TIMEOUT true]}.

Lemma falls_asleep : step (sema_init 0) (EDown 7 Down None) asleep.
Proof. apply (step_down _ 7 Down calm); [done|]. vm_compute. reflexivity. Qed.

Lemma is_woken : step asleep EUp woken.
Proof. apply step_up. vm_compute. reflexivity. Qed.

Lemma wakes_up : step woken (EResume 7 (Some 0)) (sema_init 0).
Proof. eapply (step_resume _ 7 _ 0 calm); [reflexivity|done|]. vm_compute. reflexivity. Qed.

Lemma semaphore_conserves_witness : exists sem', up asleep = Ok sem'.
Proof.
  destruct (semaphore_conserves 0 [EDown 7 Down None] asleep) as (_&_&H&_); [|exact H].
  apply (run_snoc _ [] (sema_init 0)); [apply run_nil|apply falls_asleep].
Defined.

(** A task takes the semaphore again and again, and each time has to wait. *)
Definition cycle_state (n : nat) : semaphore := match (n mod 3)%nat with 0%nat => sema_init 0 | 1%nat => asleep | _ => woken end.
Definition cycle_event (n : nat) : event := match (n mod 3)%nat with 0%nat => EDown 7 Down None | 1%nat => EUp | _ => EResume 7 (Some 0) end.

Lemma cycle_cases n : (n mod 3 = 0 /\ S n mod 3 = 1 \/ n mod 3 = 1 /\ S n mod 3 = 2 \/ n mod 3 = 2 /\ S n mod 3 = 0)%nat.
Proof. lia. Qed.

Lemma cycle_execution : execution cycle_state cycle_event.
Proof.
  split; [by exists 0|]. intros n. unfold cycle_state, cycle_event. destruct (cycle_cases n) as [[-> ->]|[[-> ->]|[-> ->]]]; [apply falls_asleep|apply is_woken|apply wakes_up].
Qed.

Lemma cycle_fair : fair cycle_state cycle_event.
Proof.
  intros n t w Hw Hr. unfold cycle_state in Hw. unfold cycle_event. destruct (cycle_cases n) as [[E _]|[[E _]|[E _]]]; rewrite E in Hw.
  - simpl in Hw. by rewrite lookup_empty in Hw.
  - simpl in Hw. apply lookup_singleton_Some in Hw as [_ <-]. done.
  - simpl in Hw. apply lookup_singleton_Some in Hw as [<- _]. exists n, (Some 0). rewrite E. done.
Qed.

Lemma semaphore_live_witness : exists m r, (1 <= m)%nat /\ cycle_event m = EResume 7 (Some r) /\ (patient (cycle_state 1) 7 -> r = 0).
Proof.
  apply (semaphore_live cycle_state cycle_event cycle_execution cycle_fair).
  - intros n. destruct (cycle_cases n) as [[E _]|[[E _]|[E _]]]; [exists (n + 1)%nat|exists n|exists (n + 2)%nat]; (split; [lia|]; unfold cycle_event).
    + by replace ((n + 1) mod 3)%nat with 1%nat by lia.
    + by rewrite E.
    + by replace ((n + 2) mod 3)%nat with 1%nat by lia.
  - by eexists.
Defined.
