(* ===== verification/Resource.v ===== *)
(** * Resource: trees of address ranges

    [kernel/resource.c] and the inline functions of [include/linux/ioport.h]. A
    resource is an object of a heap, linked to its parent, to its next sibling
    and to its first child; a pointer is [None] for NULL, and following a pointer
    to no object is a fault. The lock makes every operation atomic, except
    that [__request_region] waits for a muxed region: it then stops and is called
    again. Loops have the number of objects of the heap as fuel. *)

From stdpp Require Import gmap.
From S2P Require Import Prelude.

Definition IORESOURCE_TYPE_BITS : Z := 0x00001f00.
Definition IORESOURCE_MEM : Z := 0x00000200.
Definition IORESOURCE_SIZEALIGN : Z := 0x00040000.
Definition IORESOURCE_STARTALIGN : Z := 0x00080000.
Definition IORESOURCE_MUXED : Z := 0x00400000.
Definition IORESOURCE_EXCLUSIVE : Z := 0x08000000.
Definition IORESOURCE_UNSET : Z := 0x20000000.
Definition IORESOURCE_BUSY : Z := 0x80000000.

Record resource := Res {
  r_start : Z;
  r_end : Z;
  r_name : list Z;
  r_flags : Z;
  r_parent : option Z;
  r_sibling : option Z;
  r_child : option Z
}.

Abbreviation heap := (gmap Z resource).

Definition set_range (r : resource) (start end_ : Z) : resource := Res start end_ (r_name r) (r_flags r) (r_parent r) (r_sibling r) (r_child r).
Definition set_parent (r : resource) (p : option Z) : resource := Res (r_start r) (r_end r) (r_name r) (r_flags r) p (r_sibling r) (r_child r).
Definition set_sibling (r : resource) (p : option Z) : resource := Res (r_start r) (r_end r) (r_name r) (r_flags r) (r_parent r) p (r_child r).
Definition set_child (r : resource) (p : option Z) : resource := Res (r_start r) (r_end r) (r_name r) (r_flags r) (r_parent r) (r_sibling r) p.

(** Access through a pointer, which must not be NULL or stale. *)
Definition get (h : heap) (p : option Z) : outcome resource :=
  match p with
  | Some x => match h !! x with Some r => Ok r | None => Oops end
  | None => Oops
  end.

Definition put (h : heap) (p : option Z) (f : resource -> resource) : outcome heap :=
  match p with
  | Some x => match h !! x with Some r => Ok (<[x := f r]> h) | None => Oops end
  | None => Oops
  end.

Definition rounds (h : heap) : nat := S (S (size h)).

(** ** Inline functions of ioport.h *)

Definition resource_size (r : resource) : Z := u64 (r_end r - r_start r + 1).
Definition resource_type (r : resource) : Z := Z.land (r_flags r) IORESOURCE_TYPE_BITS.

Definition resource_contains (r1 r2 : resource) : bool :=
  if negb (resource_type r1 =? resource_type r2) then false
  else if negb (Z.land (r_flags r1) IORESOURCE_UNSET =? 0) || negb (Z.land (r_flags r2) IORESOURCE_UNSET =? 0) then false
  else (r_start r1 <=? r_start r2) && (r_end r2 <=? r_end r1).

(** ** Pointers to pointers *)

(** [&x->child] or [&x->sibling] *)
Inductive slot := Child (x : option Z) | Sibling (x : option Z).

Definition load (h : heap) (p : slot) : outcome (option Z) :=
  match p with
  | Child x => let* r := get h x in Ok (r_child r)
  | Sibling x => let* r := get h x in Ok (r_sibling r)
  end.

Definition store_slot (h : heap) (p : slot) (v : option Z) : outcome heap :=
  match p with
  | Child x => put h x (fun r => set_child r v)
  | Sibling x => put h x (fun r => set_sibling r v)
  end.

(** ** Requesting and releasing *)

Fixpoint request_loop (fuel : nat) (h : heap) (root new : option Z) (start end_ : Z) (p : slot) : outcome (option Z * heap) :=
  match fuel with
  | O => NoFuel
  | S fuel =>
    let* tmp := load h p in
    let* link := (match tmp with None => Ok true | Some _ => let* t := get h tmp in Ok (end_ <? r_start t) end) in
    if link : bool then
      let* h := put h new (fun r => set_sibling r tmp) in
      let* h := store_slot h p new in
      let* h := put h new (fun r => set_parent r root) in
      Ok (None, h)
    else
      let* t := get h tmp in
      if r_end t <? start then request_loop fuel h root new start end_ (Sibling tmp)
      else Ok (tmp, h)
  end.

(** Returns the resource that is in the way, or NULL. *)
Definition __request_resource (h : heap) (root new : option Z) : outcome (option Z * heap) :=
  let* n := get h new in
  let start := r_start n in
  let end_ := r_end n in
  if end_ <? start then Ok (root, h)
  else
    let* r := get h root in
    if start <? r_start r then Ok (root, h)
    else if r_end r <? end_ then Ok (root, h)
    else request_loop (rounds h) h root new start end_ (Child root).

Fixpoint release_loop (fuel : nat) (h : heap) (old : option Z) (p : slot) : outcome (Z * heap) :=
  match fuel with
  | O => NoFuel
  | S fuel =>
    let* tmp := load h p in
    match tmp with
    | None => Ok (- EINVAL, h)
    | Some _ =>
      if decide (tmp = old) then
        let* t := get h tmp in
        let* h := store_slot h p (r_sibling t) in
        let* h := put h old (fun r => set_parent r None) in
        Ok (0, h)
      else release_loop fuel h old (Sibling tmp)
    end
  end.

Definition __release_resource (h : heap) (old : option Z) : outcome (Z * heap) :=
  let* o := get h old in
  let* _ := get h (r_parent o) in
  release_loop (rounds h) h old (Child (r_parent o)).

Definition request_resource_conflict (h : heap) (root new : option Z) : outcome (option Z * heap) := __request_resource h root new.

Definition request_resource (h : heap) (root new : option Z) : outcome (Z * heap) :=
  let* (conflict, h) := request_resource_conflict h root new in
  Ok (match conflict with Some _ => - EBUSY | None => 0 end, h).

Definition release_resource (h : heap) (old : option Z) : outcome (Z * heap) := __release_resource h old.

(** The loop over the children calls the function itself, so both are one
    definition: [rec] is the recursive call. *)
Fixpoint release_children_loop (fuel : nat) (rec : heap -> option Z -> outcome heap) (h : heap) (p : option Z) : outcome heap :=
  match fuel with
  | O => NoFuel
  | S fuel =>
    match p with
    | None => Ok h
    | Some _ =>
      let tmp := p in
      let* t := get h tmp in
      let p := r_sibling t in
      let* h := put h tmp (fun r => set_sibling (set_parent r None) None) in
      let* h := rec h tmp in
      let* h := put h tmp (fun r => set_range r 0 (u64 (resource_size r - 1))) in
      release_children_loop fuel rec h p
    end
  end.

Fixpoint release_children (depth : nat) (h : heap) (r : option Z) : outcome heap :=
  match depth with
  | O => NoFuel
  | S depth =>
    let* x := get h r in
    let p := r_child x in
    let* h := put h r (fun x => set_child x None) in
    release_children_loop (rounds h) (release_children depth) h p
  end.

Definition __release_child_resources (h : heap) (r : option Z) : outcome heap := release_children (rounds h) h r.

(** ** Walking *)

Fixpoint climb (fuel : nat) (h : heap) (p : option Z) : outcome (option Z) :=
  match fuel with
  | O => NoFuel
  | S fuel =>
    let* r := get h p in
    match r_sibling r, r_parent r with
    | None, Some _ => climb fuel h (r_parent r)
    | s, _ => Ok s
    end
  end.

Definition next_resource (h : heap) (p : option Z) (sibling_only : bool) : outcome (option Z) :=
  let* r := get h p in
  if sibling_only then Ok (r_sibling r)
  else match r_child r with
       | Some _ => Ok (r_child r)
       | None => climb (rounds h) h p
       end.

Fixpoint lookup_loop (fuel : nat) (h : heap) (res : option Z) (start : Z) : outcome (option Z) :=
  match fuel with
  | O => NoFuel
  | S fuel =>
    match res with
    | None => Ok None
    | Some _ =>
      let* r := get h res in
      if r_start r =? start then Ok res else lookup_loop fuel h (r_sibling r) start
    end
  end.

Definition lookup_resource (h : heap) (root : option Z) (start : Z) : outcome (option Z) :=
  let* r := get h root in
  lookup_loop (rounds h) h (r_child r) start.

(** ** Finding a free slot *)

Definition ALIGN (x a : Z) : Z := Z.land (u64 (x + (a - 1))) (u64 (Z.lnot (a - 1))).

(** [alignf] is the caller's function with its data. *)
Record resource_constraint := Constraint { c_min : Z; c_max : Z; c_align : Z; c_alignf : resource -> Z -> Z -> Z }.

Definition simple_align_resource (avail : resource) (size align : Z) : Z := r_start avail.

Definition resource_clip (start end_ min max : Z) : Z * Z :=
  (if start <? min then min else start, if max <? end_ then max else end_).

(** The middle of the loop: the range that fits between [tmp_start] and [tmp_end]. *)
Definition try_gap (flags size : Z) (c : resource_constraint) (tmp_start tmp_end : Z) : option (Z * Z) :=
  let avail := Res (ALIGN tmp_start (c_align c)) tmp_end [] (Z.land flags (Z.lnot IORESOURCE_UNSET)) None None None in
  if tmp_start <=? r_start avail then
    let alloc_start := c_alignf c avail size (c_align c) in
    let alloc := Res alloc_start (u64 (alloc_start + size - 1)) [] (r_flags avail) None None None in
    if resource_contains avail alloc then Some (r_start alloc, r_end alloc) else None
  else None.

(** [root_end] is [root->end]; [this] and [old] are compared as pointers. *)
Fixpoint find_loop (fuel : nat) (h : heap) (root_end : Z) (old : option Z) (flags size : Z) (c : resource_constraint) (tmp_start : Z) (this : option Z)
    : outcome (option (Z * Z)) :=
  match fuel with
  | O => NoFuel
  | S fuel =>
    let* tmp_end :=
      (match this with
       | Some _ => let* t := get h this in Ok (if decide (this = old) then r_end t else u64 (r_start t - 1))
       | None => Ok root_end
       end) in
    let next tmp_start :=
      match this with
      | None => Ok None
      | Some _ =>
        let* t := get h this in
        if r_end t =? root_end then Ok None
        else find_loop fuel h root_end old flags size c (if decide (this = old) then tmp_start else u64 (r_end t + 1)) (r_sibling t)
      end in
    if tmp_end <? tmp_start then next tmp_start
    else
      let '(tmp_start, tmp_end) := resource_clip tmp_start tmp_end (c_min c) (c_max c) in
      match try_gap flags size c tmp_start tmp_end with
      | Some found => Ok (Some found)
      | None => next tmp_start
      end
  end.

(** The new range, or [None] for -EBUSY. *)
Definition __find_resource (h : heap) (root old : option Z) (flags size : Z) (c : resource_constraint) : outcome (option (Z * Z)) :=
  let* r := get h root in
  let this := r_child r in
  let tmp_start := r_start r in
  let* (tmp_start, this) :=
    (match this with
     | None => Ok (tmp_start, this)
     | Some _ =>
       let* t := get h this in
       if r_start t =? r_start r then Ok (if decide (this = old) then r_start t else u64 (r_end t + 1), r_sibling t)
       else Ok (tmp_start, this)
     end) in
  find_loop (rounds h) h (r_end r) old flags size c tmp_start this.

Definition find_resource (h : heap) (root new : option Z) (size : Z) (c : resource_constraint) : outcome (Z * heap) :=
  let* n := get h new in
  let* found := __find_resource h root None (r_flags n) size c in
  match found with
  | Some (start, end_) => let* h := put h new (fun r => set_range r start end_) in Ok (0, h)
  | None => Ok (- EBUSY, h)
  end.

Definition reallocate_resource (h : heap) (root old : option Z) (newsize : Z) (c : resource_constraint) : outcome (Z * heap) :=
  let* o := get h old in
  let* found := __find_resource h root old (r_flags o) newsize c in
  match found with
  | None => Ok (- EBUSY, h)
  | Some (start, end_) =>
    let new := set_range o start end_ in
    if resource_contains new o then
      let* h := put h old (fun r => set_range r start end_) in Ok (0, h)
    else match r_child o with
         | Some _ => Ok (- EBUSY, h)
         | None =>
           if resource_contains o new then
             let* h := put h old (fun r => set_range r start end_) in Ok (0, h)
           else
             let* (_, h) := __release_resource h old in
             let* h := put h old (fun _ => new) in
             let* (conflict, h) := __request_resource h root old in
             match conflict with Some _ => Oops | None => Ok (0, h) end
         end
  end.

(** [alignf] is NULL or a function. *)
Definition allocate_resource (h : heap) (root new : option Z) (size min max align : Z) (alignf : option (resource -> Z -> Z -> Z)) : outcome (Z * heap) :=
  let alignf := match alignf with Some f => f | None => simple_align_resource end in
  let c := Constraint min max align alignf in
  let* n := get h new in
  match r_parent n with
  | Some _ => reallocate_resource h root new size c
  | None =>
    let* (err, h) := find_resource h root new size c in
    if 0 <=? err then
      let* (conflict, h) := __request_resource h root new in
      Ok (match conflict with Some _ => - EBUSY | None => err end, h)
    else Ok (err, h)
  end.

(** ** Inserting above existing resources *)

(** The first loop: descend to the parent. The result is a conflict to return (or
    NULL: inserted), or the parent and its first child in the way. *)
Fixpoint insert_descend (fuel : nat) (h : heap) (parent new : option Z) : outcome ((option Z + option Z * option Z) * heap) :=
  match fuel with
  | O => NoFuel
  | S fuel =>
    let* (first, h) := __request_resource h parent new in
    match first with
    | None => Ok (inl None, h)
    | Some _ =>
      if decide (first = parent) then Ok (inl first, h)
      else if decide (first = new) then Ok (inl first, h)
      else
        let* f := get h first in
        let* n := get h new in
        if (r_start n <? r_start f) || (r_end f <? r_end n) then Ok (inr (parent, first), h)
        else if (r_start f =? r_start n) && (r_end f =? r_end n) then Ok (inr (parent, first), h)
        else insert_descend fuel h first new
    end
  end.

(** The second loop: the last child in the way, or one that overlaps partly. *)
Fixpoint insert_span (fuel : nat) (h : heap) (start end_ : Z) (next : option Z) : outcome (option Z + option Z) :=
  match fuel with
  | O => NoFuel
  | S fuel =>
    let* n := get h next in
    if (r_start n <? start) || (end_ <? r_end n) then Ok (inl next)
    else match r_sibling n with
         | None => Ok (inr next)
         | Some _ =>
           let* s := get h (r_sibling n) in
           if end_ <? r_start s then Ok (inr next) else insert_span fuel h start end_ (r_sibling n)
         end
  end.

(** [for (next = first; next; next = next->sibling) next->parent = new] *)
Fixpoint set_parents (fuel : nat) (h : heap) (next new : option Z) : outcome heap :=
  match fuel with
  | O => NoFuel
  | S fuel =>
    match next with
    | None => Ok h
    | Some _ =>
      let* h := put h next (fun r => set_parent r new) in
      let* n := get h next in
      set_parents fuel h (r_sibling n) new
    end
  end.

(** [while (next->sibling != first) next = next->sibling] *)
Fixpoint before (fuel : nat) (h : heap) (next first : option Z) : outcome (option Z) :=
  match fuel with
  | O => NoFuel
  | S fuel =>
    let* n := get h next in
    if decide (r_sibling n = first) then Ok next else before fuel h (r_sibling n) first
  end.

(** The end: [new] takes the place of the children from [first] to [next]. *)
Definition relink (h : heap) (parent new first next : option Z) : outcome (option Z * heap) :=
  let* l := get h next in
  let* h := put h new (fun r => set_child (set_sibling (set_parent r parent) (r_sibling l)) first) in
  let* h := put h next (fun r => set_sibling r None) in
  let* h := set_parents (rounds h) h first new in
  let* p := get h parent in
  let* h :=
    (if decide (r_child p = first) then put h parent (fun r => set_child r new)
     else
       let* next := before (rounds h) h (r_child p) first in
       put h next (fun r => set_sibling r new)) in
  Ok (None, h).

Definition __insert_resource (h : heap) (parent new : option Z) : outcome (option Z * heap) :=
  let* (x, h) := insert_descend (rounds h) h parent new in
  match x with
  | inl conflict => Ok (conflict, h)
  | inr (parent, first) =>
    let* n := get h new in
    let* y := insert_span (rounds h) h (r_start n) (r_end n) first in
    match y with
    | inl next => Ok (next, h)
    | inr next => relink h parent new first next
    end
  end.

Definition insert_resource_conflict (h : heap) (parent new : option Z) : outcome (option Z * heap) := __insert_resource h parent new.

Definition insert_resource (h : heap) (parent new : option Z) : outcome (Z * heap) :=
  let* (conflict, h) := insert_resource_conflict h parent new in
  Ok (match conflict with Some _ => - EBUSY | None => 0 end, h).

Fixpoint expand_loop (fuel : nat) (h : heap) (root new : option Z) : outcome heap :=
  match fuel with
  | O => NoFuel
  | S fuel =>
    let* (conflict, h) := __insert_resource h root new in
    match conflict with
    | None => Ok h
    | Some _ =>
      if decide (conflict = root) then Ok h
      else
        let* c := get h conflict in
        let* h := put h new (fun n => set_range n (if r_start c <? r_start n then r_start c else r_start n) (if r_end n <? r_end c then r_end c else r_end n)) in
        expand_loop fuel h root new
    end
  end.

Definition insert_resource_expand_to_fit (h : heap) (root new : option Z) : outcome heap :=
  let* n := get h new in
  match r_parent n with
  | Some _ => Ok h
  | None => expand_loop (rounds h) h root new
  end.

(** ** Moving and resizing *)

(** [for (tmp = res->child; tmp; tmp = tmp->sibling)]: all within the range *)
Fixpoint children_within (fuel : nat) (h : heap) (tmp : option Z) (start end_ : Z) : outcome bool :=
  match fuel with
  | O => NoFuel
  | S fuel =>
    match tmp with
    | None => Ok true
    | Some _ =>
      let* t := get h tmp in
      if (r_start t <? start) || (end_ <? r_end t) then Ok false else children_within fuel h (r_sibling t) start end_
    end
  end.

(** The checks against the parent and the neighbours; [true] goes on. *)
Definition adjust_outside (h : heap) (res : option Z) (r : resource) (start end_ : Z) : outcome bool :=
  let* p := get h (r_parent r) in
  if (start <? r_start p) || (r_end p <? end_) then Ok false
  else
    let* clash := (match r_sibling r with None => Ok false | Some _ => let* s := get h (r_sibling r) in Ok (r_start s <=? end_) end) in
    if clash : bool then Ok false
    else if decide (r_child p = res) then Ok true
    else
      let* tmp := before (rounds h) h (r_child p) res in
      let* t := get h tmp in
      Ok (negb (start <=? r_end t)).

Definition __adjust_resource (h : heap) (res : option Z) (start size : Z) : outcome (Z * heap) :=
  let* r := get h res in
  let end_ := u64 (start + size - 1) in
  let* outside := (match r_parent r with None => Ok true | Some _ => adjust_outside h res r start end_ end) in
  if negb outside then Ok (- EBUSY, h)
  else
    let* inside := children_within (rounds h) h (r_child r) start end_ in
    if negb inside then Ok (- EBUSY, h)
    else
      let* h := put h res (fun r => set_range r start end_) in
      Ok (0, h).

Definition adjust_resource (h : heap) (res : option Z) (start size : Z) : outcome (Z * heap) := __adjust_resource h res start size.

Definition resource_alignment (res : resource) : Z :=
  let f := Z.land (r_flags res) (Z.lor IORESOURCE_SIZEALIGN IORESOURCE_STARTALIGN) in
  if f =? IORESOURCE_SIZEALIGN then resource_size res
  else if f =? IORESOURCE_STARTALIGN then r_start res
  else 0.

(** ** Allocation of descriptors *)

(** The heap, the list of descriptors from boot memory that can be reused, and
    the results [kzalloc] is going to return. *)
Record store := Store { objs : heap; bootmem_resource_free : option Z; kzalloc : list (option Z) }.

Definition with_objs (s : store) (h : heap) : store := Store h (bootmem_resource_free s) (kzalloc s).

Definition zeroed : resource := Res 0 0 [] 0 None None None.

(** [slab x] is [PageSlab(virt_to_head_page(x))]. *)
Definition free_resource (slab : Z -> bool) (s : store) (res : option Z) : outcome store :=
  match res with
  | None => Ok s
  | Some x =>
    if negb (slab x) then
      let* h := put (objs s) res (fun r => set_sibling r (bootmem_resource_free s)) in
      Ok (Store h res (kzalloc s))
    else
      let* _ := get (objs s) res in
      Ok (Store (delete x (objs s)) (bootmem_resource_free s) (kzalloc s))
  end.

Definition alloc_resource (s : store) : outcome (option Z * store) :=
  match bootmem_resource_free s with
  | Some x =>
    let* r := get (objs s) (Some x) in
    Ok (Some x, Store (<[x := zeroed]> (objs s)) (r_sibling r) (kzalloc s))
  | None =>
    match kzalloc s with
    | Some x :: l => Ok (Some x, Store (<[x := zeroed]> (objs s)) None l)
    | None :: l => Ok (None, Store (objs s) None l)
    | [] => Ok (None, s)
    end
  end.

(** ** Busy regions *)

(** What a call comes to: the region, nothing, or a wait for a muxed region, after
    which it goes on with the parent it had reached. *)
Inductive region_result := Got (res : option Z) | Refused | Waits (res parent : option Z).

Fixpoint request_region_loop (fuel : nat) (slab : Z -> bool) (s : store) (parent res : option Z) (flags : Z) : outcome (region_result * store) :=
  match fuel with
  | O => NoFuel
  | S fuel =>
    let* (conflict, h) := __request_resource (objs s) parent res in
    let s := with_objs s h in
    match conflict with
    | None => Ok (Got res, s)
    | Some _ =>
      let* c := get h conflict in
      if bool_decide (conflict <> parent) && (Z.land (r_flags c) IORESOURCE_BUSY =? 0) then request_region_loop fuel slab s conflict res flags
      else if negb (Z.land (Z.land (r_flags c) flags) IORESOURCE_MUXED =? 0) then Ok (Waits res parent, s)
      else
        let* s := free_resource slab s res in
        Ok (Refused, s)
    end
  end.

Definition __request_region (slab : Z -> bool) (s : store) (parent : option Z) (start n : Z) (name : list Z) (flags : Z) : outcome (region_result * store) :=
  let* (res, s) := alloc_resource s in
  match res with
  | None => Ok (Refused, s)
  | Some _ =>
    let* p := get (objs s) parent in
    let* h := put (objs s) res (fun r => Res start (u64 (start + n - 1)) name (Z.lor (resource_type p) (Z.lor IORESOURCE_BUSY flags)) (r_parent r) (r_sibling r) (r_child r)) in
    request_region_loop (rounds h) slab (with_objs s h) parent res flags
  end.

(** The search of [__release_region]: the slot that points to the region. *)
Fixpoint release_region_loop (fuel : nat) (h : heap) (p : slot) (start end_ : Z) : outcome (option (slot * option Z)) :=
  match fuel with
  | O => NoFuel
  | S fuel =>
    let* res := load h p in
    match res with
    | None => Ok None
    | Some _ =>
      let* r := get h res in
      if (r_start r <=? start) && (end_ <=? r_end r) then
        if Z.land (r_flags r) IORESOURCE_BUSY =? 0 then release_region_loop fuel h (Child res) start end_
        else if negb (r_start r =? start) || negb (r_end r =? end_) then Ok None
        else Ok (Some (p, res))
      else release_region_loop fuel h (Sibling res) start end_
    end
  end.

(** Returns whether a region was freed. *)
Definition __release_region (slab : Z -> bool) (s : store) (parent : option Z) (start n : Z) : outcome (bool * store) :=
  let end_ := u64 (start + n - 1) in
  let* found := release_region_loop (rounds (objs s)) (objs s) (Child parent) start end_ in
  match found with
  | None => Ok (false, s)
  | Some (p, res) =>
    let* r := get (objs s) res in
    let* h := store_slot (objs s) p (r_sibling r) in
    let* s := free_resource slab (with_objs s h) res in
    Ok (true, s)
  end.

Definition busy_region (name : list Z) (start end_ : Z) (r : resource) : resource :=
  Res start end_ name IORESOURCE_BUSY (r_parent r) (r_sibling r) (r_child r).

Fixpoint split_loop (fuel : nat) (slab : Z -> bool) (s : store) (parent res next_res : option Z) (name : list Z) : outcome store :=
  match fuel with
  | O => NoFuel
  | S fuel =>
    let* (conflict, h) := __request_resource (objs s) parent res in
    let s := with_objs s h in
    match conflict with
    | None =>
      match next_res with
      | None => Ok s
      | Some _ => split_loop fuel slab s parent next_res None name
      end
    | Some _ =>
      let* c := get h conflict in
      let* r := get h res in
      if (r_start c <=? r_start r) && (r_end r <=? r_end c) then free_resource slab s res
      else if r_start r <? r_start c then
        let end_ := r_end r in
        let* h := put h res (fun r => set_range r (r_start r) (u64 (r_start c - 1))) in
        let s := with_objs s h in
        if r_end c <? end_ then
          let* (next_res, s) := alloc_resource s in
          match next_res with
          | None => free_resource slab s res
          | Some _ =>
            let* h := put (objs s) next_res (busy_region name (u64 (r_end c + 1)) end_) in
            split_loop fuel slab (with_objs s h) parent res next_res name
          end
        else split_loop fuel slab s parent res next_res name
      else
        let* h := put h res (fun r => set_range r (u64 (r_end c + 1)) (r_end r)) in
        split_loop fuel slab (with_objs s h) parent res next_res name
    end
  end.

(** Two rounds for every resource in the way, and for the piece after it. *)
Definition __reserve_region_with_split (slab : Z -> bool) (s : store) (root : option Z) (start end_ : Z) (name : list Z) : outcome store :=
  let* (res, s) := alloc_resource s in
  match res with
  | None => Ok s
  | Some _ =>
    let* h := put (objs s) res (busy_region name start end_) in
    split_loop (4 * rounds h) slab (with_objs s h) root res None name
  end.

Definition reserve_region_with_split (slab : Z -> bool) (s : store) (root : option Z) (start end_ : Z) (name : list Z) : outcome store :=
  let* r := get (objs s) root in
  if (start <? r_start r) || (r_end r <? end_) then
    if (r_end r <? start) || (end_ <? r_start r) then Ok s
    else
      __reserve_region_with_split slab s root (if start <? r_start r then r_start r else start) (if r_end r <? end_ then r_end r else end_) name
  else __reserve_region_with_split slab s root start end_ name.
