(* ===== verification/ResourceFacts.v ===== *)
(** * ResourceFacts: the invariant of a resource tree, and the basic operations *)

From stdpp Require Import gmap.
From S2P Require Import Prelude Resource.

(** ** The invariant *)

(** [K x] are the children of [x] in the order of the list. The parent pointers
    agree with the lists and do not form a cycle ([D] is a depth); children are
    proper ranges within their parent, disjoint and in ascending order. *)
Record tree (h : heap) (K : Z -> list Z) (D : Z -> nat) : Prop := Tree {
  t_child : forall x r, h !! x = Some r -> r_child r = K x !! 0%nat;
  t_sibling : forall x i y r, K x !! i = Some y -> h !! y = Some r -> r_sibling r = K x !! S i;
  t_parent : forall x y, y ∈ K x <-> exists r, h !! y = Some r /\ r_parent r = Some x;
  t_live : forall x y, y ∈ K x -> is_Some (h !! x);
  t_nested : forall x y rx ry, y ∈ K x -> h !! x = Some rx -> h !! y = Some ry -> r_start rx <= r_start ry /\ r_start ry <= r_end ry /\ r_end ry <= r_end rx;
  t_order : forall x i j y z ry rz, K x !! i = Some y -> K x !! j = Some z -> (i < j)%nat -> h !! y = Some ry -> h !! z = Some rz -> r_end ry < r_start rz;
  t_depth : forall x y, y ∈ K x -> (D x < D y)%nat;
  t_range : forall x r, h !! x = Some r -> 0 <= r_start r < 2 ^ 64 /\ 0 <= r_end r < 2 ^ 64 }.

Section Tree.

Context (h : heap) (K : Z -> list Z) (D : Z -> nat).
Hypothesis (Ht : tree h K D).

Lemma child_lookup x y : y ∈ K x -> exists r, h !! y = Some r /\ r_parent r = Some x.
Proof. apply (t_parent _ _ _ Ht). Qed.

Lemma child_at x i y : K x !! i = Some y -> exists r, h !! y = Some r /\ r_parent r = Some x.
Proof. intros Hi. apply child_lookup. by eapply list_elem_of_lookup_2. Qed.

(** A resource has one parent. *)
Lemma child_unique x x' y : y ∈ K x -> y ∈ K x' -> x = x'.
Proof. intros (r&Hr&Hp)%child_lookup (r'&Hr'&Hp')%child_lookup. congruence. Qed.

Lemma orphan x y r : h !! y = Some r -> r_parent r = None -> y ∉ K x.
Proof. intros Hr Hp (r'&Hr'&Hp')%child_lookup. congruence. Qed.

Lemma children_nodup x : base.NoDup (K x).
Proof.
  apply NoDup_alt. intros i j y Hi Hj. destruct (child_at x i y Hi) as (r&Hr&_). destruct (t_live _ _ _ Ht x y) as [rx Hx]; [by eapply list_elem_of_lookup_2|].
  assert (Hn : r_start r <= r_end r) by (eapply (t_nested _ _ _ Ht x y); [by eapply list_elem_of_lookup_2|done|done]).
  destruct (decide (i < j)%nat) as [Hlt|]; [pose proof (t_order _ _ _ Ht x i j y y r r Hi Hj Hlt Hr Hr); lia|].
  destruct (decide (j < i)%nat) as [Hlt|]; [pose proof (t_order _ _ _ Ht x j i y y r r Hj Hi Hlt Hr Hr); lia|lia].
Qed.

(** The loops have enough fuel. *)
Lemma children_count x : (length (K x) <= size h)%nat.
Proof.
  rewrite <- (length_map id), List.map_id. assert (Hsub : list_to_set (K x) ⊆@{gset Z} dom h).
  { intros y Hy. apply elem_of_list_to_set in Hy. destruct (child_lookup x y Hy) as (r&Hr&_). by apply elem_of_dom_2 in Hr. }
  apply subseteq_size in Hsub. rewrite size_list_to_set, size_dom in Hsub by apply children_nodup. lia.
Qed.

(** ** Slots *)

(** The pointer that points to the child number [i] of [x], or past the last. *)
Definition slot_at (x : Z) (i : nat) : slot := match i with O => Child (Some x) | S i => Sibling (K x !! i) end.

Lemma load_slot x i : is_Some (h !! x) -> (i <= length (K x))%nat -> load h (slot_at x i) = Ok (K x !! i).
Proof.
  intros [rx Hx] Hi. destruct i as [|i]; simpl.
  - rewrite Hx. simpl. f_equal. by apply (t_child _ _ _ Ht).
  - destruct (lookup_lt_is_Some_2 (K x) i ltac:(lia)) as [y Hy]. rewrite Hy. simpl. destruct (child_at x i y Hy) as (r&Hr&_). rewrite Hr. simpl. f_equal. by apply (t_sibling _ _ _ Ht x i y).
Qed.

End Tree.

(** ** Storing to a slot *)

Definition adjust_slot (p : slot) (v : option Z) (y : Z) (r : resource) : resource :=
  match p with
  | Child x => if decide (x = Some y) then set_child r v else r
  | Sibling x => if decide (x = Some y) then set_sibling r v else r
  end.

Lemma adjust_slot_core p v y r : r_start (adjust_slot p v y r) = r_start r /\ r_end (adjust_slot p v y r) = r_end r /\ r_parent (adjust_slot p v y r) = r_parent r.
Proof. destruct p; simpl; case_decide; done. Qed.

Definition slot_obj (p : slot) : option Z := match p with Child x => x | Sibling x => x end.

Lemma put_Ok h x r f : h !! x = Some r -> put h (Some x) f = Ok (<[x := f r]> h).
Proof. intros Hx. simpl. by rewrite Hx. Qed.

Lemma get_Ok h x r : h !! x = Some r -> get h (Some x) = Ok r.
Proof. intros Hx. simpl. by rewrite Hx. Qed.

Lemma store_slot_spec h p v x r : slot_obj p = Some x -> h !! x = Some r ->
  exists h', store_slot h p v = Ok h' /\ forall y, h' !! y = adjust_slot p v y <$> h !! y.
Proof.
  intros Hp Hx. destruct p as [q|q]; simpl in Hp; subst q; simpl; rewrite Hx; eexists; (split; [done|]); intros y; (destruct (decide (x = y)) as [<-|Hne]; [rewrite lookup_insert_eq, Hx; simpl; by rewrite decide_True|]);
    rewrite lookup_insert_ne by done; destruct (h !! y) as [ry|]; simpl; [|done| |done]; by rewrite decide_False by congruence.
Qed.

(** ** Inserting into a list *)

Definition ins {A} (i : nat) (x : A) (l : list A) : list A := take i l ++ x :: drop i l.

Lemma lookup_ins {A} i (x : A) l j : (i <= length l)%nat -> ins i x l !! j = if (j <? i)%nat then l !! j else if (j =? i)%nat then Some x else l !! (j - 1)%nat.
Proof.
  intros Hi. unfold ins. destruct (j <? i)%nat eqn:E; [rewrite lookup_app_l by (rewrite length_take; lia); by rewrite lookup_take_lt by lia|].
  rewrite lookup_app_r by (rewrite length_take; lia). rewrite length_take, Nat.min_l by lia. destruct (j =? i)%nat eqn:E2; [by replace (j - i)%nat with 0%nat by lia|].
  replace (j - i)%nat with (S (j - 1 - i)) by lia. simpl. rewrite lookup_drop. f_equal. lia.
Qed.

Lemma elem_of_ins {A} i (x y : A) l : y ∈ ins i x l <-> y = x \/ y ∈ l.
Proof. unfold ins. rewrite elem_of_app, elem_of_cons. rewrite <- (take_drop i l) at 3. rewrite elem_of_app. tauto. Qed.

Definition upd (K : Z -> list Z) (x : Z) (l : list Z) (y : Z) : list Z := if decide (y = x) then l else K y.

Lemma upd_eq K x l : upd K x l x = l.
Proof. unfold upd. by rewrite decide_True. Qed.

Lemma upd_ne K x l y : y <> x -> upd K x l y = K y.
Proof. intros H. unfold upd. by rewrite decide_False. Qed.

(** ** Linking a new resource *)

(** [h'] is [h] with [new] made the child number [i] of [x]. *)
Definition linked (h : heap) (K : Z -> list Z) (x : Z) (i : nat) (new : Z) (h' : heap) : Prop :=
  forall y, h' !! y = if decide (y = new) then (fun r => set_parent (set_sibling r (K x !! i)) (Some x)) <$> h !! new else adjust_slot (slot_at K x i) (Some new) y <$> h !! y.

Lemma link_spec h K D x i new rn : tree h K D -> is_Some (h !! x) -> (i <= length (K x))%nat -> h !! new = Some rn -> new <> x -> new ∉ K x ->
  exists h', (let* h := put h (Some new) (fun r => set_sibling r (K x !! i)) in let* h := store_slot h (slot_at K x i) (Some new) in let* h := put h (Some new) (fun r => set_parent r (Some x)) in Ok (@None Z, h)) = Ok (None, h') /\
    linked h K x i new h'.
Proof.
  intros Ht [rx Hx] Hi Hn Hne Hout. rewrite (put_Ok _ _ _ _ Hn). cbn [obind].
  assert (Hs : exists z rz, slot_obj (slot_at K x i) = Some z /\ z <> new /\ h !! z = Some rz).
  { destruct i as [|i]; simpl; [by exists x, rx|]. destruct (lookup_lt_is_Some_2 (K x) i ltac:(lia)) as [z Hz]. destruct (child_at _ _ _ Ht _ _ _ Hz) as (rz&Hrz&_). exists z, rz. split; [done|]. split; [|done].
    intros ->. apply Hout. by eapply list_elem_of_lookup_2. }
  destruct Hs as (z&rz&Hz&Hzn&Hrz). destruct (store_slot_spec (<[new := set_sibling rn (K x !! i)]> h) (slot_at K x i) (Some new) z rz Hz) as (h1&->&Hh1); [by rewrite lookup_insert_ne|]. cbn [obind].
  assert (Hn1 : h1 !! new = Some (set_sibling rn (K x !! i))).
  { rewrite Hh1, lookup_insert_eq. simpl. f_equal. destruct (slot_at K x i) as [q|q]; simpl in *; by rewrite decide_False by congruence. }
  rewrite (put_Ok _ _ _ _ Hn1). cbn [obind]. eexists. split; [done|]. intros y. destruct (decide (y = new)) as [->|Hy]; [rewrite lookup_insert_eq, Hn; done|].
  rewrite lookup_insert_ne, Hh1, lookup_insert_ne by done. done.
Qed.

(** What the fields of a linked heap come from. *)
Lemma linked_inv h K x i new h' y r' : linked h K x i new h' -> h' !! y = Some r' ->
  exists r, h !! y = Some r /\ r_start r' = r_start r /\ r_end r' = r_end r /\
    r_parent r' = (if decide (y = new) then Some x else r_parent r).
Proof.
  intros Hl Hy. rewrite Hl in Hy. destruct (decide (y = new)) as [->|Hne].
  - apply fmap_Some in Hy as (r&Hr&->). by exists r.
  - apply fmap_Some in Hy as (r&Hr&->). destruct (adjust_slot_core (slot_at K x i) (Some new) y r) as (H1&H2&H3). by exists r.
Qed.

Lemma linked_ahead h K x i new h' y r : linked h K x i new h' -> h !! y = Some r -> exists r', h' !! y = Some r'.
Proof. intros Hl Hy. rewrite Hl. destruct (decide (y = new)) as [->|Hne]; rewrite Hy; eauto. Qed.

(** The new range lies in the parent, between its neighbours. *)
Definition fits (h : heap) (K : Z -> list Z) (x : Z) (i : nat) (start end_ : Z) : Prop :=
  (forall rx, h !! x = Some rx -> r_start rx <= start /\ end_ <= r_end rx) /\ start <= end_ /\
  (forall j y r, K x !! j = Some y -> h !! y = Some r -> if (j <? i)%nat then r_end r < start else end_ < r_start r).

Lemma linked_sibling h K D x i new rn h' z j y r' : tree h K D -> (i <= length (K x))%nat -> h !! new = Some rn -> r_parent rn = None -> linked h K x i new h' ->
  upd K x (ins i new (K x)) z !! j = Some y -> h' !! y = Some r' -> r_sibling r' = upd K x (ins i new (K x)) z !! S j.
Proof.
  intros Ht Hi Hn Hpar Hl Hj Hy. pose proof Ht as [Tc Ts Tp Tl Tn To Td Tr]. assert (Hout : forall z, new ∉ K z) by (intros w; by eapply orphan).
  destruct (linked_inv _ _ _ _ _ _ _ _ Hl Hy) as (r&Hr&_). rewrite Hl in Hy. destruct (decide (z = x)) as [->|Hz].
  - rewrite upd_eq in *. rewrite lookup_ins in * by done. destruct (j <? i)%nat eqn:Eji.
    + destruct (decide (y = new)) as [->|Hyn]; [by apply list_elem_of_lookup_2, Hout in Hj|]. rewrite Hr in Hy. injection Hy as <-. destruct i as [|i]; [lia|]. cbn [slot_at adjust_slot].
      destruct (S j <? S i)%nat eqn:E2.
      * rewrite decide_False; [by apply (Ts x j y)|]. intros Hi'. pose proof (proj1 (NoDup_alt _) (children_nodup _ _ _ Ht x) _ _ _ Hj Hi'). lia.
      * replace (S j =? S i)%nat with true by lia. replace i with j by lia. by rewrite decide_True.
    + replace (S j <? i)%nat with false by lia. replace (S j =? i)%nat with false by lia. destruct (j =? i)%nat eqn:Eji2.
      * injection Hj as <-. rewrite decide_True in Hy by done. rewrite Hn in Hy. injection Hy as <-. simpl. f_equal. lia.
      * destruct (decide (y = new)) as [->|Hyn]; [by apply list_elem_of_lookup_2, Hout in Hj|]. rewrite Hr in Hy. injection Hy as <-.
         assert (Hsib : r_sibling r = K x !! j) by (rewrite (Ts x _ y r Hj Hr); f_equal; lia). rewrite Nat.sub_succ, Nat.sub_0_r. rewrite <- Hsib. destruct i as [|i]; simpl; case_decide as Hd; simpl; try done.
         pose proof (proj1 (NoDup_alt _) (children_nodup _ _ _ Ht x) _ _ _ Hj Hd). lia.
  - rewrite upd_ne in * by done. destruct (decide (y = new)) as [->|Hyn]; [by apply list_elem_of_lookup_2, Hout in Hj|]. rewrite Hr in Hy. injection Hy as <-. rewrite <- (Ts z j y r Hj Hr).
    destruct i as [|i]; simpl; case_decide as Hd; simpl; try done. exfalso. apply Hz. eapply child_unique; [exact Ht|by eapply list_elem_of_lookup_2|by eapply list_elem_of_lookup_2].
Qed.

Lemma tree_link h K D x i new rn h' : tree h K D -> is_Some (h !! x) -> (i <= length (K x))%nat -> h !! new = Some rn -> new <> x -> r_parent rn = None -> r_child rn = None ->
  fits h K x i (r_start rn) (r_end rn) -> linked h K x i new h' -> tree h' (upd K x (ins i new (K x))) (fun y => if decide (y = new) then S (D x) else D y).
Proof.
  intros Ht Hx Hi Hn Hne Hpar Hch (Hin&Hse&Hnb) Hl. pose proof Ht as [Tc Ts Tp Tl Tn To Td Tr].
  assert (Hout : forall z, new ∉ K z) by (intros z; by eapply orphan).
  assert (Hkn : K new = []). { pose proof (Tc new rn Hn) as H0. rewrite Hch in H0. destruct (K new); [done|]. simpl in H0. done. }
  assert (Hmem : forall z y, y ∈ upd K x (ins i new (K x)) z <-> (y = new /\ z = x) \/ y ∈ K z).
  { intros z y. destruct (decide (z = x)) as [->|Hz]; [rewrite upd_eq, elem_of_ins; tauto|rewrite upd_ne by done; tauto]. }
  split.
  - intros z r' Hz. destruct (linked_inv _ _ _ _ _ _ _ _ Hl Hz) as (r&Hr&_). rewrite Hl in Hz. destruct (decide (z = new)) as [->|Hzn].
    + rewrite upd_ne, Hkn by done. rewrite Hn in Hz. injection Hz as <-. done.
    + rewrite Hr in Hz. injection Hz as <-. destruct (decide (z = x)) as [->|Hzx].
      * rewrite upd_eq, lookup_ins by done. destruct i as [|i]; simpl; [by rewrite decide_True|]. case_decide; simpl; by apply Tc.
      * rewrite upd_ne by done. rewrite <- (Tc z r Hr). destruct i as [|i]; simpl; case_decide; simpl; congruence.
  - intros z j y r'. by apply (linked_sibling h K D x i new rn h').
  - intros z y. rewrite Hmem, Tp. split.
    + intros [[-> ->]|(r&Hr&Hp)].
      * destruct (linked_ahead _ _ _ _ _ _ _ _ Hl Hn) as (r'&Hr'). exists r'. split; [done|]. destruct (linked_inv _ _ _ _ _ _ _ _ Hl Hr') as (r0&_&_&_&Hpp). by rewrite decide_True in Hpp.
      * destruct (linked_ahead _ _ _ _ _ _ _ _ Hl Hr) as (r'&Hr'). exists r'. split; [done|]. destruct (linked_inv _ _ _ _ _ _ _ _ Hl Hr') as (r0&Hr0&_&_&Hpp). rewrite decide_False in Hpp; [congruence|]. intros ->. congruence.
    + intros (r'&Hr'&Hp'). destruct (linked_inv _ _ _ _ _ _ _ _ Hl Hr') as (r0&Hr0&_&_&Hpp). destruct (decide (y = new)) as [->|Hyn]; [left; split; [done|congruence]|right; exists r0; split; [done|congruence]].
  - intros z y [[-> ->]|Hin']%Hmem; [|apply Tl in Hin']; (destruct Hx as [rx Hx] || idtac); [by eapply linked_ahead in Hx|destruct Hin' as [rz Hz]; by eapply linked_ahead in Hz].
  - intros z y rz ry [[-> ->]|Hy]%Hmem Hrz Hry; destruct (linked_inv _ _ _ _ _ _ _ _ Hl Hrz) as (rz0&Hrz0&->&->&_); destruct (linked_inv _ _ _ _ _ _ _ _ Hl Hry) as (ry0&Hry0&->&->&_); [|by apply (Tn z y)].
    rewrite Hn in Hry0. injection Hry0 as <-. destruct (Hin _ Hrz0). lia.
  - intros z j k a b ra rb Ha Hb Hjk Hra Hrb. destruct (linked_inv _ _ _ _ _ _ _ _ Hl Hra) as (ra0&Hra0&_&->&_). destruct (linked_inv _ _ _ _ _ _ _ _ Hl Hrb) as (rb0&Hrb0&->&_).
    destruct (decide (z = x)) as [->|Hz]; [|rewrite upd_ne in Ha, Hb by done; by apply (To z j k a b ra0 rb0)]. rewrite upd_eq, lookup_ins in Ha, Hb by done.
    destruct (j <? i)%nat eqn:Ej; [|destruct (j =? i)%nat eqn:Ej2]; (destruct (k <? i)%nat eqn:Ek; [|destruct (k =? i)%nat eqn:Ek2]); try lia.
    + by eapply (To x j k).
    + injection Hb as <-. rewrite Hn in Hrb0. injection Hrb0 as <-. specialize (Hnb _ _ _ Ha Hra0). rewrite Ej in Hnb. lia.
    + eapply (To x j (k - 1)%nat); [done|done|lia|done|done].
    + injection Ha as <-. rewrite Hn in Hra0. injection Hra0 as <-. specialize (Hnb _ _ _ Hb Hrb0). replace (k - 1 <? i)%nat with false in Hnb by lia. lia.
    + eapply (To x (j - 1)%nat (k - 1)%nat); [done|done|lia|done|done].
  - intros z y [[-> ->]|Hy]%Hmem; [rewrite (decide_False (P := x = new)), decide_True by congruence; lia|]. rewrite (decide_False (P := y = new)) by (intros ->; by apply Hout in Hy). case_decide as Hzn; [|by apply Td]. subst z. rewrite Hkn in Hy. by apply not_elem_of_nil in Hy.
  - intros z r' Hz. destruct (linked_inv _ _ _ _ _ _ _ _ Hl Hz) as (r&Hr&->&->&_). by apply (Tr z).
Qed.

(** ** Requesting *)

(** A new descriptor: not in a tree, and without children. *)
Definition fresh (h : heap) (new : Z) (rn : resource) : Prop := h !! new = Some rn /\ r_parent rn = None /\ r_child rn = None.

(** [y] is the first child of [x] that overlaps the range. *)
Definition first_overlap (h : heap) (K : Z -> list Z) (x : Z) (start end_ : Z) (y : Z) : Prop :=
  exists i r, K x !! i = Some y /\ h !! y = Some r /\ r_start r <= end_ /\ start <= r_end r /\ forall j z rz, (j < i)%nat -> K x !! j = Some z -> h !! z = Some rz -> r_end rz < start.

Lemma request_loop_spec h K D x new rn start end_ : tree h K D -> is_Some (h !! x) -> fresh h new rn -> new <> x -> forall fuel i, (i <= length (K x))%nat -> (length (K x) - i < fuel)%nat ->
  (forall j y r, (j < i)%nat -> K x !! j = Some y -> h !! y = Some r -> r_end r < start) ->
  (exists i' h', request_loop fuel h (Some x) (Some new) start end_ (slot_at K x i) = Ok (None, h') /\ (i' <= length (K x))%nat /\ linked h K x i' new h' /\
     (forall j y r, (j < i')%nat -> K x !! j = Some y -> h !! y = Some r -> r_end r < start) /\ (forall y r, K x !! i' = Some y -> h !! y = Some r -> end_ < r_start r)) \/
  (exists y, request_loop fuel h (Some x) (Some new) start end_ (slot_at K x i) = Ok (Some y, h) /\ first_overlap h K x start end_ y).
Proof.
  intros Ht Hx (Hn&Hp&_) Hne. induction fuel as [|fuel IH]; intros i Hi Hf Hpre; [lia|]. cbn [request_loop]. rewrite (load_slot _ _ _ Ht) by done. cbn [obind].
  assert (Hlink : (forall y r, K x !! i = Some y -> h !! y = Some r -> end_ < r_start r) -> exists i' h',
    (let* h := put h (Some new) (fun r => set_sibling r (K x !! i)) in let* h := store_slot h (slot_at K x i) (Some new) in let* h := put h (Some new) (fun r => set_parent r (Some x)) in Ok (@None Z, h)) = Ok (None, h') /\
    (i' <= length (K x))%nat /\ linked h K x i' new h' /\ (forall j y r, (j < i')%nat -> K x !! j = Some y -> h !! y = Some r -> r_end r < start) /\ (forall y r, K x !! i' = Some y -> h !! y = Some r -> end_ < r_start r)).
  { intros Hafter. destruct (link_spec h K D x i new rn Ht Hx Hi Hn Hne) as (h'&Hrun&Hl); [by eapply orphan|]. by exists i, h'. }
  destruct (K x !! i) as [y|] eqn:Ey; [|left; by apply Hlink].
  destruct (child_at _ _ _ Ht _ _ _ Ey) as (r&Hr&_). rewrite (get_Ok _ _ _ Hr). cbn [obind]. destruct (end_ <? r_start r) eqn:E1; [left; apply Hlink; intros y' r' [= <-] Hr'; assert (r' = r) by congruence; subst; lia|].
  destruct (r_end r <? start) eqn:E2.
  - specialize (IH (S i)). cbn [slot_at] in IH. rewrite Ey in IH. apply lookup_lt_Some in Ey as Hlt. apply IH; [lia|lia|]. intros j z rz Hj Hz Hrz. destruct (decide (j = i)) as [->|]; [|by apply (Hpre j z rz); [lia|..]].
    rewrite Ey in Hz. injection Hz as <-. rewrite Hr in Hrz. injection Hrz as <-. lia.
  - right. exists y. split; [done|]. exists i, r. split; [done|]. split; [done|]. split; [lia|]. split; [lia|]. intros j z rz Hj. by apply (Hpre j).
Qed.

(** What a request comes to: refused by the root, refused by the first child it
    overlaps, or granted in its place. *)
Definition within (r : resource) (start end_ : Z) : Prop := r_start r <= start /\ start <= end_ /\ end_ <= r_end r.

Lemma request_spec h K D x new rx rn : tree h K D -> h !! x = Some rx -> fresh h new rn -> new <> x ->
  (~ within rx (r_start rn) (r_end rn) /\ __request_resource h (Some x) (Some new) = Ok (Some x, h)) \/
  (within rx (r_start rn) (r_end rn) /\ exists y, first_overlap h K x (r_start rn) (r_end rn) y /\ __request_resource h (Some x) (Some new) = Ok (Some y, h)) \/
  (within rx (r_start rn) (r_end rn) /\ exists i h', (i <= length (K x))%nat /\ fits h K x i (r_start rn) (r_end rn) /\ linked h K x i new h' /\ __request_resource h (Some x) (Some new) = Ok (None, h')).
Proof.
  intros Ht Hx Hfr Hne. pose proof Hfr as (Hn&_&_). unfold __request_resource, within. rewrite (get_Ok _ _ _ Hn), (get_Ok _ _ _ Hx). cbn [obind].
  destruct (r_end rn <? r_start rn) eqn:E1; [left; split; [lia|done]|]. destruct (r_start rn <? r_start rx) eqn:E2; [left; split; [lia|done]|]. destruct (r_end rx <? r_end rn) eqn:E3; [left; split; [lia|done]|]. right.
  destruct (request_loop_spec h K D x new rn (r_start rn) (r_end rn) Ht ltac:(eauto) Hfr Hne (rounds h) 0) as [(i&h'&Hrun&Hi&Hl&Hb&Ha)|(y&Hrun&Hov)]; [lia|pose proof (children_count _ _ _ Ht x); unfold rounds; lia|lia| |].
  - right. split; [lia|]. exists i, h'. split; [done|]. split; [|done]. split; [intros rx' Hx'; assert (rx' = rx) by congruence; subst; lia|]. split; [lia|].
    intros j y r Hj Hr. destruct (j <? i)%nat eqn:Eji; [apply (Hb j y r); [lia|done|done]|]. destruct (K x !! i) as [z|] eqn:Ez; [|apply lookup_ge_None in Ez; apply lookup_lt_Some in Hj; lia].
    destruct (child_at _ _ _ Ht _ _ _ Ez) as (rz&Hrz&_). pose proof (Ha z rz eq_refl Hrz). destruct (decide (j = i)) as [->|Hji]; [assert (z = y) by congruence; subst; assert (rz = r) by congruence; subst; lia|].
    pose proof (t_order _ _ _ Ht x i j z y rz r Ez Hj ltac:(lia) Hrz Hr). destruct (t_nested _ _ _ Ht x z rx rz) as (_&?&_); [by eapply list_elem_of_lookup_2|done|done|]. lia.
  - left. split; [lia|]. by exists y.
Qed.

(** ** Releasing *)

(** [h'] is [h] with the child number [i] of [x] taken out. *)
Definition unlinked (h : heap) (K : Z -> list Z) (x : Z) (i : nat) (old : Z) (h' : heap) : Prop :=
  forall y, h' !! y = if decide (y = old) then (fun r => set_parent r None) <$> h !! old else adjust_slot (slot_at K x i) (K x !! S i) y <$> h !! y.

Lemma not_own_child h K D x : tree h K D -> x ∉ K x.
Proof. intros Ht Hin. pose proof (t_depth _ _ _ Ht x x Hin). lia. Qed.

Lemma slot_not_child h K D x i y : tree h K D -> K x !! i = Some y -> exists z, slot_obj (slot_at K x i) = Some z /\ z <> y /\ (is_Some (h !! x) -> is_Some (h !! z)).
Proof.
  intros Ht Hi. destruct i as [|i]; simpl.
  - exists x. split; [done|]. split; [|done]. intros ->. eapply not_own_child; [exact Ht|by eapply list_elem_of_lookup_2].
  - apply lookup_lt_Some in Hi as Hlt. destruct (lookup_lt_is_Some_2 (K x) i ltac:(lia)) as [z Hz]. exists z. split; [done|]. split.
    + intros ->. pose proof (proj1 (NoDup_alt _) (children_nodup _ _ _ Ht x) _ _ _ Hi Hz). lia.
    + intros _. destruct (child_at _ _ _ Ht _ _ _ Hz) as (r&Hr&_). eauto.
Qed.

Lemma res_release_loop_spec h K D x i old : tree h K D -> is_Some (h !! x) -> K x !! i = Some old -> forall fuel j, (j <= i)%nat -> (i - j < fuel)%nat ->
  exists h', release_loop fuel h (Some old) (slot_at K x j) = Ok (0, h') /\ unlinked h K x i old h'.
Proof.
  intros Ht Hx Hi. induction fuel as [|fuel IH]; intros j Hj Hf; [lia|]. cbn [release_loop]. apply lookup_lt_Some in Hi as Hlt. rewrite (load_slot _ _ _ Ht) by (done || lia). cbn [obind].
  destruct (lookup_lt_is_Some_2 (K x) j ltac:(lia)) as [y Hy]. rewrite Hy. destruct (decide (Some y = Some old)) as [[= ->]|Hne].
  - assert (j = i) by (eapply (proj1 (NoDup_alt _) (children_nodup _ _ _ Ht x)); done). subst j. destruct (child_at _ _ _ Ht _ _ _ Hi) as (r&Hr&_). rewrite (get_Ok _ _ _ Hr). cbn [obind].
    destruct (slot_not_child h K D x i old Ht Hi) as (z&Hz&Hzo&Hzl). destruct (Hzl Hx) as [rz Hrz]. rewrite (t_sibling _ _ _ Ht x i old r Hi Hr).
    destruct (store_slot_spec h (slot_at K x i) (K x !! S i) z rz Hz Hrz) as (h1&->&Hh1). cbn [obind].
    assert (Ho : h1 !! old = Some r). { rewrite Hh1, Hr. simpl. f_equal. destruct (slot_at K x i); simpl in *; by rewrite decide_False by congruence. }
    rewrite (put_Ok _ _ _ _ Ho). cbn [obind]. eexists. split; [done|]. intros w. destruct (decide (w = old)) as [->|Hw]; [by rewrite lookup_insert_eq, Hr|]. by rewrite lookup_insert_ne by done.
  - specialize (IH (S j)). cbn [slot_at] in IH. rewrite Hy in IH. assert (j <> i) by congruence. apply IH; lia.
Qed.

Lemma res_release_spec h K D x i old : tree h K D -> K x !! i = Some old -> exists h', __release_resource h (Some old) = Ok (0, h') /\ unlinked h K x i old h'.
Proof.
  intros Ht Hi. destruct (child_at _ _ _ Ht _ _ _ Hi) as (r&Hr&Hp). destruct (t_live _ _ _ Ht x old) as [rx Hx]; [by eapply list_elem_of_lookup_2|].
  unfold __release_resource. rewrite (get_Ok _ _ _ Hr). cbn [obind]. rewrite Hp, (get_Ok _ _ _ Hx). cbn [obind]. apply (res_release_loop_spec h K D x i old Ht ltac:(eauto) Hi (rounds h) 0); [lia|].
  apply lookup_lt_Some in Hi. pose proof (children_count _ _ _ Ht x). unfold rounds. lia.
Qed.

Lemma unlinked_inv h K x i old h' y r' : unlinked h K x i old h' -> h' !! y = Some r' ->
  exists r, h !! y = Some r /\ r_start r' = r_start r /\ r_end r' = r_end r /\ r_parent r' = (if decide (y = old) then None else r_parent r).
Proof.
  intros Hl Hy. rewrite Hl in Hy. destruct (decide (y = old)) as [->|Hne]; apply fmap_Some in Hy as (r&Hr&->); [by exists r|].
  destruct (adjust_slot_core (slot_at K x i) (K x !! S i) y r) as (H1&H2&H3). by exists r.
Qed.

Lemma unlinked_ahead h K x i old h' y r : unlinked h K x i old h' -> h !! y = Some r -> exists r', h' !! y = Some r'.
Proof. intros Hl Hy. rewrite Hl. destruct (decide (y = old)) as [->|Hne]; rewrite Hy; eauto. Qed.

Lemma lookup_del {A} i (l : list A) j : delete i l !! j = if (j <? i)%nat then l !! j else l !! S j.
Proof. destruct (j <? i)%nat eqn:E; [apply list_lookup_delete_lt; lia|apply list_lookup_delete_ge; lia]. Qed.

Lemma elem_of_del {A} i (x y : A) l : base.NoDup l -> l !! i = Some x -> y ∈ delete i l <-> y <> x /\ y ∈ l.
Proof.
  intros Hnd Hi. rewrite !list_elem_of_lookup. split.
  - intros [j Hj]. rewrite lookup_del in Hj. destruct (j <? i)%nat eqn:E; (split; [intros ->; pose proof (proj1 (NoDup_alt _) Hnd _ _ _ Hi Hj); lia|by eexists]).
  - intros [Hne [j Hj]]. destruct (decide (j < i)%nat) as [Hlt|Hge]; [exists j; rewrite lookup_del; by replace (j <? i)%nat with true by lia|].
    assert (j <> i) by congruence. exists (j - 1)%nat. rewrite lookup_del. replace (j - 1 <? i)%nat with false by lia. by replace (S (j - 1)) with j by lia.
Qed.

(** The fields of a heap after an unlinking. *)
Lemma unlinked_sibling h K D x i old h' z j y r' : tree h K D -> K x !! i = Some old -> unlinked h K x i old h' ->
  upd K x (delete i (K x)) z !! j = Some y -> h' !! y = Some r' -> r_sibling r' = upd K x (delete i (K x)) z !! S j.
Proof.
  intros Ht Hi Hl Hj Hy. destruct (unlinked_inv _ _ _ _ _ _ _ _ Hl Hy) as (r&Hr&_). rewrite Hl in Hy. pose proof (proj1 (NoDup_alt _) (children_nodup _ _ _ Ht x)) as Hnd. pose proof (t_sibling _ _ _ Ht) as Ts.
  destruct (decide (z = x)) as [->|Hz].
  - rewrite upd_eq in *. rewrite lookup_del in *. assert (Hyo : y <> old). { intros ->. destruct (j <? i)%nat eqn:E; pose proof (Hnd _ _ _ Hi Hj); lia. }
    rewrite decide_False, Hr in Hy by done. injection Hy as <-. destruct (j <? i)%nat eqn:Eji.
    + destruct i as [|i]; [lia|]. cbn [slot_at adjust_slot]. destruct (S j <? S i)%nat eqn:E2.
      * rewrite decide_False; [by apply (Ts x j y)|]. intros Hi'. pose proof (Hnd _ _ _ Hj Hi'). lia.
      * replace i with j by lia. by rewrite decide_True.
    + replace (S j <? i)%nat with false by lia. assert (Hsib : r_sibling r = K x !! S (S j)) by (by apply (Ts x (S j) y)). rewrite <- Hsib.
      destruct i as [|i]; cbn [slot_at adjust_slot]; case_decide as Hd; try done. pose proof (Hnd _ _ _ Hj Hd). lia.
  - rewrite upd_ne in * by done. assert (Hyz : y ∈ K z) by (by eapply list_elem_of_lookup_2). assert (Hyx : y ∉ K x) by (intros Hyx; apply Hz; by eapply child_unique).
    assert (Hox : old ∈ K x) by (by eapply list_elem_of_lookup_2). rewrite decide_False, Hr in Hy by (intros ->; done). injection Hy as <-. rewrite <- (Ts z j y r Hj Hr).
    destruct i as [|i]; cbn [slot_at adjust_slot]; case_decide as Hd; try done. by apply list_elem_of_lookup_2 in Hd.
Qed.

Lemma tree_unlink h K D x i old h' : tree h K D -> K x !! i = Some old -> unlinked h K x i old h' -> tree h' (upd K x (delete i (K x))) D.
Proof.
  intros Ht Hi Hl. pose proof Ht as [Tc Ts Tp Tl Tn To Td Tr]. pose proof (children_nodup _ _ _ Ht x) as Hnd.
  assert (Hox : old ∈ K x) by (by eapply list_elem_of_lookup_2).
  assert (Hmem : forall z y, y ∈ upd K x (delete i (K x)) z <-> y <> old /\ y ∈ K z).
  { intros z y. destruct (decide (z = x)) as [->|Hz]; [rewrite upd_eq; by apply elem_of_del|]. rewrite upd_ne by done. split; [|tauto]. intros Hy. split; [|done]. intros ->. apply Hz. by eapply child_unique. }
  split.
  - intros z r' Hz. destruct (unlinked_inv _ _ _ _ _ _ _ _ Hl Hz) as (r&Hr&_). rewrite Hl in Hz. assert (Hxo : x <> old) by (intros ->; by eapply not_own_child).
    destruct (decide (z = old)) as [->|Hzo]; [rewrite upd_ne by done; rewrite Hr in Hz; injection Hz as <-; exact (Tc old r Hr)|]. rewrite Hr in Hz. injection Hz as <-. destruct (decide (z = x)) as [->|Hzx].
    + rewrite upd_eq, lookup_del. destruct i as [|i]; cbn [slot_at adjust_slot]; [by rewrite decide_True|]. rewrite <- (Tc x r Hr). by case_decide.
    + rewrite upd_ne by done. rewrite <- (Tc z r Hr). destruct i as [|i]; simpl; case_decide; simpl; congruence.
  - intros z j y r'. by apply (unlinked_sibling h K D x i old h').
  - intros z y. rewrite Hmem, Tp. split.
    + intros (Hne&r&Hr&Hp). destruct (unlinked_ahead _ _ _ _ _ _ _ _ Hl Hr) as (r'&Hr'). exists r'. split; [done|]. destruct (unlinked_inv _ _ _ _ _ _ _ _ Hl Hr') as (r0&Hr0&_&_&Hpp). rewrite decide_False in Hpp by done. congruence.
    + intros (r'&Hr'&Hp'). destruct (unlinked_inv _ _ _ _ _ _ _ _ Hl Hr') as (r0&Hr0&_&_&Hpp). case_decide; [congruence|]. split; [done|]. exists r0. split; [done|congruence].
  - intros z y [_ Hy]%Hmem. destruct (Tl z y Hy) as [rz Hz]. by eapply unlinked_ahead in Hz.
  - intros z y rz ry [_ Hy]%Hmem Hrz Hry. destruct (unlinked_inv _ _ _ _ _ _ _ _ Hl Hrz) as (rz0&Hrz0&->&->&_). destruct (unlinked_inv _ _ _ _ _ _ _ _ Hl Hry) as (ry0&Hry0&->&->&_). by apply (Tn z y).
  - intros z j k a b ra rb Ha Hb Hjk Hra Hrb. destruct (unlinked_inv _ _ _ _ _ _ _ _ Hl Hra) as (ra0&Hra0&_&->&_). destruct (unlinked_inv _ _ _ _ _ _ _ _ Hl Hrb) as (rb0&Hrb0&->&_).
    destruct (decide (z = x)) as [->|Hz]; [|rewrite upd_ne in Ha, Hb by done; by apply (To z j k a b ra0 rb0)]. rewrite upd_eq, lookup_del in Ha, Hb.
    destruct (j <? i)%nat eqn:Ej, (k <? i)%nat eqn:Ek; try lia; (eapply (To x); [exact Ha|exact Hb|lia|done|done]).
  - intros z y [_ Hy]%Hmem. by apply Td.
  - intros z r' Hz. destruct (unlinked_inv _ _ _ _ _ _ _ _ Hl Hz) as (r&Hr&->&->&_). by apply (Tr z).
Qed.
