(* ===== verification/ResourceFind.v ===== *)
(** * ResourceFind: the search for a free slot *)

From stdpp Require Import gmap.
From S2P Require Import Prelude Resource ResourceFacts.

(** ** One gap *)

Lemma ALIGN_pow2 x k : 0 <= x < 2 ^ 64 -> 0 <= k <= 63 ->
  (x <= ALIGN x (2 ^ k) /\ ALIGN x (2 ^ k) < 2 ^ 64 /\ (2 ^ k | ALIGN x (2 ^ k)) /\ forall s, x <= s -> (2 ^ k | s) -> ALIGN x (2 ^ k) <= s) \/
  (ALIGN x (2 ^ k) < x /\ forall s, x <= s < 2 ^ 64 -> ~ (2 ^ k | s)).
Proof.
  intros Hx Hk. assert (Hk0 : 0 < 2 ^ k) by lia. assert (Hk63 : 2 ^ k <= 2 ^ 63) by (apply Z.pow_le_mono_r; lia). unfold ALIGN. rewrite land_ones_compl by (apply wrap_range || lia; lia).
  assert (H64 : 2 ^ 64 = 2 ^ (64 - k) * 2 ^ k) by (rewrite <- Z.pow_add_r; [f_equal|..]; lia).
  assert (Hlow : forall s, x <= s -> (2 ^ k | s) -> x + (2 ^ k - 1) - (x + (2 ^ k - 1)) mod 2 ^ k <= s).
  { intros s Hs [q ->]. pose proof (Z.div_mod (x + (2 ^ k - 1)) (2 ^ k) ltac:(lia)) as Hd. pose proof (Z.mod_pos_bound (x + (2 ^ k - 1)) (2 ^ k) ltac:(lia)).
    assert ((x + (2 ^ k - 1)) / 2 ^ k <= q); [|nia]. apply Z.lt_succ_r. apply Z.div_lt_upper_bound; nia. }
  destruct (decide (x + (2 ^ k - 1) < 2 ^ 64)) as [Hs|Hbig].
  - left. rewrite wrap_small by lia. pose proof (Z.mod_pos_bound (x + (2 ^ k - 1)) (2 ^ k) ltac:(lia)). split; [lia|]. split; [lia|]. split; [|done].
    exists ((x + (2 ^ k - 1)) / 2 ^ k). pose proof (Z.div_mod (x + (2 ^ k - 1)) (2 ^ k) ltac:(lia)). lia.
  - right. assert (Hw : u64 (x + (2 ^ k - 1)) = x + (2 ^ k - 1) - 2 ^ 64). { unfold wrap. replace (x + (2 ^ k - 1)) with (x + (2 ^ k - 1) - 2 ^ 64 + 1 * 2 ^ 64) at 1 by lia. rewrite Z_mod_plus_full, Z.mod_small; lia. }
    rewrite Hw, (Z.mod_small (_ - _)) by lia. split; [lia|]. intros s Hs [q Hq]. assert (2 ^ (64 - k) <= q); [|nia].
    destruct (decide (q < 2 ^ (64 - k))); [|lia]. assert (q * 2 ^ k <= (2 ^ (64 - k) - 1) * 2 ^ k) by (apply Z.mul_le_mono_nonneg_r; lia). lia.
Qed.

Lemma contains_same f s e s' e' : resource_contains (Res s e [] (Z.land f (Z.lnot IORESOURCE_UNSET)) None None None) (Res s' e' [] (Z.land f (Z.lnot IORESOURCE_UNSET)) None None None) = (s <=? s') && (e' <=? e).
Proof.
  unfold resource_contains, resource_type. cbn [r_flags r_start r_end]. rewrite Z.eqb_refl. cbn [negb]. rewrite <- Z.land_assoc. change (Z.land (Z.lnot IORESOURCE_UNSET) IORESOURCE_UNSET) with 0. rewrite Z.land_0_r. done.
Qed.

(** The plain constraint of a caller without an alignment function. *)
Definition plain (min max k : Z) : resource_constraint := Constraint min max (2 ^ k) simple_align_resource.

(** The lowest aligned range from [lo] to [hi]; a size that does not fit the
    address space at all may give a range that ends before it starts. *)
Lemma try_gap_spec flags size min max k lo hi : 0 <= k <= 63 -> 1 <= size < 2 ^ 64 -> 0 <= lo < 2 ^ 64 -> hi < 2 ^ 64 ->
  match try_gap flags size (plain min max k) lo hi with
  | Some (s, e) => lo <= s /\ (2 ^ k | s) /\ (forall s', lo <= s' -> (2 ^ k | s') -> s <= s') /\ s < 2 ^ 64 /\ ((e = s + size - 1 /\ e <= hi) \/ (e < s /\ 2 ^ 64 <= s + size - 1))
  | None => forall s, lo <= s -> (2 ^ k | s) -> s + size - 1 <= hi -> False
  end.
Proof.
  intros Hk Hsz Hlo Hhi. unfold try_gap. cbn [plain c_align c_alignf r_start r_end r_flags]. unfold simple_align_resource. cbn [r_start]. rewrite contains_same, Z.leb_refl. cbn [andb].
  destruct (ALIGN_pow2 lo k Hlo Hk) as [(Hge&Hlt&Hdiv&Hmin)|(Hlt&Hno)].
  - replace (lo <=? ALIGN lo (2 ^ k)) with true by lia. destruct (decide (ALIGN lo (2 ^ k) + size - 1 < 2 ^ 64)) as [Hs|Hbig].
    + rewrite wrap_small by lia. destruct (_ <=? hi) eqn:E; [split; [done|]; split; [done|]; split; [done|]; split; [done|]; left; split; [done|lia]|].
      intros s Hls Hds Hend. pose proof (Hmin s Hls Hds). lia.
    + assert (Hw : u64 (ALIGN lo (2 ^ k) + size - 1) = ALIGN lo (2 ^ k) + size - 1 - 2 ^ 64). { unfold wrap. replace (ALIGN lo (2 ^ k) + size - 1) with (ALIGN lo (2 ^ k) + size - 1 - 2 ^ 64 + 1 * 2 ^ 64) at 1 by lia. rewrite Z_mod_plus_full, Z.mod_small; lia. }
      rewrite Hw. destruct (_ <=? hi) eqn:E; [split; [done|]; split; [done|]; split; [done|]; split; [done|]; right; lia|].
      intros s Hls Hds Hend. pose proof (Hmin s Hls Hds). lia.
  - replace (lo <=? ALIGN lo (2 ^ k)) with false by lia. intros s Hls Hds Hend. apply (Hno s); [lia|done].
Qed.

Lemma ALIGN_range x a : 0 <= ALIGN x a < 2 ^ 64.
Proof.
  unfold ALIGN. assert (Heq : Z.land (u64 (x + (a - 1))) (u64 (Z.lnot (a - 1))) = Z.land (u64 (x + (a - 1))) (Z.lnot (a - 1)) mod 2 ^ 64).
  { unfold wrap at 2. by rewrite <- !Z.land_ones, Z.land_assoc by lia. }
  rewrite Heq. apply Z.mod_pos_bound. lia.
Qed.

Lemma try_gap_range flags size min max k lo hi s e : try_gap flags size (plain min max k) lo hi = Some (s, e) -> 0 <= s < 2 ^ 64 /\ 0 <= e < 2 ^ 64.
Proof.
  unfold try_gap. cbn [plain c_align c_alignf r_start r_end r_flags]. unfold simple_align_resource. cbn [r_start]. case_if; [|done]. case_if; [|done]. intros [= <- <-]. split; [apply ALIGN_range|apply wrap_range; lia].
Qed.

Lemma find_loop_range h root_end old flags size min max k s e fuel : forall ts this, find_loop fuel h root_end old flags size (plain min max k) ts this = Ok (Some (s, e)) -> 0 <= s < 2 ^ 64 /\ 0 <= e < 2 ^ 64.
Proof.
  induction fuel as [|fuel IH]; intros ts this; [done|]. cbn [find_loop]. destruct (match this with Some _ => _ | None => _ end) as [te| |]; [|done|done]. cbn [obind].
  assert (Hnext : forall ts, match this with None => Ok None | Some _ => let* t := get h this in if r_end t =? root_end then Ok None else find_loop fuel h root_end old flags size (plain min max k) (if decide (this = old) then ts else u64 (r_end t + 1)) (r_sibling t) end = Ok (Some (s, e)) -> 0 <= s < 2 ^ 64 /\ 0 <= e < 2 ^ 64).
  { intros ts'. destruct this as [y|]; [|done]. destruct (get h (Some y)) as [t| |]; [|done|done]. cbn [obind]. case_if; [done|]. apply IH. }
  case_if; [apply Hnext|]. unfold resource_clip. destruct (try_gap _ _ _ _ _) as [[s' e']|] eqn:Et; [|apply Hnext]. intros [= -> ->]. by eapply try_gap_range.
Qed.

(** ** All gaps *)

Section Find.

Context (h : heap) (K : Z -> list Z) (D : Z -> nat) (x : Z) (rx : resource) (old : option Z) (flags size min max k : Z).
Hypotheses (Ht : tree h K D) (Hx : h !! x = Some rx) (Hk : 0 <= k <= 63) (Hsize : 1 <= size < 2 ^ 64) (Hmin : 0 <= min < 2 ^ 64).

(** The range of [size] from [s] is aligned, in bounds, and free apart from [old]. *)
Definition feasible (s : Z) : Prop :=
  (2 ^ k | s) /\ min <= s /\ r_start rx <= s /\ s + size - 1 <= max /\ s + size - 1 <= r_end rx /\
  forall y r, y ∈ K x -> Some y <> old -> h !! y = Some r -> s + size - 1 < r_start r \/ r_end r < s.

(** The lowest feasible range, or none. *)
Definition find_result (res : option (Z * Z)) : Prop :=
  match res with
  | Some (s, e) => (feasible s /\ e = s + size - 1 /\ forall s', feasible s' -> s <= s') \/ (e < s /\ forall s', ~ feasible s')
  | None => forall s', ~ feasible s'
  end.

(** No child but [old] reaches into the gap. *)
Definition gap_free (lo hi : Z) : Prop := r_start rx <= lo /\ hi <= r_end rx /\ forall y r, y ∈ K x -> Some y <> old -> h !! y = Some r -> r_end r < lo \/ hi < r_start r.

Lemma gap_spec lo hi next res : gap_free lo hi -> lo < 2 ^ 64 -> (forall s, feasible s -> lo <= s) ->
  (if hi <? lo then next lo else let '(a, b) := resource_clip lo hi min max in match try_gap flags size (plain min max k) a b with Some found => Ok (Some found) | None => next a end) = res ->
  (exists found, res = Ok (Some found) /\ find_result (Some found)) \/
  (exists lo', lo <= lo' < 2 ^ 64 /\ res = next lo' /\ (forall s, feasible s -> lo' <= s) /\ forall s, feasible s -> hi < s + size - 1).
Proof.
  intros (Hlo&Hhi&Hfree) Hlt Hge. pose proof (t_range _ _ _ Ht x rx Hx) as Hr. destruct (hi <? lo) eqn:E.
  - intros <-. right. exists lo. split; [lia|]. split; [done|]. split; [done|]. intros s Hs. specialize (Hge s Hs). lia.
  - unfold resource_clip. intros <-. set (a := if lo <? min then min else lo). set (b := if max <? hi then max else hi).
    assert (Ha : lo <= a /\ min <= a /\ a < 2 ^ 64 /\ forall s, lo <= s -> min <= s -> a <= s) by (unfold a; case_if; (split; [lia|]; split; [lia|]; split; [lia|]; intros; lia)). assert (Hb : b <= hi /\ b <= max /\ forall e, e <= hi -> e <= max -> e <= b) by (unfold b; case_if; (split; [lia|]; split; [lia|]; intros; lia)).
    assert (Hge' : forall s, feasible s -> a <= s) by (intros s Hs; apply Ha; [by apply Hge|apply Hs]).
    pose proof (try_gap_spec flags size min max k a b Hk Hsize ltac:(lia) ltac:(lia)) as Htry. destruct (try_gap flags size (plain min max k) a b) as [[s e]|].
    + left. exists (s, e). split; [done|]. destruct Htry as (Has&Hdiv&Hlow&Hs64&[[-> He]|[He Hbig]]).
      * left. split; [|split; [done|]]. { split; [done|]. split; [lia|]. split; [lia|]. split; [lia|]. split; [lia|]. intros y r Hy Hyo Hyr. destruct (Hfree y r Hy Hyo Hyr); lia. }
        intros s' Hs'. apply Hlow; [by apply Hge'|apply Hs'].
      * right. split; [done|]. intros s' Hs'. pose proof (Hlow s' (Hge' s' Hs') (proj1 Hs')). destruct Hs' as (_&_&_&_&Hend&_). lia.
    + right. exists a. split; [lia|]. split; [done|]. split; [done|]. intros s Hs. destruct (decide (hi < s + size - 1)); [done|]. exfalso. apply (Htry s); [by apply Hge'|apply Hs|]. apply Hb; [lia|apply Hs].
Qed.

Lemma find_loop_spec fuel : forall i ts, (i <= length (K x))%nat -> (length (K x) - i < fuel)%nat -> r_start rx <= ts < 2 ^ 64 ->
  (forall j y r, (j < i)%nat -> K x !! j = Some y -> Some y <> old -> h !! y = Some r -> r_end r < ts) -> (forall s, feasible s -> ts <= s) ->
  (forall y r, i = 0%nat -> K x !! 0%nat = Some y -> h !! y = Some r -> r_start rx < r_start r) ->
  exists res, find_loop fuel h (r_end rx) old flags size (plain min max k) ts (K x !! i) = Ok res /\ find_result res.
Proof.
  induction fuel as [|fuel IH]; intros i ts Hi Hf Hts Hpre Hge H0; [lia|]. pose proof (t_range _ _ _ Ht x rx Hx) as Hr. cbn [find_loop]. destruct (K x !! i) as [y|] eqn:Ey.
  - destruct (child_at _ _ _ Ht _ _ _ Ey) as (r&Hry&_). rewrite (get_Ok _ _ _ Hry). cbn [obind].
    assert (Hin : y ∈ K x) by (by eapply list_elem_of_lookup_2). destruct (t_nested _ _ _ Ht x y rx r Hin Hx Hry) as (Hn1&Hn2&Hn3). pose proof (t_range _ _ _ Ht y r Hry) as Hrr.
    assert (Hpos : 1 <= r_start r).
    { destruct i as [|i]; [pose proof (H0 y r eq_refl Ey Hry); lia|]. apply lookup_lt_Some in Ey as Hlt. destruct (lookup_lt_is_Some_2 (K x) i ltac:(lia)) as [z Hz]. destruct (child_at _ _ _ Ht _ _ _ Hz) as (rz&Hrz&_).
      pose proof (t_order _ _ _ Ht x i (S i) z y rz r Hz Ey ltac:(lia) Hrz Hry). pose proof (t_range _ _ _ Ht z rz Hrz). lia. }
    rewrite wrap_small by lia. set (hi := if decide (Some y = old) then r_end r else r_start r - 1).
    assert (Hgap : gap_free ts hi).
    { split; [lia|]. split; [unfold hi; case_decide; lia|]. intros z rz Hz Hzo Hrz. apply list_elem_of_lookup in Hz as [j Hj]. destruct (decide (j < i)%nat) as [Hlt|Hnlt]; [left; by apply (Hpre j z rz)|]. right. unfold hi.
      destruct (decide (j = i)) as [->|Hji]; [assert (z = y) by congruence; subst z; rewrite decide_False by done; assert (rz = r) by congruence; subst rz; lia|].
      pose proof (t_order _ _ _ Ht x i j y z r rz Ey Hj ltac:(lia) Hry Hrz). case_decide; lia. }
    destruct (gap_spec ts hi (fun ts => if r_end r =? r_end rx then Ok None else find_loop fuel h (r_end rx) old flags size (plain min max k) (if decide (Some y = old) then ts else u64 (r_end r + 1)) (r_sibling r)) _ Hgap ltac:(lia) Hge eq_refl)
      as [(found&Hrun&Hres)|(ts'&Hts'&Hrun&Hge'&Hmiss)].
    + exists (Some found). split; [exact Hrun|done].
    + assert (Hpast : forall s, feasible s -> Some y <> old -> r_end r < s).
      { intros s Hs Hyo. pose proof Hs as (_&_&_&_&_&Hfree). specialize (Hmiss s Hs). destruct (Hfree y r Hin Hyo Hry); [|done]. unfold hi in Hmiss. rewrite decide_False in Hmiss by done. lia. }
      destruct (r_end r =? r_end rx) eqn:Eend.
      * exists None. split; [exact Hrun|]. intros s Hs. pose proof Hs as (_&_&_&_&He&_). specialize (Hmiss s Hs). unfold hi in Hmiss. case_decide as Ho; [lia|]. specialize (Hpast s Hs Ho). lia.
      * apply lookup_lt_Some in Ey as Hlt. set (ts2 := if decide (Some y = old) then ts' else u64 (r_end r + 1)) in *.
        assert (Hts2 : ts2 = if decide (Some y = old) then ts' else r_end r + 1) by (unfold ts2; case_decide; [done|by rewrite wrap_small by lia]).
        destruct (IH (S i) ts2) as (res&Hres&Hok); [lia|lia|rewrite Hts2; case_decide; lia| | |done|rewrite <- (t_sibling _ _ _ Ht x i y r Ey Hry) in Hres; exists res; split; [etrans; [exact Hrun|exact Hres]|done]].
        -- intros j z rz Hj Hz Hzo Hrz. rewrite Hts2. destruct (decide (j = i)) as [->|Hji]; [assert (z = y) by congruence; subst z; rewrite decide_False by done; assert (rz = r) by congruence; subst; lia|].
           specialize (Hpre j z rz ltac:(lia) Hz Hzo Hrz). case_decide; [lia|]. pose proof (t_order _ _ _ Ht x j i z y rz r Hz Ey ltac:(lia) Hrz Hry). lia.
        -- intros s Hs. rewrite Hts2. case_decide as Ho; [by apply Hge'|]. specialize (Hpast s Hs Ho). lia.
  - apply lookup_ge_None in Ey. assert (Hgap : gap_free ts (r_end rx)).
    { split; [lia|]. split; [lia|]. intros z rz Hz Hzo Hrz. apply list_elem_of_lookup in Hz as [j Hj]. left. apply lookup_lt_Some in Hj as Hlt. apply (Hpre j z rz); [lia|done|done|done]. }
    cbn [obind]. destruct (gap_spec ts (r_end rx) (fun _ => Ok None) _ Hgap ltac:(lia) Hge eq_refl) as [(found&Hrun&Hres)|(ts'&Hts'&Hrun&Hge'&Hmiss)].
    + exists (Some found). split; [exact Hrun|done].
    + exists None. split; [exact Hrun|]. intros s Hs. pose proof Hs as (_&_&_&_&He&_). specialize (Hmiss s Hs). lia.
Qed.

(** The first child leaves no room, up to the last address of all. *)
Definition covered : Prop := exists y r, y ∈ K x /\ Some y <> old /\ h !! y = Some r /\ r_start r = r_start rx /\ r_end r = 2 ^ 64 - 1.

Lemma covered_full : covered -> forall s, ~ feasible s.
Proof.
  intros (y&r&Hy&Hyo&Hr&Hs&He) s (_&_&Hge&_&Hle&Hfree). pose proof (t_range _ _ _ Ht x rx Hx). destruct (Hfree y r Hy Hyo Hr); lia.
Qed.

Lemma find_spec : exists res, __find_resource h (Some x) old flags size (plain min max k) = Ok res /\ (find_result res \/ covered).
Proof.
  pose proof (t_range _ _ _ Ht x rx Hx) as Hr. pose proof (children_count _ _ _ Ht x) as Hcount. unfold __find_resource. rewrite (get_Ok _ _ _ Hx). cbn [obind]. rewrite (t_child _ _ _ Ht x rx Hx).
  destruct (K x !! 0%nat) as [y|] eqn:Ey.
  - destruct (child_at _ _ _ Ht _ _ _ Ey) as (r&Hry&_). rewrite (get_Ok _ _ _ Hry). cbn [obind]. assert (Hin : y ∈ K x) by (by eapply list_elem_of_lookup_2).
    destruct (t_nested _ _ _ Ht x y rx r Hin Hx Hry) as (Hn1&Hn2&Hn3). apply lookup_lt_Some in Ey as Hlt. destruct (r_start r =? r_start rx) eqn:Es; cbn [obind].
    + rewrite (t_sibling _ _ _ Ht x 0 y r Ey Hry). destruct (decide (Some y = old)) as [Ho|Ho].
      * destruct (find_loop_spec (rounds h) 1 (r_start r)) as (res&Hrun&Hres); [lia|unfold rounds; lia|lia| |intros s Hs; pose proof Hs as (_&_&?&_); lia|lia|exists res; split; [exact Hrun|by left]].
        intros j z rz Hj Hz Hzo. replace j with 0%nat in Hz by lia. congruence.
      * destruct (decide (r_end r = 2 ^ 64 - 1)) as [Hend|Hend].
        -- assert (Hnone : K x !! 1%nat = None). { destruct (K x !! 1%nat) as [z|] eqn:Ez; [|done]. destruct (child_at _ _ _ Ht _ _ _ Ez) as (rz&Hrz&_). pose proof (t_order _ _ _ Ht x 0 1 y z r rz Ey Ez ltac:(lia) Hry Hrz). pose proof (t_range _ _ _ Ht z rz Hrz). lia. }
           rewrite Hnone. unfold rounds. cbn [find_loop obind]. assert (Hcov : covered) by (exists y, r; split; [done|]; split; [done|]; split; [done|]; lia).
           destruct (_ <? _); [by exists None; auto|]. destruct (resource_clip _ _ _ _) as [a b]. destruct (try_gap _ _ _ a b) as [f|]; eauto.
        -- rewrite wrap_small by lia. destruct (find_loop_spec (rounds h) 1 (r_end r + 1)) as (res&Hrun&Hres); [lia|unfold rounds; lia|lia| | |lia|exists res; split; [exact Hrun|by left]].
           ++ intros j z rz Hj Hz Hzo Hrz. replace j with 0%nat in Hz by lia. assert (z = y) by congruence. subst z. assert (rz = r) by congruence. subst rz. lia.
           ++ intros s Hs. pose proof Hs as (_&_&Hge&_&_&Hfree). destruct (Hfree y r Hin Ho Hry); lia.
    + rewrite <- Ey. destruct (find_loop_spec (rounds h) 0 (r_start rx)) as (res&Hrun&Hres); [lia|unfold rounds; lia|lia|lia|intros s Hs; pose proof Hs as (_&_&?&_); lia| |exists res; split; [exact Hrun|by left]].
      intros z rz _ Hz Hrz. assert (z = y) by congruence. subst z. assert (rz = r) by congruence. subst rz. lia.
  - cbn [obind]. rewrite <- Ey. destruct (find_loop_spec (rounds h) 0 (r_start rx)) as (res&Hrun&Hres); [lia|unfold rounds; lia|lia|lia|intros s Hs; pose proof Hs as (_&_&?&_); lia| |exists res; split; [exact Hrun|by left]].
    intros z rz _ Hz. congruence.
Qed.

End Find.
