(* ===== verification/ResourceOps.v ===== *)
(** * ResourceOps: allocating, moving and resizing resources *)

From stdpp Require Import gmap.
From S2P Require Import Prelude Resource ResourceFacts ResourceFind.

(** ** Changing a range *)

Lemma set_range_inv (h : heap) y r s e z rz' : h !! y = Some r -> <[y := set_range r s e]> h !! z = Some rz' ->
  exists rz, h !! z = Some rz /\ r_parent rz' = r_parent rz /\ r_sibling rz' = r_sibling rz /\ r_child rz' = r_child rz /\
    r_start rz' = (if decide (z = y) then s else r_start rz) /\ r_end rz' = (if decide (z = y) then e else r_end rz).
Proof.
  intros Hy Hz. destruct (decide (z = y)) as [->|Hne].
  - rewrite lookup_insert_eq in Hz. injection Hz as <-. by exists r.
  - rewrite lookup_insert_ne in Hz by done. by exists rz'.
Qed.

(** The range of [y] may become [s, e]: children stay inside; if [y] has a parent,
    it stays inside that and apart from its siblings. *)
Definition may_be (h : heap) (K : Z -> list Z) (y s e : Z) : Prop :=
  0 <= s < 2 ^ 64 /\ 0 <= e < 2 ^ 64 /\ (forall z rz, z ∈ K y -> h !! z = Some rz -> s <= r_start rz /\ r_end rz <= e) /\
  forall x rx i, h !! x = Some rx -> K x !! i = Some y -> r_start rx <= s /\ s <= e /\ e <= r_end rx /\
    forall j z rz, K x !! j = Some z -> h !! z = Some rz -> j <> i -> if (j <? i)%nat then r_end rz < s else e < r_start rz.

Lemma tree_set_range h K D y r s e : tree h K D -> h !! y = Some r -> may_be h K y s e -> tree (<[y := set_range r s e]> h) K D.
Proof.
  intros Ht Hy (Hs&He&Hch&Hpar). pose proof Ht as [Tc Ts Tp Tl Tn To Td Tr]. split.
  - intros z rz' Hz. destruct (set_range_inv _ _ _ _ _ _ _ Hy Hz) as (rz&Hrz&_&_&->&_). by apply Tc.
  - intros z i w rw' Hi Hw. destruct (set_range_inv _ _ _ _ _ _ _ Hy Hw) as (rw&Hrw&_&->&_). by apply (Ts z i w).
  - intros z w. rewrite Tp. destruct (decide (w = y)) as [->|Hne]; [|by rewrite lookup_insert_ne]. rewrite lookup_insert_eq. split; intros (r0&Hr0&Hp0).
    + exists (set_range r s e). split; [done|]. simpl. congruence.
    + injection Hr0 as <-. by exists r.
  - intros z w Hw. destruct (Tl z w Hw) as [rz Hz]. destruct (decide (z = y)) as [->|Hne]; [rewrite lookup_insert_eq; eauto|]. rewrite lookup_insert_ne by done. eauto.
  - intros z w rz' rw' Hw Hz Hrw. destruct (set_range_inv _ _ _ _ _ _ _ Hy Hz) as (rz&Hrz&_&_&_&->&->). destruct (set_range_inv _ _ _ _ _ _ _ Hy Hrw) as (rw&Hrw0&_&_&_&->&->).
    destruct (Tn z w rz rw Hw Hrz Hrw0) as (H1&H2&H3). apply list_elem_of_lookup in Hw as Hi. destruct Hi as [i Hi].
    destruct (decide (z = y)) as [->|Hzy], (decide (w = y)) as [->|Hwy]; try lia.
    + by eapply not_own_child in Hw.
    + destruct (Hch w rw Hw Hrw0). lia.
    + destruct (Hpar z rz i Hrz Hi) as (?&?&?&_). lia.
  - intros z i j a b ra' rb' Ha Hb Hij Hra Hrb. destruct (set_range_inv _ _ _ _ _ _ _ Hy Hra) as (ra&Hra0&_&_&_&_&->). destruct (set_range_inv _ _ _ _ _ _ _ Hy Hrb) as (rb&Hrb0&_&_&_&->&_).
    pose proof (To z i j a b ra rb Ha Hb Hij Hra0 Hrb0) as Hord. destruct (Tl z a) as [rz Hz]; [by eapply list_elem_of_lookup_2|].
    destruct (decide (a = y)) as [->|Hay], (decide (b = y)) as [->|Hby]; try lia.
    + pose proof (proj1 (NoDup_alt _) (children_nodup _ _ _ Ht z) _ _ _ Ha Hb). lia.
    + destruct (Hpar z rz i Hz Ha) as (_&_&_&Hnb). specialize (Hnb j b rb Hb Hrb0 ltac:(lia)). replace (j <? i)%nat with false in Hnb by lia. lia.
    + destruct (Hpar z rz j Hz Hb) as (_&_&_&Hnb). specialize (Hnb i a ra Ha Hra0 ltac:(lia)). replace (i <? j)%nat with true in Hnb by lia. lia.
  - done.
  - intros z rz' Hz. destruct (set_range_inv _ _ _ _ _ _ _ Hy Hz) as (rz&Hrz&_&_&_&->&->). pose proof (Tr z rz Hrz). case_decide; lia.
Qed.

Lemma fresh_no_children h K D new rn : tree h K D -> fresh h new rn -> K new = [].
Proof. intros Ht (Hn&_&Hc). pose proof (t_child _ _ _ Ht new rn Hn) as H. rewrite Hc in H. by destruct (K new). Qed.

Lemma fresh_may_be h K D new rn s e : tree h K D -> fresh h new rn -> 0 <= s < 2 ^ 64 -> 0 <= e < 2 ^ 64 -> may_be h K new s e.
Proof.
  intros Ht Hf Hs He. split; [done|]. split; [done|]. split.
  - intros z rz Hz. rewrite (fresh_no_children _ _ _ _ _ Ht Hf) in Hz. by apply not_elem_of_nil in Hz.
  - intros x rx i Hx Hi. destruct Hf as (Hn&Hp&_). apply list_elem_of_lookup_2 in Hi. by eapply orphan in Hi.
Qed.

(** ** Allocation *)

Lemma feasible_other (h h' : heap) K x rx old size min max k s : (forall y, y ∈ K x -> h' !! y = h !! y) -> feasible h K x rx old size min max k s <-> feasible h' K x rx old size min max k s.
Proof.
  intros Heq. unfold feasible. split; intros (H1&H2&H3&H4&H5&H6); (split; [done|]; split; [done|]; split; [done|]; split; [done|]; split; [done|]); intros y r Hy Ho Hr; apply (H6 y r Hy Ho); [rewrite <- Heq by done|rewrite Heq by done]; done.
Qed.

Lemma find_range h x old flags size min max k s e : __find_resource h (Some x) old flags size (plain min max k) = Ok (Some (s, e)) -> 0 <= s < 2 ^ 64 /\ 0 <= e < 2 ^ 64.
Proof.
  unfold __find_resource. destruct (get h (Some x)) as [r| |]; [|done|done]. cbn [obind]. destruct (match r_child r with None => _ | Some _ => _ end) as [[ts this]| |]; [|done|done]. cbn [obind]. apply find_loop_range.
Qed.

(** The result of an allocation: the lowest feasible range, or none. *)
Definition allocated (h : heap) (K : Z -> list Z) (D : Z -> nat) (x new : Z) (rx : resource) (size min max k err : Z) (h' : heap) : Prop :=
  (err = 0 /\ exists i D' rn' s, tree h' (upd K x (ins i new (K x))) D' /\ h' !! new = Some rn' /\ r_start rn' = s /\ r_end rn' = s + size - 1 /\
     feasible h K x rx None size min max k s /\ forall s', feasible h K x rx None size min max k s' -> s <= s') \/
  (err = - EBUSY /\ tree h' K D /\ (forall y, y <> new -> h' !! y = h !! y) /\ forall s, ~ feasible h K x rx None size min max k s).

Lemma allocate_spec h K D x new rx rn size min max k : tree h K D -> h !! x = Some rx -> fresh h new rn -> new <> x -> 0 <= k <= 63 -> 1 <= size < 2 ^ 64 -> 0 <= min < 2 ^ 64 -> 
  exists err h', allocate_resource h (Some x) (Some new) size min max (2 ^ k) None = Ok (err, h') /\ allocated h K D x new rx size min max k err h'.
Proof.
  intros Ht Hx Hf Hne Hk Hsize Hmin. pose proof Hf as (Hn&Hp&Hc). unfold allocate_resource. rewrite (get_Ok _ _ _ Hn). cbn [obind]. rewrite Hp. unfold find_resource. rewrite (get_Ok _ _ _ Hn). cbn [obind].
  change (Constraint min max (2 ^ k) simple_align_resource) with (plain min max k).
  destruct (find_spec h K D x rx None (r_flags rn) size min max k Ht Hx Hk Hsize Hmin) as (res&Hfind&Hres). rewrite Hfind. cbn [obind].
  assert (Hnone : covered h K x rx None -> forall s, ~ feasible h K x rx None size min max k s) by (intros Hcov; by eapply covered_full).
  destruct res as [[s e]|]; cbn [obind]; [|eexists _, _; split; [done|]; right; split; [done|]; split; [done|]; split; [done|]; destruct Hres as [Hres|Hcov]; [exact Hres|by apply Hnone]].
  rewrite (put_Ok _ _ _ _ Hn). cbn [obind]. change (0 <=? 0) with true. cbv iota. set (h1 := <[new := set_range rn s e]> h).
  assert (Hrange : 0 <= s < 2 ^ 64 /\ 0 <= e < 2 ^ 64) by (by eapply find_range). 
  assert (Ht1 : tree h1 K D) by (apply tree_set_range; [done|done|]; destruct Hrange; eapply fresh_may_be; eauto).
  assert (Hx1 : h1 !! x = Some rx) by (unfold h1; by rewrite lookup_insert_ne). assert (Hf1 : fresh h1 new (set_range rn s e)) by (unfold fresh, h1; by rewrite lookup_insert_eq).
  assert (Hother : forall y, y <> new -> h1 !! y = h !! y) by (intros y Hy; unfold h1; by rewrite lookup_insert_ne).
  assert (Hno : (forall s, ~ feasible h K x rx None size min max k s) -> allocated h K D x new rx size min max k (- EBUSY) h1) by (intros Hno; by right).
  assert (Hkid : forall y, y ∈ K x -> h1 !! y = h !! y) by (intros y Hy; apply Hother; intros ->; exact (orphan _ _ _ Ht x new rn Hn Hp Hy)).
  destruct (request_spec h1 K D x new rx _ Ht1 Hx1 Hf1 Hne) as [(Hout&->)|[(Hin&y&Hov&->)|(Hin&i&h2&Hi&Hfit&Hl&->)]]; cbn [obind r_start r_end set_range] in *.
  - eexists _, _. split; [done|]. apply Hno. destruct Hres as [[(Hfe&->&_)|[_ Hres]]|Hcov]; [|done|by apply Hnone]. exfalso. apply Hout. destruct Hfe as (_&_&?&_&?&_). split; lia.
  - eexists _, _. split; [done|]. apply Hno. destruct Hres as [[(Hfe&->&_)|[_ Hres]]|Hcov]; [|done|by apply Hnone]. exfalso.
    destruct Hov as (j&r&Hj&Hr&H1&H2&_). apply list_elem_of_lookup_2 in Hj. destruct Hfe as (_&_&_&_&_&Hfree). rewrite (Hkid y Hj) in Hr. destruct (Hfree y r Hj) as [?|?]; [done|done|lia|lia].
  - eexists _, _. split; [done|]. left. split; [done|]. destruct Hres as [[(Hfe&->&Hlow)|[Hlt _]]|Hcov]; [|destruct Hin; lia|].
    + exists i. eexists _, _, s. split; [eapply tree_link; [exact Ht1|eauto|done|apply Hf1|done|apply Hf1|apply Hf1|exact Hfit|exact Hl]|].
      split; [rewrite Hl, decide_True by done; unfold h1; by rewrite lookup_insert_eq|]. split; [done|]. split; [done|]. split; [done|done].
    + exfalso. destruct Hcov as (y&r&Hy&_&Hr&H1&H2). apply list_elem_of_lookup in Hy as Hj. destruct Hj as [j Hj]. destruct Hfit as (_&Hse&Hnb). rewrite <- (Hkid y Hy) in Hr. specialize (Hnb j y r Hj Hr).
      destruct Hin as (?&?&?). pose proof (t_range _ _ _ Ht x rx Hx). destruct (j <? i)%nat; lia.
Qed.

(** ** Moving and resizing *)

Lemma children_within_spec h K D y s e : tree h K D -> forall fuel i, (length (K y) - i < fuel)%nat ->
  exists b : bool, children_within fuel h (K y !! i) s e = Ok b /\ (b = true <-> forall j z rz, (i <= j)%nat -> K y !! j = Some z -> h !! z = Some rz -> s <= r_start rz /\ r_end rz <= e).
Proof.
  intros Ht. induction fuel as [|fuel IH]; intros i Hf; [lia|]. cbn [children_within]. destruct (K y !! i) as [z|] eqn:Ez.
  - destruct (child_at _ _ _ Ht _ _ _ Ez) as (rz&Hrz&_). rewrite (get_Ok _ _ _ Hrz). cbn [obind]. apply lookup_lt_Some in Ez as Hlt. destruct ((r_start rz <? s) || (e <? r_end rz)) eqn:Eb.
    + exists false. split; [done|]. split; [done|]. intros H. destruct (H i z rz); [lia|done|done|lia].
    + rewrite (t_sibling _ _ _ Ht y i z rz Ez Hrz). destruct (IH (S i)) as (b&->&Hb); [lia|]. exists b. split; [done|]. rewrite Hb. split; intros H j w rw Hj Hw Hrw; [|apply (H j w rw); [lia|done|done]].
      destruct (decide (j = i)) as [->|]; [|apply (H j w rw); [lia|done|done]]. assert (w = z) by congruence. subst w. assert (rw = rz) by congruence. subst rw. lia.
  - exists true. split; [done|]. split; [|done]. intros _ j z rz Hj Hz. apply lookup_ge_None in Ez. apply lookup_lt_Some in Hz. lia.
Qed.

(** The members of [l] up to number [i] are linked in its order. *)
Definition chained (h : heap) (l : list Z) (i : nat) : Prop := forall j z, (j <= i)%nat -> l !! j = Some z -> exists r, h !! z = Some r /\ r_sibling r = l !! S j.

Lemma children_chained h K D x i : tree h K D -> chained h (K x) i.
Proof. intros Ht j z _ Hz. destruct (child_at _ _ _ Ht _ _ _ Hz) as (r&Hr&_). exists r. split; [done|]. by eapply (t_sibling _ _ _ Ht). Qed.

Lemma before_spec h l i y : chained h l i -> base.NoDup l -> l !! S i = Some y -> forall fuel j, (j <= i)%nat -> (i - j < fuel)%nat -> before fuel h (l !! j) (Some y) = Ok (l !! i).
Proof.
  intros Hl Hnd Hy. apply lookup_lt_Some in Hy as Hlt. induction fuel as [|fuel IH]; intros j Hj Hf; [lia|]. cbn [before]. destruct (lookup_lt_is_Some_2 l j ltac:(lia)) as [z Hz]. destruct (Hl j z Hj Hz) as (rz&Hrz&Hs).
  rewrite Hz, (get_Ok _ _ _ Hrz). cbn [obind]. rewrite Hs. case_decide as Hd.
  - pose proof (proj1 (NoDup_alt _) Hnd _ _ _ Hd Hy) as Heq. injection Heq as ->. by rewrite Hz.
  - assert (j <> i) by congruence. apply IH; lia.
Qed.

(** The checks against the neighbours are those against all siblings. *)
Lemma neighbours_enough h K D x i y s e : tree h K D -> K x !! i = Some y -> s <= e -> 
  (forall z rz, K x !! S i = Some z -> h !! z = Some rz -> e < r_start rz) -> (forall k z rz, i = S k -> K x !! k = Some z -> h !! z = Some rz -> r_end rz < s) ->
  forall j z rz, K x !! j = Some z -> h !! z = Some rz -> j <> i -> if (j <? i)%nat then r_end rz < s else e < r_start rz.
Proof.
  intros Ht Hy Hse Hnext Hprev j z rz Hz Hrz Hji. destruct (t_live _ _ _ Ht x y) as [rx Hx]; [by eapply list_elem_of_lookup_2|]. apply lookup_lt_Some in Hy as Hilt. apply lookup_lt_Some in Hz as Hjlt. destruct (j <? i)%nat eqn:Eji.
  - destruct i as [|k]; [lia|]. destruct (lookup_lt_is_Some_2 (K x) k ltac:(lia)) as [w Hw]. destruct (child_at _ _ _ Ht _ _ _ Hw) as (rw&Hrw&_). pose proof (Hprev k w rw eq_refl Hw Hrw).
    destruct (decide (j = k)) as [->|]; [congruence|]. pose proof (t_order _ _ _ Ht x j k z w rz rw Hz Hw ltac:(lia) Hrz Hrw). pose proof (t_nested _ _ _ Ht x w rx rw ltac:(by eapply list_elem_of_lookup_2) Hx Hrw). lia.
  - destruct (lookup_lt_is_Some_2 (K x) (S i) ltac:(lia)) as [w Hw]. destruct (child_at _ _ _ Ht _ _ _ Hw) as (rw&Hrw&_). pose proof (Hnext w rw Hw Hrw).
    destruct (decide (j = S i)) as [->|]; [congruence|]. pose proof (t_order _ _ _ Ht x (S i) j w z rw rz Hw Hz ltac:(lia) Hrw Hrz). pose proof (t_nested _ _ _ Ht x w rx rw ltac:(by eapply list_elem_of_lookup_2) Hx Hrw). lia.
Qed.

Lemma adjust_outside_spec h K D x i y rx r s e : tree h K D -> h !! x = Some rx -> K x !! i = Some y -> h !! y = Some r -> s <= e -> exists b : bool, adjust_outside h (Some y) r s e = Ok b /\
  (b = true <-> r_start rx <= s /\ e <= r_end rx /\ forall j z rz, K x !! j = Some z -> h !! z = Some rz -> j <> i -> if (j <? i)%nat then r_end rz < s else e < r_start rz).
Proof.
  intros Ht Hx Hi Hy Hse. unfold adjust_outside. assert (Hp : r_parent r = Some x) by (destruct (child_at _ _ _ Ht _ _ _ Hi) as (r'&Hr'&Hp'); congruence). rewrite Hp, (get_Ok _ _ _ Hx). cbn [obind].
  destruct ((s <? r_start rx) || (r_end rx <? e)) eqn:Er; [exists false; split; [done|]; split; [done|lia]|]. rewrite (t_sibling _ _ _ Ht x i y r Hi Hy), (t_child _ _ _ Ht x rx Hx). apply lookup_lt_Some in Hi as Hlt.
  assert (Hn : exists b : bool, (match K x !! S i with None => Ok false | Some _ => let* s0 := get h (K x !! S i) in Ok (r_start s0 <=? e) end) = Ok b /\ (b = false <-> forall z rz, K x !! S i = Some z -> h !! z = Some rz -> e < r_start rz)).
  { destruct (K x !! S i) as [z|] eqn:Ez; [|by exists false]. destruct (child_at _ _ _ Ht _ _ _ Ez) as (rz&Hrz&_). rewrite (get_Ok _ _ _ Hrz). cbn [obind]. eexists. split; [done|].
    split; [intros H w rw [= <-] Hw; assert (rw = rz) by congruence; subst; lia|]. intros H. specialize (H z rz eq_refl Hrz). lia. }
  destruct Hn as (b&->&Hb). cbn [obind]. destruct b.
  { exists false. split; [done|]. split; [done|]. intros (_&_&H). symmetry. apply Hb. intros z rz Hz Hrz. specialize (H (S i) z rz Hz Hrz ltac:(lia)). by replace (S i <? i)%nat with false in H by lia. }
  pose proof (proj1 Hb eq_refl) as Hnext. destruct i as [|k].
  - rewrite Hi, decide_True by done. exists true. split; [done|]. split; [|done]. intros _. split; [lia|]. split; [lia|]. eapply neighbours_enough; eauto. intros k z rz Hk. lia.
  - rewrite decide_False by (intros H0; pose proof (proj1 (NoDup_alt _) (children_nodup _ _ _ Ht x) _ _ _ H0 Hi); lia). rewrite (before_spec h (K x) k y (children_chained _ _ _ _ _ Ht) (children_nodup _ _ _ Ht x) Hi) by (pose proof (children_count _ _ _ Ht x); unfold rounds; lia). cbn [obind].
    destruct (lookup_lt_is_Some_2 (K x) k ltac:(lia)) as [w Hw]. destruct (child_at _ _ _ Ht _ _ _ Hw) as (rw&Hrw&_). rewrite Hw, (get_Ok _ _ _ Hrw). cbn [obind]. eexists. split; [done|]. split.
    + intros Hneg. split; [lia|]. split; [lia|]. eapply neighbours_enough; eauto. intros k' z rz [= <-] Hz Hrz. assert (z = w) by congruence. subst. assert (rz = rw) by congruence. subst. lia.
    + intros (_&_&H). specialize (H k w rw Hw Hrw ltac:(lia)). replace (k <? S k)%nat with true in H by lia. lia.
Qed.

(** The resource gets the range if and only if it may have it. *)
Lemma adjust_spec h K D y r start size : tree h K D -> h !! y = Some r -> 0 <= start -> 1 <= size -> start + size <= 2 ^ 64 ->
  (may_be h K y start (start + size - 1) /\ adjust_resource h (Some y) start size = Ok (0, <[y := set_range r start (start + size - 1)]> h)) \/
  (~ may_be h K y start (start + size - 1) /\ adjust_resource h (Some y) start size = Ok (- EBUSY, h)).
Proof.
  intros Ht Hy Hs Hsz Hov. unfold adjust_resource, __adjust_resource. rewrite (get_Ok _ _ _ Hy). cbn [obind]. rewrite u64_small by (unfold ULLONG_MAX; lia). set (e := start + size - 1).
  assert (Hout : exists b : bool, (match r_parent r with None => Ok true | Some _ => adjust_outside h (Some y) r start e end) = Ok b /\
    (b = true <-> forall x rx i, h !! x = Some rx -> K x !! i = Some y -> r_start rx <= start /\ start <= e /\ e <= r_end rx /\ forall j z rz, K x !! j = Some z -> h !! z = Some rz -> j <> i -> if (j <? i)%nat then r_end rz < start else e < r_start rz)).
  { destruct (r_parent r) as [x|] eqn:Ep; [|exists true; split; [done|]; split; [|done]; intros _ x rx i _ Hi; apply list_elem_of_lookup_2 in Hi; by apply (orphan _ _ _ Ht x y r Hy Ep) in Hi].
    assert (Hin : y ∈ K x) by (apply (t_parent _ _ _ Ht); eauto). destruct (t_live _ _ _ Ht x y Hin) as [rx Hx]. apply list_elem_of_lookup in Hin as [i Hi].
    destruct (adjust_outside_spec h K D x i y rx r start e Ht Hx Hi Hy) as (b&->&Hb); [lia|]. exists b. split; [done|]. rewrite Hb. split.
    - intros (H1&H2&H3) x' rx' i' Hx' Hi'. assert (x' = x) by (eapply (child_unique _ _ _ Ht); by eapply list_elem_of_lookup_2). subst x'. assert (rx' = rx) by congruence. subst rx'.
      assert (i' = i) by (eapply (proj1 (NoDup_alt _) (children_nodup _ _ _ Ht x)); done). subst i'. split; [done|]. split; [lia|done].
    - intros H. destruct (H x rx i Hx Hi) as (H1&H2&H3&H4). done. }
  destruct Hout as (b&->&Hb). cbn [obind]. destruct b; cbn [negb]; cycle 1.
  { right. split; [|done]. intros (_&_&_&H). apply Hb in H. done. }
  pose proof (children_count _ _ _ Ht y) as Hcnt. rewrite (t_child _ _ _ Ht y r Hy). destruct (children_within_spec h K D y start e Ht (rounds h) 0) as (b&->&Hb'); [unfold rounds; lia|]. cbn [obind]. destruct b; cbn [negb].
  - left. split; [|by rewrite (put_Ok _ _ _ _ Hy)]. split; [lia|]. split; [lia|]. split; [|by apply Hb]. intros z rz Hz Hrz. apply list_elem_of_lookup in Hz as [j Hj]. eapply Hb'; [done| |exact Hj|done]. lia.
  - right. split; [|done]. intros (_&_&H&_). enough (false = true) by done. apply Hb'. intros j z rz _ Hj Hrz. apply (H z rz); [by eapply list_elem_of_lookup_2|done].
Qed.
