(* ===== verification/ResourceInsert.v ===== *)
(** * ResourceInsert: inserting a resource above existing ones *)

From stdpp Require Import gmap.
From S2P Require Import Prelude Resource ResourceFacts ResourceFind ResourceOps.

(** ** Lifting a run of children below a new resource *)

(** The slot after the children [a] of [p]. *)
Definition slot_after (p : Z) (a : list Z) : slot := match list.last a with None => Child (Some p) | Some w => Sibling (Some w) end.

(** The children of every resource when the children [m] of [p], between [a] and
    [b], become those of [new]. *)
Definition lift (K : Z -> list Z) (p new : Z) (a m b : list Z) : Z -> list Z := upd (upd K p (a ++ new :: b)) new m.

Definition lifted (h : heap) (p new : Z) (a m b : list Z) (h' : heap) : Prop :=
  forall z, h' !! z =
    if decide (z = new) then (fun r => set_child (set_sibling (set_parent r (Some p)) (b !! 0%nat)) (m !! 0%nat)) <$> h !! new
    else if decide (z ∈ m) then (fun r => set_parent (if decide (list.last m = Some z) then set_sibling r None else r) (Some new)) <$> h !! z
    else adjust_slot (slot_after p a) (Some new) z <$> h !! z.

Lemma lifted_inv h p new a m b h' z r' : lifted h p new a m b h' -> h' !! z = Some r' ->
  exists r, h !! z = Some r /\ r_start r' = r_start r /\ r_end r' = r_end r /\ r_parent r' = (if decide (z = new) then Some p else if decide (z ∈ m) then Some new else r_parent r).
Proof.
  intros Hl Hz. rewrite Hl in Hz. destruct (decide (z = new)) as [->|Hne]; [|destruct (decide (z ∈ m)) as [Hm|Hm]]; apply fmap_Some in Hz as (r&Hr&->); exists r; (split; [done|]); [done| |].
  - simpl. case_decide; done.
  - destruct (adjust_slot_core (slot_after p a) (Some new) z r) as (H1&H2&H3). done.
Qed.

Section Lift.

Context (h : heap) (K : Z -> list Z) (D : Z -> nat) (p new : Z) (rn : resource) (a m b : list Z) (h' : heap).
Hypotheses (Ht : tree h K D) (Hn : h !! new = Some rn) (Hpar : r_parent rn = None) (Hne : new <> p) (HK : K p = a ++ m ++ b) (Hl : lifted h p new a m b h').

Lemma lift_new : lift K p new a m b new = m.
Proof. unfold lift. apply upd_eq. Qed.

Lemma lift_parent : lift K p new a m b p = a ++ new :: b.
Proof. unfold lift. rewrite upd_ne by done. apply upd_eq. Qed.

Lemma lift_other z : z <> new -> z <> p -> lift K p new a m b z = K z.
Proof. intros H1 H2. unfold lift. by rewrite !upd_ne. Qed.

Lemma lift_out z : new ∉ K z.
Proof. by eapply orphan. Qed.

Lemma lift_nodup : base.NoDup (a ++ m ++ b).
Proof. rewrite <- HK. by eapply children_nodup. Qed.

Lemma lift_apart z : (z ∈ a -> z ∉ m /\ z ∉ b) /\ (z ∈ m -> z ∉ a /\ z ∉ b) /\ (z ∈ b -> z ∉ a /\ z ∉ m).
Proof. pose proof lift_nodup as H. apply list.NoDup_app in H as (_&H1&H2). apply list.NoDup_app in H2 as (_&H2&_). pose proof (H1 z) as H1z. pose proof (H2 z) as H2z. rewrite elem_of_app in H1z. tauto. Qed.

Lemma lift_child z : z ∈ a ++ m ++ b -> z <> new /\ z <> p.
Proof. rewrite <- HK. intros Hz. split; [intros ->; by apply lift_out in Hz|]. intros ->. pose proof (t_depth _ _ _ Ht p p Hz). lia. Qed.

(** The members of the lists in the original list. *)
Lemma lift_at_a j z : a !! j = Some z -> K p !! j = Some z.
Proof. intros Hj. rewrite HK. by apply lookup_app_l_Some. Qed.

Lemma lift_at_m j z : m !! j = Some z -> K p !! (length a + j)%nat = Some z.
Proof. intros Hj. rewrite HK, lookup_app_r by lia. replace (length a + j - length a)%nat with j by lia. by apply lookup_app_l_Some. Qed.

Lemma lift_at_b j : K p !! (length a + length m + j)%nat = b !! j.
Proof. rewrite HK, lookup_app_r, lookup_app_r by lia. f_equal. lia. Qed.

Lemma slot_after_obj z : slot_obj (slot_after p a) = Some z -> z = p \/ z ∈ a.
Proof. unfold slot_after. destruct (list.last a) as [w|] eqn:E; simpl; intros [= <-]; [right|by left]. apply last_Some in E as (l&->). apply elem_of_app. right. by apply list_elem_of_singleton. Qed.

Lemma lifted_plain z r : z <> new -> z ∉ m -> z <> p -> list.last a <> Some z -> h' !! z = Some r -> h !! z = Some r.
Proof.
  intros H1 H2 H3 H4 Hz. rewrite Hl, decide_False, decide_False in Hz by done. apply fmap_Some in Hz as (r0&Hr0&->). rewrite Hr0. f_equal. unfold slot_after. destruct (list.last a) as [w|]; simpl; by rewrite decide_False by congruence.
Qed.

Lemma last_lookup_nodup (l : list Z) j z : base.NoDup l -> l !! j = Some z -> (list.last l = Some z <-> S j = length l).
Proof.
  intros Hnd Hj. rewrite last_lookup. apply lookup_lt_Some in Hj as Hlt. split; [|intros H0; rewrite <- H0; simpl; by rewrite Hj].
  intros H0. pose proof (proj1 (NoDup_alt _) Hnd _ _ _ Hj H0). lia.
Qed.

Lemma lift_sibling w j y r' : lift K p new a m b w !! j = Some y -> h' !! y = Some r' -> r_sibling r' = lift K p new a m b w !! S j.
Proof.
  pose proof lift_nodup as Hnd. apply list.NoDup_app in Hnd as (Hna&_&Hnd). apply list.NoDup_app in Hnd as (Hnm&_&_).
  intros Hj Hy. destruct (decide (w = new)) as [->|Hwn]; [|destruct (decide (w = p)) as [->|Hwp]].
  - rewrite lift_new in *. apply list_elem_of_lookup_2 in Hj as Hm. destruct (lift_child y) as (H1&_); [rewrite !elem_of_app; tauto|]. rewrite Hl, decide_False, decide_True in Hy by done.
    apply fmap_Some in Hy as (r&Hr&->). pose proof (t_sibling _ _ _ Ht p _ y r (lift_at_m _ _ Hj) Hr) as Hs. simpl. apply lookup_lt_Some in Hj as Hlt. pose proof (last_lookup_nodup m j y Hnm Hj) as Hlast. case_decide as Hd; simpl.
    + symmetry. apply lookup_ge_None. apply Hlast in Hd. lia.
    + rewrite Hs, HK, lookup_app_r, lookup_app_l by (assert (S j <> length m) by tauto; lia). f_equal. lia.
  - rewrite lift_parent in *. destruct (decide (j < length a)%nat) as [Hja|Hja]; [|destruct (decide (j = length a)) as [->|Hjn]].
    + rewrite lookup_app_l in Hj by done. apply list_elem_of_lookup_2 in Hj as Hm. destruct (lift_child y) as (H1&H2); [rewrite elem_of_app; tauto|]. destruct (lift_apart y) as (H3&_&_). destruct (H3 Hm) as (H4&_).
      rewrite Hl, decide_False, decide_False in Hy by done. apply fmap_Some in Hy as (r&Hr&->). pose proof (t_sibling _ _ _ Ht p _ y r (lift_at_a _ _ Hj) Hr) as Hs. pose proof (last_lookup_nodup a j y Hna Hj) as Hlast. unfold slot_after.
      destruct (decide (S j = length a)) as [HS|HS].
      * rewrite (proj2 Hlast HS). cbn [adjust_slot]. rewrite decide_True by done. simpl. rewrite lookup_app_r by lia. by replace (S j - length a)%nat with 0%nat by lia.
      * assert (Hlk : (a ++ new :: b) !! S j = K p !! S j) by (rewrite HK, !lookup_app_l by lia; done). rewrite Hlk, <- Hs. destruct (list.last a) as [v|]; cbn [adjust_slot]; [rewrite decide_False; [done|]; intros [= ->]; tauto|]. rewrite decide_False by congruence. done.
    + rewrite list_lookup_middle in Hj by done. injection Hj as <-. rewrite Hl, decide_True, Hn in Hy by done. injection Hy as <-. simpl. rewrite lookup_app_r by lia. by replace (S (length a) - length a)%nat with 1%nat by lia.
    + rewrite lookup_app_r in Hj by lia. destruct (j - length a)%nat as [|k] eqn:Ek; [lia|]. simpl in Hj. apply list_elem_of_lookup_2 in Hj as Hm. destruct (lift_child y) as (H1&H2); [rewrite !elem_of_app; tauto|]. destruct (lift_apart y) as (_&_&H3). destruct (H3 Hm) as (H4&H5).
      apply lifted_plain in Hy; [|done|done|done|intros E; apply last_Some in E as (l&E); apply H4; rewrite E; apply elem_of_app; right; by apply list_elem_of_singleton].
      rewrite <- lift_at_b in Hj. rewrite (t_sibling _ _ _ Ht p _ y r' Hj Hy). rewrite lookup_app_r by lia. replace (S j - length a)%nat with (S (S k)) by lia. simpl. rewrite <- lift_at_b. f_equal. lia.
  - rewrite lift_other in * by done. apply list_elem_of_lookup_2 in Hj as Hin. assert (Hnp : y ∉ a ++ m ++ b) by (rewrite <- HK; intros Hin'; by pose proof (child_unique _ _ _ Ht w p y Hin Hin')). rewrite !elem_of_app in Hnp.
    assert (y <> new) by (intros ->; by apply lift_out in Hin). rewrite Hl, decide_False, decide_False in Hy by tauto. apply fmap_Some in Hy as (r&Hr&->). rewrite <- (t_sibling _ _ _ Ht w j y r Hj Hr).
    destruct (slot_after p a) as [q|q] eqn:Eq; cbn [adjust_slot]; case_decide; [done|done| |done]. subst q. destruct (slot_after_obj y) as [->|]; [by rewrite Eq| |tauto]. unfold slot_after in Eq. destruct (list.last a) as [v|] eqn:Ev; [|done]. injection Eq as ->.
    apply last_Some in Ev as (l&->). exfalso. apply Hnp. left. apply elem_of_app. right. by apply list_elem_of_singleton.
Qed.

Lemma lift_mem w y : y ∈ lift K p new a m b w <-> (w = p /\ y = new) \/ (w = new /\ y ∈ m) \/ (w <> new /\ y ∈ K w /\ y ∉ m).
Proof.
  destruct (decide (w = new)) as [->|Hwn]; [rewrite lift_new; tauto|]. destruct (decide (w = p)) as [->|Hwp].
  - rewrite lift_parent, HK, !elem_of_app, elem_of_cons. destruct (lift_apart y) as (?&?&?). tauto.
  - rewrite lift_other by done. split; [|tauto]. intros Hy. right. right. split; [done|]. split; [done|]. intros Hm. apply Hwp. eapply (child_unique _ _ _ Ht); [done|]. rewrite HK, !elem_of_app. tauto.
Qed.

Lemma lifted_ahead z r : h !! z = Some r -> is_Some (h' !! z).
Proof. intros Hz. rewrite Hl. destruct (decide (z = new)) as [->|]; [rewrite Hz; eauto|]. destruct (decide (z ∈ m)); rewrite Hz; eauto. Qed.

(** The order of the children of the parent. *)
Lemma lift_order rp i j y z ry rz : h !! p = Some rp -> r_start rn <= r_end rn -> (forall y r, y ∈ a -> h !! y = Some r -> r_end r < r_start rn) -> (forall y r, y ∈ b -> h !! y = Some r -> r_end rn < r_start r) ->
  (a ++ new :: b) !! i = Some y -> (a ++ new :: b) !! j = Some z -> (i < j)%nat -> h !! y = Some ry -> h !! z = Some rz -> r_end ry < r_start rz.
Proof.
  intros Hp Hse Ha Hb Hi Hj Hij Hy Hz.
  assert (Hcase : forall k w, (a ++ new :: b) !! k = Some w -> (a !! k = Some w /\ (k < length a)%nat) \/ (w = new /\ k = length a) \/ exists k', k = (length a + S k')%nat /\ b !! k' = Some w).
  { intros k w Hk. apply lookup_app_Some in Hk as [Hk|(Hge&Hk)]; [left; split; [done|by eapply lookup_lt_Some]|]. destruct (k - length a)%nat as [|k'] eqn:Ek; [injection Hk as <-; right; left; split; [done|lia]|]. right. right. exists k'. split; [lia|done]. }
  destruct (Hcase i y Hi) as [(Hi'&Hil)|[(->&->)|(i'&->&Hi')]], (Hcase j z Hj) as [(Hj'&Hjl)|[(->&->)|(j'&->&Hj')]]; try lia.
  - eapply (t_order _ _ _ Ht p i j y z); eauto using lift_at_a.
  - replace rz with rn by congruence. apply (Ha y); [by eapply list_elem_of_lookup_2|done].
  - eapply (t_order _ _ _ Ht p i (length a + length m + j')%nat y z); [by apply lift_at_a|by rewrite lift_at_b|lia|done|done].
  - replace ry with rn by congruence. apply (Hb z); [by eapply list_elem_of_lookup_2|done].
  - eapply (t_order _ _ _ Ht p (length a + length m + i')%nat (length a + length m + j')%nat y z); [by rewrite lift_at_b|by rewrite lift_at_b|lia|done|done].
Qed.

(** The new depths leave room for the new resource. *)
Definition lift_depth (z : Z) : nat := if decide (z = new) then S (2 * D p) else (2 * D z)%nat.

Lemma tree_lift rp : h !! p = Some rp -> r_child rn = None -> within rp (r_start rn) (r_end rn) -> (forall y r, y ∈ m -> h !! y = Some r -> r_start rn <= r_start r /\ r_end r <= r_end rn) ->
  (forall y r, y ∈ a -> h !! y = Some r -> r_end r < r_start rn) -> (forall y r, y ∈ b -> h !! y = Some r -> r_end rn < r_start r) -> tree h' (lift K p new a m b) lift_depth.
Proof.
  intros Hp Hch (Hs&Hse&He) Hm Ha Hb. pose proof Ht as [Tc Ts Tp Tl Tn To Td Tr]. pose proof lift_child as Hkid. pose proof lift_mem as Hmem.
  assert (HKn : K new = []) by (by eapply fresh_no_children).
  assert (Hpm : p ∉ m) by (intros H0; destruct (Hkid p) as [_ ?]; [rewrite !elem_of_app; tauto|done]).
  assert (HmK : forall y, y ∈ m -> y ∈ K p) by (intros y Hy; rewrite HK, !elem_of_app; tauto).
  split.
  - intros z r' Hz. rewrite Hl in Hz. destruct (decide (z = new)) as [->|Hzn]; [rewrite lift_new; apply fmap_Some in Hz as (r&_&->); done|]. destruct (decide (z = p)) as [->|Hzp].
    + rewrite decide_False, Hp in Hz by done. injection Hz as <-. rewrite lift_parent. pose proof (Tc p rp Hp) as Hc. rewrite HK in Hc. unfold slot_after. destruct (list.last a) as [w|] eqn:Ew.
      * apply last_Some in Ew as (l&Ew). cbn [adjust_slot]. rewrite decide_False by (intros [= ->]; destruct (Hkid p) as [_ ?]; [rewrite Ew, !elem_of_app, elem_of_cons; tauto|done]). rewrite Hc. by destruct a; [destruct l|].
      * apply last_None in Ew. rewrite Ew. cbn [adjust_slot]. by rewrite decide_True by done.
    + rewrite lift_other by done. destruct (decide (z ∈ m)); apply fmap_Some in Hz as (r&Hr&->); [simpl; case_decide; simpl; by apply Tc|]. rewrite <- (Tc z r Hr). unfold slot_after. destruct (list.last a); cbn [adjust_slot]; case_decide; simpl; congruence.
  - intros w j y r' Hj Hy. by eapply lift_sibling.
  - intros w y. rewrite Hmem. split.
    + intros Hc. assert (exists r, h !! y = Some r) as (r&Hr). { destruct Hc as [(_&->)|[(_&Hy)|(_&Hy&_)]]; [eauto|apply HmK in Hy; apply Tp in Hy as (r&?&_); eauto|apply Tp in Hy as (r&?&_); eauto]. }
      destruct (lifted_ahead y r Hr) as [r' Hr']. exists r'. split; [done|]. destruct (lifted_inv _ _ _ _ _ _ _ _ _ Hl Hr') as (r0&Hr0&_&_&->). destruct Hc as [(->&->)|[(->&Hy)|(Hw&Hy&Hym)]]; [by rewrite decide_True| |].
      * rewrite decide_False, decide_True; [done|done|]. apply Hkid. rewrite !elem_of_app. tauto.
      * rewrite decide_False, decide_False; [|done|intros ->; by apply lift_out in Hy]. apply Tp in Hy as (r1&?&?). congruence.
    + intros (r'&Hr'&Hpr). destruct (lifted_inv _ _ _ _ _ _ _ _ _ Hl Hr') as (r&Hr&_&_&Hpp). rewrite Hpr in Hpp. case_decide; [injection Hpp as ->; by left|]. case_decide; [injection Hpp as ->; right; by left|]. right. right.
      assert (Hyw : y ∈ K w) by (apply Tp; eauto). split; [|done]. intros ->. rewrite HKn in Hyw. by apply not_elem_of_nil in Hyw.
  - intros w y Hy. apply Hmem in Hy as [(->&_)|[(->&_)|(_&Hy&_)]]; [by eapply lifted_ahead|by eapply lifted_ahead|]. destruct (Tl w y Hy). by eapply lifted_ahead.
  - intros w y rw' ry' Hy Hw Hy'. destruct (lifted_inv _ _ _ _ _ _ _ _ _ Hl Hw) as (rw&Hrw&->&->&_). destruct (lifted_inv _ _ _ _ _ _ _ _ _ Hl Hy') as (ry&Hry&->&->&_).
    apply Hmem in Hy as [(->&->)|[(->&Hy)|(_&Hy&_)]]; [replace rw with rp by congruence; replace ry with rn by congruence; lia| |by apply (Tn w y)].
    replace rw with rn by congruence. destruct (Hm y ry Hy Hry). pose proof (Tn p y rp ry (HmK y Hy) Hp Hry). lia.
  - intros w i j y z ry' rz' Hi Hj Hij Hy Hz. destruct (lifted_inv _ _ _ _ _ _ _ _ _ Hl Hy) as (ry&Hry&_&->&_). destruct (lifted_inv _ _ _ _ _ _ _ _ _ Hl Hz) as (rz&Hrz&->&_&_).
    destruct (decide (w = new)) as [->|Hwn]; [rewrite lift_new in *; eapply (To p (length a + i)%nat (length a + j)%nat y z); eauto using lift_at_m; lia|].
    destruct (decide (w = p)) as [->|Hwp]; [rewrite lift_parent in *; by eapply (lift_order rp i j y z)|]. rewrite lift_other in * by done. by eapply (To w i j y z).
  - intros w y Hy. unfold lift_depth. apply Hmem in Hy as [(->&->)|[(->&Hy)|(Hw&Hy&_)]].
    + rewrite decide_False, decide_True by done. lia.
    + destruct (Hkid y) as (H1&_); [rewrite !elem_of_app; tauto|]. rewrite decide_True, decide_False by done. pose proof (Td p y (HmK y Hy)). lia.
    + rewrite !decide_False; [|intros ->; by apply lift_out in Hy|done]. pose proof (Td w y Hy). lia.
  - intros z r' Hz. destruct (lifted_inv _ _ _ _ _ _ _ _ _ Hl Hz) as (r&Hr&->&->&_). by apply Tr in Hr.
Qed.

End Lift.

(** ** Going down the tree *)

(** The resources deeper than [x] bound the number of steps down from [x]. *)
Definition deeper (h : heap) (D : Z -> nat) (x : Z) : nat := size (filter (fun kv => (D x < D kv.1)%nat) h).

Lemma deeper_lt h K D x y : tree h K D -> y ∈ K x -> (deeper h D y < deeper h D x)%nat.
Proof.
  intros Ht Hy. destruct (child_lookup _ _ _ Ht x y Hy) as (r&Hr&_). pose proof (t_depth _ _ _ Ht x y Hy) as Hd. unfold deeper. apply map_subset_size. split.
  - apply map_subseteq_spec. intros z rz. rewrite !map_lookup_filter_Some. simpl. intros (H1&H2). split; [done|lia].
  - intros Hsub. apply (map_subseteq_spec _ _) with (i := y) (x := r) in Hsub; [|apply map_lookup_filter_Some; by split]. apply map_lookup_filter_Some in Hsub as (_&Hlt). simpl in Hlt. lia.
Qed.

Lemma deeper_bound h D x : (deeper h D x <= size h)%nat.
Proof. unfold deeper. apply map_subseteq_size, map_filter_subseteq. Qed.

(** [c] overlaps the range, and neither of them contains the other. *)
Definition straddles (c : resource) (start end_ : Z) : Prop :=
  r_start c <= end_ /\ start <= r_end c /\ (r_start c < start \/ end_ < r_end c) /\ (start < r_start c \/ r_end c < end_).

(** [p] is [x] or below it, and every resource from below [x] to [p] contains the range. *)
Inductive encloses (h : heap) (K : Z -> list Z) (start end_ : Z) : Z -> Z -> Prop :=
| encloses_refl x : encloses h K start end_ x x
| encloses_step x y p ry : y ∈ K x -> h !! y = Some ry -> within ry start end_ -> encloses h K start end_ y p -> encloses h K start end_ x p.

(** The end of the first loop: a parent that contains the range, where the new
    resource is linked, or whose first child in the way does not contain it. *)
Definition descended (h : heap) (K : Z -> list Z) (new : Z) (rn : resource) (x p : Z) (res : outcome ((option Z + option Z * option Z) * heap)) : Prop :=
  encloses h K (r_start rn) (r_end rn) x p /\ new <> p /\ (exists rp, h !! p = Some rp /\ within rp (r_start rn) (r_end rn)) /\
  ((exists i h', (i <= length (K p))%nat /\ fits h K p i (r_start rn) (r_end rn) /\ linked h K p i new h' /\ res = Ok (inl None, h')) \/
   (exists f rf, first_overlap h K p (r_start rn) (r_end rn) f /\ h !! f = Some rf /\ (r_start rn < r_start rf \/ r_end rf < r_end rn \/ (r_start rf = r_start rn /\ r_end rf = r_end rn)) /\
      res = Ok (inr (Some p, Some f), h))).

Lemma insert_descend_spec h K D new rn : tree h K D -> fresh h new rn -> forall fuel x rx, (deeper h D x < fuel)%nat -> h !! x = Some rx -> new <> x -> within rx (r_start rn) (r_end rn) ->
  exists p, descended h K new rn x p (insert_descend fuel h (Some x) (Some new)).
Proof.
  intros Ht Hfr. pose proof Hfr as (Hn&Hp&_). induction fuel as [|fuel IH]; intros x rx Hf Hx Hne Hw; [lia|]. cbn [insert_descend].
  destruct (request_spec h K D x new rx rn Ht Hx Hfr Hne) as [(Hout&_)|[(_&f&Hov&->)|(_&i&h'&Hi&Hfit&Hl&->)]]; [done| |]; cbn [obind]; cycle 1.
  { exists x. split; [constructor|]. split; [done|]. split; [eauto|]. left. by exists i, h'. }
  pose proof Hov as (i&rf&Hfi&Hrf&H1&H2&H3). apply list_elem_of_lookup_2 in Hfi as Hfin. assert (Hfn : new <> f) by (intros <-; by apply (orphan _ _ _ Ht x new rn Hn Hp) in Hfin).
  rewrite decide_False by (intros [= ->]; pose proof (t_depth _ _ _ Ht x x Hfin); lia). rewrite decide_False by congruence. rewrite (get_Ok _ _ _ Hrf), (get_Ok _ _ _ Hn). cbn [obind].
  destruct ((r_start rn <? r_start rf) || (r_end rf <? r_end rn)) eqn:E1; [|destruct ((r_start rf =? r_start rn) && (r_end rf =? r_end rn)) eqn:E2].
  - exists x. split; [constructor|]. split; [done|]. split; [eauto|]. right. exists f, rf. split; [done|]. split; [done|]. split; [lia|done].
  - exists x. split; [constructor|]. split; [done|]. split; [eauto|]. right. exists f, rf. split; [done|]. split; [done|]. split; [lia|done].
  - assert (Hwf : within rf (r_start rn) (r_end rn)) by (destruct Hw as (?&?&?); split; [|split]; lia). pose proof (deeper_lt _ _ _ _ _ Ht Hfin).
    destruct (IH f rf) as (p&Henc&Hrest); [lia|done|done|done|]. exists p. split; [|done]. by econstructor.
Qed.

(** The second loop ends at the last child in the way, or at one that straddles the range. *)
Lemma insert_span_spec h K D p s e : tree h K D -> s <= e -> forall fuel k y r, (length (K p) - k < fuel)%nat -> K p !! k = Some y -> h !! y = Some r -> r_start r <= e -> s <= r_end r ->
  (exists j c rc, (k <= j)%nat /\ K p !! j = Some c /\ h !! c = Some rc /\ insert_span fuel h s e (Some y) = Ok (inl (Some c)) /\ r_start rc <= e /\ s <= r_end rc /\ (r_start rc < s \/ e < r_end rc)) \/
  (exists j, (k <= j < length (K p))%nat /\ insert_span fuel h s e (Some y) = Ok (inr (K p !! j)) /\ (forall i z rz, (k <= i <= j)%nat -> K p !! i = Some z -> h !! z = Some rz -> s <= r_start rz /\ r_end rz <= e) /\
     (forall z rz, K p !! S j = Some z -> h !! z = Some rz -> e < r_start rz)).
Proof.
  intros Ht Hse. induction fuel as [|fuel IH]; intros k y r Hf Hk Hr Ho1 Ho2; [lia|]. cbn [insert_span]. rewrite (get_Ok _ _ _ Hr). cbn [obind]. apply lookup_lt_Some in Hk as Hlt.
  destruct ((r_start r <? s) || (e <? r_end r)) eqn:E1; [left; exists k, y, r; split; [lia|]; split; [done|]; split; [done|]; split; [done|]; lia|].
  assert (Hk1 : forall i z rz, (k <= i <= k)%nat -> K p !! i = Some z -> h !! z = Some rz -> s <= r_start rz /\ r_end rz <= e).
  { intros i z rz Hi Hz Hrz. assert (i = k) by lia. subst i. assert (z = y) by congruence. subst z. assert (rz = r) by congruence. subst rz. lia. }
  rewrite (t_sibling _ _ _ Ht p k y r Hk Hr). destruct (K p !! S k) as [z|] eqn:Ez; [|right; exists k; split; [lia|]; split; [by rewrite Hk|]; split; [exact Hk1|]; congruence].
  destruct (child_at _ _ _ Ht _ _ _ Ez) as (rz&Hrz&_). rewrite (get_Ok _ _ _ Hrz). cbn [obind]. destruct (e <? r_start rz) eqn:E2.
  - right. exists k. split; [lia|]. split; [by rewrite Hk|]. split; [exact Hk1|]. intros w rw [= <-]%(eq_trans (eq_sym Ez)) Hrw. assert (rw = rz) by congruence. subst. lia.
  - destruct (t_live _ _ _ Ht p z) as [rp Hp]; [by eapply list_elem_of_lookup_2|]. pose proof (t_order _ _ _ Ht p k (S k) y z r rz Hk Ez ltac:(lia) Hr Hrz). pose proof (t_nested _ _ _ Ht p z rp rz ltac:(by eapply list_elem_of_lookup_2) Hp Hrz).
    destruct (IH (S k) z rz) as [(j&c&rc&Hj&Hc&Hrc&->&Hrest)|(j&Hj&->&Hin&Hnext)]; [lia|done|done|lia|lia| |].
    + left. exists j, c, rc. split; [lia|]. done.
    + right. exists j. split; [lia|]. split; [done|]. split; [|done]. intros i w rw Hi Hw Hrw. destruct (decide (i = k)) as [->|]; [eapply (Hk1 k); [lia|done|done]|]. eapply (Hin i); [lia|done|done].
Qed.

(** ** Relinking *)

Lemma set_parents_spec v (l : list Z) : base.NoDup l -> forall fuel h, (length l < fuel)%nat -> chained h l (length l) -> exists h', set_parents fuel h (l !! 0%nat) v = Ok h' /\
  forall z, h' !! z = if decide (z ∈ l) then (fun r => set_parent r v) <$> h !! z else h !! z.
Proof.
  induction l as [|y l IH]; intros Hnd fuel h Hf Hc; (destruct fuel as [|fuel]; [simpl in Hf; lia|]); cbn [set_parents].
  - exists h. split; [done|]. intros z. rewrite decide_False; [done|apply not_elem_of_nil].
  - simpl. apply list.NoDup_cons in Hnd as (Hy&Hnd). destruct (Hc 0%nat y) as (r&Hr&Hs); [lia|done|]. rewrite Hr. cbn [obind]. rewrite lookup_insert_eq. cbn [obind r_sibling set_parent]. rewrite Hs. cbn [lookup list_lookup].
    destruct (IH Hnd fuel (<[y := set_parent r v]> h)) as (h'&Hrun&Hh'); [simpl in Hf; lia| |].
    + intros j z Hj Hz. destruct (Hc (S j) z) as (rz&Hrz&Hsz); [simpl; lia|done|]. exists rz. split; [|done]. rewrite lookup_insert_ne; [done|]. intros ->. apply Hy. by eapply list_elem_of_lookup_2.
    + exists h'. split; [exact Hrun|]. intros z. rewrite Hh'. destruct (decide (z = y)) as [->|Hzy].
      * rewrite decide_False, decide_True, lookup_insert_eq, Hr by (done || apply elem_of_cons; by left). done.
      * rewrite lookup_insert_ne by done. destruct (decide (z ∈ l)) as [Hz|Hz]; [rewrite decide_True by (apply elem_of_cons; by right); done|]. rewrite decide_False; [done|]. intros Hz'. apply elem_of_cons in Hz'. tauto.
Qed.

Lemma same_size (h h' : heap) : (forall z, is_Some (h' !! z) <-> is_Some (h !! z)) -> size h' = size h.
Proof. intros H. rewrite <- !size_dom. f_equal. apply leibniz_equiv. intros z. rewrite !elem_of_dom. apply H. Qed.

Section Relink.

Context (h : heap) (K : Z -> list Z) (D : Z -> nat) (p new y : Z) (rn rp ry : resource) (a m m0 b : list Z).
Hypotheses (Ht : tree h K D) (Hn : h !! new = Some rn) (Hpar : r_parent rn = None) (Hne : new <> p) (Hm : m = m0 ++ [y]) (HK : K p = a ++ m ++ b) (Hp : h !! p = Some rp) (Hy : h !! y = Some ry).

(** The heap before the last step. *)
Definition adopted (h3 : heap) : Prop := forall z, h3 !! z =
  if decide (z = new) then Some (set_child (set_sibling (set_parent rn (Some p)) (b !! 0%nat)) (m !! 0%nat))
  else if decide (z ∈ m) then (fun r => set_parent (if decide (z = y) then set_sibling r None else r) (Some new)) <$> h !! z else h !! z.

Lemma relink_kids z : z ∈ m -> z <> new /\ z <> p /\ exists r, h !! z = Some r.
Proof.
  intros Hz. assert (Hin : z ∈ a ++ m ++ b) by (rewrite !elem_of_app; tauto). destruct (lift_child h K D p new rn a m b Ht Hn Hpar HK z Hin) as (H1&H2). split; [done|]. split; [done|].
  rewrite <- HK in Hin. destruct (child_lookup _ _ _ Ht p z Hin) as (r&Hr&_). eauto.
Qed.

Lemma relink_last : y ∈ m.
Proof. rewrite Hm. apply elem_of_app. right. by apply list_elem_of_singleton. Qed.

Lemma relink_size : (length a + length m <= size h)%nat.
Proof. pose proof (children_count _ _ _ Ht p) as H. rewrite HK, !length_app in H. lia. Qed.

Lemma relink_sibling : r_sibling ry = b !! 0%nat.
Proof.
  assert (Hat : K p !! (length a + length m0)%nat = Some y) by (rewrite HK, Hm, lookup_app_r by lia; rewrite lookup_app_l by (rewrite length_app; simpl; lia); rewrite lookup_app_r by lia; by replace (length a + length m0 - length a - length m0)%nat with 0%nat by lia).
  rewrite (t_sibling _ _ _ Ht p _ y ry Hat Hy), HK, Hm. rewrite lookup_app_r by lia. rewrite lookup_app_r by (rewrite length_app; simpl; lia). f_equal. rewrite length_app. simpl. lia.
Qed.

Lemma relink_chained h2 : (forall z, z ∈ m -> h2 !! z = if decide (z = y) then Some (set_sibling ry None) else h !! z) -> chained h2 m (length m).
Proof.
  intros H2 j z _ Hz. apply list_elem_of_lookup_2 in Hz as Hin. destruct (relink_kids z Hin) as (_&_&r&Hr). rewrite (H2 z Hin).
  pose proof (lift_nodup h K D p a m b Ht HK) as Hnd. apply list.NoDup_app in Hnd as (_&_&Hnd). apply list.NoDup_app in Hnd as (Hnd&_&_). pose proof (last_lookup_nodup m j z Hnd Hz) as Hlast. rewrite Hm in Hlast at 1. rewrite last_snoc in Hlast.
  apply lookup_lt_Some in Hz as Hlt. case_decide as Hd.
  - subst z. eexists. split; [done|]. simpl. symmetry. apply lookup_ge_None. apply proj1 in Hlast. specialize (Hlast eq_refl). lia.
  - exists r. split; [done|]. rewrite (t_sibling _ _ _ Ht p _ z r (lift_at_m K p a m b HK j z Hz) Hr), HK. rewrite lookup_app_r, lookup_app_l; [f_equal; lia| |lia].
    assert (S j <> length m) by (intros E; apply Hlast in E; congruence). lia.
Qed.

Lemma relink_adopted : exists h3, adopted h3 /\
  relink h (Some p) (Some new) (m !! 0%nat) (Some y) = (let* h4 := (if decide (r_child rp = m !! 0%nat) then put h3 (Some p) (fun r => set_child r (Some new)) else let* next := before (rounds h3) h3 (r_child rp) (m !! 0%nat) in put h3 next (fun r => set_sibling r (Some new))) in Ok (None, h4)).
Proof.
  unfold relink. rewrite (get_Ok _ _ _ Hy). cbn [obind]. rewrite (put_Ok _ _ _ _ Hn), relink_sibling. cbn [obind]. set (n' := set_child _ _). destruct (relink_kids y relink_last) as (Hyn&Hyp&_).
  rewrite (put_Ok _ y ry) by (by rewrite lookup_insert_ne). cbn [obind]. set (h2 := <[y := set_sibling ry None]> (<[new := n']> h)).
  assert (H2 : forall z, h2 !! z = if decide (z = new) then Some n' else if decide (z = y) then Some (set_sibling ry None) else h !! z).
  { intros z. unfold h2. destruct (decide (z = new)) as [->|]; [by rewrite lookup_insert_ne, lookup_insert_eq|]. destruct (decide (z = y)) as [->|]; [by rewrite lookup_insert_eq|]. by rewrite !lookup_insert_ne. }
  assert (Hs2 : size h2 = size h). { apply same_size. intros z. rewrite H2. destruct (decide (z = new)) as [->|]; [rewrite Hn; split; eauto|]. destruct (decide (z = y)) as [->|]; [rewrite Hy; split; eauto|done]. }
  pose proof (lift_nodup h K D p a m b Ht HK) as Hnd. apply list.NoDup_app in Hnd as (_&_&Hnd). apply list.NoDup_app in Hnd as (Hnd&_&_). pose proof relink_size as Hsz.
  destruct (set_parents_spec (Some new) m Hnd (rounds h2) h2) as (h3&->&H3); [unfold rounds; lia|apply relink_chained; intros z Hz; destruct (relink_kids z Hz) as (H0&_); by rewrite H2, decide_False|]. cbn [obind].
  assert (Had : adopted h3).
  { intros z. rewrite H3, H2. destruct (decide (z ∈ m)) as [Hz|Hz].
    - destruct (relink_kids z Hz) as (H0&_). rewrite !(decide_False (P := z = new)) by done. destruct (decide (z = y)) as [->|]; [by rewrite Hy|done].
    - destruct (decide (z = new)) as [->|]; [done|]. rewrite decide_False; [done|]. intros ->. apply Hz, relink_last. }
  exists h3. split; [done|]. assert (Hp3 : h3 !! p = Some rp) by (rewrite Had, decide_False, decide_False; [done|intros H0; by apply relink_kids in H0 as (_&?&_)|done]). by rewrite (get_Ok _ _ _ Hp3).
Qed.

Lemma adopted_size h3 : adopted h3 -> size h3 = size h.
Proof.
  intros H3. apply same_size. intros z. rewrite H3. destruct (decide (z = new)) as [->|]; [rewrite Hn; split; eauto|]. destruct (decide (z ∈ m)); [|done]. rewrite fmap_is_Some. done.
Qed.

Lemma relink_spec : exists h', relink h (Some p) (Some new) (m !! 0%nat) (Some y) = Ok (None, h') /\ lifted h p new a m b h'.
Proof.
  destruct relink_adopted as (h3&H3&->). pose proof (adopted_size h3 H3) as Hs3. pose proof relink_size as Hsz. assert (Hlm : list.last m = Some y) by (rewrite Hm; apply last_snoc).
  assert (Hend : forall q w rw g, h3 !! w = Some rw -> w <> new -> w ∉ m -> slot_after p a = q -> slot_obj q = Some w -> adjust_slot q (Some new) w rw = g -> lifted h p new a m b (<[w := g]> h3)).
  { intros q w rw g Hw Hwn Hwm <- Hq <- z. rewrite H3, !decide_False in Hw by done. destruct (decide (w = z)) as [<-|Hz]; [rewrite lookup_insert_eq, !decide_False, Hw by done; done|]. rewrite lookup_insert_ne by done. rewrite H3. destruct (decide (z = new)) as [->|]; [by rewrite Hn|].
    destruct (decide (z ∈ m)); [rewrite Hlm; destruct (h !! z); [|done]; simpl; f_equal; destruct (decide (z = y)), (decide (Some y = Some z)); congruence|].
    destruct (h !! z); [|done]. simpl. f_equal. destruct (slot_after p a); simpl in *; by rewrite decide_False by congruence. }
  assert (Hpm : p ∉ m) by (intros H0; by apply relink_kids in H0 as (_&?&_)). assert (Hp3 : h3 !! p = Some rp) by (by rewrite H3, !decide_False).
  pose proof (t_child _ _ _ Ht p rp Hp) as Hc. rewrite HK in Hc. destruct (list.last a) as [w|] eqn:Ew.
  - apply last_Some in Ew as Ea. destruct Ea as (a0&Ea). destruct (m !! 0%nat) as [f|] eqn:Ef; [|rewrite Hm in Ef; by destruct m0]. assert (HKf : K p !! S (length a0) = Some f) by (replace (S (length a0)) with (length a + 0)%nat by (rewrite Ea, length_app; simpl; lia); by eapply lift_at_m).
    pose proof (children_nodup _ _ _ Ht p) as Hnd. rewrite <- HK in Hc.
    assert (Ha3 : forall j z, (j <= length a0)%nat -> K p !! j = Some z -> z <> new /\ z ∉ m /\ h3 !! z = h !! z).
    { intros j z Hj Hz. assert (Hza : a !! j = Some z) by (rewrite HK, lookup_app_l in Hz by (rewrite Ea, length_app; simpl; lia); done). apply list_elem_of_lookup_2 in Hza. destruct (lift_apart h K D p a m b Ht HK z) as (Hap&_&_). destruct (Hap Hza) as (Hzm&_).
      destruct (lift_child h K D p new rn a m b Ht Hn Hpar HK z) as (Hzn&_); [rewrite elem_of_app; by left|]. split; [done|]. split; [done|]. by rewrite H3, !decide_False. }
    rewrite decide_False by (rewrite Hc; intros E; pose proof (proj1 (NoDup_alt _) Hnd _ _ _ E HKf); lia). rewrite Hc.
    rewrite (before_spec h3 (K p) (length a0) f); [|intros j z Hj Hz; destruct (Ha3 j z Hj Hz) as (_&_&->); eapply (children_chained _ _ _ _ (length a0) Ht); done|done|done|lia|rewrite Ea, length_app in Hsz; unfold rounds; lia].
    assert (HKw : K p !! length a0 = Some w) by (apply (lift_at_a K p a m b HK); rewrite Ea; by apply list_lookup_middle). cbn [obind]. destruct (child_at _ _ _ Ht _ _ _ HKw) as (rw&Hrw&_). destruct (Ha3 _ _ (le_n _) HKw) as (Hwn&Hwm&Hw3). rewrite Hrw in Hw3.
    rewrite HKw, (put_Ok _ _ _ _ Hw3). cbn [obind]. eexists. split; [done|]. eapply Hend; [done|done|done|done|unfold slot_after; rewrite Ew; done|]. unfold slot_after. rewrite Ew. cbn [adjust_slot]. by rewrite decide_True.
  - apply last_None in Ew as Ea. rewrite Ea in Hc. assert (Hcm : r_child rp = m !! 0%nat) by (rewrite Hc, Hm; by destruct m0). rewrite decide_True by done. rewrite (put_Ok _ _ _ _ Hp3). cbn [obind]. eexists. split; [done|].
    eapply Hend; [done|done|done|done|unfold slot_after; rewrite Ew; done|]. unfold slot_after. rewrite Ew. cbn [adjust_slot]. by rewrite decide_True.
Qed.

End Relink.

(** ** Insertion *)

Lemma linked_lifted h K D p i new rn h' : tree h K D -> h !! new = Some rn -> r_child rn = None -> (i <= length (K p))%nat -> linked h K p i new h' -> lifted h p new (take i (K p)) [] (drop i (K p)) h'.
Proof.
  intros Ht Hn Hc Hi Hl z. rewrite Hl. destruct (decide (z = new)) as [->|Hne].
  - rewrite Hn. simpl. f_equal. rewrite lookup_drop, Nat.add_0_r. destruct rn. simpl in *. by subst.
  - rewrite decide_False by apply not_elem_of_nil. assert (Hs : slot_at K p i = slot_after p (take i (K p))); [|by rewrite Hs]. unfold slot_after. rewrite last_lookup, length_take, Nat.min_l by done. destruct i as [|i]; [done|]. simpl.
    rewrite lookup_take_lt by lia. destruct (lookup_lt_is_Some_2 (K p) i ltac:(lia)) as [w ->]. done.
Qed.

(** [new] is linked below [p]; the children [m] of [p] that it covers become its children. *)
Definition inserted (h : heap) (K : Z -> list Z) (D : Z -> nat) (new : Z) (rn : resource) (x : Z) (h' : heap) : Prop :=
  exists p a m b, encloses h K (r_start rn) (r_end rn) x p /\ new <> p /\ K p = a ++ m ++ b /\ lifted h p new a m b h' /\ tree h' (lift K p new a m b) (lift_depth D p new) /\
    (forall y r, y ∈ m -> h !! y = Some r -> r_start rn <= r_start r /\ r_end r <= r_end rn).

Lemma first_overlap_ordered h K D p s f i rf j z rz : tree h K D -> K p !! i = Some f -> h !! f = Some rf -> s <= r_end rf -> (i < j)%nat -> K p !! j = Some z -> h !! z = Some rz -> s < r_start rz.
Proof. intros Ht Hf Hrf Hs Hij Hz Hrz. pose proof (t_order _ _ _ Ht p i j f z rf rz Hf Hz Hij Hrf Hrz). lia. Qed.

Lemma insert_spec h K D x new rx rn : tree h K D -> h !! x = Some rx -> fresh h new rn -> new <> x ->
  (~ within rx (r_start rn) (r_end rn) /\ __insert_resource h (Some x) (Some new) = Ok (Some x, h)) \/
  (within rx (r_start rn) (r_end rn) /\ exists p c rc, encloses h K (r_start rn) (r_end rn) x p /\ c ∈ K p /\ h !! c = Some rc /\ straddles rc (r_start rn) (r_end rn) /\ __insert_resource h (Some x) (Some new) = Ok (Some c, h)) \/
  (within rx (r_start rn) (r_end rn) /\ exists h', inserted h K D new rn x h' /\ __insert_resource h (Some x) (Some new) = Ok (None, h')).
Proof.
  intros Ht Hx Hfr Hne. pose proof Hfr as (Hn&Hpar&Hch). unfold __insert_resource.
  destruct (request_spec h K D x new rx rn Ht Hx Hfr Hne) as [(Hout&Hrun)|Hin]; [left; split; [done|]; cbn [insert_descend rounds]; rewrite Hrun; cbn [obind]; by rewrite decide_True|]. right.
  assert (Hw : within rx (r_start rn) (r_end rn)) by (by destruct Hin as [[]|[]]). clear Hin.
  destruct (insert_descend_spec h K D new rn Ht Hfr (rounds h) x rx) as (p&Henc&Hnp&(rp&Hp&Hwp)&[(i&h'&Hi&Hfit&Hl&->)|(f&rf&Hov&Hrf&Hbreak&->)]); [pose proof (deeper_bound h D x); unfold rounds; lia|done|done|done| |]; cbn [obind].
  { right. split; [done|]. exists h'. split; [|done]. exists p, (take i (K p)), [], (drop i (K p)). pose proof (linked_lifted h K D p i new rn h' Ht Hn Hch Hi Hl) as Hl'. assert (HK : K p = take i (K p) ++ [] ++ drop i (K p)) by (simpl; by rewrite take_drop).
    split; [done|]. split; [done|]. split; [done|]. split; [done|]. split; [|intros y r Hy; by apply not_elem_of_nil in Hy]. destruct Hfit as (_&Hse&Hnb).
    eapply (tree_lift h K D p new rn _ _ _ h' Ht Hn Hpar Hnp HK Hl' rp Hp Hch Hwp); [intros y r Hy; by apply not_elem_of_nil in Hy| |]; intros y r Hy Hr; apply list_elem_of_lookup in Hy as [j Hj].
    - apply lookup_lt_Some in Hj as Hlt. rewrite length_take in Hlt. rewrite lookup_take_lt in Hj by lia. specialize (Hnb j y r Hj Hr). by replace (j <? i)%nat with true in Hnb by lia.
    - rewrite lookup_drop in Hj. specialize (Hnb _ y r Hj Hr). by replace (i + j <? i)%nat with false in Hnb by lia. }
  rewrite (get_Ok _ _ _ Hn). cbn [obind]. destruct Hov as (i&rf'&Hf&Hrf'&Ho1&Ho2&Hbefore). assert (rf' = rf) by congruence. subst rf'. pose proof Hwp as (Hwp1&Hwp2&Hwp3).
  destruct (insert_span_spec h K D p (r_start rn) (r_end rn) Ht Hwp2 (rounds h) i f rf) as [(j&c&rc&Hj&Hc&Hrc&->&Hc1&Hc2&Hc3)|(j&Hj&->&Hmid&Hafter)]; [pose proof (children_count _ _ _ Ht p); unfold rounds; lia|done|done|done|done| |]; cbn [obind].
  - left. split; [done|]. exists p, c, rc. split; [done|]. split; [by eapply list_elem_of_lookup_2|]. split; [done|]. split; [|done]. split; [done|]. split; [done|]. split; [done|].
    destruct (decide (i = j)) as [->|]; [assert (rc = rf) by congruence; subst; lia|]. left. eapply (first_overlap_ordered h K D p); [done|exact Hf|done|done| |exact Hc|done]. lia.
  - right. split; [done|]. destruct (lookup_lt_is_Some_2 (K p) j ltac:(lia)) as [y Hy]. destruct (child_at _ _ _ Ht _ _ _ Hy) as (ry&Hry&_). rewrite Hy.
    set (a := take i (K p)). set (m0 := take (j - i) (drop i (K p))). set (b := drop (S j) (K p)).
    assert (HK : K p = a ++ (m0 ++ [y]) ++ b).
    { unfold a, m0, b. rewrite <- app_assoc. simpl. rewrite <- (take_drop i (K p)) at 1. f_equal. rewrite <- (take_drop (j - i) (drop i (K p))) at 1. f_equal. rewrite drop_drop. replace (i + (j - i))%nat with j by lia. by apply drop_S. }
    assert (Hfm : (m0 ++ [y]) !! 0%nat = Some f).
    { unfold m0. destruct (decide (i = j)) as [->|]; [replace (j - j)%nat with 0%nat by lia; simpl; congruence|]. rewrite lookup_app_l by (rewrite length_take, length_drop; lia). rewrite lookup_take_lt, lookup_drop by lia. by rewrite Nat.add_0_r. }
    rewrite <- Hfm. destruct (relink_spec h K D p new y rn rp ry a (m0 ++ [y]) m0 b Ht Hn Hpar Hnp eq_refl HK Hp Hry) as (h'&->&Hl). exists h'. split; [|done]. exists p, a, (m0 ++ [y]), b.
    assert (Hm : forall z rz, z ∈ m0 ++ [y] -> h !! z = Some rz -> r_start rn <= r_start rz /\ r_end rz <= r_end rn).
    { intros z rz Hz Hrz. apply elem_of_app in Hz as [Hz|Hz]; [|apply list_elem_of_singleton in Hz; subst; eapply (Hmid j); [lia|done|done]]. apply list_elem_of_lookup in Hz as [k Hk]. apply lookup_lt_Some in Hk as Hlt.
      unfold m0 in Hk, Hlt. rewrite length_take in Hlt. rewrite lookup_take_lt, lookup_drop in Hk by lia. eapply (Hmid (i + k)%nat); [lia|done|done]. }
    split; [done|]. split; [done|]. split; [done|]. split; [done|]. split; [|done]. eapply (tree_lift h K D p new rn _ _ _ h' Ht Hn Hpar Hnp HK Hl rp Hp Hch Hwp Hm); intros z rz Hz Hrz; apply list_elem_of_lookup in Hz as [k Hk].
    + apply lookup_lt_Some in Hk as Hlt. unfold a in Hlt, Hk. rewrite length_take in Hlt. rewrite lookup_take_lt in Hk by lia. eapply (Hbefore k); [lia|done|done].
    + unfold b in Hk. rewrite lookup_drop in Hk. assert (Hjl : (S j < length (K p))%nat) by (apply lookup_lt_Some in Hk; lia). destruct (lookup_lt_is_Some_2 (K p) (S j) Hjl) as [w HKw]. destruct (child_at _ _ _ Ht _ _ _ HKw) as (rw&Hrw&_). pose proof (Hafter w rw HKw Hrw).
      destruct k as [|k]; [rewrite Nat.add_0_r in Hk; replace rz with rw by congruence; done|]. pose proof (t_order _ _ _ Ht p (S j) (S j + S k)%nat w z rw rz HKw Hk ltac:(lia) Hrw Hrz). pose proof (t_nested _ _ _ Ht p w rp rw ltac:(by eapply list_elem_of_lookup_2) Hp Hrw). lia.
Qed.

(** ** Expanding to fit *)

Inductive below (K : Z -> list Z) : Z -> Z -> Prop :=
| below_child x y : y ∈ K x -> below K x y
| below_step x y z : y ∈ K x -> below K y z -> below K x z.

Lemma encloses_below h K s e x p c : encloses h K s e x p -> c ∈ K p -> below K x c.
Proof. induction 1 as [x|x y p ry Hy Hry Hw Henc IH]; intros Hc; [by constructor|]. eapply below_step; [done|auto]. Qed.

Lemma encloses_range h K D s e x p rx rp : tree h K D -> encloses h K s e x p -> h !! x = Some rx -> h !! p = Some rp -> r_start rx <= r_start rp /\ r_end rp <= r_end rx.
Proof.
  intros Ht Henc. revert rx. induction Henc as [x|x y p ry Hy Hry Hw Henc IH]; intros rx Hx Hp; [assert (rx = rp) by congruence; subst; lia|].
  pose proof (t_nested _ _ _ Ht x y rx ry Hy Hx Hry). pose proof (IH ry Hry Hp). lia.
Qed.

(** [s', e'] is the least range that contains [s, e] and straddles nothing below [x]. *)
Definition hull (h : heap) (K : Z -> list Z) (x s e s' e' : Z) : Prop :=
  s' <= s /\ e <= e' /\ forall lo hi, lo <= s -> e <= hi -> (forall z rz, below K x z -> h !! z = Some rz -> ~ straddles rz lo hi) -> lo <= s' /\ e' <= hi.

(** The resources that are not inside the range bound the number of expansions. *)
Definition outside (h : heap) (s e : Z) : nat := size (filter (fun kv => ~ (s <= r_start kv.2 /\ r_end kv.2 <= e)) h).

Lemma outside_lt (h : heap) s e s' e' c rc : h !! c = Some rc -> s' <= s -> e <= e' -> ~ (s <= r_start rc /\ r_end rc <= e) -> s' <= r_start rc /\ r_end rc <= e' -> (outside h s' e' < outside h s e)%nat.
Proof.
  intros Hc Hs He Hout Hin. unfold outside. apply map_subset_size. split.
  - apply map_subseteq_spec. intros z rz. rewrite !map_lookup_filter_Some. simpl. intros (H1&H2). split; [done|lia].
  - intros Hsub. apply (map_subseteq_spec _ _) with (i := c) (x := rc) in Hsub; [|apply map_lookup_filter_Some; by split]. apply map_lookup_filter_Some in Hsub as (_&H2). simpl in H2. lia.
Qed.

Lemma expand_spec h K D x new rx rn : tree h K D -> h !! x = Some rx -> fresh h new rn -> new <> x -> forall fuel s e, (outside h s e < fuel)%nat -> within rx s e ->
  exists s' e' h', expand_loop fuel (<[new := set_range rn s e]> h) (Some x) (Some new) = Ok h' /\ hull h K x s e s' e' /\ within rx s' e' /\ inserted (<[new := set_range rn s' e']> h) K D new (set_range rn s' e') x h'.
Proof.
  intros Ht Hx Hfr Hne. pose proof Hfr as (Hn&Hpar&Hch). pose proof (t_range _ _ _ Ht x rx Hx) as Hrx. induction fuel as [|fuel IH]; intros s e Hf Hw; [lia|]. cbn [expand_loop]. set (h1 := <[new := set_range rn s e]> h).
  assert (Ht1 : tree h1 K D) by (apply tree_set_range; [done|done|]; eapply fresh_may_be; [done|done| |]; destruct Hw as (?&?&?); lia).
  assert (Hx1 : h1 !! x = Some rx) by (unfold h1; by rewrite lookup_insert_ne). assert (Hf1 : fresh h1 new (set_range rn s e)) by (unfold fresh, h1; by rewrite lookup_insert_eq).
  destruct (insert_spec h1 K D x new rx (set_range rn s e) Ht1 Hx1 Hf1 Hne) as [(Hout&_)|[(_&p&c&rc&Henc&Hc&Hrc&Hst&->)|(_&h'&Hins&->)]]; [done| |]; cbn [obind]; cbn [r_start r_end set_range] in *; cycle 1.
  { exists s, e, h'. split; [done|]. split; [split; [lia|]; split; [lia|]; lia|]. done. }
  assert (Hcn : c <> new) by (intros ->; by apply (orphan _ _ _ Ht p new rn Hn Hpar) in Hc). pose proof (encloses_below _ _ _ _ _ _ _ Henc Hc) as Hbelow.
  assert (Hrc0 : h !! c = Some rc) by (unfold h1 in Hrc; by rewrite lookup_insert_ne in Hrc). destruct (t_live _ _ _ Ht1 p c Hc) as [rp Hp]. pose proof (encloses_range _ _ _ _ _ _ _ _ _ Ht1 Henc Hx1 Hp) as Hpx. pose proof (t_nested _ _ _ Ht1 p c rp rc Hc Hp Hrc) as Hcp.
  assert (Hdx : (D x < D c)%nat) by (clear - Ht Hbelow; induction Hbelow as [x y Hy|x y z Hy Hb IHb]; pose proof (t_depth _ _ _ Ht x y Hy); lia). rewrite decide_False by (intros [= ->]; lia). rewrite (get_Ok _ _ _ Hrc). cbn [obind]. rewrite (put_Ok _ new (set_range rn s e)) by (unfold h1; by rewrite lookup_insert_eq). cbn [obind r_start r_end set_range].
  set (s1 := if r_start rc <? s then r_start rc else s). set (e1 := if e <? r_end rc then r_end rc else e). replace (<[new := _]> h1) with (<[new := set_range rn s1 e1]> h) by (unfold h1; by rewrite insert_insert_eq).
  assert (Hs1 : s1 <= s /\ s1 <= r_start rc /\ (s1 = s \/ s1 = r_start rc)) by (unfold s1; destruct (r_start rc <? s) eqn:E; lia). assert (He1 : e <= e1 /\ r_end rc <= e1 /\ (e1 = e \/ e1 = r_end rc)) by (unfold e1; destruct (e <? r_end rc) eqn:E; lia).
  destruct Hst as (Hst1&Hst2&Hst3&Hst4). pose proof Hw as (Hw1&Hw2&Hw3). pose proof (outside_lt h s e s1 e1 c rc Hrc0 ltac:(lia) ltac:(lia) ltac:(lia) ltac:(lia)).
  destruct (IH s1 e1) as (s'&e'&h'&->&(Hh1&Hh2&Hmin)&Hw'&Hins); [lia|split; [|split]; lia|]. exists s', e', h'. split; [done|]. split; [|done]. split; [lia|]. split; [lia|]. intros lo hi Hlo Hhi Hno. apply Hmin; [| |done].
  - destruct (decide (lo <= s1)); [done|]. exfalso. apply (Hno c rc Hbelow Hrc0). unfold straddles. lia.
  - destruct (decide (e1 <= hi)); [done|]. exfalso. apply (Hno c rc Hbelow Hrc0). unfold straddles. lia.
Qed.

Lemma expand_to_fit_spec h K D x new rx rn : tree h K D -> h !! x = Some rx -> fresh h new rn -> new <> x -> within rx (r_start rn) (r_end rn) ->
  exists s' e' h', insert_resource_expand_to_fit h (Some x) (Some new) = Ok h' /\ hull h K x (r_start rn) (r_end rn) s' e' /\ within rx s' e' /\ inserted (<[new := set_range rn s' e']> h) K D new (set_range rn s' e') x h'.
Proof.
  intros Ht Hx Hfr Hne Hw. pose proof Hfr as (Hn&Hpar&_). unfold insert_resource_expand_to_fit. rewrite (get_Ok _ _ _ Hn). cbn [obind]. rewrite Hpar.
  assert (Hid : <[new := set_range rn (r_start rn) (r_end rn)]> h = h) by (apply insert_id; rewrite Hn; by destruct rn). pose proof (expand_spec h K D x new rx rn Ht Hx Hfr Hne (rounds h) (r_start rn) (r_end rn)) as Hexp. rewrite Hid in Hexp. apply Hexp; [|done].
  unfold outside, rounds. pose proof (map_subseteq_size _ _ (map_filter_subseteq (fun kv => ~ (r_start rn <= r_start kv.2 /\ r_end kv.2 <= r_end rn)) h)). lia.
Qed.
