(* ===== verification/ResourceSubtree.v ===== *)
(** * ResourceSubtree: what lies below a resource *)

From stdpp Require Import gmap.
From S2P Require Import Prelude Resource ResourceFacts ResourceFind ResourceOps ResourceInsert.

(** ** Subtrees *)

Definition under (K : Z -> list Z) (c z : Z) : Prop := z = c \/ below K c z.

Lemma below_parent K c z : below K c z -> exists q, z ∈ K q /\ under K c q.
Proof. induction 1 as [x y Hy|x y z Hy Hb (q&Hq&Hu)]; [exists x; split; [done|by left]|]. exists q. split; [done|]. right. destruct Hu as [->|Hu]; [by constructor|by eapply below_step]. Qed.

Lemma below_under K c z : below K c z <-> exists y, y ∈ K c /\ under K y z.
Proof.
  split; [|intros (y&Hy&[->|Hu]); [by constructor|by eapply below_step]].
  intros Hb. destruct Hb as [c z Hz|c y z Hy Hb]; [exists z; split; [done|by left]|exists y; split; [done|by right]].
Qed.

Lemma under_depth h K D c z : tree h K D -> under K c z -> (D c <= D z)%nat.
Proof. intros Ht [->|Hb]; [lia|]. induction Hb as [x y Hy|x y z Hy Hb IH]; pose proof (t_depth _ _ _ Ht x y Hy); lia. Qed.

Lemma below_depth h K D c z : tree h K D -> below K c z -> (D c < D z)%nat.
Proof. intros Ht (q&Hq&Hu)%below_parent. pose proof (under_depth _ _ _ _ _ Ht Hu). pose proof (t_depth _ _ _ Ht q z Hq). lia. Qed.

(** The subtrees of two children have nothing in common. *)
Lemma under_unique h K D y c c' : tree h K D -> c ∈ K y -> c' ∈ K y -> forall d z, (D z < d)%nat -> under K c z -> under K c' z -> c = c'.
Proof.
  intros Ht Hc Hc'. assert (Hno : forall a b, a ∈ K y -> b ∈ K y -> ~ below K a b).
  { intros a b Ha Hb (q&Hq&Hu)%below_parent. assert (q = y) by (by eapply (child_unique _ _ _ Ht)). subst q. pose proof (under_depth _ _ _ _ _ Ht Hu). pose proof (t_depth _ _ _ Ht y a Ha). lia. }
  induction d as [|d IH]; intros z Hd [->|Hu] Hu'; [lia|lia| |]; [destruct Hu' as [|Hu']; [done|by apply Hno in Hu']|]. destruct Hu' as [->|Hu']; [by apply Hno in Hu|].
  apply below_parent in Hu as (q&Hq&Hu). apply below_parent in Hu' as (q'&Hq'&Hu'). assert (q' = q) by (by eapply (child_unique _ _ _ Ht)). subst q'. apply (IH q); [|done|done]. pose proof (t_depth _ _ _ Ht q z Hq). lia.
Qed.

Lemma below_live h K D c z : tree h K D -> below K c z -> is_Some (h !! z).
Proof. intros Ht (q&Hq&_)%below_parent. destruct (child_lookup _ _ _ Ht q z Hq) as (r&Hr&_). eauto. Qed.

Lemma below_snoc K a b c : below K a b -> c ∈ K b -> below K a c.
Proof. induction 1 as [x w Hw|x w v Hw Hb IH]; intros Hc; (eapply below_step; [done|]); [by constructor|by apply IH]. Qed.

Lemma below_dec h K D y : tree h K D -> forall d z, (D z < d)%nat -> below K y z \/ ~ below K y z.
Proof.
  intros Ht. induction d as [|d IH]; intros z Hd; [lia|]. destruct (h !! z) as [r|] eqn:Er; [|right; intros Hb; destruct (below_live _ _ _ _ _ Ht Hb); congruence]. destruct (r_parent r) as [q|] eqn:Ep.
  - assert (Hq : z ∈ K q) by (apply (t_parent _ _ _ Ht); eauto). pose proof (t_depth _ _ _ Ht q z Hq). destruct (decide (q = y)) as [->|Hqy]; [left; by constructor|]. destruct (IH q) as [Hb|Hb]; [lia|left; by eapply below_snoc|].
    right. intros (q'&Hq'&Hu)%below_parent. assert (q' = q) by (by eapply (child_unique _ _ _ Ht)). subst q'. destruct Hu as [->|Hu]; done.
  - right. intros (q&Hq&_)%below_parent. by eapply (orphan _ _ _ Ht).
Qed.

(** ** Ranges below a resource are nested or disjoint *)

Lemma below_range h K D c z rc rz : tree h K D -> below K c z -> h !! c = Some rc -> h !! z = Some rz -> r_start rc <= r_start rz /\ r_start rz <= r_end rz /\ r_end rz <= r_end rc.
Proof.
  intros Ht Hb. revert rc. induction Hb as [x y Hy|x y z Hy Hb IH]; intros rc Hc Hz; [by apply (t_nested _ _ _ Ht x y)|].
  destruct (child_lookup _ _ _ Ht x y Hy) as (ry&Hry&_). pose proof (t_nested _ _ _ Ht x y rc ry Hy Hc Hry). pose proof (IH ry Hry Hz). lia.
Qed.

Lemma siblings_apart h K D x y z ry rz : tree h K D -> y ∈ K x -> z ∈ K x -> y <> z -> h !! y = Some ry -> h !! z = Some rz -> r_end ry < r_start rz \/ r_end rz < r_start ry.
Proof.
  intros Ht (i&Hi)%list_elem_of_lookup (j&Hj)%list_elem_of_lookup Hne Hy Hz. destruct (decide (i < j)%nat); [left; by eapply (t_order _ _ _ Ht x i j)|]. destruct (decide (j < i)%nat); [right; by eapply (t_order _ _ _ Ht x j i)|]. assert (i = j) by lia. congruence.
Qed.

Lemma under_range h K D c z rc rz : tree h K D -> under K c z -> h !! c = Some rc -> h !! z = Some rz -> r_start rc <= r_start rz /\ r_end rz <= r_end rc.
Proof. intros Ht [->|Hb] Hc Hz; [assert (rz = rc) by congruence; subst; lia|]. pose proof (below_range _ _ _ _ _ _ _ Ht Hb Hc Hz). lia. Qed.

Lemma laminar h K D x u v ru rv : tree h K D -> below K x u -> below K x v -> h !! u = Some ru -> h !! v = Some rv -> ~ straddles ru (r_start rv) (r_end rv).
Proof.
  intros Ht Hu. revert v rv. unfold straddles. induction Hu as [x u Hu|x y u Hy Hu IH]; intros v rv (c&Hc&Hv)%below_under Hru Hrv; destruct (child_lookup _ _ _ Ht x c Hc) as (rc&Hrc&_); pose proof (under_range _ _ _ _ _ _ _ Ht Hv Hrc Hrv) as Hvr.
  - destruct (decide (u = c)) as [->|Hne]; [assert (rc = ru) by congruence; subst; lia|]. pose proof (siblings_apart _ _ _ _ _ _ _ _ Ht Hu Hc Hne Hru Hrc). lia.
  - destruct (child_lookup _ _ _ Ht x y Hy) as (ry&Hry&_). pose proof (below_range _ _ _ _ _ _ _ Ht Hu Hry Hru). destruct (decide (y = c)) as [->|Hne].
    + destruct Hv as [->|Hv]; [assert (ry = rv) by congruence; subst; lia|]. by apply (IH v rv).
    + pose proof (siblings_apart _ _ _ _ _ _ _ _ Ht Hy Hc Hne Hry Hrc). lia.
Qed.

(** *** After an insertion *)

Section Inserted.

Context (h : heap) (K : Z -> list Z) (D : Z -> nat) (p new : Z) (rn : resource) (a m b : list Z).
Hypotheses (Ht : tree h K D) (Hfr : fresh h new rn) (Hne : new <> p) (HK : K p = a ++ m ++ b).

Lemma lift_edge w y z : y ∈ K w -> (z = y \/ below (lift K p new a m b) y z) -> below (lift K p new a m b) w z.
Proof.
  intros Hy Hz. pose proof Hfr as (Hn&Hpar&_). assert (Hwn : w <> new) by (intros ->; rewrite (fresh_no_children _ _ _ _ _ Ht Hfr) in Hy; by apply not_elem_of_nil in Hy). pose proof (lift_mem h K D p new a m b Ht Hne HK) as Hmem.
  destruct (decide (y ∈ m)) as [Hm|Hm].
  - assert (w = p) by (eapply (child_unique _ _ _ Ht); [done|rewrite HK, !elem_of_app; tauto]). subst w. eapply below_step; [apply Hmem; left; done|]. destruct Hz as [->|Hz]; [constructor; apply Hmem; right; left; done|eapply below_step; [apply Hmem; right; left; done|done]].
  - assert (Hy' : y ∈ lift K p new a m b w) by (apply Hmem; tauto). destruct Hz as [->|Hz]; [by constructor|by eapply below_step].
Qed.

Lemma lift_below x z : below K x z -> below (lift K p new a m b) x z.
Proof. induction 1 as [x y Hy|x y z Hy Hb IH]; (eapply lift_edge; [done|]); [by left|by right]. Qed.

Lemma lift_below_new x : under K x p -> below (lift K p new a m b) x new.
Proof.
  assert (Hnew : new ∈ lift K p new a m b p) by (apply (lift_mem h K D p new a m b Ht Hne HK); by left).
  intros [<-|Hb]; [by constructor|]. eapply below_snoc; [by apply lift_below|done].
Qed.

End Inserted.

Lemma encloses_under h K s e x p : encloses h K s e x p -> under K x p.
Proof. induction 1 as [x|x y p ry Hy Hry Hw Henc IH]; [by left|]. right. destruct IH as [->|IH]; [by constructor|by eapply below_step]. Qed.

(** Where a resource is inserted, nothing straddled it. *)
Lemma inserted_no_straddle h K D new rn x h' c rc : tree h K D -> fresh h new rn -> inserted h K D new rn x h' -> below K x c -> h !! c = Some rc -> ~ straddles rc (r_start rn) (r_end rn).
Proof.
  intros Ht Hfr (p&a&m&b&Henc&Hne&HK&Hl&Ht'&_) Hb Hc. pose proof Hfr as (Hn&Hpar&_).
  assert (Hc' : exists rc', h' !! c = Some rc') by (eapply lifted_ahead; eauto). destruct Hc' as [rc' Hc']. destruct (lifted_ahead h p new a m b h' Hl new rn Hn) as [rn' Hn'].
  destruct (lifted_inv _ _ _ _ _ _ _ _ _ Hl Hc') as (r1&Hr1&E1&E2&_). destruct (lifted_inv _ _ _ _ _ _ _ _ _ Hl Hn') as (r2&Hr2&E3&E4&_). assert (r1 = rc) by congruence. assert (r2 = rn) by congruence. subst.
  pose proof (laminar h' _ _ x c new rc' rn' Ht' (lift_below h K D p new rn a m b Ht Hfr Hne HK x c Hb) (lift_below_new h K D p new rn a m b Ht Hfr Hne HK x (encloses_under _ _ _ _ _ _ Henc)) Hc' Hn') as Hno. unfold straddles in *. rewrite E1, E2, E3, E4 in Hno. done.
Qed.
