(* ===== verification/ResourceRegion.v ===== *)
(** * ResourceRegion: busy regions, and their release *)

From stdpp Require Import gmap.
From S2P Require Import Prelude Resource ResourceFacts ResourceFind ResourceOps ResourceInsert.

Definition busy (r : resource) : bool := negb (Z.land (r_flags r) IORESOURCE_BUSY =? 0).
Definition muxed (r : resource) (flags : Z) : bool := negb (Z.land (Z.land (r_flags r) flags) IORESOURCE_MUXED =? 0).

(** ** Requesting a region *)

(** [p] is reached from [x] through resources that are in the way and not busy. *)
Inductive opens (h : heap) (K : Z -> list Z) (start end_ p : Z) : Z -> Prop :=
| opens_here : opens h K start end_ p p
| opens_step x y ry : first_overlap h K x start end_ y -> h !! y = Some ry -> busy ry = false -> opens h K start end_ p y -> opens h K start end_ p x.

(** Why a request is not granted below [p]: the range is not inside [p], or
    overlaps a busy child of it. *)
Definition blocked (h : heap) (K : Z -> list Z) (start end_ p c : Z) : Prop :=
  exists rp rc, h !! p = Some rp /\ h !! c = Some rc /\ ((c = p /\ ~ within rp start end_) \/ (within rp start end_ /\ first_overlap h K p start end_ c /\ busy rc = true)).

(** The result of the loop: the heap [h] has the new descriptor. *)
Definition region_requested (slab : Z -> bool) (s : store) (K : Z -> list Z) (new : Z) (rn : resource) (x flags : Z) (res : outcome (region_result * store)) : Prop :=
  exists p, opens (objs s) K (r_start rn) (r_end rn) p x /\ new <> p /\
    ((exists rp i h', objs s !! p = Some rp /\ within rp (r_start rn) (r_end rn) /\ (i <= length (K p))%nat /\ fits (objs s) K p i (r_start rn) (r_end rn) /\ linked (objs s) K p i new h' /\ res = Ok (Got (Some new), with_objs s h')) \/
     (exists c rc, blocked (objs s) K (r_start rn) (r_end rn) p c /\ objs s !! c = Some rc /\
        res = if muxed rc flags then Ok (Waits (Some new) (Some p), s) else let* s := free_resource slab s (Some new) in Ok (Refused, s))).

Lemma with_objs_id s : with_objs s (objs s) = s.
Proof. by destruct s. Qed.

Lemma request_region_loop_spec slab s K D new rn flags : tree (objs s) K D -> fresh (objs s) new rn -> forall fuel x rx, (deeper (objs s) D x < fuel)%nat -> objs s !! x = Some rx -> new <> x ->
  region_requested slab s K new rn x flags (request_region_loop fuel slab s (Some x) (Some new) flags).
Proof.
  intros Ht Hfr. pose proof Hfr as (Hn&Hpar&_). induction fuel as [|fuel IH]; intros x rx Hf Hx Hne; [lia|]. cbn [request_region_loop].
  destruct (request_spec (objs s) K D x new rx rn Ht Hx Hfr Hne) as [(Hout&->)|[(Hw&c&Hov&->)|(Hw&i&h'&Hi&Hfit&Hl&->)]]; cbn [obind].
  - rewrite with_objs_id, (get_Ok _ _ _ Hx). cbn [obind]. rewrite bool_decide_eq_false_2 by (intros H; by apply H). cbn [andb]. exists x. split; [constructor|]. split; [done|]. right. exists x, rx. split; [exists rx, rx; split; [done|]; split; [done|]; by left|]. split; [done|].
    fold (muxed rx flags). by destruct (muxed rx flags).
  - pose proof Hov as (i&rc&Hc&Hrc&_). apply list_elem_of_lookup_2 in Hc as Hcin. assert (Hcx : c <> x) by (intros ->; by eapply not_own_child in Hcin). assert (Hcn : new <> c) by (intros <-; by apply (orphan _ _ _ Ht x new rn Hn Hpar) in Hcin).
    rewrite with_objs_id, (get_Ok _ _ _ Hrc). cbn [obind]. rewrite bool_decide_eq_true_2 by congruence. cbn [andb]. destruct (Z.land (r_flags rc) IORESOURCE_BUSY =? 0) eqn:Eb.
    + pose proof (deeper_lt _ _ _ _ _ Ht Hcin). destruct (IH c rc) as (p&Hop&Hrest); [lia|done|done|]. exists p. split; [|done]. eapply opens_step; [done|done| |done]. unfold busy. by rewrite Eb.
    + exists x. split; [constructor|]. split; [done|]. right. exists c, rc. split; [exists rx, rc; split; [done|]; split; [done|]; right; split; [done|]; split; [done|]; unfold busy; by rewrite Eb|]. split; [done|].
      fold (muxed rc flags). by destruct (muxed rc flags).
  - exists x. split; [constructor|]. split; [done|]. left. by exists rx, i, h'.
Qed.

(** The descriptor of a new region. *)
Definition region (p : resource) (start n : Z) (name : list Z) (flags : Z) : resource := Res start (u64 (start + n - 1)) name (Z.lor (resource_type p) (Z.lor IORESOURCE_BUSY flags)) None None None.

(** A new object that is not in a tree. *)
Lemma tree_new h K D new r : tree h K D -> h !! new = None -> r_parent r = None -> r_sibling r = None -> r_child r = None -> 0 <= r_start r < 2 ^ 64 -> 0 <= r_end r < 2 ^ 64 -> K new = [] -> tree (<[new := r]> h) K D.
Proof.
  intros Ht Hn Hp Hs Hc Hr1 Hr2 HKn. pose proof Ht as [Tc Ts Tp Tl Tn To Td Tr].
  assert (Hin : forall x y, y ∈ K x -> y <> new) by (intros x y Hy ->; apply Tp in Hy as (r'&?&_); congruence).
  assert (Hpar : forall x y, y ∈ K x -> x <> new) by (intros x y Hy ->; rewrite HKn in Hy; by apply not_elem_of_nil in Hy).
  assert (Hat : forall x i y, K x !! i = Some y -> <[new := r]> h !! y = h !! y) by (intros x i y Hi; apply list_elem_of_lookup_2 in Hi; rewrite lookup_insert_ne by (apply not_eq_sym; by eapply Hin); done).
  split.
  - intros x rx. destruct (decide (x = new)) as [->|]; [rewrite lookup_insert_eq; intros [= <-]; by rewrite Hc, HKn|]. rewrite lookup_insert_ne by done. apply Tc.
  - intros x i y ry Hi. rewrite (Hat x i y Hi). by apply Ts.
  - intros x y. destruct (decide (y = new)) as [->|].
    + split; [intros Hy; by apply Hin in Hy|]. rewrite lookup_insert_eq. intros (r'&[= <-]&?). congruence.
    + rewrite lookup_insert_ne by done. apply Tp.
  - intros x y Hy. rewrite lookup_insert_ne by (apply not_eq_sym; by apply (Hpar x y)). by eapply Tl.
  - intros x y rx ry Hy. rewrite !lookup_insert_ne by (apply not_eq_sym; first [by apply (Hpar x y)|by apply (Hin x y)]). by apply Tn.
  - intros x i j y z ry rz Hi Hj Hij. rewrite (Hat x i y Hi), (Hat x j z Hj). by apply (To x i j).
  - done.
  - intros x rx. destruct (decide (x = new)) as [->|]; [rewrite lookup_insert_eq; by intros [= <-]|]. rewrite lookup_insert_ne by done. apply Tr.
Qed.

Lemma tree_dead h K D x : tree h K D -> h !! x = None -> K x = [].
Proof. intros Ht Hx. destruct (K x) as [|y l] eqn:E; [done|]. destruct (t_live _ _ _ Ht x y) as [r Hr]; [rewrite E; by left|]. congruence. Qed.

(** A request whose descriptor the allocator can give. *)
Lemma request_region_spec slab h l K D new x rx start n name flags : tree h K D -> h !! x = Some rx -> h !! new = None -> slab new = true -> 0 <= start < 2 ^ 64 ->
  let s1 := Store (<[new := region rx start n name flags]> h) None l in
  let res := __request_region slab (Store h None (Some new :: l)) (Some x) start n name flags in
  exists p, opens (objs s1) K start (u64 (start + n - 1)) p x /\ new <> p /\
    ((exists rp i h', h !! p = Some rp /\ within rp start (u64 (start + n - 1)) /\ (i <= length (K p))%nat /\ fits (objs s1) K p i start (u64 (start + n - 1)) /\ linked (objs s1) K p i new h' /\ res = Ok (Got (Some new), Store h' None l)) \/
     (exists c rc, blocked (objs s1) K start (u64 (start + n - 1)) p c /\ h !! c = Some rc /\ res = if muxed rc flags then Ok (Waits (Some new) (Some p), s1) else Ok (Refused, Store h None l))).
Proof.
  intros Ht Hx Hnew Hslab Hstart s1 res. assert (Hnx : new <> x) by congruence. pose proof (u64_range (start + n - 1)) as Hr. unfold ULLONG_MAX in Hr.
  assert (Hfr : fresh (objs s1) new (region rx start n name flags)) by (unfold fresh, s1; simpl; by rewrite lookup_insert_eq).
  assert (Ht1 : tree (objs s1) K D) by (apply tree_new; [done|done|done|done|done|done|cbn [region r_end]; lia|by eapply tree_dead]).
  assert (Hres : res = request_region_loop (rounds (objs s1)) slab s1 (Some x) (Some new) flags).
  { unfold res, __request_region. cbn [alloc_resource bootmem_resource_free kzalloc objs obind]. rewrite (get_Ok _ x rx) by (by rewrite lookup_insert_ne). cbn [obind]. rewrite (put_Ok _ new zeroed) by (by rewrite lookup_insert_eq). cbn [obind]. rewrite insert_insert_eq. done. }
  destruct (request_region_loop_spec slab s1 K D new _ flags Ht1 Hfr (rounds (objs s1)) x rx) as (p&Hop&Hnp&Hcases); [pose proof (deeper_bound (objs s1) D x); unfold rounds; lia|unfold s1; simpl; by rewrite lookup_insert_ne|done|].
  assert (Hold : forall z, z <> new -> objs s1 !! z = h !! z) by (intros z Hz; unfold s1; simpl; by rewrite lookup_insert_ne). exists p. split; [done|]. split; [done|]. rewrite Hres. destruct Hcases as [(rp&i&h'&Hp&Hw&Hi&Hfit&Hl&->)|(c&rc&Hbl&Hc&->)].
  - left. exists rp, i, h'. rewrite <- Hold by done. done.
  - right. assert (Hcn : c <> new). { intros ->. destruct Hbl as (rp&rc'&_&_&[(->&_)|(_&Hov&_)]); [done|]. destruct Hov as (i&_&Hi&_). apply list_elem_of_lookup_2 in Hi. destruct Hfr as (Hn&Hpn&_). by apply (orphan _ _ _ Ht1 p new _ Hn Hpn) in Hi. }
    exists c, rc. split; [done|]. split; [by rewrite <- Hold|]. destruct (muxed rc flags); [done|]. unfold free_resource. rewrite Hslab. cbn [negb]. destruct Hfr as (Hn&_). rewrite (get_Ok _ _ _ Hn). cbn [obind]. unfold s1. simpl. by rewrite delete_insert_id.
Qed.

(** ** Releasing a region *)

(** The resources that come after [z] in the order of start and depth bound the
    number of steps of the search from [z]. *)
Definition later (h : heap) (D : Z -> nat) (z : Z) (rz : resource) : nat :=
  size (filter (fun kv => r_start rz < r_start kv.2 \/ (r_start rz = r_start kv.2 /\ (D z <= D kv.1)%nat)) h).

Lemma later_lt h D z rz w rw : h !! z = Some rz -> r_start rz < r_start rw \/ (r_start rz = r_start rw /\ (D z < D w)%nat) -> (later h D w rw < later h D z rz)%nat.
Proof.
  intros Hz Hlt. unfold later. apply map_subset_size. split.
  - apply map_subseteq_spec. intros v rv. rewrite !map_lookup_filter_Some. simpl. intros (H1&H2). split; [done|lia].
  - intros Hsub. apply (map_subseteq_spec _ _) with (i := z) (x := rz) in Hsub; [|apply map_lookup_filter_Some; split; [done|simpl; lia]]. apply map_lookup_filter_Some in Hsub as (_&H2). simpl in H2. lia.
Qed.

Lemma later_bound h D z rz : (later h D z rz <= size h)%nat.
Proof. unfold later. apply map_subseteq_size, map_filter_subseteq. Qed.

Lemma later_pos h D z rz : h !! z = Some rz -> (0 < later h D z rz)%nat.
Proof.
  intros Hz. apply Nat.neq_0_lt_0. intros H. unfold later in H. apply map_size_empty_inv in H. apply (f_equal (lookup z)) in H. rewrite lookup_empty in H. apply map_lookup_filter_None_1 in H as [H|H]; [congruence|]. apply (H rz Hz). simpl. lia.
Qed.

(** A step to the next sibling, and one to the first child. *)
Lemma later_right h K D w k z z' rz rz' : tree h K D -> K w !! k = Some z -> K w !! S k = Some z' -> h !! z = Some rz -> h !! z' = Some rz' -> (later h D z' rz' < later h D z rz)%nat.
Proof.
  intros Ht Hk Hk' Hz Hz'. apply later_lt; [done|left]. destruct (t_live _ _ _ Ht w z) as [rw Hw]; [by eapply list_elem_of_lookup_2|].
  pose proof (t_order _ _ _ Ht w k (S k) z z' rz rz' Hk Hk' ltac:(lia) Hz Hz'). pose proof (t_nested _ _ _ Ht w z rw rz ltac:(by eapply list_elem_of_lookup_2) Hw Hz). lia.
Qed.

Lemma later_down h K D z c rz rc : tree h K D -> c ∈ K z -> h !! z = Some rz -> h !! c = Some rc -> (later h D c rc < later h D z rz)%nat.
Proof. intros Ht Hc Hz Hrc. apply later_lt; [done|]. pose proof (t_nested _ _ _ Ht z c rz rc Hc Hz Hrc). pose proof (t_depth _ _ _ Ht z c Hc). lia. Qed.

(** The loop ends; it finds a busy child with exactly the range, or nothing. *)
Definition found_region (h : heap) (K : Z -> list Z) (s e : Z) (res : option (slot * option Z)) : Prop :=
  match res with
  | Some (q, y) => exists p i z rz, q = slot_at K p i /\ y = Some z /\ K p !! i = Some z /\ h !! z = Some rz /\ r_start rz = s /\ r_end rz = e /\ busy rz = true
  | None => True
  end.

Lemma release_region_loop_total h K D s e : tree h K D -> forall fuel w k, is_Some (h !! w) -> (k <= length (K w))%nat -> (forall z rz, K w !! k = Some z -> h !! z = Some rz -> (later h D z rz < fuel)%nat) -> (0 < fuel)%nat ->
  exists res, release_region_loop fuel h (slot_at K w k) s e = Ok res /\ found_region h K s e res.
Proof.
  intros Ht. induction fuel as [|fuel IH]; intros w k Hw Hk Hf H0; [lia|]. cbn [release_region_loop]. rewrite (load_slot _ _ _ Ht) by done. cbn [obind]. destruct (K w !! k) as [z|] eqn:Ez; [|by exists None].
  destruct (child_at _ _ _ Ht _ _ _ Ez) as (rz&Hrz&_). rewrite (get_Ok _ _ _ Hrz). cbn [obind]. specialize (Hf z rz eq_refl Hrz). apply lookup_lt_Some in Ez as Hlt. destruct ((r_start rz <=? s) && (e <=? r_end rz)) eqn:Ec.
  - destruct (Z.land (r_flags rz) IORESOURCE_BUSY =? 0) eqn:Eb.
    + apply (IH z 0%nat); [eauto|lia| |].
      * intros c rc Hc Hrc. apply list_elem_of_lookup_2 in Hc. pose proof (later_down _ _ _ _ _ _ _ Ht Hc Hrz Hrc). lia.
      * pose proof (later_pos h D z rz Hrz). lia.
    + destruct (negb (r_start rz =? s) || negb (r_end rz =? e)) eqn:Ex; [by exists None|]. eexists. split; [done|]. exists w, k, z, rz. split; [done|]. split; [done|]. split; [done|]. split; [done|]. split; [lia|]. split; [lia|]. unfold busy. by rewrite Eb.
  - specialize (IH w (S k)). cbn [slot_at] in IH. rewrite Ez in IH. apply IH; [done|lia| |].
    + intros c rc Hc Hrc. pose proof (later_right _ _ _ _ _ _ _ _ _ Ht Ez Hc Hrz Hrc). lia.
    + pose proof (later_pos h D z rz Hrz). lia.
Qed.

(** The search from the slot number [k] of [w] passes over siblings that do not
    contain the range and into resources that do and are not busy, up to the child
    number [i] of [p]. *)
Inductive on_path (h : heap) (K : Z -> list Z) (s e p : Z) (i : nat) : Z -> nat -> Prop :=
| path_here : on_path h K s e p i p i
| path_right w k z rz : K w !! k = Some z -> h !! z = Some rz -> ~ (r_start rz <= s /\ e <= r_end rz) -> on_path h K s e p i w (S k) -> on_path h K s e p i w k
| path_down w k z rz : K w !! k = Some z -> h !! z = Some rz -> r_start rz <= s -> e <= r_end rz -> busy rz = false -> on_path h K s e p i z 0 -> on_path h K s e p i w k.

Lemma on_path_some h K s e p i y w k : K p !! i = Some y -> on_path h K s e p i w k -> exists z, K w !! k = Some z.
Proof. intros Hy Hp. destruct Hp; eauto. Qed.

Lemma release_region_loop_path h K D s e p i y ry : tree h K D -> K p !! i = Some y -> h !! y = Some ry -> r_start ry = s -> r_end ry = e -> busy ry = true ->
  forall w k, on_path h K s e p i w k -> forall fuel z rz, K w !! k = Some z -> h !! z = Some rz -> (later h D z rz < fuel)%nat -> release_region_loop fuel h (slot_at K w k) s e = Ok (Some (slot_at K p i, Some y)).
Proof.
  intros Ht Hy Hry Hs He Hb w k Hp. induction Hp as [|w k z rz Hz Hrz Hnc Hp IH|w k z rz Hz Hrz Hc1 Hc2 Hnb Hp IH]; intros fuel z' rz' Hz' Hrz' Hf; (destruct fuel as [|fuel]; [lia|]); cbn [release_region_loop];
    apply list_elem_of_lookup_2 in Hz' as Hin; pose proof (t_live _ _ _ Ht _ _ Hin) as Hw; apply lookup_lt_Some in Hz' as Hlt; rewrite (load_slot _ _ _ Ht) by (done || lia); cbn [obind].
  - assert (z' = y) by congruence. subst z'. assert (rz' = ry) by congruence. subst rz'. rewrite Hy, (get_Ok _ _ _ Hry). cbn [obind]. replace ((r_start ry <=? s) && (e <=? r_end ry)) with true by lia. unfold busy in Hb. destruct (Z.land (r_flags ry) IORESOURCE_BUSY =? 0); [done|].
    by replace (negb (r_start ry =? s) || negb (r_end ry =? e)) with false by lia.
  - assert (z' = z) by congruence. subst z'. assert (rz' = rz) by congruence. subst rz'. rewrite Hz, (get_Ok _ _ _ Hrz). cbn [obind]. replace ((r_start rz <=? s) && (e <=? r_end rz)) with false by lia.
    destruct (on_path_some _ _ _ _ _ _ _ _ _ Hy Hp) as (v&Hv). destruct (child_at _ _ _ Ht _ _ _ Hv) as (rv&Hrv&_). pose proof (later_right _ _ _ _ _ _ _ _ _ Ht Hz Hv Hrz Hrv). specialize (IH fuel v rv Hv Hrv ltac:(lia)). cbn [slot_at] in IH. by rewrite Hz in IH.
  - assert (z' = z) by congruence. subst z'. assert (rz' = rz) by congruence. subst rz'. rewrite Hz, (get_Ok _ _ _ Hrz). cbn [obind]. replace ((r_start rz <=? s) && (e <=? r_end rz)) with true by lia. unfold busy in Hnb. destruct (Z.land (r_flags rz) IORESOURCE_BUSY =? 0); [|done].
    destruct (on_path_some _ _ _ _ _ _ _ _ _ Hy Hp) as (v&Hv). destruct (child_at _ _ _ Ht _ _ _ Hv) as (rv&Hrv&_). pose proof (later_down _ _ _ _ v _ _ Ht ltac:(by eapply list_elem_of_lookup_2) Hrz Hrv). exact (IH fuel v rv Hv Hrv ltac:(lia)).
Qed.

(** All siblings before one that contains the range are passed over. *)
Lemma on_path_left h K D s e p i w j t rt : tree h K D -> s <= e -> K w !! j = Some t -> h !! t = Some rt -> r_start rt <= s -> e <= r_end rt -> on_path h K s e p i w j -> forall d k, (k + d = j)%nat -> on_path h K s e p i w k.
Proof.
  intros Ht Hse Ht' Hrt H1 H2 Hp. apply lookup_lt_Some in Ht' as Hlt. induction d as [|d IH]; intros k Hk; [by replace k with j by lia|]. destruct (lookup_lt_is_Some_2 (K w) k ltac:(lia)) as [z Hz]. destruct (child_at _ _ _ Ht _ _ _ Hz) as (rz&Hrz&_).
  eapply path_right; [done|done| |apply IH; lia]. pose proof (t_order _ _ _ Ht w k j z t rz rt Hz Ht' ltac:(lia) Hrz Hrt). lia.
Qed.

(** ** The store after a release *)

Lemma tree_delete h K D z r : tree h K D -> h !! z = Some r -> r_parent r = None -> K z = [] -> tree (delete z h) K D.
Proof.
  intros Ht Hz Hp HKz. pose proof Ht as [Tc Ts Tp Tl Tn To Td Tr].
  assert (Hsome : forall w rw, delete z h !! w = Some rw -> h !! w = Some rw) by (intros w rw Hw; apply lookup_delete_Some in Hw; tauto).
  split; [eauto|eauto| | |eauto|eauto 10|done|eauto].
  - intros x y. rewrite Tp. split; intros (ry&Hy&Hpy); exists ry; (split; [|done]); [|by apply Hsome]. apply lookup_delete_Some. split; [|done]. intros <-. congruence.
  - intros x y Hy. destruct (Tl x y Hy) as [rx Hx]. exists rx. apply lookup_delete_Some. split; [|done]. intros <-. rewrite HKz in Hy. by apply not_elem_of_nil in Hy.
Qed.

(** A resource of a slab is given back with its pointer in the slot overwritten. *)
Lemma free_unlinked slab h l K D p i z rz : tree h K D -> K p !! i = Some z -> h !! z = Some rz -> slab z = true -> exists h1,
  (let* h := store_slot h (slot_at K p i) (r_sibling rz) in let* s := free_resource slab (with_objs (Store h None l) h) (Some z) in Ok (true, s)) = Ok (true, Store (delete z h1) None l) /\ unlinked h K p i z h1.
Proof.
  intros Ht Hi Hz Hslab. destruct (slot_not_child h K D p i z Ht Hi) as (v&Hv&Hvz&Hvl). destruct (Hvl ltac:(eapply (t_live _ _ _ Ht); by eapply list_elem_of_lookup_2)) as [rv Hrv].
  destruct (store_slot_spec h (slot_at K p i) (r_sibling rz) v rv Hv Hrv) as (h2&->&Hh2). cbn [obind].
  assert (Hz2 : h2 !! z = Some rz). { rewrite Hh2, Hz. simpl. f_equal. destruct (slot_at K p i); simpl in *; by rewrite decide_False by congruence. }
  unfold free_resource. rewrite Hslab. cbn [negb with_objs objs bootmem_resource_free kzalloc]. rewrite (get_Ok _ _ _ Hz2). cbn [obind]. exists (<[z := set_parent rz None]> h2). rewrite delete_insert_eq. split; [done|].
  intros y. destruct (decide (y = z)) as [->|Hy]; [by rewrite lookup_insert_eq, Hz|]. rewrite lookup_insert_ne by done. rewrite Hh2, (t_sibling _ _ _ Ht p i z rz Hi Hz). done.
Qed.

Lemma release_region_spec slab h l K D x start n : tree h K D -> is_Some (h !! x) -> (forall z rz, h !! z = Some rz -> busy rz = true -> slab z = true /\ K z = []) ->
  __release_region slab (Store h None l) (Some x) start n = Ok (false, Store h None l) \/
  exists p i z rz h1, K p !! i = Some z /\ h !! z = Some rz /\ r_start rz = start /\ r_end rz = u64 (start + n - 1) /\ busy rz = true /\ unlinked h K p i z h1 /\
    __release_region slab (Store h None l) (Some x) start n = Ok (true, Store (delete z h1) None l) /\ tree (delete z h1) (upd K p (delete i (K p))) D.
Proof.
  intros Ht Hx Hbusy. unfold __release_region. cbn [objs]. set (e := u64 (start + n - 1)). change (Child (Some x)) with (slot_at K x 0).
  destruct (release_region_loop_total h K D start e Ht (rounds h) x 0 Hx) as (res&->&Hfound); [lia|intros z rz _ _; pose proof (later_bound h D z rz); unfold rounds; lia|unfold rounds; lia|]. cbn [obind]. destruct res as [[q y]|]; [|by left]. right.
  destruct Hfound as (p&i&z&rz&->&->&Hi&Hz&Hs&He&Hb). destruct (Hbusy z rz Hz Hb) as (Hslab&HKz). rewrite (get_Ok _ _ _ Hz). cbn [obind]. destruct (free_unlinked slab h l K D p i z rz Ht Hi Hz Hslab) as (h1&Hrun&Hl). exists p, i, z, rz, h1.
  split; [done|]. split; [done|]. split; [done|]. split; [done|]. split; [done|]. split; [done|]. split; [exact Hrun|]. pose proof (tree_unlink _ _ _ _ _ _ _ Ht Hi Hl) as Ht1.
  eapply tree_delete; [exact Ht1|rewrite Hl, decide_True, Hz by done; done|done|]. rewrite upd_ne; [done|]. intros ->. rewrite HKz in Hi. done.
Qed.

(** ** A granted region can be released *)

Lemma linked_flags h K x i new h' y r' : linked h K x i new h' -> h' !! y = Some r' -> exists r, h !! y = Some r /\ r_flags r' = r_flags r.
Proof.
  intros Hl Hy. rewrite Hl in Hy. destruct (decide (y = new)) as [->|Hne]; apply fmap_Some in Hy as (r&Hr&->); exists r; (split; [done|]); [done|]. destruct (slot_at K x i); simpl; by case_decide.
Qed.

Section Roundtrip.

Context (h : heap) (K : Z -> list Z) (D : Z -> nat) (p new : Z) (rn : resource) (i : nat) (h' : heap).
Hypotheses (Ht : tree h K D) (Hfr : fresh h new rn) (Hnp : new <> p) (Hp : is_Some (h !! p)) (Hi : (i <= length (K p))%nat) (Hfit : fits h K p i (r_start rn) (r_end rn)) (Hl : linked h K p i new h').

Let K' := upd K p (ins i new (K p)).

Lemma granted_tree : exists D', tree h' K' D'.
Proof. destruct Hfr as (Hn&Hpar&Hch). eexists. by eapply tree_link. Qed.

Lemma granted_at : K' p !! i = Some new.
Proof. unfold K'. rewrite upd_eq, lookup_ins by done. replace (i <? i)%nat with false by lia. by replace (i =? i)%nat with true by lia. Qed.

Lemma granted_keeps y r : h !! y = Some r -> exists r', h' !! y = Some r' /\ r_start r' = r_start r /\ r_end r' = r_end r /\ r_flags r' = r_flags r.
Proof.
  intros Hy. destruct (linked_ahead _ _ _ _ _ _ _ _ Hl Hy) as (r'&Hr'). exists r'. split; [done|]. destruct (linked_inv _ _ _ _ _ _ _ _ Hl Hr') as (r1&?&?&?&_). destruct (linked_flags _ _ _ _ _ _ _ _ Hl Hr') as (r2&?&?). assert (r1 = r) by congruence. assert (r2 = r) by congruence. by subst.
Qed.

(** The way to the new region is open. *)
Lemma granted_path x : (forall rp, h !! p = Some rp -> within rp (r_start rn) (r_end rn)) -> opens h K (r_start rn) (r_end rn) p x -> is_Some (h !! x) ->
  on_path h' K' (r_start rn) (r_end rn) p i x 0 /\ forall rx, h !! x = Some rx -> within rx (r_start rn) (r_end rn).
Proof.
  intros Hin Hop. pose proof granted_at as Hat. destruct granted_tree as [D' Ht']. destruct Hfr as (Hn&Hpar&Hch). destruct Hfit as (_&Hse&_). induction Hop as [|x y ry Hov Hry Hnb Hop IH]; intros [rx Hx].
  - split; [|done]. destruct (granted_keeps new rn Hn) as (rn'&Hrn'&E1&E2&_). apply (on_path_left h' K' D' (r_start rn) (r_end rn) p i p i new rn' Ht' Hse Hat Hrn' ltac:(lia) ltac:(lia) ltac:(apply path_here) i 0%nat). lia.
  - destruct (IH ltac:(eauto)) as (Hpath&Hw). destruct (Hw ry Hry) as (W1&_&W2). destruct Hov as (j&ry'&Hj&Hry'&_). apply list_elem_of_lookup_2 in Hj as Hyin. pose proof (t_nested _ _ _ Ht x y rx ry Hyin Hx Hry) as Hnest.
    split; [|intros rx' Hx'; assert (rx' = rx) by congruence; subst rx'; split; [|split]; lia].
    assert (Hj' : exists j', K' x !! j' = Some y). { apply list_elem_of_lookup. unfold K'. destruct (decide (x = p)) as [->|]; [rewrite upd_eq, elem_of_ins; by right|by rewrite upd_ne]. }
    destruct Hj' as [j' Hj']. destruct (granted_keeps y ry Hry) as (ry2&Hry2&E1&E2&E3).
    apply (on_path_left h' K' D' (r_start rn) (r_end rn) p i x j' y ry2 Ht' Hse Hj' Hry2 ltac:(lia) ltac:(lia)) with (d := j'); [|lia]. eapply path_down; [done|done|lia|lia| |done]. unfold busy in *. by rewrite E3.
Qed.

Lemma slot_undo z r : h !! z = Some r -> z <> new -> adjust_slot (slot_at K' p i) (K' p !! S i) z (adjust_slot (slot_at K p i) (Some new) z r) = r.
Proof.
  intros Hz Hzn. assert (HS : K' p !! S i = K p !! i) by (unfold K'; rewrite upd_eq, lookup_ins by done; replace (S i <? i)%nat with false by lia; replace (S i =? i)%nat with false by lia; f_equal; lia). rewrite HS.
  destruct i as [|j]; cbn [slot_at adjust_slot].
  - case_decide as Hd; [|done]. injection Hd as <-. pose proof (t_child _ _ _ Ht p r Hz) as Hc. destruct r. simpl in *. by rewrite Hc.
  - assert (Hj : K' p !! j = K p !! j) by (unfold K'; rewrite upd_eq, lookup_ins by done; by replace (j <? S j)%nat with true by lia). rewrite Hj. case_decide as Hd; [|done]. pose proof (t_sibling _ _ _ Ht p j z r Hd Hz) as Hs. destruct r. simpl in *. by rewrite Hs.
Qed.

Lemma granted_undo h1 : unlinked h' K' p i new h1 -> delete new h1 = delete new h.
Proof.
  intros Hu. apply map_eq. intros z. destruct (decide (z = new)) as [->|Hz]; [by rewrite !lookup_delete_eq|]. rewrite !lookup_delete_ne by done. rewrite Hu, decide_False by done. rewrite Hl, decide_False by done.
  destruct (h !! z) as [r|] eqn:Er; [|done]. simpl. f_equal. by apply slot_undo.
Qed.

End Roundtrip.

Lemma region_busy p start n name flags : busy (region p start n name flags) = true.
Proof.
  unfold busy, region. cbn [r_flags]. apply negb_true_iff, Z.eqb_neq. intros H. apply (f_equal (fun x => Z.testbit x 31)) in H. rewrite Z.land_spec, !Z.lor_spec, Z.bits_0 in H. change (Z.testbit IORESOURCE_BUSY 31) with true in H. rewrite orb_true_r in H. done.
Qed.

(** Releasing what was granted gives back the store before the request. *)
Lemma region_release_granted slab h l K D new x rx start n name flags res s' : tree h K D -> h !! x = Some rx -> h !! new = None -> slab new = true -> 0 <= start < 2 ^ 64 ->
  __request_region slab (Store h None (Some new :: l)) (Some x) start n name flags = Ok (Got res, s') ->
  res = Some new /\ (exists p i D', tree (objs s') (upd K p (ins i new (K p))) D') /\ __release_region slab s' (Some x) start n = Ok (true, Store h None l).
Proof.
  intros Ht Hx Hnew Hslab Hstart Hrun. set (e := u64 (start + n - 1)). set (rn := region rx start n name flags). set (h1 := <[new := rn]> h).
  destruct (request_region_spec slab h l K D new x rx start n name flags Ht Hx Hnew Hslab Hstart) as (p&Hop&Hnp&[(rp&i&h'&Hp&Hw&Hi&Hfit&Hl&Heq)|(c&rc&_&_&Heq)]); rewrite Hrun in Heq; [|by destruct (muxed rc flags)]. injection Heq as -> ->. cbn [objs] in *. fold e h1 in Hop, Hw, Hfit, Hl.
  assert (Ht1 : tree h1 K D) by (pose proof (u64_range (start + n - 1)) as Hr; unfold ULLONG_MAX in Hr; apply tree_new; [done|done|done|done|done|done|cbn [rn region r_end]; lia|by eapply tree_dead]).
  assert (Hfr : fresh h1 new rn) by (unfold fresh, h1; by rewrite lookup_insert_eq). assert (Hx1 : h1 !! x = Some rx) by (unfold h1; rewrite lookup_insert_ne by congruence; done). assert (Hp1 : h1 !! p = Some rp) by (unfold h1; by rewrite lookup_insert_ne).
  destruct (granted_tree h1 K D p new rn i h' Ht1 Hfr Hnp ltac:(eauto) Hi Hfit Hl) as [D' Ht']. pose proof (granted_at K p new i Hi) as Hat.
  destruct (granted_path h1 K D p new rn i h' Ht1 Hfr Hnp ltac:(eauto) Hi Hfit Hl x) as (Hpath&_); [intros rp' Hp'; by replace rp' with rp by congruence|exact Hop|eauto|].
  split; [done|]. split; [by exists p, i, D'|]. unfold __release_region. cbn [objs]. fold e. set (K' := upd K p (ins i new (K p))) in *. change (Child (Some x)) with (slot_at K' x 0).
  destruct (granted_keeps h1 K p new i h' Hl new rn) as (rn'&Hrn'&E1&E2&E3); [by destruct Hfr|]. destruct (on_path_some _ _ _ _ _ _ _ _ _ Hat Hpath) as (z&Hz). destruct (child_at _ _ _ Ht' _ _ _ Hz) as (rz&Hrz&_).
  rewrite (release_region_loop_path h' K' D' start e p i new rn' Ht' Hat Hrn' E1 E2 ltac:(unfold busy; rewrite E3; apply region_busy) x 0 Hpath (rounds h') z rz Hz Hrz) by (pose proof (later_bound h' D' z rz); unfold rounds; lia). cbn [obind].
  rewrite (get_Ok _ _ _ Hrn'). cbn [obind]. destruct (free_unlinked slab h' l K' D' p i new rn' Ht' Hat Hrn' Hslab) as (h2&Hrel&Hu). 
  replace (Store h None l) with (Store (delete new h2) None l); [exact Hrel|]. f_equal. rewrite (granted_undo h1 K D p new rn i h' Ht1 Hi Hfit Hl h2 Hu). unfold h1. by rewrite delete_insert_id.
Qed.
