(* ===== verification/ResourceRelease.v ===== *)
(** * ResourceRelease: taking a subtree apart *)

From stdpp Require Import gmap.
From S2P Require Import Prelude Resource ResourceFacts ResourceFind ResourceOps ResourceInsert ResourceSubtree.

(** ** Releasing the children *)

(** A resource taken out keeps its size, and nothing else. *)
Definition reset (r : resource) : resource := Res 0 (u64 (resource_size r - 1)) (r_name r) (r_flags r) None None None.

(** [h'] is [h] with everything below [y] taken out. *)
Definition cleared (h0 : heap) (K : Z -> list Z) (y : Z) (h h' : heap) : Prop :=
  (forall z, below K y z -> h' !! z = reset <$> h0 !! z) /\ h' !! y = (fun r => set_child r None) <$> h !! y /\ (forall z, z <> y -> ~ below K y z -> h' !! z = h !! z).

Definition clears (h0 : heap) (K : Z -> list Z) (y : Z) (f : heap -> option Z -> outcome heap) : Prop :=
  forall h ry, size h = size h0 -> (forall z, below K y z -> h !! z = h0 !! z) -> h !! y = Some ry -> r_child ry = K y !! 0%nat -> exists h', f h (Some y) = Ok h' /\ size h' = size h0 /\ cleared h0 K y h h'.

Lemma release_children_loop_spec h0 K D y rec : tree h0 K D -> (forall c, c ∈ K y -> clears h0 K c rec) -> forall fuel k h, (length (K y) - k < fuel)%nat -> size h = size h0 ->
  (forall j c z, (k <= j)%nat -> K y !! j = Some c -> under K c z -> h !! z = h0 !! z) ->
  exists h', release_children_loop fuel rec h (K y !! k) = Ok h' /\ size h' = size h0 /\ (forall j c z, (k <= j)%nat -> K y !! j = Some c -> under K c z -> h' !! z = reset <$> h0 !! z) /\
    (forall z, (forall j c, (k <= j)%nat -> K y !! j = Some c -> ~ under K c z) -> h' !! z = h !! z).
Proof.
  intros Ht Hrec. induction fuel as [|fuel IH]; intros k h Hf Hsz Hsame; [lia|]. cbn [release_children_loop]. destruct (K y !! k) as [c|] eqn:Ec.
  2:{ exists h. split; [done|]. split; [done|]. split; [|done]. intros j c z Hj Hc. apply lookup_ge_None in Ec. apply lookup_lt_Some in Hc. lia. }
  apply list_elem_of_lookup_2 in Ec as Hcin. apply lookup_lt_Some in Ec as Hlt. destruct (child_lookup _ _ _ Ht y c Hcin) as (rc&Hrc&_). assert (Hhc : h !! c = Some rc) by (rewrite (Hsame k c c) by (done || by left); done).
  rewrite (get_Ok _ _ _ Hhc), (put_Ok _ _ _ _ Hhc). cbn [obind]. rewrite (t_sibling _ _ _ Ht y k c rc Ec Hrc). set (h1 := <[c := set_sibling (set_parent rc None) None]> h).
  assert (Hs1 : size h1 = size h0) by (unfold h1; rewrite map_size_insert_Some by eauto; done).
  destruct (Hrec c Hcin h1 (set_sibling (set_parent rc None) None) Hs1) as (h2&->&Hs2&Hb2&Hc2&Ho2).
  { intros z Hz. unfold h1. rewrite lookup_insert_ne by (intros <-; apply (below_depth _ _ _ _ _ Ht) in Hz; lia). apply (Hsame k c); [done|done|by right]. }
  { unfold h1. by rewrite lookup_insert_eq. } { simpl. by apply (t_child _ _ _ Ht). }
  cbn [obind]. unfold h1 in Hc2 at 1. rewrite lookup_insert_eq in Hc2. cbn [fmap option_fmap option_map] in Hc2. rewrite (put_Ok _ _ _ _ Hc2). cbn [obind]. set (h3 := <[c := _]> h2).
  assert (Hself : h3 !! c = reset <$> h0 !! c) by (unfold h3; rewrite lookup_insert_eq, Hrc; done). assert (Hlow : forall z, below K c z -> h3 !! z = reset <$> h0 !! z).
  { intros z Hz. unfold h3. rewrite lookup_insert_ne by (intros <-; apply (below_depth _ _ _ _ _ Ht) in Hz; lia). by apply Hb2. }
  assert (Hout : forall z, ~ under K c z -> h3 !! z = h !! z). { intros z Hz. assert (z <> c /\ ~ below K c z) as (Hz1&Hz2) by (unfold under in Hz; tauto). unfold h3. rewrite lookup_insert_ne by done. rewrite Ho2 by done. unfold h1. by rewrite lookup_insert_ne. }
  assert (Hapart : forall j c' z, (S k <= j)%nat -> K y !! j = Some c' -> under K c' z -> ~ under K c z).
  { intros j c' z Hj Hc' Hu Hu'. apply list_elem_of_lookup_2 in Hc' as Hc'in. assert (c = c') by (eapply (under_unique h0 K D y c c' Ht Hcin Hc'in (S (D z)) z); [lia|done|done]). subst c'. pose proof (proj1 (NoDup_alt _) (children_nodup _ _ _ Ht y) _ _ _ Ec Hc'). lia. }
  destruct (IH (S k) h3) as (h'&->&Hs'&Hin'&Hout'); [lia|unfold h3; rewrite map_size_insert_Some by eauto; done|intros j c' z Hj Hc' Hu; rewrite Hout by (by eapply Hapart); apply (Hsame j c'); [lia|done|done]|].
  exists h'. split; [done|]. split; [done|]. split.
  - intros j c' z Hj Hc' Hu. destruct (decide (j = k)) as [->|]; [|apply (Hin' j c'); [lia|done|done]]. assert (c' = c) by congruence. subst c'. rewrite Hout'; [destruct Hu as [->|Hu]; [done|by apply Hlow]|]. intros j c' Hj' Hc'' Hu'. by eapply (Hapart j c' z).
  - intros z Hz. rewrite Hout' by (intros j c' Hj Hc'; apply (Hz j c'); [lia|done]). apply Hout. by apply (Hz k).
Qed.

Lemma release_children_spec h0 K D : tree h0 K D -> forall depth y, (deeper h0 D y < depth)%nat -> clears h0 K y (release_children depth).
Proof.
  intros Ht. induction depth as [|depth IH]; intros y Hd h ry Hsz Hsame Hy Hch; [lia|]. cbn [release_children]. rewrite (get_Ok _ _ _ Hy), (put_Ok _ _ _ _ Hy). cbn [obind]. rewrite Hch. set (h1 := <[y := set_child ry None]> h).
  assert (Hs1 : size h1 = size h0) by (unfold h1; rewrite map_size_insert_Some by eauto; done).
  assert (Hne : forall z, below K y z -> z <> y) by (intros z Hz ->; apply (below_depth _ _ _ _ _ Ht) in Hz; lia).
  destruct (release_children_loop_spec h0 K D y (release_children depth) Ht) with (fuel := rounds h1) (k := 0%nat) (h := h1) as (h'&Hrun&Hs'&Hin'&Hout').
  - intros c Hc. apply IH. pose proof (deeper_lt _ _ _ _ _ Ht Hc). lia.
  - pose proof (children_count _ _ _ Ht y). unfold rounds. lia.
  - done.
  - intros j c z _ Hc Hu. assert (Hb : below K y z) by (apply below_under; exists c; split; [by eapply list_elem_of_lookup_2|done]). unfold h1. rewrite lookup_insert_ne by (apply not_eq_sym; by apply Hne). by apply Hsame.
  - exists h'. split; [exact Hrun|]. split; [done|]. assert (Hno : forall z, ~ below K y z -> h' !! z = h1 !! z) by (intros z Hz; apply Hout'; intros j c _ Hc Hu; apply Hz, below_under; exists c; split; [by eapply list_elem_of_lookup_2|done]).
    split; [|split].
    + intros z (c&Hc&Hu)%below_under. apply list_elem_of_lookup in Hc as [j Hj]. apply (Hin' j c); [lia|done|done].
    + rewrite Hno by (intros Hb; by apply Hne in Hb). unfold h1. by rewrite lookup_insert_eq, Hy.
    + intros z Hzy Hz. rewrite Hno by done. unfold h1. by rewrite lookup_insert_ne.
Qed.

(** The children that are left. *)
Definition pruned (h' : heap) (K : Z -> list Z) (z : Z) : list Z :=
  match h' !! z with Some r => match r_child r with Some _ => K z | None => [] end | None => [] end.

Section Prune.

Context (h : heap) (K : Z -> list Z) (D : Z -> nat) (y : Z) (ry : resource) (h' : heap).
Hypotheses (Ht : tree h K D) (Hy : h !! y = Some ry) (Hcl : cleared h K y h h').

Lemma pruned_under z : under K y z -> pruned h' K z = [].
Proof.
  destruct Hcl as (Hb&Hself&_). unfold pruned. intros [->|Hz]; [by rewrite Hself, Hy|]. rewrite (Hb z Hz). destruct (below_live _ _ _ _ _ Ht Hz) as [r ->]. done.
Qed.

Lemma pruned_other z : ~ under K y z -> pruned h' K z = K z.
Proof.
  intros Hz. destruct Hcl as (_&_&Ho). unfold pruned. rewrite Ho by (unfold under in Hz; tauto). destruct (h !! z) as [r|] eqn:Er.
  - rewrite (t_child _ _ _ Ht z r Er). by destruct (K z).
  - destruct (K z) as [|c l] eqn:E; [done|]. destruct (t_live _ _ _ Ht z c) as [r Hr]; [rewrite E; by left|]. congruence.
Qed.

Lemma pruned_in z c : c ∈ pruned h' K z <-> c ∈ K z /\ ~ under K y z.
Proof.
  split; [|intros (Hc&Hz); by rewrite pruned_other]. intros Hc. assert (Hz : ~ under K y z) by (intros Hz; rewrite (pruned_under z Hz) in Hc; by apply not_elem_of_nil in Hc). by rewrite pruned_other in Hc.
Qed.

Lemma cleared_range z r' : h' !! z = Some r' -> ~ below K y z -> exists r, h !! z = Some r /\ r_start r' = r_start r /\ r_end r' = r_end r /\ r_parent r' = r_parent r /\ r_sibling r' = r_sibling r.
Proof.
  intros Hz Hb. destruct Hcl as (_&Hself&Ho). destruct (decide (z = y)) as [->|]; [rewrite Hself, Hy in Hz; injection Hz as <-; by exists ry|]. rewrite Ho in Hz by done. by exists r'.
Qed.

Lemma kept_not_below z c : c ∈ K z -> ~ under K y z -> ~ below K y c.
Proof. intros Hc Hz (q&Hq&Hu)%below_parent. assert (q = z) by (by eapply (child_unique _ _ _ Ht)). by subst. Qed.

Lemma cleared_live z r : h !! z = Some r -> ~ below K y z -> is_Some (h' !! z).
Proof. intros Hz Hb. destruct Hcl as (_&Hself&Ho). destruct (decide (z = y)) as [->|]; [rewrite Hself, Hy; eauto|]. rewrite Ho, Hz by done. eauto. Qed.

Lemma tree_prune : tree h' (pruned h' K) D.
Proof.
  pose proof Ht as [Tc Ts Tp Tl Tn To Td Tr]. destruct Hcl as (Hb&Hself&Ho). split.
  - intros z r' Hz. unfold pruned. rewrite Hz. destruct (r_child r') as [c|] eqn:Ec; [|done]. rewrite <- Ec. apply Tc. assert (Hnu : ~ under K y z).
    { intros [->|Hu]; [rewrite Hself, Hy in Hz; by injection Hz as <-|]. rewrite (Hb z Hu) in Hz. apply fmap_Some in Hz as (r&_&->). done. }
    rewrite <- Ho; [done|..]; unfold under in Hnu; tauto.
  - intros z i c r' Hc Hr. pose proof Hc as Hcin. apply list_elem_of_lookup_2, pruned_in in Hcin as (Hcin&Hz). rewrite (pruned_other z Hz) in *. destruct (cleared_range c r' Hr) as (r&Hr0&_&_&_&->); [by eapply kept_not_below|]. by apply (Ts z i c).
  - intros z c. rewrite pruned_in. split.
    + intros (Hc&Hz). pose proof (kept_not_below z c Hc Hz) as Hnb. apply Tp in Hc as (r&Hr&Hp). destruct (cleared_live c r Hr Hnb) as [r' Hr']. exists r'. split; [done|]. destruct (cleared_range c r' Hr' Hnb) as (r0&?&_&_&->&_). congruence.
    + intros (r'&Hr'&Hp). assert (Hnb : ~ below K y c) by (intros Hu; rewrite (Hb c Hu) in Hr'; apply fmap_Some in Hr' as (r&_&->); done).
      destruct (cleared_range c r' Hr' Hnb) as (r&Hr&_&_&Hp'&_). assert (Hc : c ∈ K z) by (apply Tp; exists r; split; [done|congruence]). split; [done|]. intros [->|Hu]; apply Hnb; [by constructor|]. by eapply below_snoc.
  - intros z c (Hc&Hz)%pruned_in. destruct (Tl z c Hc) as [r Hr]. apply (cleared_live z r Hr). intros Hu. apply Hz. by right.
  - intros z c rz' rc' (Hc&Hz)%pruned_in Hrz Hrc. destruct (cleared_range z rz' Hrz) as (rz&?&->&->&_); [intros Hu; apply Hz; by right|]. destruct (cleared_range c rc' Hrc) as (rc&?&->&->&_); [by eapply kept_not_below|]. by apply (Tn z c).
  - intros z i j a b ra' rb' Ha Hb' Hij Hra Hrb. pose proof Ha as Hain. apply list_elem_of_lookup_2, pruned_in in Hain as (Hain&Hz). rewrite (pruned_other z Hz) in *. apply list_elem_of_lookup_2 in Hb' as Hbin.
    destruct (cleared_range a ra' Hra) as (ra&?&_&->&_); [by eapply kept_not_below|]. destruct (cleared_range b rb' Hrb) as (rb&?&->&_&_); [by eapply kept_not_below|]. by apply (To z i j a b).
  - intros z c (Hc&_)%pruned_in. by apply Td.
  - intros z r' Hr'. destruct (below_dec h K D y Ht (S (D z)) z) as [Hu|Hu]; [lia| |destruct (cleared_range z r' Hr' Hu) as (r&Hr&->&->&_); by apply (Tr z)].
    rewrite (Hb z Hu) in Hr'. apply fmap_Some in Hr' as (r&_&->). cbn [reset r_start r_end]. pose proof (u64_range (resource_size r - 1)) as H0. unfold ULLONG_MAX in H0. lia.
Qed.

End Prune.

Lemma release_child_resources_spec h K D y : tree h K D -> is_Some (h !! y) -> exists h', __release_child_resources h (Some y) = Ok h' /\ cleared h K y h h' /\ tree h' (pruned h' K) D.
Proof.
  intros Ht [ry Hy]. destruct (release_children_spec h K D Ht (rounds h) y) with (h := h) (ry := ry) as (h'&Hrun&_&Hcl); [pose proof (deeper_bound h D y); unfold rounds; lia|done|done|done|by apply (t_child _ _ _ Ht)|].
  exists h'. split; [exact Hrun|]. split; [done|]. by eapply tree_prune.
Qed.
