(* ===== verification/ResourceSplit.v ===== *)
(** * ResourceSplit: reserving what is left of a range *)

From stdpp Require Import gmap.
From S2P Require Import Prelude Resource ResourceFacts ResourceFind ResourceOps ResourceInsert ResourceRegion.

(** ** Children that still have to be passed *)

Definition still (h : heap) (s y : Z) : bool := match h !! y with Some r => s <=? r_end r | None => false end.
Definition remaining (h : heap) (s : Z) (l : list Z) : nat := length (List.filter (still h s) l).

Lemma remaining_cons h s y l : remaining h s (y :: l) = ((if still h s y then 1 else 0) + remaining h s l)%nat.
Proof. unfold remaining. simpl. by destruct (still h s y). Qed.

Lemma remaining_app h s l1 l2 : remaining h s (l1 ++ l2) = (remaining h s l1 + remaining h s l2)%nat.
Proof. unfold remaining. by rewrite List.filter_app, length_app. Qed.

Lemma remaining_le (h h' : heap) s s' l : s <= s' -> (forall y r', y ∈ l -> h' !! y = Some r' -> exists r, h !! y = Some r /\ r_end r' = r_end r) -> (remaining h' s' l <= remaining h s l)%nat.
Proof.
  intros Hs. induction l as [|y l IH]; intros Hsame; [done|]. rewrite !remaining_cons. pose proof (IH ltac:(intros z r' Hz; apply Hsame; by right)) as Hl. unfold still.
  destruct (h' !! y) as [r'|] eqn:Er'; [|lia]. destruct (Hsame y r' ltac:(by left) Er') as (r&->&He). rewrite He. destruct (s' <=? r_end r) eqn:E1, (s <=? r_end r) eqn:E2; lia.
Qed.

Lemma remaining_lt (h h' : heap) s s' l y r : s <= s' -> (forall y r', y ∈ l -> h' !! y = Some r' -> exists r, h !! y = Some r /\ r_end r' = r_end r) -> y ∈ l -> h !! y = Some r -> s <= r_end r -> r_end r < s' -> (remaining h' s' l < remaining h s l)%nat.
Proof.
  intros Hs Hsame Hy Hr H1 H2. apply list_elem_of_split in Hy as (l1&l2&->). rewrite !remaining_app, !remaining_cons.
  assert (Hy1 : still h s y = true) by (unfold still; rewrite Hr; lia). assert (Hy' : still h' s' y = false). { unfold still. destruct (h' !! y) as [r'|] eqn:Er'; [|done]. destruct (Hsame y r') as (r0&Hr0&He); [rewrite elem_of_app, elem_of_cons; tauto|done|]. assert (r0 = r) by congruence. subst. lia. }
  rewrite Hy1, Hy'. pose proof (remaining_le h h' s s' l1 Hs ltac:(intros z r' Hz; apply Hsame; rewrite elem_of_app; tauto)). pose proof (remaining_le h h' s s' l2 Hs ltac:(intros z r' Hz; apply Hsame; rewrite elem_of_app, elem_of_cons; tauto)). lia.
Qed.

Lemma remaining_ins (h : heap) s l i new r : h !! new = Some r -> r_end r < s -> remaining h s (ins i new l) = remaining h s l.
Proof.
  intros Hn Hr. unfold ins. rewrite remaining_app, remaining_cons. unfold still at 1. rewrite Hn. replace (s <=? r_end r) with false by lia. rewrite <- (take_drop i l) at 3. by rewrite remaining_app.
Qed.

(** ** The loop *)

Definition covers (h : heap) (K : Z -> list Z) (x a : Z) : Prop := exists y r, y ∈ K x /\ h !! y = Some r /\ r_start r <= a <= r_end r.

(** The children of [x] stay, with their ranges, and so does the range of [x]. *)
Definition keeps (h : heap) (K : Z -> list Z) (h' : heap) (K' : Z -> list Z) (x : Z) : Prop :=
  forall y r, y = x \/ y ∈ K x -> h !! y = Some r -> (y ∈ K x -> y ∈ K' x) /\ exists r', h' !! y = Some r' /\ r_start r' = r_start r /\ r_end r' = r_end r.

Lemma keeps_trans h K h' K' h2 K2 x : keeps h K h' K' x -> keeps h' K' h2 K2 x -> keeps h K h2 K2 x.
Proof.
  intros H1 H2 y r Hy Hr. destruct (H1 y r Hy Hr) as (Hin&r1&Hr1&E1&E2). destruct (H2 y r1) as (Hin2&r2&Hr2&E3&E4); [destruct Hy as [->|Hy]; [by left|right; by apply Hin]|done|]. split; [auto|]. exists r2. split; [done|]. split; congruence.
Qed.

Lemma keeps_covers h K h' K' x a : keeps h K h' K' x -> covers h K x a -> covers h' K' x a.
Proof. intros Hk (y&r&Hy&Hr&Ha). destruct (Hk y r (or_intror Hy) Hr) as (Hin&r'&Hr'&E1&E2). exists y, r'. split; [auto|]. split; [done|]. by rewrite E1, E2. Qed.

Section Split.

Context (slab : Z -> bool) (x : Z) (name : list Z).

(** The allocator gives new objects of a slab. *)
Definition supply (h : heap) (ks : list (option Z)) : Prop := base.NoDup (omap id ks) /\ forall a, a ∈ omap id ks -> h !! a = None /\ slab a = true.

Definition enough (ks : list (option Z)) (m : nat) : Prop := (forall k, k ∈ ks -> is_Some k) /\ (m <= length ks)%nat.

(** What the loop leaves: the tree with the old children of [x], and nothing of the
    range uncovered if no allocation failed. *)
Definition split_result (h : heap) (K : Z -> list Z) (s e : Z) (ks : list (option Z)) (m : nat) (res : outcome store) : Prop :=
  exists h' K' D' ks', res = Ok (Store h' None ks') /\ tree h' K' D' /\ keeps h K h' K' x /\ (enough ks m -> forall a, s <= a <= e -> covers h' K' x a).

Lemma supply_dom (h h' : heap) ks : (forall z, h !! z = None -> h' !! z = None) -> supply h ks -> supply h' ks.
Proof. intros Hd (Hnd&Hs). split; [done|]. intros a Ha. destruct (Hs a Ha) as (Hn&Hsl). split; [by apply Hd|done]. Qed.

(** *** The steps of the loop *)

Lemma link_step h K D rx new rn : tree h K D -> h !! x = Some rx -> fresh h new rn -> new <> x -> within rx (r_start rn) (r_end rn) -> (forall y r, y ∈ K x -> h !! y = Some r -> r_end r < r_start rn \/ r_end rn < r_start r) ->
  exists i h1 D1, (i <= length (K x))%nat /\ linked h K x i new h1 /\ __request_resource h (Some x) (Some new) = Ok (None, h1) /\ tree h1 (upd K x (ins i new (K x))) D1.
Proof.
  intros Ht Hx Hfr Hne Hw Hfree. pose proof Hfr as (Hn&Hpar&Hch). destruct (request_spec h K D x new rx rn Ht Hx Hfr Hne) as [(Hout&_)|[(_&y&Hov&_)|(_&i&h1&Hi&Hfit&Hl&Hrun)]]; [done| |].
  - exfalso. destruct Hov as (j&r&Hj&Hr&H1&H2&_). destruct (Hfree y r); [by eapply list_elem_of_lookup_2|done|lia|lia].
  - exists i, h1. eexists. split; [done|]. split; [done|]. split; [done|]. by eapply tree_link.
Qed.

Lemma linked_keeps h K i new h1 : linked h K x i new h1 -> keeps h K h1 (upd K x (ins i new (K x))) x.
Proof.
  intros Hl y r Hy Hr. split; [intros Hin; rewrite upd_eq, elem_of_ins; by right|]. destruct (linked_ahead _ _ _ _ _ _ _ _ Hl Hr) as (r'&Hr'). exists r'. split; [done|]. destruct (linked_inv _ _ _ _ _ _ _ _ Hl Hr') as (r0&?&?&?&_). assert (r0 = r) by congruence. by subst.
Qed.

Lemma linked_covers h K i new rn h1 a : h !! new = Some rn -> linked h K x i new h1 -> r_start rn <= a <= r_end rn -> covers h1 (upd K x (ins i new (K x))) x a.
Proof.
  intros Hn Hl Ha. destruct (linked_ahead _ _ _ _ _ _ _ _ Hl Hn) as (r'&Hr'). exists new, r'. split; [rewrite upd_eq, elem_of_ins; by left|]. split; [done|]. destruct (linked_inv _ _ _ _ _ _ _ _ Hl Hr') as (r0&?&->&->&_). assert (r0 = rn) by congruence. by subst.
Qed.

Lemma linked_dom h K i new h1 : linked h K x i new h1 -> forall z, h !! z = None -> h1 !! z = None.
Proof. intros Hl z Hz. rewrite Hl. destruct (decide (z = new)) as [->|]; by rewrite Hz. Qed.

Lemma other_keeps (h h1 : heap) K D new rn : tree h K D -> fresh h new rn -> new <> x -> (forall z, z <> new -> h1 !! z = h !! z) -> keeps h K h1 K x.
Proof.
  intros Ht (Hn&Hpar&_) Hne Hsame y r Hy Hr. split; [done|]. exists r. split; [|done]. rewrite Hsame; [done|]. intros ->. destruct Hy as [->|Hy]; [done|]. by apply (orphan _ _ _ Ht x new rn Hn Hpar) in Hy.
Qed.

Lemma set_range_fresh (h : heap) new rn s e : fresh h new rn -> fresh (<[new := set_range rn s e]> h) new (set_range rn s e).
Proof. intros (_&Hp&Hc). unfold fresh. by rewrite lookup_insert_eq. Qed.

Lemma free_step h ks K D new rn : tree h K D -> fresh h new rn -> new <> x -> slab new = true ->
  free_resource slab (Store h None ks) (Some new) = Ok (Store (delete new h) None ks) /\ tree (delete new h) K D /\ keeps h K (delete new h) K x.
Proof.
  intros Ht Hfr Hne Hslab. pose proof Hfr as (Hn&Hpar&Hch). split; [unfold free_resource; rewrite Hslab; cbn [negb objs]; by rewrite (get_Ok _ _ _ Hn)|]. split; [eapply tree_delete; [done|done|done|by eapply fresh_no_children]|].
  eapply other_keeps; [done|done|done|]. intros z Hz. by rewrite lookup_delete_ne.
Qed.

(** The part before a conflict is linked. *)
Lemma before_conflict h K D rx new rn y i r : tree h K D -> h !! x = Some rx -> fresh h new rn -> new <> x -> within rx (r_start rn) (r_end rn) -> K x !! i = Some y -> h !! y = Some r -> r_start rn < r_start r -> r_start r <= r_end rn ->
  (forall j z rz, (j < i)%nat -> K x !! j = Some z -> h !! z = Some rz -> r_end rz < r_start rn) ->
  exists k h1 D1, let h0 := <[new := set_range rn (r_start rn) (r_start r - 1)]> h in (k <= length (K x))%nat /\ linked h0 K x k new h1 /\ __request_resource h0 (Some x) (Some new) = Ok (None, h1) /\ tree h1 (upd K x (ins k new (K x))) D1.
Proof.
  intros Ht Hx Hfr Hne (W1&W2&W3) Hy Hr Hs He Hbefore. pose proof Hfr as (Hn&Hpar&_). pose proof (t_range _ _ _ Ht x rx Hx) as Hrx. apply (link_step (<[new := set_range rn (r_start rn) (r_start r - 1)]> h) K D rx new (set_range rn (r_start rn) (r_start r - 1))).
  - apply tree_set_range; [done|done|]. eapply fresh_may_be; [done|done|lia|lia].
  - by rewrite lookup_insert_ne.
  - by apply set_range_fresh.
  - done.
  - cbn [set_range r_start r_end]. split; [|split]; lia.
  - intros z rz Hz Hrz. assert (z <> new) by (intros ->; by apply (orphan _ _ _ Ht x new rn Hn Hpar) in Hz). rewrite lookup_insert_ne in Hrz by done. cbn [set_range r_start r_end]. apply list_elem_of_lookup in Hz as [j Hj].
    destruct (decide (j < i)%nat) as [Hji|Hji]; [left; by apply (Hbefore j z rz)|right]. destruct (decide (j = i)) as [->|]; [assert (z = y) by congruence; subst z; assert (rz = r) by congruence; subst rz; lia|].
    pose proof (t_order _ _ _ Ht x i j y z r rz Hy Hj ltac:(lia) Hr Hrz). pose proof (t_nested _ _ _ Ht x y rx r ltac:(by eapply list_elem_of_lookup_2) Hx Hr). lia.
Qed.

Lemma linked_fresh h K D k new h1 z rz : tree h K D -> linked h K x k new h1 -> fresh h z rz -> z <> new -> z <> x -> fresh h1 z rz.
Proof.
  intros Ht Hl (Hz&Hp&Hc) Hzn Hzx. split; [|done]. rewrite Hl, decide_False, Hz by done. simpl. f_equal. destruct k as [|k]; cbn [slot_at adjust_slot]; [by rewrite decide_False by congruence|].
  rewrite decide_False; [done|]. intros Hk. apply list_elem_of_lookup_2 in Hk. by apply (orphan _ _ _ Ht x z rz Hz Hp) in Hk.
Qed.

Lemma enough_tail k ks m m' : (m' < m)%nat -> enough (k :: ks) m -> enough ks m'.
Proof. intros Hm (H1&H2). split; [intros k' Hk'; apply H1; by right|simpl in H2; lia]. Qed.

(** What follows a step that leaves the children and covers the range up to [s']. *)
Lemma split_result_step h K h1 K1 s s' e ks ks1 m m1 res : keeps h K h1 K1 x -> (enough ks m -> enough ks1 m1) -> (forall a, s <= a <= e -> covers h1 K1 x a \/ s' <= a) -> split_result h1 K1 s' e ks1 m1 res -> split_result h K s e ks m res.
Proof.
  intros Hk Hen Hcov (h'&K'&D'&ks'&Hres&Ht'&Hk'&Hc'). exists h', K', D', ks'. split; [done|]. split; [done|]. split; [by eapply keeps_trans|]. intros He a Ha. destruct (Hcov a Ha) as [Hc|Hc]; [by eapply keeps_covers|]. apply Hc'; [auto|lia].
Qed.

Lemma split_result_end h K D s e ks m : tree h K D -> (forall a, s <= a <= e -> covers h K x a) -> split_result h K s e ks m (Ok (Store h None ks)).
Proof. intros Ht Hc. exists h, K, D, ks. split; [done|]. split; [done|]. split; [|auto]. intros y r Hy Hr. split; [done|]. by exists r. Qed.

Lemma busy_region_fresh (h : heap) nx s e : fresh (<[nx := busy_region name s e zeroed]> h) nx (busy_region name s e zeroed).
Proof. unfold fresh. by rewrite lookup_insert_eq. Qed.

(** The loop with at most [m] children to pass. *)
Definition split_ok (m : nat) : Prop := forall fuel h K D new rn rx ks, (2 * m + 2 <= fuel)%nat -> tree h K D -> h !! x = Some rx -> fresh h new rn -> new <> x -> slab new = true -> within rx (r_start rn) (r_end rn) -> supply h ks ->
  (remaining h (r_start rn) (K x) <= m)%nat -> split_result h K (r_start rn) (r_end rn) ks m (split_loop fuel slab (Store h None ks) (Some x) (Some new) None name).

Section Conflict.

Context (h : heap) (K : Z -> list Z) (D : Z -> nat) (new : Z) (rn rx : resource) (ks : list (option Z)) (y : Z) (i : nat) (r : resource) (m : nat).
Hypotheses (Ht : tree h K D) (Hx : h !! x = Some rx) (Hfr : fresh h new rn) (Hne : new <> x) (Hslab : slab new = true) (Hw : within rx (r_start rn) (r_end rn)) (Hsup : supply h ks) (Hrem : (remaining h (r_start rn) (K x) <= S m)%nat).
Hypotheses (Hy : K x !! i = Some y) (Hr : h !! y = Some r) (Hov1 : r_start r <= r_end rn) (Hov2 : r_start rn <= r_end r).
Hypothesis (Hbefore : forall j z rz, (j < i)%nat -> K x !! j = Some z -> h !! z = Some rz -> r_end rz < r_start rn).

Lemma conflict_in : y ∈ K x.
Proof. by eapply list_elem_of_lookup_2. Qed.

Lemma conflict_not_new z : z ∈ K x -> z <> new.
Proof. destruct Hfr as (Hn&Hpar&_). intros Hz ->. by apply (orphan _ _ _ Ht x new rn Hn Hpar) in Hz. Qed.

Lemma conflict_range : r_start rx <= r_start r /\ r_start r <= r_end r /\ r_end r <= r_end rx /\ 0 <= r_start rx /\ r_end rx < 2 ^ 64.
Proof. pose proof (t_nested _ _ _ Ht x y rx r conflict_in Hx Hr). pose proof (t_range _ _ _ Ht x rx Hx). lia. Qed.

(** The new range of the descriptor. *)
Lemma moved s e : 0 <= s < 2 ^ 64 -> 0 <= e < 2 ^ 64 -> let h0 := <[new := set_range rn s e]> h in fresh h0 new (set_range rn s e) /\ tree h0 K D /\ keeps h K h0 K x /\ supply h0 ks /\ h0 !! x = Some rx /\ (forall z, z ∈ K x -> h0 !! z = h !! z).
Proof.
  intros Hs He h0. pose proof Hfr as (Hn&_). split; [by apply set_range_fresh|]. split; [apply tree_set_range; [done|done|]; by eapply fresh_may_be|]. split; [eapply other_keeps; [done|done|done|]; intros z Hz; unfold h0; by rewrite lookup_insert_ne|].
  split; [eapply supply_dom; [|exact Hsup]; intros z Hz; unfold h0; rewrite lookup_insert_ne by congruence; done|]. split; [unfold h0; by rewrite lookup_insert_ne|]. intros z Hz. unfold h0. rewrite lookup_insert_ne by (apply not_eq_sym; by apply conflict_not_new). done.
Qed.

(** The conflict covers the range. *)
Lemma split_covered : r_start r <= r_start rn -> r_end rn <= r_end r -> split_result h K (r_start rn) (r_end rn) ks (S m) (free_resource slab (Store h None ks) (Some new)).
Proof.
  intros H1 H2. destruct (free_step h ks K D new rn Ht Hfr Hne Hslab) as (->&Ht'&Hk'). eapply (split_result_step h K (delete new h) K _ (r_end rn + 1) _ ks ks (S m) (S m)); [done|done| |eapply split_result_end; [done|intros a Ha; lia]].
  intros a Ha. left. exists y, r. split; [apply conflict_in|]. split; [|lia]. rewrite lookup_delete_ne by (apply not_eq_sym, conflict_not_new, conflict_in). done.
Qed.

(** It covers the beginning. *)
Lemma split_skip fuel : split_ok m -> (2 * m + 2 <= fuel)%nat -> r_start r <= r_start rn -> r_end r < r_end rn ->
  split_result h K (r_start rn) (r_end rn) ks (S m) (split_loop fuel slab (Store (<[new := set_range rn (r_end r + 1) (r_end rn)]> h) None ks) (Some x) (Some new) None name).
Proof.
  intros IH Hfuel H1 H2. pose proof conflict_range as Hcr. pose proof Hw as (W1&W2&W3). destruct (moved (r_end r + 1) (r_end rn)) as (Hfr0&Ht0&Hk0&Hsup0&Hx0&Hsame); [lia|lia|]. set (h0 := <[new := set_range rn (r_end r + 1) (r_end rn)]> h) in *.
  assert (Hcnt : (remaining h0 (r_end r + 1) (K x) <= m)%nat).
  { pose proof (remaining_lt h h0 (r_start rn) (r_end r + 1) (K x) y r ltac:(lia)) as Hlt. enough (remaining h0 (r_end r + 1) (K x) < remaining h (r_start rn) (K x))%nat by lia. apply Hlt; [|apply conflict_in|done|lia|lia]. intros z r' Hz Hr'. rewrite Hsame in Hr' by done. by exists r'. }
  eapply (split_result_step h K h0 K _ (r_end r + 1) _ ks ks (S m) m); [done| | |].
  - intros (He1&He2). split; [done|lia].
  - intros a Ha. destruct (decide (a <= r_end r)); [left|right; lia]. exists y, r. split; [apply conflict_in|]. split; [rewrite Hsame by apply conflict_in; done|lia].
  - apply (IH fuel h0 K D new (set_range rn (r_end r + 1) (r_end rn)) rx ks); [lia|done|done|done|done|done| |done|done]. split; [|split]; cbn [set_range r_start r_end]; lia.
Qed.

(** It covers the end: the part before it is the last. *)
Lemma split_last fuel : r_start rn < r_start r -> r_end rn <= r_end r ->
  split_result h K (r_start rn) (r_end rn) ks (S m) (split_loop (S fuel) slab (Store (<[new := set_range rn (r_start rn) (r_start r - 1)]> h) None ks) (Some x) (Some new) None name).
Proof.
  intros H1 H2. pose proof conflict_range as Hcr. pose proof Hw as (W1&W2&W3). destruct (moved (r_start rn) (r_start r - 1)) as (Hfr0&Ht0&Hk0&Hsup0&Hx0&Hsame); [lia|lia|].
  destruct (before_conflict h K D rx new rn y i r Ht Hx Hfr Hne Hw Hy Hr ltac:(lia) ltac:(lia) Hbefore) as (k&h1&D1&Hk&Hl&Hrun&Ht1). cbv zeta in *. set (h0 := <[new := set_range rn (r_start rn) (r_start r - 1)]> h) in *. cbn [split_loop objs]. rewrite Hrun. unfold with_objs. cbn [obind bootmem_resource_free kzalloc].
  eapply (split_result_step h K h1 _ _ (r_end rn + 1) _ ks ks (S m) (S m)); [eapply keeps_trans; [exact Hk0|by eapply linked_keeps]|done| |eapply split_result_end; [exact Ht1|intros a Ha; lia]].
  intros a Ha. left. destruct (decide (a < r_start r)) as [Ha'|Ha']; [eapply linked_covers; [apply Hfr0|exact Hl|cbn [set_range r_start r_end]; lia]|]. eapply keeps_covers; [by eapply linked_keeps|]. exists y, r. split; [apply conflict_in|]. split; [rewrite Hsame by apply conflict_in; done|lia].
Qed.

(** The allocator has no descriptor for the part after it. *)
Lemma split_failed ks' : ~ enough ks (S m) -> r_start rn < r_start r -> r_end r < r_end rn ->
  split_result h K (r_start rn) (r_end rn) ks (S m) (free_resource slab (Store (<[new := set_range rn (r_start rn) (r_start r - 1)]> h) None ks') (Some new)).
Proof.
  intros Hno H1 H2. pose proof conflict_range. pose proof Hw as (W1&W2&W3). destruct (moved (r_start rn) (r_start r - 1)) as (Hfr0&Ht0&Hk0&_); [lia|lia|]. set (h0 := <[new := _]> h) in *. destruct (free_step h0 ks' K D new _ Ht0 Hfr0 Hne Hslab) as (->&Ht'&Hk').
  exists (delete new h0), K, D, ks'. split; [done|]. split; [done|]. split; [exact (keeps_trans _ _ _ _ _ _ _ Hk0 Hk')|done].
Qed.

(** The heap with the descriptor of the part after the conflict. *)
Definition after (nx : Z) : heap := <[nx := busy_region name (r_end r + 1) (r_end rn) zeroed]> h.

Lemma after_spec nx : h !! nx = None -> r_end r < r_end rn -> tree (after nx) K D /\ keeps h K (after nx) K x /\ (forall z rz, h !! z = Some rz -> after nx !! z = Some rz).
Proof.
  intros Hnx H2. pose proof conflict_range. pose proof Hw as (W1&W2&W3). assert (Hsame : forall z rz, h !! z = Some rz -> after nx !! z = Some rz) by (intros z rz Hz; unfold after; rewrite lookup_insert_ne by congruence; done).
  split; [apply tree_new; [done|done|done|done|done|cbn [busy_region r_start]; lia|cbn [busy_region r_end]; lia|by eapply tree_dead]|]. split; [|done]. intros z rz Hz Hrz. split; [done|]. exists rz. split; [by apply Hsame|done].
Qed.

(** It leaves a part before and a part after it. *)
Lemma split_both fuel nx ks' : split_ok m -> ks = Some nx :: ks' -> (2 * m + 2 <= fuel)%nat -> r_start rn < r_start r -> r_end r < r_end rn ->
  split_result h K (r_start rn) (r_end rn) ks (S m) (split_loop (S fuel) slab (Store (<[new := set_range rn (r_start rn) (r_start r - 1)]> (after nx)) None ks') (Some x) (Some new) (Some nx) name).
Proof.
  intros IH Hks Hfuel H1 H2. pose proof conflict_range as Hcr. pose proof Hw as (W1&W2&W3). pose proof Hfr as (Hn&Hpar&Hch). pose proof Hsup as (Hnd&Hall). rewrite Hks in Hnd, Hall. simpl in Hnd, Hall. apply list.NoDup_cons in Hnd as (Hnx'&Hnd). destruct (Hall nx ltac:(by left)) as (Hnx&Hslx).
  destruct (after_spec nx Hnx H2) as (Ht2&Hk2&Hup). set (h2 := after nx) in *. assert (Hfr2 : fresh h2 new rn) by (split; [by apply Hup|done]). pose proof (Hup x rx Hx) as Hx2. pose proof (Hup y r Hr) as Hr2. assert (Hxn : nx <> x) by congruence. assert (Hnn : nx <> new) by congruence.
  destruct (before_conflict h2 K D rx new rn y i r Ht2 Hx2 Hfr2 Hne Hw Hy Hr2 ltac:(lia) ltac:(lia)) as (k&h1&D1&Hk&Hl&Hrun&Ht1).
  { intros j z rz Hj Hz Hrz. destruct (child_at _ _ _ Ht _ _ _ Hz) as (rz'&Hrz'&_). assert (rz' = rz) by (apply Hup in Hrz'; congruence). subst rz'. by apply (Hbefore j z rz). }
  cbv zeta in *. set (h0 := <[new := set_range rn (r_start rn) (r_start r - 1)]> h2) in *. cbn [split_loop objs]. rewrite Hrun. unfold with_objs. cbn [obind bootmem_resource_free kzalloc].
  assert (Hother : forall z, z <> new -> h0 !! z = h2 !! z) by (intros z Hz; unfold h0; by rewrite lookup_insert_ne).
  assert (Ht0 : tree h0 K D) by (apply tree_set_range; [done|apply Hfr2|]; eapply fresh_may_be; [done|done|lia|lia]).
  assert (Hk0 : keeps h K h0 K x) by (eapply keeps_trans; [exact Hk2|]; by eapply other_keeps). assert (Hk1 : keeps h0 K h1 (upd K x (ins k new (K x))) x) by (by eapply linked_keeps).
  destruct (Hk1 x rx) as (_&rx1&Hx1&E1&E2); [by left|by rewrite Hother|].
  assert (Hfrx : fresh h1 nx (busy_region name (r_end r + 1) (r_end rn) zeroed)) by (eapply linked_fresh; [exact Ht0|exact Hl| |done|done]; unfold fresh; rewrite Hother by done; unfold h2, after; by rewrite lookup_insert_eq).
  assert (Hn0 : h0 !! new = Some (set_range rn (r_start rn) (r_start r - 1))) by (unfold h0; by rewrite lookup_insert_eq).
  eapply (split_result_step h K h1 (upd K x (ins k new (K x))) _ (r_end r + 1) _ ks ks' (S m) m); [exact (keeps_trans _ _ _ _ _ _ _ Hk0 Hk1)|rewrite Hks; apply enough_tail; lia| |].
  - intros a Ha. destruct (decide (a <= r_end r)) as [Ha'|]; [left|right; lia]. destruct (decide (a < r_start r)) as [Ha2|Ha2]; [eapply linked_covers; [exact Hn0|exact Hl|cbn [set_range r_start r_end]; lia]|].
    eapply keeps_covers; [exact (keeps_trans _ _ _ _ _ _ _ Hk0 Hk1)|]. exists y, r. split; [apply conflict_in|]. split; [done|lia].
  - apply (IH fuel h1 _ D1 nx (busy_region name (r_end r + 1) (r_end rn) zeroed) rx1 ks'); [done|done|done|done|done|done| | |].
    + split; [|split]; cbn [busy_region r_start r_end]; lia.
    + eapply supply_dom; [by eapply linked_dom|]. split; [done|]. intros a Ha. destruct (Hall a ltac:(by right)) as (Hna&Hsa). split; [|done]. rewrite Hother by congruence. unfold h2, after. rewrite lookup_insert_ne; [done|]. intros <-. done.
    + cbn [busy_region r_start]. rewrite upd_eq. destruct (linked_ahead _ _ _ _ _ _ _ _ Hl Hn0) as (rn1&Hrn1). destruct (linked_inv _ _ _ _ _ _ _ _ Hl Hrn1) as (r0&Hr0&_&Hend&_). rewrite Hn0 in Hr0. injection Hr0 as <-. cbn [set_range r_end] in Hend.
      rewrite (remaining_ins h1 (r_end r + 1) (K x) k new rn1 Hrn1) by lia. enough (remaining h1 (r_end r + 1) (K x) < remaining h (r_start rn) (K x))%nat by lia. apply (remaining_lt h h1 (r_start rn) (r_end r + 1) (K x) y r); [lia| |apply conflict_in|done|lia|lia].
      intros z rz Hz Hrz. destruct (linked_inv _ _ _ _ _ _ _ _ Hl Hrz) as (r0&Hr0&_&He0&_). rewrite Hother in Hr0 by (by apply conflict_not_new). destruct (child_lookup _ _ _ Ht x z Hz) as (rz'&Hrz'&_). exists rz'. split; [done|]. apply Hup in Hrz'. congruence.
Qed.

End Conflict.

Lemma split_spec m : split_ok m.
Proof.
  induction m as [|m IH]; intros fuel h K D new rn rx ks Hfuel Ht Hx Hfr Hne Hslab Hw Hsup Hrem; (destruct fuel as [|fuel]; [lia|]); cbn [split_loop objs]; pose proof Hfr as (Hn&Hpar&Hch); pose proof Hw as (W1&W2&W3); pose proof (t_range _ _ _ Ht x rx Hx) as Hrx;
    destruct (request_spec h K D x new rx rn Ht Hx Hfr Hne) as [(Hout&_)|[(_&y&(i&r&Hy&Hr&H1&H2&Hbefore)&->)|(_&i&h1&Hi&Hfit&Hl&->)]]; try done; unfold with_objs; cbn [obind objs bootmem_resource_free kzalloc].
  2, 4: eapply (split_result_step h K h1 _ _ (r_end rn + 1) _ ks ks); [by eapply linked_keeps|done|intros a Ha; left; by eapply linked_covers|eapply split_result_end; [by eapply tree_link|intros a Ha; lia]].
  - exfalso. apply list_elem_of_lookup_2 in Hy. destruct (list_elem_of_split _ _ Hy) as (l1&l2&El). rewrite El, remaining_app, remaining_cons in Hrem. unfold still in Hrem. rewrite Hr in Hrem. replace (r_start rn <=? r_end r) with true in Hrem by lia. lia.
  - rewrite (get_Ok _ _ _ Hr), (get_Ok _ _ _ Hn). cbn [obind]. pose proof (t_nested _ _ _ Ht x y rx r ltac:(by eapply list_elem_of_lookup_2) Hx Hr) as Hnest. destruct ((r_start r <=? r_start rn) && (r_end rn <=? r_end r)) eqn:Ecov; [eapply split_covered; eauto; lia|].
    destruct (r_start rn <? r_start r) eqn:Es; rewrite (put_Ok _ _ _ _ Hn); cbn [obind objs bootmem_resource_free kzalloc]; [|rewrite (u64_small (r_end r + 1)) by (unfold ULLONG_MAX; lia); eapply split_skip; eauto; lia].
    rewrite (u64_small (r_start r - 1)) by (unfold ULLONG_MAX; lia). destruct (r_end r <? r_end rn) eqn:Ee; [|destruct fuel as [|fuel]; [lia|]; eapply split_last; eauto; lia].
    cbn [alloc_resource bootmem_resource_free kzalloc objs]. destruct ks as [|[nx|] ks]; cbn [obind].
    + eapply split_failed; eauto; [|lia|lia]. intros (_&Hlen). simpl in Hlen. lia.
    + destruct (proj2 Hsup nx) as (Hnx&_); [by left|]. assert (Hnn : nx <> new) by congruence. cbn [objs bootmem_resource_free kzalloc]. rewrite (put_Ok _ nx zeroed) by (by rewrite lookup_insert_eq). cbn [obind objs bootmem_resource_free kzalloc]. rewrite insert_insert_eq, (u64_small (r_end r + 1)), (insert_insert_ne h) by (done || unfold ULLONG_MAX; lia).
      destruct fuel as [|fuel]; [lia|]. eapply split_both; eauto; lia.
    + eapply split_failed; eauto; [|lia|lia]. intros (Hall&_). destruct (Hall None) as [? ?]; [by left|done].
Qed.

(** *** The whole functions *)

(** The allocator has a descriptor for each part. *)
Lemma reserve_spec h K D rx s e ks : tree h K D -> h !! x = Some rx -> within rx s e -> supply h ks -> split_result h K s e ks (S (length (K x))) (__reserve_region_with_split slab (Store h None ks) (Some x) s e name).
Proof.
  intros Ht Hx Hw Hsup. pose proof Hw as (W1&W2&W3). pose proof (t_range _ _ _ Ht x rx Hx) as Hrx. unfold __reserve_region_with_split.
  assert (Hfail : ~ enough ks (S (length (K x))) -> forall ks', split_result h K s e ks (S (length (K x))) (Ok (Store h None ks'))).
  { intros Hno ks'. exists h, K, D, ks'. split; [done|]. split; [done|]. split; [|done]. intros y r _ Hr. split; [done|by exists r]. }
  cbn [alloc_resource bootmem_resource_free kzalloc objs]. destruct ks as [|[nx|] ks]; cbn [obind].
  - apply Hfail. intros (_&Hlen). simpl in Hlen. lia.
  - destruct Hsup as (Hnd&Hall). simpl in Hnd, Hall. apply list.NoDup_cons in Hnd as (Hnx'&Hnd). destruct (Hall nx ltac:(by left)) as (Hnx&Hslx). cbn [objs bootmem_resource_free kzalloc]. rewrite (put_Ok _ nx zeroed) by (by rewrite lookup_insert_eq). cbn [obind]. rewrite insert_insert_eq. unfold with_objs. cbn [bootmem_resource_free kzalloc].
    set (h1 := <[nx := busy_region name s e zeroed]> h). assert (Hup : forall z rz, h !! z = Some rz -> h1 !! z = Some rz) by (intros z rz Hz; unfold h1; rewrite lookup_insert_ne by congruence; done).
    assert (Ht1 : tree h1 K D) by (apply tree_new; [done|done|done|done|done|cbn [busy_region r_start]; lia|cbn [busy_region r_end]; lia|by eapply tree_dead]).
    eapply (split_result_step h K h1 K _ s _ _ ks _ (length (K x))); [intros y r _ Hr; split; [done|]; exists r; split; [by apply Hup|done]|apply enough_tail; lia|intros a Ha; right; lia|].
    apply (split_spec (length (K x)) (4 * rounds h1)%nat h1 K D nx (busy_region name s e zeroed) rx ks); [pose proof (children_count _ _ _ Ht1 x); unfold rounds; lia|done|by apply Hup|by apply busy_region_fresh|congruence|done|done| |unfold remaining; apply List.filter_length_le].
    split; [done|]. intros a Ha. destruct (Hall a ltac:(by right)) as (Hna&Hsa). split; [|done]. unfold h1. rewrite lookup_insert_ne; [done|]. intros <-. done.
  - apply Hfail. intros (Hall&_). destruct (Hall None) as [? ?]; [by left|done].
Qed.

(** The range is clipped to that of the root. *)
Lemma reserve_clipped_spec h K D rx s e ks : tree h K D -> h !! x = Some rx -> s <= e -> r_start rx <= r_end rx -> supply h ks ->
  split_result h K (Z.max s (r_start rx)) (Z.min e (r_end rx)) ks (S (length (K x))) (reserve_region_with_split slab (Store h None ks) (Some x) s e name).
Proof.
  intros Ht Hx Hse Hrx Hsup. unfold reserve_region_with_split. cbn [objs]. rewrite (get_Ok _ _ _ Hx). cbn [obind].
  destruct ((s <? r_start rx) || (r_end rx <? e)) eqn:E1; [|replace (Z.max s (r_start rx)) with s by lia; replace (Z.min e (r_end rx)) with e by lia; eapply reserve_spec; eauto; split; [|split]; lia].
  destruct ((r_end rx <? s) || (e <? r_start rx)) eqn:E2; [eapply split_result_end; [done|intros a Ha; lia]|].
  replace (if s <? r_start rx then r_start rx else s) with (Z.max s (r_start rx)) by (destruct (s <? r_start rx) eqn:E; lia). replace (if r_end rx <? e then r_end rx else e) with (Z.min e (r_end rx)) by (destruct (r_end rx <? e) eqn:E; lia). eapply reserve_spec; eauto. split; [|split]; lia.
Qed.

End Split.
