(* ===== verification/ResourceProps.v ===== *)
(** * ResourceProps: the properties of resource trees *)

From stdpp Require Import gmap.
From S2P Require Import Prelude Resource ResourceFacts ResourceFind ResourceOps ResourceInsert ResourceSubtree ResourceRegion ResourceRelease ResourceSplit.

(** ** A tree with two children *)

Definition ex_root : resource := Res 0 0xffff [] 0 None None (Some 2).
Definition ex_left : resource := Res 0x100 0x1ff [] 0 (Some 1) (Some 3) None.
Definition ex_right : resource := Res 0x400 0x4ff [] IORESOURCE_BUSY (Some 1) None None.
Definition ex_new (s e : Z) : resource := Res s e [] 0 None None None.
Definition ex_heap (s e : Z) : heap := <[1 := ex_root]> (<[2 := ex_left]> (<[3 := ex_right]> {[9 := ex_new s e]})).
Definition ex_kids (x : Z) : list Z := if x =? 1 then [2; 3] else [].
Definition ex_depth (x : Z) : nat := if (x =? 2) || (x =? 3) then 1%nat else 0%nat.

Lemma ex_lookup s e x r : ex_heap s e !! x = Some r -> (x = 1 /\ r = ex_root) \/ (x = 2 /\ r = ex_left) \/ (x = 3 /\ r = ex_right) \/ (x = 9 /\ r = ex_new s e).
Proof. unfold ex_heap. rewrite !lookup_insert_Some, lookup_singleton_Some. intuition auto. Qed.

Lemma ex_kid x i y : ex_kids x !! i = Some y -> x = 1 /\ ((i = 0%nat /\ y = 2) \/ (i = 1%nat /\ y = 3)).
Proof. unfold ex_kids. destruct (x =? 1) eqn:E; [|done]. destruct i as [|[|[|i]]]; simpl; intros H; try done; injection H as <-; split; [lia|tauto|lia|tauto]. Qed.

Lemma ex_kid_in x y : y ∈ ex_kids x -> x = 1 /\ (y = 2 \/ y = 3).
Proof. intros (i&Hi)%list_elem_of_lookup. apply ex_kid in Hi. tauto. Qed.

Lemma ex_tree s e : 0 <= s < 2 ^ 64 -> 0 <= e < 2 ^ 64 -> tree (ex_heap s e) ex_kids ex_depth.
Proof.
  intros Hs He. split.
  - intros x r Hx. apply ex_lookup in Hx as [(->&->)|[(->&->)|[(->&->)|(->&->)]]]; reflexivity.
  - intros x i y r Hy Hr. apply ex_kid in Hy as (->&[(->&->)|(->&->)]); apply ex_lookup in Hr as [(?&?)|[(?&?)|[(?&?)|(?&?)]]]; subst; try lia; reflexivity.
  - intros x y. split.
    + intros (->&[->| ->])%ex_kid_in; eexists; split; reflexivity.
    + intros (r&Hr&Hp). apply ex_lookup in Hr as [(->&->)|[(->&->)|[(->&->)|(->&->)]]]; try discriminate; injection Hp as <-; [by left|right; by left].
  - intros x y (->&_)%ex_kid_in. eexists. reflexivity.
  - intros x y rx ry (->&Hy)%ex_kid_in Hx Hry. apply ex_lookup in Hx as [(_&->)|[(?&?)|[(?&?)|(?&?)]]]; try lia. apply ex_lookup in Hry as [(?&?)|[(?&->)|[(?&->)|(?&?)]]]; subst; try lia; cbn; lia.
  - intros x i j y z ry rz Hi Hj Hij Hy Hz. apply ex_kid in Hi as (->&Hi). apply ex_kid in Hj as (_&Hj). assert (y = 2 /\ z = 3) as (->&->) by lia. apply ex_lookup in Hy as [(?&?)|[(?&->)|[(?&?)|(?&?)]]]; try lia. apply ex_lookup in Hz as [(?&?)|[(?&?)|[(?&->)|(?&?)]]]; try lia. cbn. lia.
  - intros x y (->&[->| ->])%ex_kid_in; cbn; lia.
  - intros x r Hx. apply ex_lookup in Hx as [(->&->)|[(->&->)|[(->&->)|(->&->)]]]; cbn; lia.
Qed.

(** ** Requesting and releasing *)

(** C24: [request_resource] of a new descriptor returns 0 exactly if its range is
    a proper range inside the root that overlaps no child. It is then a child in its
    place, and releasing it returns 0 and gives back every other descriptor as it
    was. Otherwise the call returns -EBUSY and changes nothing. The tree is
    well formed after either. *)
Theorem resource_request_correct h K D x new rx rn : tree h K D -> h !! x = Some rx -> fresh h new rn -> new <> x ->
  let free := within rx (r_start rn) (r_end rn) /\ forall y r, y ∈ K x -> h !! y = Some r -> r_end r < r_start rn \/ r_end rn < r_start r in
  (free /\ exists h' h'' i D', request_resource h (Some x) (Some new) = Ok (0, h') /\ tree h' (upd K x (ins i new (K x))) D' /\
     release_resource h' (Some new) = Ok (0, h'') /\ forall z, z <> new -> h'' !! z = h !! z) \/
  (~ free /\ request_resource h (Some x) (Some new) = Ok (- EBUSY, h)).
Proof.
  intros Ht Hx Hfr Hne free. unfold request_resource, request_resource_conflict, release_resource. destruct (request_spec h K D x new rx rn Ht Hx Hfr Hne) as [(Hout&->)|[(_&y&(j&r&Hj&Hr&H1&H2&_)&->)|(Hin&i&h1&Hi&Hfit&Hl&->)]]; cbn [obind].
  - right. split; [by intros (H&_)|done].
  - right. split; [|done]. intros (_&H). apply list_elem_of_lookup_2 in Hj. destruct (H y r Hj Hr); lia.
  - left. split; [split; [done|]|].
    + intros y r (j&Hj)%list_elem_of_lookup Hr. destruct Hfit as (_&_&Hnb). specialize (Hnb j y r Hj Hr). destruct (j <? i)%nat; lia.
    + destruct (granted_tree h K D x new rn i h1 Ht Hfr Hne ltac:(eauto) Hi Hfit Hl) as [D' Ht']. destruct (res_release_spec _ _ D' x i new Ht' (granted_at K x new i Hi)) as (h2&Hrel&Hu). exists h1, h2, i, D'. split; [done|]. split; [done|]. split; [done|].
      intros z Hz. pose proof (granted_undo h K D x new rn i h1 Ht Hi Hfit Hl h2 Hu) as Hd. apply (f_equal (lookup z)) in Hd. by rewrite !lookup_delete_ne in Hd.
Qed.

Lemma resource_request_correct_witness : (forall y r, y ∈ ex_kids 1 -> ex_heap 0x200 0x2ff !! y = Some r -> r_end r < 0x200 \/ 0x2ff < r_start r) /\
  (exists h' h'' i D', request_resource (ex_heap 0x200 0x2ff) (Some 1) (Some 9) = Ok (0, h') /\ tree h' (upd ex_kids 1 (ins i 9 (ex_kids 1))) D' /\ release_resource h' (Some 9) = Ok (0, h'') /\ forall z, z <> 9 -> h'' !! z = ex_heap 0x200 0x2ff !! z).
Proof.
  assert (Hfree : forall y r, y ∈ ex_kids 1 -> ex_heap 0x200 0x2ff !! y = Some r -> r_end r < 0x200 \/ 0x2ff < r_start r).
  { intros y r (_&Hy)%ex_kid_in Hr. apply ex_lookup in Hr as [(?&?)|[(?&->)|[(?&->)|(?&?)]]]; subst; cbn; lia. }
  split; [exact Hfree|]. destruct (resource_request_correct (ex_heap 0x200 0x2ff) ex_kids ex_depth 1 9 ex_root (ex_new 0x200 0x2ff)) as [(_&H)|(Hno&_)].
  - apply ex_tree; lia.
  - reflexivity.
  - repeat split.
  - lia.
  - exact H.
  - exfalso. apply Hno. split; [unfold within; cbn; lia|exact Hfree].
Defined.

(** ** Allocating *)

(** [allocate_resource] for a new descriptor with a power of two as alignment
    and no alignment function always returns. It returns 0 with the lowest
    aligned range of the given size between [min] and [max], inside the root and
    apart from its children, and the descriptor linked there; or -EBUSY, if there
    is no such range. The tree is well formed after either. *)
Theorem resource_allocate_correct h K D x new rx rn size min max k : tree h K D -> h !! x = Some rx -> fresh h new rn -> new <> x -> 0 <= k <= 63 -> 1 <= size < 2 ^ 64 -> 0 <= min < 2 ^ 64 ->
  exists err h', allocate_resource h (Some x) (Some new) size min max (2 ^ k) None = Ok (err, h') /\
    ((err = 0 /\ exists i D' rn' s, tree h' (upd K x (ins i new (K x))) D' /\ h' !! new = Some rn' /\ r_start rn' = s /\ r_end rn' = s + size - 1 /\
        feasible h K x rx None size min max k s /\ forall s', feasible h K x rx None size min max k s' -> s <= s') \/
     (err = - EBUSY /\ tree h' K D /\ (forall y, y <> new -> h' !! y = h !! y) /\ forall s, ~ feasible h K x rx None size min max k s)).
Proof. apply allocate_spec. Qed.

Lemma resource_allocate_correct_witness : exists err h', allocate_resource (ex_heap 0 0) (Some 1) (Some 9) 0x200 0x80 0xffff (2 ^ 8) None = Ok (err, h') /\ err = 0.
Proof.
  destruct (resource_allocate_correct (ex_heap 0 0) ex_kids ex_depth 1 9 ex_root (ex_new 0 0) 0x200 0x80 0xffff 8) as (err&h'&Hrun&[(Herr&_)|(_&_&_&Hno)]); [apply ex_tree; lia|reflexivity|repeat split|lia|lia|lia|lia|exists err, h'; split; [exact Hrun|exact Herr]|].
  exfalso. apply (Hno 0x200). split; [by exists 2|]. split; [lia|]. split; [cbn; lia|]. split; [lia|]. split; [cbn; lia|]. intros y r (_&Hy)%ex_kid_in _ Hr. apply ex_lookup in Hr as [(?&?)|[(?&->)|[(?&->)|(?&?)]]]; subst; cbn; lia.
Defined.

(** ** Moving and resizing *)

(** [adjust_resource] with a range that is not empty and does not wrap returns
    0 and changes the range exactly if the children stay inside it and, below a
    parent, it stays inside that and apart from the siblings. Otherwise it
    returns -EBUSY and changes nothing. The tree stays well formed. *)
Theorem resource_adjust_correct h K D y r start size : tree h K D -> h !! y = Some r -> 0 <= start -> 1 <= size -> start + size <= 2 ^ 64 ->
  exists err h', adjust_resource h (Some y) start size = Ok (err, h') /\ tree h' K D /\
    ((err = 0 /\ may_be h K y start (start + size - 1) /\ h' = <[y := set_range r start (start + size - 1)]> h) \/ (err = - EBUSY /\ ~ may_be h K y start (start + size - 1) /\ h' = h)).
Proof.
  intros Ht Hy Hs Hsz Hov. destruct (adjust_spec h K D y r start size Ht Hy Hs Hsz Hov) as [(Hm&->)|(Hm&->)]; eexists _, _; (split; [reflexivity|]).
  - split; [by apply tree_set_range|]. left. done.
  - split; [done|]. right. done.
Qed.

Lemma resource_adjust_correct_witness : exists err h', adjust_resource (ex_heap 0 0) (Some 2) 0x300 0x100 = Ok (err, h') /\ tree h' ex_kids ex_depth.
Proof.
  destruct (resource_adjust_correct (ex_heap 0 0) ex_kids ex_depth 2 ex_left 0x300 0x100) as (err&h'&Hrun&Ht&_); [apply ex_tree; lia|reflexivity|lia|lia|lia|]. exists err, h'. split; [exact Hrun|exact Ht].
Defined.

(** ** Inserting *)

(** C25: [insert_resource] of a new descriptor inside the root returns 0 exactly if
    no resource below the root straddles its range. It is then linked below the
    last resource on the way down that contains it, the children it covers become
    its own, and the tree is well formed. Otherwise the call returns -EBUSY and
    changes nothing. [insert_resource_expand_to_fit] never fails: it inserts the
    least range that contains the given one and straddles no resource below the
    root. *)
Theorem resource_insert_correct h K D x new rx rn : tree h K D -> h !! x = Some rx -> fresh h new rn -> new <> x -> within rx (r_start rn) (r_end rn) ->
  ((exists h', insert_resource h (Some x) (Some new) = Ok (0, h') /\ inserted h K D new rn x h' /\ forall c rc, below K x c -> h !! c = Some rc -> ~ straddles rc (r_start rn) (r_end rn)) \/
   (insert_resource h (Some x) (Some new) = Ok (- EBUSY, h) /\ exists c rc, below K x c /\ h !! c = Some rc /\ straddles rc (r_start rn) (r_end rn))) /\
  exists s' e' h', insert_resource_expand_to_fit h (Some x) (Some new) = Ok h' /\ hull h K x (r_start rn) (r_end rn) s' e' /\ within rx s' e' /\
    inserted (<[new := set_range rn s' e']> h) K D new (set_range rn s' e') x h'.
Proof.
  intros Ht Hx Hfr Hne Hw. split; [|by apply expand_to_fit_spec]. unfold insert_resource, insert_resource_conflict.
  destruct (insert_spec h K D x new rx rn Ht Hx Hfr Hne) as [(Hout&_)|[(_&p&c&rc&Henc&Hc&Hrc&Hst&->)|(_&h'&Hins&->)]]; cbn [obind]; [done| |].
  - right. split; [done|]. exists c, rc. split; [by eapply encloses_below|done].
  - left. exists h'. split; [done|]. split; [done|]. intros c rc. by eapply inserted_no_straddle.
Qed.

Lemma resource_insert_correct_witness : within ex_root 0x180 0x2ff /\ exists s' e' h', insert_resource_expand_to_fit (ex_heap 0x180 0x2ff) (Some 1) (Some 9) = Ok h' /\ hull (ex_heap 0x180 0x2ff) ex_kids 1 0x180 0x2ff s' e'.
Proof.
  assert (Hw : within ex_root 0x180 0x2ff) by (unfold within; cbn; lia). split; [exact Hw|].
  destruct (resource_insert_correct (ex_heap 0x180 0x2ff) ex_kids ex_depth 1 9 ex_root (ex_new 0x180 0x2ff)) as (_&s'&e'&h'&Hrun&Hh&_); [apply ex_tree; lia|reflexivity|repeat split|lia|exact Hw|]. exists s', e', h'. split; [exact Hrun|exact Hh].
Defined.

(** ** Busy regions *)

(** C26: [__request_region] with a new descriptor from the allocator always returns.
    A region that is granted is in the tree, and [__release_region] with the same
    arguments finds it and gives back exactly the store before the request. A
    request is refused, with the store as before, only if on the way down through
    resources that are not busy its range leaves a resource or overlaps a busy
    one; it waits only for a muxed one. *)
Theorem region_roundtrip slab h l K D new x rx start n name flags : tree h K D -> h !! x = Some rx -> h !! new = None -> slab new = true -> 0 <= start < 2 ^ 64 ->
  exists res s', __request_region slab (Store h None (Some new :: l)) (Some x) start n name flags = Ok (res, s') /\
    let h1 := <[new := region rx start n name flags]> h in
    match res with
    | Got r => r = Some new /\ (exists p i D', tree (objs s') (upd K p (ins i new (K p))) D') /\ __release_region slab s' (Some x) start n = Ok (true, Store h None l)
    | Refused => s' = Store h None l /\ exists p c, opens h1 K start (u64 (start + n - 1)) p x /\ blocked h1 K start (u64 (start + n - 1)) p c
    | Waits r q => r = Some new /\ exists p c rc, q = Some p /\ opens h1 K start (u64 (start + n - 1)) p x /\ blocked h1 K start (u64 (start + n - 1)) p c /\ h !! c = Some rc /\ muxed rc flags = true
    end.
Proof.
  intros Ht Hx Hnew Hslab Hstart. destruct (request_region_spec slab h l K D new x rx start n name flags Ht Hx Hnew Hslab Hstart) as (p&Hop&Hnp&[(rp&i&h'&_&_&_&_&_&Heq)|(c&rc&Hbl&Hc&Heq)]).
  - eexists _, _. split; [exact Heq|]. exact (region_release_granted slab h l K D new x rx start n name flags _ _ Ht Hx Hnew Hslab Hstart Heq).
  - destruct (muxed rc flags) eqn:Em; eexists _, _; (split; [exact Heq|]); cbv zeta iota.
    + split; [done|]. by exists p, c, rc.
    + split; [done|]. by exists p, c.
Qed.

Lemma region_roundtrip_witness : exists res s', __request_region (fun _ => true) (Store (ex_heap 0 0) None [Some 7]) (Some 1) 0x120 0x20 [] 0 = Ok (Got res, s') /\ __release_region (fun _ => true) s' (Some 1) 0x120 0x20 = Ok (true, Store (ex_heap 0 0) None []).
Proof.
  destruct (region_roundtrip (fun _ => true) (ex_heap 0 0) [] ex_kids ex_depth 7 1 ex_root 0x120 0x20 [] 0) as (res&s'&Hrun&H); [apply ex_tree; lia|reflexivity|reflexivity|reflexivity|lia|].
  destruct res as [r| |r q]; [exists r, s'; split; [exact Hrun|apply H]|exfalso; vm_compute in Hrun; discriminate Hrun|exfalso; vm_compute in Hrun; discriminate Hrun].
Defined.

(** ** Reserving what is left of a range *)

(** [reserve_region_with_split] always returns with a well formed tree in which
    the children of the root are kept with their ranges. If no allocation fails,
    every address of the range inside the root is then covered by a child of
    the root; one descriptor more than the root has children is enough. *)
Theorem region_reserve_covers slab h K D x rx s e ks name : tree h K D -> h !! x = Some rx -> s <= e -> r_start rx <= r_end rx -> supply slab h ks ->
  exists h' K' D' ks', reserve_region_with_split slab (Store h None ks) (Some x) s e name = Ok (Store h' None ks') /\ tree h' K' D' /\ keeps h K h' K' x /\
    ((forall k, k ∈ ks -> is_Some k) -> (length (K x) < length ks)%nat -> forall a, s <= a <= e -> r_start rx <= a <= r_end rx -> covers h' K' x a).
Proof.
  intros Ht Hx Hse Hrx Hsup. destruct (reserve_clipped_spec slab x name h K D rx s e ks Ht Hx Hse Hrx Hsup) as (h'&K'&D'&ks'&Hrun&Ht'&Hk&Hc). exists h', K', D', ks'. split; [done|]. split; [done|]. split; [done|]. intros Hall Hlen a Ha1 Ha2. apply Hc; [split; [done|lia]|lia].
Qed.

Lemma region_reserve_covers_witness : exists h' K' D' ks', reserve_region_with_split (fun _ => true) (Store (ex_heap 0 0) None [Some 5; Some 6; Some 7]) (Some 1) 0x80 0x5ff [] = Ok (Store h' None ks') /\ tree h' K' D' /\ forall a, 0x80 <= a <= 0x5ff -> covers h' K' 1 a.
Proof.
  destruct (region_reserve_covers (fun _ => true) (ex_heap 0 0) ex_kids ex_depth 1 ex_root 0x80 0x5ff [Some 5; Some 6; Some 7] []) as (h'&K'&D'&ks'&Hrun&Ht&_&Hc); [apply ex_tree; lia|reflexivity|lia|cbn; lia| |].
  - split; [apply (bool_decide_unpack _); vm_compute; exact I|]. intros a Ha. cbn in Ha. split; [|reflexivity]. apply elem_of_cons in Ha as [->|Ha]; [reflexivity|]. apply elem_of_cons in Ha as [->|Ha]; [reflexivity|]. apply list_elem_of_singleton in Ha as ->. reflexivity.
  - exists h', K', D', ks'. split; [exact Hrun|]. split; [exact Ht|]. intros a Ha. apply Hc; [|cbn; lia|lia|cbn; lia]. intros k Hk. apply elem_of_cons in Hk as [->|Hk]; [eauto|]. apply elem_of_cons in Hk as [->|Hk]; [eauto|]. apply list_elem_of_singleton in Hk as ->. eauto.
Defined.

(** A size that wraps the address space is accepted: the resource gets an end below
    its start. *)
Lemma allocate_size_wraps : exists h' r, allocate_resource (ex_heap 0 0) (Some 1) (Some 2) (2 ^ 64 - 0x200) 0x300 0xffff 1 None = Ok (0, h') /\ h' !! 2 = Some r /\ r_end r < r_start r.
Proof. eexists _, _. split; [vm_compute; reflexivity|]. split; [vm_compute; reflexivity|]. vm_compute. reflexivity. Qed.
