(* ===== verification/Rbtree.v ===== *)
(** * Rbtree: red-black trees

    [lib/rbtree.c], [include/linux/rbtree.h] and the inline parts of
    [include/linux/rbtree_augmented.h], with the dummy callbacks of [rb_insert_color]
    and [rb_erase]. A pointer is an address, 0 for NULL; nodes are aligned, and the
    low bit of [__rb_parent_color] is the colour. The nodes are in a store,
    and following a pointer to no node is a fault. Where the code has a branch and
    its mirror image, the model has one branch with the side as an argument. Loops
    have the number of nodes as fuel. *)

From stdpp Require Import gmap.
From S2P Require Import Prelude.

Record rb_node := RbNode { __rb_parent_color : Z; rb_right : Z; rb_left : Z }.

(** The nodes, and the field of [struct rb_root]. *)
Record rb_root := RbRoot { nodes : gmap Z rb_node; root_node : Z }.

Definition RB_RED : Z := 0.
Definition RB_BLACK : Z := 1.

(** ** Access *)

Definition node (s : rb_root) (p : Z) : outcome rb_node := match nodes s !! p with Some n => Ok n | None => Oops end.

Definition update (s : rb_root) (p : Z) (f : rb_node -> rb_node) : outcome rb_root :=
  match nodes s !! p with Some n => Ok (RbRoot (<[p := f n]> (nodes s)) (root_node s)) | None => Oops end.

Definition rounds (s : rb_root) : nat := S (size (nodes s)).

Inductive side := Lft | Rgt.

#[export] Instance side_eq_dec : EqDecision side.
Proof. solve_decision. Defined.

Definition opp (d : side) : side := match d with Lft => Rgt | Rgt => Lft end.

Definition child (d : side) (n : rb_node) : Z := match d with Lft => rb_left n | Rgt => rb_right n end.

Definition set_child (d : side) (v : Z) (n : rb_node) : rb_node :=
  match d with Lft => RbNode (__rb_parent_color n) (rb_right n) v | Rgt => RbNode (__rb_parent_color n) v (rb_left n) end.

Definition set_pc (v : Z) (n : rb_node) : rb_node := RbNode v (rb_right n) (rb_left n).

(** ** Macros and inline functions *)

Definition __rb_parent (pc : Z) : Z := Z.land pc (u64 (Z.lnot 3)).
Definition __rb_color (pc : Z) : Z := Z.land pc 1.
Definition __rb_is_black (pc : Z) : bool := negb (__rb_color pc =? 0).
Definition __rb_is_red (pc : Z) : bool := __rb_color pc =? 0.
Definition rb_parent (r : rb_node) : Z := __rb_parent (__rb_parent_color r).
Definition rb_is_red (rb : rb_node) : bool := __rb_is_red (__rb_parent_color rb).
Definition rb_is_black (rb : rb_node) : bool := __rb_is_black (__rb_parent_color rb).
Definition rb_red_parent (red : rb_node) : Z := __rb_parent_color red.

Definition RB_ROOT (mem : gmap Z rb_node) : rb_root := RbRoot mem 0.
Definition RB_EMPTY_ROOT (s : rb_root) : bool := root_node s =? 0.
Definition RB_EMPTY_NODE (p : Z) (n : rb_node) : bool := __rb_parent_color n =? p.
Definition RB_CLEAR_NODE (s : rb_root) (p : Z) : outcome rb_root := update s p (set_pc p).

Definition rb_set_black (s : rb_root) (rb : Z) : outcome rb_root := update s rb (fun n => set_pc (Z.lor (__rb_parent_color n) RB_BLACK) n).
Definition rb_set_parent (s : rb_root) (rb p : Z) : outcome rb_root := update s rb (fun n => set_pc (Z.lor (__rb_color (__rb_parent_color n)) p) n).
Definition rb_set_parent_color (s : rb_root) (rb p color : Z) : outcome rb_root := update s rb (set_pc (Z.lor p color)).

(** [if (tmp) rb_set_parent_color(tmp, ...)] *)
Definition set_parent_color_if (s : rb_root) (rb p color : Z) : outcome rb_root := if rb =? 0 then Ok s else rb_set_parent_color s rb p color.

Definition __rb_change_child (s : rb_root) (old new parent : Z) : outcome rb_root :=
  if parent =? 0 then Ok (RbRoot (nodes s) new)
  else
    let* p := node s parent in
    if rb_left p =? old then update s parent (set_child Lft new) else update s parent (set_child Rgt new).

Definition __rb_rotate_set_parents (s : rb_root) (old new color : Z) : outcome rb_root :=
  let* o := node s old in
  let parent := rb_parent o in
  let* s := update s new (set_pc (__rb_parent_color o)) in
  let* s := rb_set_parent_color s old new color in
  __rb_change_child s old new parent.

(** The slot to which [rb_link] points: the root or a child. *)
Definition store_link (s : rb_root) (parent : Z) (d : side) (v : Z) : outcome rb_root :=
  if parent =? 0 then Ok (RbRoot (nodes s) v) else update s parent (set_child d v).

Definition rb_link_node (s : rb_root) (n parent : Z) (d : side) : outcome rb_root :=
  let* s := update s n (fun _ => RbNode parent 0 0) in
  store_link s parent d n.

(** ** Insertion *)

(** [tmp && rb_is_red(tmp)] *)
Definition is_red_at (s : rb_root) (p : Z) : outcome bool := if p =? 0 then Ok false else let* n := node s p in Ok (rb_is_red n).

(** Cases 2 and 3, with [parent] on the side [d] of [gparent]. *)
Definition insert_rotate (s : rb_root) (d : side) (nd parent gparent : Z) : outcome rb_root :=
  let* p := node s parent in
  let tmp := child (opp d) p in
  let* (s, parent, tmp) :=
    (if nd =? tmp then
       let* n := node s nd in
       let tmp := child d n in
       let* s := update s parent (set_child (opp d) tmp) in
       let* s := update s nd (set_child d parent) in
       let* s := set_parent_color_if s tmp parent RB_BLACK in
       let* s := rb_set_parent_color s parent nd RB_RED in
       let* n := node s nd in
       Ok (s, nd, child (opp d) n)
     else Ok (s, parent, tmp)) in
  let* s := update s gparent (set_child d tmp) in
  let* s := update s parent (set_child (opp d) gparent) in
  let* s := set_parent_color_if s tmp gparent RB_BLACK in
  __rb_rotate_set_parents s gparent parent RB_RED.

Fixpoint insert_loop (fuel : nat) (s : rb_root) (nd parent : Z) : outcome rb_root :=
  match fuel with
  | O => NoFuel
  | S fuel =>
    if parent =? 0 then rb_set_parent_color s nd 0 RB_BLACK
    else
      let* p := node s parent in
      if rb_is_black p then Ok s
      else
        let gparent := rb_red_parent p in
        let* g := node s gparent in
        let d := if parent =? rb_right g then Rgt else Lft in
        let tmp := child (opp d) g in
        let* red := is_red_at s tmp in
        if red : bool then
          let* s := rb_set_parent_color s tmp gparent RB_BLACK in
          let* s := rb_set_parent_color s parent gparent RB_BLACK in
          let nd := gparent in
          let* n := node s nd in
          let parent := rb_parent n in
          let* s := rb_set_parent_color s nd parent RB_RED in
          insert_loop fuel s nd parent
        else insert_rotate s d nd parent gparent
  end.

Definition __rb_insert (s : rb_root) (nd : Z) : outcome rb_root :=
  let* n := node s nd in
  insert_loop (rounds s) s nd (rb_red_parent n).

Definition rb_insert_color (s : rb_root) (nd : Z) : outcome rb_root := __rb_insert s nd.

(** ** Erasure *)

(** [!tmp || rb_is_black(tmp)] *)
Definition is_black_at (s : rb_root) (p : Z) : outcome bool := if p =? 0 then Ok true else let* n := node s p in Ok (rb_is_black n).

(** Case 1: the sibling is red. Returns the new sibling. *)
Definition erase_case1 (s : rb_root) (d : side) (parent sibling : Z) : outcome (rb_root * Z) :=
  let* sb := node s sibling in
  let tmp1 := child d sb in
  let* s := update s parent (set_child (opp d) tmp1) in
  let* s := update s sibling (set_child d parent) in
  let* s := rb_set_parent_color s tmp1 parent RB_BLACK in
  let* s := __rb_rotate_set_parents s parent sibling RB_RED in
  Ok (s, tmp1).

(** Case 3: rotate at the sibling. Returns [tmp1] and the new sibling. *)
Definition erase_case3 (s : rb_root) (d : side) (parent sibling tmp2 : Z) : outcome (rb_root * Z * Z) :=
  let* t2 := node s tmp2 in
  let tmp1 := child (opp d) t2 in
  let* s := update s sibling (set_child d tmp1) in
  let* s := update s tmp2 (set_child (opp d) sibling) in
  let* s := update s parent (set_child (opp d) tmp2) in
  let* s := set_parent_color_if s tmp1 sibling RB_BLACK in
  Ok (s, sibling, tmp2).

(** Case 4: rotate at the parent. *)
Definition erase_case4 (s : rb_root) (d : side) (parent sibling tmp1 : Z) : outcome rb_root :=
  let* sb := node s sibling in
  let tmp2 := child d sb in
  let* s := update s parent (set_child (opp d) tmp2) in
  let* s := update s sibling (set_child d parent) in
  let* s := rb_set_parent_color s tmp1 sibling RB_BLACK in
  let* s := (if tmp2 =? 0 then Ok s else rb_set_parent s tmp2 parent) in
  __rb_rotate_set_parents s parent sibling RB_BLACK.

(** The loop body after case 1; [continue] is the next round. *)
Definition erase_step (continue : rb_root -> Z -> Z -> outcome rb_root) (s : rb_root) (d : side) (parent sibling : Z) : outcome rb_root :=
  let* sb := node s sibling in
  let tmp1 := child (opp d) sb in
  let* black1 := is_black_at s tmp1 in
  if black1 : bool then
    let tmp2 := child d sb in
    let* black2 := is_black_at s tmp2 in
    if black2 : bool then
      let* s := rb_set_parent_color s sibling parent RB_RED in
      let* p := node s parent in
      if rb_is_red p then rb_set_black s parent
      else
        let nd := parent in
        let parent := rb_parent p in
        if negb (parent =? 0) then continue s nd parent else Ok s
    else
      let* (s, tmp1, sibling) := erase_case3 s d parent sibling tmp2 in
      erase_case4 s d parent sibling tmp1
  else erase_case4 s d parent sibling tmp1.

Fixpoint erase_loop (fuel : nat) (s : rb_root) (nd parent : Z) : outcome rb_root :=
  match fuel with
  | O => NoFuel
  | S fuel =>
    let* p := node s parent in
    let d := if nd =? rb_right p then Rgt else Lft in
    let sibling := child (opp d) p in
    let* sb := node s sibling in
    let* (s, sibling) := (if rb_is_red sb then erase_case1 s d parent sibling else Ok (s, sibling)) in
    erase_step (erase_loop fuel) s d parent sibling
  end.

Definition ____rb_erase_color (s : rb_root) (parent : Z) : outcome rb_root := erase_loop (rounds s) s 0 parent.

(** [do { parent = successor; successor = tmp; tmp = tmp->rb_left; } while (tmp)] *)
Fixpoint successor_loop (fuel : nat) (s : rb_root) (successor tmp : Z) : outcome (Z * Z) :=
  match fuel with
  | O => NoFuel
  | S fuel =>
    let parent := successor in
    let successor := tmp in
    let* t := node s tmp in
    if rb_left t =? 0 then Ok (parent, successor) else successor_loop fuel s successor (rb_left t)
  end.

(** The successor of a node with two children, unlinked in case 3; with its parent
    and its right child. *)
Definition take_successor (s : rb_root) (child_ : Z) : outcome (rb_root * Z * Z * Z) :=
  let* c := node s child_ in
  if rb_left c =? 0 then Ok (s, child_, child_, rb_right c)
  else
    let* (parent, successor) := successor_loop (rounds s) s child_ (rb_left c) in
    let* sc := node s successor in
    let child2 := rb_right sc in
    let* s := update s parent (set_child Lft child2) in
    let* s := update s successor (set_child Rgt child_) in
    let* s := rb_set_parent s child_ successor in
    Ok (s, parent, successor, child2).

(** Returns the parent at which to rebalance, or NULL. *)
Definition __rb_erase_augmented (s : rb_root) (nd : Z) : outcome (rb_root * Z) :=
  let* n := node s nd in
  let child_ := rb_right n in
  let tmp := rb_left n in
  if tmp =? 0 then
    let pc := __rb_parent_color n in
    let parent := __rb_parent pc in
    let* s := __rb_change_child s nd child_ parent in
    if negb (child_ =? 0) then
      let* s := update s child_ (set_pc pc) in
      Ok (s, 0)
    else Ok (s, if __rb_is_black pc then parent else 0)
  else if child_ =? 0 then
    let pc := __rb_parent_color n in
    let* s := update s tmp (set_pc pc) in
    let parent := __rb_parent pc in
    let* s := __rb_change_child s nd tmp parent in
    Ok (s, 0)
  else
    let* (s, parent, successor, child2) := take_successor s child_ in
    let* n := node s nd in
    let tmp := rb_left n in
    let* s := update s successor (set_child Lft tmp) in
    let* s := rb_set_parent s tmp successor in
    let* n := node s nd in
    let pc := __rb_parent_color n in
    let tmp := __rb_parent pc in
    let* s := __rb_change_child s nd successor tmp in
    if negb (child2 =? 0) then
      let* s := update s successor (set_pc pc) in
      let* s := rb_set_parent_color s child2 parent RB_BLACK in
      Ok (s, 0)
    else
      let* sc := node s successor in
      let pc2 := __rb_parent_color sc in
      let* s := update s successor (set_pc pc) in
      Ok (s, if __rb_is_black pc2 then parent else 0).

Definition rb_erase (s : rb_root) (nd : Z) : outcome rb_root :=
  let* (s, rebalance) := __rb_erase_augmented s nd in
  if negb (rebalance =? 0) then ____rb_erase_color s rebalance else Ok s.

(** ** Walking *)

(** [while (n->rb_left) n = n->rb_left] *)
Fixpoint descend (fuel : nat) (s : rb_root) (d : side) (n : Z) : outcome Z :=
  match fuel with
  | O => NoFuel
  | S fuel =>
    let* x := node s n in
    if child d x =? 0 then Ok n else descend fuel s d (child d x)
  end.

Definition rb_end (d : side) (s : rb_root) : outcome Z := if root_node s =? 0 then Ok 0 else descend (rounds s) s d (root_node s).
Definition rb_first (s : rb_root) : outcome Z := rb_end Lft s.
Definition rb_last (s : rb_root) : outcome Z := rb_end Rgt s.

(** [while ((parent = rb_parent(node)) && node == parent->rb_right) node = parent] *)
Fixpoint ascend (fuel : nat) (s : rb_root) (d : side) (nd : Z) : outcome Z :=
  match fuel with
  | O => NoFuel
  | S fuel =>
    let* n := node s nd in
    let parent := rb_parent n in
    if parent =? 0 then Ok 0
    else
      let* p := node s parent in
      if nd =? child d p then ascend fuel s d parent else Ok parent
  end.

(** The neighbour on the side [d]. *)
Definition rb_step (d : side) (s : rb_root) (nd : Z) : outcome Z :=
  let* n := node s nd in
  if RB_EMPTY_NODE nd n then Ok 0
  else if negb (child d n =? 0) then descend (rounds s) s (opp d) (child d n)
  else ascend (rounds s) s d nd.

Definition rb_next (s : rb_root) (nd : Z) : outcome Z := rb_step Rgt s nd.
Definition rb_prev (s : rb_root) (nd : Z) : outcome Z := rb_step Lft s nd.

Fixpoint left_deepest (fuel : nat) (s : rb_root) (nd : Z) : outcome Z :=
  match fuel with
  | O => NoFuel
  | S fuel =>
    let* n := node s nd in
    if negb (rb_left n =? 0) then left_deepest fuel s (rb_left n)
    else if negb (rb_right n =? 0) then left_deepest fuel s (rb_right n)
    else Ok nd
  end.

Definition rb_left_deepest_node (s : rb_root) (nd : Z) : outcome Z := left_deepest (rounds s) s nd.

Definition rb_next_postorder (s : rb_root) (nd : Z) : outcome Z :=
  if nd =? 0 then Ok 0
  else
    let* n := node s nd in
    let parent := rb_parent n in
    if parent =? 0 then Ok 0
    else
      let* p := node s parent in
      if (nd =? rb_left p) && negb (rb_right p =? 0) then rb_left_deepest_node s (rb_right p) else Ok parent.

Definition rb_first_postorder (s : rb_root) : outcome Z := if root_node s =? 0 then Ok 0 else rb_left_deepest_node s (root_node s).

(** ** Searching *)

(** The loop with which users find the place of a new node:
    [while ( *p ) { parent = *p; if (...) p = &parent->rb_left; else p = &parent->rb_right; }].
    The slot [p] is on the side [d] of [parent] and holds [cur]. *)
Fixpoint seek (fuel : nat) (s : rb_root) (cmp : Z -> outcome side) (cur parent : Z) (d : side) : outcome (Z * side) :=
  match fuel with
  | O => NoFuel
  | S fuel =>
    if cur =? 0 then Ok (parent, d)
    else
      let* d := cmp cur in
      let* n := node s cur in
      seek fuel s cmp (child d n) cur d
  end.

(** The loop [while (n) { if (...) n = n->rb_left; else if (...) n = n->rb_right; else break; }]
    with which users look for a node; [visit] also updates the other variables. *)
Fixpoint search {A : Type} (fuel : nat) (s : rb_root) (visit : A -> Z -> outcome (A * option side)) (acc : A) (n : Z) : outcome (A * Z) :=
  match fuel with
  | O => NoFuel
  | S fuel =>
    if n =? 0 then Ok (acc, 0)
    else
      let* (acc, d) := visit acc n in
      match d with
      | None => Ok (acc, n)
      | Some d =>
        let* x := node s n in
        search fuel s visit acc (child d x)
      end
  end.

(** ** Replacing *)

Definition rb_replace_node (s : rb_root) (victim new : Z) : outcome rb_root :=
  let* v := node s victim in
  let parent := rb_parent v in
  let* s := __rb_change_child s victim new parent in
  let* v := node s victim in
  let* s := (if negb (rb_left v =? 0) then rb_set_parent s (rb_left v) new else Ok s) in
  let* v := node s victim in
  let* s := (if negb (rb_right v =? 0) then rb_set_parent s (rb_right v) new else Ok s) in
  let* v := node s victim in
  update s new (fun _ => v).
