(* ===== verification/RbtreeFacts.v ===== *)
(** * RbtreeFacts: the tree a store represents *)

From stdpp Require Import gmap.
From S2P Require Import Prelude Rbtree.

(** ** Addresses and colours *)

Inductive color := Red | Black.

Definition bit (c : color) : Z := match c with Red => RB_RED | Black => RB_BLACK end.

(** An address of an aligned object. *)
Definition valid (x : Z) : Prop := 0 < x < 2 ^ 64 /\ x mod 4 = 0.
Definition pointer (x : Z) : Prop := x = 0 \/ valid x.

Lemma pointer_low x i : pointer x -> 0 <= i < 2 -> Z.testbit x i = false.
Proof.
  intros Hx Hi. assert (Hm : x mod 4 = 0) by (destruct Hx as [->|[_ Hx]]; [done|exact Hx]). apply Z.mod_divide in Hm as [k ->]; [|lia]. change 4 with (2 ^ 2). rewrite Z.mul_pow2_bits_low by lia. done.
Qed.

Lemma pointer_range x : pointer x -> 0 <= x < 2 ^ 64.
Proof. intros [->|[H _]]; lia. Qed.

Lemma bit_high c i : 1 <= i -> Z.testbit (bit c) i = false.
Proof. intros Hi. destruct c; cbn [bit]; unfold RB_RED, RB_BLACK; [apply Z.bits_0|]. change 1 with (2 ^ 0). rewrite Z.pow2_bits_eqb by lia. lia. Qed.

Lemma pc_parent p c : pointer p -> __rb_parent (Z.lor p (bit c)) = p.
Proof.
  intros Hp. unfold __rb_parent. pose proof (pointer_range p Hp) as Hr. apply Z.bits_inj'. intros i Hi. rewrite Z.land_spec, Z.lor_spec. unfold wrap. rewrite Z.testbit_mod_pow2 by lia. rewrite Z.lnot_spec by lia.
  destruct (decide (i < 2)) as [Hlt|Hge].
  - rewrite (pointer_low p i Hp) by lia. assert (Z.testbit 3 i = true) as -> by (assert (i = 0 \/ i = 1) as [->| ->] by lia; done). by rewrite andb_false_r, andb_false_r.
  - rewrite bit_high by lia. rewrite orb_false_r. assert (Z.testbit 3 i = false) as -> by (change 3 with (Z.ones 2); rewrite Z.testbit_ones_nonneg by lia; lia). destruct (decide (i < 64)) as [H64|H64]; [replace (i <? 64) with true by lia; by rewrite !andb_true_r|].
    replace (i <? 64) with false by lia. rewrite andb_false_r. symmetry. apply (Z.bits_above_log2 p i); [lia|]. destruct (decide (p = 0)) as [->|]; [simpl; lia|]. apply Z.log2_lt_pow2; [lia|]. pose proof (Z.pow_le_mono_r 2 64 i). lia.
Qed.

Lemma pc_color p c : pointer p -> __rb_color (Z.lor p (bit c)) = bit c.
Proof.
  intros Hp. unfold __rb_color. apply Z.bits_inj'. intros i Hi. rewrite Z.land_spec, Z.lor_spec. destruct (decide (i = 0)) as [->|Hne].
  - rewrite (pointer_low p 0 Hp) by lia. simpl. by rewrite andb_true_r.
  - rewrite bit_high by lia. change 1 with (2 ^ 0). rewrite Z.pow2_bits_eqb by lia. replace (0 =? i) with false by lia. by rewrite andb_false_r.
Qed.

Lemma pc_red p : Z.lor p (bit Red) = p.
Proof. apply Z.lor_0_r. Qed.

(** The fields of a node. *)
Definition isblack (c : color) : bool := match c with Red => false | Black => true end.

Definition mk (d : side) (p : Z) (c : color) (a b : Z) : rb_node :=
  match d with Lft => RbNode (Z.lor p (bit c)) b a | Rgt => RbNode (Z.lor p (bit c)) a b end.

Lemma mk_opp d p c a b : mk (opp d) p c a b = mk d p c b a.
Proof. by destruct d. Qed.

Lemma child_mk d p c a b : child d (mk d p c a b) = a.
Proof. by destruct d. Qed.

Lemma child_opp_mk d p c a b : child (opp d) (mk d p c a b) = b.
Proof. by destruct d. Qed.

Lemma set_child_mk d p c a b v : set_child d v (mk d p c a b) = mk d p c v b.
Proof. by destruct d. Qed.

Lemma set_child_opp_mk d p c a b v : set_child (opp d) v (mk d p c a b) = mk d p c a v.
Proof. by destruct d. Qed.

Lemma set_pc_mk d p c a b p' c' : set_pc (Z.lor p' (bit c')) (mk d p c a b) = mk d p' c' a b.
Proof. by destruct d. Qed.

Lemma parent_mk d p c a b : pointer p -> rb_parent (mk d p c a b) = p.
Proof. intros Hp. unfold rb_parent. destruct d; cbn [mk __rb_parent_color]; by apply pc_parent. Qed.

Lemma red_parent_mk d p a b : rb_red_parent (mk d p Red a b) = p.
Proof. unfold rb_red_parent. destruct d; cbn [mk __rb_parent_color]; by apply pc_red. Qed.

Lemma is_red_mk d p c a b : pointer p -> rb_is_red (mk d p c a b) = negb (isblack c).
Proof. intros Hp. unfold rb_is_red, __rb_is_red. destruct d; cbn [mk __rb_parent_color]; rewrite pc_color by done; by destruct c. Qed.

Lemma is_black_mk d p c a b : pointer p -> rb_is_black (mk d p c a b) = isblack c.
Proof. intros Hp. unfold rb_is_black, __rb_is_black. destruct d; cbn [mk __rb_parent_color]; rewrite pc_color by done; by destruct c. Qed.

Lemma set_parent_mk d p c a b p' : pointer p -> set_pc (Z.lor (__rb_color (__rb_parent_color (mk d p c a b))) p') (mk d p c a b) = mk d p' c a b.
Proof. intros Hp. assert (__rb_color (__rb_parent_color (mk d p c a b)) = bit c) as -> by (destruct d; cbn [mk __rb_parent_color]; by apply pc_color). rewrite Z.lor_comm. by destruct d. Qed.

Lemma pc_mk d p c a b : __rb_parent_color (mk d p c a b) = Z.lor p (bit c).
Proof. by destruct d. Qed.

Lemma set_black_mk d p c a b : set_pc (Z.lor (__rb_parent_color (mk d p c a b)) RB_BLACK) (mk d p c a b) = mk d p Black a b.
Proof. rewrite pc_mk, <- Z.lor_assoc. assert (Z.lor (bit c) RB_BLACK = bit Black) as -> by (by destruct c). by destruct d. Qed.

(** ** Trees and contexts *)

Inductive tree := E | T (c : color) (l : tree) (x : Z) (r : tree).

(** A node whose subtree on the side [d] is [a]. *)
Definition N (d : side) (c : color) (a : tree) (x : Z) (b : tree) : tree := match d with Lft => T c a x b | Rgt => T c b x a end.

Definition root (t : tree) : Z := match t with E => 0 | T _ _ x _ => x end.
Definition hue (t : tree) : color := match t with E => Black | T c _ _ _ => c end.

Fixpoint elements (t : tree) : list Z := match t with E => [] | T _ l x r => elements l ++ x :: elements r end.

Fixpoint keys (t : tree) : gset Z := match t with E => ∅ | T _ l x r => {[x]} ∪ (keys l ∪ keys r) end.

Fixpoint uniq (t : tree) : Prop := match t with E => True | T _ l x r => valid x /\ x ∉ keys l /\ x ∉ keys r /\ keys l ## keys r /\ uniq l /\ uniq r end.

(** The nodes of [t], below [p]. *)
Fixpoint rep (h : gmap Z rb_node) (p : Z) (t : tree) : Prop :=
  match t with E => True | T c l x r => h !! x = Some (mk Lft p c (root l) (root r)) /\ rep h x l /\ rep h x r end.

(** What surrounds a subtree, from the inside out: it is on the side [d] of [x]. *)
Inductive frame := Fr (d : side) (c : color) (x : Z) (sib : tree).

Fixpoint plug (k : list frame) (t : tree) : tree := match k with [] => t | Fr d c x sib :: k => plug k (N d c t x sib) end.

Definition up (k : list frame) : Z := match k with [] => 0 | Fr _ _ x _ :: _ => x end.

Fixpoint ckeys (k : list frame) : gset Z := match k with [] => ∅ | Fr _ _ x sib :: k => {[x]} ∪ (keys sib ∪ ckeys k) end.

Fixpoint uniqc (k : list frame) : Prop := match k with [] => True | Fr _ _ x sib :: k => valid x /\ x ∉ keys sib /\ x ∉ ckeys k /\ keys sib ## ckeys k /\ uniq sib /\ uniqc k end.

Fixpoint repc (h : gmap Z rb_node) (rt : Z) (k : list frame) (hole : Z) : Prop :=
  match k with [] => rt = hole | Fr d c x sib :: k => h !! x = Some (mk d (up k) c hole (root sib)) /\ rep h x sib /\ repc h rt k x end.

(** The store represents the tree, seen from the subtree [t] in the context [k]. *)
Definition zip (s : rb_root) (k : list frame) (t : tree) : Prop :=
  rep (nodes s) (up k) t /\ repc (nodes s) (root_node s) k (root t) /\ uniq t /\ uniqc k /\ keys t ## ckeys k.

Definition represents (s : rb_root) (t : tree) : Prop := zip s [] t.

Lemma root_N d c a x b : root (N d c a x b) = x.
Proof. by destruct d. Qed.

Lemma hue_N d c a x b : hue (N d c a x b) = c.
Proof. by destruct d. Qed.

Lemma keys_N d c a x b : keys (N d c a x b) = {[x]} ∪ (keys a ∪ keys b).
Proof. destruct d; simpl; [done|]. f_equal. apply (comm_L _). Qed.

Lemma uniq_N d c a x b : uniq (N d c a x b) <-> valid x /\ x ∉ keys a /\ x ∉ keys b /\ keys a ## keys b /\ uniq a /\ uniq b.
Proof. destruct d; simpl; [done|]. split; intros (H1&H2&H3&H4&H5&H6); (split; [done|]; split; [done|]; split; [done|]; split; [by symmetry|]; done). Qed.

Lemma rep_N h p d c a x b : rep h p (N d c a x b) <-> h !! x = Some (mk d p c (root a) (root b)) /\ rep h x a /\ rep h x b.
Proof. destruct d; simpl; tauto. Qed.

Lemma root_in t : t <> E -> root t ∈ keys t.
Proof. destruct t; [done|]. simpl. set_solver. Qed.

Lemma root_E t : uniq t -> (root t =? 0) = match t with E => true | T _ _ _ _ => false end.
Proof. destruct t as [|c l x r]; [done|]. simpl. intros (((H&_)&_)&_). lia. Qed.

Lemma keys_valid t x : uniq t -> x ∈ keys t -> valid x.
Proof. induction t as [|c l IHl y r IHr]; simpl; [set_solver|]. intros (Hv&_&_&_&Hl&Hr) Hx. apply elem_of_union in Hx as [Hx|Hx]; [apply elem_of_singleton in Hx; by subst|]. apply elem_of_union in Hx as [Hx|Hx]; auto. Qed.

Lemma root_pointer t : uniq t -> pointer (root t).
Proof. destruct t; simpl; [by left|]. intros (H&_). by right. Qed.

Lemma up_pointer k : uniqc k -> pointer (up k).
Proof. destruct k as [|[d c x sib] k]; simpl; [by left|]. intros (H&_). by right. Qed.

(** A store that agrees on the nodes of the subtree represents it as well. *)
Lemma rep_frame h h' p t : (forall z, z ∈ keys t -> h' !! z = h !! z) -> rep h p t -> rep h' p t.
Proof.
  revert p. induction t as [|c l IHl x r IHr]; intros p Heq; [done|]. simpl in *. intros (H1&H2&H3). split; [rewrite Heq by set_solver; done|]. split; [apply IHl|apply IHr]; try done; intros z Hz; apply Heq; set_solver.
Qed.

Lemma repc_frame h h' rt k hole : (forall z, z ∈ ckeys k -> h' !! z = h !! z) -> repc h rt k hole -> repc h' rt k hole.
Proof.
  revert hole. induction k as [|[d c x sib] k IH]; intros hole Heq; [done|]. simpl in *. intros (H1&H2&H3). split; [rewrite Heq by set_solver; done|]. split; [eapply rep_frame; [|done]; intros z Hz; apply Heq; set_solver|]. apply IH; [|done]. intros z Hz. apply Heq. set_solver.
Qed.

(** Moving the focus. *)
Lemma zip_up s d c x sib k t : zip s (Fr d c x sib :: k) t <-> zip s k (N d c t x sib).
Proof.
  unfold zip. simpl. rewrite rep_N, root_N, uniq_N, keys_N. split.
  - intros (H1&(H2&H3&H4)&H5&(H6&H7&H8&H9&H10&H11)&H12). split; [done|]. split; [done|]. split; [|split; [done|set_solver]]. split; [done|]. split; [set_solver|]. split; [done|]. split; [set_solver|done].
  - intros ((H1&H2&H3)&H4&(H5&H6&H7&H8&H9&H10)&H11&H12). split; [done|]. split; [done|]. split; [done|]. split; [|set_solver]. split; [done|]. split; [done|]. split; [set_solver|]. split; [set_solver|done].
Qed.

Lemma zip_plug s k t : zip s k t <-> represents s (plug k t).
Proof. revert t. induction k as [|[d c x sib] k IH]; intros t; [done|]. simpl. rewrite zip_up. apply IH. Qed.

(** ** The loops have enough fuel *)

Lemma rep_dom h p t : rep h p t -> keys t ⊆ dom h.
Proof. revert p. induction t as [|c l IHl x r IHr]; intros p; simpl; [set_solver|]. intros (H1&H2&H3). apply elem_of_dom_2 in H1. pose proof (IHl _ H2). pose proof (IHr _ H3). set_solver. Qed.

Lemma repc_dom h rt k hole : repc h rt k hole -> ckeys k ⊆ dom h.
Proof. revert hole. induction k as [|[d c x sib] k IH]; intros hole; simpl; [set_solver|]. intros (H1&H2&H3). apply elem_of_dom_2 in H1. pose proof (rep_dom _ _ _ H2). pose proof (IH _ H3). set_solver. Qed.

Lemma size_add (x : Z) (A B : gset Z) : x ∉ A -> x ∉ B -> (S (size B) <= size ({[x]} ∪ (A ∪ B)))%nat.
Proof. intros Ha Hb. rewrite size_union by set_solver. rewrite size_singleton. assert (B ⊆ A ∪ B) as Hsub by set_solver. apply subseteq_size in Hsub. lia. Qed.

Lemma context_size k : uniqc k -> (length k <= size (ckeys k))%nat.
Proof. induction k as [|[d c x sib] k IH]; simpl; [lia|]. intros (_&H1&H2&_&_&H3). pose proof (size_add x (keys sib) (ckeys k) H1 H2). pose proof (IH H3). lia. Qed.

Lemma zip_fuel s k t : zip s k t -> (length k <= size (nodes s))%nat.
Proof. intros (_&Hc&_&Hu&_). pose proof (context_size k Hu). apply repc_dom, subseteq_size in Hc. rewrite size_dom in Hc. lia. Qed.

(** ** Running the operations *)

Lemma node_Ok s x n : nodes s !! x = Some n -> node s x = Ok n.
Proof. intros Hx. unfold node. by rewrite Hx. Qed.

Lemma update_Ok s x n f : nodes s !! x = Some n -> update s x f = Ok (RbRoot (<[x := f n]> (nodes s)) (root_node s)).
Proof. intros Hx. unfold update. by rewrite Hx. Qed.

Lemma change_child_spec s k old new : repc (nodes s) (root_node s) k old -> uniqc k -> valid old -> old ∉ ckeys k ->
  exists s', __rb_change_child s old new (up k) = Ok s' /\ repc (nodes s') (root_node s') k new /\ forall z, z ∉ ckeys k -> nodes s' !! z = nodes s !! z.
Proof.
  intros Hr Hu Hv Hout. unfold __rb_change_child. destruct k as [|[d c x sib] k]; simpl in *.
  - eexists. split; [done|]. done.
  - destruct Hr as (Hx&Hsib&Hk). destruct Hu as (Hvx&Hx1&Hx2&Hd&Hus&Huk). replace (x =? 0) with false by (destruct Hvx; lia). rewrite (node_Ok _ _ _ Hx). cbn [obind].
    assert (Hrun : (if rb_left (mk d (up k) c old (root sib)) =? old then update s x (set_child Lft new) else update s x (set_child Rgt new)) = Ok (RbRoot (<[x := mk d (up k) c new (root sib)]> (nodes s)) (root_node s))).
    { destruct d; cbn [mk rb_left].
      - rewrite Z.eqb_refl, (update_Ok _ _ _ _ Hx). done.
      - replace (root sib =? old) with false; [by rewrite (update_Ok _ _ _ _ Hx)|]. symmetry. apply Z.eqb_neq. intros <-. destruct sib as [|c' l y r]; [simpl in Hv; destruct Hv; lia|]. apply Hout. simpl. set_solver. }
    rewrite Hrun. eexists. split; [done|]. cbn [nodes root_node]. split; [|intros z Hz; rewrite lookup_insert_ne by set_solver; done].
    split; [by rewrite lookup_insert_eq|]. split; [eapply rep_frame; [|done]; intros z Hz; rewrite lookup_insert_ne by set_solver; done|]. eapply repc_frame; [|done]. intros z Hz. rewrite lookup_insert_ne by set_solver. done.
Qed.

(** A subtree gets a new parent. *)
Definition paint (c : color) (t : tree) : tree := match t with E => E | T _ l x r => T c l x r end.

Lemma root_paint c t : root (paint c t) = root t.
Proof. by destruct t. Qed.

Lemma keys_paint c t : keys (paint c t) = keys t.
Proof. by destruct t. Qed.

Lemma uniq_paint c t : uniq (paint c t) <-> uniq t.
Proof. by destruct t. Qed.

Lemma paint_hue t : paint (hue t) t = t.
Proof. by destruct t. Qed.

Lemma elements_paint c t : elements (paint c t) = elements t.
Proof. by destruct t. Qed.

(** [s'] is [s] with changes to the nodes in [X] only. *)
Definition touches (X : gset Z) (s s' : rb_root) : Prop := root_node s' = root_node s /\ forall z, z ∉ X -> nodes s' !! z = nodes s !! z.

Lemma touches_trans X Y s s' s'' : touches X s s' -> touches Y s' s'' -> touches (X ∪ Y) s s''.
Proof. intros (H1&H2) (H3&H4). split; [congruence|]. intros z Hz. rewrite H4, H2 by set_solver. done. Qed.

Lemma update_root s p q c l x r p' c' : rep (nodes s) q (T c l x r) -> uniq (T c l x r) -> p = x -> exists s', update s p (set_pc (Z.lor p' (bit c'))) = Ok s' /\ rep (nodes s') p' (T c' l x r) /\ touches {[x]} s s'.
Proof.
  intros (Hx&Hl&Hr) (Hv&Hxl&Hxr&_) ->. rewrite (update_Ok _ _ _ _ Hx). eexists. split; [done|]. cbn [nodes rep]. rewrite set_pc_mk. split; [|split; [done|]; intros z Hz; cbn [nodes]; rewrite lookup_insert_ne by set_solver; done].
  split; [by rewrite lookup_insert_eq|]. split; (eapply rep_frame; [|done]; intros z Hz; rewrite lookup_insert_ne by set_solver; done).
Qed.

Lemma set_parent_color_spec s q t p c : rep (nodes s) q t -> uniq t -> t <> E -> exists s', rb_set_parent_color s (root t) p (bit c) = Ok s' /\ rep (nodes s') p (paint c t) /\ touches (keys t) s s'.
Proof.
  intros Hr Hu Hne. destruct t as [|c0 l x r]; [done|]. destruct (update_root s x q c0 l x r p c Hr Hu eq_refl) as (s'&Hrun&Hr'&Ht). exists s'. split; [exact Hrun|]. split; [exact Hr'|]. destruct Ht as (H1&H2). split; [done|]. intros z Hz. apply H2. simpl in Hz. set_solver.
Qed.

Lemma set_parent_color_if_spec s q t p c : rep (nodes s) q t -> uniq t -> exists s', set_parent_color_if s (root t) p (bit c) = Ok s' /\ rep (nodes s') p (paint c t) /\ touches (keys t) s s'.
Proof.
  intros Hr Hu. unfold set_parent_color_if. rewrite root_E by done. destruct t as [|c0 l x r]; [exists s; split; [done|]; split; [done|]; by split|]. by eapply set_parent_color_spec.
Qed.

Lemma set_parent_if_spec s q t p : rep (nodes s) q t -> uniq t -> pointer q -> exists s', (if root t =? 0 then Ok s else rb_set_parent s (root t) p) = Ok s' /\ rep (nodes s') p t /\ touches (keys t) s s'.
Proof.
  intros Hr Hu Hq. rewrite root_E by done. destruct t as [|c0 l x r]; [exists s; split; [done|]; split; [done|]; by split|]. pose proof Hr as (Hx&_). destruct (update_root s x q c0 l x r p c0 Hr Hu eq_refl) as (s'&Hrun&Hr'&Ht). exists s'.
  split; [|split; [done|]; destruct Ht as (H1&H2); split; [done|]; intros z Hz; apply H2; simpl in Hz; set_solver]. rewrite <- Hrun. unfold rb_set_parent. simpl. rewrite !(update_Ok _ _ _ _ Hx). by rewrite set_parent_mk, set_pc_mk.
Qed.

(** Goals about sets of addresses: facts and goals are split into those about
    single addresses and subtrees. *)
Ltac atoms :=
  repeat match goal with
         | H : _ ∪ _ ## _ |- _ => apply disjoint_union_l in H as [? ?]
         | H : _ ## _ ∪ _ |- _ => apply disjoint_union_r in H as [? ?]
         | H : {[_]} ## _ |- _ => apply disjoint_singleton_l in H
         | H : _ ## {[_]} |- _ => apply disjoint_singleton_r in H
         | H : _ ∉ _ ∪ _ |- _ => apply not_elem_of_union in H as [? ?]
         | H : _ ∉ {[_]} |- _ => apply not_elem_of_singleton in H
         | H : _ ∈ _ ∪ _ |- _ => apply elem_of_union in H as [H|H]
         | H : _ ∈ {[_]} |- _ => apply elem_of_singleton in H; subst
         end.

Ltac atom :=
  match goal with
  | H : ?P |- ?P => exact H
  | H : ?x <> ?y |- ?y <> ?x => exact (not_eq_sym H)
  | H : ?A ## ?B |- ?B ## ?A => exact (fun z Hb Ha => H z Ha Hb)
  | H : ?A ## ?B, Hz : ?z ∈ ?A |- ?z ∉ ?B => exact (fun Hb => H z Hz Hb)
  | H : ?A ## ?B, Hz : ?z ∈ ?B |- ?z ∉ ?A => exact (fun Ha => H z Ha Hz)
  | Hz : ?z ∈ ?A, H : ?y ∉ ?A |- ?z <> ?y => intros ->; exact (H Hz)
  | Hz : ?z ∈ ?A, H : ?y ∉ ?A |- ?y <> ?z => intros <-; exact (H Hz)
  | Hz : ?z ∈ ?A, H : ?z ∉ ?A |- _ => destruct (H Hz)
  | H : ?x <> ?x |- _ => destruct (H eq_refl)
  | |- _ ## ∅ => apply disjoint_empty_r
  | |- ∅ ## _ => apply disjoint_empty_l
  | |- _ ∉ ∅ => apply not_elem_of_empty
  end.

Ltac sets :=
  rewrite ?keys_N in *; atoms;
  repeat match goal with
         | |- _ /\ _ => split
         | |- _ ∪ _ ## _ => apply disjoint_union_l
         | |- _ ## _ ∪ _ => apply disjoint_union_r
         | |- {[_]} ## _ => apply disjoint_singleton_l
         | |- _ ## {[_]} => apply disjoint_singleton_r
         | |- _ ∉ _ ∪ _ => apply not_elem_of_union
         | |- _ ∉ {[_]} => apply not_elem_of_singleton
         end; atom.

(** [uniq], and disjointness, of a rearranged tree. *)
Ltac uniqs := rewrite ?uniq_N, ?keys_N; sets.

(** ** Rotation *)

Definition rotate (s : rb_root) (d : side) (g x tmp : Z) (f : rb_root -> outcome rb_root) (col : Z) : outcome rb_root :=
  let* s := update s g (set_child d tmp) in
  let* s := update s x (set_child (opp d) g) in
  let* s := f s in
  __rb_rotate_set_parents s g x col.

(** [x], on the side [d] of [g], takes its place; its inner subtree [b] goes to [g].
    The pointers that are overwritten may be stale; [f] updates the subtrees. *)
Lemma rotate_spec s k d g x c1 c2 q w qa a b u a' b' f col :
  nodes s !! g = Some (mk d (up k) c1 w (root u)) -> nodes s !! x = Some (mk d q c2 (root a) (root b)) -> rep (nodes s) qa a -> rep (nodes s) x b -> rep (nodes s) g u ->
  repc (nodes s) (root_node s) k g -> uniq (N d c1 (N d c2 a x b) g u) -> uniqc k -> keys (N d c1 (N d c2 a x b) g u) ## ckeys k ->
  root a' = root a -> root b' = root b -> keys a' = keys a -> keys b' = keys b -> uniq a' -> uniq b' ->
  (forall s2, rep (nodes s2) qa a -> rep (nodes s2) x b -> exists s3, f s2 = Ok s3 /\ rep (nodes s3) x a' /\ rep (nodes s3) g b' /\ touches (keys a ∪ keys b) s2 s3) ->
  exists s', rotate s d g x (root b) f (bit col) = Ok s' /\ zip s' k (N d c1 a' x (N d col b' g u)) /\ forall z, z ∉ keys (N d c1 (N d c2 a x b) g u) -> z ∉ ckeys k -> nodes s' !! z = nodes s !! z.
Proof.
  intros Hg Hx Ha Hb Hu Hk Huniq Huk Hdisj Ra Rb Ka Kb Ua Ub Hf. apply uniq_N in Huniq as (Vg&G1&G2&G3&Hua&Huu). apply uniq_N in Hua as (Vx&X1&X2&X3&U1&U2). rewrite !keys_N in *. pose proof (up_pointer k Huk) as Hup.
  assert (Hgx : g <> x) by sets. unfold rotate. rewrite (update_Ok _ _ _ _ Hg), set_child_mk. cbn [obind]. rewrite (update_Ok _ x (mk d q c2 (root a) (root b))) by (cbn [nodes]; by rewrite lookup_insert_ne). rewrite set_child_opp_mk. cbn [obind nodes root_node].
  set (h2 := <[x := _]> _). destruct (Hf (RbRoot h2 (root_node s))) as (s3&->&Ra'&Rb'&Hroot3&Hs3); [cbn [nodes]; eapply rep_frame; [|exact Ha]; intros z Hz; unfold h2; rewrite !lookup_insert_ne by sets; done|cbn [nodes]; eapply rep_frame; [|exact Hb]; intros z Hz; unfold h2; rewrite !lookup_insert_ne by sets; done|].
  cbn [obind nodes root_node] in *. unfold __rb_rotate_set_parents.
  assert (Hg3 : nodes s3 !! g = Some (mk d (up k) c1 (root b) (root u))) by (rewrite Hs3 by sets; unfold h2; by rewrite lookup_insert_ne, lookup_insert_eq by done).
  assert (Hx3 : nodes s3 !! x = Some (mk d q c2 (root a) g)) by (rewrite Hs3 by sets; unfold h2; by rewrite lookup_insert_eq).
  rewrite (node_Ok _ _ _ Hg3). cbn [obind]. rewrite parent_mk, (update_Ok _ _ _ _ Hx3), pc_mk, set_pc_mk by done. cbn [obind]. unfold rb_set_parent_color. rewrite (update_Ok _ g (mk d (up k) c1 (root b) (root u))) by (cbn [nodes]; by rewrite lookup_insert_ne). rewrite set_pc_mk. cbn [obind nodes root_node].
  set (h5 := <[g := _]> _). assert (Hfr : forall z, z <> g -> z <> x -> z ∉ keys a -> z ∉ keys b -> h5 !! z = nodes s !! z).
  { intros z H1 H2 H3 H4. unfold h5. rewrite !lookup_insert_ne by done. rewrite Hs3 by sets. unfold h2. by rewrite !lookup_insert_ne. }
  destruct (change_child_spec (RbRoot h5 (root_node s3)) k g x) as (s6&Hrun&Hk6&Hs6); cbn [nodes root_node]; [|done|done|sets|].
  { rewrite Hroot3. eapply repc_frame; [|exact Hk]. intros z Hz. apply Hfr; sets. }
  rewrite Hrun. exists s6. split; [done|]. split; [|intros z Hz1 Hz2; rewrite Hs6 by done; apply Hfr; sets]. unfold zip. rewrite rep_N, !root_N, uniq_N, uniq_N, rep_N, !keys_N, Ka, Kb. cbn [nodes] in Hs6. 
  split; [|split; [done|split; [|split; [done|sets]]]].
  - rewrite Ra, Rb. split; [rewrite Hs6 by sets; unfold h5; rewrite lookup_insert_ne, lookup_insert_eq by done; done|]. split; [eapply rep_frame; [|exact Ra']; intros z Hz; rewrite Ka in Hz; rewrite Hs6 by sets; unfold h5; rewrite !lookup_insert_ne by sets; done|].
    split; [rewrite Hs6 by sets; unfold h5; by rewrite lookup_insert_eq|]. split; [eapply rep_frame; [|exact Rb']; intros z Hz; rewrite Kb in Hz; rewrite Hs6 by sets; unfold h5; rewrite !lookup_insert_ne by sets; done|].
    eapply rep_frame; [|exact Hu]. intros z Hz. rewrite Hs6 by sets. apply Hfr; sets.
  - uniqs.
Qed.
