(* ===== verification/RbtreeInsert.v ===== *)
(** * RbtreeInsert: rebalancing after an insertion *)

From stdpp Require Import gmap.
From S2P Require Import Prelude Rbtree RbtreeFacts.

(** ** Balance *)

Definition weight (c : color) : nat := match c with Red => 0%nat | Black => 1%nat end.

(** The number of black nodes on the way to a leaf. *)
Fixpoint bh (t : tree) : nat := match t with E => 0%nat | T c l _ _ => (bh l + weight c)%nat end.

Fixpoint ok (t : tree) : Prop := match t with E => True | T c l _ r => bh l = bh r /\ (c = Red -> hue l = Black /\ hue r = Black) /\ ok l /\ ok r end.

(** The colour of the parent; there is none above the root, which is black. *)
Definition chue (k : list frame) : color := match k with [] => Red | Fr _ c _ _ :: _ => c end.

(** The context of a subtree of black height [n]. *)
Fixpoint okc (k : list frame) (n : nat) : Prop :=
  match k with [] => True | Fr _ c _ sib :: k => bh sib = n /\ (c = Red -> hue sib = Black /\ chue k = Black) /\ ok sib /\ okc k (n + weight c) end.

Definition red_black (t : tree) : Prop := ok t /\ hue t = Black.

Lemma ok_N d c a x b : ok (N d c a x b) <-> bh a = bh b /\ (c = Red -> hue a = Black /\ hue b = Black) /\ ok a /\ ok b.
Proof. destruct d; simpl; [done|]. split; intros (H1&H2&H3&H4); (split; [done|]; split; [tauto|]; done). Qed.

Lemma bh_N d c a x b : bh a = bh b -> bh (N d c a x b) = (bh a + weight c)%nat.
Proof. intros H. destruct d; simpl; lia. Qed.

Lemma plug_red_black k t : ok t -> okc k (bh t) -> (hue t = Red -> chue k = Black) -> red_black (plug k t).
Proof.
  revert t. induction k as [|[d c x sib] k IH]; intros t Ht Hk Hh; simpl in *.
  - split; [done|]. destruct (hue t); [by specialize (Hh eq_refl)|done].
  - destruct Hk as (H1&H2&H3&H4). apply IH; [apply ok_N; split; [done|]; split; [|done]; intros ->; split; [|apply H2; done]; destruct (hue t); [by specialize (Hh eq_refl)|done]|by rewrite bh_N|]. rewrite hue_N. intros ->. by apply H2.
Qed.

Lemma plug_ok k t : red_black (plug k t) -> ok t /\ okc k (bh t) /\ (hue t = Red -> chue k = Black).
Proof.
  revert t. induction k as [|[d c x sib] k IH]; intros t; simpl.
  - intros (H1&H2). split; [done|]. split; [done|]. congruence.
  - intros H. apply IH in H as (H1&H2&H3). rewrite hue_N in H3. apply ok_N in H1 as (H4&H5&H6&H7). rewrite bh_N in H2 by done. split; [done|]. split; [split; [done|]; split; [|done]; intros Hc; split; [by apply H5|by apply H3]|]. intros Ht. destruct c; [|done]. destruct (H5 eq_refl). congruence.
Qed.

(** ** Order *)

Definition around (d : side) (l : list Z) (x : Z) (l' : list Z) : list Z := match d with Lft => l ++ x :: l' | Rgt => l' ++ x :: l end.

Lemma elements_N d c a x b : elements (N d c a x b) = around d (elements a) x (elements b).
Proof. by destruct d. Qed.

Lemma elements_plug k t t' : elements t = elements t' -> elements (plug k t) = elements (plug k t').
Proof. revert t t'. induction k as [|[d c x sib] k IH]; intros t t' H; [done|]. simpl. apply IH. by rewrite !elements_N, H. Qed.

Lemma keys_plug k t : keys (plug k t) = keys t ∪ ckeys k.
Proof. revert t. induction k as [|[d c x sib] k IH]; intros t; simpl; [set_solver|]. rewrite IH, keys_N. set_solver. Qed.

Lemma elements_rotate d c1 c2 c3 c4 a x b g u : elements (N d c1 a x (N d c2 b g u)) = elements (N d c3 (N d c4 a x b) g u).
Proof. rewrite !elements_N. destruct d; simpl; by rewrite <- app_assoc. Qed.

Lemma elements_rotate_twice d c1 c2 c3 c4 c5 a p b x c g u : elements (N d c1 (N d c2 a p b) x (N d c3 c g u)) = elements (N d c4 (N d c5 a p (N d c2 b x c)) g u).
Proof. rewrite !elements_N. destruct d; simpl; rewrite <- ?app_assoc; simpl; by rewrite <- ?app_assoc. Qed.

(** Every tree, seen from a side. *)
Lemma from_side d t : t <> E -> exists a b, t = N d (hue t) a (root t) b.
Proof. destruct t as [|c l x r]; [done|]. intros _. destruct d; [by exists l, r|by exists r, l]. Qed.

Lemma opp_opp d : opp (opp d) = d.
Proof. by destruct d. Qed.

Lemma N_opp d c a x b : N (opp d) c a x b = N d c b x a.
Proof. by destruct d. Qed.

(** ** The result of rebalancing *)

(** The store represents a red-black tree with the same sequence of nodes, and
    nothing else has changed. *)
Definition rebalanced (s : rb_root) (t : tree) (s' : rb_root) : Prop :=
  exists t', represents s' t' /\ red_black t' /\ elements t' = elements t /\ forall z, z ∉ keys t -> nodes s' !! z = nodes s !! z.

Lemma rebalanced_intro s k t t' s' : zip s' k t' -> ok t' -> okc k (bh t') -> (hue t' = Red -> chue k = Black) -> elements t' = elements t -> (forall z, z ∉ keys t -> z ∉ ckeys k -> nodes s' !! z = nodes s !! z) -> rebalanced s (plug k t) s'.
Proof.
  intros Hz H1 H2 H3 He Hf. exists (plug k t'). split; [exact (proj1 (zip_plug s' k t') Hz)|]. split; [by apply plug_red_black|]. split; [by apply elements_plug|]. intros z Hk. rewrite keys_plug in Hk. apply Hf; set_solver.
Qed.

(** ** Cases 2 and 3 *)

Lemma roots_differ t u : uniq t -> t <> E -> keys t ## keys u -> (root t =? root u) = false.
Proof.
  intros Hu Hne Hd. apply Z.eqb_neq. intros Heq. pose proof (root_in t Hne) as Hin. pose proof (keys_valid t _ Hu Hin) as (Hv&_). destruct u as [|c l x r]; [simpl in Heq; lia|]. simpl in *. set_solver.
Qed.

Lemma paint_black t : hue t = Black -> paint Black t = t.
Proof. intros <-. apply paint_hue. Qed.

Lemma set_black_if_spec s q t p : rep (nodes s) q t -> uniq t -> hue t = Black -> exists s', set_parent_color_if s (root t) p RB_BLACK = Ok s' /\ rep (nodes s') p t /\ touches (keys t) s s'.
Proof. intros Hr Hu Hh. destruct (set_parent_color_if_spec s q t p Black Hr Hu) as (s'&Hrun&Hr'&Ht). rewrite paint_black in Hr' by done. by exists s'. Qed.

Lemma insert_outer s k d t p sib g u : zip s k (N d Black (N d Red t p sib) g u) -> t <> E -> hue sib = Black ->
  exists s', insert_rotate s d (root t) p g = Ok s' /\ zip s' k (N d Black t p (N d Red sib g u)) /\ forall z, z ∉ keys (N d Black (N d Red t p sib) g u) -> z ∉ ckeys k -> nodes s' !! z = nodes s !! z.
Proof.
  intros (Hr&Hk&Huniq&Huk&Hd) Hne Hsib. apply rep_N in Hr as (Hg&Hr&Hu). apply rep_N in Hr as (Hp&Ht&Hs). rewrite !root_N in *. pose proof Huniq as (_&_&_&_&Hup&_)%uniq_N. apply uniq_N in Hup as (_&_&_&Hts&Hut&Hus).
  unfold insert_rotate. rewrite (node_Ok _ _ _ Hp). cbn [obind]. rewrite child_opp_mk, roots_differ by done. cbn [obind].
  eapply (rotate_spec s k d g p Black Red g p p t sib u t sib (fun s => set_parent_color_if s (root sib) g RB_BLACK) Red); try done.
  intros s2 Ht2 Hs2. destruct (set_black_if_spec s2 p sib g Hs2 Hus Hsib) as (s3&->&Hs3&Hroot&Htch). exists s3. split; [done|]. split; [eapply rep_frame; [|exact Ht2]; intros z Hz; apply Htch; sets|]. split; [done|]. split; [done|]. intros z Hz. apply Htch. sets.
Qed.

Lemma insert_inner s k d a p b x c g u : zip s k (N d Black (N d Red a p (N d Red b x c)) g u) -> hue b = Black -> hue c = Black ->
  exists s', insert_rotate s d x p g = Ok s' /\ zip s' k (N d Black (N d Red a p b) x (N d Red c g u)) /\ forall z, z ∉ keys (N d Black (N d Red a p (N d Red b x c)) g u) -> z ∉ ckeys k -> nodes s' !! z = nodes s !! z.
Proof.
  intros (Hr&Hk&Huniq&Huk&Hd) Hhb Hhc. apply rep_N in Hr as (Hg&Hr&Hu). apply rep_N in Hr as (Hp&Ha&Hr). apply rep_N in Hr as (Hx&Hb&Hc). rewrite !root_N in *. pose proof Huniq as Huniq'. apply uniq_N in Huniq' as (Vg&G1&G2&G3&Hup&Huu). apply uniq_N in Hup as (Vp&P1&P2&P3&Hua&Hux). apply uniq_N in Hux as (Vx&X1&X2&X3&Hub&Huc). rewrite !keys_N in *.
  assert (Hpx : p <> x) by sets. unfold insert_rotate. rewrite (node_Ok _ _ _ Hp). cbn [obind]. rewrite child_opp_mk, Z.eqb_refl, (node_Ok _ _ _ Hx). cbn [obind]. rewrite child_mk, (update_Ok _ _ _ _ Hp), set_child_opp_mk. cbn [obind].
  rewrite (update_Ok _ x (mk d p Red (root b) (root c))) by (cbn [nodes]; by rewrite lookup_insert_ne). rewrite set_child_mk. cbn [obind nodes root_node]. set (h2 := <[x := _]> _).
  destruct (set_black_if_spec (RbRoot h2 (root_node s)) x b p) as (s3&->&Hb3&Hroot3&Hs3); [cbn [nodes]; eapply rep_frame; [|exact Hb]; intros z Hz; unfold h2; rewrite !lookup_insert_ne by sets; done|done|done|]. cbn [obind nodes root_node] in *.
  assert (Hp3 : nodes s3 !! p = Some (mk d g Red (root a) (root b))) by (rewrite Hs3 by sets; unfold h2; by rewrite lookup_insert_ne, lookup_insert_eq by done).
  assert (Hx3 : nodes s3 !! x = Some (mk d p Red p (root c))) by (rewrite Hs3 by sets; unfold h2; by rewrite lookup_insert_eq).
  unfold rb_set_parent_color. rewrite (update_Ok _ _ _ _ Hp3). change RB_RED with (bit Red). rewrite set_pc_mk. cbn [obind]. set (s4 := RbRoot _ _). assert (H4 : forall z, z <> p -> z <> x -> z ∉ keys b -> nodes s4 !! z = nodes s !! z).
  { intros z H1 H2 H3. unfold s4. cbn [nodes]. rewrite lookup_insert_ne by done. rewrite Hs3 by done. unfold h2. by rewrite !lookup_insert_ne. }
  assert (Hx4 : nodes s4 !! x = Some (mk d p Red p (root c))) by (unfold s4; cbn [nodes]; by rewrite lookup_insert_ne). rewrite (node_Ok _ _ _ Hx4). cbn [obind]. rewrite child_opp_mk.
  assert (Hun : uniq (N d Red a p b)) by uniqs.
  destruct (rotate_spec s4 k d g x Black Red p p x (N d Red a p b) c u (N d Red a p b) c (fun s => set_parent_color_if s (root c) g RB_BLACK) Red) as (s'&Hrun&Hz&Hfr); try done.
  - rewrite H4 by sets. done.
  - by rewrite root_N.
  - apply rep_N. split; [unfold s4; cbn [nodes]; by rewrite lookup_insert_eq|]. split; (eapply rep_frame; [|eassumption]); intros z Hz; [apply H4; sets|unfold s4; cbn [nodes]; rewrite lookup_insert_ne by sets; done].
  - eapply rep_frame; [|exact Hc]. intros z Hz. apply H4; sets.
  - eapply rep_frame; [|exact Hu]. intros z Hz. apply H4; sets.
  - unfold s4. cbn [root_node]. rewrite Hroot3. eapply repc_frame; [|exact Hk]. intros z Hz. apply H4; sets.
  - uniqs.
  - rewrite !keys_N. sets.
  - intros s5 Ha5 Hc5. destruct (set_black_if_spec s5 x c g Hc5 Huc Hhc) as (s6&->&Hc6&Hroot6&Hs6). exists s6. split; [done|]. split; [eapply rep_frame; [|exact Ha5]; intros z Hz; apply Hs6; rewrite keys_N in Hz; sets|]. split; [done|]. split; [done|]. intros z Hz. apply Hs6. sets.
  - exists s'. split; [exact Hrun|]. split; [exact Hz|]. intros z Hz1 Hz2. rewrite Hfr; [apply H4; sets|rewrite !keys_N; sets|done].
Qed.

(** ** The loop *)

(** The side on which a node is. *)
Lemma side_found d p up c u : (p =? root u) = false -> (if p =? rb_right (mk d up c p (root u)) then Rgt else Lft) = d.
Proof. intros H. destruct d; cbn [mk rb_right]; [by rewrite H|by rewrite Z.eqb_refl]. Qed.

Lemma is_red_at_spec s q t : rep (nodes s) q t -> uniq t -> pointer q -> is_red_at s (root t) = Ok (negb (isblack (hue t))).
Proof.
  intros Hr Hu Hq. unfold is_red_at. rewrite root_E by done. destruct t as [|c l x r]; [done|]. destruct Hr as (Hx&_). simpl. rewrite (node_Ok _ _ _ Hx). cbn [obind]. by rewrite is_red_mk.
Qed.

(** Case 1: the colours of the parent, its sibling and the grandparent are flipped. *)
Lemma insert_flip s k d d1 t p sib g u : zip s k (N d Black (N d1 Red t p sib) g u) -> u <> E ->
  exists s', (let* s := rb_set_parent_color s (root u) g RB_BLACK in let* s := rb_set_parent_color s p g RB_BLACK in let* n := node s g in let* s := rb_set_parent_color s g (rb_parent n) RB_RED in Ok (s, rb_parent n)) = Ok (s', up k) /\
    zip s' k (N d Red (N d1 Black t p sib) g (paint Black u)) /\ forall z, z ∉ keys (N d Black (N d1 Red t p sib) g u) -> nodes s' !! z = nodes s !! z.
Proof.
  intros (Hr&Hk&Huniq&Huk&Hd) Hne. apply rep_N in Hr as (Hg&Hr&Hu). apply rep_N in Hr as (Hp&Ht&Hs). rewrite !root_N in *. pose proof Huniq as (Vg&G1&G2&G3&Hup&Huu)%uniq_N. apply uniq_N in Hup as (Vp&P1&P2&P3&Hut&Hus).
  change RB_BLACK with (bit Black). change RB_RED with (bit Red). destruct (set_parent_color_spec s g u g Black Hu Huu Hne) as (s1&->&Hu1&Hroot1&Hs1). cbn [obind]. unfold rb_set_parent_color. rewrite (update_Ok s1 p (mk d1 g Red (root t) (root sib))) by (rewrite Hs1 by sets; done). rewrite set_pc_mk. cbn [obind].
  assert (Hg2 : <[p := mk d1 g Black (root t) (root sib)]> (nodes s1) !! g = Some (mk d (up k) Black p (root u))) by (rewrite lookup_insert_ne by sets; rewrite Hs1 by sets; done).
  rewrite (node_Ok (RbRoot _ _) g _ Hg2). cbn [obind]. rewrite parent_mk by (by apply up_pointer). rewrite (update_Ok (RbRoot _ _) g _ _ Hg2). rewrite set_pc_mk. cbn [obind nodes root_node]. eexists. split; [done|].
  assert (Hfr : forall z, z <> p -> z <> g -> <[g := mk d (up k) Red p (root u)]> (<[p := mk d1 g Black (root t) (root sib)]> (nodes s1)) !! z = nodes s1 !! z) by (intros z H1 H2; by rewrite !lookup_insert_ne).
  split; [|intros z Hz; cbn [nodes]; rewrite Hfr by sets; apply Hs1; sets]. unfold zip. cbn [nodes root_node]. rewrite !rep_N, !root_N, root_paint. split; [|split; [|split; [|split; [done|rewrite !keys_N, keys_paint; sets]]]].
  - split; [by rewrite lookup_insert_eq|]. split; [split; [rewrite lookup_insert_ne by sets; by rewrite lookup_insert_eq|]; split; (eapply rep_frame; [|eassumption]); intros z Hz; rewrite Hfr by sets; apply Hs1; sets|]. eapply rep_frame; [|exact Hu1]. intros z Hz. rewrite keys_paint in Hz. apply Hfr; sets.
  - rewrite Hroot1. eapply repc_frame; [|exact Hk]. intros z Hz. rewrite Hfr by sets. apply Hs1; sets.
  - rewrite !uniq_N, !keys_N, keys_paint, uniq_paint. sets.
Qed.

Lemma bh_paint_black u : hue u = Red -> bh (paint Black u) = S (bh u).
Proof. destruct u as [|c l x r]; simpl; [done|]. intros ->. simpl. lia. Qed.

Lemma ok_paint_black u : ok u -> ok (paint Black u).
Proof. destruct u as [|c l x r]; simpl; [done|]. intros (H1&_&H3). done. Qed.

Lemma rebalanced_step s s1 t t1 s' : elements t1 = elements t -> keys t1 = keys t -> (forall z, z ∉ keys t -> nodes s1 !! z = nodes s !! z) -> rebalanced s1 t1 s' -> rebalanced s t s'.
Proof. intros He Hk Hf (t'&H1&H2&H3&H4). exists t'. split; [done|]. split; [done|]. split; [congruence|]. intros z Hz. rewrite H4 by (by rewrite Hk). by apply Hf. Qed.

Lemma side_cases d d1 : d1 = d \/ d1 = opp d.
Proof. destruct d, d1; auto. Qed.

(** The rotations, with the new node on either side of its parent. *)
Lemma insert_rotate_spec s k d d1 t p sib g u : zip s k (N d Black (N d1 Red t p sib) g u) -> ok t -> hue t = Red -> ok sib -> hue sib = Black -> bh sib = bh t -> ok u -> hue u = Black -> bh u = bh t -> okc k (S (bh t)) ->
  exists s', insert_rotate s d (root t) p g = Ok s' /\ rebalanced s (plug k (N d Black (N d1 Red t p sib) g u)) s'.
Proof.
  intros Hz Hot Hht Hos Hhs Hbs Hou Hhu Hbu Hk. assert (Hne : t <> E) by (intros ->; done). destruct (side_cases d d1) as [->| ->].
  - destruct (insert_outer s k d t p sib g u Hz Hne Hhs) as (s'&->&Hz'&Hf). exists s'. split; [done|]. eapply rebalanced_intro; [exact Hz'| | |by rewrite hue_N|apply elements_rotate|exact Hf].
    + rewrite ok_N, ok_N. split; [rewrite bh_N by congruence; simpl; lia|]. split; [done|]. split; [done|]. split; [congruence|done].
    + rewrite (bh_N d Black t p _) by (rewrite bh_N by congruence; simpl; lia). simpl. by rewrite Nat.add_1_r.
  - destruct (from_side d t Hne) as (b&c&Et). rewrite Hht in Et. set (x := root t) in *. rewrite Et in Hot, Hz |- *. apply ok_N in Hot as (Hbc&Hred&Hob&Hoc). destruct (Hred eq_refl) as (Hhb&Hhc). assert (Hbt : bh t = bh b) by (rewrite Et, bh_N by done; simpl; lia). rewrite !N_opp in Hz |- *.
    destruct (insert_inner s k d sib p b x c g u Hz Hhb Hhc) as (s'&->&Hz'&Hf). exists s'. split; [done|].
    assert (H1 : bh (N d Red sib p b) = bh t) by (rewrite bh_N by congruence; simpl; lia). assert (H2 : bh (N d Red c g u) = bh t) by (rewrite bh_N by congruence; simpl; lia).
    eapply rebalanced_intro; [exact Hz'| | |by rewrite hue_N|apply elements_rotate_twice|exact Hf].
    + rewrite ok_N, !ok_N. split; [congruence|]. split; [done|]. split; (split; [congruence|done]).
    + rewrite bh_N by congruence. rewrite H1. simpl. by rewrite Nat.add_1_r.
Qed.

Lemma insert_loop_spec fuel : forall s k t, (length k < fuel)%nat -> zip s k t -> ok t -> hue t = Red -> okc k (bh t) -> exists s', insert_loop fuel s (root t) (up k) = Ok s' /\ rebalanced s (plug k t) s'.
Proof.
  induction fuel as [|fuel IH]; intros s k t Hf Hz Hot Hht Hok; [lia|]. cbn [insert_loop]. pose proof Hz as (Hr&Hk&Hut&Huk&Hd). assert (Hne : t <> E) by (intros ->; done). destruct k as [|[d1 cp p sib] k].
  - cbn [up plug]. destruct (set_parent_color_spec s 0 t 0 Black Hr Hut Hne) as (s'&Hrun&Hr'&Hroot&Hs). exists s'. split; [exact Hrun|]. eapply (rebalanced_intro s [] t (paint Black t)).
    + split; [done|]. split; [simpl in *; by rewrite Hroot, root_paint|]. split; [by rewrite uniq_paint|]. split; [done|]. simpl. rewrite keys_paint. sets.
    + by apply ok_paint_black.
    + done.
    + destruct t; done.
    + apply elements_paint.
    + intros z H1 _. by apply Hs.
  - cbn [up]. destruct Huk as (Vp&P1&P2&P3&Hus&Huk). destruct Hk as (Hp&Hsib&Hk). destruct Hok as (Hbs&Hcp&Hos&Hok). replace (p =? 0) with false by (destruct Vp; lia). rewrite (node_Ok _ _ _ Hp). cbn [obind]. rewrite is_black_mk by (by apply up_pointer). destruct cp; cbn [isblack].
    + destruct (Hcp eq_refl) as (Hhs&Hgc). destruct k as [|[d cg g u] k]; [done|]. simpl in Hgc. subst cg. simpl in Hk, Huk, Hok, P2, P3. destruct Hk as (Hg&Hu&Hk). destruct Huk as (Vg&G1&G2&G3&Huu&Huk). destruct Hok as (Hbu&_&Hou&Hok). rewrite Nat.add_0_r in *. cbn [up] in *.
      rewrite red_parent_mk, (node_Ok _ _ _ Hg). cbn [obind]. assert (Hpu : (p =? root u) = false) by (apply Z.eqb_neq; intros Heq; destruct u as [|cu lu xu ru]; [simpl in Heq; destruct Vp; lia|]; simpl in *; subst; sets).
      rewrite side_found, child_opp_mk, (is_red_at_spec s g u Hu Huu) by (done || by right). cbn [obind]. rewrite !zip_up in Hz. destruct (hue u) eqn:Ehu; cbn [isblack negb].
      * destruct (insert_flip s k d d1 t p sib g u Hz) as (s1&Hrun&Hz1&Hs1); [intros ->; done|].
        destruct (rb_set_parent_color s (root u) g RB_BLACK) as [sa| |]; [|done|done]. cbn [obind] in Hrun |- *. destruct (rb_set_parent_color sa p g RB_BLACK) as [sb| |]; [|done|done]. cbn [obind] in Hrun |- *. destruct (node sb g) as [n| |]; [|done|done]. cbn [obind] in Hrun |- *.
        destruct (rb_set_parent_color sb g (rb_parent n) RB_RED) as [sc| |]; [|done|done]. cbn [obind] in Hrun |- *. injection Hrun as -> ->. set (t1 := N d Red (N d1 Black t p sib) g (paint Black u)) in *.
        assert (Hb1 : bh (N d1 Black t p sib) = S (bh t)) by (rewrite bh_N by done; simpl; lia). assert (Hb2 : bh (paint Black u) = S (bh t)) by (rewrite bh_paint_black by done; lia).
        assert (Hbt : bh t1 = S (bh t)) by (unfold t1; rewrite bh_N by congruence; rewrite Hb1; simpl; lia).
        destruct (IH s1 k t1) as (s'&Hrun&Hreb); [simpl in Hf; lia|exact Hz1| |by unfold t1; rewrite hue_N|rewrite Hbt; rewrite Nat.add_1_r in Hok; exact Hok|].
        -- unfold t1. rewrite ok_N, ok_N, hue_N. split; [congruence|]. split; [intros _; split; [done|by destruct u]|]. split; [done|by apply ok_paint_black].
        -- unfold t1 in Hrun. rewrite root_N in Hrun. exists s'. split; [exact Hrun|]. simpl. eapply (rebalanced_step s s1 _ (plug k t1)); [apply elements_plug; unfold t1; by rewrite !elements_N, elements_paint| | |exact Hreb].
           ++ rewrite !keys_plug. f_equal. unfold t1. by rewrite !keys_N, keys_paint.
           ++ intros z Hz2. rewrite keys_plug in Hz2. apply Hs1. sets.
      * simpl. apply insert_rotate_spec; try done. by rewrite Nat.add_1_r in Hok.
    + exists s. split; [done|]. apply (rebalanced_intro s (Fr d1 Black p sib :: k) t t); [done|done|done|done|done|done].
Qed.

(** A new red leaf has been linked. *)
Lemma insert_color_spec s k x : zip s k (T Red E x E) -> okc k 0 -> exists s', rb_insert_color s x = Ok s' /\ rebalanced s (plug k (T Red E x E)) s'.
Proof.
  intros Hz Hok. pose proof Hz as ((Hx&_)&_). unfold rb_insert_color, __rb_insert. rewrite (node_Ok _ _ _ Hx). cbn [obind]. rewrite red_parent_mk. apply (insert_loop_spec _ s k (T Red E x E)); [pose proof (zip_fuel _ _ _ Hz); unfold rounds; lia|done|done|done|done].
Qed.
