(* ===== verification/RbtreeErase.v ===== *)
(** * RbtreeErase: rebalancing after an erasure, and erasure *)

From stdpp Require Import gmap.
From S2P Require Import Prelude Rbtree RbtreeFacts RbtreeInsert.

(** ** The rotations *)

(** Case 4, which may find stale pointers to the sibling [x] and to [a]. *)
Lemma erase_case4_spec s k d cp p t w x q c2 qa a b :
  nodes s !! p = Some (mk d (up k) cp (root t) w) -> nodes s !! x = Some (mk d q c2 (root b) (root a)) -> rep (nodes s) qa a -> rep (nodes s) x b -> rep (nodes s) p t ->
  repc (nodes s) (root_node s) k p -> uniq (N d cp t p (N d c2 b x a)) -> uniqc k -> keys (N d cp t p (N d c2 b x a)) ## ckeys k -> a <> E ->
  exists s', erase_case4 s d p x (root a) = Ok s' /\ zip s' k (N d cp (N d Black t p b) x (paint Black a)) /\ forall z, z ∉ keys (N d cp t p (N d c2 b x a)) -> z ∉ ckeys k -> nodes s' !! z = nodes s !! z.
Proof.
  intros Hp Hx Ha Hb Ht Hk Huniq Huk Hd Hne. pose proof Huniq as (Vp&P1&P2&P3&Hut&Hux)%uniq_N. apply uniq_N in Hux as (Vx&X1&X2&X3&Hub&Hua). unfold erase_case4. rewrite (node_Ok _ _ _ Hx). cbn [obind]. rewrite child_mk.
  destruct (rotate_spec s k (opp d) p x cp c2 q w qa a b t (paint Black a) b (fun s => let* s := rb_set_parent_color s (root a) x RB_BLACK in if root b =? 0 then Ok s else rb_set_parent s (root b) p) Black) as (s'&Hrun&Hz&Hf); try done.
  - by rewrite mk_opp.
  - by rewrite mk_opp.
  - rewrite !N_opp. done.
  - rewrite !N_opp. done.
  - apply root_paint.
  - apply keys_paint.
  - by apply uniq_paint.
  - intros s2 Ha2 Hb2. destruct (set_parent_color_spec s2 qa a x Black Ha2 Hua Hne) as (s3&Hrun3&Ha3&Hr3&Hs3). change RB_BLACK with (bit Black). rewrite Hrun3. cbn [obind].
    destruct (set_parent_if_spec s3 x b p) as (s4&->&Hb4&Hr4&Hs4); [eapply rep_frame; [|exact Hb2]; intros z Hz; apply Hs3; sets|done|by right|]. exists s4. split; [done|]. split; [eapply rep_frame; [|exact Ha3]; intros z Hz; rewrite keys_paint in Hz; apply Hs4; sets|]. split; [done|]. split; [congruence|].
    intros z Hz. rewrite Hs4 by sets. apply Hs3. sets.
  - exists s'. rewrite !N_opp in Hz. rewrite !N_opp in Hf. split; [|split; [exact Hz|exact Hf]]. unfold rotate in Hrun. rewrite opp_opp in Hrun. destruct (update s p (set_child (opp d) (root b))) as [s1| |]; [|done|done]. cbn [obind] in *. destruct (update s1 x (set_child d p)) as [s2| |]; [|done|done]. cbn [obind] in *.
    destruct (rb_set_parent_color s2 (root a) x RB_BLACK) as [s3| |]; [|done|done]. cbn [obind] in *. exact Hrun.
Qed.

(** Case 1: the sibling is red. *)
Lemma erase_case1_spec s k d cp p t x b a : zip s k (N d cp t p (N d Red b x a)) -> b <> E -> hue b = Black ->
  exists s', erase_case1 s d p x = Ok (s', root b) /\ zip s' k (N d cp (N d Red t p b) x a) /\ forall z, z ∉ keys (N d cp t p (N d Red b x a)) -> z ∉ ckeys k -> nodes s' !! z = nodes s !! z.
Proof.
  intros (Hr&Hk&Huniq&Huk&Hd) Hne Hhb. apply rep_N in Hr as (Hp&Ht&Hr). apply rep_N in Hr as (Hx&Hb&Ha). rewrite !root_N in *. pose proof Huniq as (Vp&P1&P2&P3&Hut&Hux)%uniq_N. apply uniq_N in Hux as (Vx&X1&X2&X3&Hub&Hua). unfold erase_case1. rewrite (node_Ok _ _ _ Hx). cbn [obind]. rewrite child_mk.
  destruct (rotate_spec s k (opp d) p x cp Red p x x a b t a b (fun s => rb_set_parent_color s (root b) p RB_BLACK) Red) as (s'&Hrun&Hz&Hf); try done.
  - by rewrite mk_opp.
  - by rewrite mk_opp.
  - rewrite !N_opp. done.
  - rewrite !N_opp. done.
  - intros s2 Ha2 Hb2. change RB_BLACK with (bit Black). destruct (set_parent_color_spec s2 x b p Black Hb2 Hub Hne) as (s3&->&Hb3&Hr3&Hs3). rewrite paint_black in Hb3 by done. exists s3. split; [done|]. split; [eapply rep_frame; [|exact Ha2]; intros z Hz; apply Hs3; sets|]. split; [done|]. split; [done|]. intros z Hz. apply Hs3. sets.
  - exists s'. rewrite !N_opp in Hz. rewrite !N_opp in Hf. split; [|split; [exact Hz|exact Hf]]. unfold rotate in Hrun. rewrite opp_opp in Hrun. destruct (update s p (set_child (opp d) (root b))) as [s1| |]; [|done|done]. cbn [obind] in *. destruct (update s1 x (set_child d p)) as [s2| |]; [|done|done]. cbn [obind] in *.
    destruct (rb_set_parent_color s2 (root b) p RB_BLACK) as [s3| |]; [|done|done]. cbn [obind] in *. change (bit Red) with RB_RED in Hrun. by rewrite Hrun.
Qed.

(** Cases 3 and 4: the near child [y] of the sibling is red, the far one black. *)
Lemma erase_case3_spec s k d cp p t x y b c a : zip s k (N d cp t p (N d Black (N d Red b y c) x a)) -> hue c = Black ->
  exists s', (let* (s, tmp1, sibling) := erase_case3 s d p x y in erase_case4 s d p sibling tmp1) = Ok s' /\ zip s' k (N d cp (N d Black t p b) y (N d Black c x a)) /\
    forall z, z ∉ keys (N d cp t p (N d Black (N d Red b y c) x a)) -> z ∉ ckeys k -> nodes s' !! z = nodes s !! z.
Proof.
  intros (Hr&Hk&Huniq&Huk&Hd) Hhc. apply rep_N in Hr as (Hp&Ht&Hr). apply rep_N in Hr as (Hx&Hr&Ha). apply rep_N in Hr as (Hy&Hb&Hc). rewrite !root_N in *. pose proof Huniq as (Vp&P1&P2&P3&Hut&Hux)%uniq_N. apply uniq_N in Hux as (Vx&X1&X2&X3&Huy&Hua). apply uniq_N in Huy as (Vy&Y1&Y2&Y3&Hub&Huc).
  assert (Hpx : p <> x) by sets. assert (Hpy : p <> y) by sets. assert (Hxy : x <> y) by sets. unfold erase_case3. rewrite (node_Ok _ _ _ Hy). cbn [obind]. rewrite child_opp_mk, (update_Ok _ _ _ _ Hx), set_child_mk. cbn [obind].
  rewrite (update_Ok (RbRoot _ _) y (mk d x Red (root b) (root c))) by (cbn [nodes]; by rewrite lookup_insert_ne). rewrite set_child_opp_mk. cbn [obind nodes root_node]. rewrite (update_Ok (RbRoot _ _) p (mk d (up k) cp (root t) x)) by (cbn [nodes]; by rewrite !lookup_insert_ne). rewrite set_child_opp_mk. cbn [obind nodes root_node]. set (h3 := <[p := _]> _).
  assert (H3 : forall z, z <> p -> z <> x -> z <> y -> h3 !! z = nodes s !! z) by (intros z Z1 Z2 Z3; unfold h3; by rewrite !lookup_insert_ne).
  destruct (set_black_if_spec (RbRoot h3 (root_node s)) y c x) as (s4&->&Hc4&Hr4&Hs4); [cbn [nodes]; eapply rep_frame; [|exact Hc]; intros z Hz; apply H3; sets|done|done|]. cbn [obind nodes root_node] in *.
  assert (H4 : forall z, z <> p -> z <> x -> z <> y -> z ∉ keys c -> nodes s4 !! z = nodes s !! z) by (intros z Z1 Z2 Z3 Z4; rewrite Hs4 by done; by apply H3).
  assert (Hx4 : nodes s4 !! x = Some (mk d p Black (root c) (root a))) by (rewrite Hs4 by sets; unfold h3; by rewrite lookup_insert_ne, lookup_insert_ne, lookup_insert_eq by done).
  assert (Hun : uniq (N d Black c x a)) by uniqs.
  destruct (erase_case4_spec s4 k d cp p t y y x Red p (N d Black c x a) b) as (s'&Hrun&Hz&Hf).
  - rewrite Hs4 by sets. unfold h3. by rewrite lookup_insert_eq.
  - rewrite Hs4 by sets. unfold h3. rewrite lookup_insert_ne, lookup_insert_eq by done. by rewrite root_N.
  - apply rep_N. split; [done|]. split; [done|]. eapply rep_frame; [|exact Ha]. intros z Hz. apply H4; sets.
  - eapply rep_frame; [|exact Hb]. intros z Hz. apply H4; sets.
  - eapply rep_frame; [|exact Ht]. intros z Hz. apply H4; sets.
  - rewrite Hr4. eapply repc_frame; [|exact Hk]. intros z Hz. apply H4; sets.
  - uniqs.
  - done.
  - rewrite !keys_N. sets.
  - by destruct d.
  - exists s'. rewrite root_N in Hrun. split; [exact Hrun|]. replace (paint Black (N d Black c x a)) with (N d Black c x a) in Hz by (by destruct d). split; [exact Hz|]. intros z Hz1 Hz2. rewrite Hf; [apply H4; sets|rewrite !keys_N; sets|done].
Qed.

(** ** The loop *)

Lemma is_black_at_spec s q t : rep (nodes s) q t -> uniq t -> pointer q -> is_black_at s (root t) = Ok (isblack (hue t)).
Proof.
  intros Hr Hu Hq. unfold is_black_at. rewrite root_E by done. destruct t as [|c l x r]; [done|]. destruct Hr as (Hx&_). simpl. rewrite (node_Ok _ _ _ Hx). cbn [obind]. by rewrite is_black_mk.
Qed.

Lemma elements_far d c1 c2 c3 c4 t p b x a a' : elements a' = elements a -> elements (N d c1 (N d c2 t p b) x a') = elements (N d c3 t p (N d c4 b x a)).
Proof. intros Ha. rewrite !elements_N, Ha. destruct d; simpl; by rewrite <- ?app_assoc. Qed.

Lemma elements_near d c1 c2 c3 c4 c5 c6 t p b y c x a : elements (N d c1 (N d c2 t p b) y (N d c3 c x a)) = elements (N d c4 t p (N d c5 (N d c6 b y c) x a)).
Proof. rewrite !elements_N. destruct d; simpl; rewrite <- ?app_assoc; simpl; by rewrite <- ?app_assoc. Qed.

(** Case 2: the sibling becomes red. *)
Lemma erase_flip s k d cp p t sib c' : zip s k (N d cp t p sib) -> sib <> E -> 
  exists s', rb_set_parent_color s (root sib) p RB_RED = Ok s' /\ zip s' k (N d cp t p (paint Red sib)) /\ (forall z, z ∉ keys sib -> nodes s' !! z = nodes s !! z) /\
    exists s'', update s' p (set_pc (Z.lor (up k) (bit c'))) = Ok s'' /\ zip s'' k (N d c' t p (paint Red sib)) /\ forall z, z ∉ keys sib -> z <> p -> nodes s'' !! z = nodes s !! z.
Proof.
  intros (Hr&Hk&Huniq&Huk&Hd) Hne. apply rep_N in Hr as (Hp&Ht&Hs). rewrite !root_N in *. pose proof Huniq as (Vp&P1&P2&P3&Hut&Hus)%uniq_N. destruct (set_parent_color_spec s p sib p Red Hs Hus Hne) as (s1&Hrun&Hs1&Hr1&H1). exists s1. split; [exact Hrun|].
  assert (Hp1 : nodes s1 !! p = Some (mk d (up k) cp (root t) (root sib))) by (rewrite H1 by sets; done).
  assert (Hu' : forall c, uniq (N d c t p (paint Red sib))) by (intros c; rewrite uniq_N, keys_paint, uniq_paint; done). assert (Hd' : forall c, keys (N d c t p (paint Red sib)) ## ckeys k) by (intros c; rewrite keys_N, keys_paint; rewrite keys_N in Hd; done).
  split; [|split; [intros z Hz; by apply H1|]].
  - split; [apply rep_N; rewrite root_paint; split; [done|]; split; [eapply rep_frame; [|exact Ht]; intros z Hz; apply H1; sets|done]|]. rewrite root_N. split; [rewrite Hr1; eapply repc_frame; [|exact Hk]; intros z Hz; apply H1; sets|]. done.
  - rewrite (update_Ok _ _ _ _ Hp1), set_pc_mk. eexists. split; [done|]. split; [|intros z Z1 Z2; cbn [nodes]; rewrite lookup_insert_ne by done; by apply H1].
    split; [apply rep_N; rewrite root_paint; cbn [nodes]; split; [by rewrite lookup_insert_eq|]|]. 
    + split; [eapply rep_frame; [|exact Ht]; intros z Hz; rewrite lookup_insert_ne by sets; apply H1; sets|]. eapply rep_frame; [|exact Hs1]. intros z Hz. rewrite keys_paint in Hz. rewrite lookup_insert_ne by sets. done.
    + rewrite root_N. cbn [nodes root_node]. split; [rewrite Hr1; eapply repc_frame; [|exact Hk]; intros z Hz; rewrite lookup_insert_ne by sets; apply H1; sets|]. done.
Qed.

Lemma bh_paint_red u : hue u = Black -> u <> E -> S (bh (paint Red u)) = bh u.
Proof. destruct u as [|c l x r]; [done|]. simpl. intros -> _. simpl. lia. Qed.

Lemma up_zero k : uniqc k -> (up k =? 0) = match k with [] => true | _ :: _ => false end.
Proof. destruct k as [|[d c x sib] k]; [done|]. simpl. intros ((H&_)&_). lia. Qed.

(** The deficient subtree [t] is on the side [d] of [p], its sibling is black. *)
Definition deficient (k : list frame) (t : tree) : Prop := ok t /\ hue t = Black /\ okc k (S (bh t)).

Lemma erase_step_spec continue s k d cp p t sib : zip s k (N d cp t p sib) -> deficient (Fr d cp p sib :: k) t -> hue sib = Black ->
  (cp = Black -> k <> [] -> forall s' t', zip s' k t' -> deficient k t' -> root t' = p -> exists s'', continue s' p (up k) = Ok s'' /\ rebalanced s' (plug k t') s'') ->
  exists s', erase_step continue s d p (root sib) = Ok s' /\ rebalanced s (plug k (N d cp t p sib)) s'.
Proof.
  intros Hz (Hot&Hht&Hbs&Hcp&Hos&Hok) Hhs Hcont. assert (Hne : sib <> E) by (intros ->; done). destruct (from_side d sib Hne) as (b&a&Es). rewrite Hhs in Es. set (x := root sib) in *. pose proof Hz as (Hr&Hk&Huniq&Huk&Hd). apply rep_N in Hr as (Hp&Ht&Hs). pose proof Huniq as (Vp&P1&P2&P3&Hut&Hus)%uniq_N.
  rewrite Es in Hs, Hus. apply rep_N in Hs as (Hx&Hb&Ha). apply uniq_N in Hus as (Vx&X1&X2&X3&Hub&Hua). rewrite Es in Hos, Hbs. apply ok_N in Hos as (Hba&_&Hob&Hoa). rewrite bh_N in Hbs by done. simpl in Hbs. assert (Hbb : bh b = bh t) by lia.
  unfold erase_step. rewrite (node_Ok _ _ _ Hx). cbn [obind]. rewrite child_opp_mk, child_mk, (is_black_at_spec s x a Ha Hua), (is_black_at_spec s x b Hb Hub) by (by right). cbn [obind]. destruct (hue a) eqn:Eha; cbn [isblack].
  - rewrite Es in Hz |- *. pose proof Hz as (Hr'&_&Huniq'&_&Hd'). apply rep_N in Hr' as (Hp'&_&_). rewrite root_N in *. destruct (erase_case4_spec s k d cp p t x x p Black x a b) as (s'&->&Hz'&Hf); try done; [intros ->; done|]. exists s'. split; [done|].
    assert (H1 : bh (N d Black t p b) = S (bh t)) by (rewrite bh_N by done; simpl; lia).
    eapply rebalanced_intro; [exact Hz'| | | |apply elements_far, elements_paint|exact Hf].
    + rewrite ok_N, ok_N, hue_N. split; [rewrite bh_paint_black by done; lia|]. split; [intros _; split; [done|by destruct a]|]. split; [done|by apply ok_paint_black].
    + rewrite bh_N by (rewrite bh_paint_black by done; lia). by rewrite H1.
    + rewrite hue_N. intros ->. by apply Hcp.
  - destruct (hue b) eqn:Ehb; cbn [isblack].
    + assert (Hbne : b <> E) by (intros ->; done). destruct (from_side d b Hbne) as (b1&b2&Eb). rewrite Ehb in Eb. set (y := root b) in *. rewrite Es, Eb in Hz |- *. rewrite Eb in Hob, Hbb, Hba. apply ok_N in Hob as (Hb12&Hred&Hob1&Hob2). destruct (Hred eq_refl) as (Hhb1&Hhb2). rewrite bh_N in Hbb, Hba by done. simpl in Hbb, Hba. rewrite Nat.add_0_r in Hbb, Hba.
      destruct (erase_case3_spec s k d cp p t x y b1 b2 a Hz Hhb2) as (s'&Hrun&Hz'&Hf). rewrite Hrun. exists s'. split; [done|].
      assert (H1 : bh (N d Black t p b1) = S (bh t)) by (rewrite bh_N by congruence; simpl; lia). assert (H2 : bh (N d Black b2 x a) = S (bh t)) by (rewrite bh_N by congruence; simpl; lia).
      eapply rebalanced_intro; [exact Hz'| | | |apply elements_near|exact Hf].
      * rewrite ok_N, !ok_N, !hue_N. split; [congruence|]. split; [done|]. split; (split; [congruence|done]).
      * rewrite bh_N by congruence. by rewrite H1.
      * rewrite hue_N. intros ->. by apply Hcp.
    + destruct (erase_flip s k d cp p t sib Black Hz Hne) as (s1&Hrun1&Hz1&Hs1&s2&Hrun2&Hz2&Hs2). change (root sib) with x in Hrun1. rewrite Hrun1. cbn [obind]. pose proof Hz1 as (Hr1&_). apply rep_N in Hr1 as (Hp1&_). rewrite (node_Ok _ _ _ Hp1). cbn [obind].
      assert (Hpu : pointer (up k)) by (by apply up_pointer). rewrite is_red_mk, parent_mk by done. assert (Hbr : bh (paint Red sib) = bh t) by (pose proof (bh_paint_red sib Hhs Hne); rewrite Es in *; rewrite bh_N in * by done; simpl in *; lia).
      assert (Hor : ok (paint Red sib)) by (rewrite Es; destruct d; simpl; rewrite ?Eha, ?Ehb; done).
      assert (Hot' : ok (N d Black t p (paint Red sib))) by (apply ok_N; done). assert (Hbt' : bh (N d Black t p (paint Red sib)) = S (bh t)) by (rewrite bh_N by done; simpl; lia).
      assert (He : forall c, elements (N d c t p (paint Red sib)) = elements (N d cp t p sib)) by (intros c; by rewrite !elements_N, elements_paint).
      destruct cp; cbn [isblack negb].
      * unfold rb_set_black. rewrite (update_Ok _ _ _ _ Hp1), set_black_mk. rewrite (update_Ok _ _ _ _ Hp1), set_pc_mk in Hrun2. injection Hrun2 as <-. eexists. split; [done|]. eapply rebalanced_intro; [exact Hz2|exact Hot'|rewrite Hbt'; by rewrite Nat.add_0_r in Hok|by rewrite hue_N|apply He|]. intros z Z1 Z2. apply Hs2; sets.
      * rewrite up_zero by done. assert (Hk1 : keys (N d Black t p (paint Red sib)) = keys (N d Black t p sib)) by (by rewrite !keys_N, keys_paint). destruct k as [|fr k]; cbn [negb].
        -- exists s1. split; [done|]. eapply (rebalanced_intro s [] _ (N d Black t p (paint Red sib))); [exact Hz1|exact Hot'|done|by rewrite hue_N|apply He|]. intros z Z1 _. apply Hs1. sets.
        -- destruct (Hcont eq_refl ltac:(done) s1 (N d Black t p (paint Red sib)) Hz1) as (s'&Hrun'&Hreb); [split; [exact Hot'|]; split; [by rewrite hue_N|]; rewrite Hbt'; by rewrite Nat.add_1_r in Hok|by rewrite root_N|].
           exists s'. split; [exact Hrun'|]. eapply (rebalanced_step s s1 _ (plug (fr :: k) (N d Black t p (paint Red sib)))); [by apply elements_plug|rewrite !keys_plug; by rewrite Hk1| |exact Hreb]. intros z Hz3. rewrite keys_plug in Hz3. apply Hs1. sets.
Qed.

Lemma erase_loop_spec fuel : forall s k t, (length k < fuel)%nat -> k <> [] -> zip s k t -> deficient k t -> exists s', erase_loop fuel s (root t) (up k) = Ok s' /\ rebalanced s (plug k t) s'.
Proof.
  induction fuel as [|fuel IH]; intros s k t Hf Hk Hz Hdef; [lia|]. destruct k as [|[d cp p sib] k]; [done|]. cbn [erase_loop up plug]. pose proof Hz as (_&(Hp&Hs&_)&Hut&Huk&Hd). pose proof Huk as (Vp&P1&P2&P3&Hus&Huk'). pose proof Hdef as (Hot&Hht&Hbs&Hcp&Hos&Hok).
  rewrite zip_up in Hz. rewrite (node_Ok _ _ _ Hp). cbn [obind]. assert (Hne : sib <> E) by (intros ->; done).
  assert (Hroots : (root t =? root sib) = false) by (rewrite Z.eqb_sym; apply roots_differ; [done|done|]; simpl in Hd; sets). rewrite side_found, child_opp_mk by done.
  destruct (from_side d sib Hne) as (b&a&Es). assert (Hsn : nodes s !! root sib = Some (mk d p (hue sib) (root b) (root a))) by (rewrite Es in Hs; apply rep_N in Hs as (Hx&_); exact Hx). rewrite (node_Ok _ _ _ Hsn). cbn [obind]. rewrite is_red_mk by (by right).
  destruct (hue sib) eqn:Ehs; cbn [isblack negb].
  - destruct cp; [by destruct (Hcp eq_refl)|]. set (x := root sib) in *. rewrite Es in Hz, Hos, Hbs |- *. apply ok_N in Hos as (Hba&Hred&Hob&Hoa). destruct (Hred eq_refl) as (Hhb&Hha). rewrite bh_N in Hbs by done. simpl in Hbs. rewrite Nat.add_0_r in Hbs.
    destruct (erase_case1_spec s k d Black p t x b a Hz) as (s1&->&Hz1&Hs1); [intros ->; done|done|]. cbn [obind]. rewrite <- zip_up in Hz1.
    destruct (erase_step_spec (erase_loop fuel) s1 (Fr d Black x a :: k) d Red p t b Hz1) as (s'&Hrun&Hreb); [|done|done|].
    + split; [done|]. split; [done|]. cbn [okc chue weight]. rewrite Nat.add_0_r. split; [done|]. split; [done|]. split; [done|]. split; [congruence|]. split; [done|]. split; [done|]. exact Hok.
    + exists s'. split; [exact Hrun|]. eapply (rebalanced_step s s1 _ (plug (Fr d Black x a :: k) (N d Red t p b))); [cbn [plug]; apply elements_plug, elements_far; done|cbn [plug]; rewrite !keys_plug, !keys_N; set_solver| |exact Hreb]. intros z Hz2. rewrite keys_plug in Hz2. apply Hs1; sets.
  - cbn [obind]. apply erase_step_spec; [done|done|done|]. intros -> Hk' s' t' Hz' Hdef' Hroot. rewrite <- Hroot. apply IH; [simpl in Hf; lia|done|done|done].
Qed.

Lemma erase_color_spec s k t : k <> [] -> zip s k E -> deficient k E -> t = plug k E -> exists s', ____rb_erase_color s (up k) = Ok s' /\ rebalanced s t s'.
Proof. intros Hk Hz Hdef ->. unfold ____rb_erase_color. apply (erase_loop_spec _ s k E); [pose proof (zip_fuel _ _ _ Hz); unfold rounds; lia|done|done|done]. Qed.
