(* ===== verification/RbtreeRemove.v ===== *)
(** * RbtreeRemove: unlinking a node *)

From stdpp Require Import gmap.
From S2P Require Import Prelude Rbtree RbtreeFacts RbtreeInsert RbtreeErase.

(** ** Segments of a context *)

(** The parent above a segment whose outermost parent is [top]. *)
Definition above (top : Z) (k : list frame) : Z := match k with [] => top | Fr _ _ x _ :: _ => x end.

Fixpoint seg (h : gmap Z rb_node) (top : Z) (k : list frame) (hole : Z) : Prop :=
  match k with [] => True | Fr d c x sib :: k => h !! x = Some (mk d (above top k) c hole (root sib)) /\ rep h x sib /\ seg h top k x end.

(** The outermost node of a segment. *)
Fixpoint outer (k : list frame) (hole : Z) : Z := match k with [] => hole | Fr _ _ x _ :: k => outer k x end.

Lemma outer_plug k t : root (plug k t) = outer k (root t).
Proof. revert t. induction k as [|[d c x sib] k IH]; intros t; [done|]. simpl. by rewrite IH, root_N. Qed.

Lemma rep_plug h p k t : rep h p (plug k t) <-> rep h (above p k) t /\ seg h p k (root t).
Proof. revert t. induction k as [|[d c x sib] k IH]; intros t; simpl; [tauto|]. rewrite IH, rep_N, root_N. tauto. Qed.

Lemma repc_app h rt k k' hole : repc h rt (k ++ k') hole <-> seg h (up k') k hole /\ repc h rt k' (outer k hole).
Proof.
  revert hole. induction k as [|[d c x sib] k IH]; intros hole; simpl; [tauto|]. rewrite IH. assert (up (k ++ k') = above (up k') k) as -> by (destruct k as [|[? ? ? ?] ?]; done). tauto.
Qed.

Lemma plug_app k k' t : plug (k ++ k') t = plug k' (plug k t).
Proof. revert t. induction k as [|[d c x sib] k IH]; intros t; [done|]. simpl. apply IH. Qed.

Lemma uniq_plug k t : uniq (plug k t) <-> uniq t /\ uniqc k /\ keys t ## ckeys k.
Proof.
  revert t. induction k as [|[d c x sib] k IH]; intros t; simpl; [split; [intros H; split; [done|]; split; [done|]; apply disjoint_empty_r|tauto]|]. rewrite IH, uniq_N, keys_N. split.
  - intros ((H1&H2&H3&H4&H5&H6)&H7&H8). split; [done|]. sets.
  - intros (H1&(H2&H3&H4&H5&H6&H7)&H8). sets.
Qed.

Lemma ckeys_app k k' : ckeys (k ++ k') = ckeys k ∪ ckeys k'.
Proof. induction k as [|[d c x sib] k IH]; simpl; [set_solver|]. rewrite IH. set_solver. Qed.

Lemma uniqc_app k k' : uniqc (k ++ k') <-> uniqc k /\ uniqc k' /\ ckeys k ## ckeys k'.
Proof.
  induction k as [|[d c x sib] k IH]; simpl; [split; [intros H; split; [done|]; split; [done|]; apply disjoint_empty_l|tauto]|]. rewrite IH, ckeys_app. split; [intros (H1&H2&H3&H4&H5&H6&H7&H8)|intros ((H1&H2&H3&H4&H5&H6)&H7&H8)]; sets.
Qed.

Lemma seg_frame h h' top k hole : (forall z, z ∈ ckeys k -> h' !! z = h !! z) -> seg h top k hole -> seg h' top k hole.
Proof.
  revert hole. induction k as [|[d c x sib] k IH]; intros hole Heq; [done|]. simpl in *. intros (H1&H2&H3). split; [rewrite Heq by set_solver; done|]. split; [eapply rep_frame; [|done]; intros z Hz; apply Heq; set_solver|]. apply IH; [|done]. intros z Hz. apply Heq. set_solver.
Qed.

(** What is at the inner end changes. *)
Lemma seg_hole s top d c x sib k hole v : seg (nodes s) top (Fr d c x sib :: k) hole -> uniqc (Fr d c x sib :: k) ->
  exists s', update s x (set_child d v) = Ok s' /\ seg (nodes s') top (Fr d c x sib :: k) v /\ touches {[x]} s s'.
Proof.
  intros (Hx&Hs&Hk) (Vx&X1&X2&X3&_). rewrite (update_Ok _ _ _ _ Hx), set_child_mk. eexists. split; [done|]. cbn [nodes seg]. split; [|split; [done|]; intros z Hz; cbn [nodes]; rewrite lookup_insert_ne by sets; done].
  split; [by rewrite lookup_insert_eq|]. split; [eapply rep_frame; [|exact Hs]|eapply seg_frame; [|exact Hk]]; intros z Hz; rewrite lookup_insert_ne by sets; done.
Qed.

(** What is above the outer end changes. *)
Lemma seg_top s top top' k hole : seg (nodes s) top k hole -> uniqc k -> k <> [] -> pointer top -> exists s', rb_set_parent s (outer k hole) top' = Ok s' /\ seg (nodes s') top' k hole /\ touches (ckeys k) s s'.
Proof.
  intros Hseg Hu Hne Htop. revert hole Hseg Hu. induction k as [|[d c x sib] k IH]; [done|]. clear Hne. intros hole (Hx&Hs&Hk) (Vx&X1&X2&X3&Hus&Huk). destruct k as [|fr k].
  - simpl in *. unfold rb_set_parent. rewrite (update_Ok _ _ _ _ Hx), set_parent_mk by done. eexists. split; [done|]. cbn [nodes]. split; [|split; [done|]; intros z Hz; cbn [nodes]; rewrite lookup_insert_ne by sets; done].
    split; [by rewrite lookup_insert_eq|]. split; [|done]. eapply rep_frame; [|exact Hs]. intros z Hz. rewrite lookup_insert_ne by sets. done.
  - destruct (IH ltac:(done) x Hk Huk) as (s'&Hrun&Hk'&Hr'&Hs'). exists s'. split; [exact Hrun|]. split; [|split; [done|]; intros z Hz; apply Hs'; simpl in Hz |- *; set_solver].
    split; [rewrite Hs' by done; destruct fr; exact Hx|]. split; [|exact Hk']. eapply rep_frame; [|exact Hs]. intros z Hz. apply Hs'. sets.
Qed.

(** ** The successor *)

Definition on_left (f : frame) : Prop := match f with Fr Lft _ _ _ => True | Fr Rgt _ _ _ => False end.

Lemma successor_loop_spec s t p : rep (nodes s) p t -> uniq t -> t <> E -> exists path cs x c2, t = plug path (T cs E x c2) /\ Forall on_left path /\
  forall fuel succ0, (length path < fuel)%nat -> successor_loop fuel s succ0 (root t) = Ok (above succ0 path, x).
Proof.
  revert p. induction t as [|c l IHl y r IHr]; intros p Hr Hu Hne; [done|]. clear IHr Hne. destruct Hr as (Hy&Hl&Hr). destruct Hu as (Vy&Y1&Y2&Y3&Hul&Hur). destruct l as [|cl ll xl rl] eqn:El.
  - exists [], c, y, r. split; [done|]. split; [done|]. intros fuel succ0 Hf. destruct fuel as [|fuel]; [simpl in Hf; lia|]. cbn [successor_loop root]. rewrite (node_Ok _ _ _ Hy). done.
  - rewrite <- El in *. assert (Hne : l <> E) by (by rewrite El). destruct (IHl y Hl Hul Hne) as (path&cs&x&c2&Ep&Hleft&Hloop). exists (path ++ [Fr Lft c y r]), cs, x, c2. split; [rewrite plug_app, <- Ep; done|]. split; [apply Forall_app; split; [done|]; by constructor|].
    intros fuel succ0 Hf. rewrite length_app in Hf. simpl in Hf. destruct fuel as [|fuel]; [lia|]. cbn [successor_loop root]. rewrite (node_Ok _ _ _ Hy). cbn [obind mk rb_left]. rewrite root_E by done. rewrite El at 1. rewrite Hloop by lia. destruct path as [|[? ? ? ?] ?]; done.
Qed.

Lemma elements_left path : Forall on_left path -> exists rest, forall t, elements (plug path t) = elements t ++ rest.
Proof.
  intros Hl. induction path as [|[d c x sib] path IH]; [exists []; intros t; by rewrite app_nil_r|]. inversion Hl as [|f l Hd Hl']. subst. destruct d; [|done]. destruct (IH Hl') as (rest&Hrest). exists (x :: elements sib ++ rest). intros t. simpl. rewrite Hrest. simpl. by rewrite <- app_assoc.
Qed.

Lemma outer_hole k v w : k <> [] -> outer k v = outer k w.
Proof. destruct k as [|[d c x sib] k]; done. Qed.

Lemma outer_in k v : k <> [] -> outer k v ∈ ckeys k.
Proof. revert v. induction k as [|[d c x sib] k IH]; [done|]. intros v _. simpl. destruct k as [|fr k]; [simpl; set_solver|]. pose proof (IH x ltac:(done)). set_solver. Qed.

(** What [take_successor] leaves: the way down to the place of the successor [sx]
    hangs below it, with its right subtree [c2] at the end. *)
Lemma take_successor_spec s q r : rep (nodes s) q r -> uniq r -> pointer q -> r <> E -> (size (keys r) <= size (nodes s))%nat -> exists path cs sx c2 s',
  r = plug path (T cs E sx c2) /\ Forall on_left path /\ take_successor s (root r) = Ok (s', above sx path, sx, root c2) /\
  seg (nodes s') sx path (root c2) /\ nodes s' !! sx = Some (mk Lft (above q path) cs 0 (outer path (root c2))) /\ rep (nodes s') sx c2 /\ touches (keys r) s s'.
Proof.
  intros Hr Hu Hq Hne Hfuel. destruct r as [|cr rl y rr]; [done|]. clear Hne. pose proof Hr as (Hy&Hrl&Hrr). pose proof Hu as (Vy&Y1&Y2&Y3&Hul&Hur). unfold take_successor. cbn [root]. rewrite (node_Ok _ _ _ Hy). cbn [obind mk rb_left rb_right]. rewrite root_E by done. destruct rl as [|cl ll xl lr] eqn:El.
  - exists [], cr, y, rr, s. split; [done|]. split; [done|]. split; [done|]. split; [done|]. split; [done|]. split; [done|by split].
  - rewrite <- El in *. assert (Hne : rl <> E) by (by rewrite El). destruct (successor_loop_spec s rl y Hrl Hul Hne) as (path&cs&sx&c2&Ep&Hleft&Hloop). set (pa := path ++ [Fr Lft cr y rr]). assert (Er : T cr rl y rr = plug pa (T cs E sx c2)) by (unfold pa; rewrite plug_app, <- Ep; done).
    rewrite Er in Hr, Hu. pose proof Hu as Hu'. apply uniq_plug in Hu' as (Hux&Hupa&Hdis). apply rep_plug in Hr as (Hx&Hseg). destruct Hx as (Hx&_&Hc2). destruct Hux as (Vx&_&X2&_&_&Huc2). simpl in Hdis.
    assert (Hlen : (length pa <= size (keys (T cr rl y rr)))%nat) by (rewrite Er, keys_plug; pose proof (context_size pa Hupa); assert (ckeys pa ⊆ keys (T cs E sx c2) ∪ ckeys pa) as Hsub by set_solver; apply subseteq_size in Hsub; lia).
    assert (Hlp : length pa = S (length path)) by (unfold pa; rewrite length_app; simpl; lia). rewrite Hloop by (unfold rounds; lia). cbn [obind]. rewrite (node_Ok _ _ _ Hx). cbn [obind mk rb_right].
    assert (Hpa : pa <> []) by (unfold pa; destruct path; done). assert (Hab : above y path = above q pa) by (unfold pa; destruct path as [|[? ? ? ?] ?]; done). assert (Hout : outer pa (root c2) = y).
    { rewrite (outer_hole pa _ (root (T cs E sx c2))) by done. rewrite <- outer_plug, <- Er. done. }
    destruct pa as [|[d c0 x0 sib0] pa'] eqn:Epa; [done|]. assert (Hl2 : Forall on_left (Fr d c0 x0 sib0 :: pa')) by (rewrite <- Epa; unfold pa; apply Forall_app; split; [done|]; by constructor). assert (d = Lft) by (inversion Hl2 as [|f l Hd _]; by destruct d). subst d.
    assert (Hx0 : above y path = x0) by (rewrite Hab; done). rewrite Hx0. destruct (seg_hole s q Lft c0 x0 sib0 pa' sx (root c2) Hseg Hupa) as (s1&->&Hseg1&Hr1&Hs1). cbn [obind].
    assert (Hxx : sx <> x0) by (simpl in Hdis; sets). assert (Hx1 : nodes s1 !! sx = Some (mk Lft x0 cs 0 (root c2))) by (rewrite Hs1 by sets; exact Hx). rewrite (update_Ok _ _ _ _ Hx1). change (set_child Rgt y (mk Lft x0 cs 0 (root c2))) with (mk Lft x0 cs 0 y). cbn [obind].
    set (s2 := RbRoot _ _). assert (Hs2 : forall z, z <> sx -> z <> x0 -> nodes s2 !! z = nodes s !! z) by (intros z Z1 Z2; unfold s2; cbn [nodes]; rewrite lookup_insert_ne by done; apply Hs1; sets).
    assert (Hseg2 : seg (nodes s2) q (Fr Lft c0 x0 sib0 :: pa') (root c2)) by (eapply seg_frame; [|exact Hseg1]; intros z Hz; unfold s2; cbn [nodes]; rewrite lookup_insert_ne by sets; done).
    destruct (seg_top s2 q sx (Fr Lft c0 x0 sib0 :: pa') (root c2) Hseg2 Hupa Hpa Hq) as (s3&Hrun3&Hseg3&Hr3&Hs3). rewrite Hout in Hrun3. rewrite Hrun3. cbn [obind]. exists (Fr Lft c0 x0 sib0 :: pa'), cs, sx, c2, s3.
    split; [exact Er|]. split; [done|]. split; [done|]. split; [done|]. split; [rewrite Hout, Hs3 by sets; unfold s2; cbn [nodes]; by rewrite lookup_insert_eq|].
    split; [eapply rep_frame; [|exact Hc2]; intros z Hz; rewrite Hs3 by sets; apply Hs2; simpl in Hdis; sets|]. split; [rewrite Hr3; exact Hr1|]. intros z Hz. rewrite Er, keys_plug in Hz. simpl in Hz. rewrite Hs3 by (simpl; sets). apply Hs2; sets.
Qed.

(** ** The sequence around a subtree *)

Fixpoint before (k : list frame) : list Z := match k with [] => [] | Fr Lft _ _ _ :: k => before k | Fr Rgt _ x sib :: k => before k ++ elements sib ++ [x] end.

Fixpoint after (k : list frame) : list Z := match k with [] => [] | Fr Lft _ x sib :: k => x :: elements sib ++ after k | Fr Rgt _ _ _ :: k => after k end.

Lemma elements_split k t : elements (plug k t) = before k ++ elements t ++ after k.
Proof.
  revert t. induction k as [|[d c x sib] k IH]; intros t; simpl; [by rewrite app_nil_r|]. rewrite IH, elements_N. destruct d; simpl; rewrite <- ?app_assoc; simpl; by rewrite <- ?app_assoc.
Qed.

Lemma elem_keys t z : z ∈ keys t <-> z ∈ elements t.
Proof. induction t as [|c l IHl x r IHr]; simpl; [set_solver|]. rewrite elem_of_app, elem_of_cons, <- IHl, <- IHr. set_solver. Qed.

Lemma okc_rekey path d c x y l k n : okc (path ++ Fr d c x l :: k) n -> okc (path ++ Fr d c y l :: k) n.
Proof.
  revert n. induction path as [|[d' c' x' sib'] path IH]; intros n; [done|]. simpl. intros (H1&H2&H3&H4). split; [done|]. split; [|split; [done|by apply IH]]. intros Hc. destruct (H2 Hc) as (H5&H6). split; [done|]. by destruct path as [|[? ? ? ?] ?].
Qed.

(** ** Unlinking *)

(** What [__rb_erase_augmented] leaves, with the node at which to rebalance: the
    store represents a tree with the sequence [es]; it is a red-black tree, or
    lacks a black node at the empty subtree below the node. *)
Definition unlinked (s : rb_root) (es : list Z) (s' : rb_root) (rebalance : Z) : Prop :=
  exists k t, zip s' k t /\ elements (plug k t) = es /\ (forall z, z ∉ keys (plug k t) -> nodes s' !! z = nodes s !! z) /\
    (rebalance = 0 /\ red_black (plug k t) \/ rebalance = up k /\ k <> [] /\ t = E /\ deficient k E).

(** Without children to keep, the place of the node is empty. *)
Lemma unlinked_empty s k c es s' : zip s' k E -> okc k (weight c) -> elements (plug k E) = es -> (forall z, z ∉ keys (plug k E) -> nodes s' !! z = nodes s !! z) -> unlinked s es s' (if isblack c then up k else 0).
Proof.
  intros Hz Hok He Hf. exists k, E. split; [done|]. split; [done|]. split; [done|]. destruct c; [left; split; [done|]; by apply plug_red_black|]. destruct k as [|fr k]; [by left|]. right. split; [done|]. split; [done|]. split; [done|]. by split.
Qed.

Lemma unlink_right s k c x r : zip s k (T c E x r) -> red_black (plug k (T c E x r)) -> exists s' reb, __rb_erase_augmented s x = Ok (s', reb) /\ unlinked s (before k ++ elements r ++ after k) s' reb.
Proof.
  intros ((Hx&_&Hr)&Hk&(Vx&_&X2&_&_&Hur)&Huk&Hd) Hrb. cbn [keys root] in *. pose proof (up_pointer k Huk) as Hup. apply plug_ok in Hrb as ((Hb&Hc&_&Hor)&Hokc&_). simpl in Hb, Hc, Hokc. unfold __rb_erase_augmented. rewrite (node_Ok _ _ _ Hx). cbn [obind mk rb_right rb_left __rb_parent_color root Z.eqb]. rewrite pc_parent by done.
  destruct (change_child_spec s k x (root r) Hk Huk Vx ltac:(sets)) as (s1&->&Hk1&Hs1). cbn [obind]. rewrite root_E by done. destruct r as [|cr rl y rr]; cbn [negb].
  - unfold __rb_is_black. rewrite pc_color by done. exists s1, (if isblack c then up k else 0). split; [by destruct c|]. apply (unlinked_empty s k c); [split; [done|]; split; [done|]; split; [done|]; split; [done|]; apply disjoint_empty_l|done|by rewrite elements_split|]. rewrite keys_plug. intros z Hz. apply Hs1. sets.
  - simpl in Hb. assert (Hcr : cr = Red) by (destruct cr; [done|simpl in Hb; lia]). subst cr. assert (c = Black) as -> by (destruct c; [by destruct (Hc eq_refl)|done]). simpl in Hokc, Hb. simpl in Hor. destruct Hor as (Hor1&_&Hor2&Hor3).
    destruct (update_root s1 y x Red rl y rr (up k) Black) as (s2&Hrun&Hr2&Hroot2&Hs2); [eapply rep_frame; [|exact Hr]; intros z Hz; apply Hs1; sets|done|done|]. cbn [root]. change RB_BLACK with (bit Black). rewrite Hrun. cbn [obind]. exists s2, 0. split; [done|]. cbn [keys] in *.
    exists k, (T Black rl y rr). split; [split; [done|]; split; [|split; [done|split; [done|cbn [keys]; sets]]]|]. { rewrite Hroot2. eapply repc_frame; [|exact Hk1]. intros z Hz. apply Hs2. sets. }
    split; [by rewrite elements_split|]. split; [rewrite keys_plug; cbn [keys]; intros z Hz; rewrite Hs2 by sets; apply Hs1; sets|]. left. split; [done|]. apply plug_red_black; [done| |done]. simpl. by replace (bh rl + 1)%nat with 1%nat by lia.
Qed.

Lemma unlink_left s k c x l : zip s k (T c l x E) -> l <> E -> red_black (plug k (T c l x E)) -> exists s' reb, __rb_erase_augmented s x = Ok (s', reb) /\ unlinked s (before k ++ elements l ++ after k) s' reb.
Proof.
  intros ((Hx&Hl&_)&Hk&(Vx&X1&_&_&Hul&_)&Huk&Hd) Hne Hrb. cbn [keys root] in *. pose proof (up_pointer k Huk) as Hup. apply plug_ok in Hrb as ((Hb&Hc&Hol&_)&Hokc&_). simpl in Hb, Hc, Hokc. unfold __rb_erase_augmented. rewrite (node_Ok _ _ _ Hx). cbn [obind mk rb_right rb_left __rb_parent_color root]. rewrite root_E by done. destruct l as [|cl ll y lr]; [done|]. clear Hne. cbn [Z.eqb].
  simpl in Hb. assert (Hcl : cl = Red) by (destruct cl; [done|simpl in Hb; lia]). subst cl. assert (c = Black) as -> by (destruct c; [by destruct (Hc eq_refl)|done]). simpl in Hokc, Hb. destruct Hol as (Hol1&_&Hol2&Hol3).
  destruct (update_root s y x Red ll y lr (up k) Black Hl Hul eq_refl) as (s1&Hrun&Hr1&Hroot1&Hs1). change RB_BLACK with (bit Black). cbn [root]. rewrite Hrun. cbn [obind]. rewrite pc_parent by done. cbn [keys] in *.
  destruct (change_child_spec s1 k x y) as (s2&->&Hk2&Hs2); [rewrite Hroot1; eapply repc_frame; [|exact Hk]; intros z Hz; apply Hs1; sets|done|done|sets|]. cbn [obind]. exists s2, 0. split; [done|].
  exists k, (T Black ll y lr). split; [split; [|split; [done|split; [done|split; [done|cbn [keys]; sets]]]]|]. { eapply rep_frame; [|exact Hr1]. cbn [keys]. intros z Hz. apply Hs2. sets. }
  split; [by rewrite elements_split|]. split; [rewrite keys_plug; cbn [keys]; intros z Hz; rewrite Hs2 by sets; apply Hs1; sets|]. left. split; [done|]. apply plug_red_black; [done| |done]. simpl. by replace (bh ll + 1)%nat with (bh ll + 0 + 1)%nat by lia.
Qed.

(** The successor takes the place of the node. *)
Lemma moved_zip s k c l sx path t : nodes s !! sx = Some (mk Lft (up k) c (root l) (outer path (root t))) -> rep (nodes s) sx l -> seg (nodes s) sx path (root t) -> repc (nodes s) (root_node s) k sx -> rep (nodes s) (above sx path) t ->
  uniq (T c l sx (plug path t)) -> uniqc k -> keys (T c l sx (plug path t)) ## ckeys k -> zip s (path ++ Fr Rgt c sx l :: k) t.
Proof.
  intros Hx Hl Hseg Hk Ht Hu Huk Hd. apply zip_plug. rewrite plug_app. cbn [plug]. apply (proj1 (zip_plug s k _)). split; [|split; [done|]; split; [done|]; split; done]. cbn [N]. split; [by rewrite outer_plug|]. split; [done|]. by apply rep_plug.
Qed.

(** The common part of the third case: the store when the colours are still to be set. *)
Lemma unlink_both_links s k c l x r : zip s k (T c l x r) -> l <> E -> r <> E -> exists path cs sx c2 s4,
  r = plug path (T cs E sx c2) /\ Forall on_left path /\ uniq (T c l sx (plug path c2)) /\ keys (T c l sx (plug path c2)) ## ckeys k /\
  __rb_erase_augmented s x =
    (if negb (root c2 =? 0) then let* s := update s4 sx (set_pc (Z.lor (up k) (bit c))) in let* s := rb_set_parent_color s (root c2) (above sx path) RB_BLACK in Ok (s, 0)
     else let* s := update s4 sx (set_pc (Z.lor (up k) (bit c))) in Ok (s, if isblack cs then above sx path else 0)) /\
  nodes s4 !! sx = Some (mk Lft (above x path) cs (root l) (outer path (root c2))) /\ rep (nodes s4) sx l /\ seg (nodes s4) sx path (root c2) /\ repc (nodes s4) (root_node s4) k sx /\ rep (nodes s4) sx c2 /\
  forall z, z ∉ keys l -> z ∉ keys r -> z ∉ ckeys k -> nodes s4 !! z = nodes s !! z.
Proof.
  intros Hz Hl0 Hr0. pose proof Hz as ((Hx&Hl&Hr)&Hk&(Vx&X1&X2&X3&Hul&Hur)&Huk&Hd). cbn [keys root] in *. pose proof (up_pointer k Huk) as Hup.
  destruct (take_successor_spec s x r Hr Hur ltac:(by right) Hr0) as (path&cs&sx&c2&s1&Er&Hleft&Htake&Hseg1&Hsx1&Hc1&Hroot1&Hs1). { pose proof (rep_dom _ _ _ Hr) as Hdom. apply subseteq_size in Hdom. by rewrite size_dom in Hdom. }
  pose proof Hur as Hu2. rewrite Er in Hu2. apply uniq_plug in Hu2 as ((Vsx&_&S2&_&_&Huc2)&Hup2&Hd2). cbn [keys] in Hd2. assert (Kr : keys r = {[sx]} ∪ (∅ ∪ keys c2) ∪ ckeys path) by (by rewrite Er, keys_plug).
  assert (Hpx : pointer (above x path)) by (destruct path as [|[? ? ? ?] ?]; [by right|]; right; by destruct Hup2).
  exists path, cs, sx, c2. unfold __rb_erase_augmented. rewrite (node_Ok _ _ _ Hx). cbn [obind mk rb_right rb_left]. rewrite (root_E l), (root_E r) by done. destruct l as [|cl ll y lr] eqn:El; [done|]. destruct r as [|cr rl w rr] eqn:Erw; [done|]. rewrite <- El, <- Erw in *. clear Hl0 Hr0. rewrite Htake. cbn [obind].
  assert (Hx1 : nodes s1 !! x = Some (mk Lft (up k) c (root l) (root r))) by (rewrite Hs1 by done; exact Hx). rewrite (node_Ok _ _ _ Hx1). cbn [obind mk rb_left]. rewrite (update_Ok _ _ _ _ Hsx1), set_child_mk. cbn [obind]. set (s2 := RbRoot _ _).
  assert (Hs2 : forall z, z <> sx -> nodes s2 !! z = nodes s1 !! z) by (intros z Hzs; unfold s2; cbn [nodes]; by rewrite lookup_insert_ne). rewrite Kr in Hd, X2, X3, Hs1.
  destruct (set_parent_if_spec s2 x l sx) as (s3&Hrun&Hl3&Hroot3&Hs3); [eapply rep_frame; [|exact Hl]; intros z Hzl; rewrite Hs2 by sets; apply Hs1; sets|done|by right|]. rewrite root_E in Hrun by done. rewrite El in Hrun at 1. rewrite Hrun. cbn [obind].
  assert (Hx3 : nodes s3 !! x = Some (mk Lft (up k) c (root l) (root r))) by (rewrite Hs3, Hs2 by sets; exact Hx1). rewrite (node_Ok _ _ _ Hx3). cbn [obind mk __rb_parent_color]. rewrite pc_parent by done.
  destruct (change_child_spec s3 k x sx) as (s4&->&Hk4&Hs4); [rewrite Hroot3; unfold s2; cbn [root_node]; rewrite Hroot1; eapply repc_frame; [|exact Hk]; intros z Hzk; rewrite Hs3, Hs2 by sets; apply Hs1; sets|done|done|sets|]. cbn [obind]. exists s4.
  assert (Hsx4 : nodes s4 !! sx = Some (mk Lft (above x path) cs (root l) (outer path (root c2)))) by (rewrite Hs4, Hs3 by sets; unfold s2; cbn [nodes]; by rewrite lookup_insert_eq).
  split; [exact Er|]. split; [done|]. split; [split; [done|]; rewrite keys_plug; split; [sets|]; split; [sets|]; split; [sets|]; split; [done|]; apply uniq_plug; sets|]. split; [cbn [keys]; rewrite keys_plug; sets|].
  split; [rewrite (node_Ok _ _ _ Hsx4); cbn [obind mk __rb_parent_color]; unfold __rb_is_black; rewrite pc_color by done; by destruct cs|]. split; [done|]. split; [eapply rep_frame; [|exact Hl3]; intros z Hzl; apply Hs4; sets|].
  split; [eapply seg_frame; [|exact Hseg1]; intros z Hzp; rewrite Hs4, Hs3, Hs2 by sets; done|]. split; [done|]. split; [eapply rep_frame; [|exact Hc1]; intros z Hzc; rewrite Hs4, Hs3, Hs2 by sets; done|].
  intros z Z1 Z2 Z3. rewrite Kr in Z2. rewrite Hs4, Hs3, Hs2 by sets. apply Hs1. sets.
Qed.

Lemma unlink_both s k c l x r : zip s k (T c l x r) -> l <> E -> r <> E -> red_black (plug k (T c l x r)) -> exists s' reb, __rb_erase_augmented s x = Ok (s', reb) /\ unlinked s (before k ++ (elements l ++ elements r) ++ after k) s' reb.
Proof.
  intros Hz Hl Hr Hrb. destruct (unlink_both_links s k c l x r Hz Hl Hr) as (path&cs&sx&c2&s4&Er&Hleft&Huniq&Hdisj&->&Hsx&Hl4&Hseg4&Hk4&Hc4&Hs4). pose proof Hz as (_&_&_&Huk&_). set (k1 := path ++ Fr Rgt c sx l :: k).
  assert (Hupk : up k1 = above sx path) by (unfold k1; destruct path as [|[? ? ? ?] ?]; done). assert (Hk1ne : k1 <> []) by (unfold k1; destruct path; done).
  assert (Hel : forall t, elements t = elements c2 -> elements (plug k1 t) = before k ++ (elements l ++ elements r) ++ after k).
  { intros t Ht. unfold k1. rewrite plug_app. cbn [plug N]. rewrite elements_split. cbn [elements]. destruct (elements_left path Hleft) as (rest&Hrest). rewrite Er, !Hrest, Ht. done. }
  assert (Hkeys : forall t, keys t = keys c2 -> keys (plug k1 t) = {[sx]} ∪ (keys l ∪ (keys c2 ∪ ckeys path)) ∪ ckeys k).
  { intros t Ht. unfold k1. rewrite plug_app. cbn [plug N]. rewrite keys_plug. cbn [keys]. by rewrite keys_plug, Ht. }
  rewrite Er in Hrb. change (plug k (T c l x (plug path (T cs E sx c2)))) with (plug (Fr Rgt c x l :: k) (plug path (T cs E sx c2))) in Hrb. rewrite <- plug_app in Hrb. apply plug_ok in Hrb as ((Hb&Hc&_&Hoc)&Hokc&_). apply (okc_rekey path Rgt c x sx) in Hokc. fold k1 in Hokc. simpl in Hb, Hc, Hokc. rewrite Er in Hs4. rewrite keys_plug in Hs4. cbn [keys] in *. pose proof Huniq as (Vsx&S1&S2&S3&Hul&Hup2). apply uniq_plug in Hup2 as (Huc2&Hup2&Hd2). rewrite keys_plug in *.
  rewrite (update_Ok _ _ _ _ Hsx), set_pc_mk. cbn [obind]. set (s5 := RbRoot _ _). assert (Hs5 : forall z, z <> sx -> nodes s5 !! z = nodes s4 !! z) by (intros z Hzs; unfold s5; cbn [nodes]; by rewrite lookup_insert_ne).
  assert (Hsx5 : nodes s5 !! sx = Some (mk Lft (up k) c (root l) (outer path (root c2)))) by (unfold s5; cbn [nodes]; by rewrite lookup_insert_eq).
  assert (Hc5 : rep (nodes s5) sx c2) by (eapply rep_frame; [|exact Hc4]; intros z Hzz; apply Hs5; sets).
  assert (Hmove : forall s6 t, touches (keys c2) s5 s6 -> rep (nodes s6) (above sx path) t -> root t = root c2 -> keys t = keys c2 -> uniq t -> zip s6 k1 t).
  { intros s6 t (Hroot6&Hs6) Ht Hrt Hkt Hut. unfold k1. apply moved_zip; rewrite ?Hrt; try done.
    - rewrite Hs6 by sets. done.
    - eapply rep_frame; [|exact Hl4]. intros z Hzz. rewrite Hs6, Hs5 by sets. done.
    - eapply seg_frame; [|exact Hseg4]. intros z Hzz. rewrite Hs6, Hs5 by sets. done.
    - rewrite Hroot6. eapply repc_frame; [|exact Hk4]. intros z Hzz. rewrite Hs6, Hs5 by sets. done.
    - cbn [uniq]. rewrite keys_plug, Hkt. split; [done|]. split; [done|]. split; [done|]. split; [done|]. split; [done|]. apply uniq_plug. rewrite Hkt. done.
    - cbn [keys]. rewrite keys_plug, Hkt. done. }
  rewrite root_E by done. destruct c2 as [|cc cl y cr] eqn:Ec2; cbn [negb].
  - exists s5, (if isblack cs then above sx path else 0). split; [done|]. rewrite <- Hupk. apply unlinked_empty; [by apply Hmove|done|by apply Hel|]. intros z Hzz. rewrite (Hkeys E) in Hzz by done. rewrite Hs5 by sets. apply Hs4; sets.
  - rewrite <- Ec2 in *. assert (Hne : c2 <> E) by (by rewrite Ec2). assert (Hred : hue c2 = Red) by (rewrite Ec2 in Hb |- *; destruct cc; [done|simpl in Hb; lia]). assert (cs = Black) as -> by (destruct cs; [by destruct (Hc eq_refl); congruence|done]).
    destruct (set_parent_color_spec s5 sx c2 (above sx path) Black Hc5 Huc2 Hne) as (s6&Hrun&Hc6&Ht6). change RB_BLACK with (bit Black). rewrite Hrun. cbn [obind]. exists s6, 0. split; [done|]. exists k1, (paint Black c2). split; [apply Hmove; rewrite ?root_paint, ?keys_paint, ?uniq_paint; done|].
    split; [apply Hel, elements_paint|]. split; [intros z Hzz; rewrite Hkeys in Hzz by apply keys_paint; destruct Ht6 as (_&Ht6); rewrite Ht6, Hs5 by sets; apply Hs4; sets|]. left. split; [done|]. apply plug_red_black; [by apply ok_paint_black|rewrite bh_paint_black by done; by rewrite <- Hb|by destruct c2].
Qed.

Lemma erase_augmented_spec s k c l x r : zip s k (T c l x r) -> red_black (plug k (T c l x r)) -> exists s' reb, __rb_erase_augmented s x = Ok (s', reb) /\ unlinked s (before k ++ (elements l ++ elements r) ++ after k) s' reb.
Proof.
  intros Hz Hrb. destruct (decide (root l = 0)) as [Hl|Hl]; [|destruct (decide (root r = 0)) as [Hr|Hr]].
  - destruct l as [|cl ll y lr]; [by apply (unlink_right s k c)|]. destruct Hz as (_&_&(_&_&_&_&((Hv&_)&_)&_)&_). simpl in Hl. lia.
  - destruct r as [|cr rl y rr]; [|destruct Hz as (_&_&(_&_&_&_&_&((Hv&_)&_))&_); simpl in Hr; lia]. rewrite app_nil_r. apply (unlink_left s k c); [done| |done]. by intros ->.
  - apply (unlink_both s k c); [done| | |done]; by intros ->.
Qed.

(** ** Erasure *)

Lemma erase_spec s k c l x r : zip s k (T c l x r) -> red_black (plug k (T c l x r)) -> exists s' t', rb_erase s x = Ok s' /\ represents s' t' /\ red_black t' /\ elements t' = before k ++ (elements l ++ elements r) ++ after k /\ forall z, z ∉ elements t' -> nodes s' !! z = nodes s !! z.
Proof.
  intros Hz Hrb. destruct (erase_augmented_spec s k c l x r Hz Hrb) as (s1&reb&Hrun&k1&t1&Hz1&He&Hs1&Hreb). unfold rb_erase. rewrite Hrun. cbn [obind]. destruct Hreb as [(->&Hrb1)|(->&Hne&->&Hdef)].
  - exists s1, (plug k1 t1). split; [done|]. split; [exact (proj1 (zip_plug s1 k1 t1) Hz1)|]. split; [done|]. split; [done|]. intros z Hout. apply Hs1. by rewrite elem_keys.
  - destruct (erase_color_spec s1 k1 _ Hne Hz1 Hdef eq_refl) as (s2&Hrun2&t'&Hrep&Hrb2&He2&Hs2). assert (Hup : (up k1 =? 0) = false) by (destruct Hz1 as (_&_&_&Huk&_); destruct k1 as [|[? ? y ?] ?]; [done|]; destruct Huk as ((Hv&_)&_); simpl; lia).
    rewrite Hup. cbn [negb]. exists s2, t'. split; [done|]. split; [done|]. split; [done|]. split; [congruence|]. intros z Hout. rewrite He2, <- elem_keys in Hout. rewrite Hs2 by done. by apply Hs1.
Qed.
