(* ===== verification/RbtreeWalk.v ===== *)
(** * RbtreeWalk: walking, linking and replacing *)

From stdpp Require Import gmap.
From S2P Require Import Prelude Rbtree RbtreeFacts RbtreeInsert RbtreeErase RbtreeRemove.

(** ** Sequences *)

(** The sequence read from the side [d]. *)
Definition from (d : side) (l : list Z) : list Z := match d with Lft => l | Rgt => reverse l end.

Lemma from_opp d l : from (opp d) l = reverse (from d l).
Proof. destruct d; simpl; [done|by rewrite reverse_involutive]. Qed.

Lemma from_N d c a x b : from d (elements (N d c a x b)) = from d (elements a) ++ x :: from d (elements b).
Proof. rewrite elements_N. destruct d; simpl; [done|]. by rewrite reverse_app, reverse_cons, <- app_assoc. Qed.

(** The first element, or NULL. *)
Definition first (l : list Z) : Z := default 0 (head l).

Lemma first_app l l' : l <> [] -> first (l ++ l') = first l.
Proof. by destruct l. Qed.

Lemma from_nonempty d t : t <> E -> from d (elements t) <> [].
Proof.
  destruct t as [|c l x r]; [done|]. intros _ H. apply (f_equal length) in H. assert (length (from d (elements (T c l x r))) = length (elements (T c l x r))) as H2 by (destruct d; [done|apply length_reverse]). rewrite H2 in H. simpl in H. rewrite length_app in H. simpl in H. lia.
Qed.

(** The sequence beyond a subtree, on the side [d]. *)
Definition beyond (d : side) (k : list frame) : list Z := match d with Lft => reverse (before k) | Rgt => after k end.

Lemma beyond_inner d c x sib k : beyond d (Fr (opp d) c x sib :: k) = x :: from (opp d) (elements sib) ++ beyond d k.
Proof. destruct d; simpl; [|done]. rewrite !reverse_app. by rewrite <- app_assoc. Qed.

Lemma beyond_outer d c x sib k : beyond d (Fr d c x sib :: k) = beyond d k.
Proof. by destruct d. Qed.

Lemma uniq_NoDup t : uniq t -> base.NoDup (elements t).
Proof.
  induction t as [|c l IHl x r IHr]; simpl; [intros _; constructor|]. intros (_&H1&H2&H3&H4&H5). rewrite elem_keys in H1, H2. apply list.NoDup_app. split; [auto|]. split; [|by apply list.NoDup_cons; auto]. intros z Hz Hz'. apply elem_of_cons in Hz' as [->|Hz']; [done|]. rewrite <- elem_keys in Hz, Hz'. by apply (H3 z).
Qed.

Lemma split_unique (A B A' B' : list Z) x : base.NoDup (A ++ x :: B) -> A ++ x :: B = A' ++ x :: B' -> A = A' /\ B = B'.
Proof.
  revert A'. induction A as [|a A IH]; intros A' Hnd Heq; destruct A' as [|a' A']; simpl in *; simplify_eq; [done| | |].
  - apply list.NoDup_cons in Hnd as (H&_). set_solver.
  - apply list.NoDup_cons in Hnd as (H&_). set_solver.
  - apply list.NoDup_cons in Hnd as (_&H). destruct (IH A' H) as (->&->); done.
Qed.

(** A node of the tree is the root of a subtree. *)
Lemma focus t x : x ∈ elements t -> exists k c l r, t = plug k (T c l x r).
Proof.
  induction t as [|c l IHl y r IHr]; simpl; [set_solver|]. rewrite elem_of_app, elem_of_cons. intros [H|[->|H]].
  - destruct (IHl H) as (k&c'&l'&r'&->). exists (k ++ [Fr Lft c y r]), c', l', r'. by rewrite plug_app.
  - by exists [], c, l, r.
  - destruct (IHr H) as (k&c'&l'&r'&->). exists (k ++ [Fr Rgt c y l]), c', l', r'. by rewrite plug_app.
Qed.

Lemma focus_at s t A x B : represents s t -> elements t = A ++ x :: B -> exists k c l r, t = plug k (T c l x r) /\ zip s k (T c l x r) /\ A = before k ++ elements l /\ B = elements r ++ after k.
Proof.
  intros Hrep He. destruct (focus t x) as (k&c&l&r&Ht); [rewrite He; set_solver|]. exists k, c, l, r. split; [done|]. split; [apply zip_plug; by rewrite <- Ht|]. pose proof Hrep as (_&_&Hu&_). apply uniq_NoDup in Hu. rewrite He in Hu. apply (split_unique A B _ _ x); [done|]. rewrite <- He, Ht, elements_split. simpl. by rewrite <- !app_assoc.
Qed.

(** ** Ends *)

Fixpoint height (t : tree) : nat := match t with E => 0%nat | T _ l _ r => S (height l `max` height r) end.

Lemma height_N d c a x b : height (N d c a x b) = S (height a `max` height b).
Proof. destruct d; simpl; lia. Qed.

Lemma height_pos t : t <> E -> (0 < height t)%nat.
Proof. destruct t; simpl; [done|lia]. Qed.

Lemma height_size t : uniq t -> (height t <= size (keys t))%nat.
Proof.
  induction t as [|c l IHl x r IHr]; simpl; [lia|]. intros (_&H1&H2&_&H4&H5). specialize (IHl H4). specialize (IHr H5). pose proof (size_add x (keys l) (keys r) H1 H2) as S1. pose proof (size_add x (keys r) (keys l) H2 H1) as S2. replace (keys r ∪ keys l) with (keys l ∪ keys r) in S2 by (apply (comm_L _)). lia.
Qed.

Lemma descend_spec fuel s d : forall t p, rep (nodes s) p t -> uniq t -> t <> E -> (height t <= fuel)%nat -> descend fuel s d (root t) = Ok (first (from d (elements t))).
Proof.
  induction fuel as [|fuel IH]; intros t p Hr Hu Hne Hf; [pose proof (height_pos t Hne); lia|].
  destruct (from_side d t Hne) as (a&b&Et). revert Hr Hu Hf. rewrite Et. generalize (hue t) (root t). intros c x. rewrite rep_N, uniq_N, height_N, root_N. intros (Hx&Ha&Hb) (Vx&X1&X2&X3&Hua&Hub) Hf. clear Et Hne t. cbn [descend]. rewrite (node_Ok _ _ _ Hx). cbn [obind]. rewrite child_mk, root_E by done. rewrite from_N.
  destruct a as [|ca la y ra] eqn:Ea; [by destruct d|]. rewrite <- Ea in *. assert (Hne : a <> E) by (by rewrite Ea). rewrite first_app by (by apply from_nonempty). apply (IH a x Ha Hua Hne). lia.
Qed.

Lemma rep_size s p t : rep (nodes s) p t -> (size (keys t) <= size (nodes s))%nat.
Proof. intros Hr. apply rep_dom, subseteq_size in Hr. by rewrite size_dom in Hr. Qed.

Lemma rep_height s p t : rep (nodes s) p t -> uniq t -> (height t <= rounds s)%nat.
Proof. intros Hr Hu. pose proof (rep_size s p t Hr). pose proof (height_size t Hu). unfold rounds. lia. Qed.

Lemma end_spec s t d : represents s t -> rb_end d s = Ok (first (from d (elements t))).
Proof.
  intros (Hr&Hroot&Hu&_). unfold rb_end. simpl in Hroot. rewrite Hroot, root_E by done. destruct t as [|c l x r] eqn:Et; [by destruct d|]. rewrite <- Et in *. apply (descend_spec _ s d t 0 Hr Hu); [by rewrite Et|by apply (rep_height s 0)].
Qed.

(** ** Neighbours *)

Lemma ascend_spec fuel s d : forall k t, (length k < fuel)%nat -> zip s k t -> t <> E -> ascend fuel s d (root t) = Ok (first (beyond d k)).
Proof.
  induction fuel as [|fuel IH]; intros k t Hf Hz Hne; [lia|]. pose proof Hz as (Hr&Hk&Hu&Huk&Hd). destruct t as [|c l x r] eqn:Et; [done|]. pose proof Hr as (Hx&_). cbn [ascend root]. rewrite (node_Ok _ _ _ Hx). cbn [obind]. rewrite parent_mk by (by apply up_pointer).
  destruct k as [|[d' cp p sib] k]; [by destruct d|]. cbn [up]. destruct Huk as (Vp&P1&P2&P3&Hus&Huk). destruct Hk as (Hp&_&_). replace (p =? 0) with false by (destruct Vp; lia). rewrite (node_Ok _ _ _ Hp). cbn [obind root]. destruct (decide (d' = d)) as [->|Hne'].
  - rewrite child_mk, Z.eqb_refl, beyond_outer. apply zip_up in Hz. rewrite <- (root_N d cp (T c l x r) p sib). apply IH; [simpl in Hf; lia|done|by destruct d].
  - assert (d' = opp d) as -> by (by destruct d, d'). rewrite mk_opp, child_mk, beyond_inner. assert ((x =? root sib) = false) as -> by (apply (roots_differ (T c l x r) sib); [done|done|]; cbn [ckeys] in Hd; sets). done.
Qed.

Lemma not_empty_node x p c : valid x -> pointer p -> p <> x -> (Z.lor p (bit c) =? x) = false.
Proof. intros Hx Hp Hne. apply Z.eqb_neq. intros Heq. apply Hne. transitivity (__rb_parent x); [rewrite <- Heq; symmetry; by apply pc_parent|]. rewrite <- (pc_red x) at 1. apply pc_parent. by right. Qed.

(** The neighbour of a node on the side [d]. *)
Lemma step_spec s k d c l x r : zip s k (T c l x r) -> rb_step d s x = Ok (first (from (opp d) (elements (match d with Lft => l | Rgt => r end)) ++ beyond d k)).
Proof.
  intros Hz. pose proof Hz as ((Hx&Hl&Hr)&Hk&(Vx&X1&X2&X3&Hul&Hur)&Huk&Hd). cbn [keys] in *. unfold rb_step. rewrite (node_Ok _ _ _ Hx). cbn [obind]. unfold RB_EMPTY_NODE. rewrite pc_mk, not_empty_node; [|done|by apply up_pointer|destruct k as [|[? ? y ?] ?]; simpl in *; [destruct Vx; lia|sets]].
  set (t := match d with Lft => l | Rgt => r end). assert (Ht : rep (nodes s) x t) by (by destruct d). assert (Hut : uniq t) by (by destruct d). assert (child d (mk Lft (up k) c (root l) (root r)) = root t) as -> by (by destruct d). rewrite root_E by done. destruct t as [|ct lt y rt] eqn:Et; cbn [negb].
  - destruct d; cbn [opp from elements app reverse]; apply (ascend_spec _ s _ k (T c l x r)); try done; pose proof (zip_fuel _ _ _ Hz); unfold rounds; lia.
  - rewrite <- Et in *. assert (Hne : t <> E) by (by rewrite Et). rewrite first_app by (by apply from_nonempty). apply (descend_spec _ s (opp d) t x Ht Hut Hne). by apply (rep_height s x).
Qed.

Lemma next_spec s t A x B : represents s t -> elements t = A ++ x :: B -> rb_next s x = Ok (first B).
Proof. intros Hrep He. destruct (focus_at s t A x B Hrep He) as (k&c&l&r&_&Hz&_&->). apply (step_spec s k Rgt c l x r Hz). Qed.

Lemma prev_spec s t A x B : represents s t -> elements t = A ++ x :: B -> rb_prev s x = Ok (first (reverse A)).
Proof. intros Hrep He. destruct (focus_at s t A x B Hrep He) as (k&c&l&r&_&Hz&->&_). unfold rb_prev. rewrite (step_spec s k Lft c l x r Hz). simpl. by rewrite reverse_app. Qed.

(** ** Postorder *)

Fixpoint postorder (t : tree) : list Z := match t with E => [] | T _ l x r => postorder l ++ postorder r ++ [x] end.

Fixpoint post_before (k : list frame) : list Z := match k with [] => [] | Fr Lft _ _ _ :: k => post_before k | Fr Rgt _ _ sib :: k => post_before k ++ postorder sib end.

Fixpoint post_after (k : list frame) : list Z := match k with [] => [] | Fr Lft _ x sib :: k => postorder sib ++ x :: post_after k | Fr Rgt _ x _ :: k => x :: post_after k end.

Lemma postorder_split k t : postorder (plug k t) = post_before k ++ postorder t ++ post_after k.
Proof. revert t. induction k as [|[d c x sib] k IH]; intros t; simpl; [by rewrite app_nil_r|]. rewrite IH. destruct d; simpl; rewrite <- ?app_assoc; done. Qed.

Lemma postorder_nonempty t : t <> E -> postorder t <> [].
Proof. destruct t as [|c l x r]; [done|]. intros _. simpl. rewrite app_assoc. intros H. by apply app_eq_nil in H as [_ ?]. Qed.

Lemma postorder_perm t : postorder t ≡ₚ elements t.
Proof. induction t as [|c l IHl x r IHr]; [done|]. simpl. rewrite IHl, IHr. apply Permutation_app_head. symmetry. apply Permutation_cons_append. Qed.

Lemma left_deepest_spec fuel s : forall t p, rep (nodes s) p t -> uniq t -> t <> E -> (height t <= fuel)%nat -> left_deepest fuel s (root t) = Ok (first (postorder t)).
Proof.
  induction fuel as [|fuel IH]; intros t p Hr Hu Hne Hf; [pose proof (height_pos t Hne); lia|].
  destruct t as [|c l x r]; [done|]. destruct Hr as (Hx&Hl&Hr). destruct Hu as (Vx&X1&X2&X3&Hul&Hur). cbn [height] in Hf. cbn [left_deepest root]. rewrite (node_Ok _ _ _ Hx). cbn [obind mk rb_left rb_right]. rewrite !root_E by done. destruct l as [|cl ll xl rl] eqn:El; cbn [negb].
  - destruct r as [|cr lr xr rr] eqn:Er; cbn [negb]; [done|]. rewrite <- Er in *. cbn [postorder]. assert (Hnr : r <> E) by (by rewrite Er). rewrite app_nil_l, first_app by (by apply postorder_nonempty). apply (IH r x Hr Hur Hnr). lia.
  - rewrite <- El in *. cbn [postorder]. assert (Hnl : l <> E) by (by rewrite El). rewrite first_app by (by apply postorder_nonempty). apply (IH l x Hl Hul Hnl). lia.
Qed.

Lemma left_deepest_node_spec s p t : rep (nodes s) p t -> uniq t -> t <> E -> rb_left_deepest_node s (root t) = Ok (first (postorder t)).
Proof. intros Hr Hu Hne. apply (left_deepest_spec _ s t p Hr Hu Hne). by apply (rep_height s p). Qed.

Lemma first_postorder_spec s t : represents s t -> rb_first_postorder s = Ok (first (postorder t)).
Proof. intros (Hr&Hroot&Hu&_). unfold rb_first_postorder. simpl in Hroot. rewrite Hroot, root_E by done. destruct t as [|c l x r] eqn:Et; [done|]. rewrite <- Et in *. apply (left_deepest_node_spec s 0 t Hr Hu). by rewrite Et. Qed.

Lemma next_postorder_zip s k t : zip s k t -> t <> E -> rb_next_postorder s (root t) = Ok (first (post_after k)).
Proof.
  intros (Hr&Hk&Hu&Huk&Hd) Hne. unfold rb_next_postorder. rewrite root_E by done. destruct t as [|c l x r]; [done|]. destruct Hr as (Hx&_). cbn [root]. rewrite (node_Ok _ _ _ Hx). cbn [obind]. rewrite parent_mk by (by apply up_pointer).
  destruct k as [|[d cp p sib] k]; [done|]. cbn [up]. destruct Huk as (Vp&P1&P2&P3&Hus&Huk). destruct Hk as (Hp&Hsib&_). replace (p =? 0) with false by (destruct Vp; lia). rewrite (node_Ok _ _ _ Hp). cbn [obind root]. assert (Hdis : keys (T c l x r) ## keys sib) by (cbn [ckeys] in Hd; sets). destruct d; cbn [mk rb_left rb_right].
  - rewrite Z.eqb_refl, root_E by done. destruct sib as [|cs ls xs rs] eqn:Es; cbn [negb andb]; [done|]. rewrite <- Es in *. assert (Hns : sib <> E) by (by rewrite Es). cbn [post_after]. rewrite first_app by (by apply postorder_nonempty). by apply (left_deepest_node_spec s p sib).
  - assert ((x =? root sib) = false) as -> by (by apply (roots_differ (T c l x r) sib)). done.
Qed.

Lemma next_postorder_spec s t A x B : represents s t -> postorder t = A ++ x :: B -> rb_next_postorder s x = Ok (first B).
Proof.
  intros Hrep He. pose proof Hrep as (_&_&Hu&_). assert (Hnd : base.NoDup (postorder t)) by (rewrite postorder_perm; by apply uniq_NoDup). destruct (focus t x) as (k&c&l&r&Ht); [rewrite <- postorder_perm, He; set_solver|].
  assert (Heq : A ++ x :: B = (post_before k ++ postorder l ++ postorder r) ++ x :: post_after k) by (rewrite <- He, Ht, postorder_split; simpl; by rewrite <- !app_assoc). rewrite He in Hnd. destruct (split_unique _ _ _ _ _ Hnd Heq) as (_&->). apply (next_postorder_zip s k (T c l x r)); [|done]. apply zip_plug. by rewrite <- Ht.
Qed.

(** ** Linking and replacing *)

(** The side of the innermost node of a context on which the subtree is. *)
Definition slot (k : list frame) : side := match k with [] => Lft | Fr d _ _ _ :: _ => d end.

Lemma link_node_spec s k x n : zip s k E -> nodes s !! x = Some n -> valid x -> x ∉ ckeys k -> exists s', rb_link_node s x (up k) (slot k) = Ok s' /\ zip s' k (T Red E x E) /\ forall z, z <> x -> z ∉ ckeys k -> nodes s' !! z = nodes s !! z.
Proof.
  intros (_&Hk&_&Huk&_) Hn Vx Hx. unfold rb_link_node. rewrite (update_Ok _ _ _ _ Hn). cbn [obind]. set (s1 := RbRoot _ _). assert (Hk1 : repc (nodes s1) (root_node s1) k 0) by (eapply repc_frame; [|exact Hk]; intros z Hz; unfold s1; cbn [nodes]; rewrite lookup_insert_ne by sets; done).
  assert (Hs1 : nodes s1 !! x = Some (mk Lft (up k) Red 0 0)) by (unfold s1; cbn [nodes]; rewrite lookup_insert_eq; unfold mk; by rewrite pc_red). assert (Hf1 : forall z, z <> x -> nodes s1 !! z = nodes s !! z) by (intros z Hz; unfold s1; cbn [nodes]; by rewrite lookup_insert_ne).
  assert (Hlink : exists s', store_link s1 (up k) (slot k) x = Ok s' /\ repc (nodes s') (root_node s') k x /\ forall z, z ∉ ckeys k -> nodes s' !! z = nodes s1 !! z).
  { unfold store_link. destruct k as [|[d c p sib] k]; cbn [up slot]; [eexists; split; [done|]; done|]. destruct Huk as (Vp&P1&P2&P3&Hus&Huk). destruct Hk1 as (Hp&Hsib&Hk1). replace (p =? 0) with false by (destruct Vp; lia). rewrite (update_Ok _ _ _ _ Hp), set_child_mk. eexists. split; [done|]. cbn [nodes root_node repc ckeys]. split; [|intros z Hz; rewrite lookup_insert_ne by sets; done].
    split; [by rewrite lookup_insert_eq|]. split; [eapply rep_frame; [|exact Hsib]|eapply repc_frame; [|exact Hk1]]; intros z Hz; rewrite lookup_insert_ne by sets; done. }
  destruct Hlink as (s'&Hrun&Hk'&Hs'). exists s'. split; [done|]. split; [|intros z Z1 Z2; rewrite Hs', Hf1 by done; done]. split; [split; [rewrite Hs' by done; exact Hs1|done]|]. split; [done|]. split; [split; [done|]; split; [set_solver|]; split; [set_solver|]; done|]. split; [done|]. cbn [keys]. set_solver.
Qed.

(** Linking at an empty place and rebalancing. *)
Lemma rb_insert_spec s k x n : zip s k E -> red_black (plug k E) -> nodes s !! x = Some n -> valid x -> x ∉ ckeys k ->
  exists s1 s' t', rb_link_node s x (up k) (slot k) = Ok s1 /\ rb_insert_color s1 x = Ok s' /\ represents s' t' /\ red_black t' /\ elements t' = before k ++ x :: after k /\ forall z, z ∉ elements t' -> nodes s' !! z = nodes s !! z.
Proof.
  intros Hz Hrb Hn Vx Hx. destruct (link_node_spec s k x n Hz Hn Vx Hx) as (s1&Hrun1&Hz1&Hs1). apply plug_ok in Hrb as (_&Hok&_). destruct (insert_color_spec s1 k x Hz1 Hok) as (s'&Hrun&t'&Hrep&Hrb&He&Hs'). rewrite elements_split in He. exists s1, s', t'. split; [done|]. split; [done|]. split; [done|]. split; [done|]. split; [done|].
  intros z Hout. rewrite He, <- elements_split with (t := T Red E x E), <- elem_keys in Hout. rewrite Hs' by done. rewrite keys_plug in Hout. cbn [keys] in Hout. apply Hs1; set_solver.
Qed.

Lemma set_parent_nonnull_spec s q t p : rep (nodes s) q t -> uniq t -> pointer q -> exists s', (if negb (root t =? 0) then rb_set_parent s (root t) p else Ok s) = Ok s' /\ rep (nodes s') p t /\ touches (keys t) s s'.
Proof. intros Hr Hu Hq. destruct (set_parent_if_spec s q t p Hr Hu Hq) as (s'&Hrun&H). exists s'. by destruct (root t =? 0). Qed.

Lemma replace_node_spec s k c l x r y n : zip s k (T c l x r) -> nodes s !! y = Some n -> valid y -> y ∉ keys (plug k (T c l x r)) ->
  exists s', rb_replace_node s x y = Ok s' /\ zip s' k (T c l y r) /\ forall z, z ∉ keys (plug k (T c l y r)) -> nodes s' !! z = nodes s !! z.
Proof.
  intros ((Hx&Hl&Hr)&Hk&(Vx&X1&X2&X3&Hul&Hur)&Huk&Hd) Hn Vy Hy. rewrite !keys_plug in *. cbn [keys root] in *. unfold rb_replace_node. rewrite (node_Ok _ _ _ Hx). cbn [obind]. rewrite parent_mk by (by apply up_pointer).
  destruct (change_child_spec s k x y Hk Huk Vx ltac:(sets)) as (s1&->&Hk1&Hs1). cbn [obind]. assert (Hx1 : nodes s1 !! x = Some (mk Lft (up k) c (root l) (root r))) by (rewrite Hs1 by sets; done). rewrite (node_Ok _ _ _ Hx1). cbn [obind mk rb_left].
  destruct (set_parent_nonnull_spec s1 x l y) as (s2&->&Hl2&Hroot2&Hs2); [eapply rep_frame; [|exact Hl]; intros z Hz; apply Hs1; sets|done|by right|]. cbn [obind]. assert (Hx2 : nodes s2 !! x = Some (mk Lft (up k) c (root l) (root r))) by (rewrite Hs2 by sets; done). rewrite (node_Ok _ _ _ Hx2). cbn [obind mk rb_right].
  destruct (set_parent_nonnull_spec s2 x r y) as (s3&->&Hr3&Hroot3&Hs3); [eapply rep_frame; [|exact Hr]; intros z Hz; rewrite Hs2, Hs1 by sets; done|done|by right|]. cbn [obind]. assert (Hx3 : nodes s3 !! x = Some (mk Lft (up k) c (root l) (root r))) by (rewrite Hs3 by sets; done). rewrite (node_Ok _ _ _ Hx3). cbn [obind].
  rewrite (update_Ok s3 y n) by (rewrite Hs3, Hs2, Hs1 by sets; done). eexists. split; [done|]. cbn [nodes]. split; [|intros z Hz; rewrite lookup_insert_ne by sets; rewrite Hs3, Hs2, Hs1 by sets; done]. split; [split; [cbn [nodes]; by rewrite lookup_insert_eq|]; split|split; [|split; [|split; [done|cbn [keys]; sets]]]]; cbn [nodes root_node].
  - eapply rep_frame; [|exact Hl2]. intros z Hz. rewrite lookup_insert_ne, Hs3 by sets. done.
  - eapply rep_frame; [|exact Hr3]. intros z Hz. rewrite lookup_insert_ne by sets. done.
  - rewrite Hroot3, Hroot2. eapply repc_frame; [|exact Hk1]. intros z Hz. rewrite lookup_insert_ne, Hs3, Hs2 by sets. done.
  - cbn [uniq]. sets.
Qed.

(** ** The height of a red-black tree *)

Lemma height_bh t : ok t -> (height t <= 2 * bh t + match hue t with Red => 1 | Black => 0 end)%nat.
Proof.
  induction t as [|c l IHl x r IHr]; simpl; [lia|]. intros (H1&H2&H3&H4). specialize (IHl H3). specialize (IHr H4). destruct c; simpl.
  - destruct (H2 eq_refl) as (Hl&Hr). rewrite Hl in IHl. rewrite Hr in IHr. lia.
  - destruct (hue l), (hue r); lia.
Qed.

Lemma bh_elements t : ok t -> (2 ^ bh t <= S (length (elements t)))%nat.
Proof.
  induction t as [|c l IHl x r IHr]; simpl; [lia|]. intros (H1&_&H3&H4). specialize (IHl H3). specialize (IHr H4). rewrite <- H1 in IHr. rewrite length_app. simpl. destruct c; simpl; [rewrite Nat.add_0_r; lia|]. rewrite Nat.add_1_r. simpl. lia.
Qed.

Lemma height_log t : red_black t -> (height t <= 2 * Nat.log2 (S (length (elements t))))%nat.
Proof.
  intros (Hok&Hh). pose proof (height_bh t Hok) as H1. rewrite Hh in H1. pose proof (bh_elements t Hok) as H2. apply Nat.log2_le_mono in H2. rewrite Nat.log2_pow2 in H2 by lia. lia.
Qed.

Lemma height_plug k t : (length k + height t <= height (plug k t))%nat.
Proof. revert t. induction k as [|[d c x sib] k IH]; intros t; simpl; [lia|]. specialize (IH (N d c t x sib)). rewrite height_N in IH. lia. Qed.

Lemma context_log k t : red_black (plug k t) -> (length k <= 2 * Nat.log2 (S (length (elements (plug k t)))))%nat.
Proof. intros Hrb. pose proof (height_plug k t). pose proof (height_log _ Hrb). lia. Qed.

(** With a node short, as after unlinking a black one. *)
Lemma deficient_log k : deficient k E -> (length k <= 2 * Nat.log2 (S (S (length (elements (plug k E))))))%nat.
Proof.
  intros (_&_&Hok). assert (Hrb : red_black (plug k (T Black E 0 E))) by (by apply plug_red_black). pose proof (context_log _ _ Hrb) as H. rewrite elements_split in H |- *. rewrite !length_app in *. simpl in *. by rewrite Nat.add_succ_r in H.
Qed.
