(* ===== verification/RbtreeSpec.v ===== *)
(** * RbtreeSpec: what red-black trees promise their users *)

From Stdlib Require Import Sorted.
From stdpp Require Import gmap.
From S2P Require Import Prelude Rbtree RbtreeFacts RbtreeInsert RbtreeErase RbtreeRemove RbtreeWalk.

(** ** Sorted sequences *)

Definition ascending {A : Type} (f : A -> Z) : list A -> Prop := StronglySorted (fun a b => f a <= f b).

Section ascending.
Context {A : Type} (f : A -> Z).

Lemma ascending_app (l1 l2 : list A) : ascending f (l1 ++ l2) <-> ascending f l1 /\ ascending f l2 /\ forall a b, a ∈ l1 -> b ∈ l2 -> f a <= f b.
Proof.
  induction l1 as [|a l1 IH]; simpl.
  - split; [intros H; split; [constructor|]; split; [done|]; set_solver|tauto].
  - split.
    + inversion 1 as [|? ? Hs Hf]; subst. apply IH in Hs as (H1&H2&H3). apply Forall_app in Hf as (Hf1&Hf2). split; [by constructor|]. split; [done|]. intros b c Hb Hc. apply elem_of_cons in Hb as [->|Hb]; [exact (proj1 (list.Forall_forall _ _) Hf2 c Hc)|auto].
    + intros (H1&H2&H3). inversion H1 as [|? ? Hs Hf]; subst. constructor; [apply IH; split; [done|]; split; [done|]; intros b c Hb Hc; apply H3; set_solver|]. apply Forall_app. split; [done|]. apply list.Forall_forall. intros b Hb. apply H3; [set_solver|done].
Qed.

(** Where an element with the key [e] goes. *)
Lemma ascending_split l e : ascending f l -> exists l1 l2, l = l1 ++ l2 /\ (forall a, a ∈ l1 -> f a <= e) /\ (forall a, a ∈ l2 -> e < f a).
Proof.
  induction 1 as [|a l Hs (l1&l2&->&H1&H2) Hf]; [exists [], []; split; [done|]; set_solver|]. destruct (Z.leb_spec (f a) e).
  - exists (a :: l1), l2. split; [done|]. split; [|done]. intros b Hb. apply elem_of_cons in Hb as [->|Hb]; [done|auto].
  - exists [], (a :: l1 ++ l2). split; [done|]. split; [set_solver|]. intros b Hb. apply elem_of_cons in Hb as [->|Hb]; [done|]. pose proof (proj1 (list.Forall_forall _ _) Hf b Hb) as H'. simpl in H'. lia.
Qed.

Lemma ascending_insert l1 x l2 : ascending f (l1 ++ l2) -> (forall a, a ∈ l1 -> f a <= f x) -> (forall a, a ∈ l2 -> f x < f a) -> ascending f (l1 ++ x :: l2).
Proof.
  intros Hs H1 H2. apply ascending_app in Hs as (S1&S2&S3). apply ascending_app. split; [done|]. split; [constructor; [done|]; apply list.Forall_forall; intros a Ha; specialize (H2 a Ha); lia|]. intros a b Ha Hb. apply elem_of_cons in Hb as [->|Hb]; [auto|by apply S3].
Qed.

Lemma ascending_remove l1 x l2 : ascending f (l1 ++ x :: l2) -> ascending f (l1 ++ l2).
Proof. intros Hs. apply ascending_app in Hs as (S1&S2&S3). inversion S2 as [|? ? S4 _]; subst. apply ascending_app. split; [done|]. split; [done|]. intros a b Ha Hb. apply S3; [done|set_solver]. Qed.

End ascending.

(** ** The interface *)

(** [holds s es]: the tree at the root of [s] has the nodes [es], in this order. *)
Class SearchTree (holds : rb_root -> list Z -> Prop) : Prop := {
  st_empty mem : holds (RB_ROOT mem) [];
  st_valid s es x : holds s es -> x ∈ es -> valid x;
  st_node s es x : holds s es -> x ∈ es -> is_Some (nodes s !! x);
  st_used s es x n : holds s es -> x ∈ es -> nodes s !! x = Some n -> RB_EMPTY_NODE x n = false;
  st_nodup s es : holds s es -> base.NoDup es;
  (** only the nodes in the tree matter *)
  st_frame s s' es : holds s es -> root_node s' = root_node s -> (forall x, x ∈ es -> nodes s' !! x = nodes s !! x) -> holds s' es;
  st_insert s L R cmp x n : holds s (L ++ R) -> (forall y, y ∈ L -> cmp y = Ok Rgt) -> (forall y, y ∈ R -> cmp y = Ok Lft) -> nodes s !! x = Some n -> valid x -> x ∉ L ++ R ->
    exists p d s1 s', seek (rounds s) s cmp (root_node s) 0 Lft = Ok (p, d) /\ rb_link_node s x p d = Ok s1 /\ rb_insert_color s1 x = Ok s' /\ holds s' (L ++ x :: R) /\
      forall z, z ∉ L ++ x :: R -> nodes s' !! z = nodes s !! z;
  st_erase s A x B : holds s (A ++ x :: B) -> exists s', rb_erase s x = Ok s' /\ holds s' (A ++ B) /\ forall z, z ∉ A ++ B -> nodes s' !! z = nodes s !! z;
  st_first s es : holds s es -> rb_first s = Ok (first es);
  st_next s A x B : holds s (A ++ x :: B) -> rb_next s x = Ok (first B);
  (** a search that goes right on [L], left on [R], and stops on [M] *)
  st_search (X : Type) s L M R (visit : X -> Z -> outcome (X * option side)) (upd : X -> Z -> X) (acc : X) : holds s (L ++ M ++ R) ->
    (forall a y, y ∈ L -> visit a y = Ok (a, Some Rgt)) -> (forall a y, y ∈ M -> visit a y = Ok (upd a y, None)) -> (forall a y, y ∈ R -> visit a y = Ok (upd a y, Some Lft)) -> (forall a y z, upd (upd a y) z = upd a z) ->
    (M = [] /\ search (rounds s) s visit acc (root_node s) = Ok (match R with [] => acc | y :: _ => upd acc y end, 0)) \/
    (exists y, y ∈ M /\ search (rounds s) s visit acc (root_node s) = Ok (upd acc y, y))
}.

(** ** Red-black trees provide it *)

Definition ordered (s : rb_root) (es : list Z) : Prop := exists t, represents s t /\ red_black t /\ elements t = es.

(** Where an element is in a sequence of three parts. *)
Lemma in_parts (A B L M R : list Z) y : A ++ y :: B = L ++ M ++ R -> (exists Q, L = A ++ y :: Q /\ B = Q ++ M ++ R) \/ y ∈ M \/ (exists Q, R = Q ++ y :: B /\ A = L ++ M ++ Q).
Proof.
  intros He. apply app_eq_inv in He as [(P&->&He)|(P&->&He)].
  - apply app_eq_inv in He as [(Q&->&He)|(Q&->&->)].
    + destruct Q as [|z Q]; simpl in He; [|injection He as <- ->; right; left; set_solver]. right. right. exists []. rewrite !app_nil_r. done.
    + right. right. exists Q. done.
  - destruct P as [|z P]; simpl in He.
    + rewrite app_nil_r. destruct M as [|z M]; simpl in He; [|injection He as <- ->; right; left; set_solver]. right. right. exists []. by rewrite !app_nil_r.
    + injection He as <- ->. left. by exists P.
Qed.

(** The place between two parts of the sequence. *)
Lemma seek_spec fuel s cmp : forall t k L R, zip s k t -> (height t < fuel)%nat -> elements t = L ++ R -> (forall y, y ∈ L -> cmp y = Ok Rgt) -> (forall y, y ∈ R -> cmp y = Ok Lft) ->
  exists k', seek fuel s cmp (root t) (up k) (slot k) = Ok (up k', slot k') /\ plug k' E = plug k t /\ before k' = before k ++ L /\ after k' = R ++ after k.
Proof.
  induction fuel as [|fuel IH]; intros t k L R Hz Hf He HL HR; [lia|]. pose proof Hz as (Hr&_&Hu&_&_). cbn [seek]. rewrite root_E by done. destruct t as [|c l y r].
  - symmetry in He. apply app_eq_nil in He as (->&->). exists k. split; [done|]. split; [done|]. by rewrite app_nil_r.
  - destruct Hr as (Hy&_&_). cbn [height] in Hf. cbn [root elements] in *. apply (in_parts _ _ L [] R) in He as [(Q&->&Er)|[Hin|(Q&->&El)]]; [|set_solver|].
    + rewrite HL by set_solver. cbn [obind]. rewrite (node_Ok _ _ _ Hy). cbn [obind]. destruct (IH r (Fr Rgt c y l :: k) Q R) as (k'&Hrun&Hp&Hb&Ha); [by apply zip_up|lia|done|set_solver|done|]. exists k'. split; [exact Hrun|]. split; [done|]. split; [rewrite Hb; simpl; by rewrite <- !app_assoc|done].
    + rewrite HR by set_solver. cbn [obind]. rewrite (node_Ok _ _ _ Hy). cbn [obind]. destruct (IH l (Fr Lft c y r :: k) L Q) as (k'&Hrun&Hp&Hb&Ha); [by apply zip_up|lia|done|done|set_solver|]. exists k'. split; [exact Hrun|]. split; [done|]. split; [done|]. rewrite Ha. simpl. by rewrite <- app_assoc.
Qed.

Lemma tree_search_spec {X : Type} fuel s (visit : X -> Z -> outcome (X * option side)) (upd : X -> Z -> X) : (forall a y z, upd (upd a y) z = upd a z) -> forall t p acc L M R, rep (nodes s) p t -> uniq t -> (height t < fuel)%nat -> elements t = L ++ M ++ R ->
  (forall a y, y ∈ L -> visit a y = Ok (a, Some Rgt)) -> (forall a y, y ∈ M -> visit a y = Ok (upd a y, None)) -> (forall a y, y ∈ R -> visit a y = Ok (upd a y, Some Lft)) ->
  (M = [] /\ search fuel s visit acc (root t) = Ok (match R with [] => acc | y :: _ => upd acc y end, 0)) \/ (exists y, y ∈ M /\ search fuel s visit acc (root t) = Ok (upd acc y, y)).
Proof.
  intros Hupd. induction fuel as [|fuel IH]; intros t p acc L M R Hr Hu Hf He HL HM HR; [lia|]. cbn [search]. rewrite root_E by done. destruct t as [|c l y r].
  - symmetry in He. apply app_eq_nil in He as (->&He). apply app_eq_nil in He as (->&->). by left.
  - destruct Hr as (Hy&Hl&Hr). destruct Hu as (_&_&_&_&Hul&Hur). cbn [height elements root] in *. apply in_parts in He as [(Q&->&Er)|[Hin|(Q&->&El)]].
    + rewrite HL by set_solver. cbn [obind]. rewrite (node_Ok _ _ _ Hy). cbn [obind]. apply (IH r y acc Q M R Hr Hur); [lia|done|intros a z Hz; apply HL; set_solver|done|done].
    + right. exists y. split; [done|]. rewrite HM by done. done.
    + rewrite HR by set_solver. cbn [obind]. rewrite (node_Ok _ _ _ Hy). cbn [obind]. destruct (IH l y (upd acc y) L M Q Hl Hul) as [(->&Hrun)|(z&Hz&Hrun)]; [lia|done|done|done|intros a z Hz; apply HR; set_solver|left; split; [done|]|right; exists z; split; [done|]; by rewrite <- (Hupd acc y z)].
      cbn [child mk rb_left] in *. rewrite Hrun. destruct Q as [|q Q]; [done|]. simpl. by rewrite Hupd.
Qed.

Lemma ordered_insert s L R cmp x n : ordered s (L ++ R) -> (forall y, y ∈ L -> cmp y = Ok Rgt) -> (forall y, y ∈ R -> cmp y = Ok Lft) -> nodes s !! x = Some n -> valid x -> x ∉ L ++ R ->
  exists p d s1 s', seek (rounds s) s cmp (root_node s) 0 Lft = Ok (p, d) /\ rb_link_node s x p d = Ok s1 /\ rb_insert_color s1 x = Ok s' /\ ordered s' (L ++ x :: R) /\ forall z, z ∉ L ++ x :: R -> nodes s' !! z = nodes s !! z.
Proof.
  intros (t&Ht&Hrb&He) HL HR Hn Vx Hx. pose proof Ht as (Hr&Hroot&Hu&_). simpl in Hroot. destruct (seek_spec (rounds s) s cmp t [] L R Ht) as (k&Hseek&Hplug&Hb&Ha); [pose proof (rep_size _ _ _ Hr); pose proof (height_size t Hu); unfold rounds; lia|done|done|done|]. simpl in Hplug, Hb, Ha. rewrite app_nil_r in Ha. rewrite <- Hplug in Ht, Hrb. apply zip_plug in Ht.
  assert (Hck : x ∉ ckeys k) by (rewrite <- He, <- elem_keys, <- Hplug, keys_plug in Hx; set_solver). destruct (rb_insert_spec s k x n Ht Hrb Hn Vx Hck) as (s1&s'&t'&Hlink&Hins&Hrep&Hrb'&Hel&Hs'). rewrite Hb, Ha in Hel. exists (up k), (slot k), s1, s'. split; [by rewrite Hroot|]. split; [done|]. split; [done|]. split; [by exists t'|]. intros z Hz. apply Hs'. by rewrite Hel.
Qed.

Lemma ordered_erase s A x B : ordered s (A ++ x :: B) -> exists s', rb_erase s x = Ok s' /\ ordered s' (A ++ B) /\ forall z, z ∉ A ++ B -> nodes s' !! z = nodes s !! z.
Proof.
  intros (t&Ht&Hrb&He). destruct (focus_at s t A x B Ht He) as (k&c&l&r&->&Hz&->&->). destruct (erase_spec s k c l x r Hz Hrb) as (s'&t'&H1&H2&H3&H4&H5). assert (He' : elements t' = (before k ++ elements l) ++ elements r ++ after k) by (by rewrite H4, <- !app_assoc). exists s'. split; [done|]. split; [by exists t'|]. intros z Hz'. apply H5. by rewrite He'.
Qed.

Lemma represents_frame s s' t : represents s t -> root_node s' = root_node s -> (forall z, z ∈ elements t -> nodes s' !! z = nodes s !! z) -> represents s' t.
Proof. intros (H1&H2&H3&H4) Hr Hn. split; [eapply rep_frame; [|exact H1]; intros z Hz; apply Hn; by rewrite <- elem_keys|]. split; [simpl in *; congruence|done]. Qed.

Lemma used_node s t x n : represents s t -> x ∈ elements t -> nodes s !! x = Some n -> RB_EMPTY_NODE x n = false.
Proof.
  intros Hrep Hx Hn. destruct (focus t x Hx) as (k&c&l&r&->). apply zip_plug in Hrep. destruct Hrep as ((Hn'&_)&_&(Vx&_)&Huk&Hd). assert (n = mk Lft (up k) c (root l) (root r)) as -> by congruence. unfold RB_EMPTY_NODE. rewrite pc_mk. apply not_empty_node; [done|by apply up_pointer|]. destruct k as [|[? ? y ?] ?]; simpl in *; [destruct Vx; lia|sets].
Qed.

#[export] Instance ordered_search_tree : SearchTree ordered.
Proof.
  split.
  - intros mem. exists E. split; [|done]. split; [done|]. split; [done|]. split; [done|]. split; [done|apply disjoint_empty_l].
  - intros s es x (t&(_&_&Hu&_)&_&<-) Hx. apply (keys_valid t); [done|]. by rewrite elem_keys.
  - intros s es x (t&(Hr&_)&_&<-) Hx. apply rep_dom in Hr. rewrite <- elem_keys in Hx. apply Hr in Hx. by apply elem_of_dom.
  - intros s es x n (t&Ht&_&<-) Hx Hn. by eapply used_node.
  - intros s es (t&(_&_&Hu&_)&_&<-). by apply uniq_NoDup.
  - intros s s' es (t&Ht&Hrb&<-) Hroot Hf. exists t. split; [by eapply represents_frame|done].
  - apply ordered_insert.
  - apply ordered_erase.
  - intros s es (t&Ht&_&<-). apply (end_spec s t Lft Ht).
  - intros s A x B (t&Ht&_&He). by eapply next_spec.
  - intros X s L M R visit upd acc (t&Ht&_&He) HL HM HR Hupd. pose proof Ht as (Hr&Hroot&Hu&_). simpl in Hroot. rewrite Hroot. apply (tree_search_spec (rounds s) s visit upd Hupd t 0 acc L M R Hr Hu); [pose proof (rep_size _ _ _ Hr); pose proof (height_size t Hu); unfold rounds; lia|done|done|done|done].
Qed.
