(* ===== verification/RbtreeProps.v ===== *)
(** * RbtreeProps: the properties of red-black trees *)

From stdpp Require Import gmap.
From S2P Require Import Prelude Rbtree RbtreeFacts RbtreeInsert RbtreeErase RbtreeRemove RbtreeWalk.

(** ** A concrete store: three nodes in a tree, and two more *)

Definition ex_store : rb_root := RbRoot (list_to_map [(4, RbNode 8 0 0); (8, RbNode 1 12 4); (12, RbNode 8 0 0); (16, RbNode 16 0 0); (20, RbNode 20 0 0)]) 8.
Definition ex_left : tree := T Red E 4 E.
Definition ex_rtree : tree := T Black ex_left 8 (T Red E 12 E).

Lemma valid_small x : 0 < x < 2 ^ 64 -> x mod 4 = 0 -> valid x.
Proof. intros H1 H2. split; done. Qed.

Lemma ex_represents : represents ex_store ex_rtree.
Proof.
  split; [split; [reflexivity|]; split; split; done|]. split; [reflexivity|]. split; [|split; [done|apply disjoint_empty_r]].
  split; [apply valid_small; [lia|done]|]. split; [apply (bool_decide_unpack _); vm_compute; exact I|]. split; [apply (bool_decide_unpack _); vm_compute; exact I|]. split; [apply (bool_decide_unpack _); vm_compute; exact I|]. split; (split; [apply valid_small; [lia|done]|]; split; [done|]; split; [done|]; done).
Qed.

Lemma ex_red_black : red_black ex_rtree.
Proof. unfold red_black. cbn. naive_solver. Qed.

(** ** Insertion and erasure *)

(** C27: in a red-black tree with an empty place [k], [rb_link_node] of a new node at
    this place and [rb_insert_color] always return, and leave a red-black tree (every
    parent pointer, child pointer and colour bit included) with the new node between
    the nodes before and after the place; no other node of the memory changes. *)
Theorem rb_insert_correct s k x n : represents s (plug k E) -> red_black (plug k E) -> nodes s !! x = Some n -> valid x -> x ∉ elements (plug k E) ->
  exists s1 s' t', rb_link_node s x (up k) (slot k) = Ok s1 /\ rb_insert_color s1 x = Ok s' /\ represents s' t' /\ red_black t' /\
    elements (plug k E) = before k ++ after k /\ elements t' = before k ++ x :: after k /\ forall z, z ∉ elements t' -> nodes s' !! z = nodes s !! z.
Proof.
  intros Hrep Hrb Hn Vx Hx. apply zip_plug in Hrep. rewrite <- elem_keys, keys_plug in Hx. destruct (rb_insert_spec s k x n Hrep Hrb Hn Vx ltac:(set_solver)) as (s1&s'&t'&H1&H2&H3&H4&H5&H6). exists s1, s', t'. split; [done|]. split; [done|]. split; [done|]. split; [done|]. split; [apply (elements_split k E)|done].
Qed.

Lemma rb_insert_correct_witness : exists s1 s', rb_link_node ex_store 16 12 Rgt = Ok s1 /\ rb_insert_color s1 16 = Ok s' /\ exists t', represents s' t' /\ red_black t' /\ elements t' = [4; 8; 12; 16].
Proof.
  destruct (rb_insert_correct ex_store [Fr Rgt Red 12 E; Fr Rgt Black 8 ex_left] 16 (RbNode 16 0 0)) as (s1&s'&t'&H1&H2&H3&H4&_&H5&_); [exact ex_represents|exact ex_red_black|reflexivity|apply valid_small; [lia|done]|apply (bool_decide_unpack _); vm_compute; exact I|].
  exists s1, s'. split; [exact H1|]. split; [exact H2|]. exists t'. split; [exact H3|]. split; [exact H4|exact H5].
Defined.

(** C28: [rb_erase] of any node of a red-black tree always returns, and leaves a
    red-black tree with the other nodes in the same order; the erased node and all
    nodes outside the tree are as before. *)
Theorem rb_erase_correct s t A x B : represents s t -> red_black t -> elements t = A ++ x :: B ->
  exists s' t', rb_erase s x = Ok s' /\ represents s' t' /\ red_black t' /\ elements t' = A ++ B /\ forall z, z ∉ elements t' -> nodes s' !! z = nodes s !! z.
Proof.
  intros Hrep Hrb He. destruct (focus_at s t A x B Hrep He) as (k&c&l&r&->&Hz&->&->). destruct (erase_spec s k c l x r Hz Hrb) as (s'&t'&H1&H2&H3&H4&H5). exists s', t'. split; [done|]. split; [done|]. split; [done|]. split; [by rewrite H4, <- !app_assoc|done].
Qed.

Lemma rb_erase_correct_witness : exists s' t', rb_erase ex_store 8 = Ok s' /\ represents s' t' /\ red_black t' /\ elements t' = [4; 12].
Proof. destruct (rb_erase_correct ex_store ex_rtree [4] 8 [12]) as (s'&t'&H1&H2&H3&H4&_); [exact ex_represents|exact ex_red_black|reflexivity|]. exists s', t'. split; [exact H1|]. split; [exact H2|]. split; [exact H3|exact H4]. Defined.

(** ** Walking and replacing *)

(** C29: in any tree, [rb_first] and [rb_last] return the ends of the sequence of nodes
    and [rb_next] and [rb_prev] the neighbours, NULL where there is none; the same
    holds of [rb_first_postorder] and [rb_next_postorder] and the sequence with every
    node after its children. *)
Theorem rb_walk_correct s t : represents s t ->
  rb_first s = Ok (first (elements t)) /\ rb_last s = Ok (first (reverse (elements t))) /\
  (forall A x B, elements t = A ++ x :: B -> rb_next s x = Ok (first B) /\ rb_prev s x = Ok (first (reverse A))) /\
  rb_first_postorder s = Ok (first (postorder t)) /\ forall A x B, postorder t = A ++ x :: B -> rb_next_postorder s x = Ok (first B).
Proof.
  intros Hrep. split; [apply (end_spec s t Lft Hrep)|]. split; [apply (end_spec s t Rgt Hrep)|]. split; [intros A x B He; split; [by eapply next_spec|by eapply prev_spec]|]. split; [by apply first_postorder_spec|]. intros A x B He. by eapply next_postorder_spec.
Qed.

Lemma rb_walk_correct_witness : rb_first ex_store = Ok 4 /\ rb_next ex_store 8 = Ok 12 /\ rb_next_postorder ex_store 12 = Ok 8.
Proof. destruct (rb_walk_correct ex_store ex_rtree ex_represents) as (H1&_&H2&_&H3). split; [exact H1|]. split; [apply (H2 [4] 8 [12]); reflexivity|]. apply (H3 [4] 12 [8]). reflexivity. Defined.

(** [rb_replace_node] puts a node that is not in the tree in the place of one that
    is, with its colour; every other node outside the tree is as before. *)
Theorem rb_replace_correct s k c l x r y n : represents s (plug k (T c l x r)) -> nodes s !! y = Some n -> valid y -> y ∉ elements (plug k (T c l x r)) ->
  exists s', rb_replace_node s x y = Ok s' /\ represents s' (plug k (T c l y r)) /\ forall z, z ∉ elements (plug k (T c l y r)) -> nodes s' !! z = nodes s !! z.
Proof.
  intros Hrep Hn Vy Hy. apply zip_plug in Hrep. rewrite <- elem_keys in Hy. destruct (replace_node_spec s k c l x r y n Hrep Hn Vy Hy) as (s'&H1&H2&H3). exists s'. split; [done|]. split; [exact (proj1 (zip_plug s' k _) H2)|]. intros z Hz. apply H3. by rewrite elem_keys.
Qed.

Lemma rb_replace_correct_witness : exists s', rb_replace_node ex_store 8 20 = Ok s' /\ represents s' (T Black ex_left 20 (T Red E 12 E)).
Proof. destruct (rb_replace_correct ex_store [] Black ex_left 8 (T Red E 12 E) 20 (RbNode 20 0 0)) as (s'&H1&H2&_); [exact ex_represents|reflexivity|apply valid_small; [lia|done]|apply (bool_decide_unpack _); vm_compute; exact I|]. exists s'. split; [exact H1|exact H2]. Defined.

(** ** The number of rounds *)

(** C30: every loop takes at most about twice the binary logarithm of the number of
    nodes: with this many rounds the walks of [rb_first], [rb_last], [rb_next] and
    [rb_prev] reach their end, and the rebalancing after an insertion and an erasure
    is complete. *)
Theorem rb_rounds_logarithmic s k t fuel : zip s k t -> (2 * Nat.log2 (S (S (length (elements (plug k t))))) < fuel)%nat ->
  (red_black (plug k t) -> t <> E -> (forall d, descend fuel s d (root t) = Ok (first (from d (elements t))) /\ ascend fuel s d (root t) = Ok (first (beyond d k)))) /\
  (forall x, t = T Red E x E -> okc k 0 -> exists s', insert_loop fuel s x (up k) = Ok s' /\ rebalanced s (plug k t) s') /\
  (t = E -> k <> [] -> deficient k E -> exists s', erase_loop fuel s 0 (up k) = Ok s' /\ rebalanced s (plug k t) s').
Proof.
  intros Hz Hf. pose proof Hz as (Hr&_&Hu&_&_). assert (Hlog : (Nat.log2 (S (length (elements (plug k t)))) <= Nat.log2 (S (S (length (elements (plug k t))))))%nat) by (apply Nat.log2_le_mono; lia). split; [|split].
  - intros Hrb Hne d. pose proof (height_plug k t). pose proof (height_log _ Hrb). split; [apply (descend_spec fuel s d t (up k) Hr Hu Hne); lia|]. apply ascend_spec; [lia|done|done].
  - intros x -> Hok. assert (Hrb : red_black (plug k E)) by (by apply plug_red_black). pose proof (context_log k E Hrb) as Hk. rewrite !elements_split in *. apply (insert_loop_spec fuel s k (T Red E x E)); try done. rewrite !length_app in *. simpl in *. rewrite Nat.add_succ_r in Hf. assert (Hl2 : (Nat.log2 (S (length (before k) + length (after k))) <= Nat.log2 (S (S (S (length (before k) + length (after k))))))%nat) by (apply Nat.log2_le_mono; lia). lia.
  - intros -> Hne Hdef. apply (erase_loop_spec fuel s k E); [pose proof (deficient_log k Hdef); lia|done|done|done].
Qed.

Lemma rb_rounds_logarithmic_witness : descend 5 ex_store Lft 8 = Ok 4 /\ descend 5 ex_store Rgt 8 = Ok 12.
Proof. destruct (rb_rounds_logarithmic ex_store [] ex_rtree 5) as (H&_); [exact ex_represents|cbn; lia|]. split; [apply (H ex_red_black); discriminate|]. apply (H ex_red_black); discriminate. Defined.
