(* ===== verification/Timerqueue.v ===== *)
(** * Timerqueue: timers in the order of their expiry

    [lib/timerqueue.c] and [include/linux/timerqueue.h], on top of the red-black
    trees of Rbtree.v. A [struct timerqueue_node] starts with its [struct rb_node], so
    [rb_entry] is the identity on addresses; the [expires] fields of the nodes are in a
    store of their own. *)

From stdpp Require Import gmap.
From S2P Require Import Prelude Rbtree.

(** [warned]: whether a [WARN_ON_ONCE] has fired. *)
Record timerqueue_head := TimerqueueHead { head : rb_root; next : Z; expires : gmap Z Z; warned : bool }.

Definition with_head (t : rb_root) (h : timerqueue_head) : timerqueue_head := TimerqueueHead t (next h) (expires h) (warned h).
Definition with_next (n : Z) (h : timerqueue_head) : timerqueue_head := TimerqueueHead (head h) n (expires h) (warned h).
Definition WARN_ON_ONCE (b : bool) (h : timerqueue_head) : timerqueue_head := TimerqueueHead (head h) (next h) (expires h) (warned h || b).

Definition tv64 (h : timerqueue_head) (p : Z) : outcome Z := match expires h !! p with Some e => Ok e | None => Oops end.

(** The [expires] field of a node, which the callers set. *)
Definition set_expires (h : timerqueue_head) (p e : Z) : timerqueue_head := TimerqueueHead (head h) (next h) (<[p := e]> (expires h)) (warned h).

Definition timerqueue_getnext (h : timerqueue_head) : Z := next h.

Definition timerqueue_init (h : timerqueue_head) (nd : Z) : outcome timerqueue_head :=
  let* t := RB_CLEAR_NODE (head h) nd in
  Ok (with_head t h).

Definition timerqueue_init_head (h : timerqueue_head) : timerqueue_head := with_next 0 (with_head (RB_ROOT (nodes (head h))) h).

(** [node->expires.tv64 < ptr->expires.tv64]: the side on which to go on. *)
Definition add_side (h : timerqueue_head) (nd ptr : Z) : outcome side :=
  let* e := tv64 h nd in
  let* pe := tv64 h ptr in
  Ok (if e <? pe then Lft else Rgt).

(** [!head->next || node->expires.tv64 < head->next->expires.tv64] *)
Definition is_earliest (h : timerqueue_head) (nd : Z) : outcome bool :=
  if next h =? 0 then Ok true
  else
    let* e := tv64 h nd in
    let* ne := tv64 h (next h) in
    Ok (e <? ne).

Definition timerqueue_add (h : timerqueue_head) (nd : Z) : outcome (timerqueue_head * bool) :=
  let* n := node (head h) nd in
  let h := WARN_ON_ONCE (negb (RB_EMPTY_NODE nd n)) h in
  let* (parent, d) := seek (rounds (head h)) (head h) (add_side h nd) (root_node (head h)) 0 Lft in
  let* t := rb_link_node (head h) nd parent d in
  let* t := rb_insert_color t nd in
  let h := with_head t h in
  let* earliest := is_earliest h nd in
  if earliest : bool then Ok (with_next nd h, true) else Ok (h, false).

Definition timerqueue_del (h : timerqueue_head) (nd : Z) : outcome (timerqueue_head * bool) :=
  let* n := node (head h) nd in
  let h := WARN_ON_ONCE (RB_EMPTY_NODE nd n) h in
  let* h :=
    (if next h =? nd then
       let* rbn := rb_next (head h) nd in
       Ok (with_next (if negb (rbn =? 0) then rbn else 0) h)
     else Ok h) in
  let* t := rb_erase (head h) nd in
  let* t := RB_CLEAR_NODE t nd in
  let h := with_head t h in
  Ok (h, negb (next h =? 0)).

Definition timerqueue_iterate_next (h : timerqueue_head) (nd : Z) : outcome Z :=
  if nd =? 0 then Ok 0
  else
    let* next := rb_next (head h) nd in
    if next =? 0 then Ok 0 else Ok next.
