(* ===== verification/TimerqueueFacts.v ===== *)
(** * TimerqueueFacts: the queue a timerqueue represents *)

From stdpp Require Import gmap.
From S2P Require Import Prelude Rbtree RbtreeFacts RbtreeWalk RbtreeSpec Timerqueue.

(** ** The abstract queue: timers with their expiry, earliest first *)

(** After the timers that expire no later. *)
Fixpoint enqueue (x e : Z) (q : list (Z * Z)) : list (Z * Z) :=
  match q with [] => [(x, e)] | (y, f) :: q' => if e <? f then (x, e) :: q else (y, f) :: enqueue x e q' end.

Definition dequeue (x : Z) (q : list (Z * Z)) : list (Z * Z) := filter (fun p => p.1 <> x) q.

Definition becomes_first (e : Z) (q : list (Z * Z)) : bool := match q with [] => true | (_, f) :: _ => e <? f end.

Lemma enqueue_at x e q1 q2 : (forall p, p ∈ q1 -> p.2 <= e) -> (forall p, p ∈ q2 -> e < p.2) -> enqueue x e (q1 ++ q2) = q1 ++ (x, e) :: q2.
Proof.
  intros H1 H2. induction q1 as [|(y&f) q1 IH]; simpl.
  - destruct q2 as [|(y&f) q2]; [done|]. pose proof (H2 (y, f) ltac:(set_solver)) as Hf. simpl in *. by replace (e <? f) with true by lia.
  - pose proof (H1 (y, f) ltac:(set_solver)) as Hf. simpl in *. replace (e <? f) with false by lia. rewrite IH; [done|]. intros p Hp. apply H1. set_solver.
Qed.

Lemma enqueue_perm x e q : enqueue x e q ≡ₚ (x, e) :: q.
Proof. induction q as [|(y&f) q IH]; [done|]. simpl. destruct (e <? f); [done|]. rewrite IH. by constructor. Qed.

Lemma dequeue_at x e q1 q2 : base.NoDup (q1 ++ (x, e) :: q2).*1 -> dequeue x (q1 ++ (x, e) :: q2) = q1 ++ q2.
Proof.
  intros Hnd. assert (Hid : forall q, x ∉ q.*1 -> dequeue x q = q).
  { intros q Hx. unfold dequeue. induction q as [|(y&f) q IH]; [done|]. simpl in *. rewrite filter_cons_True by (simpl; set_solver). rewrite IH by set_solver. done. }
  rewrite fmap_app in Hnd. simpl in Hnd. apply list.NoDup_app in Hnd as (_&H1&H2). apply list.NoDup_cons in H2 as (H2&_). unfold dequeue. rewrite list.filter_app, filter_cons_False by (simpl; tauto). f_equal; apply Hid; [|done]. intros Hx. apply (H1 x Hx). set_solver.
Qed.

(** ** The queue in a store *)

(** The timers of [q] are in the store, with their expiry. *)
Definition due (h : timerqueue_head) (q : list (Z * Z)) : Prop := Forall (fun p => expires h !! p.1 = Some p.2) q.

Lemma tv64_Ok h p e : expires h !! p = Some e -> tv64 h p = Ok e.
Proof. intros H. unfold tv64. by rewrite H. Qed.

Lemma due_at h q p : due h q -> p ∈ q -> expires h !! p.1 = Some p.2.
Proof. intros Hd Hp. exact (proj1 (list.Forall_forall _ _) Hd p Hp). Qed.

Lemma add_side_at h x e q y : expires h !! x = Some e -> due h q -> y ∈ q.*1 -> exists p, p ∈ q /\ add_side h x y = Ok (if e <? p.2 then Lft else Rgt).
Proof. intros Hx Hd Hy. apply list_elem_of_fmap in Hy as (p&->&Hp). exists p. split; [done|]. unfold add_side. by rewrite (tv64_Ok _ _ _ Hx), (tv64_Ok _ _ _ (due_at h q p Hd Hp)). Qed.

(** The trees are used only through their interface. *)
Section queue.
Context {holds : rb_root -> list Z -> Prop} `{!SearchTree holds}.

Definition queues (h : timerqueue_head) (q : list (Z * Z)) : Prop :=
  holds (head h) q.*1 /\ next h = first q.*1 /\ due h q /\ ascending snd q.

(** A timer that is in no queue. *)
Definition idle (h : timerqueue_head) (x : Z) : Prop := valid x /\ exists n, nodes (head h) !! x = Some n /\ RB_EMPTY_NODE x n = true.

Lemma queues_NoDup h q : queues h q -> base.NoDup q.*1.
Proof. intros (Hh&_). by eapply st_nodup. Qed.

Lemma queued_valid h q x : queues h q -> x ∈ q.*1 -> valid x.
Proof. intros (Hh&_) Hx. by eapply st_valid. Qed.

Lemma init_head_spec h : queues (timerqueue_init_head h) [].
Proof. split; [apply st_empty|]. split; [done|]. split; constructor. Qed.

Lemma clear_node s p n : nodes s !! p = Some n -> exists s', RB_CLEAR_NODE s p = Ok s' /\ root_node s' = root_node s /\ nodes s' !! p = Some (set_pc p n) /\ forall z, z <> p -> nodes s' !! z = nodes s !! z.
Proof. intros Hn. unfold RB_CLEAR_NODE. rewrite (update_Ok _ _ _ _ Hn). eexists. split; [done|]. cbn [nodes root_node]. split; [done|]. split; [by rewrite lookup_insert_eq|]. intros z Hz. by rewrite lookup_insert_ne. Qed.

Lemma cleared_idle h p n : valid p -> nodes (head h) !! p = Some (set_pc p n) -> idle h p.
Proof. intros Hv Hn. split; [done|]. eexists. split; [exact Hn|]. unfold RB_EMPTY_NODE. simpl. lia. Qed.

Lemma timer_init_spec h q x n : queues h q -> x ∉ q.*1 -> valid x -> nodes (head h) !! x = Some n ->
  exists h', timerqueue_init h x = Ok h' /\ queues h' q /\ idle h' x /\ warned h' = warned h /\ forall z, z <> x -> nodes (head h') !! z = nodes (head h) !! z.
Proof.
  intros (Hh&Hq) Hx Hv Hn. destruct (clear_node _ _ _ Hn) as (s'&Hrun&Hroot&Hp&Hs'). unfold timerqueue_init. rewrite Hrun. cbn [obind]. eexists. split; [done|]. split; [split; [|done]|split; [by eapply cleared_idle|by split]]. eapply st_frame; [exact Hh|exact Hroot|]. intros z Hz. apply Hs'. by intros ->.
Qed.

Lemma set_expires_spec h q x e : queues h q -> x ∉ q.*1 -> queues (set_expires h x e) q.
Proof.
  intros (Ht&Hn&Hd&Hs) Hx. split; [done|]. split; [done|]. split; [|done]. apply list.Forall_forall. intros (y&f) Hy. cbn [expires set_expires fst snd]. rewrite lookup_insert_ne; [exact (proj1 (list.Forall_forall _ _) Hd (y, f) Hy)|]. intros ->. apply Hx. apply list_elem_of_fmap. by exists (y, f).
Qed.

(** Whether the new timer is the first. *)
Lemma is_earliest_spec h q x e : next h = first q.*1 -> due h q -> Forall valid q.*1 -> expires h !! x = Some e -> is_earliest h x = Ok (becomes_first e q).
Proof.
  intros Hn Hd Hv Hx. unfold is_earliest. rewrite Hn. destruct q as [|(y&f) q]; [done|]. apply list.Forall_cons in Hd as (Hy&_). cbn [fst snd] in Hy. rewrite fmap_cons in Hv |- *. apply list.Forall_cons in Hv as (Hvy&_). change (first ((y, f).1 :: q.*1)) with y. replace (y =? 0) with false by (destruct Hvy as (?&_); simpl in *; lia). by rewrite (tv64_Ok _ _ _ Hx), (tv64_Ok _ _ _ Hy).
Qed.

Lemma first_enqueue x e q : first (enqueue x e q).*1 = if becomes_first e q then x else first q.*1.
Proof. destruct q as [|(y&f) q]; [done|]. simpl. by destruct (e <? f). Qed.

Lemma add_spec h q x e : queues h q -> idle h x -> x ∉ q.*1 -> expires h !! x = Some e ->
  exists h', timerqueue_add h x = Ok (h', becomes_first e q) /\ queues h' (enqueue x e q) /\ warned h' = warned h /\ expires h' = expires h /\ forall z, z ∉ (enqueue x e q).*1 -> nodes (head h') !! z = nodes (head h) !! z.
Proof.
  intros Hqs (Vx&n&Hn&Hempty) Hx He. pose proof Hqs as (Hh&Hnext&Hdue&Hsort). unfold timerqueue_add. rewrite (node_Ok _ _ _ Hn). cbn [obind]. rewrite Hempty. cbn [negb]. set (h1 := WARN_ON_ONCE false h). change (head h1) with (head h).
  destruct (ascending_split snd q e Hsort) as (q1&q2&->&H1&H2). pose proof Hdue as Hdue2. apply Forall_app in Hdue2 as (Hd1&Hd2). rewrite fmap_app in Hh, Hx.
  destruct (st_insert (head h) q1.*1 q2.*1 (add_side h1 x) x n Hh) as (p&d&s1&s'&->&Hlink&Hins&Hh'&Hs'); [intros y Hy; destruct (add_side_at h1 x e q1 y He Hd1 Hy) as (f&Hf&->); specialize (H1 f Hf); by replace (e <? f.2) with false by lia|intros y Hy; destruct (add_side_at h1 x e q2 y He Hd2 Hy) as (f&Hf&->); specialize (H2 f Hf); by replace (e <? f.2) with true by lia|done|done|done|].
  cbn [obind]. rewrite Hlink. cbn [obind]. rewrite Hins. cbn [obind]. rewrite (is_earliest_spec _ (q1 ++ q2) x e); [|done|done|apply list.Forall_forall; intros y Hy; by eapply queued_valid|done]. cbn [obind].
  assert (Henq : (enqueue x e (q1 ++ q2)).*1 = q1.*1 ++ x :: q2.*1) by (rewrite enqueue_at by done; by rewrite fmap_app). rewrite <- Henq in Hh', Hs'. pose proof (first_enqueue x e (q1 ++ q2)) as Hfirst. assert (Hdue' : Forall (fun p => expires h !! p.1 = Some p.2) (enqueue x e (q1 ++ q2))) by (rewrite enqueue_perm; by constructor). assert (Hsort' : ascending snd (enqueue x e (q1 ++ q2))) by (rewrite enqueue_at by done; by apply ascending_insert). assert (Hw : (warned h || false) = warned h) by apply orb_false_r.
  destruct (becomes_first e (q1 ++ q2)); eexists; (split; [done|]); (split; [split; [done|]; split; [by rewrite Hfirst|done]|]; split; [exact Hw|]; split; [done|exact Hs']).
Qed.

Lemma first_valid l : Forall valid l -> (first l =? 0) = match l with [] => true | _ => false end.
Proof. destruct l as [|x l]; [done|]. intros Hv. apply list.Forall_cons in Hv as ((Hx&_)&_). unfold first. simpl. lia. Qed.

Lemma nonnull_id v : (if negb (v =? 0) then v else 0) = v.
Proof. destruct (Z.eqb_spec v 0); simpl; lia. Qed.

Definition nonempty (q : list (Z * Z)) : bool := match q with [] => false | _ => true end.

Lemma next_after_del h q1 x e q2 : queues h (q1 ++ (x, e) :: q2) -> (if next h =? x then let* rbn := rb_next (head h) x in Ok (with_next (if negb (rbn =? 0) then rbn else 0) h) else Ok h) = Ok (with_next (first (q1 ++ q2).*1) h).
Proof.
  intros Hqs. pose proof (queues_NoDup _ _ Hqs) as Hnd. destruct Hqs as (Hh&Hnext&_). rewrite fmap_app, fmap_cons in *. cbn [fst] in *. rewrite Hnext. destruct q1 as [|(y&f) q1].
  - change (first ([].*1 ++ x :: q2.*1)) with x. rewrite Z.eqb_refl, (st_next _ _ _ _ Hh). cbn [obind]. by rewrite nonnull_id.
  - rewrite fmap_cons in *. cbn [fst] in *. change (first ((y :: q1.*1) ++ x :: q2.*1)) with y in *. apply list.NoDup_app in Hnd as (_&Hnd1&_). assert ((y =? x) = false) as -> by (apply Z.eqb_neq; intros ->; apply (Hnd1 x); set_solver). change (Ok h = Ok (with_next y h)). rewrite <- Hnext. by destruct h.
Qed.

Lemma del_spec h q x : queues h q -> x ∈ q.*1 ->
  exists h', timerqueue_del h x = Ok (h', nonempty (dequeue x q)) /\ queues h' (dequeue x q) /\ idle h' x /\ warned h' = warned h /\ forall z, z <> x -> z ∉ (dequeue x q).*1 -> nodes (head h') !! z = nodes (head h) !! z.
Proof.
  intros Hqs Hx. pose proof (queues_NoDup h q Hqs) as Hnd. assert (Hval : Forall valid q.*1) by (apply list.Forall_forall; intros y Hy; by eapply queued_valid). pose proof Hqs as (Hh&Hnext&Hdue&Hsort). destruct (st_node _ _ x Hh Hx) as (n&Hn). pose proof (st_used _ _ _ _ Hh Hx Hn) as Hne.
  apply list_elem_of_fmap in Hx as ((x'&e)&->&Hx). cbn [fst] in *. apply list_elem_of_split in Hx as (q1&q2&->). rewrite dequeue_at by done. unfold timerqueue_del. rewrite (node_Ok _ _ _ Hn). cbn [obind]. rewrite Hne. rewrite (next_after_del (WARN_ON_ONCE false h) q1 x' e q2) by done. cbn [obind head with_next WARN_ON_ONCE].
  rewrite fmap_app, fmap_cons in Hh, Hval, Hnd. cbn [fst] in *. destruct (st_erase _ _ _ _ Hh) as (s'&->&Hh'&Hs'). cbn [obind]. apply Forall_app in Hval as (Hv1&Hv2). apply list.Forall_cons in Hv2 as (Vx&Hv2). rewrite <- fmap_app in Hh', Hs'.
  assert (Hout : x' ∉ (q1 ++ q2).*1) by (rewrite fmap_app; apply list.NoDup_app in Hnd as (_&Hnd1&Hnd2); apply list.NoDup_cons in Hnd2 as (Hnd2&_); intros Hin; apply elem_of_app in Hin as [Hin|Hin]; [apply (Hnd1 x' Hin); set_solver|done]).
  assert (Hn' : nodes s' !! x' = Some n) by (rewrite Hs' by done; exact Hn). destruct (clear_node _ _ _ Hn') as (s2&->&Hroot2&Hp2&Hs2). cbn [obind]. exists (with_head s2 (with_next (first (q1 ++ q2).*1) (WARN_ON_ONCE false h))). split; [|split; [|split; [eapply cleared_idle; [done|exact Hp2]|split; [apply orb_false_r|]]]].
  - cbn [next with_head with_next]. rewrite first_valid by (rewrite fmap_app; by apply Forall_app). f_equal. f_equal. by destruct q1, q2.
  - split; [eapply st_frame; [exact Hh'|exact Hroot2|]; intros z Hz'; apply Hs2; by intros ->|]. split; [done|]. apply Forall_app in Hdue as (Hd1&Hd2). apply list.Forall_cons in Hd2 as (_&Hd2). split; [by apply Forall_app|]. by eapply ascending_remove.
  - intros z Z1 Z2. cbn [head with_head]. rewrite Hs2 by done. by apply Hs'.
Qed.

Lemma iterate_spec h q1 x e q2 : queues h (q1 ++ (x, e) :: q2) -> timerqueue_iterate_next h x = Ok (first q2.*1).
Proof.
  intros Hqs. assert (Hv : valid x) by (eapply queued_valid; [exact Hqs|]; rewrite fmap_app, fmap_cons; set_solver). destruct Hqs as (Hh&_). rewrite fmap_app, fmap_cons in Hh. cbn [fst] in Hh. unfold timerqueue_iterate_next. replace (x =? 0) with false by (destruct Hv as (?&_); lia). rewrite (st_next _ _ _ _ Hh). cbn [obind]. by destruct (Z.eqb_spec (first q2.*1) 0) as [->|].
Qed.

(** ** Histories *)

(** Set the expiry of a timer and add it; remove it. *)
Inductive op := OpInit (x : Z) | OpAdd (x e : Z) | OpDel (x : Z).

Definition run_op (h : timerqueue_head) (o : op) : outcome (timerqueue_head * bool) :=
  match o with
  | OpInit x => let* h := timerqueue_init h x in Ok (h, false)
  | OpAdd x e => timerqueue_add (set_expires h x e) x
  | OpDel x => timerqueue_del h x
  end.

Fixpoint run_ops (h : timerqueue_head) (os : list op) : outcome (timerqueue_head * list bool) :=
  match os with
  | [] => Ok (h, [])
  | o :: os =>
    let* (h, b) := run_op h o in
    let* (h, bs) := run_ops h os in
    Ok (h, b :: bs)
  end.

(** The callers' side: which timers are in memory, in the queue, and ready to be
    added; [None] when an operation is not allowed. *)
Definition spec_op (mem : gset Z) (a : list (Z * Z) * gset Z) (o : op) : option (list (Z * Z) * gset Z * bool) :=
  let '(q, ready) := a in
  match o with
  | OpInit x => if decide (x ∈ mem /\ x ∉ q.*1) then Some (q, {[x]} ∪ ready, false) else None
  | OpAdd x e => if decide (x ∈ ready) then Some (enqueue x e q, ready ∖ {[x]}, becomes_first e q) else None
  | OpDel x => if decide (x ∈ q.*1) then Some (dequeue x q, {[x]} ∪ ready, nonempty (dequeue x q)) else None
  end.

Fixpoint spec_ops (mem : gset Z) (a : list (Z * Z) * gset Z) (os : list op) : option (list (Z * Z) * gset Z * list bool) :=
  match os with
  | [] => Some (a, [])
  | o :: os =>
    match spec_op mem a o with
    | Some (a, b) => match spec_ops mem a os with Some (a, bs) => Some (a, b :: bs) | None => None end
    | None => None
    end
  end.

Definition related (mem : gset Z) (h : timerqueue_head) (a : list (Z * Z) * gset Z) : Prop :=
  queues h a.1 /\ (forall x, x ∈ a.2 -> idle h x /\ x ∉ a.1.*1 /\ x ∈ mem) /\ (forall x, x ∈ a.1.*1 -> x ∈ mem) /\ (forall x, x ∈ mem -> valid x /\ is_Some (nodes (head h) !! x)).

Lemma idle_frame h h' x : idle h x -> nodes (head h') !! x = nodes (head h) !! x -> idle h' x.
Proof. intros (Hv&n&Hn&He) Heq. split; [done|]. exists n. by rewrite Heq. Qed.

Lemma enqueue_keys x e q z : z ∈ (enqueue x e q).*1 <-> z = x \/ z ∈ q.*1.
Proof. rewrite enqueue_perm, fmap_cons. simpl. set_solver. Qed.

Lemma dequeue_keys x q z : z ∈ (dequeue x q).*1 <-> z <> x /\ z ∈ q.*1.
Proof.
  unfold dequeue. rewrite !list_elem_of_fmap. split.
  - intros (p&->&Hp). apply list_elem_of_filter in Hp as (H1&H2). split; [done|]. by exists p.
  - intros (H1&p&->&Hp). exists p. split; [done|]. by apply list_elem_of_filter.
Qed.

Lemma stays (h h' : timerqueue_head) (mem : gset Z) (P : Z -> Prop) : (forall z, z ∈ mem -> valid z /\ is_Some (nodes (head h) !! z)) -> (forall z, {P z} + {~ P z}) -> (forall z, P z -> is_Some (nodes (head h') !! z)) -> (forall z, ~ P z -> nodes (head h') !! z = nodes (head h) !! z) -> forall z, z ∈ mem -> valid z /\ is_Some (nodes (head h') !! z).
Proof. intros Hm Hdec Hin Hout z Hz. destruct (Hm z Hz) as (Hv&Hn). split; [done|]. destruct (Hdec z); [by apply Hin|]. by rewrite Hout. Qed.

Lemma queued_node h q x : queues h q -> x ∈ q.*1 -> is_Some (nodes (head h) !! x).
Proof. intros (Hh&_) Hx. by eapply st_node. Qed.

Lemma idle_node h x : idle h x -> is_Some (nodes (head h) !! x).
Proof. intros (_&n&Hn&_). by exists n. Qed.

(** Every operation the callers may use does what the queue says. *)
Lemma step_refines mem h a o a' b : related mem h a -> spec_op mem a o = Some (a', b) -> exists h', run_op h o = Ok (h', b) /\ related mem h' a' /\ warned h' = warned h.
Proof.
  destruct a as (q&ready). intros (Hq&Hidle&Hmem&Hin) Hspec. cbn [fst snd] in *. destruct o as [x|x e|x]; cbn [spec_op run_op] in *; case_decide as Hok; try done; injection Hspec as <- <-.
  - destruct Hok as (Hx&Hout). destruct (Hin x Hx) as (Hv&n&Hn). destruct (timer_init_spec h q x n Hq Hout Hv Hn) as (h'&->&Hq'&Hi&Hw&Hf). exists h'. split; [done|]. split; [|done]. split; [done|]. cbn [fst snd]. split; [|split; [done|]].
    + intros z Hz. apply elem_of_union in Hz as [Hz|Hz]; [apply elem_of_singleton in Hz as ->; done|]. destruct (Hidle z Hz) as (H1&H2&H3). destruct (decide (z = x)) as [->|Hne]; [done|]. split; [|done]. eapply idle_frame; [exact H1|]. by apply Hf.
    + apply (stays h h' mem (fun z => z = x)); [done|intros z; destruct (decide (z = x)); [by left|by right]|intros z ->; by apply idle_node|exact Hf].
  - destruct (Hidle x Hok) as (Hi&Hout&Hx). destruct (add_spec (set_expires h x e) q x e) as (h'&Hrun&Hq'&Hw&_&Hf); [by apply set_expires_spec|done|done|cbn [expires set_expires]; by rewrite lookup_insert_eq|]. exists h'. split; [done|]. split; [|done]. split; [done|]. cbn [fst snd] in *. split; [|split].
    + intros z Hz. apply elem_of_difference in Hz as (Hz&Hne). apply not_elem_of_singleton in Hne. destruct (Hidle z Hz) as (H1&H2&H3). assert (Hz' : z ∉ (enqueue x e q).*1) by (rewrite enqueue_keys; tauto). split; [|done]. eapply idle_frame; [exact H1|]. by apply Hf.
    + intros z Hz. apply enqueue_keys in Hz as [->|Hz]; auto.
    + apply (stays h h' mem (fun z => z ∈ (enqueue x e q).*1)); [done|intros z; destruct (decide (z ∈ (enqueue x e q).*1)); [by left|by right]|intros z Hz; by eapply queued_node|exact Hf].
  - destruct (del_spec h q x Hq Hok) as (h'&Hrun&Hq'&Hi&Hw&Hf). exists h'. split; [done|]. split; [|done]. split; [done|]. cbn [fst snd] in *. split; [|split].
    + intros z Hz. apply elem_of_union in Hz as [Hz|Hz]; [apply elem_of_singleton in Hz as ->; split; [done|]; split; [rewrite dequeue_keys; tauto|auto]|]. destruct (Hidle z Hz) as (H1&H2&H3). assert (z <> x) by (by intros ->). split; [eapply idle_frame; [exact H1|]; apply Hf; [done|]; rewrite dequeue_keys; tauto|]. split; [rewrite dequeue_keys; tauto|done].
    + intros z Hz. apply dequeue_keys in Hz as (_&Hz). auto.
    + apply (stays h h' mem (fun z => z = x \/ z ∈ (dequeue x q).*1)); [done|intros z; destruct (decide (z = x \/ z ∈ (dequeue x q).*1)); [by left|by right]|intros z [->|Hz]; [by apply idle_node|by eapply queued_node]|intros z Hz; apply Hf; tauto].
Qed.

Lemma history_refines mem os : forall h a a' bs, related mem h a -> spec_ops mem a os = Some (a', bs) -> exists h', run_ops h os = Ok (h', bs) /\ related mem h' a' /\ warned h' = warned h.
Proof.
  induction os as [|o os IH]; intros h a a' bs Hrel Hspec; cbn [spec_ops run_ops] in *; [simplify_eq; by exists h|]. destruct (spec_op mem a o) as [(a1&b)|] eqn:E1; [|done]. destruct (spec_ops mem a1 os) as [(a2&bs')|] eqn:E2; [|done]. simplify_eq.
  destruct (step_refines mem h a o a1 b Hrel E1) as (h1&->&Hrel1&Hw1). cbn [obind]. destruct (IH h1 a1 _ _ Hrel1 E2) as (h2&->&Hrel2&Hw2). cbn [obind]. exists h2. split; [done|]. split; [done|congruence].
Qed.

Lemma init_related mem h : (forall x, x ∈ mem -> valid x /\ is_Some (nodes (head h) !! x)) -> related mem (timerqueue_init_head h) ([], ∅).
Proof. intros Hm. split; [apply init_head_spec|]. cbn [fst snd]. split; [set_solver|]. split; [set_solver|done]. Qed.

End queue.
