(* ===== verification/TimerqueueProps.v ===== *)
(** * TimerqueueProps: timer queues implement queues *)

From stdpp Require Import gmap.
From S2P Require Import Prelude Rbtree RbtreeFacts RbtreeWalk RbtreeSpec RbtreeProps Timerqueue TimerqueueFacts.

(** C31: a timer queue is a queue of timers in the order of their expiry, those with
    the same expiry in the order in which they were added. In every history that adds
    only initialised timers that are not queued and removes only queued ones, every
    operation returns, with the answer of the abstract queue ([timerqueue_add]: the
    timer is now the first; [timerqueue_del]: there are timers left), without a
    warning. At its end the queue is sorted, [timerqueue_getnext] is the earliest
    timer, and [timerqueue_iterate_next] goes through the queue in order. *)
Theorem timerqueue_refines_queue mem h os q ready bs : (forall x, x ∈ mem -> valid x /\ is_Some (nodes (head h) !! x)) -> spec_ops mem ([], ∅) os = Some (q, ready, bs) ->
  exists h', run_ops (timerqueue_init_head h) os = Ok (h', bs) /\ warned h' = warned h /\ ascending snd q /\ timerqueue_getnext h' = first q.*1 /\
    forall q1 x e q2, q = q1 ++ (x, e) :: q2 -> timerqueue_iterate_next h' x = Ok (first q2.*1).
Proof.
  intros Hmem Hspec. destruct (history_refines mem os (timerqueue_init_head h) ([], ∅) (q, ready) bs) as (h'&Hrun&(Hq&_)&Hw); [by apply init_related|done|]. cbn [fst] in Hq. exists h'. split; [done|]. split; [done|]. pose proof Hq as (_&Hn&_&Hs). split; [done|]. split; [done|]. intros q1 x e q2 ->. by eapply iterate_spec.
Qed.

Definition ex_head : timerqueue_head := TimerqueueHead ex_store 8 ∅ false.
Definition ex_ops : list op := [OpInit 4; OpInit 8; OpInit 12; OpInit 16; OpAdd 4 70; OpAdd 8 (-5); OpAdd 12 70; OpAdd 16 10; OpDel 8].

Lemma timerqueue_refines_queue_witness : exists h', run_ops (timerqueue_init_head ex_head) ex_ops = Ok (h', [false; false; false; false; true; true; false; false; true]) /\ timerqueue_getnext h' = 16 /\ timerqueue_iterate_next h' 4 = Ok 12.
Proof.
  destruct (timerqueue_refines_queue {[4; 8; 12; 16]} ex_head ex_ops [(16, 10); (4, 70); (12, 70)] {[8]} [false; false; false; false; true; true; false; false; true]) as (h'&Hrun&_&_&Hn&Hi); [|vm_compute; reflexivity|].
  - intros x Hx. assert (x = 4 \/ x = 8 \/ x = 12 \/ x = 16) as Hc by set_solver. destruct Hc as [->|[->|[->| ->]]]; (split; [apply valid_small; [lia|done]|eexists; reflexivity]).
  - exists h'. split; [exact Hrun|]. split; [exact Hn|]. apply (Hi [(16, 10)] 4 70 [(12, 70)]). reflexivity.
Defined.
