(* ===== verification/Binder.v ===== *)
(** * Binder: the buffers of a process

    The allocator of transaction buffers in [drivers/android/binder.c]. A process maps
    an area of its memory; the driver divides it into buffers, each a header
    ([struct binder_buffer]) and its data, which lie one after the other in the list
    [proc->buffers]. Free buffers are in a red-black tree ordered by size,
    allocated ones in one ordered by address; both use the [rb_node] in the header.
    Only the pages that hold a header or data of an allocated buffer are backed
    by memory. The model has the headers and tree nodes that are in memory in two
    stores; unmapping a page takes those on it out of the stores, and writing to
    memory those it overwrites, so that every later access to them is a fault. *)

From stdpp Require Import gmap.
From S2P Require Import Prelude Rbtree.

Definition PAGE_SIZE : Z := 4096.
Definition PAGE_MASK : Z := u64 (Z.lnot (PAGE_SIZE - 1)).
Definition ALIGN (x a : Z) : Z := Z.land (u64 (x + (a - 1))) (u64 (Z.lnot (a - 1))).
Definition PAGE_ALIGN (x : Z) : Z := ALIGN x PAGE_SIZE.

(** [sizeof(struct binder_buffer)], which is also the offset of [data], and the offset
    of [rb_node]. *)
Definition sizeof_buffer : Z := 80.
Definition rb_offset : Z := 16.
Definition sizeof_node : Z := 24.

Record binder_buffer := BinderBuffer { free : bool; allow_user_free : bool; async_transaction : bool; transaction : Z; data_size : Z; offsets_size : Z }.

(** [pages]: the indices of the entries of the array [proc->pages] that are not NULL;
    [mapped]: whether the array is there. *)
Record binder_proc := BinderProc {
  headers : gmap Z binder_buffer;
  rb_nodes : gmap Z rb_node;
  buffer : Z;
  user_buffer_offset : Z;
  buffers : list Z;
  free_buffers : Z;
  allocated_buffers : Z;
  free_async_space : Z;
  mapped : bool;
  pages : gset Z;
  buffer_size : Z;
  vma : bool
}.

Definition with_headers (h : gmap Z binder_buffer) (s : binder_proc) : binder_proc := BinderProc h (rb_nodes s) (buffer s) (user_buffer_offset s) (buffers s) (free_buffers s) (allocated_buffers s) (free_async_space s) (mapped s) (pages s) (buffer_size s) (vma s).
Definition with_buffers (l : list Z) (s : binder_proc) : binder_proc := BinderProc (headers s) (rb_nodes s) (buffer s) (user_buffer_offset s) l (free_buffers s) (allocated_buffers s) (free_async_space s) (mapped s) (pages s) (buffer_size s) (vma s).
Definition with_space (a : Z) (s : binder_proc) : binder_proc := BinderProc (headers s) (rb_nodes s) (buffer s) (user_buffer_offset s) (buffers s) (free_buffers s) (allocated_buffers s) a (mapped s) (pages s) (buffer_size s) (vma s).
Definition with_memory (h : gmap Z binder_buffer) (n : gmap Z rb_node) (p : gset Z) (s : binder_proc) : binder_proc := BinderProc h n (buffer s) (user_buffer_offset s) (buffers s) (free_buffers s) (allocated_buffers s) (free_async_space s) (mapped s) p (buffer_size s) (vma s).

(** The two trees. *)
Definition free_tree (s : binder_proc) : rb_root := RbRoot (rb_nodes s) (free_buffers s).
Definition allocated_tree (s : binder_proc) : rb_root := RbRoot (rb_nodes s) (allocated_buffers s).
Definition with_free_tree (t : rb_root) (s : binder_proc) : binder_proc := BinderProc (headers s) (nodes t) (buffer s) (user_buffer_offset s) (buffers s) (root_node t) (allocated_buffers s) (free_async_space s) (mapped s) (pages s) (buffer_size s) (vma s).
Definition with_allocated_tree (t : rb_root) (s : binder_proc) : binder_proc := BinderProc (headers s) (nodes t) (buffer s) (user_buffer_offset s) (buffers s) (free_buffers s) (root_node t) (free_async_space s) (mapped s) (pages s) (buffer_size s) (vma s).

(** What the rest of the kernel does during a call: whether [get_task_mm] returns a
    memory map and it is that of the vma, how the attempt to map a page ends, and what
    is in the memory of a new header. *)
Inductive fate := Mapped | No_page | No_kernel_mapping | No_user_mapping.

Record env := Env { task_mm : bool; same_mm : bool; page_fate : Z -> fate; garbage : Z -> binder_buffer; garbage_node : Z -> rb_node }.

(** ** Memory *)

Definition overlaps (a len lo hi : Z) : bool := (a <? hi) && (lo <? a + len).

(** The bytes from [lo] to [hi] are overwritten or no longer there. *)
Definition forget (lo hi : Z) (s : binder_proc) : binder_proc :=
  with_memory (filter (fun p => overlaps p.1 sizeof_buffer lo hi = false) (headers s)) (filter (fun p => overlaps p.1 sizeof_node lo hi = false) (rb_nodes s)) (pages s) s.

Definition hdr (s : binder_proc) (b : Z) : outcome binder_buffer := match headers s !! b with Some h => Ok h | None => Oops end.

Definition set_hdr (s : binder_proc) (b : Z) (f : binder_buffer -> binder_buffer) : outcome binder_proc :=
  match headers s !! b with Some h => Ok (with_headers (<[b := f h]> (headers s)) s) | None => Oops end.

Definition set_free (v : bool) (h : binder_buffer) : binder_buffer := BinderBuffer v (allow_user_free h) (async_transaction h) (transaction h) (data_size h) (offsets_size h).
Definition set_allow (v : bool) (h : binder_buffer) : binder_buffer := BinderBuffer (free h) v (async_transaction h) (transaction h) (data_size h) (offsets_size h).
Definition set_transaction (v : Z) (h : binder_buffer) : binder_buffer := BinderBuffer (free h) (allow_user_free h) (async_transaction h) v (data_size h) (offsets_size h).
Definition set_sizes (d o : Z) (a : bool) (h : binder_buffer) : binder_buffer := BinderBuffer (free h) (allow_user_free h) a (transaction h) d o.

Definition page_index (s : binder_proc) (addr : Z) : Z := u64 (addr - buffer s) / PAGE_SIZE.

(** The first access to the memory of a new header. *)
Definition new_header (e : env) (s : binder_proc) (b : Z) : outcome binder_proc :=
  if bool_decide (page_index s b ∈ pages s) && bool_decide (page_index s (b + sizeof_buffer - 1) ∈ pages s) then
    let s := forget b (b + sizeof_buffer) s in
    Ok (with_memory (<[b := garbage e b]> (headers s)) (<[b + rb_offset := garbage_node e b]> (rb_nodes s)) (pages s) s)
  else Oops.

(** ** The list of buffers *)

(** [list_is_last] and [list_entry(b->entry.next, ...)] *)
Fixpoint next_of (b : Z) (l : list Z) : outcome (option Z) := match l with [] => Oops | x :: l => if x =? b then Ok (head l) else next_of b l end.

(** [list_entry(b->entry.prev, ...)] *)
Fixpoint prev_of (p : option Z) (b : Z) (l : list Z) : outcome (option Z) := match l with [] => Oops | x :: l => if x =? b then Ok p else prev_of (Some x) b l end.

Fixpoint insert_after (b new : Z) (l : list Z) : list Z := match l with [] => [] | x :: l => if x =? b then x :: new :: l else x :: insert_after b new l end.

Definition hdr_if (s : binder_proc) (b : option Z) : outcome unit := match b with Some b => let* _ := hdr s b in Ok tt | None => Ok tt end.

(** [list_add(&new->entry, &b->entry)], which writes to both and to the next one. *)
Definition list_add (s : binder_proc) (new b : Z) : outcome binder_proc :=
  let* _ := hdr s new in
  let* _ := hdr s b in
  let* next := next_of b (buffers s) in
  let* _ := hdr_if s next in
  Ok (with_buffers (insert_after b new (buffers s)) s).

Definition list_del (s : binder_proc) (b : Z) : outcome binder_proc :=
  let* _ := hdr s b in
  let* prev := prev_of None b (buffers s) in
  let* next := next_of b (buffers s) in
  let* _ := hdr_if s prev in
  let* _ := hdr_if s next in
  Ok (with_buffers (filter (fun x => x <> b) (buffers s)) s).

Definition binder_buffer_size (s : binder_proc) (b : Z) : outcome Z :=
  let* _ := hdr s b in
  let* next := next_of b (buffers s) in
  match next with
  | None => Ok (u64 (buffer s + buffer_size s - (b + sizeof_buffer)))
  | Some n => Ok (u64 (n - (b + sizeof_buffer)))
  end.

(** ** The trees *)

Definition free_side (s : binder_proc) (new_size parent : Z) : outcome side :=
  let b := parent - rb_offset in
  let* h := hdr s b in
  BUG_ON (negb (free h))
  (let* size := binder_buffer_size s b in
   Ok (if new_size <? size then Lft else Rgt)).

Definition binder_insert_free_buffer (s : binder_proc) (new_buffer : Z) : outcome binder_proc :=
  let* h := hdr s new_buffer in
  BUG_ON (negb (free h))
  (let* new_size := binder_buffer_size s new_buffer in
   let* (parent, d) := seek (rounds (free_tree s)) (free_tree s) (free_side s new_size) (free_buffers s) 0 Lft in
   let* t := rb_link_node (free_tree s) (new_buffer + rb_offset) parent d in
   let* t := rb_insert_color t (new_buffer + rb_offset) in
   Ok (with_free_tree t s)).

Definition allocated_side (s : binder_proc) (new_buffer parent : Z) : outcome side :=
  let b := parent - rb_offset in
  let* h := hdr s b in
  BUG_ON (free h)
  (if new_buffer <? b then Ok Lft else if b <? new_buffer then Ok Rgt else Oops).

Definition binder_insert_allocated_buffer (s : binder_proc) (new_buffer : Z) : outcome binder_proc :=
  let* h := hdr s new_buffer in
  BUG_ON (free h)
  (let* (parent, d) := seek (rounds (allocated_tree s)) (allocated_tree s) (allocated_side s new_buffer) (allocated_buffers s) 0 Lft in
   let* t := rb_link_node (allocated_tree s) (new_buffer + rb_offset) parent d in
   let* t := rb_insert_color t (new_buffer + rb_offset) in
   Ok (with_allocated_tree t s)).

Inductive lookup_result := Not_found | Not_permitted | Found (b : Z).

Definition lookup_visit (s : binder_proc) (kern_ptr : Z) (_ : unit) (n : Z) : outcome (unit * option side) :=
  let b := n - rb_offset in
  let* h := hdr s b in
  BUG_ON (free h)
  (Ok (tt, if kern_ptr <? b then Some Lft else if b <? kern_ptr then Some Rgt else None)).

Definition binder_buffer_lookup (s : binder_proc) (user_ptr : Z) : outcome (binder_proc * lookup_result) :=
  let kern_ptr := u64 (user_ptr - user_buffer_offset s - sizeof_buffer) in
  let* (_, n) := search (rounds (allocated_tree s)) (allocated_tree s) (lookup_visit s kern_ptr) tt (allocated_buffers s) in
  if n =? 0 then Ok (s, Not_found)
  else
    let b := n - rb_offset in
    let* h := hdr s b in
    if negb (allow_user_free h) then Ok (s, Not_permitted)
    else
      let* s := set_hdr s b (set_allow false) in
      Ok (s, Found b).

(** ** Pages *)

(** [&proc->pages[(page_addr - proc->buffer) / PAGE_SIZE]], inside the array *)
Definition page_entry (s : binder_proc) (page_addr : Z) : outcome bool :=
  if mapped s && (page_index s page_addr <? buffer_size s / PAGE_SIZE) then Ok (bool_decide (page_index s page_addr ∈ pages s)) else Oops.

Definition map_page (s : binder_proc) (page_addr : Z) : binder_proc := with_memory (headers s) (rb_nodes s) ({[page_index s page_addr]} ∪ pages s) s.

(** [unmap_kernel_range(...); __free_page( *page ); *page = NULL] *)
Definition unmap_page (s : binder_proc) (page_addr : Z) : binder_proc :=
  let s := forget page_addr (page_addr + PAGE_SIZE) s in
  with_memory (headers s) (rb_nodes s) (pages s ∖ {[page_index s page_addr]}) s.

(** The loop after [free_range], from [page_addr] down. *)
Fixpoint free_loop (fuel : nat) (s : binder_proc) (start page_addr : Z) : outcome binder_proc :=
  match fuel with
  | O => NoFuel
  | S fuel =>
    if start <=? page_addr then
      let* present := page_entry s page_addr in
      if present : bool then free_loop fuel (unmap_page s page_addr) start (u64 (page_addr - PAGE_SIZE)) else Oops
    else Ok s
  end.

Definition page_rounds (s : binder_proc) : nat := S (Z.to_nat (buffer_size s / PAGE_SIZE)).

Fixpoint allocate_loop (fuel : nat) (e : env) (s : binder_proc) (start end_ page_addr : Z) : outcome (binder_proc * Z) :=
  match fuel with
  | O => NoFuel
  | S fuel =>
    if page_addr <? end_ then
      let* present := page_entry s page_addr in
      BUG_ON present
      (let fail s := (let* s := free_loop (page_rounds s) s start (u64 (page_addr - PAGE_SIZE)) in Ok (s, - ENOMEM)) in
       match page_fate e page_addr with
       | No_page => fail s
       | No_kernel_mapping | No_user_mapping => fail (unmap_page (map_page s page_addr) page_addr)
       | Mapped => allocate_loop fuel e (map_page s page_addr) start end_ (u64 (page_addr + PAGE_SIZE))
       end)
    else Ok (s, 0)
  end.

Definition binder_update_page_range (e : env) (s : binder_proc) (allocate : bool) (start end_ : Z) (vma_arg : bool) : outcome (binder_proc * Z) :=
  if end_ <=? start then Ok (s, 0)
  else
    let have_vma := if vma_arg then true else task_mm e && same_mm e && vma s in
    if negb allocate then
      let* s := free_loop (page_rounds s) s start (u64 (end_ - PAGE_SIZE)) in
      Ok (s, - ENOMEM)
    else if negb have_vma then Ok (s, - ENOMEM)
    else allocate_loop (page_rounds s) e s start end_ start.

(** ** Allocation *)

(** One round of the search for the best fit. *)
Definition best_visit (s : binder_proc) (size best_fit n : Z) : outcome (Z * option side) :=
  let b := n - rb_offset in
  let* h := hdr s b in
  BUG_ON (negb (free h))
  (let* bsize := binder_buffer_size s b in
   Ok (if size <? bsize then (n, Some Lft) else if bsize <? size then (best_fit, Some Rgt) else (n, None))).

(** The part after the search, with the buffer [b] at the node [best_fit]. *)
Definition take_buffer (e : env) (s : binder_proc) (b best_fit bsize size data_sz offsets_sz : Z) (is_async : bool) : outcome (binder_proc * Z) :=
  let* t := rb_erase (free_tree s) best_fit in
  let s := with_free_tree t s in
  let* s := set_hdr s b (set_free false) in
  let* s := set_hdr s b (set_allow false) in
  let* s := binder_insert_allocated_buffer s b in
  let* s :=
    (if negb (bsize =? size) then
       let new_buffer := u64 (b + sizeof_buffer + size) in
       let* s := new_header e s new_buffer in
       let* s := list_add s new_buffer b in
       let* s := set_hdr s new_buffer (set_free true) in
       binder_insert_free_buffer s new_buffer
     else Ok s) in
  let* s := set_hdr s b (set_sizes data_sz offsets_sz is_async) in
  let s := if is_async then with_space (u64 (free_async_space s - u64 (size + sizeof_buffer))) s else s in
  Ok (s, b).

(** Returns the buffer, or 0 for NULL. *)
Definition binder_alloc_buf (e : env) (s : binder_proc) (data_sz offsets_sz : Z) (is_async : bool) : outcome (binder_proc * Z) :=
  if negb (vma s) then Ok (s, 0)
  else
    let size := u64 (ALIGN data_sz 8 + ALIGN offsets_sz 8) in
    if (size <? data_sz) || (size <? offsets_sz) then Ok (s, 0)
    else
      let proc_max_size := if is_async then buffer_size s / 2 else buffer_size s in
      if proc_max_size <? u64 (size + sizeof_buffer) then Ok (s, 0)
      else if is_async && (free_async_space s <? u64 (size + sizeof_buffer)) then Ok (s, 0)
      else
        let* (best_fit, n) := search (rounds (free_tree s)) (free_tree s) (best_visit s size) 0 (free_buffers s) in
        if best_fit =? 0 then Ok (s, 0)
        else
          let b := (if n =? 0 then best_fit else n) - rb_offset in
          let* bsize := binder_buffer_size s b in
          let has_page_addr := Z.land (u64 (b + sizeof_buffer + bsize)) PAGE_MASK in
          let bsize := if n =? 0 then if bsize <=? u64 (size + sizeof_buffer + 4) then size else u64 (size + sizeof_buffer) else bsize in
          let end_page_addr := PAGE_ALIGN (u64 (b + sizeof_buffer + bsize)) in
          let end_page_addr := if has_page_addr <? end_page_addr then has_page_addr else end_page_addr in
          let* (s, ret) := binder_update_page_range e s true (PAGE_ALIGN (b + sizeof_buffer)) end_page_addr false in
          if negb (ret =? 0) then Ok (s, 0) else take_buffer e s b best_fit bsize size data_sz offsets_sz is_async.

(** ** Freeing *)

Definition buffer_start_page (b : Z) : Z := Z.land b PAGE_MASK.
Definition buffer_end_page (b : Z) : Z := Z.land (u64 (b + sizeof_buffer - 1)) PAGE_MASK.

Definition binder_delete_free_buffer (e : env) (s : binder_proc) (b : Z) : outcome binder_proc :=
  BUG_ON (bool_decide (head (buffers s) = Some b))
  (let* prev := prev_of None b (buffers s) in
   match prev with
   | None => Oops
   | Some prev =>
     let* ph := hdr s prev in
     BUG_ON (negb (free ph))
     (let share := buffer_end_page prev =? buffer_start_page b in
      let free_page_start := negb share in
      let free_page_end := negb (share && (buffer_end_page prev =? buffer_end_page b)) in
      let* next := next_of b (buffers s) in
      let '(free_page_start, free_page_end) :=
        match next with
        | Some next =>
          if buffer_start_page next =? buffer_end_page b then
            (if buffer_start_page next =? buffer_start_page b then false else free_page_start, false)
          else (free_page_start, free_page_end)
        | None => (free_page_start, free_page_end)
        end in
      let* s := list_del s b in
      if free_page_start || free_page_end then
        let* (s, _) := binder_update_page_range e s false (if free_page_start : bool then buffer_start_page b else buffer_end_page b)
                         (u64 ((if free_page_end : bool then buffer_end_page b else buffer_start_page b) + PAGE_SIZE)) false in
        Ok s
      else Ok s)
   end).

(** [if (next->free) ...] *)
Definition merge_next (e : env) (s : binder_proc) (b : Z) : outcome binder_proc :=
  let* next := next_of b (buffers s) in
  match next with
  | None => Ok s
  | Some next =>
    let* nh := hdr s next in
    if free nh then
      let* t := rb_erase (free_tree s) (next + rb_offset) in
      binder_delete_free_buffer e (with_free_tree t s) next
    else Ok s
  end.

(** [if (prev->free) ...]; returns the buffer to put into the tree. *)
Definition merge_prev (e : env) (s : binder_proc) (b : Z) : outcome (binder_proc * Z) :=
  if bool_decide (head (buffers s) = Some b) then Ok (s, b)
  else
    let* prev := prev_of None b (buffers s) in
    match prev with
    | None => Oops
    | Some prev =>
      let* ph := hdr s prev in
      if free ph then
        let* s := binder_delete_free_buffer e s b in
        let* t := rb_erase (free_tree s) (prev + rb_offset) in
        Ok (with_free_tree t s, prev)
      else Ok (s, b)
    end.

Definition binder_free_buf (e : env) (s : binder_proc) (b : Z) : outcome binder_proc :=
  let* bsize := binder_buffer_size s b in
  let* h := hdr s b in
  let size := u64 (ALIGN (data_size h) 8 + ALIGN (offsets_size h) 8) in
  BUG_ON (free h) (BUG_ON (bsize <? size) (BUG_ON (negb (transaction h =? 0)) (BUG_ON (b <? buffer s) (BUG_ON (u64 (buffer s + buffer_size s) <? b)
  (let s := if async_transaction h then with_space (u64 (free_async_space s + u64 (size + sizeof_buffer))) s else s in
   let* (s, _) := binder_update_page_range e s false (PAGE_ALIGN (b + sizeof_buffer)) (Z.land (u64 (b + sizeof_buffer + bsize)) PAGE_MASK) false in
   let* t := rb_erase (allocated_tree s) (b + rb_offset) in
   let s := with_allocated_tree t s in
   let* s := set_hdr s b (set_free true) in
   let* s := merge_next e s b in
   let* (s, b) := merge_prev e s b in
   binder_insert_free_buffer s b))))).

(** ** Mapping and release *)

Definition SZ_4M : Z := 2 ^ 22.
Definition EPERM : Z := 1.

(** [binder_mmap] of the area from [vm_start] to [vm_end]: [forbidden] says whether the
    vma has a forbidden flag, [area] is the result of [get_vm_area] (0 for NULL), and
    [array] says whether [kzalloc] has memory for the array of pages. *)
Definition binder_mmap (e : env) (s : binder_proc) (own forbidden : bool) (vm_start vm_end area : Z) (array : bool) : outcome (binder_proc * Z) :=
  if negb own then Ok (s, - EINVAL)
  else
    let vm_end := if SZ_4M <? vm_end - vm_start then vm_start + SZ_4M else vm_end in
    if forbidden then Ok (s, - EPERM)
    else if negb (buffer s =? 0) then Ok (s, - EBUSY)
    else if area =? 0 then Ok (s, - ENOMEM)
    else
      let s1 := BinderProc (headers s) (rb_nodes s) area (u64 (vm_start - area)) (buffers s) (free_buffers s) (allocated_buffers s) (free_async_space s) array ∅ (buffer_size s) (vma s) in
      let unset s := BinderProc (headers s) (rb_nodes s) 0 (user_buffer_offset s) (buffers s) (free_buffers s) (allocated_buffers s) (free_async_space s) false ∅ (buffer_size s) (vma s) in
      if negb array then Ok (unset s1, - ENOMEM)
      else
        let s := BinderProc (headers s1) (rb_nodes s1) area (user_buffer_offset s1) (buffers s1) (free_buffers s1) (allocated_buffers s1) (free_async_space s1) array ∅ (vm_end - vm_start) (vma s1) in
        let* (s, ret) := binder_update_page_range e s true area (area + PAGE_SIZE) true in
        if negb (ret =? 0) then Ok (unset s, - ENOMEM)
        else
          let b := area in
          let* s := new_header e s b in
          let s := with_buffers [b] s in
          let* s := set_hdr s b (set_free true) in
          let* s := binder_insert_free_buffer s b in
          let s := with_space (buffer_size s / 2) s in
          Ok (BinderProc (headers s) (rb_nodes s) (buffer s) (user_buffer_offset s) (buffers s) (free_buffers s) (allocated_buffers s) (free_async_space s) (mapped s) (pages s) (buffer_size s) true, 0).

(** The loop of [binder_deferred_release] over the allocated buffers. *)
Fixpoint release_buffers (fuel : nat) (e : env) (s : binder_proc) : outcome binder_proc :=
  match fuel with
  | O => NoFuel
  | S fuel =>
    let* n := rb_first (allocated_tree s) in
    if n =? 0 then Ok s
    else
      let b := n - rb_offset in
      let* s := set_hdr s b (set_transaction 0) in
      let* s := binder_free_buf e s b in
      release_buffers fuel e s
  end.

(** ** The commands that use the buffers *)

(** [BC_FREE_BUFFER] in [binder_thread_write], as far as it concerns the buffer. *)
Definition bc_free_buffer (e : env) (s : binder_proc) (data_ptr : Z) : outcome (binder_proc * bool) :=
  let* (s, r) := binder_buffer_lookup s data_ptr in
  match r with
  | Found b =>
    let* s := set_hdr s b (set_transaction 0) in
    let* s := binder_free_buf e s b in
    Ok (s, true)
  | _ => Ok (s, false)
  end.

(** The part of [binder_transaction] that takes a buffer, for the transaction [t]. *)
Definition transaction_buffer (e : env) (s : binder_proc) (data_sz offsets_sz : Z) (is_async : bool) (t : Z) : outcome (binder_proc * Z) :=
  let* (s, b) := binder_alloc_buf e s data_sz offsets_sz is_async in
  if b =? 0 then Ok (s, 0)
  else
    let* s := set_hdr s b (set_transaction t) in
    Ok (s, b).

(** Its error path, [err_copy_data_failed]. *)
Definition transaction_failed (e : env) (s : binder_proc) (b : Z) : outcome binder_proc :=
  let* s := set_hdr s b (set_transaction 0) in
  binder_free_buf e s b.

(** [binder_thread_read] hands the buffer to user space; [waits] says whether it is a
    transaction whose sender waits for the reply. *)
Definition deliver (s : binder_proc) (b : Z) (waits : bool) : outcome binder_proc :=
  let* s := set_hdr s b (set_allow true) in
  if waits then Ok s else set_hdr s b (set_transaction 0).

(** The transaction ends before its buffer is freed, as in [binder_pop_transaction]. *)
Definition forget_transaction (s : binder_proc) (b : Z) : outcome binder_proc := set_hdr s b (set_transaction 0).

Definition binder_vma_close (s : binder_proc) : binder_proc := BinderProc (headers s) (rb_nodes s) (buffer s) (user_buffer_offset s) (buffers s) (free_buffers s) (allocated_buffers s) (free_async_space s) (mapped s) (pages s) (buffer_size s) false.

Inductive command :=
| Transaction (data_sz offsets_sz : Z) (is_async : bool) (t : Z)
| Transaction_failed (b : Z)
| Deliver (b : Z) (waits : bool)
| Forget_transaction (b : Z)
| BC_FREE_BUFFER (data_ptr : Z)
| Vma_close.

Definition perform (e : env) (s : binder_proc) (c : command) : outcome binder_proc :=
  match c with
  | Transaction d o a t => let* (s, _) := transaction_buffer e s d o a t in Ok s
  | Transaction_failed b => transaction_failed e s b
  | Deliver b waits => deliver s b waits
  | Forget_transaction b => forget_transaction s b
  | BC_FREE_BUFFER p => let* (s, _) := bc_free_buffer e s p in Ok s
  | Vma_close => Ok (binder_vma_close s)
  end.

(** The buffer of a transaction, as [t->buffer] has it. *)
Definition held (s : binder_proc) (b : Z) : bool :=
  bool_decide (b ∈ buffers s) && match headers s !! b with Some h => negb (free h) && negb (transaction h =? 0) | None => false end.

(** User space may pass any sizes and any address; the driver itself uses the buffers of
    its transactions. *)
Definition allowed (s : binder_proc) (c : command) : bool :=
  match c with
  | Transaction d o _ t => (0 <=? d) && (d <? 2 ^ 64) && (0 <=? o) && (o <? 2 ^ 64) && negb (t =? 0)
  | Transaction_failed b | Deliver b _ | Forget_transaction b => held s b
  | BC_FREE_BUFFER p => (0 <=? p) && (p <? 2 ^ 64)
  | Vma_close => true
  end.
