(* ===== verification/BinderFacts.v ===== *)
(** * BinderFacts: memory, pages and the list of buffers *)

From stdpp Require Import gmap.
From S2P Require Import Prelude Rbtree Binder.

(** ** Pages *)

(** The area: whole pages, away from the ends of the address space. *)
Record area (s : binder_proc) : Prop := {
  area_mapped : mapped s = true;
  area_low : PAGE_SIZE <= buffer s;
  area_aligned : buffer s mod PAGE_SIZE = 0;
  area_size : 0 < buffer_size s <= SZ_4M;
  area_whole : buffer_size s mod PAGE_SIZE = 0;
  area_high : buffer s + buffer_size s + 2 * PAGE_SIZE <= 2 ^ 64
}.

Definition stop_of (s : binder_proc) : Z := buffer s + buffer_size s.

(** The page of an address, counted from the start of the area. *)
Definition pg (s : binder_proc) (a : Z) : Z := (a - buffer s) / PAGE_SIZE.

(** The first address of a page. *)
Definition at_page (s : binder_proc) (i : Z) : Z := buffer s + PAGE_SIZE * i.

Definition npages (s : binder_proc) : Z := buffer_size s / PAGE_SIZE.

Lemma pg_le s a i : pg s a <= i <-> a < at_page s (i + 1).
Proof. unfold pg, at_page, PAGE_SIZE. lia. Qed.

Lemma le_pg s a i : i <= pg s a <-> at_page s i <= a.
Proof. unfold pg, at_page, PAGE_SIZE. lia. Qed.

Lemma at_page_mono s i j : at_page s i <= at_page s j <-> i <= j.
Proof. unfold at_page, PAGE_SIZE. lia. Qed.

Lemma pg_at_page s i : pg s (at_page s i) = i.
Proof. unfold pg, at_page, PAGE_SIZE. lia. Qed.

Section area.
Context (s : binder_proc) (Ha : area s).

Lemma area_facts : mapped s = true /\ 4096 <= buffer s /\ buffer s mod 4096 = 0 /\ 0 < buffer_size s <= 2 ^ 22 /\ buffer_size s mod 4096 = 0 /\ buffer s + buffer_size s + 8192 <= 2 ^ 64.
Proof. destruct Ha. unfold PAGE_SIZE, SZ_4M in *. done. Qed.

Lemma stop_page : stop_of s = at_page s (npages s).
Proof. destruct area_facts as (_&_&_&_&H&_). unfold stop_of, at_page, npages, PAGE_SIZE. lia. Qed.

Lemma mask_page a : buffer s <= a < 2 ^ 64 -> Z.land a PAGE_MASK = at_page s (pg s a).
Proof.
  intros H. destruct area_facts as (_&Hlo&Hb&_). unfold PAGE_MASK, PAGE_SIZE. change (4096 - 1) with (2 ^ 12 - 1). rewrite land_ones_compl by lia. unfold at_page, pg, PAGE_SIZE. change (2 ^ 12) with 4096. lia.
Qed.

Lemma align_page a : buffer s <= a < 2 ^ 64 - 4095 -> PAGE_ALIGN a = at_page s (pg s (a + 4095)).
Proof. intros H. destruct area_facts as (_&Hlo&Hb&_). unfold PAGE_ALIGN, ALIGN. change (PAGE_SIZE - 1) with 4095. rewrite (wrap_small 64 (a + 4095)) by lia. apply (mask_page (a + 4095)). lia. Qed.

Lemma page_index_at a : buffer s <= a < 2 ^ 64 -> page_index s a = pg s a.
Proof. intros H. destruct area_facts as (_&Hb&_). unfold page_index, pg. rewrite wrap_small by lia. done. Qed.

Lemma at_page_range i : 0 <= i <= npages s -> buffer s <= at_page s i <= stop_of s.
Proof. intros H. rewrite stop_page. unfold at_page, PAGE_SIZE. lia. Qed.

Lemma page_entry_at i : 0 <= i < npages s -> page_entry s (at_page s i) = Ok (bool_decide (i ∈ pages s)).
Proof.
  intros H. destruct area_facts as (Hm&Hb&_&_&_&He). pose proof (at_page_range i ltac:(lia)). unfold page_entry. rewrite Hm, page_index_at, pg_at_page by (unfold stop_of in *; lia). unfold npages in H. replace (i <? buffer_size s / PAGE_SIZE) with true by lia. done.
Qed.

End area.

(** ** Changes of memory *)

(** Everything but the memory itself. *)
Definition rest (s : binder_proc) := (buffer s, user_buffer_offset s, buffers s, free_buffers s, allocated_buffers s, free_async_space s, mapped s, buffer_size s, vma s).

(** [s'] is [s], but for what lies between [lo] and [hi] and the pages. *)
Definition keeps (lo hi : Z) (s s' : binder_proc) : Prop :=
  rest s' = rest s /\ (forall b h, headers s !! b = Some h -> overlaps b sizeof_buffer lo hi = false -> headers s' !! b = Some h) /\
  (forall n x, rb_nodes s !! n = Some x -> overlaps n sizeof_node lo hi = false -> rb_nodes s' !! n = Some x).

Lemma keeps_refl lo hi s : keeps lo hi s s.
Proof. split; [done|]. split; done. Qed.

Lemma overlaps_wider a len lo hi lo' hi' : lo' <= lo -> hi <= hi' -> overlaps a len lo' hi' = false -> overlaps a len lo hi = false.
Proof. unfold overlaps. lia. Qed.

Lemma keeps_compose lo hi lo1 hi1 lo2 hi2 s s' s'' : keeps lo1 hi1 s s' -> keeps lo2 hi2 s' s'' -> lo <= lo1 -> hi1 <= hi -> lo <= lo2 -> hi2 <= hi -> keeps lo hi s s''.
Proof.
  intros (R1&H1&N1) (R2&H2&N2) L1 L2 L3 L4. split; [congruence|]. split.
  - intros b h Hb Ho. apply H2; [apply H1; [done|]|]; (eapply overlaps_wider; [| |exact Ho]; lia).
  - intros n x Hn Ho. apply N2; [apply N1; [done|]|]; (eapply overlaps_wider; [| |exact Ho]; lia).
Qed.

Lemma rest_area s s' : rest s' = rest s -> area s -> area s'.
Proof. intros Hr []. injection Hr as H1 H2 H3 H4 H5 H6 H7 H8 H9. split; congruence. Qed.

Lemma rest_pg s s' a : rest s' = rest s -> pg s' a = pg s a.
Proof. intros Hr. injection Hr as H1 _ _ _ _ _ _ _ _. unfold pg. by rewrite H1. Qed.

Lemma rest_at_page s s' i : rest s' = rest s -> at_page s' i = at_page s i.
Proof. intros Hr. injection Hr as H1 _ _ _ _ _ _ _ _. unfold at_page. by rewrite H1. Qed.

Lemma rest_npages s s' : rest s' = rest s -> npages s' = npages s.
Proof. intros Hr. injection Hr as _ _ _ _ _ _ _ H8 _. unfold npages. by rewrite H8. Qed.

Lemma forget_keeps lo hi s : keeps lo hi s (forget lo hi s).
Proof.
  split; [done|]. split; [intros b h Hb Ho|intros n x Hn Ho]; unfold forget; cbn [headers rb_nodes with_memory]; apply map_lookup_filter_Some; done.
Qed.

Lemma unmap_keeps s a : keeps a (a + PAGE_SIZE) s (unmap_page s a).
Proof. exact (forget_keeps a (a + PAGE_SIZE) s). Qed.

Lemma map_keeps s a : keeps a (a + PAGE_SIZE) s (map_page s a).
Proof. split; [done|]. split; done. Qed.

(** ** Mapping and unmapping pages *)

Lemma free_loop_spec fuel : forall s i j, area s -> 0 <= i -> i <= j <= npages s -> (Z.to_nat (j - i) < fuel)%nat -> (forall p, i <= p < j -> p ∈ pages s) ->
  exists s', free_loop fuel s (at_page s i) (u64 (at_page s j - PAGE_SIZE)) = Ok s' /\ keeps (at_page s i) (at_page s j) s s' /\ forall p, p ∈ pages s' <-> p ∈ pages s /\ ~ i <= p < j.
Proof.
  induction fuel as [|fuel IH]; intros s i j Ha Hi Hj Hf Hp; [lia|]. destruct (area_facts s Ha) as (Hm&Hb&_&_&_&He). pose proof (at_page_range s Ha j ltac:(lia)) as Rj. pose proof (at_page_range s Ha i ltac:(lia)) as Ri. unfold stop_of in *. rewrite wrap_small by (unfold PAGE_SIZE in *; lia). cbn [free_loop].
  destruct (decide (i = j)) as [->|Hne]; [replace (at_page s j <=? at_page s j - PAGE_SIZE) with false by (unfold PAGE_SIZE; lia); exists s; split; [done|]; split; [apply keeps_refl|]; intros p; split; [intros H; split; [done|lia]|tauto]|].
  assert (Hj1 : at_page s j - PAGE_SIZE = at_page s (j - 1)) by (unfold at_page, PAGE_SIZE; lia). rewrite Hj1. replace (at_page s i <=? at_page s (j - 1)) with true by (unfold at_page, PAGE_SIZE; lia). rewrite page_entry_at by (done || lia). cbn [obind]. rewrite bool_decide_eq_true_2 by (apply Hp; lia).
  set (s1 := unmap_page s (at_page s (j - 1))). pose proof (unmap_keeps s (at_page s (j - 1))) as K1. fold s1 in K1. pose proof (proj1 K1) as R1. pose proof (rest_area _ _ R1 Ha) as Ha1. assert (Hpg : forall p, p ∈ pages s1 <-> p ∈ pages s /\ p <> j - 1).
  { intros p. unfold s1, unmap_page. cbn [pages with_memory forget]. change (page_index (forget (at_page s (j - 1)) (at_page s (j - 1) + PAGE_SIZE) s) (at_page s (j - 1))) with (page_index s (at_page s (j - 1))). rewrite page_index_at, pg_at_page by (done || unfold at_page, PAGE_SIZE in *; lia). set_solver. }
  destruct (IH s1 i (j - 1) Ha1 Hi) as (s'&Hrun&K2&Hp2); [rewrite (rest_npages _ _ R1); lia|lia|intros p Hq; apply Hpg; split; [apply Hp; lia|lia]|]. rewrite !(rest_at_page _ _ _ R1) in *. exists s'. split; [exact Hrun|]. split; [eapply keeps_compose; [exact K1|exact K2|..]; unfold at_page, PAGE_SIZE; lia|]. intros p. rewrite Hp2, Hpg. split; [intros ((H1&H2)&H3); split; [done|lia]|intros (H1&H2); split; [split; [done|]|]; lia].
Qed.

Lemma page_rounds_enough s i j : area s -> 0 <= i -> j <= npages s -> (Z.to_nat (j - i) < page_rounds s)%nat.
Proof. intros Ha Hi Hj. unfold page_rounds. unfold npages in Hj. lia. Qed.

(** Freeing the pages from [i] to [j]. *)
Lemma free_range_spec e s i j v : area s -> 0 <= i -> j <= npages s -> (forall p, i <= p < j -> p ∈ pages s) ->
  exists s' r, binder_update_page_range e s false (at_page s i) (at_page s j) v = Ok (s', r) /\ keeps (at_page s i) (at_page s j) s s' /\ forall p, p ∈ pages s' <-> p ∈ pages s /\ ~ i <= p < j.
Proof.
  intros Ha Hi Hj Hp. unfold binder_update_page_range. destruct (Z.leb_spec (at_page s j) (at_page s i)) as [Hle|Hlt].
  - exists s, 0. split; [done|]. split; [apply keeps_refl|]. intros p. apply at_page_mono in Hle. split; [intros H; split; [done|lia]|tauto].
  - cbn [negb]. assert (i < j) by (unfold at_page, PAGE_SIZE in Hlt; lia). destruct (free_loop_spec (page_rounds s) s i j Ha Hi) as (s'&->&K&Hp'); [lia|by apply page_rounds_enough|done|]. cbn [obind]. exists s', (- ENOMEM). done.
Qed.

Lemma map_page_pages s i p : area s -> 0 <= i < npages s -> p ∈ pages (map_page s (at_page s i)) <-> p = i \/ p ∈ pages s.
Proof. intros Ha Hi. pose proof (at_page_range s Ha i ltac:(lia)) as Hr. destruct (area_facts s Ha) as (_&_&_&_&_&He). unfold map_page. cbn [pages with_memory]. unfold stop_of in Hr. rewrite page_index_at, pg_at_page by (done || lia). set_solver. Qed.

Lemma undo_page_pages s i p : area s -> 0 <= i < npages s -> p ∈ pages (unmap_page (map_page s (at_page s i)) (at_page s i)) <-> p ∈ pages s /\ p <> i.
Proof.
  intros Ha Hi. pose proof (at_page_range s Ha i ltac:(lia)) as Hr. destruct (area_facts s Ha) as (_&_&_&_&_&He). unfold stop_of in Hr. unfold unmap_page. cbn [pages with_memory forget]. change (page_index (forget (at_page s i) (at_page s i + PAGE_SIZE) (map_page s (at_page s i))) (at_page s i)) with (page_index s (at_page s i)). rewrite (page_index_at s Ha), pg_at_page by lia.
  pose proof (map_page_pages s i p Ha Hi). set_solver.
Qed.

Lemma allocate_loop_spec fuel e : forall s i m j, area s -> 0 <= i <= m -> m <= j <= npages s -> (Z.to_nat (j - m) < fuel)%nat -> (forall p, i <= p < m -> p ∈ pages s) -> (forall p, m <= p < j -> p ∉ pages s) ->
  exists s' r, allocate_loop fuel e s (at_page s i) (at_page s j) (at_page s m) = Ok (s', r) /\ keeps (at_page s i) (at_page s j) s s' /\
    ((r = 0 /\ forall p, p ∈ pages s' <-> p ∈ pages s \/ m <= p < j) \/
     (r = - ENOMEM /\ (exists p, m <= p < j /\ page_fate e (at_page s p) <> Mapped) /\ forall p, p ∈ pages s' <-> p ∈ pages s /\ ~ i <= p < m)).
Proof.
  induction fuel as [|fuel IH]; intros s i m j Ha Hi Hj Hf Hp Hn; [lia|]. cbn [allocate_loop]. destruct (area_facts s Ha) as (Hm&Hb&_&_&_&He). pose proof (at_page_range s Ha m ltac:(lia)) as Rm. unfold stop_of in *. destruct (decide (m = j)) as [->|Hne].
  { replace (at_page s j <? at_page s j) with false by lia. exists s, 0. split; [done|]. split; [apply keeps_refl|]. left. split; [done|]. intros p. split; [tauto|]. intros [H|H]; [done|lia]. }
  replace (at_page s m <? at_page s j) with true by (unfold at_page, PAGE_SIZE; lia). rewrite page_entry_at by (done || lia). cbn [obind]. rewrite bool_decide_eq_false_2 by (apply Hn; lia). cbn [BUG_ON].
  assert (Hfail : forall s1, keeps (at_page s m) (at_page s m + PAGE_SIZE) s s1 -> (forall p, p ∈ pages s1 <-> p ∈ pages s) -> exists s', (let* s := free_loop (page_rounds s1) s1 (at_page s i) (u64 (at_page s m - PAGE_SIZE)) in Ok (s, - ENOMEM)) = Ok (s', - ENOMEM) /\ keeps (at_page s i) (at_page s j) s s' /\ forall p, p ∈ pages s' <-> p ∈ pages s /\ ~ i <= p < m).
  { intros s1 K1 Hp1. pose proof (proj1 K1) as R1. pose proof (rest_area _ _ R1 Ha) as Ha1. destruct (free_loop_spec (page_rounds s1) s1 i m Ha1) as (s'&Hrun&K2&Hp2); [lia|rewrite (rest_npages _ _ R1); lia|apply page_rounds_enough; [done|lia|rewrite (rest_npages _ _ R1); lia]|intros p Hq; apply Hp1, Hp; lia|]. rewrite !(rest_at_page _ _ _ R1) in *. rewrite Hrun. exists s'. split; [done|]. split; [eapply keeps_compose; [exact K1|exact K2|..]; unfold at_page, PAGE_SIZE; lia|]. intros p. by rewrite Hp2, Hp1. }
  assert (Hundo : keeps (at_page s m) (at_page s m + PAGE_SIZE) s (unmap_page (map_page s (at_page s m)) (at_page s m))) by (eapply keeps_compose; [apply map_keeps|apply unmap_keeps|lia|lia|lia|lia]). assert (Hundo2 : forall p, p ∈ pages (unmap_page (map_page s (at_page s m)) (at_page s m)) <-> p ∈ pages s) by (intros p; rewrite undo_page_pages by (done || lia); split; [tauto|]; intros H; split; [done|]; intros ->; apply (Hn m); [lia|done]).
  destruct (page_fate e (at_page s m)) eqn:Ef.
  - set (s1 := map_page s (at_page s m)). pose proof (map_keeps s (at_page s m)) as K1. fold s1 in K1. pose proof (proj1 K1) as R1. pose proof (rest_area _ _ R1 Ha) as Ha1. assert (Hpg : forall p, p ∈ pages s1 <-> p = m \/ p ∈ pages s) by (intros p; apply map_page_pages; [done|lia]).
    destruct (IH s1 i (m + 1) j Ha1) as (s'&r&Hrun&K2&Hres); [lia|rewrite (rest_npages _ _ R1); lia|lia|intros p Hq; apply Hpg; destruct (decide (p = m)); [by left|right; apply Hp; lia]|intros p Hq Hin; apply Hpg in Hin as [->|Hin]; [lia|by apply (Hn p); [lia|]]|]. rewrite !(rest_at_page _ _ _ R1) in *. assert (u64 (at_page s m + PAGE_SIZE) = at_page s (m + 1)) as -> by (rewrite wrap_small by (unfold PAGE_SIZE; lia); unfold at_page, PAGE_SIZE; lia).
    exists s', r. split; [exact Hrun|]. split; [eapply keeps_compose; [exact K1|exact K2|..]; unfold at_page, PAGE_SIZE; lia|]. destruct Hres as [(->&Hq)|(->&(p0&Hp0&Hfate)&Hq)]; [left|right]; (split; [done|]).
    + intros p. rewrite Hq, Hpg. split; [intros [[->|H]|H]; [right; lia|by left|right; lia]|intros [H|H]; [left; by right|destruct (decide (p = m)); [left; by left|right; lia]]].
    + split; [exists p0; split; [lia|]; by rewrite (rest_at_page _ _ _ R1) in Hfate|]. intros p. rewrite Hq, Hpg. split; [intros ([->|H]&H2); [lia|split; [done|lia]]|]. intros (H&H2). split; [by right|]. intros H3. assert (p = m) as -> by lia. apply (Hn m); [lia|done].
  - destruct (Hfail s) as (s'&->&K&Hq); [apply keeps_refl|done|]. exists s', (- ENOMEM). split; [done|]. split; [done|]. right. split; [done|]. split; [exists m; split; [lia|congruence]|done].
  - destruct (Hfail _ Hundo Hundo2) as (s'&->&K&Hq). exists s', (- ENOMEM). split; [done|]. split; [done|]. right. split; [done|]. split; [exists m; split; [lia|congruence]|done].
  - destruct (Hfail _ Hundo Hundo2) as (s'&->&K&Hq). exists s', (- ENOMEM). split; [done|]. split; [done|]. right. split; [done|]. split; [exists m; split; [lia|congruence]|done].
Qed.

(** Why pages could not be mapped. *)
Definition unmappable (e : env) (s : binder_proc) (v : bool) (i j : Z) : Prop := (if v then true else task_mm e && same_mm e && vma s) = false \/ exists p, i <= p < j /\ page_fate e (at_page s p) <> Mapped.

(** Mapping the pages from [i] to [j]: all of them, or none. *)
Lemma allocate_range_spec e s i j v : area s -> 0 <= i -> j <= npages s -> (forall p, i <= p < j -> p ∉ pages s) ->
  exists s' r, binder_update_page_range e s true (at_page s i) (at_page s j) v = Ok (s', r) /\ keeps (at_page s i) (at_page s j) s s' /\
    ((r = 0 /\ forall p, p ∈ pages s' <-> p ∈ pages s \/ i <= p < j) \/ (r = - ENOMEM /\ unmappable e s v i j /\ forall p, p ∈ pages s' <-> p ∈ pages s)).
Proof.
  intros Ha Hi Hj Hn. unfold binder_update_page_range. destruct (Z.leb_spec (at_page s j) (at_page s i)) as [Hle|Hlt].
  - exists s, 0. split; [done|]. split; [apply keeps_refl|]. left. split; [done|]. intros p. apply at_page_mono in Hle. split; [tauto|]. intros [H|H]; [done|lia].
  - cbn [negb]. destruct (if v then true else task_mm e && same_mm e && vma s) eqn:Ev; cbn [negb].
    + assert (i < j) by (unfold at_page, PAGE_SIZE in Hlt; lia). destruct (allocate_loop_spec (page_rounds s) e s i i j Ha) as (s'&r&->&K&Hres); [lia|lia|by apply page_rounds_enough|intros p; lia|done|]. exists s', r. split; [done|]. split; [done|]. destruct Hres as [(->&Hp)|(->&Hex&Hp)]; [by left|right]. split; [done|]. split; [by right|]. intros p. rewrite Hp. split; [tauto|]. intros H'. split; [done|lia].
    + exists s, (- ENOMEM). split; [done|]. split; [apply keeps_refl|]. right. split; [done|]. split; [by left|done].
Qed.
