(* ===== verification/BinderLayout.v ===== *)
(** * BinderLayout: the buffers as blocks of the area *)

From stdpp Require Import gmap.
From S2P Require Import Prelude Rbtree RbtreeFacts RbtreeSpec Binder BinderFacts.

(** ** Blocks *)

(** A buffer with its header, up to the next one. *)
Record blk := Blk { start : Z; stop : Z; info : binder_buffer }.

Definition node_of (k : blk) : Z := start k + rb_offset.
Definition bsize (k : blk) : Z := stop k - start k - sizeof_buffer.
Definition is_free (k : blk) : bool := free (info k).

(** The blocks follow each other from [a] to [c]. *)
Fixpoint tiles (a : Z) (L : list blk) (c : Z) : Prop := match L with [] => a = c | k :: L => start k = a /\ tiles (stop k) L c end.

Definition good (k : blk) : Prop := start k mod 8 = 0 /\ stop k mod 8 = 0 /\ 0 <= bsize k.

Lemma tiles_app a A B c : tiles a (A ++ B) c <-> exists b, tiles a A b /\ tiles b B c.
Proof.
  revert a. induction A as [|k A IH]; intros a; simpl; [split; [intros H; by exists a|intros (b&->&H); done]|]. rewrite IH. split; [intros (H1&b&H2&H3); by exists b|intros (b&(H1&H2)&H3); split; [done|by exists b]].
Qed.

Lemma tiles_le a L c : tiles a L c -> Forall good L -> a <= c /\ forall k, k ∈ L -> a <= start k /\ stop k <= c.
Proof.
  revert a. induction L as [|k L IH]; intros a; simpl; [intros -> _; split; [lia|set_solver]|]. intros (<-&Ht) Hg. apply list.Forall_cons in Hg as ((_&_&H)&Hg). unfold bsize, sizeof_buffer in H. destruct (IH _ Ht Hg) as (H1&H2). split; [lia|]. intros j Hj. apply elem_of_cons in Hj as [->|Hj]; [lia|]. destruct (H2 j Hj). lia.
Qed.

(** A block between the others. *)
Lemma tiles_at a A k B c : tiles a (A ++ k :: B) c -> Forall good (A ++ k :: B) -> tiles a A (start k) /\ tiles (stop k) B c /\ good k /\ (forall j, j ∈ A -> a <= start j /\ start j < stop j <= start k) /\ (forall j, j ∈ B -> stop k <= start j < stop j /\ stop j <= c) /\ a <= start k /\ stop k <= c.
Proof.
  intros Ht Hg. apply tiles_app in Ht as (b&HA&(<-&HB)). apply Forall_app in Hg as (HgA&Hg). apply list.Forall_cons in Hg as (Hgk&HgB). destruct (tiles_le _ _ _ HA HgA) as (H1&H2). destruct (tiles_le _ _ _ HB HgB) as (H3&H4). split; [done|]. split; [done|]. split; [done|]. split; [|split; [|lia]].
  - intros j Hj. destruct (H2 j Hj). pose proof (proj1 (list.Forall_forall _ _) HgA j Hj) as (_&_&Hb). unfold bsize, sizeof_buffer in Hb. lia.
  - intros j Hj. destruct (H4 j Hj). pose proof (proj1 (list.Forall_forall _ _) HgB j Hj) as (_&_&Hb). unfold bsize, sizeof_buffer in Hb. lia.
Qed.

Lemma good_len k : good k -> start k + sizeof_buffer <= stop k.
Proof. intros (_&_&H). unfold bsize in H. lia. Qed.

Lemma elem_middle (x k : blk) A B : x ∈ A ++ k :: B <-> x = k \/ x ∈ A ++ B.
Proof. rewrite !elem_of_app, elem_of_cons. tauto. Qed.

(** ** The list *)

Lemma next_of_at A k B : start k ∉ map start A -> next_of (start k) (map start (A ++ k :: B)) = Ok (start <$> head B).
Proof. induction A as [|j A IH]; intros Hn; simpl in *; [rewrite Z.eqb_refl; by destruct B|]. replace (start j =? start k) with false by (symmetry; apply Z.eqb_neq; set_solver). apply IH. set_solver. Qed.

Lemma prev_of_at A k B : forall p, start k ∉ map start A -> prev_of p (start k) (map start (A ++ k :: B)) = Ok (match list.last A with Some j => Some (start j) | None => p end).
Proof.
  induction A as [|j A IH]; intros p Hn; cbn [map app prev_of] in *; [by rewrite Z.eqb_refl|]. replace (start j =? start k) with false by (symmetry; apply Z.eqb_neq; set_solver). rewrite IH by set_solver. destruct A as [|i A]; [done|]. rewrite last_cons_cons. destruct (list.last (i :: A)) eqn:El; [done|]. apply last_None in El. done.
Qed.

Lemma insert_after_at A k B new : start k ∉ map start A -> insert_after (start k) new (map start (A ++ k :: B)) = map start A ++ start k :: new :: map start B.
Proof. induction A as [|j A IH]; intros Hn; simpl in *; [by rewrite Z.eqb_refl|]. replace (start j =? start k) with false by (symmetry; apply Z.eqb_neq; set_solver). rewrite IH by set_solver. done. Qed.

Lemma filter_at A k B : start k ∉ map start A -> start k ∉ map start B -> filter (fun x => x <> start k) (map start (A ++ k :: B)) = map start (A ++ B).
Proof.
  assert (Hid : forall l : list Z, start k ∉ l -> filter (fun x => x <> start k) l = l) by (intros l Hn; induction l as [|x l IH]; [done|]; rewrite filter_cons_True by set_solver; rewrite IH by set_solver; done).
  intros HA HB. rewrite !map_app. simpl. rewrite list.filter_app, filter_cons_False by tauto. by rewrite !Hid.
Qed.

(** ** The state of the list and the headers *)

Record shape (s : binder_proc) (L : list blk) : Prop := {
  shape_area : area s;
  shape_tiles : tiles (buffer s) L (stop_of s);
  shape_good : Forall good L;
  shape_list : buffers s = map start L;
  shape_hdr : forall k, k ∈ L -> headers s !! start k = Some (info k)
}.

Section shape.
Context (s : binder_proc) (A : list blk) (k : blk) (B : list blk) (Hs : shape s (A ++ k :: B)).

Lemma shape_at : tiles (buffer s) A (start k) /\ tiles (stop k) B (stop_of s) /\ good k /\ (forall j, j ∈ A -> buffer s <= start j /\ start j < stop j <= start k) /\ (forall j, j ∈ B -> stop k <= start j < stop j /\ stop j <= stop_of s) /\ buffer s <= start k /\ stop k <= stop_of s.
Proof. destruct Hs. by apply tiles_at. Qed.

Lemma shape_not_before : start k ∉ map start A.
Proof. destruct shape_at as (_&_&_&H&_). intros Hin. apply list_elem_of_In, in_map_iff in Hin as (j&Hj&Hin). apply list_elem_of_In in Hin. specialize (H j Hin). lia. Qed.

Lemma shape_not_after : start k ∉ map start B.
Proof. destruct shape_at as (_&_&Hg&_&H&_). pose proof (good_len k Hg). intros Hin. apply list_elem_of_In, in_map_iff in Hin as (j&Hj&Hin). apply list_elem_of_In in Hin. specialize (H j Hin). unfold sizeof_buffer in *. lia. Qed.

Lemma shape_next : next_of (start k) (buffers s) = Ok (start <$> head B).
Proof. rewrite (shape_list _ _ Hs). apply next_of_at, shape_not_before. Qed.

Lemma shape_prev : prev_of None (start k) (buffers s) = Ok (start <$> list.last A).
Proof. rewrite (shape_list _ _ Hs), prev_of_at by apply shape_not_before. by destruct (list.last A). Qed.

Lemma shape_hdr_at : headers s !! start k = Some (info k).
Proof. apply (shape_hdr _ _ Hs). set_solver. Qed.

Lemma hdr_at : hdr s (start k) = Ok (info k).
Proof. unfold hdr. by rewrite shape_hdr_at. Qed.

Lemma buffer_size_at : binder_buffer_size s (start k) = Ok (bsize k).
Proof.
  unfold binder_buffer_size. rewrite hdr_at, shape_next. cbn [obind]. destruct shape_at as (_&Ht&(_&_&Hb)&_&_&Hlo&Hhi). pose proof (area_facts s (shape_area _ _ Hs)) as (_&Hbase&_&_&_&He). unfold bsize, stop_of, sizeof_buffer in *.
  destruct B as [|j B']; simpl.
  - simpl in Ht. rewrite wrap_small by lia. f_equal. lia.
  - destruct Ht as (Hj&_). rewrite wrap_small by lia. f_equal. lia.
Qed.

End shape.

(** ** Changing a header *)

Definition upd (f : binder_buffer -> binder_buffer) (k : blk) : blk := Blk (start k) (stop k) (f (info k)).

Lemma tiles_swap a A k k' B c : start k' = start k -> stop k' = stop k -> tiles a (A ++ k :: B) c <-> tiles a (A ++ k' :: B) c.
Proof. intros H1 H2. rewrite !tiles_app. simpl. by rewrite H1, H2. Qed.

Lemma set_hdr_shape s A k B f : shape s (A ++ k :: B) -> let s' := with_headers (<[start k := f (info k)]> (headers s)) s in set_hdr s (start k) f = Ok s' /\ shape s' (A ++ upd f k :: B).
Proof.
  intros Hs s'. split; [unfold set_hdr; by rewrite (shape_hdr_at _ _ _ _ Hs)|]. pose proof (shape_at _ _ _ _ Hs) as (_&_&Hg&HA&HB&_). pose proof (good_len k Hg) as Hlen. destruct Hs as [[] H2 H3 H4 H5]. split; [by split|by rewrite <- (tiles_swap _ A k (upd f k) B)| |cbn [buffers s' with_headers]; rewrite H4, !map_app; done|].
  - apply Forall_app in H3 as (H3&H6). apply list.Forall_cons in H6 as (H6&H7). apply Forall_app. split; [done|]. by constructor.
  - unfold sizeof_buffer in Hlen. intros j Hj. cbn [headers s' with_headers]. apply elem_of_app in Hj as [Hj|Hj]; [|apply elem_of_cons in Hj as [->|Hj]].
    + rewrite lookup_insert_ne by (specialize (HA j Hj); lia). apply H5. set_solver.
    + by rewrite lookup_insert_eq.
    + rewrite lookup_insert_ne by (specialize (HB j Hj); lia). apply H5. set_solver.
Qed.
