(* ===== verification/BinderTree.v ===== *)
(** * BinderTree: the trees of free and allocated buffers *)

From stdpp Require Import gmap.
From S2P Require Import Prelude Rbtree RbtreeFacts RbtreeWalk RbtreeSpec Binder BinderFacts BinderLayout.

(** ** Blocks of the same area *)

Lemma shape_apart s L j k : shape s L -> j ∈ L -> k ∈ L -> j = k \/ stop j <= start k \/ stop k <= start j.
Proof.
  intros Hs Hj Hk. apply list_elem_of_split in Hk as (A&B&->). destruct (shape_at _ _ _ _ Hs) as (_&_&_&HA&HB&_). apply elem_of_app in Hj as [Hj|Hj]; [right; left; apply HA; done|]. apply elem_of_cons in Hj as [->|Hj]; [by left|]. right. right. apply HB. done.
Qed.

Lemma shape_good_at s L k : shape s L -> k ∈ L -> good k /\ buffer s <= start k /\ start k + sizeof_buffer <= stop k /\ stop k <= stop_of s.
Proof. intros Hs Hk. apply list_elem_of_split in Hk as (A&B&->). destruct (shape_at _ _ _ _ Hs) as (_&_&Hg&_&_&H1&H2). pose proof (good_len k Hg). done. Qed.

(** A block is known by its start. *)
Lemma shape_inj s L j k : shape s L -> j ∈ L -> k ∈ L -> start j = start k -> j = k.
Proof. intros Hs Hj Hk He. pose proof (shape_good_at _ _ _ Hs Hj). pose proof (shape_good_at _ _ _ Hs Hk). destruct (shape_apart s L j k Hs Hj Hk) as [->|H']; [done|]. unfold sizeof_buffer in *. lia. Qed.

Lemma node_inj s L j k : shape s L -> j ∈ L -> k ∈ L -> node_of j = node_of k -> j = k.
Proof. intros Hs Hj Hk He. apply (shape_inj s L); [done|done|done|]. unfold node_of in He. lia. Qed.

Lemma node_valid s L k : shape s L -> k ∈ L -> valid (node_of k).
Proof.
  intros Hs Hk. destruct (shape_good_at _ _ _ Hs Hk) as ((H8&_)&H1&H2&H3). destruct (area_facts s (shape_area _ _ Hs)) as (_&Hb&_&_&_&He). unfold valid, node_of, rb_offset, stop_of, sizeof_buffer in *. split; [lia|]. lia.
Qed.

Lemma elem_nodes (z : Z) (F : list blk) : z ∈ map node_of F <-> exists k, k ∈ F /\ z = node_of k.
Proof. rewrite list_elem_of_In, in_map_iff. split; [intros (k&<-&H); exists k; split; [by apply list_elem_of_In|done]|intros (k&H&->); exists k; split; [done|by apply list_elem_of_In]]. Qed.

Lemma not_in_nodes s L k (F : list blk) : shape s L -> k ∈ L -> (forall j, j ∈ F -> j ∈ L) -> k ∉ F -> node_of k ∉ map node_of F.
Proof. intros Hs Hk HF Hn Hin. apply elem_nodes in Hin as (j&Hj&He). apply (node_inj s L) in He; [by subst|done|done|auto]. Qed.

Lemma hdr_in s L k : shape s L -> k ∈ L -> hdr s (start k) = Ok (info k).
Proof. intros Hs Hk. unfold hdr. by rewrite (shape_hdr _ _ Hs k Hk). Qed.

Lemma size_in s L k : shape s L -> k ∈ L -> binder_buffer_size s (start k) = Ok (bsize k).
Proof. intros Hs Hk. apply list_elem_of_split in Hk as (A&B&->). by apply (buffer_size_at s A k B). Qed.

Lemma node_start k : node_of k - rb_offset = start k.
Proof. unfold node_of. lia. Qed.

(** ** What the operations read *)

Lemma free_side_at s L sz k : shape s L -> k ∈ L -> is_free k = true -> free_side s sz (node_of k) = Ok (if sz <? bsize k then Lft else Rgt).
Proof. intros Hs Hk Hf. unfold free_side. rewrite node_start, (hdr_in s L k Hs Hk), (size_in s L k Hs Hk). cbn [obind]. unfold is_free in Hf. rewrite Hf. done. Qed.

Lemma allocated_side_at s L b k : shape s L -> k ∈ L -> is_free k = false -> start k <> b -> allocated_side s b (node_of k) = Ok (if b <? start k then Lft else Rgt).
Proof. intros Hs Hk Hf Hne. unfold allocated_side. rewrite node_start, (hdr_in s L k Hs Hk). cbn [obind]. unfold is_free in Hf. rewrite Hf. cbn [BUG_ON]. destruct (Z.ltb_spec b (start k)); [done|]. by replace (start k <? b) with true by lia. Qed.

Lemma best_visit_at s L size best k : shape s L -> k ∈ L -> is_free k = true -> best_visit s size best (node_of k) = Ok (if size <? bsize k then (node_of k, Some Lft) else if bsize k <? size then (best, Some Rgt) else (node_of k, None)).
Proof. intros Hs Hk Hf. unfold best_visit. rewrite node_start, (hdr_in s L k Hs Hk), (size_in s L k Hs Hk). cbn [obind]. unfold is_free in Hf. rewrite Hf. done. Qed.

Lemma lookup_visit_at s L p u k : shape s L -> k ∈ L -> is_free k = false -> lookup_visit s p u (node_of k) = Ok (tt, if p <? start k then Some Lft else if start k <? p then Some Rgt else None).
Proof. intros Hs Hk Hf. unfold lookup_visit. rewrite node_start, (hdr_in s L k Hs Hk). cbn [obind]. unfold is_free in Hf. rewrite Hf. done. Qed.

(** A change of the trees only. *)
Lemma shape_free_tree s L t : shape s L -> shape (with_free_tree t s) L.
Proof. intros [[] H2 H3 H4 H5]. by split; [split|..]. Qed.

Lemma shape_allocated_tree s L t : shape s L -> shape (with_allocated_tree t s) L.
Proof. intros [[] H2 H3 H4 H5]. by split; [split|..]. Qed.

Section trees.
Context {holds : rb_root -> list Z -> Prop} `{!SearchTree holds}.

(** The free tree has the blocks [F], the allocated tree the blocks [G]. *)
Record trees (s : binder_proc) (L F G : list blk) : Prop := {
  trees_free : holds (free_tree s) (map node_of F);
  trees_allocated : holds (allocated_tree s) (map node_of G);
  trees_sub : forall k, k ∈ F \/ k ∈ G -> k ∈ L;
  trees_apart : forall k, k ∈ F -> k ∉ G
}.

Lemma apart_nodes s L (F G : list blk) k : shape s L -> (forall k, k ∈ F \/ k ∈ G -> k ∈ L) -> (forall k, k ∈ F -> k ∉ G) -> k ∈ G -> node_of k ∉ map node_of F.
Proof. intros Hs Hsub Hap Hk. apply (not_in_nodes s L); [done|auto|auto|]. intros HF. by apply (Hap k). Qed.

Lemma trees_with_free s L F G F' t : shape s L -> trees s L F G -> holds t (map node_of F') -> (forall z, z ∉ map node_of F' -> nodes t !! z = rb_nodes s !! z) -> (forall k, k ∈ F' -> k ∈ L /\ k ∉ G) -> trees (with_free_tree t s) L F' G.
Proof.
  intros Hs [Hf Hg Hsub Hap] Ht Hn HF. split; [by destruct t| |intros k [Hk|Hk]; [by apply HF|auto]|intros k Hk; by apply HF]. eapply st_frame; [exact Hg|done|]. intros z Hz. cbn [nodes allocated_tree with_free_tree rb_nodes]. apply elem_nodes in Hz as (k&Hk&->). apply Hn. apply (apart_nodes s L F' G); [done|intros j [Hj|Hj]; [by apply HF|auto]|intros j Hj; by apply HF|done].
Qed.

Lemma trees_with_allocated s L F G G' t : shape s L -> trees s L F G -> holds t (map node_of G') -> (forall z, z ∉ map node_of G' -> nodes t !! z = rb_nodes s !! z) -> (forall k, k ∈ G' -> k ∈ L /\ k ∉ F) -> trees (with_allocated_tree t s) L F G'.
Proof.
  intros Hs [Hf Hg Hsub Hap] Ht Hn HG. split; [|by destruct t|intros k [Hk|Hk]; [auto|by apply HG]|intros k Hk HkG; by destruct (HG k HkG)]. eapply st_frame; [exact Hf|done|]. intros z Hz. cbn [nodes free_tree with_allocated_tree rb_nodes]. apply elem_nodes in Hz as (k&Hk&->). apply Hn. apply (apart_nodes s L G' F); [done|intros j [Hj|Hj]; [by apply HG|auto]|intros j Hj; by apply HG|done].
Qed.

Lemma map_node_app F1 k F2 : map node_of (F1 ++ k :: F2) = map node_of F1 ++ node_of k :: map node_of F2.
Proof. by rewrite map_app. Qed.

Lemma trees_nodup s L F G : shape s L -> trees s L F G -> base.NoDup F /\ base.NoDup G.
Proof. intros Hs [Hf Hg _ _]. apply st_nodup in Hf, Hg. split; eapply NoDup_fmap_1; [exact Hf|exact Hg]. Qed.

Lemma erase_free_spec s L F1 k F2 G : shape s L -> trees s L (F1 ++ k :: F2) G -> exists t, rb_erase (free_tree s) (node_of k) = Ok t /\ trees (with_free_tree t s) L (F1 ++ F2) G /\ forall z, z ∉ map node_of (F1 ++ F2) -> nodes t !! z = rb_nodes s !! z.
Proof.
  intros Hs Ht. pose proof Ht as [Hf _ Hsub Hap]. rewrite map_node_app in Hf. destruct (st_erase _ _ _ _ Hf) as (t&Hrun&Hh&Hn). rewrite <- map_app in Hh, Hn. exists t. split; [done|]. split; [|done]. eapply trees_with_free; [done|exact Ht|done|done|]. intros j Hj. assert (j ∈ F1 ++ k :: F2) by set_solver. split; [apply Hsub; by left|by apply Hap].
Qed.

Lemma erase_allocated_spec s L F G1 k G2 : shape s L -> trees s L F (G1 ++ k :: G2) -> exists t, rb_erase (allocated_tree s) (node_of k) = Ok t /\ trees (with_allocated_tree t s) L F (G1 ++ G2) /\ forall z, z ∉ map node_of (G1 ++ G2) -> nodes t !! z = rb_nodes s !! z.
Proof.
  intros Hs Ht. pose proof Ht as [_ Hg Hsub Hap]. rewrite map_node_app in Hg. destruct (st_erase _ _ _ _ Hg) as (t&Hrun&Hh&Hn). rewrite <- map_app in Hh, Hn. exists t. split; [done|]. split; [|done]. eapply trees_with_allocated; [done|exact Ht|done|done|]. intros j Hj. assert (j ∈ G1 ++ k :: G2) by set_solver. split; [apply Hsub; by right|]. intros HF. by apply (Hap j).
Qed.

Lemma insert_free_spec s L F G k n : shape s L -> trees s L F G -> ascending bsize F -> (forall j, j ∈ F -> is_free j = true) -> k ∈ L -> is_free k = true -> k ∉ F -> k ∉ G -> rb_nodes s !! node_of k = Some n ->
  exists t F1 F2, binder_insert_free_buffer s (start k) = Ok (with_free_tree t s) /\ F = F1 ++ F2 /\ ascending bsize (F1 ++ k :: F2) /\ trees (with_free_tree t s) L (F1 ++ k :: F2) G.
Proof.
  intros Hs Ht Hasc Hall Hk Hfree HkF HkG Hn. pose proof Ht as [Hf _ Hsub Hap]. unfold binder_insert_free_buffer. rewrite (hdr_in s L k Hs Hk), (size_in s L k Hs Hk). cbn [obind]. unfold is_free in Hfree. rewrite Hfree. cbn [negb BUG_ON]. destruct (ascending_split bsize F (bsize k) Hasc) as (F1&F2&->&H1&H2). rewrite map_app in Hf.
  destruct (st_insert (free_tree s) (map node_of F1) (map node_of F2) (free_side s (bsize k)) (node_of k) n Hf) as (p&d&s1&t&Hseek&Hlink&Hins&Hh&Hfr).
  - intros z Hz. apply elem_nodes in Hz as (j&Hj&->). rewrite (free_side_at s L); [|done|apply Hsub; left; set_solver|apply Hall; set_solver]. specialize (H1 j Hj). by replace (bsize k <? bsize j) with false by lia.
  - intros z Hz. apply elem_nodes in Hz as (j&Hj&->). rewrite (free_side_at s L); [|done|apply Hsub; left; set_solver|apply Hall; set_solver]. specialize (H2 j Hj). by replace (bsize k <? bsize j) with true by lia.
  - done.
  - by apply (node_valid s L).
  - rewrite <- map_app. apply (not_in_nodes s L); [done|done|intros j Hj; apply Hsub; by left|done].
  - cbn [root_node free_tree] in Hseek. rewrite Hseek. cbn [obind]. change (start k + rb_offset) with (node_of k). rewrite Hlink. cbn [obind]. rewrite Hins. cbn [obind]. rewrite <- map_node_app in Hh, Hfr. exists t, F1, F2. split; [done|]. split; [done|]. split; [by apply ascending_insert|]. eapply trees_with_free; [done|exact Ht|done|done|]. intros j Hj. apply elem_of_app in Hj as [Hj|Hj]; [split; [apply Hsub; left; set_solver|apply Hap; set_solver]|]. apply elem_of_cons in Hj as [->|Hj]; [done|]. split; [apply Hsub; left; set_solver|apply Hap; set_solver].
Qed.

Lemma insert_allocated_spec s L F G1 G2 k n : shape s L -> trees s L F (G1 ++ G2) -> (forall j, j ∈ G1 ++ G2 -> is_free j = false) -> (forall j, j ∈ G1 -> start j < start k) -> (forall j, j ∈ G2 -> start k < start j) -> k ∈ L -> is_free k = false -> k ∉ F -> rb_nodes s !! node_of k = Some n ->
  exists t, binder_insert_allocated_buffer s (start k) = Ok (with_allocated_tree t s) /\ trees (with_allocated_tree t s) L F (G1 ++ k :: G2) /\ forall z, z ∉ map node_of (G1 ++ k :: G2) -> nodes t !! z = rb_nodes s !! z.
Proof.
  intros Hs Ht Hall H1 H2 Hk Hfree HkF Hn. pose proof Ht as [_ Hg Hsub Hap]. unfold binder_insert_allocated_buffer. rewrite (hdr_in s L k Hs Hk). cbn [obind]. unfold is_free in Hfree. rewrite Hfree. cbn [BUG_ON]. rewrite map_app in Hg. assert (HkG : k ∉ G1 ++ G2) by (intros Hin; apply elem_of_app in Hin as [Hin|Hin]; [specialize (H1 k Hin)|specialize (H2 k Hin)]; lia).
  destruct (st_insert (allocated_tree s) (map node_of G1) (map node_of G2) (allocated_side s (start k)) (node_of k) n Hg) as (p&d&s1&t&Hseek&Hlink&Hins&Hh&Hfr).
  - intros z Hz. apply elem_nodes in Hz as (j&Hj&->). specialize (H1 j Hj). rewrite (allocated_side_at s L); [|done|apply Hsub; right; set_solver|apply Hall; set_solver|lia]. by replace (start k <? start j) with false by lia.
  - intros z Hz. apply elem_nodes in Hz as (j&Hj&->). specialize (H2 j Hj). rewrite (allocated_side_at s L); [|done|apply Hsub; right; set_solver|apply Hall; set_solver|lia]. by replace (start k <? start j) with true by lia.
  - done.
  - by apply (node_valid s L).
  - rewrite <- map_app. apply (not_in_nodes s L); [done|done|intros j Hj; apply Hsub; by right|done].
  - cbn [root_node allocated_tree] in Hseek. rewrite Hseek. cbn [obind]. change (start k + rb_offset) with (node_of k). rewrite Hlink. cbn [obind]. rewrite Hins. cbn [obind]. rewrite <- map_node_app in Hh, Hfr. exists t. split; [done|]. split; [|done]. eapply trees_with_allocated; [done|exact Ht|done|done|]. intros j Hj. assert (Hj' : j = k \/ j ∈ G1 ++ G2) by set_solver. destruct Hj' as [->|Hj']; [done|]. split; [apply Hsub; by right|]. intros HF. by apply (Hap j).
Qed.

(** ** Searching *)

(** Below, at and above a key. *)
Lemma ascending_parts (f : blk -> Z) F e : ascending f F -> exists A M R, F = A ++ M ++ R /\ (forall a, a ∈ A -> f a < e) /\ (forall a, a ∈ M -> f a = e) /\ (forall a, a ∈ R -> e < f a) /\ ascending f R.
Proof.
  intros Hasc. destruct (ascending_split f F (e - 1) Hasc) as (A&Q&->&H1&H2). apply ascending_app in Hasc as (_&HQ&_). destruct (ascending_split f Q e HQ) as (M&R&->&H3&H4). apply ascending_app in HQ as (_&HR&_). exists A, M, R. split; [done|]. split; [intros a Ha; specialize (H1 a Ha); lia|]. split; [|done]. intros a Ha. specialize (H3 a Ha). specialize (H2 a ltac:(set_solver)). lia.
Qed.

(** The smallest free buffer that is large enough; [n] tells whether it fits exactly. *)
Lemma best_fit_spec s L F G size : shape s L -> trees s L F G -> ascending bsize F -> (forall j, j ∈ F -> is_free j = true) ->
  (search (rounds (free_tree s)) (free_tree s) (best_visit s size) 0 (free_buffers s) = Ok (0, 0) /\ forall k, k ∈ F -> bsize k < size) \/
  exists k n, k ∈ F /\ search (rounds (free_tree s)) (free_tree s) (best_visit s size) 0 (free_buffers s) = Ok (node_of k, n) /\ size <= bsize k /\ (forall j, j ∈ F -> size <= bsize j -> bsize k <= bsize j) /\ (n = 0 /\ size < bsize k \/ n = node_of k /\ size = bsize k).
Proof.
  intros Hs [Hf _ Hsub _] Hasc Hall. destruct (ascending_parts bsize F size Hasc) as (A&M&R&->&HA&HM&HR&HascR). rewrite !map_app in Hf. destruct (st_search Z (free_tree s) (map node_of A) (map node_of M) (map node_of R) (best_visit s size) (fun _ y => y) 0 Hf) as [(HM0&Hrun)|(y&Hy&Hrun)].
  - intros a y Hy. apply elem_nodes in Hy as (k&Hk&->). specialize (HA k Hk). rewrite (best_visit_at s L); [|done|apply Hsub; left; set_solver|apply Hall; set_solver]. replace (size <? bsize k) with false by lia. by replace (bsize k <? size) with true by lia.
  - intros a y Hy. apply elem_nodes in Hy as (k&Hk&->). specialize (HM k Hk). rewrite (best_visit_at s L); [|done|apply Hsub; left; set_solver|apply Hall; set_solver]. replace (size <? bsize k) with false by lia. by replace (bsize k <? size) with false by lia.
  - intros a y Hy. apply elem_nodes in Hy as (k&Hk&->). specialize (HR k Hk). rewrite (best_visit_at s L); [|done|apply Hsub; left; set_solver|apply Hall; set_solver]. by replace (size <? bsize k) with true by lia.
  - done.
  - destruct M as [|m M]; [|done]. simpl in *. destruct R as [|k R].
    + left. split; [exact Hrun|]. intros k Hk. apply HA. set_solver.
    + right. exists k, 0. split; [set_solver|]. split; [exact Hrun|]. specialize (HR k ltac:(set_solver)) as Hk. split; [lia|]. split; [|by left]. intros j Hj Hsz. apply elem_of_app in Hj as [Hj|Hj]; [specialize (HA j Hj); lia|]. apply elem_of_cons in Hj as [->|Hj]; [lia|]. inversion HascR as [|? ? _ Hle]; subst. exact (proj1 (list.Forall_forall _ _) Hle j Hj).
  - apply elem_nodes in Hy as (k&Hk&->). right. exists k, (node_of k). split; [set_solver|]. split; [exact Hrun|]. specialize (HM k Hk). split; [lia|]. split; [intros j _ Hsz; lia|by right].
Qed.

Lemma lookup_search_spec s L F G p : shape s L -> trees s L F G -> ascending start G -> (forall j, j ∈ G -> is_free j = false) ->
  (search (rounds (allocated_tree s)) (allocated_tree s) (lookup_visit s p) tt (allocated_buffers s) = Ok (tt, 0) /\ forall k, k ∈ G -> start k <> p) \/
  exists k, k ∈ G /\ start k = p /\ search (rounds (allocated_tree s)) (allocated_tree s) (lookup_visit s p) tt (allocated_buffers s) = Ok (tt, node_of k).
Proof.
  intros Hs [_ Hg Hsub _] Hasc Hall. destruct (ascending_parts start G p Hasc) as (A&M&R&->&HA&HM&HR&_). rewrite !map_app in Hg. destruct (st_search unit (allocated_tree s) (map node_of A) (map node_of M) (map node_of R) (lookup_visit s p) (fun _ _ => tt) tt Hg) as [(HM0&Hrun)|(y&Hy&Hrun)].
  - intros [] y Hy. apply elem_nodes in Hy as (k&Hk&->). specialize (HA k Hk). rewrite (lookup_visit_at s L); [|done|apply Hsub; right; set_solver|apply Hall; set_solver]. replace (p <? start k) with false by lia. by replace (start k <? p) with true by lia.
  - intros a y Hy. apply elem_nodes in Hy as (k&Hk&->). specialize (HM k Hk). rewrite (lookup_visit_at s L); [|done|apply Hsub; right; set_solver|apply Hall; set_solver]. replace (p <? start k) with false by lia. by replace (start k <? p) with false by lia.
  - intros a y Hy. apply elem_nodes in Hy as (k&Hk&->). specialize (HR k Hk). rewrite (lookup_visit_at s L); [|done|apply Hsub; right; set_solver|apply Hall; set_solver]. by replace (p <? start k) with true by lia.
  - done.
  - destruct M as [|m M]; [|done]. left. split; [cbn [root_node allocated_tree] in Hrun; rewrite Hrun; by destruct (map node_of R)|]. intros k Hk. apply elem_of_app in Hk as [Hk|Hk]; [specialize (HA k Hk); lia|specialize (HR k Hk); lia].
  - apply elem_nodes in Hy as (k&Hk&->). right. exists k. split; [set_solver|]. split; [by apply HM|exact Hrun].
Qed.

(** The same nodes in the trees, for other blocks. *)
Lemma trees_relabel s s' L L' F F' G G' : trees s L F G -> free_tree s' = free_tree s -> allocated_tree s' = allocated_tree s -> map node_of F' = map node_of F -> map node_of G' = map node_of G -> (forall k, k ∈ F' \/ k ∈ G' -> k ∈ L') -> (forall k, k ∈ F' -> k ∉ G') -> trees s' L' F' G'.
Proof. intros [Hf Hg _ _] H1 H2 H3 H4 Hsub Hap. split; [by rewrite H1, H3|by rewrite H2, H4|done|done]. Qed.

(** ** Changes of memory *)

(** Where nothing of the blocks is, memory may change. *)
Lemma keeps_shape lo hi s s' L : shape s L -> keeps lo hi s s' -> (forall k, k ∈ L -> overlaps (start k) sizeof_buffer lo hi = false) -> shape s' L.
Proof.
  intros [Ha Ht Hg Hl Hh] (Hr&Hk&_) Hout. pose proof Hr as Hr'. injection Hr' as H1 H2 H3 H4 H5 H6 H7 H8 H9. split; [by eapply rest_area|unfold stop_of in *; by rewrite H1, H8|done|by rewrite H3|]. intros k Hin. apply Hk; [by apply Hh|by apply Hout].
Qed.

Lemma keeps_trees lo hi s s' L F G : shape s L -> trees s L F G -> keeps lo hi s s' -> (forall k, k ∈ L -> overlaps (start k) sizeof_buffer lo hi = false) -> trees s' L F G.
Proof.
  intros Hs [Hf Hg Hsub Hap] (Hr&_&Hk) Hout. injection Hr as H1 H2 H3 H4 H5 H6 H7 H8 H9. split; [| |done|done].
  - eapply st_frame; [exact Hf|done|]. intros z Hz. destruct (st_node _ _ z Hf Hz) as (n&Hn). cbn [nodes free_tree] in *. rewrite Hn. apply Hk; [done|]. apply elem_nodes in Hz as (k&Hin&->). specialize (Hout k ltac:(auto)). unfold overlaps, node_of, rb_offset, sizeof_buffer, sizeof_node in *. lia.
  - eapply st_frame; [exact Hg|done|]. intros z Hz. destruct (st_node _ _ z Hg Hz) as (n&Hn). cbn [nodes allocated_tree] in *. rewrite Hn. apply Hk; [done|]. apply elem_nodes in Hz as (k&Hin&->). specialize (Hout k ltac:(auto)). unfold overlaps, node_of, rb_offset, sizeof_buffer, sizeof_node in *. lia.
Qed.

End trees.
