(* ===== verification/BinderInv.v ===== *)
(** * BinderInv: the invariant of the allocator *)

From stdpp Require Import gmap.
From S2P Require Import Prelude Rbtree RbtreeFacts RbtreeWalk RbtreeSpec Binder BinderFacts BinderLayout BinderTree.

(** ** Free and allocated blocks *)

Definition idles (L : list blk) : list blk := filter (fun k => is_free k = true) L.
Definition busys (L : list blk) : list blk := filter (fun k => is_free k = false) L.

Lemma elem_idles k L : k ∈ idles L <-> is_free k = true /\ k ∈ L.
Proof. unfold idles, busys. by rewrite list_elem_of_filter. Qed.

Lemma elem_busys k L : k ∈ busys L <-> is_free k = false /\ k ∈ L.
Proof. unfold idles, busys. by rewrite list_elem_of_filter. Qed.

Lemma idles_app A B : idles (A ++ B) = idles A ++ idles B.
Proof. apply list.filter_app. Qed.

Lemma busys_app A B : busys (A ++ B) = busys A ++ busys B.
Proof. apply list.filter_app. Qed.

Lemma idles_cons k L : idles (k :: L) = if is_free k then k :: idles L else idles L.
Proof. unfold idles. destruct (is_free k) eqn:E; [by rewrite filter_cons_True|by rewrite filter_cons_False by congruence]. Qed.

Lemma busys_cons k L : busys (k :: L) = if is_free k then busys L else k :: busys L.
Proof. unfold busys. destruct (is_free k) eqn:E; [by rewrite filter_cons_False by congruence|by rewrite filter_cons_True]. Qed.

(** ** Payload *)

(** The bytes a transaction asked for. *)
Definition payload (h : binder_buffer) : Z := u64 (ALIGN (data_size h) 8 + ALIGN (offsets_size h) 8).

(** The share of the space for asynchronous transactions that a block takes. *)
Definition async_cost (k : blk) : Z := if negb (is_free k) && async_transaction (info k) then payload (info k) + sizeof_buffer else 0.

Fixpoint async_total (L : list blk) : Z := match L with [] => 0 | k :: L => async_cost k + async_total L end.

Lemma async_total_app A B : async_total (A ++ B) = async_total A + async_total B.
Proof. induction A as [|k A IH]; simpl; lia. Qed.

Lemma payload_nonneg h : 0 <= payload h.
Proof. unfold payload. pose proof (u64_range (ALIGN (data_size h) 8 + ALIGN (offsets_size h) 8)). lia. Qed.

Lemma async_cost_nonneg k : 0 <= async_cost k.
Proof. unfold async_cost, sizeof_buffer. pose proof (payload_nonneg (info k)). destruct (negb (is_free k) && async_transaction (info k)); lia. Qed.

Lemma async_total_nonneg L : 0 <= async_total L.
Proof. induction L as [|k L IH]; simpl; [lia|]. pose proof (async_cost_nonneg k). lia. Qed.

(** ** Neighbours *)

Definition ofree (k : option blk) : bool := match k with Some k => is_free k | None => false end.

(** No two free blocks side by side. *)
Fixpoint spaced (L : list blk) : Prop := match L with [] => True | k :: L => is_free k && ofree (head L) = false /\ spaced L end.

Lemma spaced_app A B : spaced (A ++ B) <-> spaced A /\ spaced B /\ ofree (list.last A) && ofree (head B) = false.
Proof.
  induction A as [|k A IH]; simpl; [tauto|]. rewrite IH. destruct A as [|j A]; simpl; [rewrite andb_false_r; tauto|tauto].
Qed.

(** ** Pages *)

(** The pages a block needs: those of its header, and those inside it when allocated. *)
Definition uses (s : binder_proc) (k : blk) (i : Z) : Prop :=
  pg s (start k) <= i <= pg s (start k + sizeof_buffer - 1) \/ is_free k = false /\ pg s (start k + sizeof_buffer + 4095) <= i < pg s (stop k).

(** ** The invariant *)

(** What only [binder_mmap] changes. *)
Definition constants (s : binder_proc) := (vma s, buffer s, buffer_size s, user_buffer_offset s).

Section inv.
Context {holds : rb_root -> list Z -> Prop} `{!SearchTree holds}.

Record inv (s : binder_proc) (L : list blk) : Prop := {
  inv_shape : shape s L;
  inv_trees : exists F, F ≡ₚ idles L /\ ascending bsize F /\ trees (holds := holds) s L F (busys L);
  inv_payload : forall k, k ∈ L -> is_free k = false -> payload (info k) <= bsize k;
  inv_spaced : spaced L;
  inv_pages : forall i, i ∈ pages s <-> exists k, k ∈ L /\ uses s k i;
  inv_space : 0 <= free_async_space s /\ free_async_space s + async_total L = buffer_size s / 2
}.

(** Blocks around a part of the area use no page that lies inside it. *)
Lemma outside_unused s A k B i : shape s (A ++ k :: B) -> pg s (start k + sizeof_buffer + 4095) <= i < pg s (stop k) -> forall j, j ∈ A ++ B -> ~ uses s j i.
Proof.
  intros Hs Hi j Hj Hu. destruct (shape_at _ _ _ _ Hs) as (_&_&Hg&HA&HB&_&_). pose proof (good_len k Hg). unfold uses, pg, sizeof_buffer, PAGE_SIZE in *. apply elem_of_app in Hj as [Hj|Hj].
  - pose proof (shape_good_at s _ j Hs ltac:(set_solver)) as (_&_&Hlen&_). unfold sizeof_buffer in Hlen. specialize (HA j Hj). lia.
  - specialize (HB j Hj). lia.
Qed.

Lemma header_outside s A k B lo hi : shape s (A ++ k :: B) -> start k + sizeof_buffer <= lo -> hi <= stop k -> forall j, j ∈ A ++ k :: B -> overlaps (start j) sizeof_buffer lo hi = false.
Proof.
  intros Hs Hlo Hhi j Hj. destruct (shape_at _ _ _ _ Hs) as (_&_&Hg&HA&HB&_&_). pose proof (good_len k Hg). pose proof (shape_good_at s _ j Hs Hj) as (_&_&Hlen&_). unfold overlaps, sizeof_buffer in *. apply elem_of_app in Hj as [Hj|Hj]; [specialize (HA j Hj); lia|]. apply elem_of_cons in Hj as [->|Hj]; [lia|]. specialize (HB j Hj). lia.
Qed.

(** A state with the same pages and the blocks in place. *)
Lemma inv_keeps lo hi s s' L : inv s L -> keeps lo hi s s' -> (forall k, k ∈ L -> overlaps (start k) sizeof_buffer lo hi = false) -> (forall p, p ∈ pages s' <-> p ∈ pages s) -> inv s' L.
Proof.
  intros [H1 (F&H2&H3&H4) H5 H6 H7 H8] K Hout Hp. pose proof (proj1 K) as R. pose proof R as R'. injection R' as R1 R2 R3 R4 R5 R6 R7 R8 R9. split; [by eapply keeps_shape|exists F; split; [done|]; split; [done|by eapply keeps_trees]|done|done| |by rewrite R6, R8].
  intros i. rewrite Hp, H7. unfold uses. split; intros (k&Hk&Hu); exists k; (split; [done|]); by rewrite !(rest_pg s s') in * by done.
Qed.

End inv.
