(* ===== verification/BinderAlloc.v ===== *)
(** * BinderAlloc: allocating a buffer *)

From stdpp Require Import gmap.
From S2P Require Import Prelude Rbtree RbtreeFacts RbtreeWalk RbtreeSpec Binder BinderFacts BinderLayout BinderTree BinderInv.

(** ** Splitting a block *)

Lemma new_header_keeps e s m s' : new_header e s m = Ok s' -> keeps m (m + sizeof_buffer) s s' /\ headers s' !! m = Some (garbage e m) /\ rb_nodes s' !! (m + rb_offset) = Some (garbage_node e m) /\ pages s' = pages s.
Proof.
  unfold new_header. intros H. destruct (bool_decide (page_index s m ∈ pages s) && bool_decide (page_index s (m + sizeof_buffer - 1) ∈ pages s)); [|done]. injection H as <-. pose proof (forget_keeps m (m + sizeof_buffer) s) as (_&K1&K2). split; [split; [done|]; split|]; cbn [headers rb_nodes pages with_memory].
  - intros b h Hb Ho. rewrite lookup_insert_ne by (intros ->; unfold overlaps, sizeof_buffer in Ho; lia). by apply K1.
  - intros n x Hn Ho. rewrite lookup_insert_ne by (intros <-; unfold overlaps, sizeof_buffer, sizeof_node, rb_offset in Ho; lia). by apply K2.
  - by rewrite !lookup_insert_eq.
Qed.

(** A new header at [m], inside the block [k], in the list after it. *)
Lemma split_shape e s A k B m : shape s (A ++ k :: B) -> start k + sizeof_buffer <= m -> m + sizeof_buffer <= stop k -> m mod 8 = 0 -> pg s m ∈ pages s -> pg s (m + sizeof_buffer - 1) ∈ pages s ->
  exists s1 s', new_header e s m = Ok s1 /\ list_add s1 m (start k) = Ok s' /\ s' = with_buffers (buffers s') s1 /\ keeps m (m + sizeof_buffer) s s1 /\ shape s' (A ++ Blk (start k) m (info k) :: Blk m (stop k) (garbage e m) :: B) /\ rb_nodes s' !! (m + rb_offset) = Some (garbage_node e m) /\ pages s' = pages s.
Proof.
  intros Hs H1 H2 H8 P1 P2. pose proof (shape_at _ _ _ _ Hs) as (HtA&HtB&Hg&HA&HB&Hlo&Hhi). pose proof (area_facts s (shape_area _ _ Hs)) as (_&Hbase&_&_&_&Hend). unfold sizeof_buffer, stop_of in *.
  assert (Hnew : exists s1, new_header e s m = Ok s1) by (unfold new_header, sizeof_buffer; rewrite !(page_index_at s (shape_area _ _ Hs)) by lia; rewrite !bool_decide_eq_true_2 by done; by eexists). destruct Hnew as (s1&Hnew). destruct (new_header_keeps e s m s1 Hnew) as (K&Hm&Hmn&Hp). unfold sizeof_buffer in K.
  assert (Hs1 : shape s1 (A ++ k :: B)) by (eapply keeps_shape; [exact Hs|exact K|]; apply (header_outside s A k B); [done|unfold sizeof_buffer; lia|lia]). exists s1. unfold list_add, hdr. rewrite Hm. cbn [obind]. rewrite (shape_hdr_at _ _ _ _ Hs1), (shape_next _ _ _ _ Hs1). cbn [obind].
  assert (hdr_if s1 (start <$> head B) = Ok tt) as -> by (destruct B as [|j B']; [done|]; simpl; unfold hdr; by rewrite (shape_hdr _ _ Hs1 j ltac:(set_solver))). cbn [obind]. eexists. split; [done|]. split; [done|]. split; [done|]. split; [done|]. split; [|done]. pose proof (proj1 K) as R. injection R as R1 R2 R3 R4 R5 R6 R7 R8 R9. destruct Hs as [Ha Ht Hgood Hl Hh]. split.
  - destruct (shape_area _ _ Hs1). by split.
  - unfold stop_of in *. cbn [buffer buffer_size with_buffers]. rewrite R1, R8. apply tiles_app. exists (start k). split; [done|]. simpl. done.
  - apply Forall_app in Hgood as (G1&G2). apply list.Forall_cons in G2 as (G2&G3). destruct G2 as (G4&G5&G6). apply Forall_app. split; [done|]. constructor; [split; [done|]; unfold bsize, sizeof_buffer; simpl; lia|]. constructor; [split; [done|]; unfold bsize, sizeof_buffer; simpl; lia|done].
  - cbn [buffers with_buffers]. rewrite (shape_list _ _ Hs1), insert_after_at by apply (shape_not_before _ _ _ _ Hs1). by rewrite map_app.
  - intros j Hj. cbn [headers with_buffers]. apply elem_of_app in Hj as [Hj|Hj]; [apply (shape_hdr _ _ Hs1); set_solver|]. apply elem_of_cons in Hj as [->|Hj]; [apply (shape_hdr_at _ _ _ _ Hs1)|]. apply elem_of_cons in Hj as [->|Hj]; [done|apply (shape_hdr _ _ Hs1); set_solver].
Qed.

Section alloc.
Context {holds : rb_root -> list Z -> Prop} `{!SearchTree holds}.

(** ** Taking a block out of the free tree *)

Definition taken (d o : Z) (asy : bool) (h : binder_buffer) : binder_buffer := set_sizes d o asy (set_allow false (set_free false h)).

Lemma trees_others s A k B F1 F2 : shape s (A ++ k :: B) -> is_free k = true -> trees (holds := holds) s (A ++ k :: B) (F1 ++ k :: F2) (busys (A ++ k :: B)) -> (forall j, j ∈ F1 ++ F2 -> j ∈ A ++ B) /\ (forall j, j ∈ busys (A ++ k :: B) -> j ∈ A ++ B).
Proof.
  intros Hs Hf Ht. destruct (trees_nodup _ _ _ _ Hs Ht) as (Hnd&_). destruct Ht as [_ _ Hsub _]. split.
  - intros j Hj. assert (Hin : j ∈ A ++ k :: B) by (apply Hsub; left; set_solver). assert (j <> k) by (intros ->; apply list.NoDup_app in Hnd as (_&N1&N2); apply list.NoDup_cons in N2 as (N2&_); apply elem_of_app in Hj as [Hj|Hj]; [by apply (N1 k Hj); set_solver|done]). set_solver.
  - intros j Hj. apply elem_busys in Hj as (Hj&Hin). assert (j <> k) by (intros ->; congruence). set_solver.
Qed.

(** The node leaves the free tree and enters the allocated one. *)
Lemma move_spec s A k B F1 F2 : shape s (A ++ k :: B) -> is_free k = true -> trees (holds := holds) s (A ++ k :: B) (F1 ++ k :: F2) (busys (A ++ k :: B)) ->
  let k1 := upd (fun h => set_allow false (set_free false h)) k in
  exists s', (let* t := rb_erase (free_tree s) (node_of k) in let s := with_free_tree t s in let* s := set_hdr s (start k) (set_free false) in let* s := set_hdr s (start k) (set_allow false) in binder_insert_allocated_buffer s (start k)) = Ok s' /\
    shape s' (A ++ k1 :: B) /\ trees (holds := holds) s' (A ++ k1 :: B) (F1 ++ F2) (busys A ++ k1 :: busys B) /\ pages s' = pages s /\ vma s' = vma s /\ free_async_space s' = free_async_space s /\ buffer s' = buffer s /\ buffer_size s' = buffer_size s /\ user_buffer_offset s' = user_buffer_offset s.
Proof.
  intros Hs Hfree Ht k1. destruct (trees_others s A k B F1 F2 Hs Hfree Ht) as (HF&HG). pose proof (st_node _ _ (node_of k) (trees_free _ _ _ _ Ht) ltac:(apply elem_nodes; exists k; set_solver)) as (n&Hn). cbn [nodes free_tree] in Hn. assert (Hk : k ∈ A ++ k :: B) by set_solver.
  destruct (erase_free_spec s _ F1 k F2 _ Hs Ht) as (t&->&Ht1&Hfr1). cbn [obind]. pose proof (shape_free_tree _ _ t Hs) as Hs1. destruct (set_hdr_shape _ A k B (set_free false) Hs1) as (->&Hs2). cbn [obind]. set (s2 := with_headers _ _) in *. destruct (set_hdr_shape s2 A (upd (set_free false) k) B (set_allow false) Hs2) as (Hset3&Hs3). change (start (upd (set_free false) k)) with (start k) in *. rewrite Hset3. cbn [obind]. set (s3 := with_headers (<[start k := set_allow false (info (upd (set_free false) k))]> (headers s2)) s2) in *. change (upd (set_allow false) (upd (set_free false) k)) with k1 in Hs3.
  assert (Ht3 : trees (holds := holds) s3 (A ++ k1 :: B) (F1 ++ F2) (busys A ++ busys B)).
  { eapply (trees_relabel _ s3); [exact Ht1|done|done|done|by rewrite busys_app, busys_cons, Hfree|intros j [Hj|Hj]; [specialize (HF j Hj); set_solver|apply elem_of_app in Hj as [Hj|Hj]; apply elem_busys in Hj as (_&Hj); set_solver]|]. intros j Hj Hj2. destruct Ht1 as [_ _ _ Hap]. apply (Hap j Hj). by rewrite busys_app, busys_cons, Hfree. }
  assert (Hk1 : k1 ∈ A ++ k1 :: B) by set_solver. pose proof (shape_at _ _ _ _ Hs3) as (_&_&Hg&HA&HB&_). pose proof (good_len k1 Hg) as Hlen. unfold sizeof_buffer in Hlen.
  destruct (insert_allocated_spec s3 _ (F1 ++ F2) (busys A) (busys B) k1 n Hs3 Ht3) as (t'&Hrun&Ht'&_).
  - intros j Hj. apply elem_of_app in Hj as [Hj|Hj]; by apply elem_busys in Hj as (?&_).
  - intros j Hj. apply elem_busys in Hj as (_&Hj). specialize (HA j Hj). lia.
  - intros j Hj. apply elem_busys in Hj as (_&Hj). specialize (HB j Hj). lia.
  - done.
  - done.
  - intros Hin. specialize (HF k1 Hin). pose proof (trees_nodup _ _ _ _ Hs3 Ht3). apply elem_of_app in HF as [HF|HF]; [specialize (HA k1 HF)|specialize (HB k1 HF)]; lia.
  - change (node_of k1) with (node_of k). change (rb_nodes s3) with (nodes t). rewrite Hfr1; [done|]. apply (not_in_nodes s (A ++ k :: B)); [done|done|intros j Hj; specialize (HF j Hj); set_solver|]. intros Hin. destruct (trees_nodup _ _ _ _ Hs Ht) as (Hnd&_). apply list.NoDup_app in Hnd as (_&N1&N2). apply list.NoDup_cons in N2 as (N2&_). apply elem_of_app in Hin as [Hin|Hin]; [by apply (N1 k Hin); set_solver|done].
  - exists (with_allocated_tree t' s3). split; [exact Hrun|]. split; [by apply shape_allocated_tree|]. split; [exact Ht'|]. done.
Qed.

(** What becomes of the block: [size] bytes for the transaction, and the rest as a new
    free block or as unused space at its end. *)
Definition carve (e : env) (d o : Z) (asy split : bool) (size : Z) (k : blk) : list blk :=
  let m := start k + sizeof_buffer + size in
  if split then [Blk (start k) m (taken d o asy (info k)); Blk m (stop k) (set_free true (garbage e m))] else [Blk (start k) (stop k) (taken d o asy (info k))].

(** The fields that only [binder_mmap] and the accounting change. *)
Definition fixed (s : binder_proc) := (pages s, vma s, buffer s, buffer_size s, user_buffer_offset s).

Definition charge (asy : bool) (size : Z) (s : binder_proc) : Z := if asy then u64 (free_async_space s - u64 (size + sizeof_buffer)) else free_async_space s.

Lemma perm_others F1 F2 A k B : is_free k = true -> F1 ++ k :: F2 ≡ₚ idles (A ++ k :: B) -> F1 ++ F2 ≡ₚ idles A ++ idles B.
Proof. intros Hf Hp. rewrite idles_app, idles_cons, Hf, <- !Permutation_middle in Hp. by apply Permutation_cons_inv in Hp. Qed.

(** The common end: the sizes are recorded and the space is charged. *)
Lemma record_spec s A k1 R d o asy size F G1 G2 : shape s (A ++ k1 :: R) -> is_free k1 = false -> trees (holds := holds) s (A ++ k1 :: R) F (G1 ++ k1 :: G2) -> k1 ∉ F -> k1 ∉ G1 ++ G2 ->
  let k' := upd (set_sizes d o asy) k1 in
  exists s', (let* s := set_hdr s (start k1) (set_sizes d o asy) in let s := if asy then with_space (u64 (free_async_space s - u64 (size + sizeof_buffer))) s else s in Ok (s, start k1)) = Ok (s', start k1) /\
    shape s' (A ++ k' :: R) /\ trees (holds := holds) s' (A ++ k' :: R) F (G1 ++ k' :: G2) /\ fixed s' = fixed s /\ free_async_space s' = charge asy size s.
Proof.
  intros Hs Hb Ht HnF HnG k'. destruct (set_hdr_shape s A k1 R (set_sizes d o asy) Hs) as (->&Hs1). cbn [obind]. set (s1 := with_headers _ _) in *. change (upd (set_sizes d o asy) k1) with k' in Hs1.
  pose proof (shape_at _ _ _ _ Hs) as (_&_&Hg&HA&HB&_). pose proof (good_len k1 Hg) as Hlen. unfold sizeof_buffer in Hlen. assert (Hnot : forall j, j ∈ A ++ R -> start j <> start k1) by (intros j Hj; apply elem_of_app in Hj as [Hj|Hj]; [specialize (HA j Hj)|specialize (HB j Hj)]; lia).
  assert (Hsub' : forall j, j ∈ F \/ j ∈ G1 ++ k' :: G2 -> j ∈ A ++ k' :: R).
  { pose proof (trees_sub _ _ _ _ Ht) as Hsub. intros j [Hj|Hj]; [specialize (Hsub j ltac:(by left)); assert (j <> k1) by (by intros ->); set_solver|]. assert (Hj' : j = k' \/ j ∈ G1 ++ G2) by set_solver. destruct Hj' as [->|Hj']; [set_solver|]. specialize (Hsub j ltac:(right; set_solver)). assert (j <> k1) by (by intros ->). set_solver. }
  assert (Hap' : forall j, j ∈ F -> j ∉ G1 ++ k' :: G2).
  { intros j Hj Hin. assert (Hin' : j = k' \/ j ∈ G1 ++ k1 :: G2) by set_solver. destruct Hin' as [->|Hin']; [|by apply (trees_apart _ _ _ _ Ht j Hj)]. pose proof (trees_sub _ _ _ _ Ht k' ltac:(by left)) as Hk'. assert (Hk2 : k' = k1 \/ k' ∈ A ++ R) by set_solver. destruct Hk2 as [Heq|Hk2]; [by rewrite Heq in Hj|]. by apply (Hnot k' Hk2). }
  assert (Ht1 : trees (holds := holds) s1 (A ++ k' :: R) F (G1 ++ k' :: G2)) by (eapply (trees_relabel s s1); [exact Ht|done|done|done|by rewrite !map_node_app|done|done]).
  destruct asy; eexists; (split; [done|]); [|split; [exact Hs1|]; split; [exact Ht1|]; done]. split; [destruct Hs1 as [[] H2 H3 H4 H5]; by split; [split|..]|]. split; [eapply (trees_relabel s1); [exact Ht1|done..]|]. done.
Qed.

Lemma take_buffer_whole e s A k B F1 F2 size d o asy : shape s (A ++ k :: B) -> is_free k = true -> trees (holds := holds) s (A ++ k :: B) (F1 ++ k :: F2) (busys (A ++ k :: B)) -> ascending bsize (F1 ++ k :: F2) -> F1 ++ k :: F2 ≡ₚ idles (A ++ k :: B) ->
  let L' := A ++ carve e d o asy false size k ++ B in
  exists s' F', take_buffer e s (start k) (node_of k) size size d o asy = Ok (s', start k) /\ shape s' L' /\ F' ≡ₚ idles L' /\ ascending bsize F' /\ trees (holds := holds) s' L' F' (busys L') /\ fixed s' = fixed s /\ free_async_space s' = charge asy size s.
Proof.
  intros Hs Hfree Ht Hasc Hp L'. destruct (trees_others s A k B F1 F2 Hs Hfree Ht) as (HF&_). destruct (move_spec s A k B F1 F2 Hs Hfree Ht) as (s1&Hrun1&Hs1&Ht1&E1&E2&E3&E4&E5&E6). set (k1 := upd _ k) in *. pose proof (shape_at _ _ _ _ Hs1) as (_&_&Hg&HA&HB&_). pose proof (good_len k1 Hg) as Hlen. unfold sizeof_buffer in Hlen.
  assert (Hnot : k1 ∉ A ++ B) by (intros Hin; apply elem_of_app in Hin as [Hin|Hin]; [specialize (HA k1 Hin)|specialize (HB k1 Hin)]; lia).
  destruct (record_spec s1 A k1 B d o asy size (F1 ++ F2) (busys A) (busys B) Hs1 eq_refl Ht1) as (s2&Hrun2&Hs2&Ht2&Hfix&Hsp); [intros Hin; by apply Hnot, HF|intros Hin; apply Hnot; apply elem_of_app in Hin as [Hin|Hin]; apply elem_busys in Hin as (_&Hin); set_solver|].
  exists s2, (F1 ++ F2). unfold take_buffer. rewrite <- !obind_assoc in *. change (upd (set_sizes d o asy) k1) with (Blk (start k) (stop k) (taken d o asy (info k))) in *. split; [|split; [exact Hs2|split; [|split; [by eapply ascending_remove|split]]]].
  - unfold obind in *. destruct (rb_erase (free_tree s) (node_of k)); try done. destruct (set_hdr _ _ (set_free false)); try done. destruct (set_hdr _ _ (set_allow false)); try done. rewrite Hrun1. rewrite Z.eqb_refl. exact Hrun2.
  - unfold L', carve. rewrite !idles_app. simpl. by apply (perm_others F1 F2 A k B).
  - unfold L', carve. rewrite !busys_app. exact Ht2.
  - split; [|by rewrite Hsp; unfold charge; rewrite E3]. rewrite Hfix. unfold fixed. by rewrite E1, E2, E4, E5, E6.
Qed.

(** The first steps of [take_buffer], as in [move_spec]. *)
Lemma take_buffer_moved e s s1 k nb size d o asy :
  (let* t := rb_erase (free_tree s) (node_of k) in let s := with_free_tree t s in let* s := set_hdr s (start k) (set_free false) in let* s := set_hdr s (start k) (set_allow false) in binder_insert_allocated_buffer s (start k)) = Ok s1 ->
  take_buffer e s (start k) (node_of k) nb size d o asy =
    (let* s := (if negb (nb =? size) then let new_buffer := u64 (start k + sizeof_buffer + size) in let* s := new_header e s1 new_buffer in let* s := list_add s new_buffer (start k) in let* s := set_hdr s new_buffer (set_free true) in binder_insert_free_buffer s new_buffer else Ok s1) in
     let* s := set_hdr s (start k) (set_sizes d o asy) in let s := if asy then with_space (u64 (free_async_space s - u64 (size + sizeof_buffer))) s else s in Ok (s, start k)).
Proof.
  intros Hrun. unfold take_buffer, obind in *. destruct (rb_erase (free_tree s) (node_of k)); try done. destruct (set_hdr _ _ (set_free false)); try done. destruct (set_hdr _ _ (set_allow false)); try done. by rewrite Hrun.
Qed.

(** The part for the new free block. *)
Lemma buffer_split_spec e s A k1 B F G1 G2 m : shape s (A ++ k1 :: B) -> trees (holds := holds) s (A ++ k1 :: B) F (G1 ++ k1 :: G2) -> (forall j, j ∈ F -> is_free j = true /\ j ∈ A ++ B) -> (forall j, j ∈ G1 ++ G2 -> j ∈ A ++ B) -> ascending bsize F -> start k1 + sizeof_buffer <= m -> m + sizeof_buffer <= stop k1 -> m mod 8 = 0 -> pg s m ∈ pages s -> pg s (m + sizeof_buffer - 1) ∈ pages s ->
  let k1' := Blk (start k1) m (info k1) in let k2 := Blk m (stop k1) (set_free true (garbage e m)) in
  exists s' Fa Fb, (let* s := new_header e s m in let* s := list_add s m (start k1) in let* s := set_hdr s m (set_free true) in binder_insert_free_buffer s m) = Ok s' /\ F = Fa ++ Fb /\ ascending bsize (Fa ++ k2 :: Fb) /\
    shape s' (A ++ k1' :: k2 :: B) /\ trees (holds := holds) s' (A ++ k1' :: k2 :: B) (Fa ++ k2 :: Fb) (G1 ++ k1' :: G2) /\ fixed s' = fixed s /\ free_async_space s' = free_async_space s.
Proof.
  intros Hs Ht HF HG Hasc H1 H2 H8 P1 P2 k1' k2. destruct (split_shape e s A k1 B m Hs H1 H2 H8 P1 P2) as (s1&s2&->&Hadd&Es2&K&Hs2&Hmn&Hp2). cbn [obind]. rewrite Hadd. cbn [obind]. set (g := Blk m (stop k1) (garbage e m)) in *. change (Blk (start k1) m (info k1)) with k1' in Hs2.
  assert (Ht1 : trees (holds := holds) s1 (A ++ k1 :: B) F (G1 ++ k1 :: G2)) by (eapply keeps_trees; [exact Hs|exact Ht|exact K|]; apply (header_outside s A k1 B); [done|lia|unfold sizeof_buffer in *; lia]).
  pose proof (shape_at _ _ _ _ Hs) as (_&_&_&HA&HB&_). assert (Hstart : forall j, j ∈ A ++ B -> start j <> start k1 /\ start j <> m) by (unfold sizeof_buffer in *; intros j Hj; apply elem_of_app in Hj as [Hj|Hj]; [specialize (HA j Hj)|specialize (HB j Hj)]; lia).
  replace (A ++ k1' :: g :: B) with ((A ++ [k1']) ++ g :: B) in Hs2 by (by rewrite <- app_assoc). destruct (set_hdr_shape s2 (A ++ [k1']) g B (set_free true) Hs2) as (Hset&Hs3). change (start g) with m in *. rewrite Hset. cbn [obind]. set (s3 := with_headers (<[m := set_free true (info g)]> (headers s2)) s2) in *. change (upd (set_free true) g) with k2 in Hs3. rewrite <- app_assoc in Hs3. change ([k1'] ++ k2 :: B) with (k1' :: k2 :: B) in Hs3.
  assert (Hap3 : forall j, j ∈ F -> j ∉ G1 ++ k1' :: G2).
  { intros j Hj Hin. destruct (HF j Hj) as (_&HjAB). assert (Hin' : j = k1' \/ j ∈ G1 ++ k1 :: G2) by (rewrite !elem_middle in *; tauto). destruct Hin' as [->|Hin']; [by destruct (Hstart k1' HjAB)|by apply (trees_apart _ _ _ _ Ht j Hj)]. }
  assert (Ht3 : trees (holds := holds) s3 (A ++ k1' :: k2 :: B) F (G1 ++ k1' :: G2)).
  { eapply (trees_relabel s1 s3); [exact Ht1|unfold s3, free_tree; rewrite Es2; done|unfold s3, allocated_tree; rewrite Es2; done|done|by rewrite !map_node_app| |exact Hap3]. intros j [Hj|Hj]; [destruct (HF j Hj) as (_&Hj'); apply elem_of_app in Hj'; rewrite !elem_of_app, !elem_of_cons; tauto|]. apply elem_middle in Hj as [->|Hj']; [apply elem_middle; by left|]. specialize (HG j Hj'). apply elem_of_app in HG. rewrite !elem_of_app, !elem_of_cons. tauto. }
  destruct (insert_free_spec s3 (A ++ k1' :: k2 :: B) F (G1 ++ k1' :: G2) k2 (garbage_node e m) Hs3 Ht3 Hasc) as (t&Fa&Fb&Hrun&HFab&Hasc'&Ht4).
  - intros j Hj. by apply HF.
  - rewrite elem_of_app, !elem_of_cons. tauto.
  - done.
  - intros Hin. destruct (HF k2 Hin) as (_&Hin'). by destruct (Hstart k2 Hin').
  - intros Hin. apply elem_middle in Hin as Hin'. destruct Hin' as [Heq|Hin']; [|by destruct (Hstart k2 (HG k2 Hin'))]. apply (f_equal start) in Heq. simpl in Heq. unfold sizeof_buffer in H1. lia.
  - exact Hmn.
  - exists (with_free_tree t s3), Fa, Fb. split; [exact Hrun|]. split; [done|]. split; [done|]. split; [by apply shape_free_tree|]. split; [exact Ht4|]. pose proof (proj1 K) as R. injection R as R1 R2 R3 R4 R5 R6 R7 R8 R9. split; [|cbn [free_async_space with_free_tree s3 with_headers]; rewrite Es2; exact R6]. unfold fixed. cbn [pages vma buffer buffer_size user_buffer_offset with_free_tree s3 with_headers]. rewrite Hp2, Es2. cbn [pages vma buffer buffer_size user_buffer_offset with_buffers]. by rewrite R9, R1, R8, R2.
Qed.

Lemma take_buffer_split e s A k B F1 F2 size d o asy : let m := start k + sizeof_buffer + size in shape s (A ++ k :: B) -> is_free k = true -> trees (holds := holds) s (A ++ k :: B) (F1 ++ k :: F2) (busys (A ++ k :: B)) -> ascending bsize (F1 ++ k :: F2) -> F1 ++ k :: F2 ≡ₚ idles (A ++ k :: B) ->
  0 <= size -> size mod 8 = 0 -> size + sizeof_buffer <= bsize k -> pg s m ∈ pages s -> pg s (m + sizeof_buffer - 1) ∈ pages s ->
  let L' := A ++ carve e d o asy true size k ++ B in
  exists s' F', take_buffer e s (start k) (node_of k) (size + sizeof_buffer) size d o asy = Ok (s', start k) /\ shape s' L' /\ F' ≡ₚ idles L' /\ ascending bsize F' /\ trees (holds := holds) s' L' F' (busys L') /\ fixed s' = fixed s /\ free_async_space s' = charge asy size s.
Proof.
  intros m Hs Hfree Ht Hasc Hp Hsz H8 Hfit P1 P2 L'. destruct (trees_others s A k B F1 F2 Hs Hfree Ht) as (HF&_). destruct (move_spec s A k B F1 F2 Hs Hfree Ht) as (s1&Hrun1&Hs1&Ht1&E1&E2&E3&E4&E5&E6). set (k1 := upd _ k) in *. pose proof (shape_at _ _ _ _ Hs1) as (_&_&(G8&_&_)&HA&HB&Hlo&Hhi). pose proof (area_facts _ (shape_area _ _ Hs1)) as (_&Hb0&_&_&_&He0). unfold stop_of, bsize in *.
  rewrite (take_buffer_moved e s s1 k _ size d o asy Hrun1). change (start k1) with (start k) in *. change (stop k1) with (stop k) in *. unfold sizeof_buffer in *. rewrite (wrap_small 64 (start k + 80 + size)) by lia. fold m. replace (size + 80 =? size) with false by lia. cbn [negb].
  assert (Hasc' : ascending bsize (F1 ++ F2)) by (by eapply ascending_remove). assert (Hall : forall j, j ∈ F1 ++ F2 -> is_free j = true /\ j ∈ A ++ B) by (intros j Hj; split; [|by apply HF]; assert (Hj' : j ∈ F1 ++ k :: F2) by (apply elem_middle; by right); rewrite Hp in Hj'; by apply elem_idles in Hj' as (?&_)).
  assert (HG : forall j, j ∈ busys A ++ busys B -> j ∈ A ++ B) by (intros j Hj; apply elem_of_app in Hj as [Hj|Hj]; apply elem_busys in Hj as (_&Hj); apply elem_of_app; tauto).
  destruct (buffer_split_spec e s1 A k1 B (F1 ++ F2) (busys A) (busys B) m Hs1 Ht1 Hall HG Hasc') as (s2&Fa&Fb&Hrun2&HFab&HascF&Hs2&Ht2&Hfix2&Hsp2); [unfold m, sizeof_buffer; simpl; lia|unfold m, sizeof_buffer; simpl; lia|unfold m; lia|rewrite E1; unfold pg in *; rewrite E4; done|rewrite E1; unfold pg in *; rewrite E4; done|].
  change (start k1) with (start k) in Hrun2. rewrite Hrun2. cbn [obind]. set (k1' := Blk (start k1) m (info k1)) in *. set (k2 := Blk m (stop k1) _) in *. pose proof (shape_at _ _ _ _ Hs2) as (_&_&_&HA2&HB2&_).
  assert (Hnot : k1' ∉ A ++ B) by (intros Hin; apply elem_of_app in Hin as [Hin|Hin]; [specialize (HA k1' Hin)|specialize (HB k1' Hin)]; unfold m in *; simpl in *; lia).
  assert (Hne : k2 <> k1') by (intros Heq; apply (f_equal start) in Heq; simpl in Heq; unfold m in *; lia).
  destruct (record_spec s2 A k1' (k2 :: B) d o asy size (Fa ++ k2 :: Fb) (busys A) (busys B) Hs2 eq_refl Ht2) as (s3&Hrun3&Hs3&Ht3&Hfix3&Hsp3).
  { intros Hin. rewrite HFab in HF. apply elem_middle in Hin as Hin'. destruct Hin' as [Heq|Hin']; [by apply Hne|]. by apply Hnot, HF. }
  { intros Hin. by apply Hnot, HG. }
  exists s3, (Fa ++ k2 :: Fb). change (upd (set_sizes d o asy) k1') with (Blk (start k) m (taken d o asy (info k))) in *. split; [exact Hrun3|]. split; [exact Hs3|]. split; [|split; [done|split; [|split; [|rewrite Hsp3; unfold charge; by rewrite Hsp2, E3]]]].
  - unfold L', carve. rewrite !idles_app. fold m. change (idles [Blk (start k) m (taken d o asy (info k)); Blk m (stop k) (set_free true (garbage e m))]) with [k2]. rewrite <- Permutation_middle, <- HFab, (perm_others F1 F2 A k B Hfree Hp). simpl. by rewrite <- Permutation_middle.
  - unfold L', carve. rewrite !busys_app. exact Ht3.
  - rewrite Hfix3, Hfix2. unfold fixed. by rewrite E1, E2, E4, E5, E6.
Qed.

(** ** The request *)

Definition align8 (x : Z) : Z := 8 * ((x + 7) / 8).

Lemma ALIGN_8 x : 0 <= x < 2 ^ 64 -> ALIGN x 8 = u64 (align8 x).
Proof.
  intros Hx. unfold ALIGN, align8. change (8 - 1) with (2 ^ 3 - 1). rewrite land_ones_compl by (try lia; apply wrap_range; lia). change (2 ^ 3 - 1) with 7. change (2 ^ 3) with 8. unfold wrap. lia.
Qed.

(** The two comparisons find out whether the sum overflows. *)
Lemma request_size d o : 0 <= d < 2 ^ 64 -> 0 <= o < 2 ^ 64 -> let size := u64 (ALIGN d 8 + ALIGN o 8) in
  (size <? d) || (size <? o) = false /\ size = align8 d + align8 o /\ align8 d + align8 o < 2 ^ 64 \/ (size <? d) || (size <? o) = true /\ 2 ^ 64 <= align8 d + align8 o.
Proof.
  intros Hd Ho size. unfold size. rewrite !ALIGN_8 by lia. assert (d <= align8 d < d + 8 /\ align8 d mod 8 = 0) as (D1&D2) by (unfold align8; lia). assert (o <= align8 o < o + 8 /\ align8 o mod 8 = 0) as (O1&O2) by (unfold align8; lia). unfold wrap. destruct (decide (align8 d + align8 o < 2 ^ 64)) as [Hlt|Hge].
  - left. rewrite !(Z.mod_small _ (2 ^ 64)) by lia. split; [|lia]. apply orb_false_iff. lia.
  - right. split; [|lia]. apply orb_true_iff. lia.
Qed.

(** ** Pages of the carved block *)

Definition last_page (s : binder_proc) (split : bool) (size : Z) (k : blk) : Z :=
  Z.min (pg s (start k + sizeof_buffer + (if split then size + sizeof_buffer else size) + 4095)) (pg s (stop k)).

Lemma carve_pages e d o asy (split : bool) size s A k B i : shape s (A ++ k :: B) -> is_free k = true -> 0 <= size -> (if split then size + sizeof_buffer + 4 < bsize k else size <= bsize k <= size + sizeof_buffer + 4) ->
  (exists j, j ∈ A ++ carve e d o asy split size k ++ B /\ uses s j i) <-> (exists j, j ∈ A ++ k :: B /\ uses s j i) \/ pg s (start k + sizeof_buffer + 4095) <= i < last_page s split size k.
Proof.
  intros Hs Hfree Hsz Hfit. pose proof (shape_at _ _ _ _ Hs) as (_&Ht&_&_&_&_&_). assert (Hrest : forall X : list blk, (exists j, j ∈ A ++ X ++ B /\ uses s j i) <-> (exists j, j ∈ A ++ B /\ uses s j i) \/ exists j, j ∈ X /\ uses s j i).
  { intros X. split; [intros (j&Hj&Hu)|intros [(j&Hj&Hu)|(j&Hj&Hu)]; exists j]; rewrite ?elem_of_app in *; [destruct Hj as [Hj|[Hj|Hj]]; [left; exists j|right; by exists j|left; exists j]; rewrite elem_of_app; tauto|tauto|tauto]. }
  rewrite Hrest. change (A ++ k :: B) with (A ++ [k] ++ B). rewrite Hrest. assert (Hnext : pg s (stop k) = i -> (exists j, j ∈ A ++ B /\ uses s j i) \/ stop k = at_page s i).
  { intros Hi. destruct B as [|j B']; [right; simpl in Ht; pose proof (stop_page s (shape_area _ _ Hs)) as Hst; rewrite <- Ht in Hst; rewrite Hst, pg_at_page in Hi; by rewrite Hst, Hi|]. left. exists j. split; [apply elem_of_app; right; apply elem_of_cons; by left|]. destruct Ht as (Hj&_). left. rewrite Hj, Hi. unfold sizeof_buffer, pg, PAGE_SIZE in *. lia. }
  unfold carve, last_page, uses, is_free, bsize, sizeof_buffer, pg, at_page, PAGE_SIZE in *. destruct split.
  - set (m := start k + 80 + size). split.
    + intros [H|(j&Hj&Hu)]; [left; by left|]. apply elem_of_cons in Hj as [->|Hj]; [|apply list_elem_of_singleton in Hj as ->]; cbn [start stop info free set_free taken set_sizes set_allow] in Hu.
      * destruct Hu as [Hu|(_&Hu)]; [left; right; exists k; split; [by apply list_elem_of_singleton|by left]|]. right. unfold m in *. lia.
      * destruct Hu as [Hu|(Hu&_)]; [|done]. destruct (decide (i < (start k + 80 + 4095 - buffer s) / 4096)) as [Hlt|Hge]; [left; right; exists k; split; [by apply list_elem_of_singleton|]; left; unfold m in *; lia|]. destruct (decide ((stop k - buffer s) / 4096 = i)) as [He|Hne]; [destruct (Hnext He) as [H|H]; [left; by left|unfold m in *; lia]|]. right. unfold m in *. lia.
    + intros [[H|(j&Hj&Hu)]|Hi]; [by left| |].
      * apply list_elem_of_singleton in Hj as ->. destruct Hu as [Hu|(Hu&_)]; [|congruence]. right. eexists. split; [apply elem_of_cons; by left|]. by left.
      * right. destruct (decide (i < (m - buffer s) / 4096)) as [Hlt|Hge]; [eexists; split; [apply elem_of_cons; by left|]; right; split; [done|]; cbn [start stop]; unfold m in *; lia|]. eexists. split; [apply elem_of_cons; right; by apply list_elem_of_singleton|]. left. cbn [start]. unfold m in *. lia.
  - split.
    + intros [H|(j&Hj&Hu)]; [left; by left|]. apply list_elem_of_singleton in Hj as ->. cbn [start stop info free set_free taken set_sizes set_allow] in Hu. destruct Hu as [Hu|(_&Hu)]; [left; right; exists k; split; [by apply list_elem_of_singleton|by left]|]. right. lia.
    + intros [[H|(j&Hj&Hu)]|Hi]; [by left| |].
      * apply list_elem_of_singleton in Hj as ->. destruct Hu as [Hu|(Hu&_)]; [|congruence]. right. eexists. split; [by apply list_elem_of_singleton|]. by left.
      * right. eexists. split; [by apply list_elem_of_singleton|]. right. split; [done|]. cbn [start stop]. lia.
Qed.

(** ** The whole operation *)

(** Why [binder_alloc_buf] may return NULL. *)
Inductive refused (e : env) (s : binder_proc) (L : list blk) (size : Z) (asy : bool) : Prop :=
| no_vma : vma s = false -> refused e s L size asy
| overflow : 2 ^ 64 <= size -> refused e s L size asy
| too_large : (if asy then buffer_size s / 2 else buffer_size s) < size + sizeof_buffer -> refused e s L size asy
| no_async_space : asy = true -> free_async_space s < size + sizeof_buffer -> refused e s L size asy
| no_room : (forall k, k ∈ L -> is_free k = true -> bsize k < size) -> refused e s L size asy
| no_pages k : k ∈ L -> is_free k = true -> size <= bsize k -> unmappable e s false (pg s (start k + sizeof_buffer + 4095)) (last_page s (size + sizeof_buffer + 4 <? bsize k) size k) -> refused e s L size asy.

(** The pages inside a free block are not mapped. *)
Lemma free_unmapped s A k B i : inv (holds := holds) s (A ++ k :: B) -> is_free k = true -> pg s (start k + sizeof_buffer + 4095) <= i < pg s (stop k) -> i ∉ pages s.
Proof.
  intros Hinv Hfree Hi Hin. apply (inv_pages _ _ Hinv) in Hin as (j&Hj&Hu). apply elem_middle in Hj as [->|Hj]; [|by apply (outside_unused s A k B i (inv_shape _ _ Hinv) Hi j Hj)]. unfold uses, pg, sizeof_buffer, PAGE_SIZE in *. destruct Hu as [Hu|(Hu&_)]; [lia|congruence].
Qed.

Lemma carve_spaced e d o asy (split : bool) size A k B : is_free k = true -> spaced (A ++ k :: B) -> spaced (A ++ carve e d o asy split size k ++ B).
Proof.
  intros Hfree Hsp. apply spaced_app in Hsp as (HA&(Hk&HB)&_). rewrite Hfree in Hk. simpl in Hk. apply spaced_app. split; [done|]. unfold carve. destruct split; simpl; [rewrite Hk; rewrite !andb_false_r; done|rewrite !andb_false_r; done].
Qed.

Lemma carve_total e d o asy (split : bool) size A k B : is_free k = true -> async_total (A ++ carve e d o asy split size k ++ B) = async_total (A ++ k :: B) + if asy then payload (taken d o asy (info k)) + sizeof_buffer else 0.
Proof.
  intros Hfree. rewrite !async_total_app. simpl. unfold carve. assert (async_cost k = 0) as -> by (unfold async_cost; by rewrite Hfree). destruct split; simpl; unfold async_cost, is_free; simpl; destruct asy; simpl; lia.
Qed.

(** The state after the block is taken satisfies the invariant. *)
Lemma alloc_inv e s s1 s' A k B F' size d o asy (split : bool) : inv (holds := holds) s (A ++ k :: B) -> is_free k = true -> size = u64 (ALIGN d 8 + ALIGN o 8) -> (if split then size + sizeof_buffer + 4 < bsize k else size <= bsize k <= size + sizeof_buffer + 4) -> (asy = true -> size + sizeof_buffer <= free_async_space s) ->
  rest s1 = rest s -> (forall p, p ∈ pages s1 <-> p ∈ pages s \/ pg s (start k + sizeof_buffer + 4095) <= p < last_page s split size k) ->
  let L' := A ++ carve e d o asy split size k ++ B in
  shape s' L' -> F' ≡ₚ idles L' -> ascending bsize F' -> trees (holds := holds) s' L' F' (busys L') -> fixed s' = fixed s1 -> free_async_space s' = charge asy size s1 -> inv (holds := holds) s' L'.
Proof.
  intros Hinv Hfree Esz Hfit Hsp R Hp L' Hs' HF' Hasc' Ht' Hfix Hch. pose proof (inv_shape _ _ Hinv) as Hs. pose proof (shape_at _ _ _ _ Hs) as (_&_&_&_&_&Hlo&Hhi). pose proof (area_facts s (shape_area _ _ Hs)) as (_&_&_&Hsz&_&_). pose proof R as R'. injection R' as R1 R2 R3 R4 R5 R6 R7 R8 R9. injection Hfix as X1 X2 X3 X4 X5. assert (Hbs : buffer s' = buffer s) by congruence. assert (Hsz0 : 0 <= size) by (rewrite Esz; apply u64_range).
  split; [done|by exists F'| |apply carve_spaced; [done|by apply (inv_spaced _ _ Hinv)]| |].
  - intros j Hj Hb. unfold L' in Hj. rewrite !elem_of_app in Hj. destruct Hj as [Hj|[Hj|Hj]]; [apply (inv_payload _ _ Hinv); [rewrite elem_of_app; tauto|done]| |apply (inv_payload _ _ Hinv); [rewrite elem_of_app, elem_of_cons; tauto|done]]. unfold carve in Hj. unfold bsize in Hfit. destruct split.
    + apply elem_of_cons in Hj as [->|Hj]; [|apply list_elem_of_singleton in Hj as ->; done]. cbn [info]. change (payload (taken d o asy (info k))) with (u64 (ALIGN d 8 + ALIGN o 8)). rewrite <- Esz. unfold bsize. simpl. lia.
    + apply list_elem_of_singleton in Hj as ->. cbn [info]. change (payload (taken d o asy (info k))) with (u64 (ALIGN d 8 + ALIGN o 8)). rewrite <- Esz. unfold bsize. simpl. lia.
  - intros i. rewrite X1, Hp. rewrite (inv_pages _ _ Hinv). assert (Hu : forall j, uses s' j i <-> uses s j i) by (intros j; unfold uses, pg; by rewrite Hbs). setoid_rewrite Hu. symmetry. by apply carve_pages.
  - rewrite Hch, X4, R8. unfold L'. rewrite carve_total by done. change (payload (taken d o asy (info k))) with (u64 (ALIGN d 8 + ALIGN o 8)). rewrite <- Esz. pose proof (inv_space _ _ Hinv) as Hspace. pose proof (async_total_nonneg (A ++ k :: B)) as Htot. unfold charge. rewrite R6. destruct asy; [|lia]. specialize (Hsp eq_refl). unfold bsize, stop_of, sizeof_buffer in *. rewrite (wrap_small 64 (size + 80)), wrap_small by lia. lia.
Qed.

(** The addresses [binder_alloc_buf] computes. *)
Lemma alloc_addresses s A k B size (split : bool) : shape s (A ++ k :: B) -> 0 <= size -> (if split then size + sizeof_buffer + 4 < bsize k else size <= bsize k <= size + sizeof_buffer + 4) ->
  let nb := if split then size + sizeof_buffer else size in
  PAGE_ALIGN (start k + sizeof_buffer) = at_page s (pg s (start k + sizeof_buffer + 4095)) /\
  (let has := Z.land (u64 (start k + sizeof_buffer + bsize k)) PAGE_MASK in let e := PAGE_ALIGN (u64 (start k + sizeof_buffer + nb)) in if has <? e then has else e) = at_page s (last_page s split size k) /\
  0 <= pg s (start k + sizeof_buffer + 4095) /\ last_page s split size k <= npages s /\ last_page s split size k <= pg s (stop k).
Proof.
  intros Hs Hsz Hfit nb. pose proof (shape_area _ _ Hs) as Ha. pose proof (shape_at _ _ _ _ Hs) as (_&_&_&_&_&Hlo&Hhi). pose proof (area_facts s Ha) as (_&Hb&_&Hbs&_&He). assert (Hnb : 0 <= nb <= bsize k) by (unfold nb; destruct split; unfold sizeof_buffer in *; lia). assert (Hstop : start k + sizeof_buffer + bsize k = stop k) by (unfold bsize, sizeof_buffer; lia). rewrite Hstop. unfold bsize, stop_of, sizeof_buffer in *.
  split; [apply (align_page s Ha); lia|]. split; [|split; [unfold pg, PAGE_SIZE; lia|]].
  - rewrite !wrap_small by lia. cbv zeta. rewrite (mask_page s Ha), (align_page s Ha) by lia. unfold last_page. change (if split then size + sizeof_buffer else size) with nb. unfold sizeof_buffer. destruct (Z.ltb_spec (at_page s (pg s (stop k))) (at_page s (pg s (start k + 80 + nb + 4095)))) as [H|H]; f_equal; unfold at_page, PAGE_SIZE in H; lia.
  - pose proof (stop_page s Ha) as Hst. unfold stop_of in Hst. assert (Hn : pg s (stop k) <= npages s) by (apply pg_le; unfold at_page, PAGE_SIZE in *; lia). unfold last_page. lia.
Qed.

(** The buffer [k] is taken: its pages are mapped, or nothing changes. *)
Lemma carve_spec e s A k B d o asy : let size := align8 d + align8 o in let split := size + sizeof_buffer + 4 <? bsize k in
  inv (holds := holds) s (A ++ k :: B) -> is_free k = true -> u64 (ALIGN d 8 + ALIGN o 8) = size -> size <= bsize k -> (asy = true -> size + sizeof_buffer <= free_async_space s) ->
  exists s' r, (let* (s, ret) := binder_update_page_range e s true (at_page s (pg s (start k + sizeof_buffer + 4095))) (at_page s (last_page s split size k)) false in
      if negb (ret =? 0) then Ok (s, 0) else take_buffer e s (start k) (node_of k) (if split then size + sizeof_buffer else size) size d o asy) = Ok (s', r) /\ constants s' = constants s /\
    (r = 0 /\ unmappable e s false (pg s (start k + sizeof_buffer + 4095)) (last_page s split size k) /\ inv (holds := holds) s' (A ++ k :: B) \/
     r = start k /\ inv (holds := holds) s' (A ++ carve e d o asy split size k ++ B)).
Proof.
  intros size split Hinv Hfree Esz Hfit Hasy. pose proof (inv_shape _ _ Hinv) as Hs. destruct (inv_trees _ _ Hinv) as (F&HF&Hasc&Ht). assert (Hsz0 : 0 <= size) by (rewrite <- Esz; apply u64_range). assert (Hsz8 : size mod 8 = 0) by (unfold size, align8; lia).
  assert (Hsplit : if split then size + sizeof_buffer + 4 < bsize k else size <= bsize k <= size + sizeof_buffer + 4) by (unfold split; destruct (Z.ltb_spec (size + sizeof_buffer + 4) (bsize k)); lia). destruct (alloc_addresses s A k B size split Hs Hsz0 Hsplit) as (_&_&P0&P1&P2).
  destruct (allocate_range_spec e s _ _ false (shape_area _ _ Hs) P0 P1) as (s1&r&->&K&Hres); [intros p Hp; apply (free_unmapped s A k B p Hinv Hfree); lia|]. cbn [obind].
  assert (Hout : forall j, j ∈ A ++ k :: B -> overlaps (start j) sizeof_buffer (at_page s (pg s (start k + sizeof_buffer + 4095))) (at_page s (last_page s split size k)) = false) by (apply (header_outside s A k B); [done|unfold at_page, pg, sizeof_buffer, PAGE_SIZE; lia|apply at_page_mono with (s := s) in P2; unfold at_page, pg, PAGE_SIZE in *; lia]).
  pose proof (proj1 K) as R. pose proof R as R'. injection R' as R1 R2 R3 R4 R5 R6 R7 R8 R9. destruct Hres as [(->&Hp)|(->&Hun&Hp)].
  2: { change (- ENOMEM =? 0) with false. exists s1, 0. split; [done|]. split; [unfold constants; congruence|]. left. split; [done|]. split; [done|]. by eapply inv_keeps. }
  simpl (negb _). cbn iota. assert (Hk : k ∈ F) by (rewrite HF; apply elem_idles; split; [done|apply elem_middle; by left]). apply list_elem_of_split in Hk as (F1&F2&->). pose proof (keeps_shape _ _ _ _ _ Hs K Hout) as Hs1. pose proof (keeps_trees _ _ _ _ _ _ _ Hs Ht K Hout) as Ht1.
  assert (Htake : exists s' F', take_buffer e s1 (start k) (node_of k) (if split then size + sizeof_buffer else size) size d o asy = Ok (s', start k) /\ shape s' (A ++ carve e d o asy split size k ++ B) /\ F' ≡ₚ idles (A ++ carve e d o asy split size k ++ B) /\ ascending bsize F' /\ trees (holds := holds) s' (A ++ carve e d o asy split size k ++ B) F' (busys (A ++ carve e d o asy split size k ++ B)) /\ fixed s' = fixed s1 /\ free_async_space s' = charge asy size s1).
  { destruct split; [|by apply (take_buffer_whole e s1 A k B F1 F2)]. assert (Hpage : forall a, start k + sizeof_buffer + size <= a <= start k + sizeof_buffer + size + sizeof_buffer - 1 -> pg s1 a ∈ pages s1).
    { intros a Ha. rewrite (rest_pg s s1 a R). apply Hp. rewrite (inv_pages _ _ Hinv). apply (carve_pages e d o asy true size s A k B); [done|done|done|done|]. eexists. split; [apply elem_of_app; right; apply elem_of_app; left; apply elem_of_cons; right; by apply list_elem_of_singleton|]. left. cbn [start]. unfold pg, sizeof_buffer, PAGE_SIZE in *. lia. }
    apply (take_buffer_split e s1 A k B F1 F2); [done|done|done|done|done|done|done|unfold sizeof_buffer in *; lia|apply Hpage; unfold sizeof_buffer; lia|apply Hpage; unfold sizeof_buffer; lia]. }
  destruct Htake as (s'&F'&->&Hs'&HF'&Hasc'&Ht'&Hfix&Hch). exists s', (start k). split; [done|]. split; [injection Hfix as _ X2 X3 X4 X5; unfold constants; congruence|]. right. split; [done|]. by eapply (alloc_inv e s s1 s').
Qed.

(** Allocation always returns: NULL for a reason, with the blocks as they were, or the
    smallest free block that is large enough, carved. *)
Lemma buffer_alloc_spec e s L d o asy : inv (holds := holds) s L -> 0 <= d < 2 ^ 64 -> 0 <= o < 2 ^ 64 -> exists s' r, binder_alloc_buf e s d o asy = Ok (s', r) /\
  (r = 0 /\ refused e s L (align8 d + align8 o) asy /\ inv (holds := holds) s' L /\ constants s' = constants s \/
   exists A k B, L = A ++ k :: B /\ r = start k /\ is_free k = true /\ align8 d + align8 o <= bsize k /\ (forall j, j ∈ L -> is_free j = true -> align8 d + align8 o <= bsize j -> bsize k <= bsize j) /\
     inv (holds := holds) s' (A ++ carve e d o asy (align8 d + align8 o + sizeof_buffer + 4 <? bsize k) (align8 d + align8 o) k ++ B) /\ constants s' = constants s).
Proof.
  intros Hinv Hd Ho. unfold binder_alloc_buf. destruct (vma s) eqn:Ev; cbn [negb]; [|exists s, 0; split; [done|]; left; split; [done|]; split; [by apply no_vma|done]]. destruct (request_size d o Hd Ho) as [(->&Esz&Hlt)|(->&Hge)]; [|exists s, 0; split; [done|]; left; split; [done|]; split; [by apply overflow|done]].
  cbv zeta. set (size := align8 d + align8 o) in *. pose proof (inv_shape _ _ Hinv) as Hs. pose proof (area_facts s (shape_area _ _ Hs)) as (_&Hb&_&Hbs&_&He). assert (Hsz0 : 0 <= size /\ size mod 8 = 0) by (unfold size, align8; lia). destruct Hsz0 as (Hsz0&Hsz8). rewrite Esz.
  destruct (Z.ltb_spec (if asy then buffer_size s / 2 else buffer_size s) (u64 (size + sizeof_buffer))) as [Hbig|Hbig]; [exists s, 0; split; [done|]; left; split; [done|]; split; [|done]; apply too_large; unfold wrap, sizeof_buffer in *; lia|].
  destruct (asy && (free_async_space s <? u64 (size + sizeof_buffer))) eqn:Easync; [exists s, 0; split; [done|]; left; split; [done|]; split; [|done]; apply andb_true_iff in Easync as (Ha&Hlt2); apply no_async_space; [done|]; unfold wrap, sizeof_buffer in *; lia|].
  destruct (inv_trees _ _ Hinv) as (F&HF&Hasc&Ht). assert (Hall : forall j, j ∈ F -> is_free j = true) by (intros j Hj; rewrite HF in Hj; by apply elem_idles in Hj as (?&_)).
  destruct (best_fit_spec s L F (busys L) size Hs Ht Hasc Hall) as [(->&Hnone)|(k&n&Hk&->&Hfit&Hbest&Hn)]; cbn [obind].
  { exists s, 0. split; [done|]. left. split; [done|]. split; [|done]. apply no_room. intros k Hk Hf. apply Hnone. rewrite HF. by apply elem_idles. }
  assert (HkL : is_free k = true /\ k ∈ L) by (rewrite HF in Hk; by apply elem_idles). destruct HkL as (Hfree&HkL). pose proof (node_valid s L k Hs HkL) as (Hv&_). replace (node_of k =? 0) with false by lia. assert (Hbuf : (if n =? 0 then node_of k else n) - rb_offset = start k) by (destruct Hn as [(->&_)|(->&_)]; [|replace (node_of k =? 0) with false by lia]; apply node_start). rewrite Hbuf, (size_in s L k Hs HkL). cbn [obind].
  apply list_elem_of_split in HkL as (A&B&->). pose proof (shape_at _ _ _ _ Hs) as (_&_&_&_&_&Hlo&Hhi). set (split := size + sizeof_buffer + 4 <? bsize k). assert (Hsplit : if split then size + sizeof_buffer + 4 < bsize k else size <= bsize k <= size + sizeof_buffer + 4) by (unfold split; destruct (Z.ltb_spec (size + sizeof_buffer + 4) (bsize k)); lia).
  assert (Hsmall : size + sizeof_buffer + 4 < 2 ^ 64) by (unfold bsize, stop_of, sizeof_buffer in *; lia). assert (Hnb : (if n =? 0 then if bsize k <=? u64 (size + sizeof_buffer + 4) then size else u64 (size + sizeof_buffer) else bsize k) = if split then size + sizeof_buffer else size).
  { rewrite !wrap_small by (unfold sizeof_buffer in *; lia). unfold split. destruct Hn as [(->&_)|(->&Heq)]; [simpl; destruct (Z.leb_spec (bsize k) (size + sizeof_buffer + 4)), (Z.ltb_spec (size + sizeof_buffer + 4) (bsize k)); lia|]. replace (node_of k =? 0) with false by lia. unfold sizeof_buffer in *. replace (size + 80 + 4 <? bsize k) with false by lia. done. }
  rewrite Hnb. destruct (alloc_addresses s A k B size split Hs Hsz0 Hsplit) as (->&Hend&_). cbv zeta in Hend. rewrite Hend.
  assert (Hasy : asy = true -> size + sizeof_buffer <= free_async_space s) by (intros ->; simpl in Easync; rewrite wrap_small in Easync by (unfold sizeof_buffer in *; lia); lia).
  destruct (carve_spec e s A k B d o asy Hinv Hfree Esz Hfit Hasy) as (s'&r&Hrun&Hc&Hres). fold size split in Hrun, Hres. rewrite Hrun. exists s', r. split; [done|]. destruct Hres as [(->&Hun&Hinv')|(->&Hinv')].
  - left. split; [done|]. split; [|done]. apply (no_pages _ _ _ _ _ k); [apply elem_middle; by left|done|done|done].
  - right. exists A, k, B. split; [done|]. split; [done|]. split; [done|]. split; [done|]. split; [intros j Hj Hjf Hjs; apply Hbest; [rewrite HF; by apply elem_idles|done]|done].
Qed.

End alloc.
