(* ===== verification/BinderFree.v ===== *)
(** * BinderFree: freeing a buffer *)

From stdpp Require Import gmap.
From S2P Require Import Prelude Rbtree RbtreeFacts RbtreeWalk RbtreeSpec Binder BinderFacts BinderLayout BinderTree BinderInv.

(** ** Removing a header *)

(** The block [p] takes over the block after it. *)
Definition absorb (p k : blk) : blk := Blk (start p) (stop k) (info p).

Definition static (s : binder_proc) := (vma s, buffer s, buffer_size s, user_buffer_offset s, free_async_space s).

Lemma start_page_at s k : area s -> buffer s <= start k < 2 ^ 64 -> buffer_start_page (start k) = at_page s (pg s (start k)).
Proof. intros Ha H. by apply mask_page. Qed.

Lemma end_page_at s k : area s -> buffer s <= start k -> start k + sizeof_buffer <= 2 ^ 64 -> buffer_end_page (start k) = at_page s (pg s (start k + sizeof_buffer - 1)).
Proof. intros Ha H1 H2. destruct (area_facts s Ha) as (_&Hb&_). unfold buffer_end_page, sizeof_buffer in *. rewrite wrap_small by lia. apply mask_page; [done|lia]. Qed.

Lemma at_page_eqb s i j : (at_page s i =? at_page s j) = (i =? j).
Proof. unfold at_page, PAGE_SIZE. lia. Qed.

(** Of the pages of the header of [k], the neighbours need the first if the header
    before ends on it and the last if the next one starts on it. *)
Lemma neighbours_use s A p k B i : shape s (A ++ p :: k :: B) -> is_free p = true -> pg s (start k) <= i <= pg s (start k + sizeof_buffer - 1) ->
  (exists j, j ∈ A ++ p :: B /\ uses s j i) <-> (i = pg s (start k) /\ pg s (start p + sizeof_buffer - 1) = pg s (start k)) \/ (i = pg s (start k + sizeof_buffer - 1) /\ exists n, head B = Some n /\ pg s (start n) = pg s (start k + sizeof_buffer - 1)).
Proof.
  intros Hs Hfp Hi. replace (A ++ p :: k :: B) with ((A ++ [p]) ++ k :: B) in Hs by (by rewrite <- app_assoc). pose proof (shape_at _ _ _ _ Hs) as (_&HtB&Hgk&HA&HB&_). pose proof (good_len k Hgk). pose proof (HA p ltac:(set_solver)) as Hp. pose proof (shape_good_at s _ p Hs ltac:(set_solver)) as (_&_&Hlp&_). split.
  - intros (j&Hj&Hu). apply elem_middle in Hj as [->|Hj]; [|apply elem_of_app in Hj as [Hj|Hj]].
    + destruct Hu as [Hu|(Hu&_)]; [|congruence]. left. unfold pg, sizeof_buffer, PAGE_SIZE in *. lia.
    + pose proof (shape_good_at s _ j Hs ltac:(set_solver)) as (_&_&Hlj&_). pose proof (HA j ltac:(set_solver)) as Hjk. replace ((A ++ [p]) ++ k :: B) with (A ++ p :: k :: B) in Hs by (by rewrite <- app_assoc). pose proof (shape_at _ _ _ _ Hs) as (_&_&_&HAp&_). specialize (HAp j Hj). left. unfold uses, pg, sizeof_buffer, PAGE_SIZE in *. lia.
    + right. destruct B as [|n B']; [set_solver|]. destruct HtB as (Hn&_). pose proof (HB j Hj) as Hjb. split; [unfold uses, pg, sizeof_buffer, PAGE_SIZE in *; lia|]. exists n. split; [done|]. unfold uses, pg, sizeof_buffer, PAGE_SIZE in *. lia.
  - intros [(->&He)|(->&n&Hn&He)].
    + exists p. split; [apply elem_middle; by left|]. left. unfold pg, sizeof_buffer, PAGE_SIZE in *. lia.
    + destruct B as [|n' B']; [done|]. injection Hn as ->. exists n. split; [apply elem_of_app; right; apply elem_of_cons; right; apply elem_of_cons; by left|]. left. rewrite He. unfold pg, sizeof_buffer, PAGE_SIZE in *. lia.
Qed.

Lemma overlap_page s j lo hi : lo < hi -> overlaps (start j) sizeof_buffer (at_page s lo) (at_page s hi) = true -> exists i, lo <= i < hi /\ pg s (start j) <= i <= pg s (start j + sizeof_buffer - 1).
Proof. intros Hlt H. exists (Z.max lo (pg s (start j))). unfold overlaps, at_page, pg, sizeof_buffer, PAGE_SIZE in *. lia. Qed.

Lemma list_del_shape s A p k B : shape s (A ++ p :: k :: B) -> exists s', list_del s (start k) = Ok s' /\ s' = with_buffers (buffers s') s /\ shape s' (A ++ absorb p k :: B).
Proof.
  intros Hs0. assert (Hs : shape s ((A ++ [p]) ++ k :: B)) by (by rewrite <- app_assoc). pose proof (shape_at _ _ _ _ Hs0) as (Ht1&_&Hgp&_&_&_). pose proof (shape_at _ _ _ _ Hs) as (_&Ht2&Hgk&HA&_&_). pose proof (HA p ltac:(set_solver)) as Hp. unfold list_del. rewrite (hdr_at _ _ _ _ Hs). cbn [obind]. rewrite (shape_prev _ _ _ _ Hs), (shape_next _ _ _ _ Hs). cbn [obind]. rewrite last_snoc.
  assert (hdr_if s (start <$> Some p) = Ok tt) as -> by (simpl; unfold hdr; by rewrite (shape_hdr_at _ _ _ _ Hs0)). cbn [obind]. assert (hdr_if s (start <$> head B) = Ok tt) as -> by (destruct B as [|n B']; [done|]; simpl; unfold hdr; by rewrite (shape_hdr _ _ Hs n ltac:(set_solver))). cbn [obind]. eexists. split; [done|]. split; [done|]. destruct Hs0 as [[] H2 H3 H4 H5]. split; [by split| | | |].
  - unfold stop_of in *. cbn [buffer buffer_size with_buffers]. apply tiles_app. exists (start p). split; [done|]. done.
  - apply Forall_app in H3 as (H3&H6). apply list.Forall_cons in H6 as (H6&H7). apply list.Forall_cons in H7 as (H7&H8). apply Forall_app. split; [done|]. constructor; [|done]. destruct H6 as (X1&X2&X3). destruct H7 as (Y1&Y2&Y3). split; [done|]. split; [done|]. unfold bsize, sizeof_buffer in *. simpl. lia.
  - cbn [buffers with_buffers]. rewrite (shape_list _ _ Hs), filter_at by (apply (shape_not_before _ _ _ _ Hs) || apply (shape_not_after _ _ _ _ Hs)). rewrite <- app_assoc. by rewrite !map_app.
  - intros j Hj. cbn [headers with_buffers]. apply elem_middle in Hj as [->|Hj]; [apply (H5 p); set_solver|]. apply H5. apply elem_of_app in Hj. rewrite elem_of_app, !elem_of_cons. tauto.
Qed.

(** The first and the last page to free, as [binder_delete_free_buffer] finds them. *)
Definition freed_pages (s : binder_proc) (p k : blk) (n : option blk) : option (Z * Z) :=
  let S := pg s (start k) in
  let E := pg s (start k + sizeof_buffer - 1) in
  let shared_before := pg s (start p + sizeof_buffer - 1) =? S in
  let shared_after := match n with Some n => pg s (start n) =? E | None => false end in
  let first := negb shared_before && negb (shared_after && (E =? S)) in
  let last := negb (shared_before && (S =? E)) && negb shared_after in
  if first || last then Some (if first then S else E, (if last then E else S) + 1) else None.

Lemma freed_spec s A p k B lo hi : shape s (A ++ p :: k :: B) -> is_free p = true -> freed_pages s p k (head B) = Some (lo, hi) -> lo < hi /\ (forall i, lo <= i < hi -> pg s (start k) <= i <= pg s (start k + sizeof_buffer - 1) /\ ~ exists j, j ∈ A ++ p :: B /\ uses s j i) /\
  (forall i, pg s (start k) <= i <= pg s (start k + sizeof_buffer - 1) -> ~ lo <= i < hi -> exists j, j ∈ A ++ p :: B /\ uses s j i).
Proof.
  intros Hs Hfp Hfr. unfold freed_pages in Hfr. assert (HSE : pg s (start k) <= pg s (start k + sizeof_buffer - 1) <= pg s (start k) + 1) by (unfold pg, sizeof_buffer, PAGE_SIZE; lia). assert (Huse := fun i => neighbours_use s A p k B i Hs Hfp). set (S := pg s (start k)) in *. set (E := pg s (start k + sizeof_buffer - 1)) in *. set (P := pg s (start p + sizeof_buffer - 1)) in *.
  assert (Hn : (exists n, head B = Some n /\ pg s (start n) = E) <-> match head B with Some n => pg s (start n) =? E | None => false end = true) by (destruct (head B) as [n|]; split; [intros (n'&[= <-]&He); lia|intros He; exists n; split; [done|lia]|intros (n'&?&_); done|done]). setoid_rewrite Hn in Huse. clear Hn. set (N := match head B with Some n => _ | None => false end) in *. clearbody S E P N.
  destruct (Z.eqb_spec P S), N, (Z.eqb_spec E S), (Z.eqb_spec S E); simpl in Hfr; try done; injection Hfr as <- <-; (split; [lia|]); (split; [intros i Hi; split; [lia|]; rewrite Huse by lia; intros [(H1&H2)|(H1&H2)]; (done || lia)|intros i Hi Hni; rewrite Huse by lia; first [left; lia|right; split; [lia|done]|exfalso; lia]]).
Qed.

Lemma unfreed_spec s A p k B : shape s (A ++ p :: k :: B) -> is_free p = true -> freed_pages s p k (head B) = None -> forall i, pg s (start k) <= i <= pg s (start k + sizeof_buffer - 1) -> exists j, j ∈ A ++ p :: B /\ uses s j i.
Proof.
  intros Hs Hfp Hfr i Hi. unfold freed_pages in Hfr. assert (HSE : pg s (start k) <= pg s (start k + sizeof_buffer - 1) <= pg s (start k) + 1) by (unfold pg, sizeof_buffer, PAGE_SIZE; lia). apply (neighbours_use s A p k B i Hs Hfp Hi).
  assert (Hn : (exists n, head B = Some n /\ pg s (start n) = pg s (start k + sizeof_buffer - 1)) <-> match head B with Some n => pg s (start n) =? pg s (start k + sizeof_buffer - 1) | None => false end = true) by (destruct (head B) as [n|]; split; [intros (n'&[= <-]&He); lia|intros He; exists n; split; [done|lia]|intros (n'&?&_); done|done]). rewrite Hn. clear Hn. set (N := match head B with Some n => _ | None => false end) in *. set (S := pg s (start k)) in *. set (E := pg s (start k + sizeof_buffer - 1)) in *. set (P := pg s (start p + sizeof_buffer - 1)) in *. clearbody S E P N.
  destruct (Z.eqb_spec P S), N, (Z.eqb_spec E S), (Z.eqb_spec S E); simpl in Hfr; try done; first [left; lia|right; split; [lia|done]|destruct (decide (i = S)); [left; lia|right; split; [lia|done]]].
Qed.

(** How the start page of the next header changes the two flags. *)
Lemma next_flags s k B (share : bool) : area s -> (forall n, n ∈ B -> buffer s <= start n < 2 ^ 64) ->
  let S := pg s (start k) in let E := pg s (start k + sizeof_buffer - 1) in
  let fps := negb share in let fpe := negb (share && (S =? E)) in
  match start <$> head B with
  | Some next => if buffer_start_page next =? at_page s E then (if buffer_start_page next =? at_page s S then false else fps, false) else (fps, fpe)
  | None => (fps, fpe)
  end =
  (let shared_after := match head B with Some n => pg s (start n) =? E | None => false end in
   (fps && negb (shared_after && (E =? S)), fpe && negb shared_after)).
Proof.
  intros Ha HB S E fps fpe. destruct B as [|n B]; cbn [head fmap option_fmap option_map]; [by rewrite !andb_true_r|]. rewrite (start_page_at s n Ha) by (apply HB; by left). rewrite !at_page_eqb. destruct (Z.eqb_spec (pg s (start n)) E) as [->|_]; [|by rewrite !andb_true_r]. rewrite andb_false_r. destruct (E =? S); [by rewrite andb_false_r|by rewrite andb_true_r].
Qed.

(** [binder_delete_free_buffer] finds these pages. *)
Lemma delete_run e s A p k B : shape s (A ++ p :: k :: B) -> is_free p = true ->
  binder_delete_free_buffer e s (start k) =
    (let* s := list_del s (start k) in
     match freed_pages s p k (head B) with
     | Some (lo, hi) => let* (s, _) := binder_update_page_range e s false (at_page s lo) (at_page s hi) false in Ok s
     | None => Ok s
     end).
Proof.
  intros Hs0 Hfp. assert (Hs : shape s ((A ++ [p]) ++ k :: B)) by (by rewrite <- app_assoc). pose proof (shape_area _ _ Hs) as Ha. pose proof (area_facts s Ha) as (_&Hb&_&_&_&He). pose proof (shape_good_at s _ p Hs ltac:(set_solver)) as (_&Hp1&Hp2&Hp3). pose proof (shape_good_at s _ k Hs ltac:(set_solver)) as (_&Hk1&Hk2&Hk3). pose proof (shape_at _ _ _ _ Hs) as (_&_&_&HA&HB&_). unfold stop_of in *.
  unfold binder_delete_free_buffer. assert (bool_decide (head (buffers s) = Some (start k)) = false) as -> by (apply bool_decide_eq_false_2; rewrite (shape_list _ _ Hs0); destruct A as [|a A']; simpl; intros [= Heq]; [specialize (HA p ltac:(set_solver))|specialize (HA a ltac:(set_solver))]; lia). cbn [BUG_ON]. rewrite (shape_prev _ _ _ _ Hs), last_snoc. cbn [obind fmap option_fmap option_map]. rewrite (hdr_at _ _ _ _ Hs0). cbn [obind]. unfold is_free in Hfp. rewrite Hfp. cbn [negb BUG_ON]. rewrite (shape_next _ _ _ _ Hs). cbn [obind].
  unfold sizeof_buffer in *. rewrite !(start_page_at s k), !(end_page_at s k), !(end_page_at s p) by (done || unfold sizeof_buffer; lia). rewrite !at_page_eqb. set (share := pg s (start p + sizeof_buffer - 1) =? pg s (start k)). assert (Hsh : share && (pg s (start p + sizeof_buffer - 1) =? pg s (start k + sizeof_buffer - 1)) = share && (pg s (start k) =? pg s (start k + sizeof_buffer - 1))) by (unfold share; by destruct (Z.eqb_spec (pg s (start p + sizeof_buffer - 1)) (pg s (start k))) as [->|_]). rewrite Hsh.
  pose proof (next_flags s k B share Ha) as Hnext. cbv zeta in Hnext. rewrite Hnext by (intros n Hn; specialize (HB n Hn); lia).
  destruct (list_del_shape s A p k B Hs0) as (s'&Hdel&Es'&_). rewrite Hdel. cbn [obind]. assert (freed_pages s' p k (head B) = freed_pages s p k (head B)) as -> by (by rewrite Es'). assert (Hat : forall i, at_page s' i = at_page s i) by (intros i; by rewrite Es'). unfold freed_pages. fold share.
  assert (Hrange : forall i, pg s (start k) <= i <= pg s (start k + sizeof_buffer - 1) -> u64 (at_page s i + PAGE_SIZE) = at_page s (i + 1)) by (intros i Hi; rewrite wrap_small; unfold at_page, pg, sizeof_buffer, PAGE_SIZE in *; lia). assert (HSE : pg s (start k) <= pg s (start k + sizeof_buffer - 1)) by (unfold pg, sizeof_buffer, PAGE_SIZE; lia).
  set (f1 := negb share && _). set (f2 := negb (share && _) && _). destruct f1, f2; cbn [orb]; rewrite ?Hat, ?Hrange by lia; done.
Qed.

Definition in_use (s : binder_proc) (L : list blk) : Prop := forall i, i ∈ pages s <-> exists j, j ∈ L /\ uses s j i.

(** The blocks after the header of [k] is gone are those before, but for [k]. *)
Lemma absorb_elem A p k B j : j ∈ A ++ absorb p k :: B -> exists j0, j0 ∈ A ++ p :: B /\ start j0 = start j.
Proof. intros Hj. apply elem_middle in Hj as [->|Hj]; [exists p|exists j]; (split; [|done]); apply elem_middle; auto. Qed.

Lemma absorb_uses s A p k B i : is_free p = true -> (exists j, j ∈ A ++ absorb p k :: B /\ uses s j i) <-> (exists j, j ∈ A ++ p :: B /\ uses s j i).
Proof.
  intros Hp. assert (Hu : uses s (absorb p k) i <-> uses s p i) by (unfold uses, is_free in *; simpl; rewrite Hp; intuition congruence). split; intros (j&Hj&Hj'); apply elem_middle in Hj as [->|Hj]; [exists p|exists j|exists (absorb p k)|exists j]; (split; [apply elem_middle; auto|tauto]).
Qed.

Section free.
Context {holds : rb_root -> list Z -> Prop} `{!SearchTree holds}.

Lemma delete_spec e s A p k B F F' G : shape s (A ++ p :: k :: B) -> is_free p = true -> is_free k = true -> in_use s (A ++ p :: k :: B) ->
  trees (holds := holds) s (A ++ p :: k :: B) F G -> map node_of F' = map node_of F -> (forall j, j ∈ F' \/ j ∈ G -> j ∈ A ++ absorb p k :: B) -> (forall j, j ∈ F' -> j ∉ G) ->
  exists s', binder_delete_free_buffer e s (start k) = Ok s' /\ shape s' (A ++ absorb p k :: B) /\ in_use s' (A ++ absorb p k :: B) /\ trees (holds := holds) s' (A ++ absorb p k :: B) F' G /\ static s' = static s /\
    forall j, j ∈ A ++ absorb p k :: B -> is_Some (rb_nodes s !! node_of j) -> is_Some (rb_nodes s' !! node_of j).
Proof.
  intros Hs Hp Hk Hpg Ht HF Hsub Hap. rewrite (delete_run e s A p k B Hs Hp). destruct (list_del_shape s A p k B Hs) as (s1&->&E1&Hs1). cbn [obind]. assert (Hfp : freed_pages s1 p k (head B) = freed_pages s p k (head B)) by (by rewrite E1). rewrite Hfp.
  assert (Ht1 : trees (holds := holds) s1 (A ++ absorb p k :: B) F' G) by (eapply trees_relabel; [exact Ht|by rewrite E1|by rewrite E1|done|done|done|done]). assert (Hp1 : pages s1 = pages s) by (by rewrite E1). assert (Hpg1 : forall a, pg s1 a = pg s a) by (intros a; by rewrite E1). assert (Hus : forall j i, uses s1 j i <-> uses s j i) by (intros j i; unfold uses; by rewrite !Hpg1). assert (Hst1 : static s1 = static s) by (by rewrite E1).
  assert (Huk : forall i, uses s k i <-> pg s (start k) <= i <= pg s (start k + sizeof_buffer - 1)) by (intros i; unfold uses; rewrite Hk; intuition congruence). assert (Hsplit : forall i, (exists j, j ∈ A ++ p :: k :: B /\ uses s j i) <-> uses s k i \/ exists j, j ∈ A ++ p :: B /\ uses s j i).
  { intros i. split; [intros (j&Hj&Hu)|intros [Hu|(j&Hj&Hu)]; [exists k|exists j]; rewrite !elem_of_app, !elem_of_cons in *; tauto]. rewrite elem_of_app, !elem_of_cons in Hj. destruct Hj as [Hj|[->|[->|Hj]]]; [right; exists j|right; exists p|by left|right; exists j]; rewrite elem_of_app, elem_of_cons; tauto. }
  destruct (freed_pages s p k (head B)) as [(lo, hi)|] eqn:Efp.
  - destruct (freed_spec s A p k B lo hi Hs Hp Efp) as (Hlt&Hin&Hout). pose proof (shape_good_at s _ k Hs ltac:(apply elem_of_app; right; rewrite !elem_of_cons; tauto)) as (_&Hk1&Hk2&Hk3). pose proof (stop_page s (shape_area _ _ Hs)) as Hsp. pose proof (Hin lo ltac:(lia)) as ((Hlo&_)&_). pose proof (Hin (hi - 1) ltac:(lia)) as ((_&Hhi)&_).
    destruct (free_range_spec e s1 lo hi false (shape_area _ _ Hs1)) as (s2&r&->&K&Hp2); [unfold pg, PAGE_SIZE in *; lia| | |].
    { assert (npages s1 = npages s) as -> by (by rewrite E1). unfold pg, at_page, sizeof_buffer, PAGE_SIZE in *. lia. }
    { intros i Hi. rewrite Hp1. apply Hpg, Hsplit. left. apply Huk. by apply Hin. }
    cbn [obind]. assert (Hno : forall j, j ∈ A ++ absorb p k :: B -> overlaps (start j) sizeof_buffer (at_page s1 lo) (at_page s1 hi) = false).
    { intros j Hj. destruct (overlaps _ _ _ _) eqn:Eo; [|done]. exfalso. apply overlap_page in Eo as (i&Hi&Hji); [|done]. destruct (absorb_elem A p k B j Hj) as (j0&Hj0&Est). apply (proj2 (Hin i Hi)). exists j0. split; [done|]. left. by rewrite Est, <- !Hpg1. }
    pose proof (proj1 K) as R. pose proof R as R'. injection R' as R1 R2 R3 R4 R5 R6 R7 R8 R9. exists s2. split; [done|]. split; [by eapply keeps_shape|]. split; [|split; [by eapply keeps_trees|split; [unfold static in *; by rewrite R1, R2, R6, R8, R9|]]].
    + intros i. rewrite Hp2, Hp1, (Hpg i), Hsplit, Huk. rewrite absorb_uses by done. assert (Hus2 : forall j, uses s2 j i <-> uses s j i) by (intros j; rewrite <- Hus; unfold uses; by rewrite !(rest_pg s1 s2)). setoid_rewrite Hus2. split; [intros ([H|H]&Hn); [by apply Hout|done]|]. intros H. split; [by right|]. intros Hi. by apply (proj2 (Hin i Hi)).
    + intros j Hj (n&Hn). exists n. apply K; [by rewrite E1|]. specialize (Hno j Hj). unfold overlaps, node_of, rb_offset, sizeof_buffer, sizeof_node in *. lia.
  - exists s1. split; [done|]. split; [done|]. split; [|split; [done|split; [done|intros j _; by rewrite E1]]]. intros i. rewrite Hp1, (Hpg i), Hsplit, Huk. rewrite absorb_uses by done. setoid_rewrite Hus. split; [intros [H|H]; [by apply (unfreed_spec s A p k B)|done]|by right].
Qed.

(** ** Merging *)

(** A free block [k] that is in none of the trees, between [A] and [B]. *)
Record loose (s : binder_proc) (A : list blk) (k : blk) (B F : list blk) : Prop := {
  loose_shape : shape s (A ++ k :: B);
  loose_free : is_free k = true;
  loose_pages : in_use s (A ++ k :: B);
  loose_trees : trees (holds := holds) s (A ++ k :: B) F (busys A ++ busys B);
  loose_perm : F ≡ₚ idles A ++ idles B;
  loose_sorted : ascending bsize F;
  loose_node : is_Some (rb_nodes s !! node_of k)
}.

Lemma perm_elem F A B : F ≡ₚ idles A ++ idles B -> forall j, j ∈ F -> is_free j = true /\ j ∈ A ++ B.
Proof. intros Hp j Hj. rewrite Hp, elem_of_app, !elem_idles in Hj. rewrite elem_of_app. tauto. Qed.

Lemma busys_elem A B j : j ∈ busys A ++ busys B -> is_free j = false /\ j ∈ A ++ B.
Proof. intros Hj. rewrite elem_of_app, !elem_busys in Hj. rewrite elem_of_app. tauto. Qed.

Lemma shape_alone s A k B : shape s (A ++ k :: B) -> k ∉ A ++ B.
Proof. intros Hs Hin. destruct (shape_at _ _ _ _ Hs) as (_&_&Hg&HA&HB&_). pose proof (good_len k Hg) as Hlen. unfold sizeof_buffer in Hlen. apply elem_of_app in Hin as [Hin|Hin]; [specialize (HA k Hin)|specialize (HB k Hin)]; lia. Qed.

(** The node of a block that leaves the free tree. *)
Lemma erase_free_step s A p B F G : shape s (A ++ p :: B) -> trees (holds := holds) s (A ++ p :: B) F G -> p ∈ F -> ascending bsize F ->
  exists t F1 F2, F = F1 ++ p :: F2 /\ rb_erase (free_tree s) (node_of p) = Ok t /\ trees (holds := holds) (with_free_tree t s) (A ++ p :: B) (F1 ++ F2) G /\ ascending bsize (F1 ++ F2) /\
    forall j, j ∈ A ++ p :: B -> is_Some (rb_nodes s !! node_of j) -> is_Some (nodes t !! node_of j).
Proof.
  intros Hs Ht Hin Hasc. apply list_elem_of_split in Hin as (F1&F2&->). destruct (erase_free_spec s _ F1 p F2 G Hs Ht) as (t&Her&Ht'&Hfr). exists t, F1, F2. split; [done|]. split; [done|]. split; [done|]. split; [by eapply ascending_remove|]. intros j Hj Hn. destruct (decide (node_of j ∈ map node_of (F1 ++ F2))) as [Hd|Hd]; [exact (st_node (holds := holds) _ _ _ (trees_free _ _ _ _ Ht') Hd)|by rewrite Hfr].
Qed.

Definition grow_right (k : blk) (B : list blk) : blk * list blk :=
  match B with n :: B' => if is_free n then (absorb k n, B') else (k, B) | [] => (k, []) end.

Definition grow_left (A : list blk) (k : blk) : list blk * blk :=
  match list.last A with Some p => if is_free p then (removelast A, absorb p k) else (A, k) | None => (A, k) end.

Lemma merge_next_spec e s A k B F : loose s A k B F -> exists s' F', merge_next e s (start k) = Ok s' /\ loose s' A (grow_right k B).1 (grow_right k B).2 F' /\ static s' = static s.
Proof.
  intros Hl. pose proof Hl as [Hs Hk Hpg Ht Hperm Hasc Hnode]. unfold merge_next. rewrite (shape_next _ _ _ _ Hs). cbn [obind]. destruct B as [|n B]; cbn [head fmap option_fmap option_map]; [by exists s, F|].
  rewrite (hdr_in s _ n Hs) by (apply elem_of_app; right; rewrite !elem_of_cons; tauto). cbn [obind grow_right]. change (free (info n)) with (is_free n). destruct (is_free n) eqn:En; [|by exists s, F]. rewrite idles_cons, En in Hperm. rewrite busys_cons, En in Ht. assert (Hs' : shape s ((A ++ [k]) ++ n :: B)) by (by rewrite <- app_assoc).
  destruct (erase_free_step s (A ++ [k]) n B F (busys A ++ busys B)) as (t&F1&F2&->&Her&Ht1&Hasc1&Hfr); [done|by rewrite <- app_assoc|rewrite Hperm; rewrite elem_of_app, elem_of_cons; tauto|done|]. change (start n + rb_offset) with (node_of n). rewrite Her. cbn [obind]. rewrite <- app_assoc in Ht1, Hfr.
  assert (Hperm1 : F1 ++ F2 ≡ₚ idles A ++ idles B) by (apply (Permutation_cons_inv (a := n)); by rewrite !Permutation_middle). pose proof (shape_alone _ _ _ _ Hs) as Hal. rewrite elem_of_app, elem_of_cons in Hal.
  destruct (delete_spec e (with_free_tree t s) A k n B (F1 ++ F2) (F1 ++ F2) (busys A ++ busys B)) as (s2&Hdel&Hs2&Hpg2&Ht2&Hst&Hn2); [by apply shape_free_tree|done|done|exact Hpg|done|done| | |].
  - intros j Hj. assert (Hj' : j ∈ A ++ B) by (destruct Hj as [Hj|Hj]; [by apply (perm_elem _ _ _ Hperm1)|by apply busys_elem]). apply elem_middle. by right.
  - intros j Hj Hj2. apply (perm_elem _ _ _ Hperm1) in Hj as (Hj&_). apply busys_elem in Hj2 as (Hj2&_). congruence.
  - exists s2, (F1 ++ F2). split; [done|]. split; [|done]. split; [done|done|done|done|done|done|]. apply Hn2; [apply elem_middle; by left|]. apply (Hfr k); [apply elem_middle; by left|done].
Qed.

Lemma merge_prev_spec e s A k B F : loose s A k B F -> exists s' F', merge_prev e s (start k) = Ok (s', start (grow_left A k).2) /\ loose s' (grow_left A k).1 (grow_left A k).2 B F' /\ static s' = static s.
Proof.
  intros Hl. pose proof Hl as [Hs Hk Hpg Ht Hperm Hasc Hnode]. unfold merge_prev. destruct A as [|p A _] using rev_ind; [exists s, F; rewrite (shape_list _ _ Hs); cbn [map head app]; by rewrite bool_decide_eq_true_2|].
  assert (bool_decide (head (buffers s) = Some (start k)) = false) as ->.
  { apply bool_decide_eq_false_2. rewrite (shape_list _ _ Hs). pose proof (shape_not_before _ _ _ _ Hs) as Hnb. destruct A; simpl in *; set_solver. }
  rewrite (shape_prev _ _ _ _ Hs), last_snoc. cbn [obind fmap option_fmap option_map]. rewrite (hdr_in s _ p Hs) by (rewrite !elem_of_app, elem_of_cons; tauto). cbn [obind]. unfold grow_left. rewrite last_snoc, removelast_last. change (free (info p)) with (is_free p). destruct (is_free p) eqn:Ep; [|by exists s, F].
  assert (Hperm0 : F ≡ₚ p :: idles A ++ idles B) by (rewrite Hperm, idles_app, idles_cons, Ep, <- app_assoc; simpl; by rewrite <- Permutation_middle). assert (HG : busys (A ++ [p]) ++ busys B = busys A ++ busys B) by (rewrite busys_app, busys_cons, Ep; by rewrite app_nil_r). rewrite HG in Ht. rewrite <- app_assoc in Hs, Hpg, Ht. simpl in Hs, Hpg, Ht.
  assert (HinF : p ∈ F) by (rewrite Hperm0; by left). pose proof (list_elem_of_split _ _ HinF) as (F1&F2&EF). assert (Hperm1 : F1 ++ F2 ≡ₚ idles A ++ idles B) by (apply (Permutation_cons_inv (a := p)); by rewrite <- Hperm0, EF, Permutation_middle).
  destruct (delete_spec e s A p k B F (F1 ++ absorb p k :: F2) (busys A ++ busys B)) as (s1&->&Hs1&Hpg1&Ht1&Hst&_); [done|done|done|done|done|by rewrite EF, !map_node_app| | |].
  { intros j Hj. apply elem_middle. destruct Hj as [Hj|Hj]; [apply elem_middle in Hj as [->|Hj]; [by left|right; by apply (perm_elem _ _ _ Hperm1)]|right; by apply busys_elem]. }
  { intros j Hj Hj2. apply busys_elem in Hj2 as (Hj2&_). apply elem_middle in Hj as [->|Hj]; [unfold is_free in *; simpl in Hj2; congruence|apply (perm_elem _ _ _ Hperm1) in Hj as (Hj&_); congruence]. }
  cbn [obind]. destruct (erase_free_spec s1 _ F1 (absorb p k) F2 _ Hs1 Ht1) as (t&Her&Ht2&Hfr). change (start p + rb_offset) with (node_of (absorb p k)). rewrite Her. cbn [obind]. exists (with_free_tree t s1), (F1 ++ F2). split; [done|]. split; [|done]. split; [by apply shape_free_tree|done|exact Hpg1|done|done|by eapply ascending_remove; rewrite <- EF|].
  cbn [rb_nodes with_free_tree]. rewrite Hfr; [apply (st_node (holds := holds) _ _ _ (trees_free _ _ _ _ Ht1)); rewrite map_node_app, elem_of_app, elem_of_cons; tauto|]. apply (not_in_nodes s1 (A ++ absorb p k :: B)); [done|apply elem_middle; by left| |intros Hj; apply (perm_elem _ _ _ Hperm1) in Hj as (_&Hj); by apply (shape_alone _ _ _ _ Hs1)]. intros j Hj. apply elem_middle. right. by apply (perm_elem _ _ _ Hperm1).
Qed.

(** ** Freeing *)

Definition idle (k : blk) : blk := upd (set_free true) k.

(** The pages after those inside [k] are gone. *)
Lemma vacate_pages s s' A k B : shape s (A ++ k :: B) -> is_free k = false -> in_use s (A ++ k :: B) -> buffer s' = buffer s -> (forall i, i ∈ pages s' <-> i ∈ pages s /\ ~ pg s (start k + sizeof_buffer + 4095) <= i < pg s (stop k)) -> in_use s' (A ++ idle k :: B).
Proof.
  intros Hs Hk Hpg Hb Hp i. assert (Hu : forall j, uses s' j i <-> uses s j i) by (intros j; unfold uses, pg; by rewrite Hb). setoid_rewrite Hu. rewrite Hp, (Hpg i). assert (Huk : uses s (idle k) i <-> pg s (start k) <= i <= pg s (start k + sizeof_buffer - 1)) by (unfold uses, is_free; simpl; intuition congruence). split.
  - intros ((j&Hj&Hj')&Hn). apply elem_middle in Hj as [->|Hj]; [exists (idle k)|exists j]; (split; [apply elem_middle; auto|]); [|done]. apply Huk. destruct Hj' as [H|(_&H)]; [done|tauto].
  - intros (j&Hj&Hj'). apply elem_middle in Hj as [->|Hj].
    + apply Huk in Hj'. split; [exists k; split; [apply elem_middle; by left|by left]|]. unfold pg, sizeof_buffer, PAGE_SIZE in *. lia.
    + split; [exists j; split; [apply elem_middle; by right|done]|]. intros Hi. by apply (outside_unused s A k B i Hs Hi j Hj).
Qed.

(** The first half of [binder_free_buf]: the block becomes free, and is in no tree. *)
Lemma vacate_spec e s A k B F : shape s (A ++ k :: B) -> in_use s (A ++ k :: B) -> F ≡ₚ idles (A ++ k :: B) -> ascending bsize F -> trees (holds := holds) s (A ++ k :: B) F (busys (A ++ k :: B)) -> is_free k = false ->
  exists s1, (let* (s, _) := binder_update_page_range e s false (PAGE_ALIGN (start k + sizeof_buffer)) (Z.land (u64 (start k + sizeof_buffer + bsize k)) PAGE_MASK) false in
    let* t := rb_erase (allocated_tree s) (start k + rb_offset) in set_hdr (with_allocated_tree t s) (start k) (set_free true)) = Ok s1 /\ loose s1 A (idle k) B F /\ static s1 = static s.
Proof.
  intros Hs Hpg Hperm Hasc Ht Hk. pose proof (shape_at _ _ _ _ Hs) as (_&_&Hg&_&_&Hlo&Hhi). pose proof (good_len k Hg) as Hlen. pose proof (area_facts s (shape_area _ _ Hs)) as (_&Hb&_&_&_&He). unfold stop_of, sizeof_buffer in *.
  rewrite (align_page s (shape_area _ _ Hs)) by lia. unfold bsize, sizeof_buffer. replace (start k + 80 + (stop k - start k - 80)) with (stop k) by lia. rewrite wrap_small by lia. rewrite (mask_page s (shape_area _ _ Hs)) by lia.
  destruct (free_range_spec e s (pg s (start k + 80 + 4095)) (pg s (stop k)) false (shape_area _ _ Hs)) as (s1&r&->&K&Hp1); [unfold pg, PAGE_SIZE; lia|unfold npages, pg, PAGE_SIZE; lia|intros i Hi; apply Hpg; exists k; split; [apply elem_middle; by left|]; right; done|]. cbn [obind].
  assert (Hno : forall j, j ∈ A ++ k :: B -> overlaps (start j) sizeof_buffer (at_page s (pg s (start k + 80 + 4095))) (at_page s (pg s (stop k))) = false) by (apply (header_outside s A k B); [done|unfold at_page, pg, sizeof_buffer, PAGE_SIZE; lia..]).
  pose proof (keeps_shape _ _ _ _ _ Hs K Hno) as Hs1. pose proof (keeps_trees _ _ _ _ _ _ _ Hs Ht K Hno) as Ht1. pose proof (proj1 K) as R. injection R as R1 R2 R3 R4 R5 R6 R7 R8 R9. rewrite busys_app, busys_cons, Hk in Ht1. rewrite idles_app, idles_cons, Hk in Hperm. pose proof (trees_nodup s1 _ _ _ Hs1 Ht1) as (_&Hnd).
  destruct (erase_allocated_spec s1 _ F (busys A) k (busys B) Hs1 Ht1) as (t&Her&Ht2&Hfr). change (start k + rb_offset) with (node_of k). rewrite Her. cbn [obind]. destruct (set_hdr_shape (with_allocated_tree t s1) A k B (set_free true) (shape_allocated_tree _ _ _ Hs1)) as (Hset&Hs3). rewrite Hset. eexists. split; [done|]. split; [|unfold static; simpl; congruence]. split; [done|done|by apply (vacate_pages s)| |done|done|].
  - eapply trees_relabel; [exact Ht2|done|done|done|done| |].
    + intros j [Hj|Hj]; apply elem_middle; right; [by apply (perm_elem _ _ _ Hperm)|by apply busys_elem].
    + intros j Hj Hj2. apply (perm_elem _ _ _ Hperm) in Hj as (Hj&_). apply busys_elem in Hj2 as (Hj2&_). congruence.
  - cbn [rb_nodes with_headers with_allocated_tree]. change (node_of (idle k)) with (node_of k). rewrite Hfr; [apply (st_node (holds := holds) _ _ _ (trees_allocated _ _ _ _ Ht1)); rewrite map_node_app, elem_of_app, elem_of_cons; tauto|]. apply (not_in_nodes s1 (A ++ k :: B)); [done|apply elem_middle; by left|intros j Hj; apply elem_middle; right; by apply busys_elem|]. intros Hj. apply busys_elem in Hj as (_&Hj). by apply (shape_alone _ _ _ _ Hs1).
Qed.

(** The blocks after [k] is freed: it is one with the free blocks next to it. *)
Definition settle (A : list blk) (k : blk) (B : list blk) : list blk :=
  let '(k1, B1) := grow_right (idle k) B in
  let '(A1, k2) := grow_left A k1 in
  A1 ++ k2 :: B1.

Lemma grow_right_facts k B : is_free k = true -> spaced B -> is_free (grow_right k B).1 = true /\ busys (grow_right k B).2 = busys B /\ spaced ((grow_right k B).1 :: (grow_right k B).2).
Proof.
  intros Hk Hsp. unfold grow_right. destruct B as [|n B]; [simpl; rewrite Hk; done|]. destruct Hsp as (H1&H2). destruct (is_free n) eqn:En; simpl.
  - rewrite busys_cons, En. unfold is_free in *. simpl. by rewrite Hk.
  - rewrite Hk, En. done.
Qed.

Lemma grow_left_facts A k : is_free k = true -> spaced A -> is_free (grow_left A k).2 = true /\ busys (grow_left A k).1 = busys A /\ spaced (grow_left A k).1 /\ ofree (list.last (grow_left A k).1) = false.
Proof.
  intros Hk Hsp. unfold grow_left. destruct A as [|p A _] using rev_ind; [done|]. rewrite last_snoc, removelast_last. apply spaced_app in Hsp as (H1&H2&H3). cbn [head ofree] in H3. destruct (is_free p) eqn:Ep; simpl.
  - rewrite busys_app, busys_cons, Ep, app_nil_r. rewrite andb_true_r in H3. done.
  - rewrite last_snoc. split; [done|]. split; [done|]. split; [|done]. apply spaced_app. split; [done|]. split; [done|]. simpl. by rewrite Ep, andb_false_r.
Qed.

Lemma async_busys L : async_total L = async_total (busys L).
Proof. induction L as [|k L IH]; [done|]. rewrite busys_cons. cbn [async_total]. destruct (is_free k) eqn:E; cbn [async_total]; [|lia]. unfold async_cost. rewrite E. cbn [negb andb]. lia. Qed.

Lemma settle_facts A k B : spaced (A ++ k :: B) -> busys (settle A k B) = busys A ++ busys B /\ spaced (settle A k B).
Proof.
  intros Hsp. apply spaced_app in Hsp as (H1&(_&H2)&_). destruct (grow_right_facts (idle k) B eq_refl H2) as (G1&G2&G3). unfold settle. destruct (grow_right (idle k) B) as (k1&B1). simpl in *. destruct (grow_left_facts A k1 G1 H1) as (G4&G5&G6&G7). destruct (grow_left A k1) as (A1&k2) eqn:El. simpl in *. split; [by rewrite busys_app, busys_cons, G4, G5, G2|]. apply spaced_app. split; [done|]. rewrite G7. split; [|done]. simpl. rewrite G4. rewrite G1 in G3. done.
Qed.

(** The last step puts the block into the free tree. *)
Lemma insert_loose s A k B F : loose s A k B F -> exists s' F', binder_insert_free_buffer s (start k) = Ok s' /\ static s' = static s /\ shape s' (A ++ k :: B) /\ in_use s' (A ++ k :: B) /\ F' ≡ₚ idles (A ++ k :: B) /\ ascending bsize F' /\ trees (holds := holds) s' (A ++ k :: B) F' (busys (A ++ k :: B)).
Proof.
  intros [Hs Hk Hpg Ht Hperm Hasc (n&Hn)]. pose proof (shape_alone _ _ _ _ Hs) as Hal. destruct (insert_free_spec s (A ++ k :: B) F (busys A ++ busys B) k n) as (t&F1&F2&->&EF&Hasc'&Ht'); [done|done|done|intros j Hj; by apply (perm_elem _ _ _ Hperm)|apply elem_middle; by left|done|intros Hj; by apply (perm_elem _ _ _ Hperm) in Hj as (_&Hj)|intros Hj; by apply busys_elem in Hj as (_&Hj)|done|].
  exists (with_free_tree t s), (F1 ++ k :: F2). split; [done|]. split; [done|]. split; [by apply shape_free_tree|]. split; [exact Hpg|]. rewrite idles_app, idles_cons, busys_app, busys_cons, Hk. split; [|done]. by rewrite <- !Permutation_middle, <- Hperm, EF.
Qed.

(** [binder_free_buf] frees every allocated buffer that no transaction uses. *)
Lemma free_spec e s A k B : inv (holds := holds) s (A ++ k :: B) -> is_free k = false -> transaction (info k) = 0 ->
  exists s', binder_free_buf e s (start k) = Ok s' /\ inv (holds := holds) s' (settle A k B) /\ constants s' = constants s /\ free_async_space s' = free_async_space s + async_cost k.
Proof.
  intros Hinv Hk Htr. pose proof Hinv as [Hs (F&Hperm&Hasc&Ht) Hpay Hsp Hpg (Hsp0&Hspace)]. pose proof (shape_at _ _ _ _ Hs) as (_&_&_&_&_&Hlo&Hhi). pose proof (shape_good_at s _ k Hs ltac:(apply elem_middle; by left)) as (_&_&Hlen&_). pose proof (area_facts s (shape_area _ _ Hs)) as (_&Hb&_&Hbs&_&He). unfold stop_of in *. specialize (Hpay k ltac:(apply elem_middle; by left) Hk) as Hpk. pose proof (payload_nonneg (info k)) as Hp0.
  assert (Hcost : async_cost k + (async_total A + async_total B) = async_total (A ++ k :: B)) by (rewrite async_total_app; cbn [async_total]; lia). pose proof (async_total_nonneg A). pose proof (async_total_nonneg B). pose proof (async_cost_nonneg k). unfold bsize, sizeof_buffer in *.
  unfold binder_free_buf. rewrite (buffer_size_at _ _ _ _ Hs), (hdr_at _ _ _ _ Hs). cbn [obind]. change (u64 (ALIGN (data_size (info k)) 8 + ALIGN (offsets_size (info k)) 8)) with (payload (info k)). change (free (info k)) with (is_free k). rewrite Hk, Htr. unfold bsize, sizeof_buffer. replace (stop k - start k - 80 <? payload (info k)) with false by lia. replace (start k <? buffer s) with false by lia. rewrite (wrap_small 64 (buffer s + buffer_size s)) by lia. replace (buffer s + buffer_size s <? start k) with false by lia. cbn [BUG_ON negb Z.eqb].
  set (s0 := if async_transaction (info k) then _ else s). assert (E0 : s0 = with_space (free_async_space s + async_cost k) s).
  { unfold s0, async_cost, sizeof_buffer in *. rewrite Hk in *. cbn [negb andb] in *. destruct (async_transaction (info k)); [|destruct s; simpl; by rewrite Z.add_0_r]. rewrite (wrap_small 64 (payload (info k) + 80)) by lia. by rewrite wrap_small by lia. }
  assert (Hs0 : shape s0 (A ++ k :: B)) by (rewrite E0; destruct Hs as [[] ? ? ? ?]; by split). assert (Ht0 : trees (holds := holds) s0 (A ++ k :: B) F (busys (A ++ k :: B))) by (rewrite E0; destruct Ht; by split).
  destruct (vacate_spec e s0 A k B F Hs0) as (s1&Hrun1&Hl1&Hst1); [by rewrite E0|done|done|done|done|]. unfold bsize, sizeof_buffer in Hrun1.
  destruct (merge_next_spec e s1 A (idle k) B F Hl1) as (s2&F2&Hrun2&Hl2&Hst2). destruct (merge_prev_spec e s2 A _ _ F2 Hl2) as (s3&F3&Hrun3&Hl3&Hst3). destruct (insert_loose s3 _ _ _ F3 Hl3) as (s4&F4&Hrun4&Hst4&Hs4&Hpg4&Hp4&Ha4&Ht4). destruct (settle_facts A k B Hsp) as (Hbu&Hspd). change (start (idle k)) with (start k) in Hrun2. assert (Hst0 : start (grow_right (idle k) B).1 = start k) by (unfold grow_right; destruct B as [|n B']; [done|]; by destruct (is_free n)). rewrite Hst0 in Hrun3.
  assert (Hset : (grow_left A (grow_right (idle k) B).1).1 ++ (grow_left A (grow_right (idle k) B).1).2 :: (grow_right (idle k) B).2 = settle A k B) by (unfold settle; destruct (grow_right (idle k) B) as (k1&B1); simpl; by destruct (grow_left A k1)). rewrite Hset in *.
  exists s4. split; [|split].
  - unfold obind in *. destruct (binder_update_page_range e s0 false _ _ false) as [(s5&r)| |]; try done. destruct (rb_erase (allocated_tree s5) (start k + rb_offset)); try done. rewrite Hrun1, Hrun2, Hrun3. exact Hrun4.
  - assert (Hst : static s4 = static s0) by congruence. rewrite E0 in Hst. injection Hst as X1 X2 X3 X4 X5. split; [done|by exists F4| |done|done|].
    + intros j Hj Hjb. assert (Hj' : j ∈ busys (settle A k B)) by (by apply elem_busys). rewrite Hbu in Hj'. apply busys_elem in Hj' as (_&Hj'). apply Hpay; [by apply elem_middle; right|done].
    + rewrite (async_busys (settle A k B)), Hbu, async_total_app, <- !async_busys, X3, X5. simpl. lia.
  - assert (Hst : static s4 = static s0) by congruence. rewrite E0 in Hst. injection Hst as X1 X2 X3 X4 X5. unfold constants. split; [congruence|done].
Qed.

End free.
