(* ===== verification/BinderUse.v ===== *)
(** * BinderUse: looking up, mapping and releasing buffers *)

From stdpp Require Import gmap.
From S2P Require Import Prelude Rbtree RbtreeFacts RbtreeWalk RbtreeSpec Binder BinderFacts BinderLayout BinderTree BinderInv BinderAlloc BinderFree.

Section use.
Context {holds : rb_root -> list Z -> Prop} `{!SearchTree holds}.

(** ** Changes of a header *)

(** The fields that matter to the allocator. *)
Definition same_buffer (h h' : binder_buffer) : Prop := free h' = free h /\ async_transaction h' = async_transaction h /\ data_size h' = data_size h /\ offsets_size h' = offsets_size h.

Lemma same_cost k f : same_buffer (info k) (f (info k)) -> is_free (upd f k) = is_free k /\ payload (info (upd f k)) = payload (info k) /\ async_cost (upd f k) = async_cost k.
Proof. intros (H1&H2&H3&H4). unfold async_cost, is_free, payload, upd. simpl. by rewrite H1, H2, H3, H4. Qed.

Lemma inv_upd s A k B f : inv (holds := holds) s (A ++ k :: B) -> is_free k = false -> same_buffer (info k) (f (info k)) -> exists s', set_hdr s (start k) f = Ok s' /\ inv (holds := holds) s' (A ++ upd f k :: B) /\ constants s' = constants s /\ free_async_space s' = free_async_space s.
Proof.
  intros [Hs (F&Hp&Hasc&Ht) Hpay Hsp Hpg Hspace] Hk Hf. destruct (same_cost k f Hf) as (Ef&Ep&Ec). destruct (set_hdr_shape s A k B f Hs) as (Hset&Hs'). eexists. split; [exact Hset|]. split; [|done]. pose proof (shape_alone _ _ _ _ Hs) as Hal.
  assert (HF : idles (A ++ upd f k :: B) = idles (A ++ k :: B)) by (by rewrite !idles_app, !idles_cons, Ef, Hk). assert (HG : map node_of (busys (A ++ upd f k :: B)) = map node_of (busys (A ++ k :: B))) by (by rewrite !busys_app, !busys_cons, Ef, Hk, !map_node_app). split; [done| | | | |].
  - exists F. split; [by rewrite HF|]. split; [done|]. eapply trees_relabel; [exact Ht|done|done|done|done| |].
    + intros j [Hj|Hj]; [rewrite Hp, <- HF, elem_idles in Hj|rewrite elem_busys in Hj]; tauto.
    + intros j Hj Hj2. rewrite Hp, elem_idles in Hj. rewrite elem_busys in Hj2. destruct Hj, Hj2. congruence.
  - intros j Hj Hjb. apply elem_middle in Hj as [->|Hj]; [rewrite Ep; apply (Hpay k); [apply elem_middle; by left|done]|apply Hpay; [apply elem_middle; by right|done]].
  - apply spaced_app in Hsp as (H1&H2&H3). apply spaced_app. simpl in *. by rewrite Ef.
  - intros i. split; [intros Hi; apply Hpg in Hi as (j&Hj&Hu)|intros (j&Hj&Hu); apply Hpg]; (apply elem_middle in Hj as [->|Hj]; [|exists j; split; [apply elem_middle; by right|done]]); [exists (upd f k)|exists k]; (split; [apply elem_middle; by left|]); unfold uses in *; rewrite Ef in *; done.
  - rewrite !async_total_app in *. cbn [async_total free_async_space buffer_size with_headers] in *. lia.
Qed.

(** The vma and the like do not matter. *)
Lemma inv_close s L : inv (holds := holds) s L -> inv (holds := holds) (binder_vma_close s) L.
Proof. intros [[[] ? ? ? ?] (F&Hp&Hasc&[]) ? ? ? ?]. split; [by split|exists F; split; [done|]; split; [done|]; by split|done|done|done|done]. Qed.

(** Every byte of an allocated buffer is on a page that is mapped. *)
Lemma inv_mapped s L k a : inv (holds := holds) s L -> k ∈ busys L -> start k <= a < stop k -> pg s a ∈ pages s.
Proof.
  intros [Hs _ _ _ Hpg _] Hk Ha. apply elem_busys in Hk as (Hk&Hin). apply list_elem_of_split in Hin as (A&B&->). pose proof (shape_at _ _ _ _ Hs) as (_&HtB&Hg&_&HB&Hlo&Hhi). pose proof (good_len k Hg) as Hlen. apply Hpg. destruct (decide (pg s a < pg s (stop k))) as [Hlt|Hge].
  - exists k. split; [apply elem_middle; by left|]. unfold uses. destruct (decide (pg s a <= pg s (start k + sizeof_buffer - 1))); [left; unfold pg, PAGE_SIZE in *; lia|right]. split; [done|]. unfold pg, sizeof_buffer, PAGE_SIZE in *. lia.
  - destruct B as [|n B']; simpl in HtB.
    + pose proof (stop_page s (shape_area _ _ Hs)) as Hst. rewrite <- HtB in Hst. exfalso. apply Hge. rewrite Hst, pg_at_page. unfold at_page in Hst. unfold pg, PAGE_SIZE in *. lia.
    + destruct HtB as (Hn&_). exists n. split; [rewrite elem_of_app, !elem_of_cons; tauto|]. left. rewrite Hn. unfold pg, sizeof_buffer, PAGE_SIZE in *. lia.
Qed.

(** ** Lookup *)

(** The address of the data in the memory of the process. *)
Definition user_address (s : binder_proc) (k : blk) : Z := u64 (start k + sizeof_buffer + user_buffer_offset s).

Lemma user_address_kernel s k p : 0 <= p < 2 ^ 64 -> 0 <= start k < 2 ^ 64 -> u64 (p - user_buffer_offset s - sizeof_buffer) = start k <-> p = user_address s k.
Proof. intros Hp Hk. unfold user_address, wrap, sizeof_buffer. lia. Qed.

Lemma busys_sorted s L : shape s L -> ascending start (busys L).
Proof.
  intros [_ Ht Hg _ _]. revert Ht Hg. generalize (buffer s). induction L as [|k L IH]; intros a Ht Hg; [constructor|]. destruct Ht as (<-&Ht). apply list.Forall_cons in Hg as (Hk&Hg). rewrite busys_cons. destruct (is_free k); [by eapply IH|]. constructor; [by eapply IH|]. apply list.Forall_forall. intros j Hj. apply elem_busys in Hj as (_&Hj). destruct (tiles_le _ _ _ Ht Hg) as (_&Hle). specialize (Hle j Hj). pose proof (good_len k Hk) as Hlen. unfold sizeof_buffer in Hlen. lia.
Qed.

Lemma lookup_spec s L p : inv (holds := holds) s L -> 0 <= p < 2 ^ 64 -> exists s' r, binder_buffer_lookup s p = Ok (s', r) /\
  (s' = s /\ r = Not_found /\ (forall k, k ∈ busys L -> user_address s k <> p) \/
   exists A k B, L = A ++ k :: B /\ is_free k = false /\ user_address s k = p /\
     (allow_user_free (info k) = false /\ s' = s /\ r = Not_permitted \/
      allow_user_free (info k) = true /\ r = Found (start k) /\ inv (holds := holds) s' (A ++ upd (set_allow false) k :: B) /\ constants s' = constants s /\ free_async_space s' = free_async_space s)).
Proof.
  intros Hinv Hp. pose proof Hinv as [Hs (F&HF&Hasc&Ht) _ _ _ _]. pose proof (area_facts s (shape_area _ _ Hs)) as (_&Hb&_&_&_&He). assert (Hin : forall k, k ∈ busys L -> is_free k = false /\ k ∈ L /\ 0 <= start k < 2 ^ 64) by (intros k Hk; apply elem_busys in Hk as (?&Hk); destruct (shape_good_at s L k Hs Hk) as (_&H1&H2&H3); unfold stop_of, sizeof_buffer in *; repeat split; (done || lia)).
  unfold binder_buffer_lookup. destruct (lookup_search_spec s L F (busys L) (u64 (p - user_buffer_offset s - sizeof_buffer)) Hs Ht (busys_sorted s L Hs)) as [(->&Hno)|(k&Hk&Ek&->)]; [intros j Hj; by apply Hin| |]; cbn [obind].
  - exists s, Not_found. split; [done|]. left. split; [done|]. split; [done|]. intros k Hk Eu. destruct (Hin k Hk) as (_&_&Hr). apply (Hno k Hk). symmetry. by apply user_address_kernel.
  - destruct (Hin k Hk) as (Hfree&HkL&Hr). symmetry in Ek. apply user_address_kernel in Ek; [|done|done]. pose proof (node_valid s L k Hs HkL) as (Hv&_). replace (node_of k =? 0) with false by lia. rewrite node_start, (hdr_in s L k Hs HkL). cbn [obind]. apply list_elem_of_split in HkL as (A&B&->). destruct (allow_user_free (info k)) eqn:Ea; cbn [negb].
    + destruct (inv_upd s A k B (set_allow false) Hinv Hfree ltac:(done)) as (s'&->&Hinv'&Hc&Hsp). cbn [obind]. exists s', (Found (start k)). split; [done|]. right. exists A, k, B. split; [done|]. split; [done|]. split; [done|]. right. done.
    + exists s, Not_permitted. split; [done|]. right. exists A, k, B. split; [done|]. split; [done|]. split; [done|]. by left.
Qed.

(** ** Freeing on behalf of user space and of transactions *)

(** The transaction of a buffer is over, and the buffer is freed. *)
Lemma buffer_end_spec e s A k B : inv (holds := holds) s (A ++ k :: B) -> is_free k = false -> exists s', transaction_failed e s (start k) = Ok s' /\ inv (holds := holds) s' (settle A (upd (set_transaction 0) k) B) /\ constants s' = constants s /\ free_async_space s' = free_async_space s + async_cost k.
Proof.
  intros Hinv Hk. unfold transaction_failed. destruct (inv_upd s A k B (set_transaction 0) Hinv Hk ltac:(done)) as (s1&->&Hinv1&Hc1&Hsp1). cbn [obind]. destruct (free_spec e s1 A (upd (set_transaction 0) k) B Hinv1 Hk eq_refl) as (s2&Hrun&Hinv2&Hc2&Hsp2). change (start (upd (set_transaction 0) k)) with (start k) in Hrun. rewrite Hrun. exists s2. split; [done|]. split; [done|]. split; [congruence|]. rewrite Hsp2, Hsp1. f_equal.
Qed.

Lemma bc_free_spec e s L p : inv (holds := holds) s L -> 0 <= p < 2 ^ 64 -> exists s' r, bc_free_buffer e s p = Ok (s', r) /\
  (r = false /\ s' = s /\ (forall k, k ∈ busys L -> user_address s k = p -> allow_user_free (info k) = false) \/
   r = true /\ exists A k B, L = A ++ k :: B /\ is_free k = false /\ user_address s k = p /\ allow_user_free (info k) = true /\
     inv (holds := holds) s' (settle A (upd (fun h => set_transaction 0 (set_allow false h)) k) B) /\ constants s' = constants s /\ free_async_space s' = free_async_space s + async_cost k).
Proof.
  intros Hinv Hp. pose proof (inv_shape _ _ Hinv) as Hs. unfold bc_free_buffer. destruct (lookup_spec s L p Hinv Hp) as (s1&r&->&[(->&->&Hno)|(A&k&B&->&Hk&Hu&[(Ha&->&->)|(Ha&->&Hinv1&Hc1&Hsp1)])]); cbn [obind].
  - exists s, false. split; [done|]. left. split; [done|]. split; [done|]. intros k Hk Hu. by destruct (Hno k Hk).
  - exists s, false. split; [done|]. left. split; [done|]. split; [done|]. intros j Hj Hju. apply elem_busys in Hj as (_&Hj). assert (Hkin : k ∈ A ++ k :: B) by (apply elem_middle; by left). assert (j = k) as ->; [|done]. pose proof (area_facts s (shape_area _ _ Hs)) as (_&Hb&_&_&_&He). destruct (shape_good_at s _ j Hs Hj) as (_&J1&J2&J3). destruct (shape_good_at s _ k Hs Hkin) as (_&K1&K2&K3). apply (shape_inj s (A ++ k :: B)); [done|done|done|]. unfold stop_of, sizeof_buffer in *. symmetry in Hju, Hu. apply (user_address_kernel s) in Hju, Hu; [congruence|lia..].
  - destruct (buffer_end_spec e s1 A (upd (set_allow false) k) B Hinv1 Hk) as (s2&Hrun&Hinv2&Hc2&Hsp2). change (start (upd (set_allow false) k)) with (start k) in Hrun. unfold transaction_failed in Hrun. destruct (set_hdr s1 (start k) (set_transaction 0)) as [s3| |]; try done. cbn [obind] in *. rewrite Hrun. cbn [obind]. exists s2, true. split; [done|]. right. split; [done|]. exists A, k, B. split; [done|]. split; [done|]. split; [done|]. split; [done|]. split; [done|]. split; [congruence|]. rewrite Hsp2, Hsp1. f_equal.
Qed.

(** ** Release *)

Lemma buffers_release_spec e : forall fuel s L, inv (holds := holds) s L -> (length (busys L) < fuel)%nat -> exists s' L', release_buffers fuel e s = Ok s' /\ inv (holds := holds) s' L' /\ busys L' = [] /\ constants s' = constants s.
Proof.
  induction fuel as [|fuel IH]; intros s L Hinv Hf; [lia|]. pose proof Hinv as [Hs (F&HF&Hasc&Ht) _ Hsp _ _]. cbn [release_buffers]. rewrite (st_first (holds := holds) _ _ (trees_allocated _ _ _ _ Ht)). cbn [obind]. destruct (busys L) as [|k G] eqn:EG; [by exists s, L|]. cbn [map first head default]. assert (Hk : k ∈ busys L) by (rewrite EG; by left). apply elem_busys in Hk as (Hk&HkL). pose proof (node_valid s L k Hs HkL) as (Hv&_). unfold first. cbn [head default from_option id]. replace (node_of k =? 0) with false by lia. rewrite node_start.
  apply list_elem_of_split in HkL as (A&B&->). destruct (buffer_end_spec e s A k B Hinv Hk) as (s1&Hrun&Hinv1&Hc1&_). unfold transaction_failed in Hrun. destruct (set_hdr s (start k) (set_transaction 0)) as [s0| |]; try done. cbn [obind] in *. rewrite Hrun. cbn [obind]. destruct (IH s1 _ Hinv1) as (s2&L2&Hrel&Hinv2&HL2&Hc2).
  - destruct (settle_facts A (upd (set_transaction 0) k) B) as (Hbu&_); [apply spaced_app in Hsp; apply spaced_app; done|]. rewrite Hbu, length_app. rewrite busys_app, busys_cons, Hk in EG. apply (f_equal length) in EG. rewrite length_app in EG. simpl in *. lia.
  - exists s2, L2. split; [done|]. split; [done|]. split; [done|]. congruence.
Qed.

(** With no allocated buffer there is one block. *)
Lemma all_free s L : inv (holds := holds) s L -> busys L = [] -> exists k, L = [k] /\ start k = buffer s /\ stop k = stop_of s /\ is_free k = true /\ pages s = {[0]} /\ free_async_space s = buffer_size s / 2.
Proof.
  intros [Hs _ _ Hsp Hpg Hspace] HL. pose proof (area_facts s (shape_area _ _ Hs)) as (_&Hb&_&Hbs&_&He). destruct L as [|k [|j L]].
  - pose proof (shape_tiles _ _ Hs) as Ht. simpl in Ht. unfold stop_of in Ht. lia.
  - pose proof (shape_tiles _ _ Hs) as (Hst&Hsto). simpl in Hsto. exists k. rewrite busys_cons in HL. destruct (is_free k) eqn:Ek; [|done]. split; [done|]. split; [done|]. split; [done|]. split; [done|]. simpl in Hspace. unfold async_cost in Hspace. rewrite Ek in Hspace. simpl in Hspace. split; [|lia]. apply set_eq. intros i. rewrite (Hpg i), elem_of_singleton. unfold uses. setoid_rewrite list_elem_of_singleton. split; [intros (j&->&[H|(H&_)]); [unfold pg, sizeof_buffer, PAGE_SIZE in H; lia|congruence]|]. intros ->. exists k. split; [done|]. left. unfold pg, sizeof_buffer, PAGE_SIZE. lia.
  - exfalso. rewrite !busys_cons in HL. destruct Hsp as (H&_). simpl in H. by destruct (is_free k), (is_free j).
Qed.

(** ** Mapping *)

(** No buffer yet. *)
Definition fresh (s : binder_proc) : Prop := buffer s = 0 /\ free_buffers s = 0 /\ allocated_buffers s = 0.

(** What the memory management gives: a range of whole pages in user space, and NULL or
    a range of whole pages in the kernel, with the guard page behind it. *)
Record request (vm_start vm_end area : Z) : Prop := {
  request_range : vm_start < vm_end;
  request_whole : (vm_end - vm_start) mod PAGE_SIZE = 0;
  request_area : area = 0 \/ PAGE_SIZE <= area /\ area mod PAGE_SIZE = 0 /\ area + Z.min (vm_end - vm_start) SZ_4M + 2 * PAGE_SIZE <= 2 ^ 64
}.

Lemma trees_empty s L : free_buffers s = 0 -> allocated_buffers s = 0 -> trees (holds := holds) s L [] [].
Proof. intros H1 H2. split; [unfold free_tree; rewrite H1; apply st_empty|unfold allocated_tree; rewrite H2; apply st_empty|intros k [Hk|Hk]; by apply not_elem_of_nil in Hk|intros k Hk; by apply not_elem_of_nil in Hk]. Qed.

(** The first page is mapped, and the whole area becomes one free buffer. *)
Lemma first_buffer e s : area s -> pages s = {[0]} -> free_buffers s = 0 -> allocated_buffers s = 0 ->
  exists s', (let b := buffer s in let* s := new_header e s b in let s := with_buffers [b] s in let* s := set_hdr s b (set_free true) in binder_insert_free_buffer s b) = Ok s' /\ constants s' = constants s /\
    inv (holds := holds) (with_space (buffer_size s' / 2) s') [Blk (buffer s) (buffer s + buffer_size s) (set_free true (garbage e (buffer s)))].
Proof.
  intros Ha Hp Hf Hal. destruct (area_facts s Ha) as (Hm&Hb&Hba&Hbs&Hbw&He). assert (Hnew : exists s1, new_header e s (buffer s) = Ok s1) by (unfold new_header, sizeof_buffer; rewrite !(page_index_at s Ha) by lia; rewrite Hp, !bool_decide_eq_true_2 by (apply elem_of_singleton; unfold pg, PAGE_SIZE; lia); by eexists). destruct Hnew as (s1&Hnew). cbv zeta. rewrite Hnew. cbn [obind]. destruct (new_header_keeps e s (buffer s) s1 Hnew) as (K&Hh&Hn&Hp1). pose proof (proj1 K) as R. injection R as R1 R2 R3 R4 R5 R6 R7 R8 R9. 
  set (g := Blk (buffer s) (buffer s + buffer_size s) (garbage e (buffer s))). set (s2 := with_buffers [buffer s] s1). assert (Hs2 : shape s2 ([] ++ g :: [])) by (split; [apply (rest_area s s1) in Ha; [destruct Ha; by split|by apply K]|simpl; unfold stop_of; simpl; by rewrite R1, R8|constructor; [|constructor]; unfold good, bsize, sizeof_buffer; simpl; lia|done|intros k Hk; apply list_elem_of_singleton in Hk as ->; exact Hh]).
  destruct (set_hdr_shape s2 [] g [] (set_free true) Hs2) as (Hset&Hs3). change (start g) with (buffer s) in Hset. rewrite Hset. cbn [obind]. simpl in Hs3. set (k := upd (set_free true) g) in *. set (s3 := with_headers _ s2) in *. change (start g) with (buffer s) in Hs3. fold s3 in Hs3.
  destruct (insert_free_spec s3 [k] [] [] k (garbage_node e (buffer s)) Hs3) as (t&F1&F2&Hrun&EF&Hasc&Ht); [by apply trees_empty; simpl; rewrite ?R4, ?R5|constructor|intros j Hj; by apply not_elem_of_nil in Hj|by left|done|apply not_elem_of_nil|apply not_elem_of_nil|done|].
  change (start k) with (buffer s) in Hrun. rewrite Hrun. symmetry in EF. apply app_nil in EF as (->&->). eexists. split; [done|]. split; [unfold constants; simpl; congruence|]. cbn [buffer_size with_free_tree s3 with_headers s2 with_buffers]. rewrite R8. split; [| |intros j Hj Hjf; apply list_elem_of_singleton in Hj as ->; done|done| |].
  - apply (shape_free_tree _ _ t) in Hs3. destruct Hs3 as [[] ? ? ? ?]. by split.
  - exists [k]. split; [done|]. split; [done|]. destruct Ht. by split.
  - intros i. cbn [pages with_space with_free_tree s3 with_headers s2 with_buffers]. rewrite Hp1, Hp, elem_of_singleton. setoid_rewrite list_elem_of_singleton. unfold uses, pg, sizeof_buffer, PAGE_SIZE. cbn [buffer with_space with_free_tree s3 with_headers s2 with_buffers]. rewrite R1. split; [intros ->; eexists; split; [done|]; left; simpl; lia|]. intros (j&->&[H|(H&_)]); [simpl in H; lia|done].
  - simpl. unfold async_cost. simpl. lia.
Qed.

Lemma mmap_spec e s own forbidden vm_start vm_end area array : fresh s -> request vm_start vm_end area -> exists s' r, binder_mmap e s own forbidden vm_start vm_end area array = Ok (s', r) /\
  (r = 0 /\ own = true /\ forbidden = false /\ constants s' = (true, area, Z.min (vm_end - vm_start) SZ_4M, u64 (vm_start - area)) /\ inv (holds := holds) s' [Blk area (area + Z.min (vm_end - vm_start) SZ_4M) (set_free true (garbage e area))] \/
   fresh s' /\ (r = - EINVAL /\ own = false \/ r = - EPERM /\ forbidden = true \/ r = - ENOMEM /\ (area = 0 \/ array = false \/ page_fate e area <> Mapped))).
Proof.
  intros (Hf0&Hf1&Hf2) [Hr Hw Har]. unfold binder_mmap. destruct own; cbn [negb]; [|exists s, (- EINVAL); split; [done|]; right; split; [done|]; by left]. destruct forbidden; [exists s, (- EPERM); split; [done|]; right; split; [done|]; right; by left|]. rewrite Hf0. cbn [negb Z.eqb]. destruct (Z.eqb_spec area 0) as [->|Hne]; [exists s, (- ENOMEM); split; [done|]; right; split; [done|]; right; right; tauto|]. destruct array; cbn [negb]; [|eexists _, (- ENOMEM); split; [done|]; right; split; [done|]; right; right; tauto].
  destruct Har as [->|(Ha1&Ha2&Ha3)]; [done|]. cbv zeta. cbn [headers rb_nodes user_buffer_offset buffers free_buffers allocated_buffers free_async_space vma]. set (len := Z.min (vm_end - vm_start) SZ_4M) in *. assert (Elen : (if SZ_4M <? vm_end - vm_start then vm_start + SZ_4M else vm_end) - vm_start = len) by (unfold len; destruct (Z.ltb_spec SZ_4M (vm_end - vm_start)); lia). rewrite Elen. set (s1 := BinderProc _ _ _ _ _ _ _ _ _ _ len _). assert (Hs1 : Binder.buffer s1 = area) by done.
  assert (Hlen : 0 < len <= SZ_4M /\ len mod PAGE_SIZE = 0) by (unfold len, SZ_4M, PAGE_SIZE in *; lia). assert (HA : BinderFacts.area s1) by (split; [done|done|done|apply Hlen|apply Hlen|done]). pose proof (allocate_range_spec e s1 0 1 true HA ltac:(lia)) as Hal. replace (at_page s1 0) with area in Hal by (unfold at_page; simpl; lia). replace (at_page s1 1) with (area + PAGE_SIZE) in Hal by (unfold at_page; simpl; lia).
  destruct Hal as (s2&r&->&K&Hres); [unfold npages, PAGE_SIZE in *; simpl; lia|intros p _; apply not_elem_of_empty|]. cbn [obind]. pose proof (proj1 K) as R. injection R as R1 R2 R3 R4 R5 R6 R7 R8 R9. destruct Hres as [(->&Hp)|(->&Hun&Hp)].
  - cbn [negb Z.eqb]. assert (Hp2 : pages s2 = {[0]}) by (apply set_eq; intros i; rewrite Hp, elem_of_singleton; split; [intros [H|H]; [by apply not_elem_of_empty in H|lia]|intros ->; right; lia]). destruct (first_buffer e s2) as (s3&Hrun&Hc&Hinv); [by apply (rest_area s1 s2); [apply K|]|done|by rewrite R4|by rewrite R5|]. cbv zeta in Hrun. rewrite R1, ?R8 in *. cbn [buffer buffer_size s1] in *.
    destruct (new_header e s2 area) as [s4| |]; try done. cbn [obind] in *. destruct (set_hdr (with_buffers [area] s4) area (set_free true)) as [s5| |]; try done. cbn [obind] in *. rewrite Hrun. cbn [obind]. eexists _, 0. split; [done|]. left. split; [done|]. split; [done|]. split; [done|]. injection Hc as C1 C2 C3 C4. split; [unfold constants; cbn [vma buffer buffer_size user_buffer_offset with_space]; congruence|]. destruct Hinv as [[[] ? ? ? ?] (F&?&?&[]) ? ? ? ?]. split; [by split|exists F; split; [done|]; split; [done|]; by split|done|done|done|done].
  - cbn [negb Z.eqb Z.opp ENOMEM]. eexists _, (- ENOMEM). split; [done|]. right. split; [split; [done|]; cbn [free_buffers allocated_buffers]; by rewrite R4, R5|]. right. right. split; [done|]. right. right. destruct Hun as [Hun|(i&Hi&Hun)]; [done|]. replace i with 0 in Hun by lia. unfold at_page in Hun. cbn [buffer s1] in Hun. by rewrite Z.mul_0_r, Z.add_0_r in Hun.
Qed.

End use.
