(* ===== verification/BinderProps.v ===== *)
(** * BinderProps: the properties of the buffer allocator *)

From stdpp Require Import gmap.
From S2P Require Import Prelude Rbtree RbtreeFacts RbtreeWalk RbtreeSpec Binder BinderFacts BinderLayout BinderTree BinderInv BinderAlloc BinderFree BinderUse.

(** The invariant with the red-black trees of the library. *)
Notation layout := (inv (holds := ordered)).

(** ** Histories *)

Inductive reachable : binder_proc -> Prop :=
| reach_map e s own forbidden vm_start vm_end area array s' : fresh s -> request vm_start vm_end area -> binder_mmap e s own forbidden vm_start vm_end area array = Ok (s', 0) -> reachable s'
| reach_step e s c s' : reachable s -> allowed s c = true -> perform e s c = Ok s' -> reachable s'.

Lemma held_spec s L b : layout s L -> held s b = true -> exists A k B, L = A ++ k :: B /\ b = start k /\ is_free k = false.
Proof.
  intros Hinv Hh. pose proof (inv_shape _ _ Hinv) as Hs. unfold held in Hh. apply andb_true_iff in Hh as (Hb&Hh). apply bool_decide_eq_true_1 in Hb. rewrite (shape_list _ _ Hs) in Hb. apply list_elem_of_fmap in Hb as (k&->&Hk). rewrite (shape_hdr _ _ Hs k Hk) in Hh. apply andb_true_iff in Hh as (Hh&_). apply list_elem_of_split in Hk as (A&B&->). exists A, k, B. split; [done|]. split; [done|]. unfold is_free. by destruct (free (info k)).
Qed.

(** The buffer a transaction gets, marked with the transaction. *)
Lemma transaction_spec e s L d o asy t : layout s L -> 0 <= d < 2 ^ 64 -> 0 <= o < 2 ^ 64 -> exists s' r L', transaction_buffer e s d o asy t = Ok (s', r) /\ layout s' L'.
Proof.
  intros Hinv Hd Ho. unfold transaction_buffer. destruct (buffer_alloc_spec e s L d o asy Hinv Hd Ho) as (s1&r&->&[(->&_&Hinv1&_)|(A&k&B&->&->&_&_&_&Hinv1&_)]); cbn [obind]; [by exists s1, 0, L|]. pose proof (inv_shape _ _ Hinv) as Hs. destruct (shape_good_at s _ k Hs ltac:(apply elem_middle; by left)) as (_&Hk&_&_). pose proof (area_facts s (shape_area _ _ Hs)) as (_&Hb&_). replace (start k =? 0) with false by lia.
  assert (Hc : exists k1 R, carve e d o asy (align8 d + align8 o + sizeof_buffer + 4 <? bsize k) (align8 d + align8 o) k ++ B = k1 :: R /\ start k1 = start k /\ is_free k1 = false) by (unfold carve; destruct (_ <? _); by eexists _, _). destruct Hc as (k1&R&ER&<-&Hb1). rewrite ER in Hinv1. destruct (inv_upd s1 A k1 R (set_transaction t) Hinv1 Hb1 ltac:(done)) as (s2&->&Hinv2&_). by eexists _, _, _.
Qed.

Lemma perform_spec e s L c : layout s L -> allowed s c = true -> exists s' L', perform e s c = Ok s' /\ layout s' L'.
Proof.
  intros Hinv Hal. destruct c as [d o asy t|b|b waits|b|p|]; cbn [perform allowed] in *.
  - destruct (transaction_spec e s L d o asy t Hinv ltac:(lia) ltac:(lia)) as (s'&r&L'&->&Hinv'). by exists s', L'.
  - destruct (held_spec s L b Hinv Hal) as (A&k&B&->&->&Hk). destruct (buffer_end_spec e s A k B Hinv Hk) as (s'&->&Hinv'&_). by eexists _, _.
  - destruct (held_spec s L b Hinv Hal) as (A&k&B&->&->&Hk). unfold deliver. destruct (inv_upd s A k B (set_allow true) Hinv Hk ltac:(done)) as (s1&->&Hinv1&_). cbn [obind]. destruct waits; [by eexists _, _|]. destruct (inv_upd s1 A _ B (set_transaction 0) Hinv1 Hk ltac:(done)) as (s2&Hrun&Hinv2&_). by eexists _, _.
  - destruct (held_spec s L b Hinv Hal) as (A&k&B&->&->&Hk). destruct (inv_upd s A k B (set_transaction 0) Hinv Hk ltac:(done)) as (s1&Hrun&Hinv1&_). by eexists _, _.
  - destruct (bc_free_spec e s L p Hinv ltac:(lia)) as (s'&r&->&[(_&->&_)|(_&A&k&B&_&_&_&_&Hinv'&_)]); cbn [obind]; by eexists _, _.
  - eexists _, L. split; [done|]. by apply inv_close.
Qed.

Lemma reachable_layout s : reachable s -> exists L, layout s L.
Proof.
  induction 1 as [e s own forbidden vm_start vm_end area array s' Hf Hr Hrun|e s c s' _ (L&IH) Hal Hrun].
  - destruct (mmap_spec (holds := ordered) e s own forbidden vm_start vm_end area array Hf Hr) as (s1&r&Hrun'&[(->&_&_&_&Hinv)|(_&H)]); rewrite Hrun in Hrun'; [injection Hrun' as <-; by eexists|]. injection Hrun' as <- <-. exfalso. unfold EINVAL, EPERM, ENOMEM in H. lia.
  - destruct (perform_spec e s L c IH Hal) as (s1&L1&Hrun'&Hinv). rewrite Hrun in Hrun'. injection Hrun' as <-. by exists L1.
Qed.

(** A buffer that is gone has its address alone no more. *)
Lemma address_gone s s' A k B L' : layout s (A ++ k :: B) -> busys L' = busys A ++ busys B -> constants s' = constants s -> forall j, j ∈ busys L' -> user_address s' j <> user_address s k.
Proof.
  intros [Hs _ _ _ _ _] Hbu Hc j Hj Hu. injection Hc as _ _ _ Hoff. rewrite Hbu in Hj. apply busys_elem in Hj as (_&Hj). assert (HjL : j ∈ A ++ k :: B) by (apply elem_middle; by right). assert (HkL : k ∈ A ++ k :: B) by (apply elem_middle; by left). pose proof (area_facts s (shape_area _ _ Hs)) as (_&Hb&_&_&_&He). destruct (shape_good_at s _ j Hs HjL) as (_&J1&J2&J3). destruct (shape_good_at s _ k Hs HkL) as (_&K1&K2&K3).
  apply (shape_alone _ _ _ _ Hs). assert (j = k) as <-; [|done]. apply (shape_inj s (A ++ k :: B)); [done|done|done|]. unfold user_address, stop_of, sizeof_buffer, wrap in *. rewrite Hoff in Hu. lia.
Qed.

(** The first block of a carved one. *)
Lemma carve_head e d o asy (split : bool) size k B : size + sizeof_buffer <= stop k - start k -> exists k1 R, carve e d o asy split size k ++ B = k1 :: R /\ start k1 = start k /\ is_free k1 = false /\ start k + sizeof_buffer + size <= stop k1.
Proof. intros Hfit. unfold carve. destruct split; eexists _, _; (split; [done|]); (split; [done|]); (split; [done|]); simpl; lia. Qed.

(** ** Properties *)

(** C32: [binder_alloc_buf] always returns, without a fault or a failed [BUG_ON]. It
    returns NULL only for one of the listed reasons and then leaves the buffers as they
    were. Otherwise it returns the smallest free buffer that holds the aligned sizes,
    with the rest split off as a free buffer where there is room for a header; all other
    buffers are as before, and every byte of the new one is on a mapped page. *)
Theorem binder_alloc_correct e s L d o asy : layout s L -> 0 <= d < 2 ^ 64 -> 0 <= o < 2 ^ 64 ->
  let size := align8 d + align8 o in
  exists s' r, binder_alloc_buf e s d o asy = Ok (s', r) /\ constants s' = constants s /\
  (r = 0 /\ refused e s L size asy /\ layout s' L \/
   exists A k B, L = A ++ k :: B /\ r = start k /\ is_free k = true /\ size <= bsize k /\ (forall j, j ∈ L -> is_free j = true -> size <= bsize j -> bsize k <= bsize j) /\
     layout s' (A ++ carve e d o asy (size + sizeof_buffer + 4 <? bsize k) size k ++ B) /\ (forall a, r <= a < r + sizeof_buffer + size -> pg s' a ∈ pages s')).
Proof.
  intros Hinv Hd Ho size. destruct (buffer_alloc_spec e s L d o asy Hinv Hd Ho) as (s'&r&Hrun&[(->&Href&Hinv'&Hc)|(A&k&B&->&->&Hk&Hfit&Hbest&Hinv'&Hc)]); exists s'; eexists; (split; [exact Hrun|]); (split; [done|]); [by left|right].
  exists A, k, B. split; [done|]. split; [done|]. split; [done|]. split; [done|]. split; [done|]. split; [done|]. intros a Ha. destruct (carve_head e d o asy (align8 d + align8 o + sizeof_buffer + 4 <? bsize k) (align8 d + align8 o) k B) as (k1&R&ER&Hst&Hb1&Hlen); [unfold bsize in Hfit; lia|]. fold size in Hinv', ER, Hlen. rewrite ER in Hinv'. apply (inv_mapped s' _ k1 a Hinv'); [apply elem_busys; split; [done|apply elem_middle; by left]|lia].
Qed.

(** C33: [binder_free_buf] frees an allocated buffer that no transaction uses: it becomes one
    free buffer with the free buffers before and after it, the pages that hold no header
    or allocated data any more are unmapped, the space for asynchronous transactions is
    given back, and nothing else changes. On a buffer that is free already or still
    belongs to a transaction a [BUG_ON] fails. *)
Theorem binder_free_correct e s A k B : layout s (A ++ k :: B) ->
  (is_free k = false /\ transaction (info k) = 0 -> exists s', binder_free_buf e s (start k) = Ok s' /\ layout s' (settle A k B) /\ busys (settle A k B) = busys A ++ busys B /\ constants s' = constants s /\ free_async_space s' = free_async_space s + async_cost k) /\
  (is_free k = true \/ transaction (info k) <> 0 -> binder_free_buf e s (start k) = Oops).
Proof.
  intros Hinv. pose proof (inv_shape _ _ Hinv) as Hs. split.
  - intros (Hk&Ht). destruct (free_spec e s A k B Hinv Hk Ht) as (s'&Hrun&Hinv'&Hc&Hsp). exists s'. split; [done|]. split; [done|]. split; [|done]. by apply settle_facts, (inv_spaced _ _ Hinv).
  - intros Hbad. unfold binder_free_buf. rewrite (buffer_size_at _ _ _ _ Hs), (hdr_at _ _ _ _ Hs). cbn [obind]. change (free (info k)) with (is_free k). destruct (is_free k); [done|]. destruct Hbad as [?|Ht]; [done|]. cbn [BUG_ON]. destruct (_ <? _); [done|]. cbn [BUG_ON]. by replace (transaction (info k) =? 0) with false by lia.
Qed.

(** C34: After any history of transactions, deliveries, failures, [BC_FREE_BUFFER] commands
    with any address and closing of the vma, the buffers cover the area without a gap or an
    overlap and agree with the list, the headers, the two trees, the pages and the space
    for asynchronous transactions; every byte of an allocated buffer is on a mapped page;
    and every next command returns without a fault or a failed [BUG_ON]. *)
Theorem binder_history_safe s : reachable s -> exists L, layout s L /\ (forall k a, k ∈ busys L -> start k <= a < stop k -> pg s a ∈ pages s) /\ forall e c, allowed s c = true -> exists s', perform e s c = Ok s'.
Proof.
  intros Hr. destruct (reachable_layout s Hr) as (L&Hinv). exists L. split; [done|]. split; [intros k a Hk Ha; by apply (inv_mapped s L k a Hinv)|]. intros e c Hal. destruct (perform_spec e s L c Hinv Hal) as (s'&_&Hrun&_). by exists s'.
Qed.

(** C35: [BC_FREE_BUFFER] frees the allocated buffer whose data is at the address user space
    gives, if it has been delivered, and otherwise changes nothing. A second command
    with the same address changes nothing. *)
Theorem bc_free_buffer_correct e e' s L p : layout s L -> 0 <= p < 2 ^ 64 -> exists s' r, bc_free_buffer e s p = Ok (s', r) /\ bc_free_buffer e' s' p = Ok (s', false) /\
  (r = false /\ s' = s /\ (forall k, k ∈ busys L -> user_address s k = p -> allow_user_free (info k) = false) \/
   r = true /\ exists A k B L', L = A ++ k :: B /\ is_free k = false /\ user_address s k = p /\ allow_user_free (info k) = true /\
     layout s' L' /\ busys L' = busys A ++ busys B /\ constants s' = constants s /\ free_async_space s' = free_async_space s + async_cost k).
Proof.
  intros Hinv Hp. destruct (bc_free_spec e s L p Hinv Hp) as (s'&r&Hrun&Hres). exists s', r. split; [done|]. destruct Hres as [(->&->&Hno)|(->&A&k&B&->&Hk&Hu&Ha&Hinv'&Hc&Hsp)].
  - split; [|by left]. destruct (bc_free_spec e' s L p Hinv Hp) as (s2&r2&->&[(->&->&_)|(_&A&k&B&->&Hk&Hu&Ha&_)]); [done|]. rewrite Hno in Ha; [done| |done]. apply elem_busys. split; [done|apply elem_middle; by left].
  - set (k1 := upd _ k) in *. assert (Hbu : busys (settle A k1 B) = busys A ++ busys B) by (apply settle_facts; pose proof (inv_spaced _ _ Hinv) as Hspd; apply spaced_app in Hspd; apply spaced_app; done). split; [|right; split; [done|]; by exists A, k, B, (settle A k1 B)]. destruct (bc_free_spec e' s' _ p Hinv' Hp) as (s2&r2&->&[(->&->&_)|(_&A'&j&B'&EL&Hj&Hju&_)]); [done|]. exfalso. apply (address_gone s s' A k B (settle A k1 B) Hinv Hbu Hc j); [|congruence]. rewrite EL. apply elem_busys. split; [done|apply elem_middle; by left].
Qed.

(** C36: The release of a process frees every buffer that is still allocated, in at most as
    many rounds as there are, and leaves one free buffer over the whole area, its
    header on the only mapped page, and all space for asynchronous transactions. *)
Theorem binder_release_correct e s L : layout s L -> exists s' k, release_buffers (S (length (busys L))) e s = Ok s' /\ layout s' [k] /\ is_free k = true /\ start k = buffer s /\ stop k = stop_of s /\ pages s' = {[0]} /\ free_async_space s' = buffer_size s / 2.
Proof.
  intros Hinv. destruct (buffers_release_spec e (S (length (busys L))) s L Hinv ltac:(lia)) as (s'&L'&Hrun&Hinv'&HL&Hc). destruct (all_free s' L' Hinv' HL) as (k&->&Hst&Hsto&Hk&Hp&Hsp). injection Hc as _ C2 C3 _. exists s', k. unfold stop_of in *. rewrite C2, C3 in *. done.
Qed.

(** [binder_mmap] of a process without buffers makes the area, of at most 4 MB, one free
    buffer of which only the first page is mapped; or it fails with the error of its
    first failing test and leaves the process without buffers. With buffers it fails
    and changes nothing. *)
Theorem binder_mmap_correct e s own forbidden vm_start vm_end area array : request vm_start vm_end area ->
  (fresh s -> exists s' r, binder_mmap e s own forbidden vm_start vm_end area array = Ok (s', r) /\
    (r = 0 /\ own = true /\ forbidden = false /\ constants s' = (true, area, Z.min (vm_end - vm_start) SZ_4M, u64 (vm_start - area)) /\ pages s' = {[0]} /\ layout s' [Blk area (area + Z.min (vm_end - vm_start) SZ_4M) (set_free true (garbage e area))] \/
     fresh s' /\ (r = - EINVAL /\ own = false \/ r = - EPERM /\ forbidden = true \/ r = - ENOMEM /\ (area = 0 \/ array = false \/ page_fate e area <> Mapped)))) /\
  (buffer s <> 0 -> binder_mmap e s own forbidden vm_start vm_end area array = Ok (s, - (if negb own then EINVAL else if forbidden then EPERM else EBUSY))).
Proof.
  intros Hr. split.
  - intros Hf. destruct (mmap_spec (holds := ordered) e s own forbidden vm_start vm_end area array Hf Hr) as (s'&r&Hrun&[(->&Ho&Hfb&Hc&Hinv)|H]); exists s'; eexists; (split; [exact Hrun|]); [left|by right]. destruct (all_free s' _ Hinv) as (k&_&_&_&_&Hp&_); [done|]. done.
  - intros Hb. unfold binder_mmap. destruct own; [|done]. destruct forbidden; [done|]. cbn [negb]. by replace (buffer s =? 0) with false by lia.
Qed.

(** ** Examples *)

(** A process that maps four pages, receives a one-way transaction and reads it. *)
Definition ex_env : env := Env true true (fun _ => Mapped) (fun _ => BinderBuffer false true true 77 5 9) (fun _ => RbNode 3 4 5).

Definition ex_blank : binder_proc := BinderProc ∅ ∅ 0 0 [] 0 0 0 false ∅ 0 false.

Definition ex_state (o : outcome binder_proc) : binder_proc := match o with Ok s => s | _ => ex_blank end.

Definition ex_mapped : binder_proc := Eval vm_compute in match binder_mmap ex_env ex_blank true false 1048576 1064960 65536 true with Ok (s, _) => s | _ => ex_blank end.
Definition ex_taken : binder_proc := Eval vm_compute in ex_state (perform ex_env ex_mapped (Transaction 100 16 true 5)).
Definition ex_read : binder_proc := Eval vm_compute in ex_state (perform ex_env ex_taken (Deliver 65536 false)).

Definition ex_free : blk := Blk 65536 81920 (BinderBuffer true true true 77 5 9).
Definition ex_busy : blk := Blk 65536 65736 (BinderBuffer false true true 0 100 16).
Definition ex_rest : blk := Blk 65736 81920 (BinderBuffer true true true 77 5 9).

Lemma ex_request : request 1048576 1064960 65536.
Proof. by split; [|vm_compute|right; vm_compute]. Qed.

Lemma ex_reachable : reachable ex_mapped /\ reachable ex_taken /\ reachable ex_read.
Proof.
  assert (H1 : reachable ex_mapped) by (apply (reach_map ex_env ex_blank true false 1048576 1064960 65536 true); [done|apply ex_request|by vm_compute]). assert (H2 : reachable ex_taken) by (by apply (reach_step ex_env ex_mapped (Transaction 100 16 true 5))). split; [done|]. split; [done|]. by apply (reach_step ex_env ex_taken (Deliver 65536 false)).
Qed.

(** The state determines the blocks. *)
Lemma tiles_unique (h : gmap Z binder_buffer) L : forall L' a c, tiles a L c -> tiles a L' c -> map start L = map start L' -> (forall k, k ∈ L -> h !! start k = Some (info k)) -> (forall k, k ∈ L' -> h !! start k = Some (info k)) -> L = L'.
Proof.
  induction L as [|[b e i] L IH]; intros [|[b' e' i'] L'] a c Ht Ht' Hm Hh Hh'; try done. destruct Ht as (Hb&Ht), Ht' as (Hb'&Ht'). simpl in *. injection Hm as -> Hm. assert (i = i') as <- by (pose proof (Hh (Blk b' e i) ltac:(by left)) as H1; pose proof (Hh' (Blk b' e' i') ltac:(by left)) as H2; simpl in *; congruence). assert (e = e') as <- by (destruct L, L'; simpl in *; [congruence|done|done|]; destruct Ht, Ht'; congruence). f_equal. apply (IH L' e c); [done|done|done|intros k Hk; apply Hh; by right|intros k Hk; apply Hh'; by right].
Qed.

Lemma layout_known s L : reachable s -> tiles (buffer s) L (stop_of s) -> buffers s = map start L -> Forall (fun k => headers s !! start k = Some (info k)) L -> layout s L.
Proof.
  intros Hr Ht Hm Hh. destruct (reachable_layout s Hr) as (L'&Hinv). pose proof (inv_shape _ _ Hinv) as Hs. replace L with L'; [done|]. apply (tiles_unique (headers s) L' L (buffer s) (stop_of s)); [apply Hs|done|by rewrite <- Hm, <- (shape_list _ _ Hs)|apply Hs|by apply list.Forall_forall].
Qed.

Lemma ex_mapped_layout : layout ex_mapped [ex_free].
Proof. apply layout_known; [apply ex_reachable|done|done|by repeat constructor]. Qed.

Lemma ex_read_layout : layout ex_read [ex_busy; ex_rest].
Proof. apply layout_known; [apply ex_reachable|done|done|by repeat constructor]. Qed.

Lemma binder_alloc_correct_witness : exists s', binder_alloc_buf ex_env ex_mapped 5000 8 false = Ok (s', 65536) /\ layout s' [Blk 65536 70624 (taken 5000 8 false (info ex_free)); Blk 70624 81920 (BinderBuffer true true true 77 5 9)].
Proof.
  destruct (binder_alloc_correct ex_env ex_mapped [ex_free] 5000 8 false ex_mapped_layout ltac:(lia) ltac:(lia)) as (s'&r&Hrun&_&[(->&_&_)|(A&k&B&EL&->&_&_&_&Hinv&_)]); [by vm_compute in Hrun|]. destruct A as [|a [|a' A]]; [|by injection EL|by injection EL]. injection EL as <- <-. exists s'. split; [exact Hrun|exact Hinv].
Defined.

Lemma binder_free_correct_witness : exists s', binder_free_buf ex_env ex_read 65536 = Ok s' /\ layout s' [Blk 65536 81920 (BinderBuffer true true true 0 100 16)] /\ free_async_space s' = 8192.
Proof. destruct (binder_free_correct ex_env ex_read [] ex_busy [ex_rest] ex_read_layout) as (H&_). destruct (H ltac:(done)) as (s'&Hrun&Hinv&_&_&Hsp). exists s'. split; [exact Hrun|]. split; [exact Hinv|]. rewrite Hsp. by vm_compute. Defined.

Lemma binder_history_safe_witness : exists L, layout ex_read L /\ pg ex_read 65600 ∈ pages ex_read /\ exists s', perform ex_env ex_read (BC_FREE_BUFFER 1048656) = Ok s'.
Proof. destruct (binder_history_safe ex_read (proj2 (proj2 ex_reachable))) as (L&Hinv&_&Hall). exists L. split; [exact Hinv|]. split; [by apply (bool_decide_eq_true_1 (pg ex_read 65600 ∈ pages ex_read)); vm_compute|]. by apply Hall. Defined.

Lemma bc_free_buffer_correct_witness : exists s', bc_free_buffer ex_env ex_read 1048656 = Ok (s', true) /\ bc_free_buffer ex_env s' 1048656 = Ok (s', false).
Proof. destruct (bc_free_buffer_correct ex_env ex_env ex_read [ex_busy; ex_rest] 1048656 ex_read_layout ltac:(lia)) as (s'&r&Hrun&Hagain&[(->&_&_)|(->&_)]); [by vm_compute in Hrun|]. by exists s'. Defined.

Lemma binder_release_correct_witness : exists s' k, release_buffers 2 ex_env ex_read = Ok s' /\ layout s' [k] /\ pages s' = {[0]}.
Proof. destruct (binder_release_correct ex_env ex_read [ex_busy; ex_rest] ex_read_layout) as (s'&k&Hrun&Hinv&_&_&_&Hp&_). exists s', k. split; [exact Hrun|]. by split. Defined.

Lemma binder_mmap_correct_witness : exists s', binder_mmap ex_env ex_blank true false 1048576 1064960 65536 true = Ok (s', 0) /\ pages s' = {[0]}.
Proof. destruct (binder_mmap_correct ex_env ex_blank true false 1048576 1064960 65536 true ex_request) as (H&_). destruct (H ltac:(done)) as (s'&r&Hrun&[(->&_&_&_&Hp&_)|(_&Hr)]); [by exists s'|]. exfalso. destruct Hr as [(_&?)|[(_&?)|(_&[?|[?|?]])]]; done. Defined.
