(* ===== verification/Numbers.v ===== *)
(** * Numbers: arithmetic of the library

    [lib/gcd.c], [lib/lcm.c], [lib/int_sqrt.c], [lib/rational.c], and division by
    multiplication, [lib/reciprocal_div.c] with [include/linux/reciprocal_div.h]. An
    unsigned long has 64 bits. *)

From S2P Require Import Prelude.

(** ** Divisors and multiples *)

(** [while ((r = a % b) != 0)] *)
Fixpoint gcd_loop (fuel : nat) (a b : Z) : outcome Z :=
  match fuel with
  | O => NoFuel
  | S fuel => let r := a mod b in if negb (r =? 0) then gcd_loop fuel b r else Ok b
  end.

(** Two rounds halve the smaller number. *)
Definition euclid_rounds : nat := 129.

Definition gcd (a b : Z) : outcome Z :=
  let '(a, b) := if a <? b then (b, a) else (a, b) in
  if b =? 0 then Ok a else gcd_loop euclid_rounds a b.

Definition lcm (a b : Z) : outcome Z :=
  if negb (a =? 0) && negb (b =? 0) then let* g := gcd a b in Ok (u64 (a / g * b)) else Ok 0.

Definition lcm_not_zero (a b : Z) : outcome Z :=
  let* l := lcm a b in
  if negb (l =? 0) then Ok l else Ok (if negb (b =? 0) then b else a).

(** ** Square root *)

(** [while (m != 0)] *)
Fixpoint sqrt_loop (fuel : nat) (m x y : Z) : outcome Z :=
  match fuel with
  | O => NoFuel
  | S fuel =>
    if negb (m =? 0) then
      let b := u64 (y + m) in
      let y := Z.shiftr y 1 in
      let '(x, y) := if b <=? x then (u64 (x - b), u64 (y + m)) else (x, y) in
      sqrt_loop fuel (Z.shiftr m 2) x y
    else Ok y
  end.

Definition int_sqrt (x : Z) : outcome Z :=
  if x <=? 1 then Ok x else sqrt_loop 33 (Z.shiftl 1 (64 - 2)) x 0.

(** ** Division by multiplication *)

Record reciprocal := Reciprocal { rm : Z; sh1 : Z; sh2 : Z }.

Definition fls32 (x : Z) : Z := if x =? 0 then 0 else Z.log2 x + 1.

(** [do_div] by 0 is undefined. *)
Definition reciprocal_value (d : Z) : outcome reciprocal :=
  let l := fls32 (u32 (d - 1)) in
  let m := u64 (2 ^ 32 * u64 (Z.shiftl 1 l - d)) in
  if d =? 0 then Oops
  else
    let m := u64 (m / d + 1) in
    Ok (Reciprocal (u32 m) (u8 (Z.min l 1)) (u8 (Z.max (l - 1) 0))).

Definition reciprocal_divide (a : Z) (R : reciprocal) : Z :=
  let t := u32 (Z.shiftr (u64 (a * rm R)) 32) in
  Z.shiftr (u32 (t + Z.shiftr (u32 (a - t)) (sh1 R))) (sh2 R).

(** ** Continued fractions *)

(** The loop, with the last two convergents [n0/d0] and [n1/d1]. *)
Fixpoint rational_loop (fuel : nat) (max_n max_d n d n0 d0 n1 d1 : Z) : outcome (Z * Z) :=
  match fuel with
  | O => NoFuel
  | S fuel =>
    if (max_n <? n1) || (max_d <? d1) then Ok (n0, d0)
    else if d =? 0 then Ok (n1, d1)
    else
      let a := n / d in
      rational_loop fuel max_n max_d d (n mod d) n1 d1 (u64 (n0 + u64 (a * n1))) (u64 (d0 + u64 (a * d1)))
  end.

Definition rational_best_approximation (given_n given_d max_n max_d : Z) : outcome (Z * Z) :=
  rational_loop (S euclid_rounds) max_n max_d given_n given_d 0 1 1 0.
