(* ===== verification/NumbersProps.v ===== *)
(** * NumbersProps: the arithmetic is right *)

From S2P Require Import Prelude Numbers.

(** ** Euclid's algorithm *)

(** Two remainders halve. *)
Lemma mod_mod_half b r : 0 < r < b -> 2 * (b mod r) < b.
Proof. intros H. pose proof (Z.mod_pos_bound b r ltac:(lia)). pose proof (Z.div_mod b r ltac:(lia)). assert (1 <= b / r) by (apply Z.div_le_lower_bound; lia). nia. Qed.

Lemma gcd_loop_spec k : forall fuel a b, 0 <= a -> 0 < b < 2 ^ Z.of_nat k -> (2 * k <= fuel)%nat -> gcd_loop fuel a b = Ok (Z.gcd a b).
Proof.
  induction k as [|k IH]; intros fuel a b Ha Hb Hf; [simpl in Hb; lia|]. destruct fuel as [|[|fuel]]; [lia..|]. cbn [gcd_loop]. rewrite (Z.gcd_comm a b), <- (Z.gcd_mod a b) by lia. pose proof (Z.mod_pos_bound a b ltac:(lia)) as Hr. destruct (Z.eqb_spec (a mod b) 0) as [->|Hr0]; cbn [negb]; [by rewrite Z.gcd_0_l, Z.abs_eq by lia|].
  set (r := a mod b) in *. rewrite (Z.gcd_comm r b), (Z.gcd_comm b r), <- (Z.gcd_mod b r) by lia. pose proof (mod_mod_half b r ltac:(lia)) as Hh. pose proof (Z.mod_pos_bound b r ltac:(lia)) as Hr2. destruct (Z.eqb_spec (b mod r) 0) as [->|Hr20]; cbn [negb]; [by rewrite Z.gcd_0_l, Z.abs_eq by lia|]. rewrite (Z.gcd_comm (b mod r) r). apply IH; [lia| |lia]. rewrite Nat2Z.inj_succ, Z.pow_succ_r in Hb by lia. lia.
Qed.

Lemma gcd_spec a b : 0 <= a < 2 ^ 64 -> 0 <= b < 2 ^ 64 -> gcd a b = Ok (Z.gcd a b).
Proof.
  intros Ha Hb. unfold gcd. assert (Hloop : forall x y, 0 <= x -> 0 <= y < 2 ^ 64 -> (if y =? 0 then Ok x else gcd_loop euclid_rounds x y) = Ok (Z.gcd x y)) by (intros x y Hx Hy; destruct (Z.eqb_spec y 0) as [->|Hne]; [by rewrite Z.gcd_0_r, Z.abs_eq|]; apply (gcd_loop_spec 64); [done|lia|unfold euclid_rounds; lia]). destruct (a <? b); [rewrite (Z.gcd_comm a b)|]; apply Hloop; lia.
Qed.

Lemma lcm_spec a b : 0 <= a < 2 ^ 64 -> 0 <= b < 2 ^ 64 -> lcm a b = Ok (u64 (Z.lcm a b)).
Proof.
  intros Ha Hb. unfold lcm. destruct (Z.eqb_spec a 0) as [->|Ha0]; [done|]. destruct (Z.eqb_spec b 0) as [->|Hb0]; [by rewrite Z.lcm_0_r|]. cbn [negb andb]. rewrite gcd_spec by lia. cbn [obind]. do 2 f_equal. unfold Z.lcm. pose proof (Z.gcd_nonneg a b) as Hg. assert (Hg0 : Z.gcd a b <> 0) by (intros Hg0; apply Z.gcd_eq_0 in Hg0; lia). rewrite Z.abs_eq by (apply Z.mul_nonneg_nonneg; [lia|]; apply Z.div_pos; lia). destruct (Z.gcd_divide_l a b) as (u&Hu), (Z.gcd_divide_r a b) as (v&Hv). set (g := Z.gcd a b) in *. rewrite Hu at 1. rewrite Hv at 2. rewrite !Z.div_mul by done. rewrite Hu at 1. rewrite Hv at 1. lia.
Qed.

(** ** Square root *)

(** [r] is the root found so far, up to the bits from [k] on. *)
Lemma sqrt_loop_spec k : forall fuel x r x0, x = x0 - r * r -> 0 <= r -> r * r <= x0 < (r + 2 ^ Z.of_nat k) * (r + 2 ^ Z.of_nat k) -> r + 2 ^ Z.of_nat k <= 2 ^ 32 -> (k < fuel)%nat ->
  sqrt_loop fuel (Z.shiftr (4 ^ Z.of_nat k) 2) x (r * 2 ^ Z.of_nat k) = Ok (Z.sqrt x0).
Proof.
  induction k as [|k IH]; intros fuel x r x0 Ex Hr Hx Hlim Hf; destruct fuel as [|fuel]; try lia; cbn [sqrt_loop].
  - simpl. rewrite Z.mul_1_r. f_equal. symmetry. apply Z.sqrt_unique. simpl in Hx. lia.
  - rewrite Nat2Z.inj_succ, !Z.pow_succ_r in * by lia. set (p := 2 ^ Z.of_nat k) in *. assert (Hp : 0 < p) by (apply Z.pow_pos_nonneg; lia). assert (E4 : 4 ^ Z.of_nat k = p * p) by (unfold p; rewrite <- Z.pow_mul_l; done). rewrite E4 in *. assert (Em : Z.shiftr (4 * (p * p)) 2 = p * p) by (rewrite Z.shiftr_div_pow2 by lia; change (2 ^ 2) with 4; rewrite Z.mul_comm; by apply Z.div_mul). rewrite Em. replace (p * p =? 0) with false by nia. cbn [negb].
    assert (Ey : Z.shiftr (r * (2 * p)) 1 = r * p) by (rewrite Z.shiftr_div_pow2 by lia; change (2 ^ 1) with 2; replace (r * (2 * p)) with (r * p * 2) by lia; by apply Z.div_mul). rewrite Ey. change (2 ^ 64) with (2 ^ 32 * 2 ^ 32). rewrite (wrap_small 64 (r * (2 * p) + p * p)) by nia. destruct (Z.leb_spec (r * (2 * p) + p * p) x) as [Hle|Hgt].
    + rewrite !wrap_small by nia. replace (r * p + p * p) with ((r + p) * p) by lia. apply IH; [lia|lia|lia|lia|lia].
    + apply IH; [done|done|split; [lia|nia]|lia|lia].
Qed.

(** ** Division by multiplication *)

(** The magic number [M], a little more than [P / d], divides. *)
Lemma magic_divide a d M P L : 0 <= a -> 0 < d <= L -> 0 < P -> M = P * L / d + 1 -> a < P -> 0 < L -> a * M / (P * L) = a / d.
Proof.
  intros Ha Hd HP EM HaP HL. pose proof (Z.div_mod (P * L) d ltac:(lia)) as Hq. pose proof (Z.mod_pos_bound (P * L) d ltac:(lia)) as Hr. symmetry. apply Z.div_unique_pos with (r := (a mod d) * M + (a / d) * (M * d - P * L)).
  - pose proof (Z.mod_pos_bound a d ltac:(lia)) as Hm. pose proof (Z.div_pos a d Ha ltac:(lia)) as Hd0. pose proof (Z.div_mod a d ltac:(lia)) as Ha'. assert (HMd : 0 < M * d - P * L <= d) by nia. set (e := M * d - P * L) in *. set (q := a / d) in *. set (r := a mod d) in *. split; [nia|]. assert (d * (r * M + q * e) < d * (P * L)); [|nia]. replace (d * (r * M + q * e)) with (r * (P * L) + a * e) by (unfold e in *; nia). assert (a * e <= a * L) by nia. nia.
  - pose proof (Z.div_mod a d ltac:(lia)). nia.
Qed.

Lemma fls32_bounds d : 1 < d < 2 ^ 32 -> 1 <= fls32 (d - 1) <= 32 /\ 2 ^ (fls32 (d - 1) - 1) < d <= 2 ^ fls32 (d - 1).
Proof.
  intros Hd. unfold fls32. replace (d - 1 =? 0) with false by lia. pose proof (Z.log2_spec (d - 1) ltac:(lia)) as (Hlo&Hhi). pose proof (Z.log2_nonneg (d - 1)). assert (Z.log2 (d - 1) < 32) by (apply Z.log2_lt_pow2; lia). replace (Z.log2 (d - 1) + 1 - 1) with (Z.log2 (d - 1)) by lia. replace (Z.log2 (d - 1) + 1) with (Z.succ (Z.log2 (d - 1))) by lia. lia.
Qed.

(** The fields of the reciprocal of [d]. *)
Lemma reciprocal_value_spec d l : 1 < d < 2 ^ 32 -> l = fls32 (d - 1) -> exists m, reciprocal_value d = Ok (Reciprocal m 1 (l - 1)) /\ 0 < m < 2 ^ 32 /\ 2 ^ 32 + m = 2 ^ 32 * 2 ^ l / d + 1.
Proof.
  intros Hd El. pose proof (fls32_bounds d Hd) as (Hl&Hp&Hp'). rewrite <- El in *. set (p := 2 ^ (l - 1)) in *. assert (E2 : 2 ^ l = 2 * p) by (unfold p; rewrite <- Z.pow_succ_r by lia; f_equal; lia). assert (Hp32 : p <= 2 ^ 31) by (apply Z.pow_le_mono_r; lia).
  unfold reciprocal_value. rewrite (wrap_small 32 (d - 1)) by lia. rewrite <- El, Z.shiftl_1_l, E2. rewrite (wrap_small 64 (2 * p - d)) by lia. rewrite (wrap_small 64 (2 ^ 32 * (2 * p - d))) by lia. replace (d =? 0) with false by lia. set (q := 2 ^ 32 * (2 * p - d) / d). assert (Hq : 0 <= q < 2 ^ 32 - 1) by (unfold q; split; [apply Z.div_pos; lia|apply Z.div_lt_upper_bound; lia]). rewrite (wrap_small 64 (q + 1)), (wrap_small 32 (q + 1)) by lia. rewrite (Z.min_r l 1), (Z.max_l (l - 1) 0) by lia. rewrite !wrap_small by lia. exists (q + 1). split; [done|]. split; [lia|]. replace (2 ^ 32 * (2 * p)) with (2 ^ 32 * (2 * p - d) + 2 ^ 32 * d) by lia. rewrite Z.div_add by lia. fold q. lia.
Qed.

Lemma reciprocal_divide_spec a d m l : 0 <= a < 2 ^ 32 -> 1 < d < 2 ^ 32 -> l = fls32 (d - 1) -> 0 < m < 2 ^ 32 -> 2 ^ 32 + m = 2 ^ 32 * 2 ^ l / d + 1 -> reciprocal_divide a (Reciprocal m 1 (l - 1)) = a / d.
Proof.
  intros Ha Hd El Hm EM. pose proof (fls32_bounds d Hd) as (Hl&_&Hp). rewrite <- El in *. unfold reciprocal_divide. cbn [rm sh1 sh2]. rewrite (wrap_small 64 (a * m)) by nia. rewrite (Z.shiftr_div_pow2 (a * m) 32) by lia. set (t := a * m / 2 ^ 32). assert (Ht : 0 <= t <= a) by (unfold t; split; [apply Z.div_pos; nia|apply Z.div_le_upper_bound; nia]). rewrite (wrap_small 32 t), (wrap_small 32 (a - t)) by lia. rewrite !Z.shiftr_div_pow2 by lia. change (2 ^ 1) with 2. rewrite wrap_small by lia.
  rewrite <- (magic_divide a d (2 ^ 32 + m) (2 ^ 32) (2 ^ l)) by lia. replace (t + (a - t) / 2) with ((a + t) / 2) by lia. rewrite Z.div_div by lia. replace (2 * 2 ^ (l - 1)) with (2 ^ l) by (rewrite <- Z.pow_succ_r by lia; f_equal; lia). rewrite <- (Z.div_div (a * (2 ^ 32 + m))) by lia. f_equal. replace (a * (2 ^ 32 + m)) with (a * m + a * 2 ^ 32) by lia. rewrite Z.div_add by lia. fold t. lia.
Qed.

(** ** Continued fractions *)

(** The remainders [n], [d] and the convergents, while the loop runs on [N] and [D]. *)
Record convergents (N D n d n0 d0 n1 d1 sg : Z) : Prop := {
  cv_range : 0 <= n /\ 0 <= d /\ 0 <= n0 /\ 0 <= d0 /\ 0 <= n1 /\ 0 <= d1;
  cv_sign : sg = 1 \/ sg = -1;
  cv_num : N = n1 * n + n0 * d;
  cv_den : D = d1 * n + d0 * d;
  cv_det : n1 * d0 - n0 * d1 = sg;
  cv_gcd : Z.gcd n d = Z.gcd N D
}.

Lemma convergents_step N D n d n0 d0 n1 d1 sg : convergents N D n d n0 d0 n1 d1 sg -> 0 < d -> convergents N D d (n mod d) n1 d1 (n0 + n / d * n1) (d0 + n / d * d1) (- sg).
Proof.
  intros [(H1&H2&H3&H4&H5&H6) Hsg Hn Hd Hdet Hg] Hd0. pose proof (Z.mod_pos_bound n d Hd0). pose proof (Z.div_mod n d ltac:(lia)) as Hdm. pose proof (Z.div_pos n d H1 Hd0) as Ha. split; [repeat split; nia|lia|nia|nia|nia|]. by rewrite Z.gcd_comm, Z.gcd_mod, Z.gcd_comm by lia.
Qed.

(** How far the fraction [x / y] is off, times [D * y]. *)
Definition off (N D x y : Z) : Z := Z.abs (N * y - D * x).

(** Fractions within the limits. *)
Definition within (max_n max_d x y : Z) : Prop := 0 <= x <= max_n /\ 0 <= y <= max_d /\ (x <> 0 \/ y <> 0).

(** No fraction before the next convergent is less off than a convergent. *)
Lemma convergent_best N D n d n0 d0 n1 d1 sg max_n max_d x y : convergents N D n d n0 d0 n1 d1 sg -> max_n < n1 \/ max_d < d1 -> within max_n max_d x y -> off N D n0 d0 <= off N D x y.
Proof.
  intros [(H1&H2&H3&H4&H5&H6) Hsg Hn Hd Hdet _] Hlim (Hx&Hy&Hxy). unfold off. set (u := sg * (n1 * y - d1 * x)). set (v := sg * (d0 * x - n0 * y)). assert (Hs2 : sg * sg = 1) by (destruct Hsg as [->| ->]; done).
  assert (Ex : x = u * n0 + v * n1) by (transitivity (sg * (n1 * d0 - n0 * d1) * x); [rewrite Hdet, Hs2; lia|unfold u, v; lia]). assert (Ey : y = u * d0 + v * d1) by (transitivity (sg * (n1 * d0 - n0 * d1) * y); [rewrite Hdet, Hs2; lia|unfold u, v; lia]). clearbody u v.
  assert (E0 : N * d0 - D * n0 = sg * n) by (rewrite Hn, Hd, <- Hdet; lia). assert (E1 : N * y - D * x = sg * (u * n - v * d)) by (rewrite Hn, Hd, Ex, Ey, <- Hdet; lia). rewrite E0, E1, !Z.abs_mul. replace (Z.abs sg) with 1 by lia. rewrite !Z.mul_1_l, (Z.abs_eq n) by done.
  assert (Hpos : forall a b, 1 <= a -> 0 <= b -> b <= a * b) by (clear; intros a b Ha Hb; nia). assert (Hneg : forall a b, a <= 0 -> 0 <= b -> a * b <= 0) by (clear; intros a b Ha Hb; nia). destruct (Z.lt_trichotomy v 0) as [Hv|[->|Hv]].
  - assert (Hu : 1 <= u) by (destruct (Z.le_gt_cases u 0) as [Hu|]; [|lia]; pose proof (Hneg u n0 Hu H3); pose proof (Hneg u d0 Hu H4); pose proof (Hneg v n1 ltac:(lia) H5); pose proof (Hneg v d1 ltac:(lia) H6); lia). pose proof (Hpos u n Hu H1). pose proof (Hneg v d ltac:(lia) H2). lia.
  - assert (u <> 0) by (intros ->; lia). rewrite Z.mul_0_l, Z.sub_0_r, Z.abs_mul, (Z.abs_eq n) by done. apply Hpos; lia.
  - assert (Hu : u <= -1) by (destruct (Z.le_gt_cases u (-1)) as [|Hu]; [done|]; pose proof (Hneg (- u) n0 ltac:(lia) H3); pose proof (Hneg (- u) d0 ltac:(lia) H4); pose proof (Hpos v n1 ltac:(lia) H5); pose proof (Hpos v d1 ltac:(lia) H6); lia). pose proof (Hpos (- u) n ltac:(lia) H1). pose proof (Hpos v d ltac:(lia) H2). lia.
Qed.

(** What the loop finds. *)
Record found (N D max_n max_d p q : Z) : Prop := {
  found_within : within max_n max_d p q;
  found_lowest : Z.gcd p q = 1;
  found_best x y : within max_n max_d x y -> off N D p q <= off N D x y
}.

Lemma det_coprime n0 d0 n1 d1 sg : n1 * d0 - n0 * d1 = sg -> sg = 1 \/ sg = -1 -> Z.gcd n0 d0 = 1 /\ Z.gcd n1 d1 = 1.
Proof.
  intros Hd Hs. assert (Hdiv : forall x y, (exists a b, a * x + b * y = 1) -> Z.gcd x y = 1) by (intros x y (a&b&Hab); apply Z.bezout_1_gcd; by exists a, b). split; apply Hdiv; destruct Hs as [->| ->]; [exists (- d1), n1|exists d1, (- n1)|exists d0, (- n0)|exists (- d0), n0]; lia.
Qed.

(** The convergent before one that leaves the limits. *)
Lemma found_before N D max_n max_d n d n0 d0 n1 d1 sg : convergents N D n d n0 d0 n1 d1 sg -> n0 <= max_n -> d0 <= max_d -> max_n < n1 \/ max_d < d1 -> found N D max_n max_d n0 d0.
Proof.
  intros Hc Hn Hd Hlim. pose proof (det_coprime _ _ _ _ _ (cv_det _ _ _ _ _ _ _ _ _ Hc) (cv_sign _ _ _ _ _ _ _ _ _ Hc)) as (Hg&_). pose proof (cv_range _ _ _ _ _ _ _ _ _ Hc). split; [split; [lia|]; split; [lia|]; destruct (Z.eq_dec n0 0) as [->|]; [right; by intros ->|by left]|done|]. intros x y. by eapply convergent_best.
Qed.

(** The last convergent. *)
Lemma found_last N D max_n max_d n n0 d0 n1 d1 sg : convergents N D n 0 n0 d0 n1 d1 sg -> n1 <= max_n -> d1 <= max_d -> found N D max_n max_d n1 d1.
Proof.
  intros [Hr Hsg Hn Hd Hdet _] H1 H2. pose proof (det_coprime _ _ _ _ _ Hdet Hsg) as (_&Hg). split; [split; [lia|]; split; [lia|]; destruct (Z.eq_dec n1 0) as [->|]; [right; by intros ->|by left]|done|]. intros x y _. unfold off. replace (N * d1 - D * n1) with 0 by lia. lia.
Qed.

(** A round of the loop: it ends, or goes on without an overflow. *)
Lemma rational_round fuel N D max_n max_d n d n0 d0 n1 d1 sg : convergents N D n d n0 d0 n1 d1 sg -> n0 <= max_n -> d0 <= max_d -> N < 2 ^ 64 -> D < 2 ^ 64 ->
  (exists p q, rational_loop (S fuel) max_n max_d n d n0 d0 n1 d1 = Ok (p, q) /\ found N D max_n max_d p q) \/
  0 < d /\ n1 <= max_n /\ d1 <= max_d /\ rational_loop (S fuel) max_n max_d n d n0 d0 n1 d1 = rational_loop fuel max_n max_d d (n mod d) n1 d1 (n0 + n / d * n1) (d0 + n / d * d1).
Proof.
  intros Hc Hn0 Hd0 HN HD. pose proof (cv_range _ _ _ _ _ _ _ _ _ Hc) as (H1&H2&H3&H4&H5&H6). cbn [rational_loop]. destruct (Z.ltb_spec max_n n1) as [Hl|Hl]; [left; exists n0, d0; split; [done|]; eapply found_before; [done..|lia]|]. destruct (Z.ltb_spec max_d d1) as [Hl2|Hl2]; [left; exists n0, d0; split; [done|]; eapply found_before; [done..|lia]|]. cbn [orb]. destruct (Z.eqb_spec d 0) as [->|Hne]; [left; exists n1, d1; split; [done|]; by eapply found_last|].
  right. split; [lia|]. split; [done|]. split; [done|]. destruct (convergents_step _ _ _ _ _ _ _ _ _ Hc ltac:(lia)) as [(_&R2&_&_&R5&R6) _ En Ed _ _]. pose proof (Z.div_pos n d H1 ltac:(lia)) as Ha. set (a := n / d) in *. assert (Hb : forall x r, 0 <= x -> 0 <= r -> x <= x * d + r) by (intros x r Hx Hr; assert (x * 1 <= x * d) by (apply Z.mul_le_mono_nonneg_l; lia); lia). pose proof (Hb (n0 + a * n1) (n1 * (n mod d)) R5 ltac:(apply Z.mul_nonneg_nonneg; lia)). pose proof (Hb (d0 + a * d1) (d1 * (n mod d)) R6 ltac:(apply Z.mul_nonneg_nonneg; lia)). pose proof (Z.mul_nonneg_nonneg a n1 Ha H5). pose proof (Z.mul_nonneg_nonneg a d1 Ha H6). rewrite (wrap_small 64 (a * n1)), (wrap_small 64 (a * d1)) by lia. by rewrite !wrap_small by lia.
Qed.

Lemma rational_loop_spec k : forall fuel N D max_n max_d n d n0 d0 n1 d1 sg, convergents N D n d n0 d0 n1 d1 sg -> n0 <= max_n -> d0 <= max_d -> N < 2 ^ 64 -> D < 2 ^ 64 -> d < 2 ^ Z.of_nat k -> (2 * k + 1 <= fuel)%nat ->
  exists p q, rational_loop fuel max_n max_d n d n0 d0 n1 d1 = Ok (p, q) /\ found N D max_n max_d p q.
Proof.
  induction k as [|k IH]; intros fuel N D max_n max_d n d n0 d0 n1 d1 sg Hc Hn0 Hd0 HN HD Hk Hf; (destruct fuel as [|fuel]; [lia|]); (destruct (rational_round fuel N D max_n max_d n d n0 d0 n1 d1 sg Hc Hn0 Hd0 HN HD) as [Hdone|(Hd&Hn1&Hd1&->)]; [done|]); [simpl in Hk; lia|].
  apply convergents_step in Hc; [|done]. destruct fuel as [|fuel]; [lia|]. destruct (rational_round fuel _ _ _ _ _ _ _ _ _ _ _ Hc Hn1 Hd1 HN HD) as [Hdone|(Hr&Hn2&Hd2&->)]; [done|]. apply convergents_step in Hc; [|done]. pose proof (Z.mod_pos_bound n d Hd). pose proof (mod_mod_half d (n mod d) ltac:(lia)). rewrite Nat2Z.inj_succ, Z.pow_succ_r in Hk by lia. eapply IH; [exact Hc|done|done|done|done|lia|lia].
Qed.

(** A fraction in lowest terms is determined by its value. *)
Lemma lowest_unique N D p q : 0 <= N -> 0 < D -> 0 <= p -> 0 <= q -> Z.gcd p q = 1 -> N * q = D * p -> p = N / Z.gcd N D /\ q = D / Z.gcd N D.
Proof.
  intros HN HD Hp Hq Hg He. assert (Hg0 : 0 < Z.gcd N D) by (pose proof (Z.gcd_nonneg N D); assert (Z.gcd N D <> 0) by (intros H0; apply Z.gcd_eq_0 in H0; lia); lia). pose proof (Z.gcd_div_gcd N D (Z.gcd N D) ltac:(lia) eq_refl) as Hcop. set (g := Z.gcd N D) in *. set (N' := N / g) in *. set (D' := D / g) in *. assert (EN : N = g * N') by (apply Z_div_exact_full_2; [lia|]; apply Z.mod_divide; [lia|apply Z.gcd_divide_l]). assert (ED : D = g * D') by (apply Z_div_exact_full_2; [lia|]; apply Z.mod_divide; [lia|apply Z.gcd_divide_r]).
  assert (He' : N' * q = D' * p) by (apply (Z.mul_reg_l _ _ g); [lia|]; rewrite EN, ED in He; lia). assert (HD' : 0 < D') by (unfold D' in *; apply Z.div_str_pos; split; [done|]; apply Z.divide_pos_le; [done|apply Z.gcd_divide_r]).
  assert (Eq : q = D'). { apply Z.divide_antisym_nonneg; [done|lia| |]; [apply (Z.gauss _ p); [exists N'; lia|by rewrite Z.gcd_comm]|apply (Z.gauss _ N'); [exists p; lia|by rewrite Z.gcd_comm]]. }
  split; [|done]. apply (Z.mul_reg_l _ _ D'); [lia|]. rewrite <- He', Eq. lia.
Qed.

(** ** Properties *)

(** C40: [gcd], with Euclid's algorithm, returns the greatest common divisor of any two
    numbers, and [lcm] their least common multiple modulo 2^64; [lcm_not_zero] is the
    other number if one is 0. *)
Theorem gcd_lcm_correct a b : 0 <= a < 2 ^ 64 -> 0 <= b < 2 ^ 64 -> gcd a b = Ok (Z.gcd a b) /\ lcm a b = Ok (u64 (Z.lcm a b)) /\
  (Z.lcm a b < 2 ^ 64 -> lcm_not_zero a b = Ok (if (a =? 0) || (b =? 0) then a + b else Z.lcm a b)).
Proof.
  intros Ha Hb. split; [by apply gcd_spec|]. split; [by apply lcm_spec|]. intros Hl. unfold lcm_not_zero. rewrite lcm_spec by done. cbn [obind]. pose proof (Z.lcm_nonneg a b). rewrite wrap_small by lia. destruct (Z.eqb_spec a 0) as [->|Ha0]; [rewrite Z.lcm_0_l; simpl; by destruct (Z.eqb_spec b 0) as [->|]|]. destruct (Z.eqb_spec b 0) as [->|Hb0]; [rewrite Z.lcm_0_r; simpl; by rewrite Z.add_0_r|]. cbn [orb]. replace (Z.lcm a b =? 0) with false; [done|]. symmetry. apply Z.eqb_neq. intros H0. apply Z.lcm_eq_0 in H0. lia.
Qed.

Lemma gcd_lcm_correct_witness : gcd 12 18 = Ok 6 /\ lcm 12 18 = Ok 36.
Proof. destruct (gcd_lcm_correct 12 18) as (H1&H2&_); [lia|lia|]. by rewrite H1, H2. Defined.

(** C39: [int_sqrt] returns the largest integer whose square is at most the argument. *)
Theorem int_sqrt_correct x : 0 <= x < 2 ^ 64 -> int_sqrt x = Ok (Z.sqrt x).
Proof.
  intros Hx. unfold int_sqrt. destruct (Z.leb_spec x 1); [f_equal; destruct (decide (x = 0)) as [->|]; [done|]; by replace x with 1 by lia|]. apply (sqrt_loop_spec 32 33 x 0 x); [lia|lia|simpl; lia|simpl; lia|lia].
Qed.

Lemma int_sqrt_correct_witness : int_sqrt 99 = Ok 9.
Proof. apply (int_sqrt_correct 99). lia. Defined.

(** C37: Multiplication by the reciprocal divides exactly: for every divisor other than 0
    and every dividend [reciprocal_divide] is the quotient. *)
Theorem reciprocal_divide_correct a d : 0 <= a < 2 ^ 32 -> 0 < d < 2 ^ 32 -> exists R, reciprocal_value d = Ok R /\ reciprocal_divide a R = a / d.
Proof.
  intros Ha Hd. destruct (decide (d = 1)) as [->|Hne].
  - exists (Reciprocal 1 0 0). split; [done|]. unfold reciprocal_divide. cbn [rm sh1 sh2]. rewrite Z.div_1_r, Z.mul_1_r, (wrap_small 64 a) by lia. rewrite (Z.shiftr_div_pow2 a 32), (Z.div_small a) by lia. change (u32 0) with 0. rewrite Z.sub_0_r, !Z.shiftr_0_r, (wrap_small 32 a) by lia. by rewrite wrap_small by lia.
  - destruct (reciprocal_value_spec d _ ltac:(lia) eq_refl) as (m&->&Hm&EM). eexists. split; [done|]. by apply reciprocal_divide_spec; [|lia| | |].
Qed.

Lemma reciprocal_divide_correct_witness : exists R, reciprocal_value 7 = Ok R /\ reciprocal_divide 1000000 R = 142857.
Proof. apply (reciprocal_divide_correct 1000000 7); lia. Defined.

(** C38: [rational_best_approximation] always returns, without an overflow, a fraction in
    lowest terms within the limits for which |N y - D x| is least, and so the given
    fraction itself if its lowest terms are within the limits. That is not always the
    nearest one: for 1/3 with limits 2 it returns 0/1, although 1/2 is nearer, and for
    1000/1 with limits 10 it returns 1/0. *)
Theorem rational_best_approximation_correct N D max_n max_d : 0 <= N < 2 ^ 64 -> 0 < D < 2 ^ 64 -> 0 <= max_n -> 1 <= max_d ->
  (exists p q, rational_best_approximation N D max_n max_d = Ok (p, q) /\ found N D max_n max_d p q /\
    (N / Z.gcd N D <= max_n -> D / Z.gcd N D <= max_d -> p = N / Z.gcd N D /\ q = D / Z.gcd N D)) /\
  rational_best_approximation 1 3 2 2 = Ok (0, 1) /\ rational_best_approximation 1000 1 10 10 = Ok (1, 0).
Proof.
  intros HN HD Hmn Hmd. split; [|done]. destruct (rational_loop_spec 64 (S euclid_rounds) N D max_n max_d N D 0 1 1 0 1) as (p&q&Hrun&Hf); [split; (done || lia)|lia|lia|lia|lia|lia|unfold euclid_rounds; lia|]. exists p, q. split; [exact Hrun|]. split; [done|]. intros Hn Hd. destruct Hf as [(Hp&Hq&_) Hlow Hbest]. assert (Hg0 : 0 < Z.gcd N D) by (pose proof (Z.gcd_nonneg N D); assert (Z.gcd N D <> 0) by (intros H0; apply Z.gcd_eq_0 in H0; lia); lia).
  apply lowest_unique; try done; [lia|lia|lia|lia|]. set (g := Z.gcd N D) in *. assert (EN : N = g * (N / g)) by (apply Z_div_exact_full_2; [lia|]; apply Z.mod_divide; [lia|apply Z.gcd_divide_l]). assert (ED : D = g * (D / g)) by (apply Z_div_exact_full_2; [lia|]; apply Z.mod_divide; [lia|apply Z.gcd_divide_r]). specialize (Hbest (N / g) (D / g)). unfold off in Hbest. replace (N * (D / g) - D * (N / g)) with 0 in Hbest by (rewrite EN at 1; rewrite ED at 2; lia). assert (Hw : within max_n max_d (N / g) (D / g)) by (split; [split; [apply Z.div_pos; lia|done]|]; split; [split; [apply Z.div_pos; lia|done]|]; right; intros H0; rewrite H0 in ED; lia). specialize (Hbest Hw). lia.
Qed.

Lemma rational_best_approximation_correct_witness : exists p q, rational_best_approximation 31415 10000 255 31 = Ok (p, q) /\ found 31415 10000 255 31 p q.
Proof. destruct (rational_best_approximation_correct 31415 10000 255 31) as ((p&q&Hrun&Hf&_)&_); [lia..|]. by exists p, q. Defined.
